(* ===== verification/_CoqProject ===== *)
-Q . S2P
Prelude.v
GoText.v
Json.v
Float64.v
HostMem.v
Budget.v
Signals.v
FunctionPool.v
Scaler.v
Manager.v
KV.v
Jobs.v
WriteBatch.v
Writer.v
Sha256.v
SdkAuth.v
AuthGate.v
Netip.v
Firewall.v
FirewallManager.v
Url.v
Worker.v
Headers.v
Stderr.v
Proxy.v
Limiter.v
OAuth.v
OAuthFlow.v
Safepath.v
Registry.v
Builder.v
Gc.v
Deploy.v
DeployFlow.v
DeployTypes.v
DeployServing.v
Routes.v
Baseline.v
Invoke.v
Runs.v
Inbound.v
Internal.v
Cron.v
Hub.v
Sql.v
Memo.v
Accounts.v
AccountsFlow.v
Webhooks.v
