(* ===== verification/Prelude.v ===== *)
(** * Orva: a verification library for the serverless platform's core

    Orva runs user functions in warm, sandboxed worker processes.  This library
    models the decisions its daemon takes -- who may call, who waits, which
    worker runs what, how many workers there are, what code a function serves,
    where it may connect, what is written where and when it is given up -- as
    executable definitions translated from the Go sources under
    [src/backend/internal/], and proves what they promise.

    ** How the parts interact

    A call of a function comes in by its own path or by a custom route
    ([Routes]).  The invocation endpoint ([Invoke]) looks the function up,
    applies its check ([AuthGate]) and its rate limit ([Limiter]), reserves the
    place of the record and hands the request to the proxy ([Proxy]), which
    charges it against the ingress budget ([Budget]), filters its headers
    ([Headers]) and asks the pool manager ([Manager]) for a worker.  The
    exchange with the worker is a framed JSON protocol over its pipes
    ([Worker], [Json]); what the function wrote to its standard error becomes
    log entries ([Stderr]), its duration feeds the latency baseline
    ([Baseline]), and the run is recorded.  In the manager a call
    queues, takes a concurrency slot and a worker of the function's current pool generation
    ([FunctionPool]) and a host-wide slot, and gives all of it back when it is
    released.  The pool records demand ([Signals]); every tick the autoscaler
    ([Scaler]) sizes the pools from it, and every worker it starts reserves
    memory and CPU from one host tracker ([HostMem]).  A worker carries a
    credential ([SdkAuth], over [Sha256]) that opens the key-value store ([KV])
    and the job queue ([Jobs]) to it; jobs and webhook deliveries are run by
    scheduler ticks, and so are the schedules that are due ([Cron]).  Inbound
    webhooks ([Inbound]) and calls from function to function ([Internal]) come
    in past checks of their own; these three run a function without the proxy,
    through what [Runs] has.  What happens is published on one hub ([Hub]), and
    a listener turns its events into signed deliveries to the subscribers of
    the operator ([Webhooks]).  Execution records and logs go through the asynchronous
    writer ([Writer]), whose consumer commits them in batches ([WriteBatch]).

    What a function is lives in the registry in front of two tables
    ([Registry]).  A deployment builds the uploaded archive into a version
    directory ([Builder]), the build queue and the handlers record it and move
    the [current] link ([Deploy]), and a collector removes old versions and
    caches ([Gc]); [DeployFlow] runs all of that concurrently.  Workers and
    builds reach the network through a policy compiled from the blocklist
    ([Firewall], [FirewallManager]).  Tool clients are let in by an OAuth server
    ([OAuth], [OAuthFlow]), people by their sessions and keys ([Accounts],
    [AccountsFlow]).

    ** Files, sources, correspondence

    - [Prelude]: record update ([r <| f := v |>]), 64-bit wrap-around
      ([wrap64]), durations in nanoseconds, results ([Ok]/[Err]), [select]
      ([go_select]: the scheduler's choice is an argument), sums over lists and
      maps, the case-analysis tactics.
    - [GoText]: byte strings: UTF-8, prefixes, trimming, [ParseInt], byte
      order, JSON validity.  [Float64]: Go's [float64] as the Standard
      Library's executable binary64 at precision 53, exact on integers below 2^53.
      [Json]: Go's encoding and decoding of JSON values.  [Netip]: addresses and
      prefixes of package netip.  [Url]: the part of package url that redirect
      URIs need.
    - [HostMem] ([pool/hostmem.go]): [hostMemTracker]; [reserve], [release],
      [refresh], the two memory gates, the cgroup walks.  Machine [books_step]:
      holders that claim and return in any order.
    - [Budget] ([pool/request_budget.go]): [requestBudget], [requestCharge],
      [queueLimits], [reserve]/[release]; machine [ingress_step].
    - [Signals] ([pool/function_pool.go]): arrival buckets, sample rings,
      [durationP95], [snapshotDemand].
    - [FunctionPool] ([pool/function_pool.go], [startSpawn] and [scaleDown] of
      [pool/autoscaler.go]): the [pstate] is the pool, the host tracker and the
      worker processes.  Calls that others can interrupt are cut at their
      channel operations and lock releases; a [thread] is a goroutine between
      two pieces and [pool_step] interleaves them with crashes, retirement and
      the claims of other pools.
    - [Scaler] ([pool/autoscaler.go]): [computeDesiredAt], [evaluate],
      [reclaimBorrowedIdle], [evaluateAll] on a [fleet] of pools.
    - [Manager] ([pool/pool.go], [sandbox/limiter.go]): [Acquire] as the phases
      [enter], [slot_phase], [worker_phase], [host_phase], [hand_over];
      [Release], [getOrCreatePool], [retirePool], the configuration of a new
      pool.  Machine [mgr_step]: a request is the holder of tokens.
    - [Worker] ([sandbox/worker.go]): frames, the reader of a pipe, the ring of
      standard-error bytes, [DispatchEx], [NextFrame], [Dispatch].  A [wait]
      says which bytes arrive while the code waits and how the wait ends.
    - [Headers], [Stderr], [Proxy] ([proxy/proxy.go], [proxy/logparser.go]):
      [SanitizeForwardedHeaders], [captureRequest], the guards of an answer;
      [finalizeStderr]; [Forward] on a response [writer], with the resources it
      takes and gives back as a list of [effect]s.  [serve] is a worker's life
      over several calls.
    - [Limiter] ([server/handlers/ratelimit.go], [urlhint/host.go]): token
      buckets and [ClientIP].  [Routes] ([database/routes.go],
      [server/handlers/routes.go], the catch-all of [server/router.go]).
      [Baseline] ([metrics/baseline.go]).
    - [Invoke] ([server/handlers/invoke.go], [errmap.go], [respond]):
      [ServeHTTP] as [admission], the call of [Forward] and [settle_run], on the
      state that outlives a request ([invoke_state]), in surroundings
      ([invoke_env]) that are arguments.
    - [Runs]: what the platform's own runs share: the synthetic event, the
      exchange, the record.  [Inbound] ([server/handlers/inbound_webhook.go],
      [inbound_webhook_trigger.go], [database/inbound_webhooks.go]): the table,
      the five signatures, the public endpoint.  [Internal]
      ([server/handlers/internal_invoke.go]): both endpoints as [callee], the
      exchange and the record.  [Cron] ([database/cron.go],
      [server/handlers/cron.go], the cron part of [scheduler/scheduler.go]):
      the table and its handlers, [fireCron], and ticks, runs and edits as the
      machine [cron_step]; expressions, zones and the calendar are parameters.
    - [Hub] ([server/events/hub.go]): subscribers, their buffered channels and
      the shutdown, as a machine over time.  [Webhooks]
      ([database/webhooks.go], [server/handlers/webhooks.go],
      [server/events/webhook_fanout.go], [deliverWebhook]): subscriptions, the
      fan-out, one attempt at a delivery; its queue is that of [Jobs].  [Sql]:
      the operator [LIKE] of the statements.
    - [KV] ([database/kv.go]): every operation, on a map from (function, key)
      to rows; an SQL statement is the relational operation it denotes.
    - [Jobs] ([database/jobs.go], [database/webhooks.go], [runJob] and the tick
      of [scheduler/scheduler.go]): both tables are instances of [QueueRow],
      and the statements are proved once against that interface; machine
      [queue_step].
    - [WriteBatch], [Writer] ([database/async.go]): [commit] with its grouping,
      savepoint pass and retries; leases, lanes and byte counters, producers
      and the consumer loop as the machine [wstep].
    - [Sha256], [SdkAuth] ([sdkauth/auth.go]): SHA-256, HMAC, base64url with
      published test vectors; [Mint], [Verify], execution bindings.
    - [AuthGate] ([server/middleware_auth.go], [server/handlers/invoke_auth.go],
      the two row lookups of [database/users.go] and [database/keys.go]): the
      middleware with its session and key caches over time ([gstep]), and
      [authorizeInvoke].
    - [Accounts] ([database/users.go], [database/keys.go],
      [server/handlers/auth.go], [server/handlers/keys.go],
      [bootstrapAdminKey]): the tables, the handlers and the middleware as
      requests cut between their accesses ([proceed]); alone, a request gets the
      verdict of [AuthGate] ([middleware_alone_is_the_gate]).  [AccountsFlow]:
      them interleaved, with the sweep of sessions and restarts.  [Memo]: a memo
      in front of a table, the abstract specification ([move]) of which both
      caches are refinements ([any_moves]).
    - [Firewall] ([firewall/policy.go], [database/blocklist.go]): rows to
      targets ([parseTarget], [canonPrefixes]), [compile], the rendered file
      ([render], [genOf]) and the daemon's own decisions ([Blocks]).
      [FirewallManager] ([firewall/manager.go], [nstun.go], [dns.go]): refresh,
      publication and the rate-limited recycling of workers, as a machine over
      time.
    - [OAuth] ([oauth/crypto.go], [scopes.go], [clients.go],
      [database/oauth.go]): scopes, redirect URIs, proof keys and the three
      tables.  [OAuthFlow] ([oauth/handlers.go], [mcp/auth.go],
      [server/handlers/oauth_apps.go]): the endpoints as requests cut between
      their reads and writes ([advance]).
    - [Safepath] ([safepath/safepath.go], [fnScopedPath]): [filepath.Clean] and
      the containment gates.
    - [Registry] ([registry/registry.go], [database/functions.go],
      [database/deployments.go]): rows, statements, cache and events.
    - [Builder] ([builder/builder.go], [validator.go], [syntax.go],
      [activate.go]): a tree of files ([tree]) per version, the whole pipeline
      [Build], the link.  The archive's contents, the JSON decoder, the host
      outside the data directory and the sandboxed commands are the fields of
      [host].
    - [Gc] ([builder/gc.go], [buildcache.go]): [pruneFunction],
      [sweepBuildCaches], [sweepOrphanFunctionDirs], [tick].
    - [Deploy] ([server/handlers/functions.go], [errmap.go],
      [builder/queue.go]): [Create], [Update], [Delete_], [Deploy], [Rollback]
      and [runJob] on one [world], each also in the parts between which others
      can run.
    - [DeployFlow]: those parts as threads under the per-function lock, with
      the collector and restarts ([exec]); its abstract specification is the
      [ledger] of deployments.  [DeployTypes]: what a valid configuration is.
      [DeployServing]: the relation between table and disk.

    ** What the theorems show

    - Conservation along every interleaving: what is counted is exactly what is
      held.  [admission_tokens_exact] (queue counters, semaphores, host
      limiter), [pool_books_exact] (workers, starts, reservations of a pool),
      [writer_books_exact] (slots, leases, bytes), [hostmem_books_balanced].
    - Calls: [code_runs_only_past_every_guard], [every_run_is_recorded_once] and
      [retry_after_means_not_run] for the endpoint;
      [every_request_gets_its_own_answer] (over any sequence of calls, failures
      and cuts on one worker), [forward_gives_back],
      [invalid_status_wedges_the_worker], [frames_survive_fragmentation],
      [function_reads_the_request]; [credentials_stay_out],
      [sandbox_headers_exact]; [the_most_specific_route_answers],
      [custom_routes_never_shadow_the_platform];
      [a_burst_gets_exactly_the_limit],
      [forged_addresses_do_not_choose_the_bucket];
      [outliers_are_judged_by_the_last_hundred].
    - The platform's own runs: [only_signed_bodies_run],
      [signed_bodies_come_in]; [calls_are_their_callers_children],
      [call_chains_are_bounded]; [a_schedule_runs_alone],
      [every_slot_runs_once] (with [stale_ticks_run_a_slot_twice] and
      [edits_during_a_run_lose_their_time] where its conditions fail),
      [fired_runs_are_settled], [stored_schedules_stay_valid].
    - Events: [subscribers_miss_only_what_overflows],
      [events_reach_their_subscribers], [attempts_are_signed_and_settled].
    - Nothing lost: [commit_pass_exact] and [shutdown_settles_everything] (every
      write has exactly one outcome, the database is the written jobs in
      order), [retries_are_bounded], [queue_runs_exclusively],
      [enqueue_one_row_per_key], and [retry_of_running_job_runs_twice] where an
      operator's retry breaks the exclusion.
    - Deployments: [deployments_settle_once] (a settled deployment never changes
      again), [recorded_version_is_what_serves] (table, link and disk agree in
      every interleaving that avoids the disturbances [calm] names, each of
      which has an example that breaks it), [configuration_stays_valid],
      [rollback_restores_the_deployment], [registry_is_the_table].
    - Builds: [build_publishes_complete_versions], [extraction_stays_inside],
      [validated_paths_stay_inside], [installs_fail_closed].
    - Collection: [prune_keeps_active_and_newest], [cache_sweep_is_bounded],
      [tick_spares_serving_code].
    - The store: [kv_batch_atomic], [kv_paging_complete], [kv_cas_exact],
      [kv_put_get].
    - Scaling and generations: [computeDesired_admissible],
      [retirement_is_final], [release_is_generation_bound].
    - Egress: [policy_blocks_exactly], [generation_is_canonical],
      [egress_fails_closed], [recycles_are_not_lost].
    - Authority: [sdk_credentials_exact], [revocation_is_bounded],
      [gate_admits_only_authorised], [invoke_auth_exact];
      [access_goes_back_to_its_roots], [revoked_credentials_stop] (with
      [a_request_in_flight_brings_a_session_back] where its exception is real)
      and [minted_keys_admit_what_they_say];
      [oauth_access_comes_from_consent],
      [codes_and_refresh_tokens_are_spent_once],
      [removed_application_is_locked_out].

    Each file has further theorems of its components (signals, fair
    evaluation, hysteresis, surgical reclaim, counters, backoff, single
    reservations), under their own names.

    ** Conventions, bounds, fuel

    Times are nanosecond counts and arguments of the operation that reads the
    clock.  Integers that can overflow are wrapped where the code adds or
    multiplies; counters that only count live objects are plain integers.  Every
    random or scheduling choice (the branch of a [select], the order of a map
    walk, a nonce, an identifier, which write fails) is an argument, so that
    the theorems quantify over it.

    Fuel appears where a loop is not structural, and each time a lemma or the
    theorem itself says how much is enough: [acquire_fast] needs one step more
    than there are parked workers, [all_pages] one page more than keys,
    [exec_loop] one step per job ([exec_loop_fuel]), [fmtIntStr_loop] the
    twenty digits of the code's own buffer, [sha256] one block per 64 bytes.

    Code outside the repository is a parameter: SQLite in [WriteBatch] and
    [Writer] is [exec], the effect of a statement, with one documented property
    of multi-row INSERTs ([multi_row_insert]); faults of the driver are an input
    list.  The resolver, the archive reader, the JSON decoder and the jailed
    commands are arguments without hypotheses.  The theorem on credentials
    assumes that sixteen random bytes do not repeat and that a presenter knows
    no MAC that was not issued; those on OAuth, that issued secrets do not
    repeat, those on accounts, that drawn tokens do not repeat and keys do not
    collide; bcrypt is a parameter without hypotheses.  [every_slot_runs_once]
    assumes that the calendar gives times later than the one it is asked about; [impossible_schedules_never_rest] shows what
    the zero time of package cron does.

    ** Not modelled

    Operating-system effects (nsjail, cgroup files, seccomp, pipes): a spawn
    succeeds or fails and a worker may die at any moment, as inputs of the
    machines.  HTTP decoding, the middleware of the router, the CLI, the dashboard,
    the MCP and AI adapters: glue around the modelled parts.  The shutdown
    drain and prewarming of the pool manager, [acquireDirect] (pools built by
    hand in tests), the writer without its goroutine, the synchronous build of
    a daemon without a queue, wall-clock statistics, build logs.  In [AuthGate]
    a request is one step; [AccountsFlow] cuts it, and shows what an eviction
    that overtakes a lookup in flight leaves behind.  Keys minted or deleted
    through the tool endpoint are not in that machine.  In [DeployFlow] a lookup
    is one step, and [lookup_racing_delete_caches_a_ghost] shows what that hides.  Not
    modelled, though they have logic of their own: replays, channels, backups. *)
From stdpp Require Export base gmap strings list fin_maps sorting.
From Stdlib Require Export ZArith Lia.

#[export] Set Default Goal Selector "!".

(* ------------------------------------------------------------------ *)
(** ** Record update

    [eta r] rebuilds a record from its projections.  [set_field f g r] is [r]
    with [g] applied to its field [f]; the setter is found by abstracting the
    projection [f r] out of [eta r], so a record only declares [Eta]. *)

Class Eta (R : Type) := eta : R -> R.

Class Setter {R T : Type} (f : R -> T) := set_field : (T -> T) -> R -> R.
Arguments set_field {R T} f {_} _ _ /.

Ltac build_setter f :=
  lazymatch type of f with
  | ?R -> ?T =>
    let g := fresh "g" in
    let r := fresh "r" in
    intros g r;
    let e := constr:(eta r) in
    let e := eval hnf in e in
    lazymatch (eval pattern (f r) in e) with
    | ?k _ => let b := eval cbv beta in (k (g (f r))) in exact b
    end
  end.

#[export] Hint Extern 0 (Setter ?f) =>
  unfold Setter; build_setter f : typeclass_instances.

Declare Scope orva_scope.
Delimit Scope orva_scope with orva.
#[warnings="-postfix-notation-not-level-1"]
Notation "r <| f := v |>" := (set_field f (fun _ => v) r)
  (at level 12, left associativity, f at next level) : orva_scope.
#[warnings="-postfix-notation-not-level-1"]
Notation "r <| f ::= g |>" := (set_field f g r)
  (at level 12, left associativity, f at next level) : orva_scope.
Open Scope orva_scope.

(* ------------------------------------------------------------------ *)
(** ** Go integers and durations *)

Definition int64_max : Z := 9223372036854775807.
Definition int64_min : Z := -9223372036854775808.

(** Two's complement wrap-around to 64 bits, the meaning of [+], [-], [*]
    on Go's [int64] and [int]. *)
Definition wrap64 (z : Z) : Z :=
  ((z + 9223372036854775808) mod 18446744073709551616 - 9223372036854775808)%Z.

Definition in_int64 (z : Z) : Prop := (int64_min <= z <= int64_max)%Z.

(** Instants and durations are nanosecond counts, as in package [time]. *)
Definition nanosecond : Z := 1.
Definition millisecond : Z := 1000000.
Definition second : Z := 1000000000.
Definition minute : Z := 60000000000.
Definition hour : Z := 3600000000000.

(** A fallible Go call returns a value or an error. *)
Inductive res (E A : Type) : Type :=
| Ok (a : A)
| Err (e : E).
Arguments Ok {E A} a.
Arguments Err {E A} e.

#[export] Instance res_eq_dec {E A} `{EqDecision E, EqDecision A} : EqDecision (res E A).
Proof. solve_decision. Defined.

Definition is_ok {E A} (r : res E A) : bool :=
  match r with Ok _ => true | Err _ => false end.

(** [select]: one of the ready communication cases, picked by [pick]; the
    default branch when none is ready.  [None] means the statement blocks. *)
Definition go_select {A} (pick : nat) (cases : list (option A)) (default : option A) : option A :=
  let ready := omap id cases in
  match ready with
  | [] => default
  | _ => nth_error ready (pick mod length ready)
  end.

(* ------------------------------------------------------------------ *)
(** ** Sums over lists and finite maps *)

Definition zsum {A} (f : A -> Z) (l : list A) : Z :=
  foldr (fun a acc => (f a + acc)%Z) 0%Z l.

Definition msum {K V} `{Countable K} (f : V -> Z) (m : gmap K V) : Z :=
  map_fold (fun _ v acc => (f v + acc)%Z) 0%Z m.

(* ------------------------------------------------------------------ *)
(** ** Tactics *)

(** Turn boolean integer tests in the context into propositions. *)
Ltac zbool :=
  repeat match goal with
  | H : (_ && _)%bool = true |- _ => apply andb_true_iff in H; destruct H
  | H : (_ || _)%bool = false |- _ => apply orb_false_iff in H; destruct H
  | H : negb _ = true |- _ => apply negb_true_iff in H
  | H : negb _ = false |- _ => apply negb_false_iff in H
  | H : (_ <? _)%Z = true |- _ => apply Z.ltb_lt in H
  | H : (_ <? _)%Z = false |- _ => apply Z.ltb_ge in H
  | H : (_ <=? _)%Z = true |- _ => apply Z.leb_le in H
  | H : (_ <=? _)%Z = false |- _ => apply Z.leb_gt in H
  | H : (_ =? _)%Z = true |- _ => apply Z.eqb_eq in H
  | H : (_ =? _)%Z = false |- _ => apply Z.eqb_neq in H
  | H : bool_decide _ = true |- _ => apply bool_decide_eq_true in H
  | H : bool_decide _ = false |- _ => apply bool_decide_eq_false in H
  end.

(** Deciding a byte pattern: every other byte falls through. *)
Ltac byte_pattern c :=
  match goal with |- context [match ?b with _ => _ end] =>
    let E := fresh "E" in destruct (Z.eqb b c) eqn:E;
    [apply Z.eqb_eq in E; subst b; reflexivity
    |apply Z.eqb_neq in E; repeat (match goal with |- context [match ?p with _ => _ end] => destruct p end; try reflexivity; try (exfalso; apply E; reflexivity))]
  end.

(** Split every [if] on a boolean in the goal, recording the test. *)
Ltac split_ifs :=
  repeat match goal with
  | |- context [if ?b then _ else _] =>
    lazymatch type of b with
    | bool => let E := fresh "E" in destruct b eqn:E
    end
  end; zbool.

(** The same for the hypothesis [H], closing the contradictory branches. *)
Ltac split_ifs_in H :=
  repeat match type of H with
  | context [if ?b then _ else _] =>
    lazymatch type of b with
    | bool => let E := fresh "E" in destruct b eqn:E; try discriminate H
    end
  end; zbool.

(** Case analysis on one [match] of a hypothesis, keeping the equation. *)
Ltac case_in H :=
  match type of H with
  | context [match ?x with _ => _ end] =>
    let E := fresh "E" in destruct x eqn:E; try discriminate H
  end.

(* ------------------------------------------------------------------ *)
(** ** Lemmas *)

Section ListSums.
Context {A : Type} (f : A -> Z).

Lemma zsum_nil : zsum f [] = 0%Z.
Proof. reflexivity. Qed.

Lemma zsum_cons a l : zsum f (a :: l) = (f a + zsum f l)%Z.
Proof. reflexivity. Qed.

Lemma zsum_app l1 l2 : zsum f (l1 ++ l2) = (zsum f l1 + zsum f l2)%Z.
Proof. induction l1 as [|a l1 IH]; simpl; [lia|]. rewrite IH. lia. Qed.

Lemma zsum_perm l1 l2 : Permutation l1 l2 -> zsum f l1 = zsum f l2.
Proof. induction 1; simpl; lia. Qed.

Lemma zsum_nonneg l : Forall (fun a => (0 <= f a)%Z) l -> (0 <= zsum f l)%Z.
Proof. induction 1; simpl; lia. Qed.
End ListSums.

Lemma zsum_plus {A} (f g : A -> Z) l :
  zsum (fun a => (f a + g a)%Z) l = (zsum f l + zsum g l)%Z.
Proof. induction l; simpl; lia. Qed.

Lemma zsum_ext {A} (f g : A -> Z) l : (forall a, a ∈ l -> f a = g a) -> zsum f l = zsum g l.
Proof.
  induction l as [|a l IH]; intros H; simpl; [done|].
  rewrite (H a) by left. rewrite IH; [done|]. intros; apply H. by right.
Qed.

#[export] Instance zsum_proper {A} (f : A -> Z) : Proper (Permutation ==> eq) (zsum f).
Proof. intros l1 l2 H. by apply zsum_perm. Qed.

Section MapSums.
Context {K V : Type} `{Countable K} (f : V -> Z).
Implicit Types m : gmap K V.

Lemma msum_empty : msum f (∅ : gmap K V) = 0%Z.
Proof. unfold msum. by rewrite map_fold_empty. Qed.

Lemma msum_insert_new m k v : m !! k = None -> msum f (<[k := v]> m) = (f v + msum f m)%Z.
Proof.
  intros Hk. unfold msum. rewrite map_fold_insert_L; auto. intros; lia.
Qed.

Lemma msum_delete m k v : m !! k = Some v -> msum f (delete k m) = (msum f m - f v)%Z.
Proof.
  intros Hk. rewrite <- (insert_delete_id m k v Hk) at 2.
  rewrite msum_insert_new; [lia|]. apply lookup_delete_eq.
Qed.

Lemma msum_delete_none m k : m !! k = None -> msum f (delete k m) = msum f m.
Proof. intros Hk. by rewrite delete_id. Qed.

Lemma msum_insert_some m k v w :
  m !! k = Some w -> msum f (<[k := v]> m) = (msum f m - f w + f v)%Z.
Proof.
  intros Hk. rewrite <- insert_delete_eq, msum_insert_new by apply lookup_delete_eq.
  rewrite (msum_delete _ _ w) by done. lia.
Qed.

Lemma msum_nonneg m : map_Forall (fun _ v => (0 <= f v)%Z) m -> (0 <= msum f m)%Z.
Proof.
  induction m as [|k v m Hk IH] using map_ind; intros Hall; [by rewrite msum_empty|].
  rewrite msum_insert_new by done.
  apply map_Forall_insert in Hall as [Hv Hm]; [|done]. specialize (IH Hm). lia.
Qed.

Lemma msum_lookup_le m k v :
  map_Forall (fun _ v => (0 <= f v)%Z) m -> m !! k = Some v -> (f v <= msum f m)%Z.
Proof.
  intros Hall Hk. pose proof (msum_delete m k v Hk) as Hd.
  pose proof (msum_nonneg (delete k m)) as Hn.
  assert (Hf : map_Forall (fun _ v => (0 <= f v)%Z) (delete k m)) by by apply map_Forall_delete.
  specialize (Hn Hf). lia.
Qed.
End MapSums.

Create Rewrite HintDb orva.
#[export] Hint Rewrite @zsum_nil @zsum_cons @zsum_app @msum_empty : orva.

Lemma wrap64_id z : in_int64 z -> wrap64 z = z.
Proof.
  unfold in_int64, int64_min, int64_max, wrap64. intros.
  rewrite Z.mod_small by lia. lia.
Qed.

Lemma wrap64_range z : in_int64 (wrap64 z).
Proof.
  unfold in_int64, int64_min, int64_max, wrap64.
  pose proof (Z.mod_pos_bound (z + 9223372036854775808) 18446744073709551616 ltac:(lia)). lia.
Qed.

Lemma go_select_in {A} pick (cases : list (option A)) d x :
  go_select pick cases d = Some x -> Some x ∈ cases \/ (d = Some x /\ Forall (fun c => c = None) cases).
Proof.
  unfold go_select. intros Hs. destruct (omap id cases) as [|y ys] eqn:E.
  - right. split; [done|]. apply Forall_forall. intros [c|] Hc; [|done].
    exfalso. assert (c ∈ omap id cases) as Hin by (apply list_elem_of_omap; eauto).
    rewrite E in Hin. inversion Hin.
  - left. apply nth_error_In in Hs. rewrite <- E in Hs.
    apply list_elem_of_In, list_elem_of_omap in Hs as (c & Hc & Hid).
    simpl in Hid. by subst.
Qed.

Lemma go_select_none {A} pick (cases : list (option A)) d :
  go_select pick cases d = None -> d = None /\ Forall (fun c => c = None) cases.
Proof.
  unfold go_select. destruct (omap id cases) as [|y ys] eqn:E; intros Hs.
  - split; [done|]. apply Forall_forall. intros [c|] Hc; [|done].
    exfalso. assert (c ∈ omap id cases) as Hin by (apply list_elem_of_omap; eauto).
    rewrite E in Hin. inversion Hin.
  - apply nth_error_None in Hs.
    pose proof (Nat.mod_upper_bound pick (length (y :: ys)) ltac:(done)). simpl in *. lia.
Qed.
