(* ===== verification/GoText.v ===== *)
(** * Byte strings of the Go standard library

    What the sources use of [utf8], [strings] and [encoding/json], on Go
    strings (sequences of bytes): prefixes, slicing and trimming, decimal
    integers, UTF-8 validity and rune count, byte order, JSON validity. *)
From S2P Require Import Prelude.
Open Scope Z_scope.

Definition ord (c : Ascii.ascii) : Z := Z.of_N (Ascii.N_of_ascii c).
Definition chr (z : Z) : Ascii.ascii := Ascii.ascii_of_N (Z.to_N z).

Fixpoint bytes (s : string) : list Z :=
  match s with EmptyString => [] | String c s => ord c :: bytes s end.

Fixpoint of_bytes (l : list Z) : string :=
  match l with [] => EmptyString | z :: l => String (chr z) (of_bytes l) end.

Definition len (s : string) : Z := Z.of_nat (String.length s).

(** Byte-wise order, as [<=] on Go strings and SQLite's BINARY collation. *)
Fixpoint str_leb (s t : string) : bool :=
  match s, t with
  | EmptyString, _ => true
  | String _ _, EmptyString => false
  | String a s, String b t =>
    if ord a <? ord b then true else if ord b <? ord a then false else str_leb s t
  end.

Definition str_le (s t : string) : Prop := str_leb s t = true.
Definition str_lt (s t : string) : Prop := str_leb t s = false.
#[export] Instance str_le_dec s t : Decision (str_le s t).
Proof. unfold str_le. apply _. Defined.
#[export] Instance str_lt_dec s t : Decision (str_lt s t).
Proof. unfold str_lt. apply _. Defined.

(** [strings.HasPrefix]. *)
Fixpoint hasPrefix (p s : string) : bool :=
  match p, s with
  | EmptyString, _ => true
  | String a p, String b s => bool_decide (a = b) && hasPrefix p s
  | _, _ => false
  end.

(* ------------------------------------------------------------------ *)
(** ** Slicing and trimming *)

(** The UTF-8 encodings of the code points [unicode.IsSpace] accepts. *)
Definition spaces : list (list Z) :=
  [[9]; [10]; [11]; [12]; [13]; [32]; [194; 133]; [194; 160]; [225; 154; 128];
   [226; 128; 128]; [226; 128; 129]; [226; 128; 130]; [226; 128; 131]; [226; 128; 132];
   [226; 128; 133]; [226; 128; 134]; [226; 128; 135]; [226; 128; 136]; [226; 128; 137];
   [226; 128; 138]; [226; 128; 168]; [226; 128; 169]; [226; 128; 175]; [226; 129; 159];
   [227; 128; 128]].

Definition starts_with (p l : list Z) : bool := bool_decide (take (length p) l = p).

Fixpoint trim_left (fuel : nat) (sp : list (list Z)) (l : list Z) : list Z :=
  match fuel with
  | O => l
  | S fuel =>
    match List.find (fun p => starts_with p l) sp with
    | Some p => trim_left fuel sp (drop (length p) l)
    | None => l
    end
  end.

(** [strings.TrimSpace]. *)
Definition trimSpace (s : string) : string :=
  let l := trim_left (String.length s) spaces (bytes s) in
  of_bytes (rev (trim_left (length l) (map (@rev Z) spaces) (rev l))).

Fixpoint str_drop (n : nat) (s : string) : string :=
  match n, s with S n, String _ s => str_drop n s | _, _ => s end.

Fixpoint str_take (n : nat) (s : string) : string :=
  match n, s with S n, String c s => String c (str_take n s) | _, _ => EmptyString end.

Definition hasSuffix (suf s : string) : bool :=
  (String.length suf <=? String.length s)%nat &&
  bool_decide (str_drop (String.length s - String.length suf) s = suf).

(* ------------------------------------------------------------------ *)
(** ** Decimal integers *)

Fixpoint parse_digits (n : Z) (s : string) : option Z :=
  match s with
  | EmptyString => Some n
  | String c s =>
    let d := Z.of_N (Ascii.N_of_ascii c) in
    if (48 <=? d) && (d <=? 57) then parse_digits (n * 10 + (d - 48)) s else None
  end.

(** [strconv.ParseInt (s, 10, 64)]; [None] for a syntax or a range error. *)
Definition parseInt64 (s : string) : option Z :=
  let '(neg, digits) :=
    if hasPrefix "-" s then (true, str_drop 1 s)
    else if hasPrefix "+" s then (false, str_drop 1 s) else (false, s) in
  match digits with
  | EmptyString => None
  | _ =>
    match parse_digits 0 digits with
    | Some n =>
      let v := if neg then - n else n in
      if (int64_min <=? v) && (v <=? int64_max) then Some v else None
    | None => None
    end
  end.

(* ------------------------------------------------------------------ *)
(** ** UTF-8 *)

Definition is_cont (b : Z) : bool := (128 <=? b) && (b <=? 191).

(** The first rune of a non-empty string: its width and whether it is valid;
    an invalid byte counts as one rune of width one. *)
Definition decode_rune (l : list Z) : nat * bool :=
  match l with
  | [] => (0%nat, false)
  | a :: r =>
    if a <? 128 then (1%nat, true)
    else if (194 <=? a) && (a <=? 223) then
      match r with b :: _ => if is_cont b then (2%nat, true) else (1%nat, false) | _ => (1%nat, false) end
    else if (224 <=? a) && (a <=? 239) then
      match r with
      | b :: c :: _ =>
        let lo := if a =? 224 then 160 else 128 in
        let hi := if a =? 237 then 159 else 191 in
        if (lo <=? b) && (b <=? hi) && is_cont c then (3%nat, true) else (1%nat, false)
      | _ => (1%nat, false)
      end
    else if (240 <=? a) && (a <=? 244) then
      match r with
      | b :: c :: d :: _ =>
        let lo := if a =? 240 then 144 else 128 in
        let hi := if a =? 244 then 143 else 191 in
        if (lo <=? b) && (b <=? hi) && is_cont c && is_cont d then (4%nat, true) else (1%nat, false)
      | _ => (1%nat, false)
      end
    else (1%nat, false)
  end.

Fixpoint utf8_scan (fuel : nat) (l : list Z) : Z * bool :=
  match fuel, l with
  | O, _ | _, [] => (0, true)
  | S fuel, _ =>
    let '(w, ok) := decode_rune l in
    let '(n, ok') := utf8_scan fuel (drop w l) in
    (n + 1, ok && ok')
  end.

Definition runeCount (s : string) : Z := fst (utf8_scan (String.length s) (bytes s)).
Definition validUTF8 (s : string) : bool := snd (utf8_scan (String.length s) (bytes s)).

(* ------------------------------------------------------------------ *)
(** ** JSON validity ([json.Valid]) *)

Definition is_digit (b : Z) : bool := (48 <=? b) && (b <=? 57).
Definition is_hex (b : Z) : bool :=
  is_digit b || ((97 <=? b) && (b <=? 102)) || ((65 <=? b) && (b <=? 70)).

Fixpoint skip_ws (l : list Z) : list Z :=
  match l with
  | b :: r => if (b =? 32) || (b =? 9) || (b =? 10) || (b =? 13) then skip_ws r else l
  | [] => []
  end.

(** After the opening quote; the rest after the closing one. *)
Fixpoint json_string (l : list Z) : option (list Z) :=
  match l with
  | [] => None
  | 34 :: r => Some r
  | 92 :: 117 :: a :: b :: c :: d :: r =>
    if is_hex a && is_hex b && is_hex c && is_hex d then json_string r else None
  | 92 :: e :: r =>
    if (e =? 34) || (e =? 92) || (e =? 47) || (e =? 98) || (e =? 102) || (e =? 110) || (e =? 114) || (e =? 116)
    then json_string r else None
  | b :: r => if (b <? 32) || (b =? 92) then None else json_string r
  end.

Fixpoint digits (l : list Z) : list Z :=
  match l with b :: r => if is_digit b then digits r else l | [] => [] end.

Definition digits1 (l : list Z) : option (list Z) :=
  match l with b :: r => if is_digit b then Some (digits r) else None | [] => None end.

Definition json_number (l : list Z) : option (list Z) :=
  let l := match l with 45 :: r => r | _ => l end in
  let int := match l with
             | 48 :: r => Some r
             | b :: r => if is_digit b then Some (digits r) else None
             | [] => None
             end in
  match int with
  | None => None
  | Some l =>
    let frac := match l with 46 :: r => digits1 r | _ => Some l end in
    match frac with
    | None => None
    | Some l =>
      match l with
      | e :: r =>
        if (e =? 101) || (e =? 69) then
          match r with
          | s :: r' => if (s =? 43) || (s =? 45) then digits1 r' else digits1 r
          | [] => None
          end
        else Some l
      | [] => Some l
      end
    end
  end.

Fixpoint strip (w l : list Z) : option (list Z) :=
  match w, l with
  | [], _ => Some l
  | a :: w, b :: l => if a =? b then strip w l else None
  | _, [] => None
  end.

Inductive json_mode := MValue | MMembers | MElements.

(** [d] is the nesting depth left of the scanner's 10000. *)
Fixpoint json_scan (fuel : nat) (m : json_mode) (d : Z) (l : list Z) : option (list Z) :=
  match fuel with
  | O => None
  | S fuel =>
    match m with
    | MValue =>
      match skip_ws l with
      | [] => None
      | b :: r =>
        if b =? 34 then json_string r
        else if b =? 123 then
          if d =? 0 then None
          else match skip_ws r with 125 :: r' => Some r' | r' => json_scan fuel MMembers (d - 1) r' end
        else if b =? 91 then
          if d =? 0 then None
          else match skip_ws r with 93 :: r' => Some r' | r' => json_scan fuel MElements (d - 1) r' end
        else if b =? 116 then strip (bytes "rue") r
        else if b =? 102 then strip (bytes "alse") r
        else if b =? 110 then strip (bytes "ull") r
        else json_number (b :: r)
      end
    | MMembers =>
      match skip_ws l with
      | 34 :: r =>
        match json_string r with
        | None => None
        | Some r =>
          match skip_ws r with
          | 58 :: r =>
            match json_scan fuel MValue d r with
            | None => None
            | Some r =>
              match skip_ws r with
              | 44 :: r => json_scan fuel MMembers d r
              | 125 :: r => Some r
              | _ => None
              end
            end
          | _ => None
          end
        end
      | _ => None
      end
    | MElements =>
      match json_scan fuel MValue d l with
      | None => None
      | Some r =>
        match skip_ws r with
        | 44 :: r => json_scan fuel MElements d r
        | 93 :: r => Some r
        | _ => None
        end
      end
    end
  end.

Definition json_valid (s : string) : bool :=
  match json_scan (2 * String.length s + 2) MValue 10000 (bytes s) with
  | Some r => match skip_ws r with [] => true | _ => false end
  | None => false
  end.

(* ------------------------------------------------------------------ *)
(** ** Lemmas *)

Lemma ord_inj a b : ord a = ord b -> a = b.
Proof.
  unfold ord. intros H. apply N2Z.inj in H.
  rewrite <- (Ascii.ascii_N_embedding a), <- (Ascii.ascii_N_embedding b). by rewrite H.
Qed.

Lemma ord_chr z : 0 <= z < 256 -> ord (chr z) = z.
Proof. intros. unfold ord, chr. rewrite Ascii.N_ascii_embedding by lia. lia. Qed.

Lemma bytes_are_bytes s : Forall (fun b => 0 <= b < 256) (bytes s).
Proof.
  induction s as [|c s IH]; simpl; constructor; [|done]. unfold ord.
  pose proof (Ascii.N_ascii_bounded c). lia.
Qed.

Lemma of_bytes_bytes s : of_bytes (bytes s) = s.
Proof.
  induction s as [|c s IH]; simpl; [done|]. rewrite IH. f_equal. unfold chr, ord.
  by rewrite N2Z.id, Ascii.ascii_N_embedding.
Qed.

Lemma bytes_of_bytes l : Forall (fun b => 0 <= b < 256) l -> bytes (of_bytes l) = l.
Proof. induction 1 as [|z l Hz _ IH]; cbn; [done|]. by rewrite ord_chr, IH. Qed.

Lemma bytes_inj s t : bytes s = bytes t -> s = t.
Proof. intros H. by rewrite <- (of_bytes_bytes s), <- (of_bytes_bytes t), H. Qed.

Lemma bytes_app s t : bytes (s ++ t) = bytes s ++ bytes t.
Proof. induction s as [|a s IH]; [reflexivity|]. cbn [bytes app]. rewrite <- IH. reflexivity. Qed.

Lemma length_bytes s : length (bytes s) = String.length s.
Proof. induction s; cbn; by f_equal. Qed.

#[export] Instance str_le_total : Total str_le.
Proof.
  intros s. induction s as [|a s IH]; intros [|b t]; unfold str_le in *; simpl; auto.
  destruct (Z.ltb_spec (ord a) (ord b)), (Z.ltb_spec (ord b) (ord a)); auto; lia.
Qed.

#[export] Instance str_le_trans : Transitive str_le.
Proof.
  intros s. induction s as [|a s IH]; intros [|b t] [|c u]; unfold str_le in *; simpl; try done.
  destruct (Z.ltb_spec (ord a) (ord b)), (Z.ltb_spec (ord b) (ord a)), (Z.ltb_spec (ord b) (ord c)),
    (Z.ltb_spec (ord c) (ord b)), (Z.ltb_spec (ord a) (ord c)), (Z.ltb_spec (ord c) (ord a));
    try done; try lia; apply IH.
Qed.

#[export] Instance str_le_antisym : AntiSymm (=) str_le.
Proof.
  intros s. induction s as [|a s IH]; intros [|b t]; unfold str_le in *; simpl; try done.
  destruct (Z.ltb_spec (ord a) (ord b)), (Z.ltb_spec (ord b) (ord a)); try done; try lia.
  intros H1 H2. rewrite (IH t H1 H2). f_equal. apply ord_inj. lia.
Qed.

#[export] Instance str_le_refl : Reflexive str_le.
Proof. intros s. by destruct (str_le_total s s). Qed.

Lemma str_lt_spec s t : str_lt s t <-> str_le s t /\ s <> t.
Proof.
  unfold str_lt. split.
  - intros H. split; [destruct (str_le_total s t) as [|Ht]; [done|unfold str_le in Ht; congruence]|].
    intros ->. pose proof (str_le_refl t) as Hr. unfold str_le in Hr. congruence.
  - intros [H1 H2]. apply not_true_is_false. intros H3. by apply H2, str_le_antisym.
Qed.

Lemma str_lt_le_trans s t u : str_lt s t -> str_le t u -> str_lt s u.
Proof.
  rewrite !str_lt_spec. intros [H1 H2] H3. split; [by etrans|]. intros ->. by apply H2, str_le_antisym.
Qed.

Example json_examples :
  (json_valid "[1, -2.5e3, true, null, {}, [[]]]", json_valid "01", json_valid "[1,]",
   json_valid (of_bytes [34; 92; 117; 48; 48; 101; 57; 34]), json_valid (of_bytes [34; 10; 34]),
   runeCount (of_bytes [195; 169; 97]), validUTF8 (of_bytes [195])) = (true, false, false, true, false, 2, false).
Proof. vm_compute. reflexivity. Qed.
