(* ===== verification/Json.v ===== *)
(** * JSON of the Go standard library ([encoding/json])

    What the sources use of [json.Marshal] and [json.Unmarshal]: values as a
    tree, the encoder (HTML-escaping, invalid UTF-8 replaced) and the decoder
    (scanner rules, escapes, surrogates, the nesting limit), and the round
    trip between them: decoding what was encoded gives the value back with
    every string made valid UTF-8. *)
From S2P Require Import Prelude GoText.
Open Scope Z_scope.

(** A number keeps its literal, an object its members in order. *)
#[warnings="-register-all"]
Inductive json :=
| JNull
| JBool (b : bool)
| JNumber (lit : string)
| JString (s : string)
| JArray (l : list json)
| JObject (l : list (string * json)).

(* ------------------------------------------------------------------ *)
(** ** Encoding *)

Definition hex_lower (d : Z) : Z := if d <? 10 then 48 + d else 87 + d.

(** The replacement character U+FFFD. *)
Definition fffd : list Z := [239; 191; 189].

Definition escape_ascii (b : Z) : list Z :=
  if (b =? 34) || (b =? 92) then [92; b]
  else if b =? 8 then [92; 98]
  else if b =? 12 then [92; 102]
  else if b =? 10 then [92; 110]
  else if b =? 13 then [92; 114]
  else if b =? 9 then [92; 116]
  else if (b <? 32) || (b =? 60) || (b =? 62) || (b =? 38)
  then [92; 117; 48; 48; hex_lower (b / 16); hex_lower (b mod 16)]
  else [b].

(** One rune of the source text, [seg] its bytes. *)
Definition escape_rune (seg : list Z) (ok : bool) : list Z :=
  if negb ok then [92; 117; 102; 102; 102; 100]
  else if bool_decide (seg = [226; 128; 168]) then [92; 117; 50; 48; 50; 56]
  else if bool_decide (seg = [226; 128; 169]) then [92; 117; 50; 48; 50; 57]
  else match seg with [b] => escape_ascii b | _ => seg end.

(** [f] over the runes of a byte string. *)
Fixpoint over_runes (f : list Z -> bool -> list Z) (fuel : nat) (l : list Z) : list Z :=
  match fuel, l with
  | O, _ | _, [] => []
  | S fuel, _ => let '(w, ok) := decode_rune l in f (take w l) ok ++ over_runes f fuel (drop w l)
  end.

Definition escape (s : list Z) : list Z := over_runes escape_rune (length s) s.

(** Every byte that is not UTF-8 replaced by U+FFFD. *)
Definition repair_rune (seg : list Z) (ok : bool) : list Z := if ok then seg else fffd.
Definition repair (s : string) : string :=
  of_bytes (over_runes repair_rune (String.length s) (bytes s)).

Definition quote (s : string) : list Z := 34 :: escape (bytes s) ++ [34].

Definition commas (ls : list (list Z)) : list Z :=
  match ls with [] => [] | x :: r => x ++ flat_map (fun y => 44 :: y) r end.

Fixpoint marshal (v : json) : list Z :=
  match v with
  | JNull => bytes "null"
  | JBool b => bytes (if b then "true" else "false")%string
  | JNumber lit => bytes lit
  | JString s => quote s
  | JArray l => 91 :: commas (map marshal l) ++ [93]
  | JObject l => 123 :: commas (map (fun kv => quote (fst kv) ++ 58 :: marshal (snd kv)) l) ++ [125]
  end.

(* ------------------------------------------------------------------ *)
(** ** Decoding *)

Definition hex_value (b : Z) : option Z :=
  if is_digit b then Some (b - 48)
  else if (97 <=? b) && (b <=? 102) then Some (b - 87)
  else if (65 <=? b) && (b <=? 70) then Some (b - 55) else None.

(** [getu4]: a code unit written as four hexadecimal digits. *)
Definition getu4 (a b c d : Z) : option Z :=
  match hex_value a, hex_value b, hex_value c, hex_value d with
  | Some a, Some b, Some c, Some d => Some (((a * 16 + b) * 16 + c) * 16 + d)
  | _, _, _, _ => None
  end.

Definition utf8_encode (r : Z) : list Z :=
  if r <? 128 then [r]
  else if r <? 2048 then [192 + r / 64; 128 + r mod 64]
  else if r <? 65536 then [224 + r / 4096; 128 + r / 64 mod 64; 128 + r mod 64]
  else [240 + r / 262144; 128 + r / 4096 mod 64; 128 + r / 64 mod 64; 128 + r mod 64].

Definition is_surrogate (r : Z) : bool := (55296 <=? r) && (r <? 57344).

(** The low half of a surrogate pair right behind, and what follows it. *)
Definition low_half (r : Z) (l : list Z) : option (Z * list Z) :=
  match l with
  | x :: y :: a :: b :: c :: d :: l' =>
    if (x =? 92) && (y =? 117) then
      match getu4 a b c d with
      | Some r2 => if (r <? 56320) && (56320 <=? r2) && (r2 <? 57344)
                   then Some ((r - 55296) * 1024 + (r2 - 56320) + 65536, l') else None
      | None => None
      end
    else None
  | _ => None
  end.

(** The escapes of one letter. *)
Definition unescape (e : Z) : option Z :=
  if (e =? 34) || (e =? 92) || (e =? 47) then Some e
  else if e =? 98 then Some 8 else if e =? 102 then Some 12 else if e =? 110 then Some 10
  else if e =? 114 then Some 13 else if e =? 116 then Some 9 else None.

(** After the opening quote: the string and what follows the closing one. *)
Fixpoint parse_string (fuel : nat) (l : list Z) : option (list Z * list Z) :=
  match fuel, l with
  | O, _ | _, [] => None
  | S fuel, x :: r =>
    if x =? 34 then Some ([], r)
    else if x =? 92 then
      match r with
      | e :: r =>
        if e =? 117 then
          match r with
          | a :: b :: c :: d :: r =>
            match getu4 a b c d with
            | None => None
            | Some u =>
              let '(out, r) :=
                if is_surrogate u
                then match low_half u r with Some (u, r') => (utf8_encode u, r') | None => (fffd, r) end
                else (utf8_encode u, r) in
              match parse_string fuel r with Some (s, t) => Some (out ++ s, t) | None => None end
            end
          | _ => None
          end
        else
          match unescape e with
          | Some b => match parse_string fuel r with Some (s, t) => Some (b :: s, t) | None => None end
          | None => None
          end
      | [] => None
      end
    else if x <? 32 then None
    else
      let '(w, ok) := decode_rune l in
      match parse_string fuel (drop w l) with
      | Some (s, t) => Some (repair_rune (take w l) ok ++ s, t)
      | None => None
      end
  end.

(** What the parser is in the middle of, with what it has read. *)
Inductive mode := PValue | PMembers (acc : list (string * json)) | PElements (acc : list json).

(** A literal word. *)
Definition word (w : string) (v : json) (l : list Z) : option (json * list Z) :=
  match strip (bytes w) l with Some r => Some (v, r) | None => None end.

(** The next byte that is not white space, if it is [c]. *)
Definition expect (c : Z) (l : list Z) : option (list Z) :=
  match skip_ws l with b :: r => if b =? c then Some r else None | [] => None end.

Definition parse_quoted (r : list Z) : option (string * list Z) :=
  match parse_string (S (length r)) r with Some (s, r) => Some (of_bytes s, r) | None => None end.

(** [d] is the nesting depth left of the scanner's 10000. *)
Fixpoint parse (fuel : nat) (m : mode) (d : Z) (l : list Z) : option (json * list Z) :=
  match fuel with
  | O => None
  | S fuel =>
    match m with
    | PValue =>
      match skip_ws l with
      | [] => None
      | b :: r =>
        if b =? 34 then
          match parse_quoted r with Some (s, r) => Some (JString s, r) | None => None end
        else if b =? 123 then
          if d =? 0 then None
          else match expect 125 r with Some r' => Some (JObject [], r') | None => parse fuel (PMembers []) (d - 1) r end
        else if b =? 91 then
          if d =? 0 then None
          else match expect 93 r with Some r' => Some (JArray [], r') | None => parse fuel (PElements []) (d - 1) r end
        else if b =? 116 then word "rue" (JBool true) r
        else if b =? 102 then word "alse" (JBool false) r
        else if b =? 110 then word "ull" JNull r
        else match json_number (b :: r) with
             | Some r' => Some (JNumber (of_bytes (take (length (b :: r) - length r') (b :: r))), r')
             | None => None
             end
      end
    | PMembers acc =>
      match expect 34 l ≫= parse_quoted with
      | None => None
      | Some (k, r) =>
        match expect 58 r ≫= parse fuel PValue d with
        | None => None
        | Some (v, r) =>
          match expect 44 r with
          | Some r => parse fuel (PMembers (acc ++ [(k, v)])) d r
          | None => match expect 125 r with Some r => Some (JObject (acc ++ [(k, v)]), r) | None => None end
          end
        end
      end
    | PElements acc =>
      match parse fuel PValue d l with
      | None => None
      | Some (v, r) =>
        match expect 44 r with
        | Some r => parse fuel (PElements (acc ++ [v])) d r
        | None => match expect 93 r with Some r => Some (JArray (acc ++ [v]), r) | None => None end
        end
      end
    end
  end.

(** [json.Unmarshal] into [any], numbers kept as literals. *)
Definition unmarshal (l : list Z) : option json :=
  match parse (2 * length l + 2) PValue 10000 l with
  | Some (v, r) => match skip_ws r with [] => Some v | _ => None end
  | None => None
  end.

(** Text with its double quotes written as backquotes. *)
Definition text (s : string) : list Z := map (fun b => if b =? 96 then 34 else b) (bytes s).

Example unmarshal_text :
  unmarshal (text " {`a` : [1, -2.5e3, true, null], `k\u00e9`: `x\n\ud83d\ude00`} ")
  = Some (JObject [("a", JArray [JNumber "1"; JNumber "-2.5e3"; JBool true; JNull])%string;
                   (of_bytes [107; 195; 169], JString (of_bytes [120; 10; 240; 159; 152; 128]))]).
Proof. vm_compute. reflexivity. Qed.

Example marshal_text :
  marshal (JObject [("h"%string, JString (of_bytes [60; 200; 9; 34; 226; 128; 168])); ("n", JNumber "7")%string])
  = text "{`h`:`\u003c\ufffd\t\`\u2028`,`n`:7}".
Proof. vm_compute. reflexivity. Qed.

(* ------------------------------------------------------------------ *)
(** ** Runes *)

Definition all_bytes (l : list Z) : Prop := Forall (fun b => 0 <= b < 256) l.

Lemma decode_rune_width l : l <> [] -> (1 <= (decode_rune l).1 <= length l)%nat.
Proof.
  destruct l as [|a [|b [|c [|d l]]]]; [done|..]; intros _; unfold decode_rune; split_ifs; simpl; lia.
Qed.

(** The first rune depends on its own bytes only, when it is valid. *)
Lemma decode_rune_prefix l w r : l <> [] -> decode_rune l = (w, true) -> decode_rune (take w l ++ r) = (w, true).
Proof.
  destruct l as [|a l]; [done|]. intros _. unfold decode_rune. intros H.
  destruct (a <? 128) eqn:Ea.
  { injection H as <-. simpl. by rewrite Ea. }
  destruct ((194 <=? a) && (a <=? 223)) eqn:E2.
  { destruct l as [|b l]; [done|]. destruct (is_cont b) eqn:Eb; [|done]. injection H as <-.
    simpl. by rewrite Ea, E2, Eb. }
  destruct ((224 <=? a) && (a <=? 239)) eqn:E3.
  { destruct l as [|b [|c l]]; [done..|]. cbv zeta in H. destruct (_ && _ && _) eqn:Eb in H; [|done]. injection H as <-.
    simpl. rewrite Ea, E2, E3. by rewrite Eb. }
  destruct ((240 <=? a) && (a <=? 244)) eqn:E4; [|done].
  destruct l as [|b [|c [|d l]]]; [done..|]. cbv zeta in H. destruct (_ && _ && _ && _) eqn:Eb in H; [|done].
  injection H as <-. simpl. rewrite Ea, E2, E3, E4. by rewrite Eb.
Qed.

(** A one-byte rune is ASCII, a longer one starts above it. *)
Lemma decode_rune_first a l w :
  decode_rune (a :: l) = (w, true) -> (w = 1%nat /\ a < 128) \/ ((1 < w)%nat /\ 194 <= a).
Proof.
  unfold decode_rune. repeat case_match; intros [= <-]; zbool; first [discriminate|left; lia|right; lia].
Qed.

Lemma over_runes_nil f n : over_runes f n [] = [].
Proof. by destruct n. Qed.

(* ------------------------------------------------------------------ *)
(** ** Strings *)

Lemma hex_value_lower d : 0 <= d < 16 -> hex_value (hex_lower d) = Some d.
Proof.
  intros Hd. unfold hex_lower. destruct (d <? 10) eqn:E; unfold hex_value, is_digit; split_ifs; try (f_equal; lia); lia.
Qed.

Definition prepend (s : list Z) (r : option (list Z * list Z)) : option (list Z * list Z) :=
  match r with Some (s', t) => Some (s ++ s', t) | None => None end.

(** Reading back an escaped ASCII character. *)
Lemma parse_escape_ascii b fuel r :
  0 <= b < 128 -> parse_string (S fuel) (escape_ascii b ++ r) = prepend [b] (parse_string fuel r).
Proof.
  intros Hb. unfold escape_ascii.
  destruct (b =? 34) eqn:E34; [zbool; subst; done|].
  destruct (b =? 92) eqn:E92; [zbool; subst; done|]. simpl orb.
  destruct (b =? 8) eqn:E8; [zbool; subst; done|].
  destruct (b =? 12) eqn:E12; [zbool; subst; done|].
  destruct (b =? 10) eqn:E10; [zbool; subst; done|].
  destruct (b =? 13) eqn:E13; [zbool; subst; done|].
  destruct (b =? 9) eqn:E9; [zbool; subst; done|].
  destruct ((b <? 32) || (b =? 60) || (b =? 62) || (b =? 38)) eqn:Eu.
  - cbn [app parse_string Z.eqb Pos.eqb]. unfold getu4.
    rewrite !hex_value_lower by (split; [apply Z.div_pos + apply Z.mod_pos_bound|
      apply Z.div_lt_upper_bound + apply Z.mod_pos_bound]; lia).
    change (hex_value 48) with (Some 0). cbv iota.
    replace (((0 * 16 + 0) * 16 + b / 16) * 16 + b mod 16) with b by (pose proof (Z.div_mod b 16); lia).
    cbv beta iota. assert ((is_surrogate b) = false) as -> by (unfold is_surrogate; apply andb_false_iff; left; apply Z.leb_gt; lia).
    cbv beta iota. unfold utf8_encode. by assert ((b <? 128) = true) as -> by (apply Z.ltb_lt; lia).
  - apply orb_false_iff in Eu as [[[Hlt _]%orb_false_iff _]%orb_false_iff _].
    cbn [app parse_string]. rewrite E34, E92, Hlt. unfold decode_rune.
    assert ((b <? 128) = true) as -> by (apply Z.ltb_lt; lia). done.
Qed.

Lemma parse_escape_rune l w ok fuel r :
  l <> [] -> all_bytes l -> decode_rune l = (w, ok) ->
  parse_string (S fuel) (escape_rune (take w l) ok ++ r) = prepend (repair_rune (take w l) ok) (parse_string fuel r).
Proof.
  intros Hl Hb E. destruct l as [|a l]; [done|]. destruct ok; [|done].
  unfold escape_rune. simpl negb. cbv iota.
  case_bool_decide as H8; [by rewrite H8|]. case_bool_decide as H9; [by rewrite H9|].
  destruct (decode_rune_first _ _ _ E) as [[-> Ha]|[Hw Ha]].
  { apply Forall_cons in Hb as [Hb _]. simpl. rewrite take_0. apply parse_escape_ascii. lia. }
  pose proof (decode_rune_prefix _ _ r Hl E) as E'. pose proof (decode_rune_width (a :: l) Hl) as Hw'.
  rewrite E in Hw'. simpl in Hw'.
  destruct (take w (a :: l)) as [|a' [|b seg]] eqn:Et.
  - apply (f_equal length) in Et. rewrite length_take in Et. simpl in Et. lia.
  - apply (f_equal length) in Et. rewrite length_take in Et. simpl in Et. lia.
  - assert (a' = a) as -> by (destruct w; [lia|]; by injection Et).
    assert (w = length (a :: b :: seg)) as Hlen by (rewrite <- Et, length_take; simpl; lia).
    cbn [app parse_string]. assert ((a =? 34) = false) as -> by (apply Z.eqb_neq; lia).
    assert ((a =? 92) = false) as -> by (apply Z.eqb_neq; lia).
    assert ((a <? 32) = false) as -> by (apply Z.ltb_ge; lia).
    cbn [app] in E'. rewrite E'.
    change (a :: b :: seg ++ r) with ((a :: b :: seg) ++ r).
    rewrite Hlen, drop_app_length, take_app_length. by destruct (parse_string fuel r) as [[]|].
Qed.

Lemma all_bytes_drop n l : all_bytes l -> all_bytes (drop n l).
Proof. apply Forall_drop. Qed.

Lemma parse_string_runes n s fuel r :
  all_bytes s -> (length s <= n < fuel)%nat ->
  parse_string fuel (over_runes escape_rune n s ++ 34 :: r) = Some (over_runes repair_rune n s, r).
Proof.
  revert s fuel. induction n as [|n IH]; intros s fuel Hb Hf.
  { destruct s; [|simpl in Hf; lia]. destruct fuel; [lia|]. done. }
  destruct fuel as [|fuel]; [lia|]. destruct s as [|a s]; [done|].
  cbn [over_runes]. pose proof (decode_rune_width (a :: s) ltac:(done)) as Hw.
  destruct (decode_rune (a :: s)) as [w ok] eqn:E. cbn [fst] in Hw.
  rewrite <- app_assoc, (parse_escape_rune (a :: s) w ok _ _ ltac:(done) Hb E), IH; [done|by apply all_bytes_drop|].
  rewrite length_drop. lia.
Qed.

Lemma escape_rune_length seg ok : (length seg <= length (escape_rune seg ok) \/ ok = false)%nat.
Proof.
  destruct ok; [left|by right]. unfold escape_rune. simpl negb. cbv iota.
  case_bool_decide as H8; [subst; simpl; lia|]. case_bool_decide as H9; [subst; simpl; lia|].
  destruct seg as [|b [|]]; simpl; [lia| |lia]. unfold escape_ascii. split_ifs; simpl; lia.
Qed.

Lemma decode_rune_invalid l w : decode_rune l = (w, false) -> (w <= 1)%nat.
Proof. unfold decode_rune. repeat case_match; intros [= <-]; lia. Qed.

Lemma escape_length n s : (length s <= n)%nat -> (length s <= length (over_runes escape_rune n s))%nat.
Proof.
  revert s. induction n as [|n IH]; intros s Hn; [lia|]. destruct s as [|a s]; [simpl; lia|].
  cbn [over_runes]. pose proof (decode_rune_width (a :: s) ltac:(done)) as Hw.
  destruct (decode_rune (a :: s)) as [w ok] eqn:E. cbn [fst] in Hw.
  specialize (IH (drop w (a :: s))). rewrite length_drop in IH. specialize (IH ltac:(lia)).
  rewrite length_app. destruct (escape_rune_length (take w (a :: s)) ok) as [H| ->].
  - rewrite length_take in H. lia.
  - apply decode_rune_invalid in E. change (length (escape_rune _ false)) with 6%nat. lia.
Qed.

Lemma parse_quote s r : parse_quoted (escape (bytes s) ++ 34 :: r) = Some (repair s, r).
Proof.
  unfold parse_quoted, escape. rewrite parse_string_runes; [|apply bytes_are_bytes|].
  - unfold repair. by rewrite length_bytes.
  - rewrite length_app. pose proof (escape_length (length (bytes s)) (bytes s)). simpl. lia.
Qed.

(* ------------------------------------------------------------------ *)
(** ** Numbers *)

(** What may follow a value: nothing, or a byte no number contains. *)
Definition delimited (r : list Z) : Prop :=
  match r with [] => True | b :: _ => In b [32; 9; 10; 13; 44; 93; 125] end.

Lemma delimited_head b r :
  delimited (b :: r) -> is_digit b = false /\ b <> 46 /\ b <> 101 /\ b <> 69.
Proof. unfold is_digit. simpl. intros H. repeat destruct H as [<-|H]; try done. Qed.

Lemma digits_delimited r : delimited r -> digits r = r.
Proof. destruct r as [|b r]; [done|]. intros [Hd _]%delimited_head. simpl. by rewrite Hd. Qed.

Lemma digits_app l r : delimited r -> digits (l ++ r) = digits l ++ r.
Proof.
  intros Hr. induction l as [|b l IH]; simpl; [by apply digits_delimited|].
  by destruct (is_digit b).
Qed.

Lemma digits1_app l r l' : delimited r -> digits1 l = Some l' -> digits1 (l ++ r) = Some (l' ++ r).
Proof.
  destruct l as [|b l]; [done|]. simpl. intros Hr. destruct (is_digit b); [|done].
  intros [= <-]. by rewrite digits_app.
Qed.

(** [json_number] in stages with tests, as its patterns read. *)
Definition number_int (l : list Z) : option (list Z) :=
  match l with b :: r => if b =? 48 then Some r else if is_digit b then Some (digits r) else None | [] => None end.
Definition number_frac (l : list Z) : option (list Z) :=
  match l with b :: r => if b =? 46 then digits1 r else Some l | [] => Some l end.
Definition number_exp (l : list Z) : option (list Z) :=
  match l with
  | e :: r =>
    if (e =? 101) || (e =? 69) then
      match r with
      | s :: r' => if (s =? 43) || (s =? 45) then digits1 r' else digits1 r
      | [] => None
      end
    else Some l
  | [] => Some l
  end.
Definition number_sign (l : list Z) : list Z :=
  match l with b :: r => if b =? 45 then r else l | [] => l end.

Lemma json_number_stages l : json_number l = (number_int (number_sign l) ≫= number_frac) ≫= number_exp.
Proof.
  unfold json_number.
  assert ((match l with 45 :: r => r | _ => l end) = number_sign l) as ->.
  { destruct l as [|b r]; [done|]. unfold number_sign. byte_pattern 45. }
  assert (forall l, match l with 48 :: r => Some r | b :: r => if is_digit b then Some (digits r) else None | [] => None end
          = number_int l) as ->.
  { intros [|b r]; [done|]. unfold number_int. byte_pattern 48. }
  destruct (number_int (number_sign l)) as [l1|]; [|done]. simpl.
  assert (match l1 with 46 :: r => digits1 r | _ => Some l1 end = number_frac l1) as ->.
  { destruct l1 as [|b r]; [done|]. unfold number_frac. byte_pattern 46. }
  destruct (number_frac l1) as [l2|]; [|done]. done.
Qed.

Lemma number_stage_app r :
  delimited r ->
  (forall l l', number_int l = Some l' -> number_int (l ++ r) = Some (l' ++ r)) /\
  (forall l l', number_frac l = Some l' -> number_frac (l ++ r) = Some (l' ++ r)) /\
  (forall l l', number_exp l = Some l' -> number_exp (l ++ r) = Some (l' ++ r)).
Proof.
  intros Hr. split_and!; intros [|b l] l'; simpl.
  - done.
  - destruct (b =? 48); [by intros [= <-]|]. destruct (is_digit b); [|done].
    intros [= <-]. by rewrite digits_app.
  - intros [= <-]. destruct r as [|b r]; [done|]. apply delimited_head in Hr as (_ & Hn & _).
    simpl. by rewrite (proj2 (Z.eqb_neq b 46) Hn).
  - destruct (b =? 46); [by apply digits1_app|by intros [= <-]].
  - intros [= <-]. destruct r as [|b r]; [done|]. apply delimited_head in Hr as (_ & _ & Hn1 & Hn2).
    simpl. by rewrite (proj2 (Z.eqb_neq b 101) Hn1), (proj2 (Z.eqb_neq b 69) Hn2).
  - destruct (_ || _); [|by intros [= <-]]. destruct l as [|s l]; [done|]. simpl.
    destruct (_ || _); [by apply digits1_app|]. by apply (digits1_app (s :: l)).
Qed.

(** A literal the scanner accepts as one number. *)
Definition number_ok (lit : string) : bool :=
  match json_number (bytes lit) with Some [] => true | _ => false end.

Lemma number_ok_delimited lit r :
  number_ok lit = true -> delimited r -> json_number (bytes lit ++ r) = Some r.
Proof.
  unfold number_ok. rewrite !json_number_stages. intros H Hr.
  destruct (number_stage_app r Hr) as (Hi & Hf & He).
  assert (number_sign (bytes lit ++ r) = number_sign (bytes lit) ++ r) as ->.
  { destruct (bytes lit) as [|b l]; [done|]. simpl. by destruct (b =? 45). }
  destruct (number_int (number_sign (bytes lit))) as [l1|] eqn:E1; [|done]. rewrite (Hi _ _ E1). simpl in *.
  destruct (number_frac l1) as [l2|] eqn:E2; [|done]. rewrite (Hf _ _ E2). simpl in *.
  destruct (number_exp l2) as [[|]|] eqn:E3; [|done..]. by rewrite (He _ _ E3).
Qed.

Lemma number_head lit :
  number_ok lit = true -> exists b l, bytes lit = b :: l /\ (b = 45 \/ 48 <= b <= 57).
Proof.
  unfold number_ok. rewrite json_number_stages. destruct (bytes lit) as [|b l]; [done|].
  intros H. exists b, l. split; [done|]. simpl in H. destruct (b =? 45) eqn:E; zbool; [by left|right].
  simpl in H. destruct (b =? 48) eqn:E48; zbool; [lia|]. unfold is_digit in H.
  destruct ((48 <=? b) && (b <=? 57)) eqn:Ed; [|done]. zbool; lia.
Qed.

(* ------------------------------------------------------------------ *)
(** ** Values *)

(** What [Unmarshal] can give back: numbers that are numbers, and no deeper
    than the scanner goes. *)
Fixpoint json_ok (d : nat) (v : json) {struct v} : bool :=
  match v with
  | JNumber lit => number_ok lit
  | JArray l => match d with O => false | S d => forallb (json_ok d) l end
  | JObject l => match d with O => false | S d => forallb (fun kv => json_ok d (snd kv)) l end
  | _ => true
  end.

Fixpoint repair_json (v : json) : json :=
  match v with
  | JString s => JString (repair s)
  | JArray l => JArray (map repair_json l)
  | JObject l => JObject (map (fun kv => (repair (fst kv), repair_json (snd kv))) l)
  | v => v
  end.

(** Induction through the members. *)
Section JsonInd.
Context (P : json -> Prop).
Context (Hnull : P JNull) (Hbool : forall b, P (JBool b)) (Hnum : forall n, P (JNumber n)) (Hstr : forall s, P (JString s)).
Context (Harr : forall l, Forall P l -> P (JArray l)).
Context (Hobj : forall l, Forall (fun kv => P (snd kv)) l -> P (JObject l)).

Fixpoint json_ind' (v : json) : P v :=
  match v with
  | JNull => Hnull
  | JBool b => Hbool b
  | JNumber n => Hnum n
  | JString s => Hstr s
  | JArray l =>
    Harr l ((fix go l : Forall P l :=
               match l with [] => Forall_nil_2 _ | v :: r => Forall_cons_2 _ _ _ (json_ind' v) (go r) end) l)
  | JObject l =>
    Hobj l ((fix go l : Forall (fun kv => P (snd kv)) l :=
               match l with [] => Forall_nil_2 _ | kv :: r => Forall_cons_2 _ kv _ (json_ind' (snd kv)) (go r) end) l)
  end.
End JsonInd.

Definition not_space (b : Z) : Prop := b <> 32 /\ b <> 9 /\ b <> 10 /\ b <> 13.

Lemma skip_ws_not_space b l : not_space b -> skip_ws (b :: l) = b :: l.
Proof.
  intros (H1 & H2 & H3 & H4). simpl. apply Z.eqb_neq in H1, H2, H3, H4. by rewrite H1, H2, H3, H4.
Qed.

Lemma expect_hit c l : not_space c -> expect c (c :: l) = Some l.
Proof. intros H. unfold expect. rewrite skip_ws_not_space by done. by rewrite Z.eqb_refl. Qed.

Lemma expect_miss c b l : not_space b -> b <> c -> expect c (b :: l) = None.
Proof. intros H Hc. unfold expect. rewrite skip_ws_not_space by done. apply Z.eqb_neq in Hc. by rewrite Hc. Qed.

(** How the text of a value starts. *)
Lemma marshal_head v d :
  json_ok d v = true -> exists b l, marshal v = b :: l /\ not_space b /\ b <> 93 /\ b <> 125.
Proof.
  unfold not_space. destruct v as [|[]|lit|s|l|l]; simpl; intros H;
    try (eexists _, _; split; [reflexivity|]; unfold ord; simpl; lia).
  destruct (number_head lit H) as (b & l & -> & Hb). exists b, l. split; [done|lia].
Qed.

Lemma delimited_comma l : delimited (44 :: l). Proof. simpl. tauto. Qed.
Lemma delimited_bracket l : delimited (93 :: l). Proof. simpl. tauto. Qed.
Lemma delimited_brace l : delimited (125 :: l). Proof. simpl. tauto. Qed.
#[local] Hint Resolve delimited_comma delimited_bracket delimited_brace : core.

Definition member (kv : string * json) : list Z := quote (fst kv) ++ 58 :: marshal (snd kv).

Arguments member : simpl never.

Lemma commas_one x : commas [x] = x.
Proof. apply app_nil_r. Qed.

Lemma commas_cons x y r : commas (x :: y :: r) = x ++ 44 :: commas (y :: r).
Proof. done. Qed.

(** One value is read back, whatever follows it. *)
Definition reads_back (v : json) : Prop :=
  forall d fuel r, json_ok d v = true -> delimited r -> (2 * length (marshal v) < fuel)%nat ->
  parse fuel PValue (Z.of_nat d) (marshal v ++ r) = Some (repair_json v, r).

Lemma parse_elements l :
  Forall reads_back l -> forall v acc d fuel r,
  reads_back v -> forallb (json_ok d) (v :: l) = true ->
  (2 * length (commas (map marshal (v :: l))) + 1 < fuel)%nat ->
  parse fuel (PElements acc) (Z.of_nat d) (commas (map marshal (v :: l)) ++ 93 :: r)
  = Some (JArray (acc ++ map repair_json (v :: l)), r).
Proof.
  induction 1 as [|w l Hw _ IH]; intros v acc d fuel r Hv Hok Hf; (destruct fuel as [|fuel]; [lia|]);
    simpl in Hok; apply andb_true_iff in Hok as [Hok Hoks]; cbn [map] in *.
  - rewrite commas_one in *. cbn [parse]. rewrite Hv by (auto; lia). by rewrite expect_miss, expect_hit.
  - rewrite commas_cons in *. rewrite length_app in Hf. simpl length in Hf. rewrite <- app_assoc. cbn [parse app].
    rewrite Hv by (auto; lia). rewrite expect_hit by done. rewrite IH; [|done|done|simpl; lia].
    by rewrite <- app_assoc.
Qed.

Lemma quote_length s : (2 <= length (quote s))%nat.
Proof. unfold quote. simpl. rewrite length_app. simpl. lia. Qed.

Lemma parse_members l :
  Forall (fun kv => reads_back (snd kv)) l -> forall kv acc d fuel r,
  reads_back (snd kv) -> forallb (fun kv => json_ok d (snd kv)) (kv :: l) = true ->
  (2 * length (commas (map member (kv :: l))) < fuel)%nat ->
  parse fuel (PMembers acc) (Z.of_nat d) (commas (map member (kv :: l)) ++ 125 :: r)
  = Some (JObject (acc ++ map (fun kv => (repair (fst kv), repair_json (snd kv))) (kv :: l)), r).
Proof.
  assert (Hone : forall k v d fuel r x,
    reads_back v -> json_ok d v = true -> delimited (x :: r) -> (2 * length (member (k, v)) < S fuel)%nat ->
    expect 34 (member (k, v) ++ x :: r) ≫= parse_quoted = Some (repair k, 58 :: marshal v ++ x :: r) /\
    expect 58 (58 :: marshal v ++ x :: r) ≫= parse fuel PValue (Z.of_nat d) = Some (repair_json v, x :: r)).
  { intros k v d fuel r x Hv Hok Hx Hf. unfold member, quote in *. cbn [fst snd app] in *.
    rewrite <- !app_assoc. cbn [app]. rewrite !expect_hit by done. simpl mbind. rewrite parse_quote. split; [done|].
    apply Hv; [done..|]. repeat (simpl length in Hf; rewrite ?length_app in Hf). lia. }
  induction 1 as [|kw l Hw _ IH]; intros [k v] acc d fuel r Hv Hok Hf; (destruct fuel as [|fuel]; [lia|]);
    simpl in Hok; apply andb_true_iff in Hok as [Hok Hoks]; cbn [map snd] in *.
  - rewrite commas_one in *. cbn [parse].
    destruct (Hone k v d fuel r 125 Hv Hok ltac:(auto) Hf) as [-> ->].
    by rewrite expect_miss, expect_hit.
  - rewrite commas_cons in *. rewrite length_app in Hf. cbn [length] in Hf. rewrite <- app_assoc. cbn [parse app].
    destruct (Hone k v d fuel (commas (member kw :: map member l) ++ 125 :: r) 44 Hv Hok ltac:(auto) ltac:(lia)) as [-> ->].
    rewrite expect_hit by done. rewrite IH; [|done|done|cbn [map]; lia].
    by rewrite <- app_assoc.
Qed.

Lemma marshal_reads_back v : reads_back v.
Proof.
  induction v as [|b|lit|s|l IH|l IH] using json_ind'; intros d fuel r Hok Hr Hf; (destruct fuel as [|fuel]; [lia|]).
  - done.
  - by destruct b.
  - simpl in *. destruct (number_head lit Hok) as (b & l & E & Hb). pose proof (number_ok_delimited lit r Hok Hr) as Hn.
    rewrite E in *. cbn [app] in *. rewrite skip_ws_not_space by (unfold not_space; lia).
    rewrite !(proj2 (Z.eqb_neq b _)) by lia. rewrite Hn.
    assert (S (length (l ++ r)) - length r = length (b :: l))%nat as -> by (rewrite length_app; simpl; lia).
    change (b :: l ++ r) with ((b :: l) ++ r). rewrite take_app_length, <- E. by rewrite of_bytes_bytes.
  - simpl in *. unfold quote. rewrite <- app_assoc. cbn [app]. rewrite parse_quote. done.
  - simpl in Hok. destruct d as [|d]; [done|]. change (marshal (JArray l)) with (91 :: commas (map marshal l) ++ [93]) in *.
    cbn [app parse]. rewrite skip_ws_not_space by done. cbn [Z.eqb Pos.eqb].
    rewrite <- app_assoc. cbn [app]. assert ((Z.of_nat (S d) =? 0) = false) as -> by (apply Z.eqb_neq; lia).
    replace (Z.of_nat (S d) - 1) with (Z.of_nat d) by lia. simpl length in Hf. rewrite length_app in Hf. simpl length in Hf.
    destruct l as [|v l]; [done|]. apply Forall_cons in IH as [Hv Hl].
    rewrite parse_elements; [|done..|lia]. simpl in Hok. apply andb_true_iff in Hok as [Hok _].
    destruct (marshal_head v d Hok) as (b & t & Eb & Hns & Hb & _).
    simpl. rewrite Eb. simpl. by rewrite expect_miss.
  - simpl in Hok. destruct d as [|d]; [done|]. change (marshal (JObject l)) with (123 :: commas (map member l) ++ [125]) in *.
    cbn [app parse]. rewrite skip_ws_not_space by done. cbn [Z.eqb Pos.eqb].
    rewrite <- app_assoc. cbn [app]. assert ((Z.of_nat (S d) =? 0) = false) as -> by (apply Z.eqb_neq; lia).
    replace (Z.of_nat (S d) - 1) with (Z.of_nat d) by lia. simpl length in Hf. rewrite length_app in Hf. simpl length in Hf.
    destruct l as [|kv l]; [done|]. apply Forall_cons in IH as [Hv Hl].
    rewrite parse_members; [|done..|lia]. destruct kv as [k v]. unfold commas, map at 1, member at 1, quote. cbn [app fst snd]. by rewrite expect_miss.
Qed.

(** Decoding what was encoded gives the value back, with U+FFFD for every byte
    of a string that is not UTF-8. *)
Lemma unmarshal_marshal v : json_ok (Z.to_nat 10000) v = true -> unmarshal (marshal v) = Some (repair_json v).
Proof.
  intros Hok. unfold unmarshal. rewrite <- (app_nil_r (marshal v)) at 2. change 10000 with (Z.of_nat (Z.to_nat 10000)).
  rewrite (marshal_reads_back v); [done|done|done|lia].
Qed.

(** What is encoded is bytes. *)
Lemma escape_ascii_bytes b : 0 <= b < 256 -> all_bytes (escape_ascii b).
Proof.
  intros Hb. unfold escape_ascii, hex_lower. pose proof (Z.mod_pos_bound b 16 ltac:(lia)). pose proof (Z.div_mod b 16 ltac:(lia)).
  assert (0 <= b / 16 < 16) by (split; [apply Z.div_pos; lia|apply Z.div_lt_upper_bound; lia]).
  split_ifs; repeat constructor; lia.
Qed.

Lemma escape_rune_bytes seg ok : all_bytes seg -> all_bytes (escape_rune seg ok).
Proof.
  intros Hs. unfold escape_rune. destruct ok; cbn [negb]; [|repeat constructor; lia].
  do 2 (case_bool_decide; [repeat constructor; lia|]). destruct seg as [|b [|c r]]; [done| |done].
  apply Forall_cons in Hs as [Hb _]. by apply escape_ascii_bytes.
Qed.

Lemma over_runes_bytes f n : (forall seg ok, all_bytes seg -> all_bytes (f seg ok)) -> forall l, all_bytes l -> all_bytes (over_runes f n l).
Proof.
  intros Hf. induction n as [|n IH]; intros l Hl; [constructor|]. destruct l as [|a l]; [constructor|]. cbn [over_runes].
  destruct (decode_rune (a :: l)) as [w ok]. apply Forall_app. split; [by apply Hf, Forall_take|by apply IH, Forall_drop].
Qed.

Lemma quote_bytes s : all_bytes (quote s).
Proof.
  constructor; [lia|]. apply Forall_app. split; [|repeat constructor; lia]. apply over_runes_bytes; [exact escape_rune_bytes|exact (bytes_are_bytes s)].
Qed.

Lemma commas_bytes ls : Forall all_bytes ls -> all_bytes (commas ls).
Proof.
  destruct 1 as [|x r Hx Hr]; [constructor|]. apply Forall_app. split; [done|]. induction Hr as [|y r Hy _ IH]; [constructor|].
  constructor; [lia|]. by apply Forall_app.
Qed.

Lemma marshal_bytes v : all_bytes (marshal v).
Proof.
  induction v as [|b|lit|s|l IH|l IH] using json_ind'; cbn [marshal].
  - exact (bytes_are_bytes "null").
  - apply bytes_are_bytes.
  - apply bytes_are_bytes.
  - apply quote_bytes.
  - constructor; [lia|]. apply Forall_app. split; [|repeat constructor; lia]. by apply commas_bytes, Forall_map.
  - constructor; [lia|]. apply Forall_app. split; [|repeat constructor; lia]. apply commas_bytes, Forall_map.
    eapply Forall_impl; [exact IH|]. intros kv Hkv. apply Forall_app. split; [apply quote_bytes|]. constructor; [lia|done].
Qed.

Lemma repair_valid s : validUTF8 s = true -> repair s = s.
Proof.
  unfold validUTF8, repair. intros H. rewrite <- (of_bytes_bytes s) at 3. f_equal.
  assert (length (bytes s) <= String.length s)%nat as Hn by (rewrite length_bytes; lia).
  revert H Hn. generalize (String.length s) as n, (bytes s) as l. clear s.
  induction n as [|n IH]; intros l H Hn; [by destruct l; simpl in Hn; [|lia]|].
  destruct l as [|a l]; [done|]. cbn [utf8_scan over_runes] in *.
  pose proof (decode_rune_width (a :: l) ltac:(done)) as Hw.
  destruct (decode_rune (a :: l)) as [w ok]. cbn [fst] in Hw.
  destruct (utf8_scan n (drop w (a :: l))) as [k ok'] eqn:E. simpl in H. apply andb_true_iff in H as [-> ->].
  rewrite IH; [apply take_drop|by rewrite E|]. rewrite length_drop. lia.
Qed.

Arguments parse : simpl never.
Arguments marshal : simpl nomatch.
