(* ===== verification/Float64.v ===== *)
(** * IEEE 754 binary64 arithmetic as Go's [float64] performs it

    Go's [float64] operators round to nearest, ties to even; the operations
    below are the executable specification of binary64 from the Standard
    Library at precision 53 and exponent bound 1024.  [f_of_int] is the
    conversion [float64(n)], [f_to_int] the truncating conversion [int64(x)]
    (out of range it is the amd64 result, the smallest [int64]). *)
From Stdlib Require Import SpecFloat.
From S2P Require Import Prelude.
Open Scope Z_scope.

Definition float64 : Type := spec_float.

Definition f_of_int (z : Z) : float64 := binary_normalize 53 1024 z 0 false.
Definition fadd : float64 -> float64 -> float64 := SFadd 53 1024.
Definition fsub : float64 -> float64 -> float64 := SFsub 53 1024.
Definition fmul : float64 -> float64 -> float64 := SFmul 53 1024.
Definition fdiv : float64 -> float64 -> float64 := SFdiv 53 1024.

(** A constant [n/d] of the source, rounded once to binary64. *)
Definition fconst (n d : Z) : float64 := fdiv (f_of_int n) (f_of_int d).

Definition flt (x y : float64) : bool :=
  match SFcompare x y with Some Lt => true | _ => false end.
Definition fle (x y : float64) : bool :=
  match SFcompare x y with Some Lt | Some Eq => true | _ => false end.
Definition feq (x y : float64) : bool :=
  match SFcompare x y with Some Eq => true | _ => false end.

(** The exact integer part, truncated toward zero; [None] off the integers
    (infinities and NaN). *)
Definition f_trunc (x : float64) : option Z :=
  match x with
  | S754_zero _ => Some 0
  | S754_finite s m e =>
    let a := if 0 <=? e then Zpos m * 2 ^ e else Zpos m / 2 ^ (- e) in
    Some (if s then - a else a)
  | _ => None
  end.

Definition f_to_int (x : float64) : Z :=
  match f_trunc x with
  | Some z => if (int64_min <=? z) && (z <=? int64_max) then z else int64_min
  | None => int64_min
  end.

(** [math.Ceil]: integral values, zeros, infinities and NaN are returned
    unchanged, and the sign of a zero result is the argument's. *)
Definition fceil (x : float64) : float64 :=
  match x with
  | S754_finite s m e =>
    if 0 <=? e then x
    else
      let z := - ((if s then Zpos m else Zneg m) / 2 ^ (- e)) in
      if z =? 0 then S754_zero s else f_of_int z
  | _ => x
  end.

(** [math.Max]. *)
Definition fmax (x y : float64) : float64 :=
  match x, y with
  | S754_infinity false, _ | _, S754_infinity false => S754_infinity false
  | S754_nan, _ | _, S754_nan => S754_nan
  | S754_zero s, S754_zero s' => S754_zero (s && s')
  | _, _ => if flt y x then x else y
  end.

(** [Duration.Seconds]: whole seconds plus the fractional part over 1e9. *)
Definition seconds (d : Z) : float64 :=
  fadd (f_of_int (Z.quot d second)) (fdiv (f_of_int (Z.rem d second)) (f_of_int second)).

Lemma f_to_int_range x : in_int64 (f_to_int x).
Proof.
  unfold f_to_int, in_int64. destruct (f_trunc x) as [z|];
    [|unfold int64_min, int64_max; lia].
  destruct ((int64_min <=? z) && (z <=? int64_max)) eqn:E; [|unfold int64_min, int64_max; lia].
  zbool; lia.
Qed.

Example fconst_tenths : f_to_int (fmul (f_of_int 10) (fconst 7 10)) = 7.
Proof. vm_compute. reflexivity. Qed.

(* ------------------------------------------------------------------ *)
(** ** Integers below 2^53 are exact *)

(** The float of a positive integer, its mantissa shifted to 53 bits. *)
Definition exact_float (z : Z) : float64 := S754_finite false (Z.to_pos (z * 2 ^ (52 - Z.log2 z))) (Z.log2 z - 52).

Lemma digits2_size p : digits2_pos p = Pos.size p.
Proof. induction p as [p IH|p IH|]; simpl; [by rewrite IH..|done]. Qed.

Lemma digits2_log2 z : 0 < z -> Zdigits2 z = Z.log2 z + 1.
Proof. destruct z as [|p|p]; [lia| |lia]. intros _. simpl. rewrite digits2_size. destruct p; simpl; lia. Qed.

Lemma iter_xO p d : Zpos (Pos.iter xO p d) = Zpos p * 2 ^ Zpos d.
Proof.
  induction d as [|d IH] using Pos.peano_ind; [simpl; lia|].
  rewrite Pos.iter_succ, Pos2Z.inj_xO, IH, Pos2Z.inj_succ, Z.pow_succ_r by lia. lia.
Qed.

(** Shifting out zero bits loses nothing. *)
Lemma iter_shr p : forall m, 0 < m -> SpecFloat.iter_pos shr_1 p (Build_shr_record (m * 2 ^ Zpos p) false false) = Build_shr_record m false false.
Proof.
  induction p as [p IH|p IH|]; intros m Hm; cbn [SpecFloat.iter_pos].
  - rewrite (Pos2Z.inj_xI p), Z.add_1_r, Z.pow_succ_r by lia.
    replace (m * (2 * 2 ^ (2 * Zpos p))) with (2 * (m * 2 ^ Zpos p * 2 ^ Zpos p))
      by (replace (2 * Zpos p) with (Zpos p + Zpos p) by lia; rewrite Z.pow_add_r by lia; lia).
    assert (0 < m * 2 ^ Zpos p * 2 ^ Zpos p) as Hp.
    { pose proof (Z.pow_pos_nonneg 2 (Zpos p) ltac:(lia) ltac:(lia)); nia. }
    destruct (m * 2 ^ Zpos p * 2 ^ Zpos p) as [|q|q] eqn:E; [lia| |lia].
    change (shr_1 (Build_shr_record (2 * Zpos q) false false)) with (Build_shr_record (Zpos q) false false).
    rewrite <- E. rewrite !IH; [done|done|pose proof (Z.pow_pos_nonneg 2 (Zpos p) ltac:(lia) ltac:(lia)); nia].
  - rewrite (Pos2Z.inj_xO p). replace (2 * Zpos p) with (Zpos p + Zpos p) by lia. rewrite Z.pow_add_r, Z.mul_assoc by lia.
    rewrite !IH; [done|done|pose proof (Z.pow_pos_nonneg 2 (Zpos p) ltac:(lia) ltac:(lia)); nia].
  - change (2 ^ 1) with 2. destruct m as [|q|q]; [lia| |lia]. by rewrite Z.mul_comm.
Qed.

Lemma shr_fexp_exact m s e :
  2 ^ 52 <= m < 2 ^ 53 -> 0 <= s -> -1074 <= e + s ->
  shr_fexp 53 1024 (m * 2 ^ s) e loc_Exact = (Build_shr_record m false false, e + s).
Proof.
  intros Hm Hs He. unfold shr_fexp. assert (0 < m * 2 ^ s) as Hp by (pose proof (Z.pow_pos_nonneg 2 s ltac:(lia) Hs); nia).
  rewrite digits2_log2 by done. rewrite Z.log2_mul_pow2 by lia.
  assert (Z.log2 m = 52) as -> by (apply Z.log2_unique; lia).
  unfold fexp, emin. replace (Z.max (s + 52 + 1 + e - 53) (3 - 1024 - 53) - e) with s by lia.
  destruct s as [|s|s]; [|simpl; by rewrite iter_shr by lia|lia]. simpl. by rewrite Z.mul_1_r, Z.add_0_r.
Qed.

Lemma round_aux_exact m s e :
  2 ^ 52 <= m < 2 ^ 53 -> 0 <= s -> -1074 <= e + s <= 971 ->
  binary_round_aux 53 1024 false (m * 2 ^ s) e loc_Exact = S754_finite false (Z.to_pos m) (e + s).
Proof.
  intros Hm Hs He. unfold binary_round_aux. rewrite shr_fexp_exact by lia. cbn [shr_m loc_of_shr_record round_nearest_even].
  pose proof (shr_fexp_exact m 0 (e + s) Hm ltac:(lia) ltac:(lia)) as H. rewrite Z.mul_1_r, Z.add_0_r in H. rewrite H.
  cbn [shr_m]. destruct m as [|p|p]; [lia| |lia]. by rewrite (proj2 (Z.leb_le (e + s) (1024 - 53))) by lia.
Qed.

Lemma log2_53 z : 0 < z < 2 ^ 53 -> 0 <= Z.log2 z <= 52.
Proof. intros [H1 H2]. split; [apply Z.log2_nonneg|]. pose proof (proj1 (Z.log2_lt_pow2 z 53 H1) H2). lia. Qed.

Lemma mantissa_range z : 0 < z < 2 ^ 53 -> 2 ^ 52 <= z * 2 ^ (52 - Z.log2 z) < 2 ^ 53.
Proof.
  intros Hz. pose proof (log2_53 z Hz) as Hl. destruct (Z.log2_spec z ltac:(lia)) as [H1 H2].
  pose proof (Z.pow_pos_nonneg 2 (52 - Z.log2 z) ltac:(lia) ltac:(lia)) as Hp.
  replace (2 ^ 52) with (2 ^ Z.log2 z * 2 ^ (52 - Z.log2 z)) by (rewrite <- Z.pow_add_r by lia; f_equal; lia).
  replace (2 ^ 53) with (2 ^ Z.succ (Z.log2 z) * 2 ^ (52 - Z.log2 z)) by (rewrite <- Z.pow_add_r by lia; f_equal; lia). nia.
Qed.

(** However far the integer was shifted, rounding gives its float. *)
Lemma round_exact z k :
  0 < z < 2 ^ 53 -> 0 <= k -> binary_normalize 53 1024 (z * 2 ^ k) (- k) false = exact_float z.
Proof.
  intros Hz Hk. pose proof (log2_53 z Hz) as Hl. pose proof (mantissa_range z Hz) as Hm.
  pose proof (Z.pow_pos_nonneg 2 k ltac:(lia) Hk) as Hpk.
  assert (0 < z * 2 ^ k) as Hp by nia. destruct (z * 2 ^ k) as [|p|p] eqn:E; [lia| |lia].
  cbn [binary_normalize]. unfold binary_round.
  replace (Zpos (digits2_pos p)) with (Zdigits2 (z * 2 ^ k)) by (by rewrite E). rewrite digits2_log2 by lia.
  rewrite Z.log2_mul_pow2 by lia. unfold fexp, emin, shl_align.
  replace (Z.max (k + Z.log2 z + 1 + - k - 53) (3 - 1024 - 53)) with (Z.log2 z - 52) by lia.
  assert (Hexact : forall s, 0 <= s -> - k + s = Z.log2 z - 52 -> binary_round_aux 53 1024 false (Zpos p) (- k) loc_Exact = exact_float z).
  { intros s Hs Hks. rewrite <- E. replace k with (s + (52 - Z.log2 z)) at 1 by lia.
    rewrite Z.add_comm, Z.pow_add_r, Z.mul_assoc by lia. rewrite round_aux_exact by lia. unfold exact_float. by rewrite Hks. }
  destruct (Z.log2 z - 52 - - k) as [|s|d] eqn:Es.
  - apply (Hexact 0); lia.
  - apply (Hexact (Zpos s)); lia.
  - rewrite iter_xO, <- E. rewrite <- Z.mul_assoc, <- Z.pow_add_r by lia. replace (k + Zpos d) with (52 - Z.log2 z) by lia.
    pose proof (round_aux_exact _ 0 (Z.log2 z - 52) Hm ltac:(lia) ltac:(lia)) as H. by rewrite Z.mul_1_r, Z.add_0_r in H.
Qed.

Lemma f_of_int_exact z : 0 < z < 2 ^ 53 -> f_of_int z = exact_float z.
Proof. intros Hz. pose proof (round_exact z 0 Hz ltac:(lia)) as H. by rewrite Z.mul_1_r in H. Qed.

Definition small_int (z : Z) : Prop := 0 <= z < 2 ^ 53.

Lemma f_compare a b : small_int a -> small_int b -> SFcompare (f_of_int a) (f_of_int b) = Some (a ?= b).
Proof.
  unfold small_int. intros Ha Hb. destruct (decide (a = 0)) as [->|Ha0]; destruct (decide (b = 0)) as [->|Hb0]; [done| | |].
  - rewrite (f_of_int_exact b) by lia. destruct b; [lia|done|lia].
  - rewrite (f_of_int_exact a) by lia. destruct a; [lia|done|lia].
  - rewrite !f_of_int_exact by lia. pose proof (log2_53 a ltac:(lia)) as Hla. pose proof (log2_53 b ltac:(lia)) as Hlb.
    pose proof (mantissa_range a ltac:(lia)) as Hma. pose proof (mantissa_range b ltac:(lia)) as Hmb.
    cbn [SFcompare exact_float]. f_equal. destruct (Z.compare_spec (Z.log2 a - 52) (Z.log2 b - 52)) as [H|H|H].
    + change (Pos.compare_cont Eq ?x ?y) with (Pos.compare x y). rewrite Pos2Z.inj_compare, !Z2Pos.id by lia.
      replace (Z.log2 b) with (Z.log2 a) by lia. symmetry. apply Zmult_compare_compat_r, Z.lt_gt, Z.pow_pos_nonneg; lia.
    + symmetry. apply Z.compare_lt_iff. apply Z.log2_lt_cancel. lia.
    + symmetry. apply Z.compare_gt_iff. apply Z.log2_lt_cancel. lia.
Qed.

Lemma flt_int a b : small_int a -> small_int b -> flt (f_of_int a) (f_of_int b) = (a <? b).
Proof. intros Ha Hb. unfold flt, Z.ltb. rewrite f_compare by done. by destruct (a ?= b). Qed.
Lemma fle_int a b : small_int a -> small_int b -> fle (f_of_int a) (f_of_int b) = (a <=? b).
Proof. intros Ha Hb. unfold fle, Z.leb. rewrite f_compare by done. by destruct (a ?= b). Qed.
Lemma feq_int a b : small_int a -> small_int b -> feq (f_of_int a) (f_of_int b) = (a =? b).
Proof.
  intros Ha Hb. unfold feq. rewrite f_compare by done.
  destruct (Z.compare_spec a b); [by subst; rewrite Z.eqb_refl|by rewrite (proj2 (Z.eqb_neq a b)) by lia..].
Qed.

(** An integral float has its integer back. *)
Lemma f_to_int_int a : small_int a -> f_to_int (f_of_int a) = a.
Proof.
  unfold small_int. intros Ha. destruct (decide (a = 0)) as [->|H0]; [done|]. rewrite f_of_int_exact by lia.
  pose proof (log2_53 a ltac:(lia)) as Hl. pose proof (mantissa_range a ltac:(lia)) as Hm.
  unfold f_to_int, f_trunc, exact_float. rewrite Z2Pos.id by lia.
  assert (forall x, x = a -> (if (int64_min <=? x) && (x <=? int64_max) then x else int64_min) = a) as Hin.
  { intros x ->. by rewrite (proj2 (Z.leb_le int64_min a)), (proj2 (Z.leb_le a int64_max)) by (unfold int64_min, int64_max; lia). }
  destruct (0 <=? Z.log2 a - 52) eqn:E; zbool; apply Hin.
  - replace (Z.log2 a) with 52 by lia. change (2 ^ (52 - 52)) with 1. lia.
  - replace (- (Z.log2 a - 52)) with (52 - Z.log2 a) by lia. apply Z.div_mul. pose proof (Z.pow_pos_nonneg 2 (52 - Z.log2 a)). lia.
Qed.

(** Doubling and subtracting stay exact. *)
Lemma fmul_two a : 0 <= a < 2 ^ 52 -> fmul (f_of_int a) (f_of_int 2) = f_of_int (2 * a).
Proof.
  intros Ha. destruct (decide (a = 0)) as [->|H0]; [done|]. rewrite !(f_of_int_exact a), (f_of_int_exact (2 * a)) by lia.
  change (f_of_int 2) with (S754_finite false (Z.to_pos (2 ^ 52)) (-51)). unfold fmul, SFmul, exact_float. cbn [xorb].
  pose proof (log2_53 a ltac:(lia)) as Hl. pose proof (mantissa_range a ltac:(lia)) as Hm.
  rewrite Pos2Z.inj_mul, !Z2Pos.id by lia. rewrite round_aux_exact by lia. rewrite Z.log2_double by lia. f_equal; [|lia].
  f_equal. replace (52 - Z.log2 a) with (Z.succ (52 - Z.succ (Z.log2 a))) by lia.
  destruct (decide (Z.log2 a = 52)) as [E|].
  - exfalso. pose proof (Z.log2_spec a ltac:(lia)) as [H _]. rewrite E in H. lia.
  - rewrite Z.pow_succ_r by lia. lia.
Qed.

Lemma fsub_int a b : small_int a -> 0 < b <= a -> fsub (f_of_int a) (f_of_int b) = f_of_int (a - b).
Proof.
  unfold small_int. intros Ha Hb. rewrite (f_of_int_exact a), (f_of_int_exact b) by lia.
  pose proof (log2_53 a ltac:(lia)) as Hla. pose proof (mantissa_range a ltac:(lia)) as Hma.
  pose proof (log2_53 b ltac:(lia)) as Hlb. pose proof (mantissa_range b ltac:(lia)) as Hmb.
  pose proof (Z.log2_le_mono b a ltac:(lia)) as Hle.
  unfold exact_float. unfold fsub, SFsub. cbn [cond_Zopp]. rewrite Z.min_r by lia.
  assert (Zpos (fst (shl_align (Z.to_pos (a * 2 ^ (52 - Z.log2 a))) (Z.log2 a - 52) (Z.log2 b - 52))) = a * 2 ^ (52 - Z.log2 b)) as ->.
  { unfold shl_align. destruct (Z.log2 b - 52 - (Z.log2 a - 52)) as [|s|d] eqn:Es; cbn [fst]; [rewrite Z2Pos.id by lia; do 2 f_equal; lia|lia|].
    rewrite iter_xO, Z2Pos.id by lia. rewrite <- Z.mul_assoc, <- Z.pow_add_r by lia. do 2 f_equal. lia. }
  unfold shl_align. rewrite Z.sub_diag. cbn [fst]. rewrite Z2Pos.id by lia. rewrite <- Z.mul_sub_distr_r.
  destruct (decide (a = b)) as [->|]; [by rewrite Z.sub_diag|]. rewrite f_of_int_exact by lia.
  replace (Z.log2 b - 52) with (- (52 - Z.log2 b)) by lia. apply round_exact; lia.
Qed.
