(* ===== verification/HostMem.v ===== *)
(** * Host capacity accounting ([pool/hostmem.go])

    The tracker that every worker spawn reserves memory and CPU from: the two
    gates of [availableForWorkers], the CPU budget, [reserve] and [release],
    and a machine of concurrent holders that shows the books balance. *)
From S2P Require Import Prelude Float64.
Open Scope Z_scope.

(* ------------------------------------------------------------------ *)
(** ** State and operations *)

Record hostMemTracker := HostMem {
  totalBytes : Z;
  cgroupConstrained : bool;
  cpuWorkers : Z;
  availBytes : Z;
  reserved : Z;
  reservedCPU : Z;
  reservationPct : float64
}.

#[export] Instance hostMemTracker_eta : Eta hostMemTracker := fun t =>
  HostMem (totalBytes t) (cgroupConstrained t) (cpuWorkers t) (availBytes t)
          (reserved t) (reservedCPU t) (reservationPct t).

(** The share of memory that workers may claim together. *)
Definition worker_budget (t : hostMemTracker) : Z :=
  f_to_int (fmul (f_of_int (totalBytes t)) (reservationPct t)).

Definition availableForWorkers (t : hostMemTracker) : Z :=
  let total := totalBytes t in
  if total <=? 0 then 0
  else
    let budget := worker_budget t in
    let logical := budget - reserved t in
    let physical := availBytes t in
    let physical := if cgroupConstrained t then physical - (total - budget) else physical in
    let physical := physical - reserved t in
    let out := if physical <? logical then physical else logical in
    if out <? 0 then 0 else out.

(** The receiver may be nil. *)
Definition effectiveCPUWorkers (t : option hostMemTracker) : Z :=
  match t with
  | None => 1
  | Some t => if cpuWorkers t <? 1 then 1 else cpuWorkers t
  end.

Definition availableCPUUnits (t : hostMemTracker) : Z :=
  let available := effectiveCPUWorkers (Some t) * 1000 - reservedCPU t in
  if available <? 0 then 0 else available.

(** [capacityMu] is held for the whole call; the result is the new state and
    whether the claim was granted. *)
Definition reserve (t : hostMemTracker) (bytes cpuUnits : Z) : hostMemTracker * bool :=
  if (0 <? bytes) && (availableForWorkers t <? bytes) then (t, false)
  else if (0 <? cpuUnits) && (availableCPUUnits t <? cpuUnits) then (t, false)
  else
    let t := if 0 <? bytes then t <| reserved ::= fun r => r + bytes |> else t in
    let t := if 0 <? cpuUnits then t <| reservedCPU ::= fun r => r + cpuUnits |> else t in
    (t, true).

Definition release (t : hostMemTracker) (bytes cpuUnits : Z) : hostMemTracker :=
  let t := if 0 <? bytes then
             let next := reserved t - bytes in
             t <| reserved := if next <? 0 then 0 else next |>
           else t in
  if 0 <? cpuUnits then
    let next := reservedCPU t - cpuUnits in
    t <| reservedCPU := if next <? 0 then 0 else next |>
  else t.

Definition stats (t : hostMemTracker) : Z * Z * Z := (totalBytes t, availBytes t, reserved t).

(** [refresh] stores the freshly polled availability.  Constrained, the poll
    is the tightest cgroup headroom ([None]: unreadable), capped by the host's
    [MemAvailable] when that can be read; otherwise it is [MemAvailable]. *)
Definition refresh (t : hostMemTracker) (cgroup host : option Z) : res string hostMemTracker :=
  if cgroupConstrained t then
    match cgroup with
    | None => Err "cgroup memory usage unavailable"%string
    | Some avail =>
      let avail := match host with
                   | Some hostAvail => if hostAvail <? avail then hostAvail else avail
                   | None => avail
                   end in
      Ok (t <| availBytes := avail |>)
    end
  else
    match host with
    | None => Err "MemAvailable not found in /proc/meminfo"%string
    | Some avail => Ok (t <| availBytes := avail |>)
    end.

(** The loop of [cgroupMemoryAvailable] over the hierarchy, leaf to root: for
    each directory the parsed limit and usage, [None] where the code skips the
    directory (missing file, no numeric limit, unreadable usage). *)
Fixpoint cgroupMemoryAvailable_loop (dirs : list (option (Z * Z))) (available : Z) (found : bool)
  : Z * bool :=
  match dirs with
  | [] => (available, found)
  | None :: rest => cgroupMemoryAvailable_loop rest available found
  | Some (limit, used) :: rest =>
    let free := limit - used in
    let free := if free <? 0 then 0 else free in
    cgroupMemoryAvailable_loop rest (if free <? available then free else available) true
  end.

Definition cgroupMemoryAvailable (dirs : list (option (Z * Z))) (hostTotal : Z) : Z * bool :=
  cgroupMemoryAvailable_loop dirs hostTotal false.

(** The tightest of the limits that parse; [None] where a file is unreadable
    or holds no limit below [hostTotal]. *)
Fixpoint cgroupMemoryCapacity_loop (limits : list (option Z)) (capacity : Z) : Z :=
  match limits with
  | [] => capacity
  | None :: rest => cgroupMemoryCapacity_loop rest capacity
  | Some limit :: rest =>
    cgroupMemoryCapacity_loop rest
      (if (capacity =? 0) || (limit <? capacity) then limit else capacity)
  end.

Definition cgroupMemoryCapacity (limits : list (option Z)) : Z * bool :=
  let capacity := cgroupMemoryCapacity_loop limits 0 in (capacity, 0 <? capacity).

(* ------------------------------------------------------------------ *)
(** ** Concurrent holders

    A worker start claims a reservation under a fresh name; its exit returns
    exactly what was claimed.  Polls move [availBytes] at any time. *)

Record claim := Claim { c_bytes : Z; c_cpu : Z }.

Record books := Books { tracker : hostMemTracker; claims : gmap nat claim }.

#[export] Instance books_eta : Eta books := fun b => Books (tracker b) (claims b).

Inductive books_step : books -> books -> Prop :=
| BReserve b id bytes cpu t' :
    claims b !! id = None -> 0 <= bytes -> 0 <= cpu ->
    reserve (tracker b) bytes cpu = (t', true) ->
    books_step b (Books t' (<[id := Claim bytes cpu]> (claims b)))
| BDenied b bytes cpu t' :
    reserve (tracker b) bytes cpu = (t', false) ->
    books_step b (b <| tracker := t' |>)
| BRelease b id c :
    claims b !! id = Some c ->
    books_step b (Books (release (tracker b) (c_bytes c) (c_cpu c)) (delete id (claims b)))
| BPoll b cgroup host t' :
    refresh (tracker b) cgroup host = Ok t' ->
    books_step b (b <| tracker := t' |>).

(** The books balance: what is reserved is what is outstanding, and it fits
    the static budgets. *)
Definition balanced (b : books) : Prop :=
  map_Forall (fun _ c => 0 <= c_bytes c /\ 0 <= c_cpu c) (claims b) /\
  reserved (tracker b) = msum c_bytes (claims b) /\
  reservedCPU (tracker b) = msum c_cpu (claims b) /\
  reserved (tracker b) <= Z.max 0 (worker_budget (tracker b)) /\
  reservedCPU (tracker b) <= effectiveCPUWorkers (Some (tracker b)) * 1000.

(* ------------------------------------------------------------------ *)
(** ** Lemmas *)

Lemma availableForWorkers_nonneg t : 0 <= availableForWorkers t.
Proof. unfold availableForWorkers. split_ifs; lia. Qed.

(** Whatever is offered fits both gates. *)
Lemma availableForWorkers_budget t :
  0 < availableForWorkers t ->
  availableForWorkers t + reserved t <= worker_budget t /\
  availableForWorkers t + reserved t <= availBytes t -
    (if cgroupConstrained t then totalBytes t - worker_budget t else 0).
Proof. unfold availableForWorkers. destruct (cgroupConstrained t); split_ifs; lia. Qed.

Lemma reserve_denied t bytes cpu t' : reserve t bytes cpu = (t', false) -> t' = t.
Proof. unfold reserve. intros H. split_ifs_in H; by simplify_eq. Qed.

Lemma reserve_granted t bytes cpu t' :
  reserve t bytes cpu = (t', true) -> 0 <= bytes -> 0 <= cpu ->
  t' = t <| reserved ::= fun r => r + bytes |> <| reservedCPU ::= fun r => r + cpu |> /\
  (bytes = 0 \/ bytes <= availableForWorkers t) /\
  (cpu = 0 \/ cpu <= availableCPUUnits t).
Proof.
  unfold reserve. destruct t as [tt cc cw av rs rc pct]. simpl. intros H Hb Hc.
  destruct (Z.ltb_spec 0 bytes), (Z.ltb_spec 0 cpu); simpl in *;
    split_ifs_in H; injection H as <-; (split; [f_equal; lia|lia]).
Qed.

Lemma release_exact t bytes cpu :
  0 <= bytes <= reserved t -> 0 <= cpu <= reservedCPU t ->
  release t bytes cpu =
  t <| reserved ::= fun r => r - bytes |> <| reservedCPU ::= fun r => r - cpu |>.
Proof.
  intros Hb Hc. unfold release. destruct t; simpl in *.
  split_ifs; simpl in *; zbool; f_equal; lia.
Qed.

Lemma worker_budget_frame t r c a :
  worker_budget (t <| reserved ::= r |> <| reservedCPU ::= c |> <| availBytes ::= a |>) = worker_budget t.
Proof. reflexivity. Qed.

Lemma claims_sums_nonneg (m : gmap nat claim) id c :
  map_Forall (fun _ c => 0 <= c_bytes c /\ 0 <= c_cpu c) m -> m !! id = Some c ->
  0 <= c_bytes c <= msum c_bytes m /\ 0 <= c_cpu c <= msum c_cpu m.
Proof.
  intros Hall Hid. pose proof (Hall _ _ Hid) as [].
  repeat split; try done; eapply msum_lookup_le; try done;
    intros k c' Hk; by destruct (Hall _ _ Hk).
Qed.

Lemma refresh_frame t cgroup host t' :
  refresh t cgroup host = Ok t' -> t' = t <| availBytes := availBytes t' |>.
Proof.
  unfold refresh. destruct t as [tt [] cw av rs rc pct]; simpl; intros H;
    destruct cgroup, host; simplify_eq; simpl; try done; by split_ifs.
Qed.

Lemma balanced_step b b' : books_step b b' -> balanced b -> balanced b'.
Proof.
  intros Hs (Hall & Hr & Hc & Hbud & Hcpu). destruct Hs as
    [b id bytes cpu t' Hid Hb Hcp Hres | b bytes cpu t' Hres | b id c Hid | b cg h t' Href].
  - pose proof (reserve_granted _ _ _ _ Hres Hb Hcp) as (-> & Hmem & Hav).
    pose proof (availableForWorkers_budget (tracker b)) as Hgate.
    unfold balanced; simpl.
    rewrite !msum_insert_new by done. simpl. split.
    { apply map_Forall_insert; [done|]. simpl. auto. }
    change (worker_budget _) with (worker_budget (tracker b)).
    unfold availableCPUUnits in Hav. simpl in *.
    repeat split; [lia|lia|lia|].
    destruct Hav as [->|Hav]; [lia|]. revert Hav. split_ifs; lia.
  - apply reserve_denied in Hres as ->. by destruct b.
  - pose proof (claims_sums_nonneg _ _ _ Hall Hid).
    rewrite release_exact by lia. unfold balanced; simpl.
    change (worker_budget _) with (worker_budget (tracker b)).
    rewrite (msum_delete _ _ _ c), (msum_delete _ _ _ c) by done.
    split; [by apply map_Forall_delete|]. simpl in *. repeat split; lia.
  - apply refresh_frame in Href. rewrite Href. unfold balanced; simpl.
    change (worker_budget _) with (worker_budget (tracker b)). auto.
Qed.

(* ------------------------------------------------------------------ *)
(** ** Properties *)

(** However worker starts, denials, exits and memory polls interleave, the
    tracker's books balance: reserved memory and CPU are exactly the sum of the
    outstanding claims (no claim is lost or returned twice, and the clamp at
    zero in [release] never fires), reserved memory stays within the worker
    share of the host and reserved CPU within the declared worker slots. *)
Theorem hostmem_books_balanced b0 b :
  balanced b0 -> rtc books_step b0 b -> balanced b.
Proof. intros H Hs. induction Hs; eauto using balanced_step. Qed.

Definition demo_tracker : hostMemTracker :=
  HostMem 1000000000 true 16 900000000 0 0 (fconst 8 10).

Lemma hostmem_books_balanced_witness :
  balanced (Books (demo_tracker <| reserved := 700000000 |> <| reservedCPU := 1000 |>)
                  {[ 7%nat := Claim 700000000 1000 ]}).
Proof.
  apply (hostmem_books_balanced (Books demo_tracker ∅)).
  - split; [apply map_Forall_empty|]. vm_compute. repeat split; congruence.
  - eapply rtc_l; [apply (BDenied _ 800000001 1000); vm_compute; reflexivity|].
    eapply rtc_l;
      [eapply (BReserve _ 7%nat 700000000 1000);
         [reflexivity|lia|lia|vm_compute; reflexivity]|].
    apply rtc_refl.
Defined.

(** A granted reservation fits every gate at once: the static worker
    share, the live physical headroom (less the non-worker share when Orva is
    cgroup-constrained) and the CPU slots; a denied one changes nothing; and
    returning a granted reservation restores the tracker exactly. *)
Theorem reserve_gates t bytes cpu :
  0 < bytes -> 0 < cpu -> 0 <= reserved t -> 0 <= reservedCPU t ->
  match reserve t bytes cpu with
  | (t', true) =>
    reserved t' <= worker_budget t' /\
    reserved t' <= availBytes t' -
      (if cgroupConstrained t' then totalBytes t' - worker_budget t' else 0) /\
    reservedCPU t' <= effectiveCPUWorkers (Some t') * 1000 /\
    release t' bytes cpu = t
  | (t', false) =>
    t' = t /\ (availableForWorkers t < bytes \/ availableCPUUnits t < cpu)
  end.
Proof.
  intros Hb Hc Hr Hrc. destruct (reserve t bytes cpu) as [t' []] eqn:E.
  - apply reserve_granted in E as (-> & Hm & Hu); [|lia..].
    pose proof (availableForWorkers_budget t).
    assert (Hu' : reservedCPU t + cpu <= effectiveCPUWorkers (Some t) * 1000).
    { destruct Hu as [|Hu]; [lia|]. unfold availableCPUUnits in Hu. split_ifs; revert Hu; split_ifs; lia. }
    rewrite release_exact by (simpl; lia).
    change (worker_budget (_ <| reservedCPU ::= _ |>)) with (worker_budget t).
    simpl in *. repeat split; [lia..|]. destruct t; simpl; f_equal; lia.
  - split; [by eapply reserve_denied|]. unfold reserve in E.
    split_ifs_in E; lia.
Qed.

Lemma reserve_gates_witness :
  snd (reserve demo_tracker 700000000 1000) = true /\
  release (fst (reserve demo_tracker 700000000 1000)) 700000000 1000 = demo_tracker.
Proof.
  assert (Hg : snd (reserve demo_tracker 700000000 1000) = true) by (vm_compute; reflexivity).
  split; [exact Hg|].
  pose proof (reserve_gates demo_tracker 700000000 1000
    eq_refl eq_refl ltac:(simpl; lia) ltac:(simpl; lia)) as H.
  destruct (reserve demo_tracker 700000000 1000) as [t' ok].
  simpl in Hg. subst ok. exact (proj2 (proj2 (proj2 H))).
Defined.
