(* ===== verification/Budget.v ===== *)
(** * The ingress request budget ([pool/request_budget.go])

    Daemon heap is charged before a request body is read.  The charge, the
    queue limits derived from the host, the non-blocking [reserve] with its
    release closure, and a machine of concurrent requests. *)
From S2P Require Import Prelude Float64 HostMem.
Open Scope Z_scope.

Definition requestBaseCharge : Z := 65536.
Definition requestBodyCopies : Z := 6.

Record requestBudget := Budget {
  limit : Z;
  used : Z;
  byFunction : gmap string Z
}.

#[export] Instance requestBudget_eta : Eta requestBudget := fun b =>
  Budget (limit b) (used b) (byFunction b).

(** [None] is Go's nil budget: discovery failed and nothing is charged. *)
Definition newRequestBudget (hm : option hostMemTracker) : option requestBudget :=
  match hm with
  | None => None
  | Some hm => if totalBytes hm <=? 0 then None else Some (Budget (Z.quot (totalBytes hm) 10) 0 ∅)
  end.

(** [rlimit] is the soft RLIMIT_NOFILE ([files.Cur], a uint64), [None] when
    the system call fails. *)
Definition queueLimits (b : option requestBudget) (rlimit : option Z) : Z * Z :=
  match b with
  | None => (1024, 256)
  | Some b =>
    let global := Z.quot (limit b) requestBaseCharge in
    let global := match rlimit with
                  | Some cur => if 0 <? cur then
                                  let fdLimit := Z.quot cur 4 in
                                  if fdLimit <? global then fdLimit else global
                                else global
                  | None => global
                  end in
    let global := if global <? 1 then 1 else global in
    let perFunction := global - Z.quot global 4 in
    (global, if perFunction <? 1 then 1 else perFunction)
  end.

Definition requestCharge (contentLength maxBodyBytes : Z) : Z :=
  let maxBodyBytes := if maxBodyBytes <=? 0 then 6291456 else maxBodyBytes in
  let contentLength :=
    if (contentLength <? 0) || (maxBodyBytes <? contentLength) then maxBodyBytes
    else contentLength in
  if Z.quot (int64_max - requestBaseCharge) requestBodyCopies <? contentLength then int64_max
  else wrap64 (requestBaseCharge + wrap64 (contentLength * requestBodyCopies)).

Definition charged (b : requestBudget) (fnID : string) : Z := default 0 (byFunction b !! fnID).

(** The closure [reserve] returns: a no-op for the nil budget, otherwise the
    charge to give back. *)
Inductive releaser := ReleaseNothing | ReleaseCharge (fnID : string) (charge : Z).

Definition reserve_request (h : hostMemTracker) (b : option requestBudget) (fnID : string) (charge : Z)
  : option requestBudget * option releaser :=
  match b with
  | None => (None, Some ReleaseNothing)
  | Some b =>
    if (charge <=? 0) || (limit b - used b <? charge) then (Some b, None)
    else
      let perFunctionLimit := limit b - Z.quot (limit b) 4 in
      if perFunctionLimit - charged b fnID <? charge then (Some b, None)
      else if availBytes h - used b - charge <? Z.quot (totalBytes h) 10 then (Some b, None)
      else
        (Some (b <| used ::= fun u => u + charge |>
                 <| byFunction ::= <[fnID := charged b fnID + charge]> |>),
         Some (ReleaseCharge fnID charge))
  end.

Definition release_request (b : option requestBudget) (r : releaser) : option requestBudget :=
  match b, r with
  | Some b, ReleaseCharge fnID charge =>
    let rest := charged b fnID - charge in
    Some (b <| used ::= fun u => u - charge |>
            <| byFunction ::= fun m => if rest =? 0 then delete fnID m else <[fnID := rest]> m |>)
  | b, _ => b
  end.

Inductive ingress_error := ErrManagerClosed | ErrInvocationQueueFull.

#[export] Instance ingress_error_eq_dec : EqDecision ingress_error.
Proof. solve_decision. Defined.

Definition ReserveIngress (closing : bool) (h : hostMemTracker) (b : option requestBudget)
  (fnID : string) (contentLength maxBodyBytes : Z)
  : option requestBudget * res ingress_error releaser :=
  if closing then (b, Err ErrManagerClosed)
  else
    match reserve_request h b fnID (requestCharge contentLength maxBodyBytes) with
    | (b, None) => (b, Err ErrInvocationQueueFull)
    | (b, Some r) => (b, Ok r)
    end.

(* ------------------------------------------------------------------ *)
(** ** Concurrent requests

    Requests in flight are named; each holds the releaser it was given and
    runs it once.  The tracker's availability may change between steps. *)

Record ingress := Ingress { budget : requestBudget; inflight : gmap nat (string * Z) }.

Inductive ingress_step : ingress -> ingress -> Prop :=
| IAdmit s h id fnID charge b' :
    inflight s !! id = None ->
    reserve_request h (Some (budget s)) fnID charge = (Some b', Some (ReleaseCharge fnID charge)) ->
    ingress_step s (Ingress b' (<[id := (fnID, charge)]> (inflight s)))
| IReject s h fnID charge b' :
    reserve_request h (Some (budget s)) fnID charge = (Some b', None) ->
    ingress_step s (Ingress b' (inflight s))
| IFinish s id fnID charge b' :
    inflight s !! id = Some (fnID, charge) ->
    release_request (Some (budget s)) (ReleaseCharge fnID charge) = Some b' ->
    ingress_step s (Ingress b' (delete id (inflight s))).

(** The charge outstanding for one function. *)
Definition fn_charge (fnID : string) (r : string * Z) : Z :=
  if bool_decide (r.1 = fnID) then r.2 else 0.

Definition ingress_ok (s : ingress) : Prop :=
  map_Forall (fun _ r => 0 < r.2) (inflight s) /\
  used (budget s) = msum snd (inflight s) /\
  used (budget s) <= limit (budget s) /\
  forall fnID,
    charged (budget s) fnID = msum (fn_charge fnID) (inflight s) /\
    charged (budget s) fnID <= limit (budget s) - Z.quot (limit (budget s)) 4 /\
    (byFunction (budget s) !! fnID = Some 0 -> False).

(* ------------------------------------------------------------------ *)
(** ** Lemmas *)

Lemma charged_insert b fnID v g :
  charged (b <| byFunction ::= <[fnID := v]> |>) g = if bool_decide (fnID = g) then v else charged b g.
Proof. unfold charged; simpl. case_bool_decide; subst; by simplify_map_eq. Qed.

Lemma charged_delete b fnID g :
  charged (b <| byFunction ::= delete fnID |>) g = if bool_decide (fnID = g) then 0 else charged b g.
Proof. unfold charged; simpl. case_bool_decide; subst; by simplify_map_eq. Qed.

Lemma reserve_request_granted h b fnID charge b' :
  reserve_request h (Some b) fnID charge = (Some b', Some (ReleaseCharge fnID charge)) ->
  0 < charge /\ used b + charge <= limit b /\
  charged b fnID + charge <= limit b - Z.quot (limit b) 4 /\
  b' = b <| used ::= fun u => u + charge |> <| byFunction ::= <[fnID := charged b fnID + charge]> |>.
Proof. unfold reserve_request. intros H. split_ifs_in H. simplify_eq. repeat split; lia. Qed.

Lemma reserve_request_refused h b fnID charge b' :
  reserve_request h (Some b) fnID charge = (b', None) -> b' = Some b.
Proof. unfold reserve_request. intros H. split_ifs_in H; by simplify_eq. Qed.

Lemma release_request_fields b fnID charge b' :
  release_request (Some b) (ReleaseCharge fnID charge) = Some b' ->
  used b' = used b - charge /\ limit b' = limit b /\
  (forall g, charged b' g = if bool_decide (fnID = g) then charged b g - charge else charged b g) /\
  (forall g, byFunction b' !! g = Some 0 -> byFunction b !! g = Some 0).
Proof.
  unfold release_request. intros [= <-]. destruct (Z.eqb_spec (charged b fnID - charge) 0) as [E|E].
  - split; [done|]. split; [done|]. split.
    + intros g. unfold charged in *; simpl. case_bool_decide; subst; simplify_map_eq; lia.
    + intros g. simpl. by destruct (decide (fnID = g)); simplify_map_eq.
  - split; [done|]. split; [done|]. split.
    + intros g. unfold charged in *; simpl. case_bool_decide; subst; by simplify_map_eq.
    + intros g. simpl. destruct (decide (fnID = g)); simplify_map_eq; [|done].
      intros [= H0]. congruence.
Qed.

Lemma fn_charge_pair g fnID charge :
  fn_charge g (fnID, charge) = if bool_decide (fnID = g) then charge else 0.
Proof. reflexivity. Qed.

Lemma fn_charge_bounds (m : gmap nat (string * Z)) id fnID charge :
  map_Forall (fun _ r => 0 < r.2) m -> m !! id = Some (fnID, charge) ->
  0 < charge <= msum (fn_charge fnID) m /\ charge <= msum snd m.
Proof.
  intros Hall Hid. pose proof (Hall _ _ Hid) as Hp. simpl in Hp.
  split; [split; [done|]|].
  - assert (H : fn_charge fnID (fnID, charge) <= msum (fn_charge fnID) m).
    { eapply msum_lookup_le; [|done]. intros k [g c] Hk. specialize (Hall _ _ Hk).
      unfold fn_charge; simpl in *. case_bool_decide; lia. }
    unfold fn_charge in H at 1; simpl in H. by rewrite bool_decide_eq_true_2 in H.
  - assert (H : (fnID, charge).2 <= msum snd m); [|done].
    eapply msum_lookup_le; [|done]. intros k r Hk. specialize (Hall _ _ Hk). simpl in *. lia.
Qed.

Lemma ingress_ok_step s s' : ingress_step s s' -> ingress_ok s -> ingress_ok s'.
Proof.
  intros Hs (Hall & Hu & Hl & Hf). destruct Hs as
    [s h id fnID charge b' Hid Hres | s h fnID charge b' Hres | s id fnID charge b' Hid Hrel].
  - apply reserve_request_granted in Hres as (Hpos & Hlim & Hper & ->).
    unfold ingress_ok; simpl. rewrite msum_insert_new by done. simpl.
    split; [by apply map_Forall_insert|]. split; [lia|]. split; [lia|]. intros g.
    change (charged _ g) with (charged (budget s <| byFunction ::= <[fnID := charged (budget s) fnID + charge]> |>) g).
    rewrite charged_insert, msum_insert_new by done.
    destruct (Hf g) as (Hg & Hgl & Hg0). rewrite fn_charge_pair.
    case_bool_decide; subst; simplify_map_eq.
    + repeat split; [lia|lia|]. intros [= H0]. destruct (Hf g) as (Hc & _).
      assert (0 <= msum (fn_charge g) (inflight s)); [|lia].
      apply msum_nonneg. intros k r Hk. specialize (Hall _ _ Hk). unfold fn_charge.
      simpl in Hall. case_bool_decide; lia.
    + repeat split; [lia|lia|done].
  - apply reserve_request_refused in Hres. simplify_eq. by destruct s.
  - apply release_request_fields in Hrel as (Hu' & Hl' & Hc' & H0').
    pose proof (fn_charge_bounds _ _ _ _ Hall Hid).
    unfold ingress_ok; simpl. rewrite Hu', Hl', (msum_delete _ _ _ (fnID, charge)) by done.
    split; [by apply map_Forall_delete|]. simpl. split; [lia|]. split; [lia|]. intros g.
    rewrite Hc', (msum_delete _ _ _ (fnID, charge)) by done.
    destruct (Hf g) as (Hg & Hgl & Hg0). rewrite fn_charge_pair.
    split; [case_bool_decide; lia|]. split; [case_bool_decide; lia|]. auto.
Qed.

Lemma quot_nonneg_div a b : 0 <= a -> 0 < b -> Z.quot a b = a / b.
Proof. intros. apply Z.quot_div_nonneg; lia. Qed.

Lemma three_quarters_usable g :
  let global := if g <? 1 then 1 else g in
  let perFunction := global - Z.quot global 4 in
  1 <= (if perFunction <? 1 then 1 else perFunction) <= global.
Proof.
  intros global. assert (1 <= global) by (subst global; split_ifs; lia).
  rewrite (quot_nonneg_div global 4) by lia.
  pose proof (Z.div_pos global 4 ltac:(lia) ltac:(lia)).
  pose proof (Z.mul_div_le global 4 ltac:(lia)). intros p. subst p. split_ifs; lia.
Qed.

(* ------------------------------------------------------------------ *)
(** ** Properties *)

(** Under any interleaving of admissions, refusals and completions, the
    ingress budget equals the sum of the charges of the requests in flight, in
    total and per function, never exceeds its limit, keeps every function
    within three quarters of it, and holds no entry for an idle function. *)
Theorem ingress_budget_exact s0 s :
  ingress_ok s0 -> rtc ingress_step s0 s -> ingress_ok s.
Proof. intros H Hs. induction Hs; eauto using ingress_ok_step. Qed.

Definition demo_budget : requestBudget := Budget 100000000 0 ∅.

Lemma demo_budget_ok : ingress_ok (Ingress demo_budget ∅).
Proof.
  split; [apply map_Forall_empty|]. split; [done|]. split; [vm_compute; congruence|].
  intros g. vm_compute. split; [done|]. split; [congruence|done].
Qed.

Lemma ingress_budget_exact_witness :
  ingress_ok (Ingress (Budget 100000000 65536 {[ "f"%string := 65536 ]}) {[ 1%nat := ("f"%string, 65536) ]}).
Proof.
  apply (ingress_budget_exact (Ingress demo_budget ∅) _ demo_budget_ok).
  eapply rtc_l; [|apply rtc_refl].
  apply (IAdmit (Ingress demo_budget ∅) demo_tracker 1%nat "f"%string 65536); [done|].
  vm_compute. reflexivity.
Defined.

(** The charge of a request is exact and never wraps: 64 KiB plus six
    copies of the effective body length (the declared length when it is known
    and within the body cap, the cap otherwise), saturating at the largest
    int64. *)
Theorem requestCharge_exact contentLength maxBodyBytes :
  in_int64 contentLength -> in_int64 maxBodyBytes ->
  let cap := if maxBodyBytes <=? 0 then 6291456 else maxBodyBytes in
  let body := if (0 <=? contentLength) && (contentLength <=? cap) then contentLength else cap in
  requestCharge contentLength maxBodyBytes = Z.min int64_max (65536 + 6 * body) /\
  65536 <= requestCharge contentLength maxBodyBytes <= int64_max.
Proof.
  intros Hc Hm cap body.
  assert (Hbody : 0 <= body <= int64_max).
  { subst body cap. unfold in_int64, int64_max in *. split_ifs; lia. }
  assert (Hq : Z.quot (int64_max - requestBaseCharge) requestBodyCopies = 1537228672809118378).
  { reflexivity. }
  assert (Heq : requestCharge contentLength maxBodyBytes = Z.min int64_max (65536 + 6 * body)).
  { unfold requestCharge. rewrite Hq. fold cap.
    replace (if (contentLength <? 0) || (cap <? contentLength) then cap else contentLength) with body.
    2:{ subst body. destruct (Z.leb_spec 0 contentLength), (Z.leb_spec contentLength cap),
          (Z.ltb_spec contentLength 0), (Z.ltb_spec cap contentLength); simpl; lia. }
    unfold requestBaseCharge, requestBodyCopies, int64_max in *. split_ifs; [lia|].
    rewrite !wrap64_id; unfold in_int64, int64_min, int64_max; try lia.
    rewrite wrap64_id; unfold in_int64, int64_min, int64_max; lia. }
  rewrite Heq. unfold int64_max. split; [done|]. lia.
Qed.

Lemma requestCharge_exact_witness : requestCharge 1000 0 = 71536 /\ requestCharge (-1) int64_max = int64_max.
Proof.
  split.
  - etransitivity; [apply (requestCharge_exact 1000 0); vm_compute; split; congruence|reflexivity].
  - etransitivity; [apply (requestCharge_exact (-1) int64_max); vm_compute; split; congruence|reflexivity].
Defined.

(** One hot function cannot starve another at ingress: while only [hot]
    has requests in flight, a request of any other function whose charge is at
    most a quarter of the budget is admitted whenever the host itself has the
    headroom, and the derived queue limits are always usable (at least one
    slot each, the per-function one at most the global one). *)
Theorem ingress_quarter_stays_available s h hot fnID charge rlimit :
  ingress_ok s ->
  map_Forall (fun _ r => r.1 = hot) (inflight s) -> fnID <> hot ->
  0 < charge <= Z.quot (limit (budget s)) 4 ->
  Z.quot (totalBytes h) 10 <= availBytes h - used (budget s) - charge ->
  snd (reserve_request h (Some (budget s)) fnID charge) = Some (ReleaseCharge fnID charge) /\
  (let '(global, perFunction) := queueLimits (Some (budget s)) rlimit in
   1 <= perFunction <= global).
Proof.
  intros (Hall & Hu & Hl & Hf) Hhot Hne Hc Hav.
  assert (Hsum : msum snd (inflight s) = msum (fn_charge hot) (inflight s)).
  { clear - Hhot. induction (inflight s) as [|k r m Hk _ IH] using map_first_key_ind; [done|].
    apply map_Forall_insert in Hhot as [Hr Hm]; [|done].
    rewrite !msum_insert_new by done. rewrite IH by done. unfold fn_charge at 2.
    by rewrite bool_decide_eq_true_2. }
  assert (Hzero : msum (fn_charge fnID) (inflight s) = 0).
  { clear - Hhot Hne. induction (inflight s) as [|k r m Hk _ IH] using map_first_key_ind; [done|].
    apply map_Forall_insert in Hhot as [Hr Hm]; [|done].
    rewrite msum_insert_new by done. rewrite IH by done. unfold fn_charge at 1.
    rewrite bool_decide_eq_false_2 by congruence. lia. }
  destruct (Hf hot) as (Hhc & Hhl & _), (Hf fnID) as (Hfc & _ & _).
  assert (Hq : Z.quot (limit (budget s)) 4 = limit (budget s) / 4).
  { apply quot_nonneg_div; [|lia]. destruct (Z.leb_spec 0 (limit (budget s))); [done|].
    pose proof (Z.quot_opp_l (- limit (budget s)) 4 ltac:(lia)) as Ho.
    rewrite Z.opp_involutive in Ho. pose proof (Z.quot_pos (- limit (budget s)) 4 ltac:(lia) ltac:(lia)). lia. }
  split.
  - assert (4 * (limit (budget s) / 4) <= limit (budget s)) by (apply Z.mul_div_le; lia).
    assert (Hfit : 4 * charge <= limit (budget s)) by lia.
    unfold reserve_request. split_ifs; [lia..|done].
  - apply three_quarters_usable.
Qed.

Lemma ingress_quarter_stays_available_witness :
  snd (reserve_request demo_tracker (Some demo_budget) "g"%string 25000000) =
  Some (ReleaseCharge "g"%string 25000000).
Proof.
  refine (proj1 (ingress_quarter_stays_available (Ingress demo_budget ∅) demo_tracker
    "f"%string "g"%string 25000000 None demo_budget_ok _ _ _ _)).
  - apply map_Forall_empty.
  - congruence.
  - vm_compute. split; congruence.
  - vm_compute. congruence.
Defined.
