(* ===== verification/Signals.v ===== *)
(** * Demand signals of a function pool ([pool/function_pool.go])

    Constant-space arrival buckets, the bounded sample rings, the
    nearest-rank 95th percentile and the snapshot the autoscaler reads. *)
From S2P Require Import Prelude Float64.
Open Scope Z_scope.

(* ------------------------------------------------------------------ *)
(** ** Rings of duration samples *)

Record durationRing := Ring { samples : list Z; next : nat }.

#[export] Instance durationRing_eta : Eta durationRing := fun r => Ring (samples r) (next r).

Definition emptyRing : durationRing := Ring [] 0.

Definition ring_add (r : durationRing) (d : Z) (limit : nat) : durationRing :=
  let d := if d <? 0 then 0 else d in
  if (length (samples r) <? limit)%nat then r <| samples ::= fun s => s ++ [d] |>
  else r <| samples ::= <[next r := d]> |> <| next := ((next r + 1) mod limit)%nat |>.

(** The sample of rank [ceil(0.95 n)]; the code sorts its private copy. *)
Definition durationP95 (s : list Z) : Z :=
  match s with
  | [] => 0
  | _ =>
    let sorted := merge_sort Z.le s in
    let idx := Z.quot (95 * Z.of_nat (length s) + 99) 100 - 1 in
    let idx := if idx <? 0 then 0 else idx in
    nth (Z.to_nat idx) sorted 0
  end.

(* ------------------------------------------------------------------ *)
(** ** Arrival buckets *)

Record arrivalBucket := Bucket { b_second : Z; b_count : Z }.

Record signals := Signals {
  arrivals : list arrivalBucket;      (* [60]arrivalBucket *)
  serviceSamples : durationRing;
  spawnSamples : durationRing;
  queueWaitSamples : durationRing;
  lastArrival : option Z;             (* None is the zero time.Time *)
  belowTargetSince : option Z;
  limitingReason : string
}.

#[export] Instance signals_eta : Eta signals := fun s =>
  Signals (arrivals s) (serviceSamples s) (spawnSamples s) (queueWaitSamples s)
          (lastArrival s) (belowTargetSince s) (limitingReason s).

Definition emptySignals : signals :=
  Signals (replicate 60 (Bucket 0 0)) emptyRing emptyRing emptyRing None None "".

(** Seconds since the epoch of a nanosecond instant. *)
Definition unix (t : Z) : Z := t / second.

Definition bucket_index (sec : Z) : nat :=
  let index := Z.rem sec 60 in
  Z.to_nat (if index <? 0 then index + 60 else index).

(** The part of [recordArrival] under [sigMu]. *)
Definition recordArrival (now : Z) (s : signals) : signals :=
  let sec := unix now in
  let index := bucket_index sec in
  let bucket := nth index (arrivals s) (Bucket 0 0) in
  let bucket := if negb (b_second bucket =? sec) then Bucket sec 0 else bucket in
  let bucket := Bucket (b_second bucket) (b_count bucket + 1) in
  s <| arrivals ::= <[index := bucket]> |> <| lastArrival := Some now |>.

Definition recordLatency (d : Z) (s : signals) : signals :=
  s <| serviceSamples ::= fun r => ring_add r d 512 |>.
Definition recordQueueWait (d : Z) (s : signals) : signals :=
  s <| queueWaitSamples ::= fun r => ring_add r d 512 |>.
Definition recordSpawn (d : Z) (s : signals) : signals :=
  s <| spawnSamples ::= fun r => ring_add r d 256 |>.

Definition stableWindow : Z := 60 * second.
Definition panicWindow : Z := 6 * second.

Record demandSnapshot := Demand {
  StableRate : float64;
  BurstRate : float64;
  ServiceP95 : Z;
  SpawnP95 : Z;
  QueueWaitP95 : Z;
  LastArrival : option Z
}.

(** The loop over the buckets: arrivals of the last minute and of the last six
    seconds. *)
Fixpoint count_arrivals (sec : Z) (bs : list arrivalBucket) : Z * Z :=
  match bs with
  | [] => (0, 0)
  | b :: bs =>
    let '(stable, burst) := count_arrivals sec bs in
    let age := sec - b_second b in
    if (0 <=? age) && (age <? 60) then
      (b_count b + stable,
       if age <? Z.quot panicWindow second then b_count b + burst else burst)
    else (stable, burst)
  end.

Definition snapshotDemand (now : Z) (s : signals) : demandSnapshot :=
  let '(stable, burst) := count_arrivals (unix now) (arrivals s) in
  Demand (fdiv (f_of_int stable) (seconds stableWindow))
         (fdiv (f_of_int burst) (seconds panicWindow))
         (durationP95 (samples (serviceSamples s)))
         (durationP95 (samples (spawnSamples s)))
         (durationP95 (samples (queueWaitSamples s)))
         (lastArrival s).

(* ------------------------------------------------------------------ *)
(** ** Specification vocabulary *)

Definition clip (d : Z) : Z := if d <? 0 then 0 else d.

(** How many samples satisfy a test. *)
Definition tally (P : Z -> bool) (l : list Z) : Z := zsum (fun x => if P x then 1 else 0) l.

(** The arrivals of a history whose age at second [sec] is within [window]. *)
Definition recent (window sec : Z) (ts : list Z) : Z :=
  tally (fun t => (0 <=? sec - unix t) && (sec - unix t <? window)) ts.

(* ------------------------------------------------------------------ *)
(** ** Lemmas on rings and percentiles *)

Lemma ring_fill limit ds r :
  next r = 0%nat -> (length (samples r) + length ds <= limit)%nat ->
  fold_left (fun r d => ring_add r d limit) ds r = Ring (samples r ++ map clip ds) 0.
Proof.
  revert r. induction ds as [|d ds IH]; intros [s n] Hn Hl; simpl in *; subst.
  - by rewrite app_nil_r.
  - unfold ring_add at 2; simpl. rewrite (proj2 (Nat.ltb_lt _ _)) by lia.
    rewrite IH; simpl; [|done|rewrite length_app; simpl; lia].
    by rewrite <- app_assoc.
Qed.

(** A full ring whose slots from [next] on, then from the start, are the
    window in arrival order. *)
Definition ring_full (limit : nat) (r : durationRing) (window : list Z) : Prop :=
  length (samples r) = limit /\ (next r < limit)%nat /\
  window = drop (next r) (samples r) ++ take (next r) (samples r).

Lemma ring_full_add limit r x window d :
  ring_full limit r (x :: window) -> ring_full limit (ring_add r d limit) (window ++ [clip d]).
Proof.
  intros (Hlen & Hn & Hw). destruct r as [s n]; simpl in *.
  unfold ring_add; simpl. rewrite (proj2 (Nat.ltb_ge _ _)) by lia.
  assert (Hs : s !! n = Some x).
  { destruct (lookup_lt_is_Some_2 s n) as [y Hy]; [lia|].
    rewrite (drop_S s y n Hy) in Hw. simpl in Hw. injection Hw as Hx _. by rewrite Hx. }
  rewrite (drop_S s x n Hs) in Hw. simpl in Hw. injection Hw as Hw. subst window limit.
  set (v := if d <? 0 then 0 else d). fold (clip d) in v.
  unfold ring_full; simpl. rewrite length_insert. split; [done|].
  destruct (decide (n = length s - 1)%nat) as [->|Hne].
  - replace (length s - 1 + 1)%nat with (length s) by lia.
    rewrite Nat.Div0.mod_same. split; [lia|]. rewrite drop_0, take_0, app_nil_r.
    rewrite insert_take_drop by lia.
    replace (S (length s - 1)) with (length s) by lia. rewrite drop_all. done.
  - rewrite Nat.mod_small by lia. split; [lia|].
    rewrite insert_take_drop by lia. replace (n + 1)%nat with (S n) by lia.
    assert (Htl : length (take n s) = n) by (rewrite length_take; lia).
    rewrite drop_app, Htl. replace (S n - n)%nat with 1%nat by lia.
    rewrite (drop_ge (take n s)) by lia. simpl. rewrite drop_0.
    rewrite take_app, Htl. replace (S n - n)%nat with 1%nat by lia.
    rewrite (take_ge (take n s)) by lia. simpl. rewrite take_0.
    by rewrite <- app_assoc.
Qed.

Lemma ring_full_run limit ds r window :
  (0 < limit)%nat -> ring_full limit r window ->
  ring_full limit (fold_left (fun r d => ring_add r d limit) ds r)
    (drop (length ds) (window ++ map clip ds)).
Proof.
  intros Hl. revert r window. induction ds as [|d ds IH]; intros r window H; simpl.
  - by rewrite app_nil_r, drop_0.
  - destruct window as [|x window].
    { destruct H as (H1 & H2 & H3). apply (f_equal length) in H3.
      rewrite length_app, length_drop, length_take in H3. simpl in H3. lia. }
    apply (ring_full_add _ _ _ _ d) in H. specialize (IH _ _ H). simpl.
    by rewrite <- app_assoc in IH.
Qed.

Lemma tally_app P l1 l2 : tally P (l1 ++ l2) = tally P l1 + tally P l2.
Proof. apply zsum_app. Qed.

Lemma tally_perm P l1 l2 : Permutation l1 l2 -> tally P l1 = tally P l2.
Proof. apply zsum_perm. Qed.

Lemma tally_all P l : (forall x, x ∈ l -> P x = true) -> tally P l = Z.of_nat (length l).
Proof.
  induction l as [|x l IH]; intros H; [done|].
  unfold tally in *; simpl. rewrite H by left. rewrite IH by (intros; apply H; by right). lia.
Qed.

Lemma tally_none P l : (forall x, x ∈ l -> P x = false) -> tally P l = 0.
Proof.
  induction l as [|x l IH]; intros H; [done|].
  unfold tally in *; simpl. rewrite H by left. by rewrite IH by (intros; apply H; by right).
Qed.

Lemma tally_bounds P l : 0 <= tally P l <= Z.of_nat (length l).
Proof. induction l as [|x l IH]; unfold tally in *; simpl; [lia|]. destruct (P x); lia. Qed.

Lemma tally_ext P Q l : (forall x, x ∈ l -> P x = Q x) -> tally P l = tally Q l.
Proof.
  induction l as [|x l IH]; intros H; [done|].
  unfold tally in *; simpl. rewrite (H x) by left. by rewrite IH by (intros; apply H; by right).
Qed.

(** Position of an element of a sorted list against its rank. *)
Lemma sorted_rank l i x :
  StronglySorted Z.le l -> l !! i = Some x ->
  Z.of_nat i + 1 <= tally (fun y => y <=? x) l /\ tally (fun y => y <? x) l <= Z.of_nat i.
Proof.
  revert i. induction l as [|y l IH]; intros i Hs Hi; [done|].
  apply StronglySorted_inv in Hs as [Hs Hy]. unfold tally in *. destruct i as [|i]; simpl in *.
  - simplify_eq. pose proof (tally_bounds (fun y => y <=? x) l). unfold tally in *.
    rewrite Z.leb_refl, Z.ltb_irrefl.
    assert (Hz : tally (fun y => y <? x) l = 0); [|unfold tally in Hz; rewrite Hz; lia].
    apply tally_none. intros z Hz. apply Z.ltb_ge. rewrite Forall_forall in Hy. by apply Hy.
  - destruct (IH i Hs Hi) as [H1 H2].
    assert (y <= x) by (rewrite Forall_forall in Hy; eapply Hy, list_elem_of_lookup; eauto).
    rewrite (proj2 (Z.leb_le y x)) by done. destruct (y <? x); lia.
Qed.

Lemma nearest_rank_index n :
  0 < n -> let k := Z.quot (95 * n + 99) 100 - 1 in
  0 <= k < n /\ 95 * n <= 100 * (k + 1) /\ 100 * k < 95 * n.
Proof.
  intros Hn k. subst k. rewrite Z.quot_div_nonneg by lia.
  pose proof (Z.div_mod (95 * n + 99) 100). pose proof (Z.mod_pos_bound (95 * n + 99) 100). lia.
Qed.

Lemma bucket_index_mod sec : bucket_index sec = Z.to_nat (sec mod 60).
Proof.
  unfold bucket_index. f_equal. pose proof (Z.quot_rem' sec 60).
  pose proof (Z.rem_bound_abs sec 60 ltac:(lia)). pose proof (Z.rem_sign_nz sec 60 ltac:(lia)).
  split_ifs.
  - apply Z.mod_unique with (q := Z.quot sec 60 - 1); lia.
  - apply Z.mod_unique with (q := Z.quot sec 60); lia.
Qed.

Lemma bucket_index_lt sec : (bucket_index sec < 60)%nat.
Proof. rewrite bucket_index_mod. pose proof (Z.mod_pos_bound sec 60). lia. Qed.

(** Two seconds of one bucket that are less than a minute apart are equal. *)
Lemma bucket_collision s s' :
  bucket_index s = bucket_index s' -> Z.abs (s - s') < 60 -> s = s'.
Proof.
  rewrite !bucket_index_mod. intros H Ha.
  pose proof (Z.mod_pos_bound s 60). pose proof (Z.mod_pos_bound s' 60).
  assert (Hm : s mod 60 = s' mod 60) by lia.
  pose proof (Z.div_mod s 60). pose proof (Z.div_mod s' 60). nia.
Qed.

(** What a bucket holds for a history [ts]: nothing and no arrival of its
    class, or the latest second of its class with its number of arrivals. *)
Definition bucket_holds (ts : list Z) (i : nat) (b : arrivalBucket) : Prop :=
  (b_count b = 0 /\ forall t, t ∈ ts -> bucket_index (unix t) <> i) \/
  (bucket_index (b_second b) = i /\
   b_count b = tally (fun t => unix t =? b_second b) ts /\
   (exists t, t ∈ ts /\ unix t = b_second b) /\
   forall t, t ∈ ts -> bucket_index (unix t) = i -> unix t <= b_second b).

Definition buckets_hold (ts : list Z) (bs : list arrivalBucket) : Prop :=
  length bs = 60%nat /\ forall i b, bs !! i = Some b -> bucket_holds ts i b.

Lemma bucket_holds_other ts i b now :
  bucket_holds ts i b -> bucket_index (unix now) <> i -> bucket_holds (ts ++ [now]) i b.
Proof.
  intros [[Hc Hn]|(Hi & Hc & (t & Ht & Hts) & Hmax)] Hne; [left|right].
  - split; [done|]. intros t. rewrite elem_of_app, list_elem_of_singleton. intros [?| ->]; auto.
  - split; [done|]. rewrite tally_app. split.
    + rewrite Hc. unfold tally at 3; simpl. rewrite (proj2 (Z.eqb_neq _ _)); [lia|congruence].
    + split; [exists t; split; [apply elem_of_app; by left|done]|].
      intros t'. rewrite elem_of_app, list_elem_of_singleton. intros [?| ->]; auto. congruence.
Qed.

Lemma bucket_holds_hit ts b now :
  bucket_holds ts (bucket_index (unix now)) b ->
  (forall t, t ∈ ts -> unix t <= unix now) ->
  bucket_holds (ts ++ [now]) (bucket_index (unix now))
    (let b := if negb (b_second b =? unix now) then Bucket (unix now) 0 else b in
     Bucket (b_second b) (b_count b + 1)).
Proof.
  intros Hb Hmono. right. destruct (Z.eqb_spec (b_second b) (unix now)) as [E|E]; simpl;
    rewrite ?E; rewrite tally_app; unfold tally at 2; simpl; rewrite Z.eqb_refl.
  all: split; [done|]; split; [|split;
    [exists now; split; [apply elem_of_app; right; by left|done]
    |intros t; rewrite elem_of_app, list_elem_of_singleton; intros [?| ->] ?; auto; lia]].
  - destruct Hb as [[Hc Hn]|(_ & Hc & _)].
    + rewrite Hc, tally_none; [lia|]. intros t Ht. apply Z.eqb_neq. intros Heq.
      by apply (Hn t Ht); rewrite Heq.
    + rewrite Hc, E. lia.
  - rewrite tally_none; [lia|]. intros t Ht. apply Z.eqb_neq. intros Heq.
    destruct Hb as [[Hc Hn]|(_ & Hc & (t' & Ht' & Hs') & Hmax)].
    + by apply (Hn t Ht); rewrite Heq.
    + specialize (Hmax t Ht ltac:(by rewrite Heq)). specialize (Hmono t' Ht'). lia.
Qed.

Lemma recordArrival_holds ts s now :
  buckets_hold ts (arrivals s) -> (forall t, t ∈ ts -> unix t <= unix now) ->
  buckets_hold (ts ++ [now]) (arrivals (recordArrival now s)).
Proof.
  intros [Hl Hb] Hmono. unfold recordArrival; simpl. split; [by rewrite length_insert|].
  pose proof (bucket_index_lt (unix now)) as Hlt.
  intros i b Hi. destruct (decide (bucket_index (unix now) = i)) as [<-|Hne].
  - rewrite list_lookup_insert_eq in Hi by lia. simplify_eq.
    apply (bucket_holds_hit ts (nth (bucket_index (unix now)) (arrivals s) (Bucket 0 0)) now); [|done].
    apply Hb. rewrite nth_lookup.
    destruct (lookup_lt_is_Some_2 (arrivals s) (bucket_index (unix now))) as [b' ->]; [lia|done].
  - rewrite list_lookup_insert_ne in Hi by done. by apply bucket_holds_other, Hne; apply Hb.
Qed.

(** Summing a test class by class counts every arrival once. *)
Lemma tally_classes P (ts : list Z) n :
  (forall t, t ∈ ts -> (bucket_index (unix t) < n)%nat) ->
  zsum (fun i => tally (fun t => P t && bool_decide (bucket_index (unix t) = i)) ts) (seq 0 n) = tally P ts.
Proof.
  intros Hn. induction ts as [|t ts IH].
  { unfold tally; simpl. induction (seq 0 n); simpl; lia. }
  transitivity (zsum (fun i => (if P t && bool_decide (bucket_index (unix t) = i) then 1 else 0) +
      tally (fun t => P t && bool_decide (bucket_index (unix t) = i)) ts) (seq 0 n)); [done|].
  rewrite zsum_plus, IH by (intros; apply Hn; by right). unfold tally at 2; simpl. f_equal.
  assert (Hin : In (bucket_index (unix t)) (seq 0 n)) by (apply in_seq; specialize (Hn t ltac:(left)); lia).
  pose proof (seq_NoDup n 0) as Hnd. revert Hin Hnd. generalize (seq 0 n) as l.
  intros l. induction l as [|j l IHl]; intros Hin Hnd; [done|].
  apply NoDup_cons_iff in Hnd as [Hj Hnd]. simpl.
  destruct (decide (bucket_index (unix t) = j)) as [<-|Hne].
  - rewrite bool_decide_eq_true_2 by done. rewrite andb_true_r.
    assert (Hz : zsum (fun i => if P t && bool_decide (bucket_index (unix t) = i) then 1 else 0) l = 0).
    { clear - Hj. induction l as [|k l IH]; [done|]. simpl in *.
      rewrite bool_decide_eq_false_2 by (intros Heq; apply Hj; by left).
      rewrite andb_false_r. rewrite IH by tauto. lia. }
    rewrite Hz. lia.
  - rewrite (bool_decide_eq_false_2 (_ = j)) by done. rewrite andb_false_r.
    rewrite IHl; [lia| |done]. destruct Hin; [congruence|done].
Qed.

Lemma count_arrivals_sums sec bs :
  count_arrivals sec bs =
  (zsum (fun b => if (0 <=? sec - b_second b) && (sec - b_second b <? 60) then b_count b else 0) bs,
   zsum (fun b => if (0 <=? sec - b_second b) && (sec - b_second b <? 6) then b_count b else 0) bs).
Proof.
  induction bs as [|b bs IH]; simpl; [done|]. rewrite IH.
  change (Z.quot panicWindow second) with 6.
  destruct (Z.leb_spec 0 (sec - b_second b)), (Z.ltb_spec (sec - b_second b) 60),
    (Z.ltb_spec (sec - b_second b) 6); simpl; try lia; done.
Qed.

(** What a bucket contributes to a window is its class's recent arrivals. *)
Lemma bucket_contribution ts i b sec w :
  bucket_holds ts i b -> (forall t, t ∈ ts -> unix t <= sec) -> 0 < w <= 60 ->
  (if (0 <=? sec - b_second b) && (sec - b_second b <? w) then b_count b else 0) =
  tally (fun t => ((0 <=? sec - unix t) && (sec - unix t <? w)) && bool_decide (bucket_index (unix t) = i)) ts.
Proof.
  intros Hb Hle Hw. destruct Hb as [[Hc Hn]|(Hi & Hc & (t & Ht & Hts) & Hmax)].
  - rewrite Hc, tally_none; [by split_ifs|]. intros t Ht.
    rewrite bool_decide_eq_false_2 by auto. by rewrite andb_false_r.
  - specialize (Hle t Ht) as Hbs. rewrite Hts in Hbs.
    destruct (Z.leb_spec 0 (sec - b_second b)); [|lia].
    destruct (Z.ltb_spec (sec - b_second b) w); simpl.
    + rewrite Hc. apply tally_ext. intros t' Ht'. case_bool_decide as Hcl.
      * rewrite andb_true_r. specialize (Hle t' Ht'). specialize (Hmax t' Ht' Hcl).
        destruct (Z.eqb_spec (unix t') (b_second b)); destruct (Z.leb_spec 0 (sec - unix t')),
          (Z.ltb_spec (sec - unix t') w); simpl; try lia; try done.
        exfalso. assert (unix t' = b_second b); [|done].
        apply bucket_collision; [congruence|]. lia.
      * rewrite andb_false_r. apply Z.eqb_neq. intros Heq. by rewrite Heq in Hcl.
    + symmetry. apply tally_none. intros t' Ht'. case_bool_decide as Hcl; [|by rewrite andb_false_r].
      specialize (Hle t' Ht'). specialize (Hmax t' Ht' Hcl).
      destruct (Z.ltb_spec (sec - unix t') w); [lia|]. by rewrite andb_false_r.
Qed.

Lemma window_sum ts bs sec w :
  buckets_hold ts bs -> (forall t, t ∈ ts -> unix t <= sec) -> 0 < w <= 60 ->
  zsum (fun b => if (0 <=? sec - b_second b) && (sec - b_second b <? w) then b_count b else 0) bs =
  recent w sec ts.
Proof.
  intros [Hl Hb] Hle Hw. unfold recent.
  rewrite <- (tally_classes _ ts 60) by (intros; apply bucket_index_lt).
  rewrite <- Hl. clear Hl.
  assert (H : forall k, (forall i b, bs !! i = Some b -> bucket_holds ts (k + i) b) ->
    zsum (fun b => if (0 <=? sec - b_second b) && (sec - b_second b <? w) then b_count b else 0) bs =
    zsum (fun i => tally (fun t => ((0 <=? sec - unix t) && (sec - unix t <? w)) &&
      bool_decide (bucket_index (unix t) = i)) ts) (seq k (length bs))); [|by apply H].
  clear Hb. induction bs as [|b bs IH]; intros k Hk; [done|]. simpl.
  rewrite (bucket_contribution ts k b) by (try done; specialize (Hk 0%nat b eq_refl); by rewrite Nat.add_0_r in Hk).
  f_equal. apply IH. intros i b' Hi. specialize (Hk (S i) b' Hi).
  by replace (S k + i)%nat with (k + S i)%nat by lia.
Qed.

Lemma arrivals_run ts : forall pre s,
  buckets_hold pre (arrivals s) -> (forall t t', t ∈ pre -> t' ∈ ts -> unix t <= unix t') ->
  Sorted Z.le (map unix ts) ->
  buckets_hold (pre ++ ts) (arrivals (fold_left (fun s t => recordArrival t s) ts s)).
Proof.
  induction ts as [|t ts IH]; intros pre s Hb Hle Hs; simpl in *.
  - by rewrite app_nil_r.
  - apply Sorted_StronglySorted in Hs; [|intros ? ? ?; lia].
    apply StronglySorted_inv in Hs as [Hs Ht].
    rewrite (cons_middle t pre ts), app_assoc. apply IH.
    + apply recordArrival_holds; [done|]. intros; apply Hle; [done|left].
    + intros a b. rewrite elem_of_app, list_elem_of_singleton. intros [Ha| ->] Hin.
      * apply Hle; [done|by right].
      * rewrite Forall_forall in Ht. apply Ht. by apply list_elem_of_fmap_2.
    + by apply StronglySorted_Sorted.
Qed.

(* ------------------------------------------------------------------ *)
(** ** Properties *)

(** The constant-space buckets count exactly: for any history of arrivals
    in clock order, the snapshot taken at or after the last one reports the
    rates of precisely the arrivals of the last 60 and of the last 6 whole
    seconds, however many came before, and the time of the last arrival. *)
Theorem snapshot_rates_exact ts now :
  Sorted Z.le (map unix ts) -> (forall t, t ∈ ts -> unix t <= unix now) ->
  let s := fold_left (fun s t => recordArrival t s) ts emptySignals in
  StableRate (snapshotDemand now s) = fdiv (f_of_int (recent 60 (unix now) ts)) (f_of_int 60) /\
  BurstRate (snapshotDemand now s) = fdiv (f_of_int (recent 6 (unix now) ts)) (f_of_int 6) /\
  LastArrival (snapshotDemand now s) = last ts.
Proof.
  intros Hs Hle s.
  assert (Hb : buckets_hold ts (arrivals s)).
  { apply (arrivals_run ts []); [|by intros ? ? ?%elem_of_nil|done].
    split; [done|]. intros i b Hi. apply lookup_replicate in Hi as [-> _].
    left. split; [done|]. by intros t ?%elem_of_nil. }
  unfold snapshotDemand. rewrite count_arrivals_sums. simpl.
  rewrite (window_sum ts _ _ 60), (window_sum ts _ _ 6) by (done || lia).
  split; [|split].
  - replace (seconds stableWindow) with (f_of_int 60) by (vm_compute; reflexivity). done.
  - replace (seconds panicWindow) with (f_of_int 6) by (vm_compute; reflexivity). done.
  - clear Hb Hs Hle. subst s. induction ts as [|t ts IH] using rev_ind; [done|].
    rewrite fold_left_app. simpl. by rewrite last_snoc.
Qed.

Lemma snapshot_rates_exact_witness :
  StableRate (snapshotDemand (100 * second)
    (fold_left (fun s t => recordArrival t s) [30 * second; 45 * second; 97 * second; 99 * second] emptySignals)) =
  fdiv (f_of_int 3) (f_of_int 60).
Proof.
  refine (proj1 (snapshot_rates_exact [30 * second; 45 * second; 97 * second; 99 * second] (100 * second) _ _)).
  - vm_compute. repeat constructor; congruence.
  - intros t Ht. repeat (apply elem_of_cons in Ht as [->|Ht]; [vm_compute; congruence|]).
    by apply elem_of_nil in Ht.
Defined.

(** A sample ring is a window: after any number of recordings it holds, up
    to order, exactly the newest [limit] durations (negative ones clipped to
    zero), and never more. *)
Theorem ring_keeps_newest limit ds :
  (0 < limit)%nat ->
  let r := fold_left (fun r d => ring_add r d limit) ds emptyRing in
  Permutation (samples r) (drop (length ds - limit) (map clip ds)) /\
  (length (samples r) <= limit)%nat.
Proof.
  intros Hl r. destruct (decide (length ds <= limit)%nat) as [Hs|Hs].
  - subst r. rewrite ring_fill by (simpl; lia). simpl.
    replace (length ds - limit)%nat with 0%nat by lia. rewrite drop_0, length_map. split; [done|lia].
  - assert (Hf : ring_full limit (fold_left (fun r d => ring_add r d limit) (take limit ds) emptyRing)
        (map clip (take limit ds))).
    { rewrite ring_fill by (simpl; rewrite ?length_take; lia). unfold ring_full; simpl.
      rewrite length_map, length_take, drop_0, take_0, app_nil_r. repeat split; lia. }
    apply (ring_full_run limit (drop limit ds) _ _ Hl) in Hf.
    rewrite <- fold_left_app, take_drop in Hf. destruct Hf as (Hlen & Hn & Hw). fold r in Hlen, Hn, Hw.
    rewrite <- map_app, take_drop, length_drop in Hw. rewrite Hw.
    split; [|lia]. rewrite Permutation_app_comm. by rewrite take_drop.
Qed.

Lemma ring_keeps_newest_witness :
  Permutation (samples (fold_left (fun r d => ring_add r d 2) [5; -3; 8; 9] emptyRing)) [8; 9].
Proof. exact (proj1 (ring_keeps_newest 2 [5; -3; 8; 9] ltac:(lia))). Defined.

(** DurationP95] is the nearest-rank 95th percentile of the samples: one
    of them, with at least 95% of the samples at or below it and fewer than
    95% strictly below it; it does not depend on the order of the samples. *)
Theorem durationP95_nearest_rank s s' :
  s <> [] -> Permutation s s' ->
  durationP95 s' = durationP95 s /\ durationP95 s ∈ s /\
  95 * Z.of_nat (length s) <= 100 * tally (fun y => y <=? durationP95 s) s /\
  100 * tally (fun y => y <? durationP95 s) s < 95 * Z.of_nat (length s).
Proof.
  intros Hne Hp.
  assert (Hn : 0 < Z.of_nat (length s)) by (destruct s; simpl; [done|lia]).
  destruct (nearest_rank_index _ Hn) as (Hk & Hlo & Hhi).
  set (k := Z.quot (95 * Z.of_nat (length s) + 99) 100 - 1) in *.
  assert (Hdef : forall l, Permutation s l -> durationP95 l = nth (Z.to_nat k) (merge_sort Z.le l) 0).
  { intros l Hl. pose proof (Permutation_length Hl) as Hlen. unfold durationP95.
    destruct l as [|a l]; [simpl in Hlen; lia|]. rewrite <- Hlen. fold k.
    destruct (Z.ltb_spec k 0); [lia|done]. }
  assert (Hsorts : merge_sort Z.le s' = merge_sort Z.le s).
  { apply (StronglySorted_unique Z.le); [apply StronglySorted_merge_sort; tc_solve..|].
    by rewrite !merge_sort_Permutation. }
  rewrite (Hdef s'), (Hdef s) by done. rewrite Hsorts. split; [done|].
  pose proof (merge_sort_Permutation Z.le s) as Hms.
  assert (Hs : StronglySorted Z.le (merge_sort Z.le s)) by (apply StronglySorted_merge_sort; tc_solve).
  pose proof (Permutation_length Hms) as Hmlen.
  destruct (lookup_lt_is_Some_2 (merge_sort Z.le s) (Z.to_nat k)) as [x Hx]; [lia|].
  rewrite nth_lookup, Hx. simpl.
  pose proof (sorted_rank _ _ _ Hs Hx) as [H1 H2].
  rewrite !(tally_perm _ _ _ Hms) in *. split; [|lia].
  rewrite <- Hms. by eapply list_elem_of_lookup_2.
Qed.

Lemma durationP95_nearest_rank_witness : durationP95 [9; 1; 5] = 9 /\ durationP95 [1; 5; 9] = 9.
Proof.
  pose proof (durationP95_nearest_rank [1; 5; 9] [9; 1; 5] ltac:(done)
    ltac:(exact (Permutation_sym (Permutation_cons_append [1;5] 9 : Permutation [9; 1; 5] [1; 5; 9])))) as [H _].
  rewrite H. split; vm_compute; reflexivity.
Defined.
