(* ===== verification/FunctionPool.v ===== *)
(** * One function's worker pool ([pool/function_pool.go], [pool/autoscaler.go])

    The idle channel, the live counters, the concurrency slots and the worker
    reservations of one pool generation.  Every operation is a function on the
    pool, the host tracker and the worker processes; the operations that other
    goroutines can interrupt are split at their synchronisation points, and
    the machine at the end of the definitions interleaves those pieces. *)
From S2P Require Import Prelude Float64 HostMem Signals.
Open Scope Z_scope.

(* ------------------------------------------------------------------ *)
(** ** State *)

Inductive ctx_error := DeadlineExceeded | Canceled.

Inductive pool_error :=
| ErrInvocationQueueFull
| ErrManagerClosed
| ErrNoFunction
| ErrPoolAtCapacity
| ErrMemoryExhausted
| ErrFunctionBusy
| errPoolRetired
| ErrContext (e : ctx_error)
| ErrSpawn (msg : string).

#[export] Instance ctx_error_eq_dec : EqDecision ctx_error.
Proof. solve_decision. Defined.
#[export] Instance pool_error_eq_dec : EqDecision pool_error.
Proof. solve_decision. Defined.

(** A worker process: its [dead] flag and the number of requests served. *)
Record worker := Worker { dead : bool; Served : Z }.

Definition maxConcurrentSpawnsPerPool : nat := 4.

Record functionPool := Pool {
  fnID : string;
  min_warm : Z;                              (* min *)
  max_warm : Z;                              (* max *)
  maxReason : string;
  idleTTL : Z;
  maxUses : Z;
  memoryBytes : Z;
  cpuUnits : Z;
  scaleToZero : bool;
  idle : list nat;                           (* chan *sandbox.Worker, oldest first *)
  idle_cap : nat;
  busy : Z;
  queued : Z;
  spawning : Z;
  spawnSlots : nat;                          (* chan struct{} of capacity 4 *)
  workerReservations : gmap nat claim;
  sig : signals;
  spawned : Z;
  killed : Z;
  dynamicMax : Z;
  desired : Z;
  rejections : Z;
  capacityTimeouts : Z;
  arrivalsTotal : Z;
  closing : bool;
  retired : bool;                            (* the retired channel is closed *)
  spawnError : option string;
  spawnErrorCh : nat * bool;                 (* which channel, and is it closed *)
  concSem : option (nat * nat);              (* slots taken, capacity; None unlimited *)
  concPolicy : string
}.

#[export] Instance functionPool_eta : Eta functionPool := fun p =>
  Pool (fnID p) (min_warm p) (max_warm p) (maxReason p) (idleTTL p) (maxUses p)
       (memoryBytes p) (cpuUnits p) (scaleToZero p) (idle p) (idle_cap p) (busy p)
       (queued p) (spawning p) (spawnSlots p) (workerReservations p) (sig p) (spawned p)
       (killed p) (dynamicMax p) (desired p) (rejections p) (capacityTimeouts p)
       (arrivalsTotal p) (closing p) (retired p) (spawnError p) (spawnErrorCh p)
       (concSem p) (concPolicy p).

(** What a pool operation touches: the pool, the host tracker ([None] is nil)
    and the worker processes. *)
Record pstate := PState {
  pool : functionPool;
  hostMem : option hostMemTracker;
  workers : gmap nat worker
}.

#[export] Instance pstate_eta : Eta pstate := fun s => PState (pool s) (hostMem s) (workers s).

Definition on_pool (f : functionPool -> functionPool) (s : pstate) : pstate := s <| pool ::= f |>.

(* ------------------------------------------------------------------ *)
(** ** Concurrency slots *)

Definition releaseSlot (p : functionPool) : functionPool :=
  match concSem p with
  | None => p
  | Some (S taken, cap) => p <| concSem := Some (taken, cap) |>
  | Some (O, cap) => p
  end.

(** The send case of the semaphore: ready when there is room; the slot is
    given back when the pool turns out to be closing. *)
Definition slot_case (p : functionPool) (closing_after : bool)
  : option (functionPool * option pool_error) :=
  match concSem p with
  | Some (taken, cap) =>
    if (taken <? cap)%nat then
      let p' := p <| concSem := Some (S taken, cap) |> in
      if closing_after then Some (releaseSlot p', Some errPoolRetired) else Some (p', None)
    else None
  | None => None
  end.

(** [None] means the call blocks.  [ctx] is the context's error once it is
    done, [closing_after] what [closing] reads after the send, and [pick] the
    scheduler's choice among ready cases. *)
Definition acquireSlot (pick : nat) (ctx : option ctx_error) (closing_after : bool) (p : functionPool)
  : option (functionPool * option pool_error) :=
  if closing p then Some (p, Some errPoolRetired)
  else
    match concSem p with
    | None => Some (p, None)
    | Some _ =>
      let sem := slot_case p closing_after in
      let gone := if retired p then Some (p, Some errPoolRetired) else None in
      if bool_decide (concPolicy p = "reject"%string) then
        go_select pick [sem; gone] (Some (p, Some ErrFunctionBusy))
      else
        go_select pick [sem; gone; (fun e => (p, Some (ErrContext e))) <$> ctx] None
    end.

(* ------------------------------------------------------------------ *)
(** ** Workers *)

Definition IsExpired (w : worker) (maxUses : Z) : bool := (0 <? maxUses) && (maxUses <=? Served w).

Definition isUnusable (s : pstate) (w : nat) : bool :=
  match workers s !! w with
  | None => true
  | Some wk => dead wk || IsExpired wk (maxUses (pool s))
  end.

(** The reservation recorded for a worker, or the pool's own figures. *)
Definition reservation_of (p : functionPool) (w : nat) : claim :=
  default (Claim (memoryBytes p) (cpuUnits p)) (workerReservations p !! w).

Definition release_host (h : option hostMemTracker) (c : claim) : option hostMemTracker :=
  (fun t => release t (c_bytes c) (c_cpu c)) <$> h.

Definition killWorker (s : pstate) (w : nat) : pstate :=
  let reservation := reservation_of (pool s) w in
  PState (pool s <| killed ::= Z.succ |> <| workerReservations ::= delete w |>)
         (release_host (hostMem s) reservation)
         (alter (fun wk => Worker true (Served wk)) w (workers s)).

(** The non-blocking receive from the idle channel. *)
Definition pop_idle (s : pstate) : option (nat * pstate) :=
  match idle (pool s) with
  | [] => None
  | w :: rest => Some (w, on_pool (fun p => p <| idle := rest |>) s)
  end.

(** What [acquire] does with a worker it received: [Some (Ok w)] hands it out,
    [Some (Err e)] fails, [None] means it was unusable and the call retries. *)
Definition after_pop (s : pstate) (w : nat) : pstate * option (res pool_error nat) :=
  if closing (pool s) then (killWorker s w, Some (Err errPoolRetired))
  else if isUnusable s w then (killWorker s w, None)
  else (on_pool (fun p => p <| busy ::= Z.succ |>) s, Some (Ok w)).

Inductive acquired :=
| Acquired (w : nat) (coldStart : bool)
| AcquireFailed (e : pool_error)
| WaitForIdle                                (* nothing parked: block in waitForIdle *)
| OutOfFuel.

(** The fast path of [acquire]: pop until a usable worker turns up.  Production
    pools then nudge the scaler and block. *)
Fixpoint acquire_fast (fuel : nat) (s : pstate) : pstate * acquired :=
  match fuel with
  | O => (s, OutOfFuel)
  | S fuel =>
    if closing (pool s) then (s, AcquireFailed errPoolRetired)
    else
      match pop_idle s with
      | None => (s, WaitForIdle)
      | Some (w, s) =>
        match after_pop s w with
        | (s, Some (Ok w)) => (s, Acquired w false)
        | (s, Some (Err e)) => (s, AcquireFailed e)
        | (s, None) => acquire_fast fuel s
        end
      end
  end.

(** One pass of [waitForIdle]'s select; [ch] is the channel it captured.  The
    result [None] in the second component sends the caller back to [acquire]. *)
Inductive waited := WaitDone (a : acquired) | WaitRetry.

Definition waitForIdle (pick : nat) (ctx : option ctx_error) (ch : nat) (s : pstate)
  : option (pstate * waited) :=
  let recv :=
    match pop_idle s with
    | None => None
    | Some (w, s) =>
      match after_pop s w with
      | (s, Some (Ok w)) =>
        let cold := match workers s !! w with Some wk => Served wk =? 0 | None => false end in
        Some (s, WaitDone (Acquired w cold))
      | (s, Some (Err e)) => Some (s, WaitDone (AcquireFailed e))
      | (s, None) => Some (s, WaitRetry)
      end
    end in
  let gone := if retired (pool s) then Some (s, WaitDone (AcquireFailed errPoolRetired)) else None in
  let failed :=
    if ((ch <? fst (spawnErrorCh (pool s)))%nat || snd (spawnErrorCh (pool s)))%bool then
      match spawnError (pool s) with
      | Some e => Some (s, WaitDone (AcquireFailed (ErrSpawn e)))
      | None => Some (s, WaitRetry)
      end
    else None in
  let expired :=
    match ctx with
    | Some _ => Some (on_pool (fun p => p <| capacityTimeouts ::= Z.succ |>) s,
                      WaitDone (AcquireFailed ErrPoolAtCapacity))
    | None => None
    end in
  go_select pick [recv; gone; failed; expired] None.

(* ------------------------------------------------------------------ *)
(** ** Release, sweep, retirement *)

(** The non-blocking send to the idle channel; [None] when it is full. *)
Definition push_idle (s : pstate) (w : nat) : option pstate :=
  if (length (idle (pool s)) <? idle_cap (pool s))%nat
  then Some (on_pool (fun p => p <| idle ::= fun l => l ++ [w] |>) s) else None.

Definition release_begin (s : pstate) : pstate := on_pool (fun p => p <| busy ::= Z.pred |>) s.

(** The part of [release] decided under [mu]. *)
Definition release_park (s : pstate) (w : nat) (failed : bool) : pstate :=
  if failed || isUnusable s w || closing (pool s) then killWorker s w
  else
    match push_idle s w with
    | Some s => s
    | None => killWorker s w
    end.

Definition release_worker (s : pstate) (w : nat) (failed : bool) : pstate :=
  release_park (release_begin s) w failed.

Fixpoint sweep_loop (n : nat) (s : pstate) : pstate :=
  match n with
  | O => s
  | S n =>
    match pop_idle s with
    | None => s
    | Some (w, s) =>
      if isUnusable s w then sweep_loop n (killWorker s w)
      else
        match push_idle s w with
        | Some s => sweep_loop n s
        | None => sweep_loop n (killWorker s w)
        end
    end
  end.

Definition sweep (s : pstate) : pstate :=
  if closing (pool s) then s else sweep_loop (length (idle (pool s))) s.

Definition markRetired (p : functionPool) : functionPool :=
  p <| closing := true |> <| retired := true |>.

(** The drain loop of [retirePool]: kill whatever is parked. *)
Fixpoint drain_loop (n : nat) (s : pstate) : pstate :=
  match n with
  | O => s
  | S n =>
    match pop_idle s with
    | None => s
    | Some (w, s) => drain_loop n (killWorker s w)
    end
  end.

Definition drain_idle (s : pstate) : pstate := drain_loop (length (idle (pool s))) s.

(** [scaleDown]: kill at most [want] parked workers, stopping when none is left. *)
Definition scaleDown (s : pstate) (want : Z) : pstate := drain_loop (Z.to_nat want) s.

Definition notifySpawnError (err : string) (p : functionPool) : functionPool :=
  let p := match spawnError p with
           | None => p <| spawnErrorCh := (fst (spawnErrorCh p), true) |>
           | Some _ => p
           end in
  p <| spawnError := Some err |>.

(* ------------------------------------------------------------------ *)
(** ** Spawning through the coordinator ([startSpawn]) *)

(** Workers the pool accounts for: in use, starting, parked. *)
Definition current (p : functionPool) : Z := busy p + spawning p + Z.of_nat (length (idle p)).

(** A fresh, open error channel replaces a closed one. *)
Definition clear_spawn_error (p : functionPool) : functionPool :=
  match spawnError p with
  | None => p
  | Some _ => p <| spawnError := None |> <| spawnErrorCh := (S (fst (spawnErrorCh p)), false) |>
  end.

(** The admission test and slot claim under [mu]; [None] when refused. *)
Definition spawn_admit (p : functionPool) : option functionPool :=
  let limit := dynamicMax p in
  let limit := if max_warm p <? limit then max_warm p else limit in
  let limit := if limit <? 0 then 0 else limit in
  let total := current p in
  if closing p || (limit <=? total) || (idle_cap p <=? length (idle p))%nat then None
  else if (spawnSlots p <? maxConcurrentSpawnsPerPool)%nat then
    Some (clear_spawn_error (p <| spawnSlots ::= S |> <| spawning ::= Z.succ |>))
  else None.

Definition spawn_claim (p : functionPool) : claim := Claim (memoryBytes p) (cpuUnits p).

(** Reserve host capacity for the admitted start. *)
Definition spawn_reserve (s : pstate) : pstate * bool :=
  match hostMem s with
  | None => (s, true)
  | Some t =>
    let c := spawn_claim (pool s) in
    let '(t, granted) := reserve t (c_bytes c) (c_cpu c) in
    (s <| hostMem := Some t |>, granted)
  end.

(** No capacity even after asking another pool to give one worker back. *)
Definition spawn_abort (p : functionPool) : functionPool :=
  p <| spawning ::= Z.pred |> <| spawnSlots ::= pred |>
    <| sig ::= fun g => g <| limitingReason := "memory_capacity"%string |> |>.

(** The spawn goroutine after [spawnFn] failed. *)
Definition spawn_failed (s : pstate) (c : claim) (err : string) : pstate :=
  PState (notifySpawnError err (pool s <| spawning ::= Z.pred |>)
            <| sig ::= fun g => g <| limitingReason := "spawn_error"%string |> |>
            <| spawnSlots ::= pred |>)
         (release_host (hostMem s) c)
         (workers s).

(** After [spawnFn] returned worker [w]: account for it and store its
    reservation; it is not parked yet. *)
Definition spawn_up (s : pstate) (c : claim) (w : nat) (took : Z) : pstate :=
  PState (pool s <| spawning ::= Z.pred |> <| sig ::= recordSpawn took |> <| spawned ::= Z.succ |>
                 <| workerReservations ::= <[w := c]> |>)
         (hostMem s)
         (<[w := Worker false 0]> (workers s)).

(** The last block, under [mu]: park the worker or kill it, then give the
    spawn slot back. *)
Definition spawn_park (s : pstate) (w : nat) : pstate :=
  let s := on_pool clear_spawn_error s in
  let parked := if closing (pool s) then None else push_idle s w in
  let s := match parked with Some s => s | None => killWorker s w end in
  on_pool (fun p => p <| spawnSlots ::= pred |>) s.

(* ------------------------------------------------------------------ *)
(** ** Admission counters *)

Definition invocationQueueWait : Z := 2 * second.
Definition adapterReadyTimeout : Z := 10 * second.
Definition scalerTick : Z := 2 * second.

(** [has_coordinator] is whether [requestSpawn] is set, as in production. *)
Definition queueWaitFor (has_coordinator : bool) (p : functionPool) : Z :=
  if negb has_coordinator then invocationQueueWait
  else if (0 <? spawning p) || (current p <? dynamicMax p) then adapterReadyTimeout + scalerTick
  else invocationQueueWait.

(** The compare-and-swap loop: take a place below the limit or refuse. *)
Definition reserveQueueCounter (counter limit : Z) : option Z :=
  if limit <=? counter then None else Some (counter + 1).

(* ------------------------------------------------------------------ *)
(** ** The machine

    [threads] are the goroutines inside an operation of this pool, by what
    they hold; [elsewhere] is what other pools hold on the host tracker. *)

Inductive thread :=
| Popped (w : nat)                    (* received w from the idle channel *)
| Leased (w : nat)                    (* serving a request on w *)
| Returning (w : nat) (failed : bool) (* release, before its critical section *)
| Doomed (w : nat)                    (* received only to be killed *)
| Slotted                            (* startSpawn holds a slot, nothing reserved *)
| Starting (c : claim)                (* spawnFn is running under reservation c *)
| Started (w : nat).                  (* w is up, not parked yet *)

Record machine := Machine { st : pstate; threads : list thread; elsewhere : claim }.

#[export] Instance machine_eta : Eta machine := fun m => Machine (st m) (threads m) (elsewhere m).

Definition thread_worker (t : thread) : list nat :=
  match t with
  | Popped w | Leased w | Returning w _ | Doomed w | Started w => [w]
  | Slotted | Starting _ => []
  end.

Definition is_lease (t : thread) : Z := match t with Leased _ => 1 | _ => 0 end.
Definition is_start (t : thread) : Z := match t with Slotted | Starting _ => 1 | _ => 0 end.
Definition holds_slot (t : thread) : Z := match t with Slotted | Starting _ | Started _ => 1 | _ => 0 end.
Definition start_bytes (t : thread) : Z := match t with Starting c => c_bytes c | _ => 0 end.
Definition start_cpu (t : thread) : Z := match t with Starting c => c_cpu c | _ => 0 end.

(** The workers that exist: parked, or in some goroutine's hands. *)
Definition held (m : machine) : list nat := idle (pool (st m)) ++ flat_map thread_worker (threads m).

(** Which operation of the code takes the step. *)
Inductive label :=
| LPop | LCheck | LRelease | LPark | LTake | LKill | LAdmit | LReserve | LAbort | LFail | LUp | LSettle
| LRetire | LSweep | LProcess | LOther.

Inductive pool_step : label -> machine -> machine -> Prop :=
| PPop m w s' :
    pop_idle (st m) = Some (w, s') ->
    pool_step LPop m (m <| st := s' |> <| threads ::= cons (Popped w) |>)
| PCheckOk m w rest s' :
    Permutation (threads m) (Popped w :: rest) -> after_pop (st m) w = (s', Some (Ok w)) ->
    pool_step LCheck m (m <| st := s' |> <| threads := Leased w :: rest |>)
| PCheckNo m w rest s' r :
    Permutation (threads m) (Popped w :: rest) -> after_pop (st m) w = (s', r) -> r <> Some (Ok w) ->
    pool_step LCheck m (m <| st := s' |> <| threads := rest |>)
| PRelease m w failed rest :
    Permutation (threads m) (Leased w :: rest) ->
    pool_step LRelease m (m <| st ::= release_begin |> <| threads := Returning w failed :: rest |>)
| PPark m w failed rest :
    Permutation (threads m) (Returning w failed :: rest) ->
    pool_step LPark m (m <| st ::= fun s => release_park s w failed |> <| threads := rest |>)
| PTake m w s' :                      (* retirePool, scaleDown, reclaimBorrowedIdle receive *)
    pop_idle (st m) = Some (w, s') ->
    pool_step LTake m (m <| st := s' |> <| threads ::= cons (Doomed w) |>)
| PKill m w rest :
    Permutation (threads m) (Doomed w :: rest) ->
    pool_step LKill m (m <| st ::= fun s => killWorker s w |> <| threads := rest |>)
| PAdmit m p' :
    spawn_admit (pool (st m)) = Some p' ->
    pool_step LAdmit m (m <| st ::= fun s => s <| pool := p' |> |> <| threads ::= cons Slotted |>)
| PReserve m rest s' :
    Permutation (threads m) (Slotted :: rest) -> spawn_reserve (st m) = (s', true) ->
    pool_step LReserve m (m <| st := s' |> <| threads := Starting (spawn_claim (pool (st m))) :: rest |>)
| PAbort m rest s' :
    Permutation (threads m) (Slotted :: rest) -> spawn_reserve (st m) = (s', false) ->
    pool_step LAbort m (m <| st := on_pool spawn_abort s' |> <| threads := rest |>)
| PFail m c rest err :
    Permutation (threads m) (Starting c :: rest) ->
    pool_step LFail m (m <| st ::= fun s => spawn_failed s c err |> <| threads := rest |>)
| PUp m c rest w took :
    Permutation (threads m) (Starting c :: rest) -> workers (st m) !! w = None ->
    pool_step LUp m (m <| st ::= fun s => spawn_up s c w took |> <| threads := Started w :: rest |>)
| PSettle m w rest :
    Permutation (threads m) (Started w :: rest) ->
    pool_step LSettle m (m <| st ::= fun s => spawn_park s w |> <| threads := rest |>)
| PRetire m :
    pool_step LRetire m (m <| st ::= on_pool markRetired |>)
| PSweep m :
    pool_step LSweep m (m <| st ::= sweep |>)
| PProcess m w wk wk' :               (* a process serves a request or dies *)
    workers (st m) !! w = Some wk ->
    pool_step LProcess m (m <| st ::= fun s => s <| workers ::= <[w := wk']> |> |>)
| PElsewhereReserve m bytes cpu t t' :
    hostMem (st m) = Some t -> 0 <= bytes -> 0 <= cpu -> reserve t bytes cpu = (t', true) ->
    pool_step LOther m (m <| st ::= fun s => s <| hostMem := Some t' |> |>
             <| elsewhere ::= fun c => Claim (c_bytes c + bytes) (c_cpu c + cpu) |>)
| PElsewhereRelease m bytes cpu t :
    hostMem (st m) = Some t -> 0 <= bytes <= c_bytes (elsewhere m) -> 0 <= cpu <= c_cpu (elsewhere m) ->
    pool_step LOther m (m <| st ::= fun s => s <| hostMem := Some (release t bytes cpu) |> |>
             <| elsewhere ::= fun c => Claim (c_bytes c - bytes) (c_cpu c - cpu) |>).

(** The accounting invariant of a pool generation. *)
Record accounted (m : machine) : Prop := Accounted {
  acc_sizes : 0 <= memoryBytes (pool (st m)) /\ 0 <= cpuUnits (pool (st m));
  acc_known : forall w, w ∈ held m -> is_Some (workers (st m) !! w);
  acc_busy : busy (pool (st m)) = zsum is_lease (threads m);
  acc_spawning : spawning (pool (st m)) = zsum is_start (threads m);
  acc_slots : Z.of_nat (spawnSlots (pool (st m))) = zsum holds_slot (threads m) /\
              (spawnSlots (pool (st m)) <= maxConcurrentSpawnsPerPool)%nat;
  acc_idle : (length (idle (pool (st m))) <= idle_cap (pool (st m)))%nat;
  acc_claims : map_Forall (fun _ c => 0 <= c_bytes c /\ 0 <= c_cpu c) (workerReservations (pool (st m))) /\
    Forall (fun t => 0 <= start_bytes t /\ 0 <= start_cpu t) (threads m) /\
    0 <= c_bytes (elsewhere m) /\ 0 <= c_cpu (elsewhere m);
  acc_held : Permutation ((map_to_list (workerReservations (pool (st m)))).*1) (held m);
  acc_host : match hostMem (st m) with
    | None => True
    | Some t =>
      reserved t = msum c_bytes (workerReservations (pool (st m))) + zsum start_bytes (threads m) +
                   c_bytes (elsewhere m) /\
      reservedCPU t = msum c_cpu (workerReservations (pool (st m))) + zsum start_cpu (threads m) +
                   c_cpu (elsewhere m)
    end
}.

(* ------------------------------------------------------------------ *)
(** ** Lemmas: the accounting invariant *)

(** Goroutines that hold just a worker: no slot, no lease, no reservation. *)
Definition plain (t : thread) (w : nat) : Prop :=
  thread_worker t = [w] /\ is_lease t = 0 /\ is_start t = 0 /\ holds_slot t = 0 /\
  start_bytes t = 0 /\ start_cpu t = 0.

Create HintDb orva_pool.
#[export] Hint Extern 0 (plain _ _) => (repeat split; reflexivity) : orva_pool.

Lemma flat_map_perm {A B} (f : A -> list B) l1 l2 :
  Permutation l1 l2 -> Permutation (flat_map f l1) (flat_map f l2).
Proof.
  induction 1; simpl; [done|by apply Permutation_app_head| |by etrans].
  by rewrite !(assoc (++)), (comm (++) (f y) (f x)).
Qed.

Lemma accounted_perm s T T' e :
  Permutation T T' -> accounted (Machine s T e) -> accounted (Machine s T' e).
Proof.
  intros Hp []. unfold held in *; simpl in *.
  assert (Hf := flat_map_perm thread_worker _ _ Hp).
  split; simpl; unfold held; simpl; try done.
  - intros w Hw. apply acc_known0. by rewrite Hf.
  - by rewrite <- Hp.
  - by rewrite <- Hp.
  - by rewrite <- Hp.
  - by rewrite <- Hp.
  - by rewrite <- Hf.
  - destruct (hostMem s); [|done]. by rewrite <- !Hp.
Qed.

Lemma accounted_nodup m : accounted m -> NoDup (held m).
Proof. intros []. rewrite <- acc_held0. apply NoDup_fst_map_to_list. Qed.

Lemma accounted_reserved m w :
  accounted m -> w ∈ held m -> exists c, workerReservations (pool (st m)) !! w = Some c.
Proof.
  intros [] Hw. rewrite <- acc_held0 in Hw.
  apply list_elem_of_fmap_1 in Hw as ([w' c] & -> & Hin). simpl.
  apply elem_of_map_to_list in Hin. eauto.
Qed.

(** Popping moves a worker from the channel into a goroutine's hands. *)
Lemma accounted_pop s T e w s' t :
  accounted (Machine s T e) -> pop_idle s = Some (w, s') -> plain t w ->
  accounted (Machine s' (t :: T) e).
Proof.
  intros [] Hpop (Hw & Hl & Hs & Hh & Hb & Hc). unfold pop_idle in Hpop.
  unfold held in *; simpl in *. destruct (idle (pool s)) as [|w0 rest] eqn:Ei; simplify_eq.
  assert (Hp : Permutation (rest ++ w :: flat_map thread_worker T)
                 ((w :: rest) ++ flat_map thread_worker T))
    by (simpl; by rewrite <- Permutation_middle).
  split; simpl; unfold held; simpl; rewrite ?Hw, ?Hl, ?Hs, ?Hh, ?Hb, ?Hc; simpl; try done.
  - intros w' Hw'. apply acc_known0. by rewrite <- Hp.
  - simpl in acc_idle0. lia.
  - destruct acc_claims0 as (? & ? & ? & ?). split_and!; try done.
    constructor; [|done]. rewrite Hb, Hc. lia.
  - by rewrite Hp.
Qed.

(** Parking is the converse. *)
Lemma accounted_push s T e w s' t :
  accounted (Machine s (t :: T) e) -> push_idle s w = Some s' -> plain t w ->
  accounted (Machine s' T e).
Proof.
  intros [] Hpush (Hw & Hl & Hs & Hh & Hb & Hc). unfold push_idle in Hpush.
  unfold held in *; simpl in *.
  rewrite ?Hw, ?Hl, ?Hs, ?Hh, ?Hb, ?Hc in *. simpl in *.
  destruct (Nat.ltb_spec (length (idle (pool s))) (idle_cap (pool s))); simplify_eq.
  split; simpl; unfold held; simpl; rewrite <- ?(assoc (++)); simpl; try done.
  - intros w'. rewrite <- (assoc (++)). simpl. apply acc_known0.
  - rewrite length_app. simpl. lia.
  - destruct acc_claims0 as (? & Hall & ?). inversion Hall. auto.
Qed.

(** Killing returns exactly the claim recorded for the worker. *)
Lemma accounted_kill s T e w t :
  accounted (Machine s (t :: T) e) -> plain t w -> accounted (Machine (killWorker s w) T e).
Proof.
  intros Hacc (Hw & Hl & Hs & Hh & Hb & Hc).
  destruct (accounted_reserved _ w Hacc) as [c Hres]; simpl in *.
  { unfold held; simpl. rewrite Hw. set_solver. }
  destruct Hacc. unfold held in *; simpl in *.
  rewrite ?Hw, ?Hl, ?Hs, ?Hh, ?Hb, ?Hc in *. simpl in *.
  destruct acc_claims0 as (Hall & Hthr & Helse).
  pose proof (claims_sums_nonneg _ _ _ Hall Hres) as [[] []].
  split; simpl; unfold held; simpl; try done.
  - intros w' Hw'. rewrite lookup_alter_is_Some. apply acc_known0.
    revert Hw'. rewrite !elem_of_app, elem_of_cons. tauto.
  - inversion Hthr. split_and!; try tauto. by apply map_Forall_delete.
  - pose proof (map_to_list_delete _ _ _ Hres) as Hd. simpl in Hd.
    rewrite <- Hd in acc_held0. simpl in acc_held0.
    rewrite <- Permutation_middle in acc_held0. by apply Permutation_cons_inv in acc_held0.
  - unfold release_host, reservation_of. rewrite Hres. simpl.
    destruct (hostMem s) as [tr|]; simpl; [|done]. destruct acc_host0 as [Hm Hu].
    inversion Hthr as [|? ? ? Hrest]; subst.
    assert (0 <= zsum start_bytes T) by (apply zsum_nonneg; eapply Forall_impl; [exact Hrest|tauto]).
    assert (0 <= zsum start_cpu T) by (apply zsum_nonneg; eapply Forall_impl; [exact Hrest|tauto]).
    rewrite release_exact by lia. simpl.
    rewrite !(msum_delete _ _ _ c) by done. lia.
Qed.

(** Two goroutine states with the same holdings are interchangeable. *)
Lemma accounted_swap s T e t t' w :
  plain t w -> plain t' w -> accounted (Machine s (t :: T) e) -> accounted (Machine s (t' :: T) e).
Proof.
  intros (Hw & Hl & Hs & Hh & Hb & Hc) (Hw' & Hl' & Hs' & Hh' & Hb' & Hc') [].
  unfold held in *; simpl in *.
  rewrite ?Hw, ?Hl, ?Hs, ?Hh, ?Hb, ?Hc in *.
  split; simpl; unfold held; simpl; rewrite ?Hw', ?Hl', ?Hs', ?Hh', ?Hb', ?Hc'; try done.
  destruct acc_claims0 as (? & Hthr & ? & ?). inversion Hthr. split_and!; try done.
  constructor; [|done]. rewrite Hb', Hc'. lia.
Qed.

(** Fields outside the books are free. *)
Definition same_books (p p' : functionPool) : Prop :=
  memoryBytes p' = memoryBytes p /\ cpuUnits p' = cpuUnits p /\ idle p' = idle p /\
  idle_cap p' = idle_cap p /\ busy p' = busy p /\ spawning p' = spawning p /\
  spawnSlots p' = spawnSlots p /\ workerReservations p' = workerReservations p.

Lemma accounted_frame s T e p' :
  same_books (pool s) p' -> accounted (Machine s T e) ->
  accounted (Machine (s <| pool := p' |>) T e).
Proof.
  intros (E1 & E2 & E3 & E4 & E5 & E6 & E7 & E8) [].
  unfold held in *; simpl in *. split; simpl; unfold held; simpl;
    rewrite ?E1, ?E2, ?E3, ?E4, ?E5, ?E6, ?E7, ?E8; done.
Qed.

Lemma clear_spawn_error_books p : same_books p (clear_spawn_error p).
Proof. unfold clear_spawn_error, same_books. by destruct (spawnError p). Qed.

Lemma notifySpawnError_books err p : same_books p (notifySpawnError err p).
Proof. unfold notifySpawnError, same_books. by destruct (spawnError p). Qed.

Lemma markRetired_books p : same_books p (markRetired p).
Proof. by unfold same_books. Qed.

Lemma release_begin_accounted s T e w failed :
  accounted (Machine s (Leased w :: T) e) ->
  accounted (Machine (release_begin s) (Returning w failed :: T) e).
Proof.
  intros []. unfold held in *; simpl in *. split; simpl; unfold held; simpl; try done; [lia|].
  destruct acc_claims0 as (? & Hthr & ? & ?). inversion Hthr. split_and!; try done.
  constructor; [simpl; lia|done].
Qed.

Lemma hand_out_accounted s T e w :
  accounted (Machine s (Popped w :: T) e) ->
  accounted (Machine (on_pool (fun p => p <| busy ::= Z.succ |>) s) (Leased w :: T) e).
Proof.
  intros []. unfold held in *; simpl in *. split; simpl; unfold held; simpl; try done; [lia|].
  destruct acc_claims0 as (? & Hthr & ? & ?). inversion Hthr. split_and!; try done.
  constructor; [simpl; lia|done].
Qed.

Lemma after_pop_ok s w s' :
  after_pop s w = (s', Some (Ok w)) ->
  closing (pool s) = false /\ isUnusable s w = false /\
  s' = on_pool (fun p => p <| busy ::= Z.succ |>) s.
Proof. unfold after_pop. intros H. split_ifs_in H; simplify_eq; auto. Qed.

Lemma after_pop_no s w s' r :
  after_pop s w = (s', r) -> r <> Some (Ok w) ->
  s' = killWorker s w /\
  ((closing (pool s) = true /\ r = Some (Err errPoolRetired)) \/
   (closing (pool s) = false /\ isUnusable s w = true /\ r = None)).
Proof. unfold after_pop. intros H. split_ifs_in H; simplify_eq; tauto. Qed.

Lemma release_park_accounted s T e w failed t :
  plain t w -> accounted (Machine s (t :: T) e) -> accounted (Machine (release_park s w failed) T e).
Proof.
  intros Ht Hacc. unfold release_park.
  destruct (failed || isUnusable s w || closing (pool s)); [by eapply accounted_kill|].
  destruct (push_idle s w) as [s'|] eqn:E;
    [by eapply accounted_push|by eapply accounted_kill].
Qed.

Lemma sweep_loop_accounted n T e : forall s,
  accounted (Machine s T e) -> accounted (Machine (sweep_loop n s) T e).
Proof.
  induction n as [|n IH]; intros s Hacc; simpl; [done|].
  destruct (pop_idle s) as [[w s1]|] eqn:Ep; [|done].
  assert (Hd : accounted (Machine s1 (Doomed w :: T) e))
    by (eapply accounted_pop; eauto with orva_pool).
  destruct (isUnusable s1 w); [eauto using accounted_kill with orva_pool|].
  destruct (push_idle s1 w) as [s2|] eqn:E;
    eauto using accounted_push, accounted_kill with orva_pool.
Qed.

Lemma drain_loop_accounted n T e : forall s,
  accounted (Machine s T e) -> accounted (Machine (drain_loop n s) T e).
Proof.
  induction n as [|n IH]; intros s Hacc; simpl; [done|].
  destruct (pop_idle s) as [[w s1]|] eqn:Ep; [|done].
  apply IH, (accounted_kill s1 T e w (Doomed w)); [|auto with orva_pool].
  eapply accounted_pop; eauto with orva_pool.
Qed.

(* Spawning *)

Lemma zsum_start_claims T :
  Forall (fun t => 0 <= start_bytes t /\ 0 <= start_cpu t) T ->
  0 <= zsum start_bytes T /\ 0 <= zsum start_cpu T.
Proof.
  intros H. split; apply zsum_nonneg; (eapply Forall_impl; [exact H|simpl; intros ? []; done]).
Qed.

Lemma zsum_slots_nonneg T : 0 <= zsum holds_slot T.
Proof. apply zsum_nonneg, Forall_true. by intros []. Qed.

Lemma spawn_admit_accounted s T e p' :
  spawn_admit (pool s) = Some p' -> accounted (Machine s T e) ->
  accounted (Machine (s <| pool := p' |>) (Slotted :: T) e).
Proof.
  unfold spawn_admit. intros H.
  match type of H with (if ?b then _ else _) = _ => destruct b; [discriminate|] end.
  destruct (Nat.ltb_spec (spawnSlots (pool s)) maxConcurrentSpawnsPerPool) as [Hlt|]; [|discriminate].
  injection H as <-. intros [].
  assert (Hacc : accounted (Machine (s <| pool ::= fun p => p <| spawnSlots ::= S |> <| spawning ::= Z.succ |> |>)
                    (Slotted :: T) e)).
  { unfold held in *; simpl in *. split; simpl; unfold held; simpl; try done; [lia..|].
    destruct acc_claims0 as (? & ? & ? & ?). split_and!; try done. constructor; [simpl; lia|done]. }
  apply (accounted_frame _ _ _ (clear_spawn_error (pool s <| spawnSlots ::= S |> <| spawning ::= Z.succ |>)))
    in Hacc; [done|]. apply clear_spawn_error_books.
Qed.

Lemma spawn_reserve_denied s s' : spawn_reserve s = (s', false) -> s' = s.
Proof.
  unfold spawn_reserve. destruct s as [p [t|] ws]; simpl; [|discriminate].
  destruct (reserve t _ _) as [t' []] eqn:E; intros; simplify_eq.
  by apply reserve_denied in E as ->.
Qed.

Lemma spawn_reserve_accounted s T e s' :
  spawn_reserve s = (s', true) -> accounted (Machine s (Slotted :: T) e) ->
  accounted (Machine s' (Starting (spawn_claim (pool s)) :: T) e).
Proof.
  intros Hr []. unfold held in *; simpl in *.
  destruct acc_claims0 as (? & Hthr & ? & ?). inversion Hthr; subst.
  unfold spawn_reserve in Hr. destruct s as [p [t|] ws]; simpl in *.
  - destruct (reserve t (memoryBytes p) (cpuUnits p)) as [t' g] eqn:E. simplify_eq.
    apply reserve_granted in E as (-> & _ & _); [|lia..].
    split; simpl; unfold held; simpl; try done; [|lia].
    split_and!; try done. constructor; [simpl; lia|done].
  - simplify_eq. split; simpl; unfold held; simpl; try done.
    split_and!; try done. constructor; [simpl; lia|done].
Qed.

Lemma spawn_abort_accounted s T e :
  accounted (Machine s (Slotted :: T) e) -> accounted (Machine (on_pool spawn_abort s) T e).
Proof.
  intros []. unfold held in *; simpl in *.
  destruct acc_claims0 as (? & Hthr & ? & ?). inversion Hthr; subst.
  pose proof (zsum_slots_nonneg T). split; simpl; unfold held; simpl; try done; lia.
Qed.

Lemma spawn_failed_accounted s T e c err :
  accounted (Machine s (Starting c :: T) e) -> accounted (Machine (spawn_failed s c err) T e).
Proof.
  intros []. unfold held in *; simpl in *.
  destruct acc_claims0 as (Hall & Hthr & ? & ?).
  inversion Hthr as [|? ? Hc Hrest]; subst. simpl in Hc.
  assert (0 <= msum c_bytes (workerReservations (pool s))) by (apply msum_nonneg; intros k v Hk; by destruct (Hall _ _ Hk)).
  assert (0 <= msum c_cpu (workerReservations (pool s))) by (apply msum_nonneg; intros k v Hk; by destruct (Hall _ _ Hk)).
  pose proof (zsum_start_claims T Hrest). pose proof (zsum_slots_nonneg T).
  unfold spawn_failed, notifySpawnError. simpl.
  destruct (spawnError (pool s)); (split; simpl; unfold held; simpl; try done; [lia|lia|]);
    (destruct (hostMem s) as [t|]; simpl; [|done]; rewrite release_exact by lia; simpl; lia).
Qed.

Lemma spawn_up_accounted s T e c w took :
  workers s !! w = None -> accounted (Machine s (Starting c :: T) e) ->
  accounted (Machine (spawn_up s c w took) (Started w :: T) e).
Proof.
  intros Hw Hacc. pose proof (acc_known _ Hacc) as Hknown. destruct Hacc. unfold held in *; simpl in *.
  destruct acc_claims0 as (Hall & Hthr & ? & ?).
  inversion Hthr as [|? ? Hc Hrest]; subst. simpl in Hc.
  assert (Hnone : workerReservations (pool s) !! w = None).
  { destruct (workerReservations (pool s) !! w) as [c'|] eqn:E; [|done]. exfalso.
    apply elem_of_map_to_list in E. apply (list_elem_of_fmap_2 fst) in E. simpl in E.
    rewrite acc_held0 in E. apply Hknown in E. rewrite Hw in E. by destruct E. }
  split; simpl; unfold held; simpl; try done.
  - intros w' Hw'. destruct (decide (w' = w)) as [->|Hne]; [rewrite lookup_insert_eq; eauto|].
    rewrite lookup_insert_ne by done. apply Hknown.
    revert Hw'. rewrite !elem_of_app, elem_of_cons. tauto.
  - lia.
  - split_and!; try done; [by apply map_Forall_insert_2|]. constructor; [simpl; lia|done].
  - rewrite map_to_list_insert by done. simpl. rewrite acc_held0. apply Permutation_middle.
  - destruct (hostMem s) as [t|]; [|done]. rewrite !msum_insert_new by done. lia.
Qed.

Lemma spawn_slot_back s T e w :
  accounted (Machine s (Started w :: T) e) ->
  accounted (Machine (on_pool (fun p => p <| spawnSlots ::= pred |>) s) (Doomed w :: T) e).
Proof.
  intros []. unfold held in *; simpl in *.
  destruct acc_claims0 as (? & Hthr & ? & ?). inversion Hthr; subst.
  pose proof (zsum_slots_nonneg T). split; simpl; unfold held; simpl; try done; [lia|].
  split_and!; try done. constructor; [simpl; lia|done].
Qed.

Lemma spawn_park_accounted s T e w :
  accounted (Machine s (Started w :: T) e) -> accounted (Machine (spawn_park s w) T e).
Proof.
  intros Hacc. unfold spawn_park.
  apply (accounted_frame _ _ _ (clear_spawn_error (pool s))) in Hacc; [|apply clear_spawn_error_books].
  change (s <| pool := clear_spawn_error (pool s) |>) with (on_pool clear_spawn_error s) in Hacc.
  set (s1 := on_pool clear_spawn_error s) in *. apply spawn_slot_back in Hacc.
  clearbody s1.
  destruct (closing (pool s1)); [exact (accounted_kill _ _ _ _ _ Hacc ltac:(auto with orva_pool))|].
  unfold push_idle.
  destruct (Nat.ltb_spec (length (idle (pool s1))) (idle_cap (pool s1))) as [Hlt|].
  - eapply (accounted_push _ _ _ w); [exact Hacc| |auto with orva_pool].
    unfold push_idle. simpl. apply Nat.ltb_lt in Hlt. by rewrite Hlt.
  - exact (accounted_kill _ _ _ _ _ Hacc ltac:(auto with orva_pool)).
Qed.

(** Other pools' claims move the tracker and [elsewhere] together. *)
Lemma elsewhere_release_accounted s T e t bytes cpu :
  hostMem s = Some t -> 0 <= bytes <= c_bytes e -> 0 <= cpu <= c_cpu e ->
  accounted (Machine s T e) ->
  accounted (Machine (s <| hostMem := Some (release t bytes cpu) |>) T
                     (Claim (c_bytes e - bytes) (c_cpu e - cpu))).
Proof.
  intros Ht Hb Hc []. unfold held in *; simpl in *. rewrite Ht in acc_host0.
  destruct acc_claims0 as (Hall & Hthr & ? & ?). pose proof (zsum_start_claims T Hthr).
  assert (0 <= msum c_bytes (workerReservations (pool s))) by (apply msum_nonneg; intros k v Hk; by destruct (Hall _ _ Hk)).
  assert (0 <= msum c_cpu (workerReservations (pool s))) by (apply msum_nonneg; intros k v Hk; by destruct (Hall _ _ Hk)).
  split; simpl; unfold held; simpl; try done.
  - split_and!; try done; lia.
  - rewrite release_exact by lia. simpl. lia.
Qed.

Definition steps (m m' : machine) : Prop := exists l, pool_step l m m'.

Lemma accounted_step m m' : steps m m' -> accounted m -> accounted m'.
Proof.
  intros [l Hs] Hacc. destruct m as [s T e].
  inversion Hs; subst; simpl in *;
    repeat match goal with
    | H : Permutation T _ |- _ => apply (accounted_perm _ _ _ _ H) in Hacc; clear H
    end.
  - eapply accounted_pop; eauto with orva_pool.
  - match goal with H : after_pop _ _ = _ |- _ => apply after_pop_ok in H as (_ & _ & ->) end.
    by apply hand_out_accounted.
  - match goal with H : after_pop _ _ = _ |- _ => apply after_pop_no in H as [-> _]; [|done] end.
    eapply accounted_kill; eauto with orva_pool.
  - by apply release_begin_accounted.
  - eapply release_park_accounted; [|exact Hacc]; auto with orva_pool.
  - eapply accounted_pop; eauto with orva_pool.
  - eapply accounted_kill; eauto with orva_pool.
  - by apply spawn_admit_accounted.
  - by apply spawn_reserve_accounted.
  - match goal with H : spawn_reserve _ = _ |- _ => apply spawn_reserve_denied in H as -> end.
    by apply spawn_abort_accounted.
  - by apply spawn_failed_accounted.
  - by apply spawn_up_accounted.
  - by apply spawn_park_accounted.
  - apply (accounted_frame _ _ _ (markRetired (pool s))) in Hacc; [done|apply markRetired_books].
  - unfold sweep. destruct (closing (pool s)); [done|]. by apply sweep_loop_accounted.
  - destruct Hacc. split; simpl in *; try done.
    intros w' Hw'. destruct (decide (w' = w)) as [->|]; [rewrite lookup_insert_eq; eauto|].
    rewrite lookup_insert_ne by done. by apply acc_known0.
  - match goal with H : reserve _ _ _ = _ |- _ => apply reserve_granted in H as (-> & _ & _); [|done..] end.
    destruct Hacc. unfold held in *; simpl in *. split; simpl; unfold held; simpl; try done.
    + destruct acc_claims0 as (? & ? & ? & ?). split_and!; try done; lia.
    + match goal with H : hostMem _ = _ |- _ => rewrite H in acc_host0 end. simpl. lia.
  - by apply elsewhere_release_accounted.
Qed.

Lemma accounted_run m m' : rtc steps m m' -> accounted m -> accounted m'.
Proof. induction 1; eauto using accounted_step. Qed.

Lemma release_park_closing s w failed :
  closing (pool s) = true -> release_park s w failed = killWorker s w.
Proof. unfold release_park. intros ->. by rewrite orb_true_r. Qed.

Lemma spawn_park_closing s w :
  closing (pool s) = true ->
  spawn_park s w = on_pool (fun p => p <| spawnSlots ::= pred |>) (killWorker (on_pool clear_spawn_error s) w).
Proof.
  intros Hcl. unfold spawn_park.
  replace (closing (pool (on_pool clear_spawn_error s))) with true; [done|].
  simpl. unfold clear_spawn_error. by destruct (spawnError (pool s)).
Qed.

Lemma sweep_closing s : closing (pool s) = true -> sweep s = s.
Proof. unfold sweep. by intros ->. Qed.

Lemma spawn_reserve_pool s s' b : spawn_reserve s = (s', b) -> pool s' = pool s.
Proof.
  unfold spawn_reserve. destruct (hostMem s) as [t|]; intros; [|by simplify_eq].
  case_match; by simplify_eq.
Qed.

(** A closing pool only loses workers. *)
Record winding_down (m m' : machine) : Prop := WindingDown {
  wd_closing : closing (pool (st m')) = true;
  wd_idle : idle (pool (st m')) `suffix_of` idle (pool (st m));
  wd_leases : zsum is_lease (threads m') <= zsum is_lease (threads m);
  wd_slots : zsum holds_slot (threads m') <= zsum holds_slot (threads m)
}.

Lemma winding_down_trans m1 m2 m3 : winding_down m1 m2 -> winding_down m2 m3 -> winding_down m1 m3.
Proof. intros [] []. split; [done|by etrans|lia|lia]. Qed.

Lemma winding_down_step m m' :
  steps m m' -> closing (pool (st m)) = true -> winding_down m m'.
Proof.
  intros [l Hs] Hcl. destruct m as [s T e]. simpl in Hcl.
  inversion Hs; subst; simpl in *;
    repeat match goal with
    | H : Permutation T _ |- _ =>
      pose proof (zsum_perm is_lease _ _ H); pose proof (zsum_perm holds_slot _ _ H); clear H
    end; simpl in *.
  all: repeat match goal with
    | H : pop_idle _ = Some _ |- _ =>
      unfold pop_idle in H; destruct (idle (pool s)) eqn:?; [discriminate|]; injection H as <- <-
    | H : after_pop _ _ = (_, Some (Ok _)) |- _ => apply after_pop_ok in H as (? & _ & _); congruence
    | H : after_pop _ _ = _ |- _ => apply after_pop_no in H as [-> _]; [|done]
    | H : spawn_admit _ = Some _ |- _ =>
      unfold spawn_admit in H; rewrite Hcl in H; discriminate
    | H : spawn_reserve _ = (_, false) |- _ => apply spawn_reserve_denied in H as ->
    end.
  all: rewrite ?release_park_closing, ?spawn_park_closing, ?sweep_closing by done.
  all: repeat match goal with
    | H : spawn_reserve _ = _ |- _ => apply spawn_reserve_pool in H; rewrite <- H in Hcl
    end.
  all: split; unfold spawn_failed, notifySpawnError, clear_spawn_error; simpl;
    repeat match goal with
    | |- context [match spawnError ?p with _ => _ end] => destruct (spawnError p)
    end; simpl; try done; try lia; try congruence;
    rewrite ?Heql; try (by apply suffix_cons_r).
  all: match goal with H : pool ?s = pool ?s' |- _ => by rewrite H | |- _ => idtac end.
Qed.

Lemma winding_down_run m m' :
  rtc steps m m' -> closing (pool (st m)) = true -> winding_down m m'.
Proof.
  induction 1 as [m|m1 m2 m3 Hs _ IH]; intros Hcl; [by split|].
  pose proof (winding_down_step _ _ Hs Hcl) as H1.
  eapply winding_down_trans; [exact H1|]. apply IH, H1.
Qed.

(* ------------------------------------------------------------------ *)
(** ** Lemmas: walking the idle channel *)

Definition with_idle (l : list nat) (s : pstate) : pstate := on_pool (fun p => p <| idle := l |>) s.
Definition kill_all (s : pstate) (ws : list nat) : pstate := foldl killWorker s ws.
Definition usable (s : pstate) (w : nat) : Prop := isUnusable s w = false.
#[export] Instance usable_dec s w : Decision (usable s w).
Proof. unfold usable. apply _. Defined.

Lemma with_idle_id s : with_idle (idle (pool s)) s = s.
Proof. destruct s as [[] ? ?]. reflexivity. Qed.

Lemma kill_with_idle l s w : killWorker (with_idle l s) w = with_idle l (killWorker s w).
Proof. reflexivity. Qed.

Lemma isUnusable_with_idle l s w : isUnusable (with_idle l s) w = isUnusable s w.
Proof. reflexivity. Qed.

Lemma isUnusable_kill s w w' :
  isUnusable s w' = true -> isUnusable (killWorker s w') w = isUnusable s w.
Proof.
  unfold isUnusable. intros Hw'. simpl. destruct (decide (w = w')) as [->|Hne].
  - rewrite lookup_alter_eq. by destruct (workers s !! w').
  - by rewrite lookup_alter_ne.
Qed.

Lemma usable_kill s w w' : ~ usable s w' -> usable (killWorker s w') w <-> usable s w.
Proof.
  unfold usable. intros H. apply not_false_is_true in H. by rewrite isUnusable_kill.
Qed.

Lemma pop_idle_with w l s : pop_idle (with_idle (w :: l) s) = Some (w, with_idle l s).
Proof. reflexivity. Qed.

Lemma sweep_loop_spec n : forall s l kept,
  n = length l -> (length l + length kept <= idle_cap (pool s))%nat ->
  sweep_loop n (with_idle (l ++ kept) s) =
  with_idle (kept ++ filter (usable s) l) (kill_all s (filter (fun w => ~ usable s w) l)).
Proof.
  induction n as [|n IH]; intros s [|w l] kept Hn Hcap; try discriminate.
  { simpl. by rewrite app_nil_r. }
  injection Hn as ->. simpl in Hcap. cbn [sweep_loop app].
  rewrite pop_idle_with, isUnusable_with_idle, !filter_cons.
  destruct (isUnusable s w) eqn:Eu; destruct (decide (usable s w)) as [Hu|Hu];
    destruct (decide (~ usable s w)) as [Hn|Hn]; try (by unfold usable in *; congruence); try done.
  - rewrite kill_with_idle, IH by (simpl; lia). simpl.
    f_equal; [f_equal|unfold kill_all; f_equal]; apply list_filter_iff; intros w'; by rewrite usable_kill.
  - unfold push_idle. simpl. rewrite length_app.
    destruct (Nat.ltb_spec (length l + length kept) (idle_cap (pool s))); [|lia].
    change (on_pool _ (with_idle (l ++ kept) s)) with (with_idle ((l ++ kept) ++ [w]) s).
    rewrite <- (assoc (++)), IH by (rewrite ?length_app; simpl; lia).
    by rewrite <- (assoc (++)).
Qed.

Lemma acquire_fast_skip dead : forall fuel s rest,
  (length dead < fuel)%nat -> closing (pool s) = false -> Forall (fun w => ~ usable s w) dead ->
  acquire_fast fuel (with_idle (dead ++ rest) s) =
  acquire_fast (fuel - length dead) (with_idle rest (kill_all s dead)).
Proof.
  induction dead as [|w dead IH]; intros [|fuel] s rest Hf Hcl Hdead; 
    try (simpl in *; lia); [done|].
  inversion Hdead as [|? ? Hw Hrest]; subst. cbn [acquire_fast app].
  rewrite pop_idle_with. unfold after_pop. rewrite isUnusable_with_idle.
  change (closing (pool (with_idle _ s))) with (closing (pool s)). rewrite Hcl.
  assert (isUnusable s w = true) as -> by (by apply not_false_is_true in Hw).
  rewrite kill_with_idle. apply IH; [simpl in Hf; lia|done|].
  eapply Forall_impl; [exact Hrest|]. intros w' Hw'. simpl. by rewrite usable_kill.
Qed.

Lemma kill_all_closing s ws : closing (pool (kill_all s ws)) = closing (pool s).
Proof. revert s. induction ws as [|w ws IH]; intros s; simpl; [done|]. by rewrite IH. Qed.

Lemma usable_kill_all s ws w :
  Forall (fun w => ~ usable s w) ws -> usable (kill_all s ws) w <-> usable s w.
Proof.
  revert s. induction ws as [|w' ws IH]; intros s Hws; simpl; [done|].
  inversion Hws as [|? ? Hw' Hrest]; subst. rewrite IH; [by apply usable_kill|].
  eapply Forall_impl; [exact Hrest|]. intros x Hx. simpl. by rewrite usable_kill.
Qed.

Lemma first_usable s l :
  (exists dead w rest, l = dead ++ w :: rest /\ Forall (fun w => ~ usable s w) dead /\ usable s w) \/
  Forall (fun w => ~ usable s w) l.
Proof.
  induction l as [|w l IH]; [by right|]. destruct (decide (usable s w)) as [Hu|Hu].
  - left. by exists [], w, l.
  - destruct IH as [(dead & w' & rest & -> & Hd & Hw')|Hd]; [left|by right; constructor].
    exists (w :: dead), w', rest. split_and!; [done|by constructor|done].
Qed.

(* ------------------------------------------------------------------ *)
(** ** Lemmas: concurrency slots *)

(** What each outcome of [acquireSlot] means. *)
Definition slot_spec (ctx : option ctx_error) (closing_after : bool) (p : functionPool)
    (o : option (functionPool * option pool_error)) : Prop :=
  match o with
  | None =>
    concPolicy p <> "reject"%string /\ ctx = None /\ retired p = false /\
    exists taken cap, concSem p = Some (taken, cap) /\ (cap <= taken)%nat
  | Some (p', None) =>
    closing p = false /\ releaseSlot p' = p /\
    match concSem p, concSem p' with
    | None, None => True
    | Some (taken, cap), Some (taken', cap') =>
      taken' = S taken /\ cap' = cap /\ (taken' <= cap)%nat /\ closing_after = false
    | _, _ => False
    end
  | Some (p', Some e) =>
    p' = p /\
    (e = errPoolRetired \/ (e = ErrFunctionBusy /\ concPolicy p = "reject"%string) \/
     exists c, e = ErrContext c /\ ctx = Some c)
  end.

Lemma acquireSlot_cases pick ctx closing_after p :
  slot_spec ctx closing_after p (acquireSlot pick ctx closing_after p).
Proof.
  unfold slot_spec, acquireSlot. destruct (closing p) eqn:Ecl; [auto|].
  destruct (concSem p) as [[taken cap]|] eqn:Es; [|rewrite Es; unfold releaseSlot; by rewrite Es].
  assert (Hsem : slot_case p closing_after =
    if (taken <? cap)%nat then
      if closing_after then Some (p, Some errPoolRetired)
      else Some (p <| concSem := Some (S taken, cap) |>, None)
    else None).
  { unfold slot_case. rewrite Es. destruct (taken <? cap)%nat; [|done].
    destruct closing_after; [|done]. unfold releaseSlot. simpl. rewrite <- Es.
    by destruct p. }
  rewrite Hsem. clear Hsem.
  case_bool_decide as Hpol.
  - destruct (go_select _ _ _) as [[p' [e|]]|] eqn:E.
    + apply go_select_in in E as [E|[E _]]; [|simplify_eq; auto].
      rewrite !elem_of_cons, elem_of_nil in E. destruct E as [E|[E|[]]].
      * destruct (taken <? cap)%nat, closing_after; simplify_eq; auto.
      * destruct (retired p); simplify_eq; auto.
    + apply go_select_in in E as [E|[E _]]; [|simplify_eq].
      rewrite !elem_of_cons, elem_of_nil in E. destruct E as [E|[E|[]]]; [|by destruct (retired p)].
      destruct (Nat.ltb_spec taken cap), closing_after; simplify_eq.
      split_and!; [done| |simpl; split_and!; auto; lia].
      unfold releaseSlot. simpl. rewrite <- Es. by destruct p.
    + apply go_select_none in E as [[=] _].
  - destruct (go_select _ _ _) as [[p' [e|]]|] eqn:E.
    + apply go_select_in in E as [E|[E _]]; [|simplify_eq].
      rewrite !elem_of_cons, elem_of_nil in E. destruct E as [E|[E|[E|[]]]].
      * destruct (taken <? cap)%nat, closing_after; simplify_eq; auto.
      * destruct (retired p); simplify_eq; auto.
      * destruct ctx as [c|]; simpl in E; simplify_eq. eauto 6.
    + apply go_select_in in E as [E|[E _]]; [|simplify_eq].
      rewrite !elem_of_cons, elem_of_nil in E. destruct E as [E|[E|[E|[]]]];
        [|by destruct (retired p)|by destruct ctx].
      destruct (Nat.ltb_spec taken cap), closing_after; simplify_eq.
      split_and!; [done| |simpl; split_and!; auto; lia].
      unfold releaseSlot. simpl. rewrite <- Es. by destruct p.
    + apply go_select_none in E as [_ E].
      rewrite !Forall_cons in E. destruct E as (E1 & E2 & E3 & _).
      split_and!; [done|by destruct ctx|by destruct (retired p)|].
      destruct (Nat.ltb_spec taken cap); [by destruct closing_after|]. eauto.
Qed.

(* ------------------------------------------------------------------ *)
(** ** Properties *)

(** C4: however requests, releases, spawns, sweeps, scale-downs, retirement,
    worker crashes and other pools' claims interleave, a pool's books stay
    exact: [busy] counts the workers serving a request, [spawning] the starts
    in flight (at most four), the idle channel never overflows, no worker is
    in two places at once, and the host tracker holds precisely one claim per
    live worker or start; a pool at rest with no parked worker holds none. *)
Theorem pool_books_exact m0 m :
  accounted m0 -> rtc steps m0 m ->
  busy (pool (st m)) = zsum is_lease (threads m) /\
  spawning (pool (st m)) = zsum is_start (threads m) /\
  spawning (pool (st m)) <= 4 /\
  (length (idle (pool (st m))) <= idle_cap (pool (st m)))%nat /\
  NoDup (held m) /\
  dom (workerReservations (pool (st m))) = list_to_set (held m) /\
  forall t, hostMem (st m) = Some t ->
    reserved t = msum c_bytes (workerReservations (pool (st m))) +
                 zsum start_bytes (threads m) + c_bytes (elsewhere m) /\
    reservedCPU t = msum c_cpu (workerReservations (pool (st m))) +
                 zsum start_cpu (threads m) + c_cpu (elsewhere m) /\
    (threads m = [] -> idle (pool (st m)) = [] ->
     reserved t = c_bytes (elsewhere m) /\ reservedCPU t = c_cpu (elsewhere m)).
Proof.
  intros H0 Hrun. pose proof (accounted_run _ _ Hrun H0) as Hacc.
  pose proof (accounted_nodup _ Hacc). destruct Hacc.
  split_and!; try done.
  - apply Z.le_trans with (zsum holds_slot (threads m)); [|unfold maxConcurrentSpawnsPerPool in *; lia].
    rewrite acc_spawning0. clear. induction (threads m) as [|[] l IH]; simpl in *; lia.
  - apply set_eq. intros w. rewrite elem_of_list_to_set, <- acc_held0.
    rewrite elem_of_dom, list_elem_of_fmap. split.
    + intros [c Hc]. exists (w, c). split; [done|]. by apply elem_of_map_to_list.
    + intros ([w' c] & -> & Hin). apply elem_of_map_to_list in Hin. eauto.
  - intros t Ht. rewrite Ht in acc_host0. split_and!; try tauto.
    intros HT Hi. unfold held in *. rewrite HT, Hi in *. simpl in acc_held0.
    assert (Hemp : workerReservations (pool (st m)) = ∅).
    { apply map_to_list_empty_iff. by apply Permutation_nil_r, fmap_nil_inv in acc_held0. }
    rewrite Hemp, !msum_empty in acc_host0. simpl in acc_host0. lia.
Qed.

Definition demo_pool : functionPool :=
  Pool "fn-a" 0 2 "" 0 100 300000000 1000 true [1%nat] 2 0 0 0 0 {[ 1%nat := Claim 300000000 1000 ]}
       emptySignals 1 0 2 0 0 0 0 false false None (O, false) (Some (O, 1%nat)) "reject".

Definition demo_machine : machine :=
  Machine (PState demo_pool (Some (demo_tracker <| reserved := 300000000 |> <| reservedCPU := 1000 |>))
                  {[ 1%nat := Worker false 0 ]}) [] (Claim 0 0).

Lemma demo_accounted : accounted demo_machine.
Proof.
  split; try done; simpl.
  - intros w Hw. apply list_elem_of_singleton in Hw as ->. rewrite lookup_singleton_eq. eauto.
  - unfold maxConcurrentSpawnsPerPool. lia.
  - lia.
  - split_and!; try done; try lia. by apply map_Forall_singleton.
Qed.

(** A request leases the parked worker while a start is admitted. *)
Definition demo_leased : machine :=
  let m := demo_machine in
  m <| st := PState (clear_spawn_error (demo_pool <| idle := [] |> <| busy := 1 |> <| spawning := 1 |>
                                          <| spawnSlots := 1%nat |>)) (hostMem (st m)) (workers (st m)) |>
    <| threads := [Slotted; Leased 1] |>.

Lemma demo_run : rtc steps demo_machine demo_leased.
Proof.
  eapply rtc_l; [eexists; eapply PPop; reflexivity|].
  eapply rtc_l; [eexists; eapply (PCheckOk _ 1 []); reflexivity|].
  eapply rtc_l; [eexists; eapply PAdmit; reflexivity|].
  apply rtc_refl.
Qed.

Lemma pool_books_exact_witness :
  rtc steps demo_machine demo_leased /\ busy (pool (st demo_leased)) = 1 /\ NoDup (held demo_leased) /\
  dom (workerReservations (pool (st demo_leased))) = list_to_set (held demo_leased).
Proof.
  destruct (pool_books_exact demo_machine demo_leased demo_accounted demo_run)
    as (Hb & _ & _ & _ & Hnd & Hdom & _).
  split_and!; [exact demo_run|exact Hb|exact Hnd|exact Hdom].
Defined.

(** Retirement is final.  Once a pool is closing, whatever happens next,
    it stays closing, its idle channel only shrinks (nothing is parked again,
    not even a spawn that was in flight), no request is handed a worker and no
    new start is admitted. *)
Theorem retirement_is_final m m' :
  closing (pool (st m)) = true -> rtc steps m m' ->
  closing (pool (st m')) = true /\
  idle (pool (st m')) `suffix_of` idle (pool (st m)) /\
  zsum is_lease (threads m') <= zsum is_lease (threads m) /\
  zsum holds_slot (threads m') <= zsum holds_slot (threads m) /\
  spawn_admit (pool (st m')) = None.
Proof.
  intros Hcl Hrun. destruct (winding_down_run _ _ Hrun Hcl) as [Hcl' ? ? ?].
  split_and!; try done. unfold spawn_admit. by rewrite Hcl'.
Qed.

Lemma retirement_is_final_witness :
  exists m m', rtc steps m m' /\ zsum is_lease (threads m) = 1 /\ idle (pool (st m')) = [] /\ threads m' = [].
Proof.
  pose (s := PState (markRetired demo_pool <| busy := 1 |> <| idle := [] |>) (Some demo_tracker) {[ 1%nat := Worker false 1 ]}).
  pose (m := Machine s [Leased 1] (Claim 0 0)).
  assert (Hrun : rtc steps m (m <| st := release_worker s 1 false |> <| threads := [] |>)).
  { eapply rtc_l; [eexists; eapply (PRelease _ 1 false []); reflexivity|].
    eapply rtc_l; [eexists; eapply (PPark _ 1 false []); reflexivity|]. apply rtc_refl. }
  exists m, (m <| st := release_worker s 1 false |> <| threads := [] |>).
  destruct (retirement_is_final m _ eq_refl Hrun) as (_ & Hsuf & _).
  split_and!; [done|done| |done]. by apply suffix_nil_inv in Hsuf.
Defined.

(** A sweep is exactly a filter.  It keeps the usable parked workers in
    their order and puts to death (with their reservation returned) precisely
    the dead and worn-out ones, losing none. *)
Theorem sweep_is_filter s :
  closing (pool s) = false -> (length (idle (pool s)) <= idle_cap (pool s))%nat ->
  sweep s = with_idle (filter (usable s) (idle (pool s)))
              (kill_all s (filter (fun w => ~ usable s w) (idle (pool s)))).
Proof.
  intros Hcl Hcap. unfold sweep. rewrite Hcl.
  pose proof (sweep_loop_spec _ s (idle (pool s)) [] eq_refl) as H.
  rewrite app_nil_r, with_idle_id in H. apply H. simpl. lia.
Qed.

Definition demo_parked : pstate :=
  PState (demo_pool <| idle := [1; 2; 3]%nat |> <| idle_cap := 4%nat |>) (Some demo_tracker)
         {[ 1%nat := Worker true 5; 2%nat := Worker false 5; 3%nat := Worker false 100 ]}.

Lemma sweep_is_filter_witness : idle (pool (sweep demo_parked)) = [2%nat] /\ killed (pool (sweep demo_parked)) = 2.
Proof.
  rewrite (sweep_is_filter demo_parked eq_refl) by (simpl; lia). split; vm_compute; reflexivity.
Defined.

(** The fast path of [acquire] needs no more iterations than there are
    parked workers, and hands out the first usable one: everything parked
    before it is killed, everything behind it stays parked; with no usable
    worker the channel ends up empty and the call goes on to wait. *)
Theorem acquire_fast_first_usable fuel s :
  closing (pool s) = false -> (length (idle (pool s)) < fuel)%nat ->
  (exists dead w rest, idle (pool s) = dead ++ w :: rest /\ Forall (fun w => ~ usable s w) dead /\ usable s w /\
     acquire_fast fuel s =
       (on_pool (fun p => p <| busy ::= Z.succ |>) (with_idle rest (kill_all s dead)), Acquired w false)) \/
  (Forall (fun w => ~ usable s w) (idle (pool s)) /\
     acquire_fast fuel s = (with_idle [] (kill_all s (idle (pool s))), WaitForIdle)).
Proof.
  intros Hcl Hf. destruct (first_usable s (idle (pool s))) as [(dead & w & rest & Hi & Hd & Hu)|Hd].
  - left. exists dead, w, rest. split_and!; try done.
    rewrite <- (with_idle_id s), Hi at 1. rewrite Hi, length_app in Hf. simpl in Hf.
    rewrite acquire_fast_skip by (done || lia).
    destruct (fuel - length dead)%nat eqn:E; [lia|]. cbn [acquire_fast].
    rewrite pop_idle_with. unfold after_pop. rewrite isUnusable_with_idle.
    change (closing (pool (with_idle ?l ?s))) with (closing (pool s)).
    rewrite kill_all_closing, Hcl.
    assert (isUnusable (kill_all s dead) w = false) as -> by by apply usable_kill_all.
    reflexivity.
  - right. split; [done|].
    rewrite <- (with_idle_id s), <- (app_nil_r (idle (pool s))) at 1.
    rewrite acquire_fast_skip by (done || lia).
    destruct (fuel - length (idle (pool s)))%nat eqn:E; [lia|]. cbn [acquire_fast].
    change (closing (pool (with_idle ?l ?s))) with (closing (pool s)).
    by rewrite kill_all_closing, Hcl.
Qed.

Lemma acquire_fast_first_usable_witness :
  snd (acquire_fast 4 demo_parked) = Acquired 2 false /\
  exists dead rest, idle (pool demo_parked) = dead ++ 2%nat :: rest /\ Forall (fun w => ~ usable demo_parked w) dead.
Proof.
  assert (Hc : snd (acquire_fast 4 demo_parked) = Acquired 2 false) by (vm_compute; reflexivity).
  split; [exact Hc|].
  destruct (acquire_fast_first_usable 4 demo_parked eq_refl ltac:(simpl; lia))
    as [(dead & w & rest & Hi & Hd & Hu & E)|[_ E]]; rewrite E in Hc; simpl in Hc; [|discriminate].
  injection Hc as ->. by exists dead, rest.
Defined.

(** Concurrency slots.  A granted slot comes from a pool that was not
    closing, never exceeds the configured concurrency and is undone exactly by
    [releaseSlot]; every refusal leaves the pool as it was, a slot taken just
    as the pool closes included; the call can block only under the queue
    policy, with all slots taken, the pool not retired and a live context. *)
Theorem acquireSlot_correct pick ctx closing_after p :
  match acquireSlot pick ctx closing_after p with
  | None =>
    concPolicy p <> "reject"%string /\ ctx = None /\ retired p = false /\
    exists taken cap, concSem p = Some (taken, cap) /\ (cap <= taken)%nat
  | Some (p', None) =>
    closing p = false /\ releaseSlot p' = p /\
    match concSem p, concSem p' with
    | None, None => True
    | Some (taken, cap), Some (taken', cap') =>
      taken' = S taken /\ cap' = cap /\ (taken' <= cap)%nat /\ closing_after = false
    | _, _ => False
    end
  | Some (p', Some e) =>
    p' = p /\
    (e = errPoolRetired \/ (e = ErrFunctionBusy /\ concPolicy p = "reject"%string) \/
     exists c, e = ErrContext c /\ ctx = Some c)
  end.
Proof. exact (acquireSlot_cases pick ctx closing_after p). Qed.
