(* ===== verification/Scaler.v ===== *)
(** * The autoscaler ([pool/autoscaler.go])

    The controller that sizes every pool: the demand formula, the resource
    ceiling, hysteresis, reclaiming idle workers of other pools, and the
    rotating evaluation pass.  One tick is a function on the fleet: the map of
    pools, the host tracker and the worker processes. *)
From S2P Require Import Prelude GoText Float64 HostMem Signals FunctionPool.
Open Scope Z_scope.

(* ------------------------------------------------------------------ *)
(** ** Constants *)

Definition minScalerEvaluateInterval : Z := 20 * millisecond.
Definition utilFactor : float64 := fconst 7 10.
Definition scaleDownStep : float64 := fconst 2 10.
Definition scaleDownGrace : Z := 30 * second.

(** A nudge waits out the rest of the minimum interval; [None] is the zero time. *)
Definition scalerEvaluationWait (last : option Z) (now : Z) : Z :=
  match last with
  | None => 0
  | Some last =>
    let remaining := minScalerEvaluateInterval - (now - last) in
    if 0 <? remaining then remaining else 0
  end.

(* ------------------------------------------------------------------ *)
(** ** Resource ceiling *)

(** [admissionBytes]: a worker is admitted at its memory limit. *)
Definition admissionBytes (p : functionPool) : Z := memoryBytes p.

(** [scaler.dynamicMax]: the ceiling and the resource that sets it. *)
Definition dynamicMax_of (h : hostMemTracker) (p : functionPool) : Z * string :=
  let opCap := if max_warm p <? 1 then 1 else max_warm p in
  let cpu := if cpuUnits p <? 1 then 1000 else cpuUnits p in
  let current := current p in
  let cpuCap := Z.quot (availableCPUUnits h + current * cpu) cpu in
  let cpuCap := if cpuCap <? 1 then 1 else cpuCap in
  let reason := if bool_decide (maxReason p = ""%string) then "operator_max"%string else maxReason p in
  let '(effectiveCap, reason) := (opCap, reason) in
  let '(effectiveCap, reason) :=
    match concSem p with
    | Some (_, cap) =>
      if Z.of_nat cap <? effectiveCap then (Z.of_nat cap, "function_concurrency"%string)
      else (effectiveCap, reason)
    | None => (effectiveCap, reason)
    end in
  let '(effectiveCap, reason) :=
    if cpuCap <? effectiveCap then (cpuCap, "cpu_capacity"%string) else (effectiveCap, reason) in
  let workerBytes := admissionBytes p in
  let '(effectiveCap, reason) :=
    if 0 <? workerBytes then
      let fit := Z.quot (availableForWorkers h + current * workerBytes) workerBytes in
      if fit <? effectiveCap then (fit, "memory_capacity"%string) else (effectiveCap, reason)
    else (effectiveCap, reason) in
  ((if effectiveCap <? 0 then 0 else effectiveCap), reason).

(* ------------------------------------------------------------------ *)
(** ** Demand *)

(** [now.Sub(lastArrival)] against a window, false when there was no arrival. *)
Definition arrived_within (d : demandSnapshot) (now window : Z) : bool :=
  match LastArrival d with None => false | Some t => now - t <=? window end.

(** [nearExpiryWorkers]: live workers about to reach [maxUses]. *)
Definition nearExpiryWorkers (ws : gmap nat worker) (p : functionPool) (d : demandSnapshot) (now : Z) : Z :=
  let rate := fmax (StableRate d) (BurstRate d) in
  if (maxUses p <? 10) || negb (arrived_within d now panicWindow) ||
     flt (fmul rate (seconds stableWindow)) (f_of_int (maxUses p)) then 0
  else
    let workers := busy p + Z.of_nat (length (idle p)) in
    if workers <? 1 then 0
    else
      let perWorkerRate := fdiv rate (f_of_int workers) in
      let lead := f_to_int (fceil (fmul (fmul perWorkerRate
                    (fadd (seconds (SpawnP95 d)) (seconds scalerTick))) (f_of_int 2))) in
      let floor := Z.quot (maxUses p) 5 in
      let lead := if lead <? floor then floor else lead in
      let cap := Z.quot (maxUses p) 2 in
      let lead := if cap <? lead then cap else lead in
      let lead := if lead <? 1 then 1 else lead in
      let threshold := maxUses p - lead in
      zsum (fun wc =>
              match ws !! wc with
              | Some w => if negb (dead w) && (threshold <=? Served w) && (Served w <? maxUses p) then 1 else 0
              | None => 0
              end) (map_to_list (workerReservations p)).*1.

(** The demand part of [computeDesiredAt]: the target before the warm minimum,
    scale-to-zero and the resource ceiling. *)
Definition demand_target (ws : gmap nat worker) (p : functionPool) (d : demandSnapshot) (now : Z)
  : Z * string :=
  let serviceSeconds := seconds (ServiceP95 d) in
  let stable := f_to_int (fceil (fdiv (fmul (StableRate d) serviceSeconds) utilFactor)) in
  let '(stable, rotationSpare) :=
    if (0 <? maxUses p) &&
       fle (f_of_int (maxUses p)) (fmul (StableRate d) (seconds stableWindow)) &&
       arrived_within d now panicWindow then
      let spare := f_to_int (fceil (fdiv (fmul (StableRate d) (seconds (SpawnP95 d))) (f_of_int (maxUses p)))) in
      let spare := if spare <? 1 then 1 else spare in
      (wrap64 (stable + spare), spare)
    else (stable, 0) in
  let predictiveCap := wrap64 (Z.of_nat maxConcurrentSpawnsPerPool + rotationSpare) in
  let predictiveFloat :=
    fceil (fdiv (fmul (fmax (f_of_int 0) (fsub (BurstRate d) (StableRate d)))
                      (seconds (SpawnP95 d))) utilFactor) in
  let predictive :=
    if flt predictiveFloat (f_of_int predictiveCap) then f_to_int predictiveFloat else predictiveCap in
  let burst := wrap64 (f_to_int (fceil (fdiv (fmul (BurstRate d) serviceSeconds) utilFactor)) + predictive) in
  let pressure := f_to_int (fceil (fdiv (f_of_int (busy p + queued p)) utilFactor)) in
  let '(desired, reason) := (stable, "stable_rate"%string) in
  let '(desired, reason) :=
    if desired <? burst then (burst, "burst_rate"%string) else (desired, reason) in
  let '(desired, reason) :=
    if desired <? pressure then (pressure, "immediate_pressure"%string) else (desired, reason) in
  let replacements := nearExpiryWorkers ws p d now in
  if 0 <? replacements then (wrap64 (desired + replacements), "worker_rotation"%string)
  else (desired, reason).

Definition minWarm (p : functionPool) : Z :=
  if negb (scaleToZero p) && (min_warm p <? 1) then 1 else min_warm p.

(** [computeDesiredAt]: the pool with its ceiling stored, the target and why. *)
Definition computeDesiredAt (h : hostMemTracker) (ws : gmap nat worker) (p : functionPool) (now : Z)
  : functionPool * Z * string :=
  let d := snapshotDemand now (sig p) in
  let '(desired, reason) := demand_target ws p d now in
  let '(desired, reason) :=
    if desired <? minWarm p then (minWarm p, "configured_min"%string) else (desired, reason) in
  let '(desired, reason) :=
    if scaleToZero p && (desired =? 0) then
      let fullyIdle := (busy p =? 0) && (queued p =? 0) in
      let idleLongEnough := match LastArrival d with None => true | Some t => idleTTL p <=? now - t end in
      if negb fullyIdle || negb idleLongEnough then (1, "idle_ttl"%string)
      else (desired, "scale_to_zero"%string)
    else (desired, reason) in
  let '(cap, capReason) := dynamicMax_of h p in
  let p := p <| dynamicMax := cap |> in
  let '(desired, reason) := if cap <? desired then (cap, capReason) else (desired, reason) in
  (p, (if desired <? 0 then 0 else desired), reason).

(* ------------------------------------------------------------------ *)
(** ** The fleet

    [starts] are the spawn goroutines launched and not finished, with the
    reservation each of them holds. *)

Record fleet := Fleet {
  pools : gmap string functionPool;
  f_hostMem : hostMemTracker;
  f_workers : gmap nat worker;
  starts : list (string * claim);
  cursor : Z
}.

#[export] Instance fleet_eta : Eta fleet := fun F =>
  Fleet (pools F) (f_hostMem F) (f_workers F) (starts F) (cursor F).

Definition put_pool (id : string) (p : functionPool) (F : fleet) : fleet := F <| pools ::= <[id := p]> |>.

(** Run an operation of one pool on the fleet. *)
Definition on_fleet (id : string) (f : pstate -> pstate) (F : fleet) : fleet :=
  match pools F !! id with
  | None => F
  | Some p =>
    let s := f (PState p (Some (f_hostMem F)) (f_workers F)) in
    F <| pools ::= <[id := pool s]> |>
      <| f_hostMem := default (f_hostMem F) (hostMem s) |>
      <| f_workers := workers s |>
  end.

(* ------------------------------------------------------------------ *)
(** ** Reclaiming *)

(** How many parked workers a pool could give away. *)
Definition borrowed (p : functionPool) : Z :=
  let protected := min_warm p in
  let protected :=
    if (0 <? busy p) || (0 <? spawning p) then
      if protected <? desired p then desired p else protected
    else protected in
  let b := current p - protected in
  if Z.of_nat (length (idle p)) <? b then Z.of_nat (length (idle p)) else b.

(** The [Range] callback over the pools in the order [order]. *)
Fixpoint pick_donor (order : list string) (requester : string) (ps : gmap string functionPool)
    (donor : option string) (best : Z) : option string * Z :=
  match order with
  | [] => (donor, best)
  | id :: order =>
    match ps !! id with
    | None => pick_donor order requester ps donor best
    | Some p =>
      if bool_decide (id = requester) || closing p then pick_donor order requester ps donor best
      else if 0 <? queued p then pick_donor order requester ps donor best
      else if best <? borrowed p then pick_donor order requester ps (Some id) (borrowed p)
      else pick_donor order requester ps donor best
    end
  end.

Definition reclaimBorrowedIdle (order : list string) (requester : string) (F : fleet) : fleet * bool :=
  match fst (pick_donor order requester (pools F) None 0) with
  | None => (F, false)
  | Some donor =>
    match pools F !! donor with
    | Some p =>
      match idle p with
      | [] => (F, false)
      | w :: _ => (on_fleet donor (drain_loop 1) F, true)
      end
    | None => (F, false)
    end
  end.

(* ------------------------------------------------------------------ *)
(** ** Growing and shrinking *)

(** The synchronous part of [startSpawn]; on success a goroutine is launched
    that holds the reservation. *)
Definition startSpawn (order : list string) (id : string) (F : fleet) : fleet * bool :=
  match pools F !! id with
  | None => (F, false)
  | Some p =>
    match spawn_admit p with
    | None => (F, false)
    | Some p =>
      let F := put_pool id p F in
      let c := spawn_claim p in
      let launch t F := (F <| f_hostMem := t |> <| starts ::= fun l => l ++ [(id, c)] |>, true) in
      let abort F := (on_fleet id (on_pool spawn_abort) F, false) in
      match reserve (f_hostMem F) (c_bytes c) (c_cpu c) with
      | (t, true) => launch t F
      | (t, false) =>
        match reclaimBorrowedIdle order id F with
        | (F, false) => abort F
        | (F, true) =>
          match reserve (f_hostMem F) (c_bytes c) (c_cpu c) with
          | (t, true) => launch t F
          | (t, false) => abort F
          end
        end
      end
    end
  end.

Fixpoint scaleUp_loop (n : nat) (order : list string) (id : string) (F : fleet) : fleet :=
  match n with
  | O => F
  | S n =>
    match startSpawn order id F with
    | (F, true) => scaleUp_loop n order id F
    | (F, false) => F
    end
  end.

Definition scaleUp (order : list string) (id : string) (want : Z) (F : fleet) : fleet :=
  let want := if Z.of_nat maxConcurrentSpawnsPerPool <? want then Z.of_nat maxConcurrentSpawnsPerPool else want in
  scaleUp_loop (Z.to_nat want) order id F.

Definition maxShrink (current : Z) : Z :=
  let n := f_to_int (fceil (fmul (f_of_int current) scaleDownStep)) in
  if n <? 1 then 1 else n.

Definition set_below (t : option Z) (p : functionPool) : functionPool :=
  p <| sig ::= fun g => g <| belowTargetSince := t |> |>.

(** The second half of [evaluate]: move the pool [p], which counts [cur]
    workers, toward the target [want]. *)
Definition settle (order : list string) (id : string) (now : Z) (p : functionPool) (cur want : Z)
    (reason : string) (F : fleet) : fleet :=
  let p := p <| desired := want |> <| sig ::= fun g => g <| limitingReason := reason |> |> in
  if cur <? want then scaleUp order id (want - cur) (put_pool id (set_below None p) F)
  else if cur <=? want then put_pool id (set_below None p) F
  else
    let belowSince := default now (belowTargetSince (sig p)) in
    let F := put_pool id (set_below (Some belowSince) p) F in
    if now - belowSince <? scaleDownGrace then F
    else
      let shrink := cur - want in
      let shrink := if maxShrink cur <? shrink then maxShrink cur else shrink in
      on_fleet id (fun s => scaleDown s shrink) F.

(** [evaluate]: one pool's turn. *)
Definition evaluate (order : list string) (id : string) (now : Z) (F : fleet) : fleet :=
  match pools F !! id with
  | None => F
  | Some p =>
    let '(p, want, reason) := computeDesiredAt (f_hostMem F) (f_workers F) p now in
    let F := put_pool id p F in
    let cur := current p in
    let capacityLimited :=
      bool_decide (reason = "memory_capacity"%string) || bool_decide (reason = "cpu_capacity"%string) in
    if (0 <? queued p) && capacityLimited && (want <=? cur) then
      match reclaimBorrowedIdle order id F with
      | (F, true) =>
        let '(p, want, reason) := computeDesiredAt (f_hostMem F) (f_workers F) p now in
        settle order id now p cur want reason F
      | (F, false) => settle order id now p cur want reason F
      end
    else settle order id now p cur want reason F
  end.

(** [pools[(start+i) % len]] for [i] from 0: the pass begins at [start]. *)
Definition rotate {A} (start : nat) (l : list A) : list A := drop start l ++ take start l.

(** [evaluateAll]: the pools open when the tick starts, sorted by identifier,
    evaluated once each from the cursor on.  [now id] is the clock when [id]'s
    turn comes and [order] the iteration order of the pool map. *)
Definition is_open (F : fleet) (id : string) : bool :=
  match pools F !! id with Some p => negb (closing p) | None => false end.

Definition open_pools (F : fleet) : list string :=
  merge_sort str_le (filter (fun id => is_open F id = true) (map_to_list (pools F)).*1).

Definition evaluation_order (F : fleet) : list string :=
  let pools := open_pools F in
  rotate (Z.to_nat (Z.rem (cursor F) (Z.of_nat (length pools)))) pools.

Definition evaluateAll (order : list string) (now : string -> Z) (F : fleet) : fleet :=
  match open_pools F with
  | [] => F
  | pools =>
    let n := Z.of_nat (length pools) in
    let start := Z.rem (cursor F) n in
    foldl (fun F id => evaluate order id (now id) F) (F <| cursor := Z.rem (start + 1) n |>)
          (evaluation_order F)
  end.

(* ------------------------------------------------------------------ *)
(** ** Lemmas *)

Lemma current_dynamicMax p c : current (p <| dynamicMax := c |>) = current p.
Proof. reflexivity. Qed.

Lemma availableCPUUnits_nonneg h : 0 <= availableCPUUnits h.
Proof. unfold availableCPUUnits. split_ifs; lia. Qed.

(** The ceiling never exceeds any of the limits it combines. *)
Lemma dynamicMax_bounds h p c r :
  dynamicMax_of h p = (c, r) ->
  0 <= c /\ c <= Z.max 1 (max_warm p) /\
  (forall t cap, concSem p = Some (t, cap) -> c <= Z.of_nat cap) /\
  (0 <= current p -> 0 < memoryBytes p ->
   c * memoryBytes p <= availableForWorkers h + current p * memoryBytes p) /\
  (0 <= current p -> 0 < cpuUnits p -> c <= 1 \/
   c * cpuUnits p <= availableCPUUnits h + current p * cpuUnits p).
Proof.
  unfold dynamicMax_of, admissionBytes. intros H.
  pose proof (availableForWorkers_nonneg h). pose proof (availableCPUUnits_nonneg h).
  set (cpu := if cpuUnits p <? 1 then 1000 else cpuUnits p) in *.
  assert (Hcpu : 0 < cpu /\ (0 < cpuUnits p -> cpu = cpuUnits p)) by (unfold cpu; split_ifs; lia).
  set (cpuCap := Z.quot (availableCPUUnits h + current p * cpu) cpu) in *.
  set (fit := Z.quot (availableForWorkers h + current p * memoryBytes p) (memoryBytes p)) in *.
  assert (Hq : 0 <= current p -> cpu * cpuCap <= availableCPUUnits h + current p * cpu)
    by (intros; apply Z.mul_quot_le; nia).
  assert (Hf : 0 <= current p -> 0 < memoryBytes p ->
    memoryBytes p * fit <= availableForWorkers h + current p * memoryBytes p)
    by (intros; apply Z.mul_quot_le; nia).
  clearbody cpuCap fit.
  destruct (concSem p) as [[taken cap]|]; repeat case_match; simplify_eq; zbool;
    split_and!; intros; simplify_eq; try lia; try nia.
Qed.

Lemma kill_all_with_idle l ws : forall s, kill_all (with_idle l s) ws = with_idle l (kill_all s ws).
Proof.
  induction ws as [|w ws IH]; intros s; [done|]. cbn [kill_all foldl].
  rewrite kill_with_idle. apply IH.
Qed.

Lemma drain_loop_spec n : forall s,
  drain_loop n s = with_idle (drop n (idle (pool s))) (kill_all s (take n (idle (pool s)))).
Proof.
  induction n as [|n IH]; intros s; cbn [drain_loop].
  - rewrite drop_0, with_idle_id. done.
  - unfold pop_idle. destruct (idle (pool s)) as [|w rest] eqn:E.
    + transitivity (with_idle (idle (pool s)) s); [by rewrite with_idle_id|].
      by rewrite E, drop_nil, take_nil.
    + change (on_pool _ s) with (with_idle rest s).
      rewrite IH, kill_with_idle. cbn [drop take pool on_pool with_idle set_field idle].
      rewrite kill_all_with_idle. reflexivity.
Qed.

(** Only the kill count and the reservations change when workers die. *)
Lemma kill_all_pool ws : forall s, exists k r,
  pool (kill_all s ws) = pool s <| killed := k |> <| workerReservations := r |>.
Proof.
  induction ws as [|w ws IH]; intros s; simpl.
  - exists (killed (pool s)), (workerReservations (pool s)). by destruct (pool s).
  - destruct (IH (killWorker s w)) as (k & r & ->). by exists k, r.
Qed.

Lemma drain_loop_pool n s : exists k r,
  pool (drain_loop n s) =
  pool s <| idle := drop n (idle (pool s)) |> <| killed := k |> <| workerReservations := r |>.
Proof.
  rewrite drain_loop_spec.
  destruct (kill_all_pool (take n (idle (pool s))) s) as (k & r & Hp).
  exists k, r. unfold with_idle, on_pool. simpl. by rewrite Hp.
Qed.

Lemma on_fleet_lookup_ne id id' f F : id <> id' -> pools (on_fleet id f F) !! id' = pools F !! id'.
Proof. intros Hne. unfold on_fleet. destruct (pools F !! id); [|done]. simpl. by rewrite lookup_insert_ne. Qed.

Lemma on_fleet_lookup id f F p :
  pools F !! id = Some p ->
  pools (on_fleet id f F) !! id = Some (pool (f (PState p (Some (f_hostMem F)) (f_workers F)))).
Proof. intros Hp. unfold on_fleet. rewrite Hp. simpl. by rewrite lookup_insert_eq. Qed.

Lemma on_fleet_cursor id f F : cursor (on_fleet id f F) = cursor F.
Proof. unfold on_fleet. by destruct (pools F !! id). Qed.

(** [pick_donor] keeps the best candidate seen so far. *)
Definition candidate (requester : string) (ps : gmap string functionPool) (id : string) (p : functionPool) : Prop :=
  ps !! id = Some p /\ id <> requester /\ closing p = false /\ queued p <= 0.

Lemma pick_donor_spec requester ps order : forall donor best d b,
  pick_donor order requester ps donor best = (d, b) ->
  best <= b /\
  ((d = donor /\ b = best) \/
   exists id p, d = Some id /\ id ∈ order /\ candidate requester ps id p /\ b = borrowed p /\ best < b) /\
  (forall id p, id ∈ order -> candidate requester ps id p -> borrowed p <= b).
Proof.
  induction order as [|id order IH]; intros donor best d b H; simpl in H.
  { simplify_eq. split_and!; [lia|by left|]. intros id p Hin. by apply elem_of_nil in Hin. }
  assert (Hskip : pick_donor order requester ps donor best = (d, b) ->
    (forall p, candidate requester ps id p -> borrowed p <= best) ->
    best <= b /\
    ((d = donor /\ b = best) \/
     exists id' p, d = Some id' /\ id' ∈ id :: order /\ candidate requester ps id' p /\ b = borrowed p /\ best < b) /\
    (forall id' p, id' ∈ id :: order -> candidate requester ps id' p -> borrowed p <= b)).
  { intros Hp Hid. apply IH in Hp as (Hle & Hd & Hall). split_and!; [done| |].
    - destruct Hd as [|(id' & p & ? & ? & ? & ? & ?)]; [by left|right]. exists id', p. split_and!; try done. by right.
    - intros id' p [->|Hin]%elem_of_cons Hc; [specialize (Hid _ Hc); lia|by apply (Hall id')]. }
  destruct (ps !! id) as [p|] eqn:Ep; [|apply Hskip; [done|]; intros p [Hp _]; congruence].
  destruct (bool_decide (id = requester) || closing p) eqn:E1.
  { apply Hskip; [done|]. intros q (Hq & Hne & Hcl & _). simplify_eq.
    rewrite bool_decide_false in E1 by done. simpl in E1. congruence. }
  destruct (0 <? queued p) eqn:E2.
  { apply Hskip; [done|]. intros q (Hq & _ & _ & Hqu). simplify_eq. zbool. lia. }
  destruct (best <? borrowed p) eqn:E3; zbool.
  - apply IH in H as (Hle & Hd & Hall).
    assert (Hc : candidate requester ps id p) by (split_and!; done || lia).
    split_and!; [lia| |].
    + right. destruct Hd as [[-> ->]|(id' & q & ? & ? & ? & ? & ?)].
      * exists id, p. split_and!; try done. by left.
      * exists id', q. split_and!; try done; [by right|lia].
    + intros id' q [->|Hin]%elem_of_cons Hq; [|by apply (Hall id')].
      destruct Hq as [Hq _]. simplify_eq. lia.
  - apply Hskip; [done|]. intros q [Hq _]. simplify_eq. lia.
Qed.

Lemma borrowed_le p :
  borrowed p <= Z.of_nat (length (idle p)) /\ borrowed p <= current p - min_warm p /\
  (0 < busy p \/ 0 < spawning p -> borrowed p <= current p - desired p).
Proof.
  unfold borrowed. destruct (Z.ltb_spec 0 (busy p)), (Z.ltb_spec 0 (spawning p)); simpl;
    destruct (Z.ltb_spec (min_warm p) (desired p)); split_ifs; lia.
Qed.

Lemma reclaim_cases order requester F F' ok :
  reclaimBorrowedIdle order requester F = (F', ok) ->
  if ok then
    exists donor p w rest,
      donor ∈ order /\ candidate requester (pools F) donor p /\ idle p = w :: rest /\ 0 < borrowed p /\
      (forall id q, id ∈ order -> candidate requester (pools F) id q -> borrowed q <= borrowed p) /\
      F' = on_fleet donor (drain_loop 1) F
  else
    F' = F /\ forall id q, id ∈ order -> candidate requester (pools F) id q -> borrowed q <= 0.
Proof.
  unfold reclaimBorrowedIdle. destruct (pick_donor _ _ _ _ _) as [d b] eqn:E. simpl.
  apply pick_donor_spec in E as (Hb & Hd & Hall). intros H.
  destruct Hd as [[-> ->]|(id & p & -> & Hin & Hc & -> & Hpos)].
  - simplify_eq. split; [done|]. intros. by eapply Hall.
  - pose proof Hc as [Hp _]. rewrite Hp in H.
    destruct (idle p) as [|w rest] eqn:Ei.
    + pose proof (borrowed_le p) as [Hl _]. rewrite Ei in Hl. simpl in Hl. lia.
    + simplify_eq. exists id, p, w, rest. split_and!; try done; apply Hc.
Qed.

Lemma reclaim_requester order requester F F' ok :
  reclaimBorrowedIdle order requester F = (F', ok) ->
  pools F' !! requester = pools F !! requester /\ cursor F' = cursor F.
Proof.
  intros H. apply reclaim_cases in H. destruct ok.
  - destruct H as (donor & p & w & rest & _ & (_ & Hne & _) & _ & _ & _ & ->).
    by rewrite on_fleet_lookup_ne, on_fleet_cursor.
  - by destruct H as [-> _].
Qed.

(** The part of the target that does not depend on the demand formula. *)
Lemma computeDesiredAt_spec h ws p now p' want reason :
  computeDesiredAt h ws p now = (p', want, reason) ->
  p' = p <| dynamicMax := fst (dynamicMax_of h p) |> /\
  0 <= want <= dynamicMax p' /\
  Z.min (dynamicMax p') (minWarm p) <= want /\
  (0 <= min_warm p -> want = 0 ->
   dynamicMax p' = 0 \/
   (scaleToZero p = true /\ min_warm p = 0 /\ busy p = 0 /\ queued p = 0 /\
    match lastArrival (sig p) with None => True | Some t => idleTTL p <= now - t end)).
Proof.
  unfold computeDesiredAt. intros H.
  destruct (demand_target _ _ _ _) as [target why].
  destruct (dynamicMax_of h p) as [cap capReason] eqn:Ecap.
  apply dynamicMax_bounds in Ecap as (Hcap & _).
  assert (Hla : LastArrival (snapshotDemand now (sig p)) = lastArrival (sig p)).
  { unfold snapshotDemand. by destruct (count_arrivals _ _). }
  rewrite Hla in H. clear Hla.
  assert (Hmw : 0 <= min_warm p -> minWarm p = 0 -> min_warm p = 0 /\ scaleToZero p = true)
    by (unfold minWarm; destruct (scaleToZero p); simpl; split_ifs; intros; first [lia|split; [lia|done]]).
  assert (Hmp : 0 <= min_warm p -> 0 <= minWarm p)
    by (unfold minWarm; destruct (scaleToZero p); simpl; split_ifs; lia).
  destruct (lastArrival (sig p)) as [t|]; repeat case_match; simplify_eq; simpl; zbool;
    try (match goal with H : (_ || _)%bool = true |- _ => apply orb_true_iff in H as [H|H] end; zbool);
    (split; [done|]); (split; [lia|]); (split; [lia|]); intros; try lia;
    try (match goal with H : (_ && _)%bool = false |- _ => apply andb_false_iff in H as [H|H] end; zbool; try lia);
    (destruct Hmw as [? ?]; [lia|lia|]); first [by right|congruence].
Qed.

Lemma spawn_admit_fields p p' :
  spawn_admit p = Some p' ->
  idle p' = idle p /\ busy p' = busy p /\ spawning p' = Z.succ (spawning p) /\ desired p' = desired p.
Proof.
  unfold spawn_admit, clear_spawn_error. intros H. repeat case_match; by simplify_eq.
Qed.

(** A start adds one to the pool's spawning count, a refusal nothing. *)
Lemma startSpawn_pool order id F F' ok p :
  startSpawn order id F = (F', ok) -> pools F !! id = Some p ->
  cursor F' = cursor F /\
  exists p', pools F' !! id = Some p' /\ idle p' = idle p /\ desired p' = desired p /\
    current p' = current p + (if ok then 1 else 0).
Proof.
  unfold startSpawn. intros H Hp. rewrite Hp in H.
  destruct (spawn_admit p) as [q|] eqn:Ea.
  2:{ simplify_eq. split; [done|]. exists p. split_and!; try done. lia. }
  apply spawn_admit_fields in Ea as (Hi & Hb & Hs & Hd).
  assert (Hq : pools (put_pool id q F) !! id = Some q) by (simpl; apply lookup_insert_eq).
  set (F1 := put_pool id q F) in *. assert (Hc : cursor F1 = cursor F) by done. clearbody F1.
  assert (Habort : forall G, pools G !! id = Some q -> cursor G = cursor F ->
    cursor (on_fleet id (on_pool spawn_abort) G) = cursor F /\
    exists p', pools (on_fleet id (on_pool spawn_abort) G) !! id = Some p' /\
      idle p' = idle p /\ desired p' = desired p /\ current p' = current p + 0).
  { intros G HG HGc. rewrite on_fleet_cursor, (on_fleet_lookup _ _ _ q) by done. split; [done|].
    eexists; split_and!; [reflexivity|done|done|]. unfold current. simpl. rewrite Hi. lia. }
  assert (Hlaunch : forall G t l, pools G !! id = Some q -> cursor G = cursor F ->
    cursor (G <| f_hostMem := t |> <| starts := l |>) = cursor F /\
    exists p', pools (G <| f_hostMem := t |> <| starts := l |>) !! id = Some p' /\
      idle p' = idle p /\ desired p' = desired p /\ current p' = current p + 1).
  { intros G t l HG HGc. split; [done|]. exists q. split_and!; try done. unfold current. rewrite Hi. lia. }
  destruct (reserve _ _ _) as [t []]; [simplify_eq; by apply Hlaunch|].
  destruct (reclaimBorrowedIdle order id F1) as [F2 r] eqn:Er.
  pose proof (reclaim_requester _ _ _ _ _ Er) as [HF2 Hc2]. rewrite Hq in HF2. rewrite Hc in Hc2.
  destruct r; [|simplify_eq; by apply Habort].
  destruct (reserve _ _ _) as [t2 []]; simplify_eq; [by apply Hlaunch|by apply Habort].
Qed.

Lemma scaleUp_pool n order id : forall F p,
  pools F !! id = Some p ->
  cursor (scaleUp_loop n order id F) = cursor F /\
  exists p', pools (scaleUp_loop n order id F) !! id = Some p' /\ idle p' = idle p /\ desired p' = desired p /\
    current p <= current p' <= current p + Z.of_nat n.
Proof.
  induction n as [|n IH]; intros F p Hp; cbn [scaleUp_loop].
  { split; [done|]. exists p. split_and!; try done; lia. }
  destruct (startSpawn order id F) as [F1 ok] eqn:Es.
  destruct (startSpawn_pool _ _ _ _ _ _ Es Hp) as (Hc & q & Hq & Hi & Hd & Hcur).
  destruct ok.
  - destruct (IH F1 q Hq) as (Hc' & p' & ? & ? & ? & ?). split; [congruence|].
    exists p'. split_and!; try done; try congruence; lia.
  - split; [done|]. exists q. split_and!; try done; lia.
Qed.

Lemma put_pool_lookup id p F : pools (put_pool id p F) !! id = Some p.
Proof. apply lookup_insert_eq. Qed.

(** What one evaluation does to the evaluated pool. *)
Definition evaluated (p : functionPool) (now : Z) (p' : functionPool) : Prop :=
  (idle p' = idle p /\ current p <= current p' <= Z.max (current p) (desired p')) \/
  (exists k t, idle p' = drop k (idle p) /\ busy p' = busy p /\ spawning p' = spawning p /\
     Z.of_nat k <= maxShrink (current p) /\ desired p' + Z.of_nat k <= current p /\
     belowTargetSince (sig p) = Some t /\ scaleDownGrace <= now - t).

Lemma settle_pool order id now F q want reason :
  cursor (settle order id now q (current q) want reason F) = cursor F /\
  exists p', pools (settle order id now q (current q) want reason F) !! id = Some p' /\ evaluated q now p'.
Proof.
  unfold settle. set (p := q <| desired := want |> <| sig ::= _ |>). cbv zeta.
  destruct (Z.ltb_spec (current q) want) as [Hup|].
  - unfold scaleUp. set (n := Z.to_nat _).
    assert (Hn : current q + Z.of_nat n <= want)
      by (unfold n, maxConcurrentSpawnsPerPool; split_ifs; lia).
    destruct (scaleUp_pool n order id _ _ (put_pool_lookup id (set_below None p) F))
      as (Hc & p' & Hp' & Hi & Hd & Hcur).
    split; [done|]. exists p'. split; [done|]. left. split; [done|].
    rewrite Hd. change (current (set_below None p)) with (current q) in Hcur. simpl. lia.
  - destruct (Z.leb_spec (current q) want).
    { split; [done|]. eexists. split; [apply put_pool_lookup|]. left. split; [done|].
      change (current (set_below None p)) with (current q). lia. }
    set (b := default now _).
    destruct (Z.ltb_spec (now - b) scaleDownGrace).
    { split; [done|]. eexists. split; [apply put_pool_lookup|]. left. split; [done|].
      change (current (set_below (Some b) p)) with (current q). lia. }
    rewrite on_fleet_cursor. split; [done|]. eexists. split; [apply on_fleet_lookup, put_pool_lookup|].
    right. match goal with |- context [scaleDown _ ?x] => set (shrink := x) end.
    assert (Hsh : 0 < shrink <= maxShrink (current q) /\ want + shrink <= current q).
    { assert (1 <= maxShrink (current q)) by (unfold maxShrink; split_ifs; lia).
      unfold shrink; split_ifs; lia. }
    unfold scaleDown.
    destruct (drain_loop_pool (Z.to_nat shrink)
      (PState (set_below (Some b) p) (Some (f_hostMem (put_pool id (set_below (Some b) p) F)))
              (f_workers (put_pool id (set_below (Some b) p) F)))) as (k & r & ->).
    unfold b in *. simpl in *. destruct (belowTargetSince (sig q)) as [t|]; simpl in *.
    + exists (Z.to_nat shrink), t. split_and!; try done; lia.
    + unfold scaleDownGrace, second in *. lia.
Qed.

Lemma evaluate_pool order id now F p :
  pools F !! id = Some p ->
  cursor (evaluate order id now F) = cursor F /\
  exists p', pools (evaluate order id now F) !! id = Some p' /\ evaluated p now p'.
Proof.
  intros Hp. unfold evaluate. rewrite Hp.
  destruct (computeDesiredAt _ _ p now) as [[q want] reason] eqn:E.
  apply computeDesiredAt_spec in E as (Hq & _).
  assert (Hev : forall r, evaluated (p <| dynamicMax := fst (dynamicMax_of (f_hostMem F) p) |>) now r ->
            evaluated p now r) by done.
  rewrite <- Hq in Hev. clear Hq.
  match goal with |- context [if ?b then _ else _] => destruct b end.
  2:{ destruct (settle_pool order id now (put_pool id q F) q want reason) as (Hc & p' & Hp' & He). eauto. }
  destruct (reclaimBorrowedIdle order id (put_pool id q F)) as [F1 r] eqn:Er.
  pose proof (reclaim_requester _ _ _ _ _ Er) as [_ Hc1].
  destruct r.
  2:{ destruct (settle_pool order id now F1 q want reason) as (Hc & p' & Hp' & He).
      split; [by rewrite Hc|eauto]. }
  destruct (computeDesiredAt _ _ q now) as [[q' want'] reason'] eqn:E'.
  apply computeDesiredAt_spec in E' as (-> & _).
  set (q' := q <| dynamicMax := _ |>).
  destruct (settle_pool order id now F1 q' want' reason') as (Hc & p' & Hp' & He).
  change (current q') with (current q) in *. split; [by rewrite Hc|eauto].
Qed.

Lemma rotate_perm {A} n (l : list A) : Permutation (rotate n l) l.
Proof. unfold rotate. rewrite (comm (++)), take_drop. done. Qed.

Lemma rotate_head {A} n (l : list A) : (n < length l)%nat -> head (rotate n l) = l !! n.
Proof.
  intros Hn. unfold rotate. destruct (lookup_lt_is_Some_2 l n Hn) as [x Hx].
  rewrite (drop_S _ _ _ Hx), Hx. done.
Qed.

Lemma evaluate_cursor order id now F : cursor (evaluate order id now F) = cursor F.
Proof.
  destruct (pools F !! id) as [p|] eqn:E; [by apply (evaluate_pool order id now F p)|].
  unfold evaluate. by rewrite E.
Qed.

Lemma evaluateAll_cursor order now F :
  open_pools F <> [] ->
  cursor (evaluateAll order now F) =
  Z.rem (Z.rem (cursor F) (Z.of_nat (length (open_pools F))) + 1) (Z.of_nat (length (open_pools F))).
Proof.
  unfold evaluateAll. destruct (open_pools F) as [|a l] eqn:E; [done|]. intros _.
  set (F0 := F <| cursor := _ |>).
  assert (H : forall ids G, cursor (foldl (fun F id => evaluate order id (now id) F) G ids) = cursor G).
  { induction ids as [|id ids IH]; intros G; [done|]. simpl. rewrite IH. apply evaluate_cursor. }
  rewrite H. done.
Qed.

(* ------------------------------------------------------------------ *)
(** ** Properties *)



(** A pool is asked to go to zero only when nothing can be served anyway
    (the resource ceiling is zero) or when scale-to-zero is enabled, no warm
    minimum is configured, no request is running or queued and the idle time
    has elapsed since the last arrival. *)
Theorem scale_to_zero_only_when_idle h ws p now :
  0 <= min_warm p -> snd (fst (computeDesiredAt h ws p now)) = 0 ->
  fst (dynamicMax_of h p) = 0 \/
  (scaleToZero p = true /\ min_warm p = 0 /\ busy p = 0 /\ queued p = 0 /\
   match lastArrival (sig p) with None => True | Some t => idleTTL p <= now - t end).
Proof.
  intros Hmin Hz. destruct (computeDesiredAt h ws p now) as [[p' want] reason] eqn:E. simpl in Hz.
  apply computeDesiredAt_spec in E as (-> & _ & _ & H). exact (H Hmin Hz).
Qed.

Lemma scale_to_zero_only_when_idle_witness :
  snd (fst (computeDesiredAt demo_tracker ∅ demo_pool 1000)) = 0 /\
  (fst (dynamicMax_of demo_tracker demo_pool) = 0 \/ busy demo_pool = 0).
Proof.
  assert (Hz : snd (fst (computeDesiredAt demo_tracker ∅ demo_pool 1000)) = 0) by (vm_compute; reflexivity).
  split; [exact Hz|].
  destruct (scale_to_zero_only_when_idle demo_tracker ∅ demo_pool 1000 ltac:(simpl; lia) Hz) as [H|H];
    [left; exact H|right; apply H].
Defined.

(** Reclaiming is surgical.  A reclaim that succeeds kills exactly one
    parked worker, the oldest of the pool with the largest surplus: never the
    requester, a closing pool or a pool with queued requests, and it leaves the
    donor at or above its warm minimum and, while the donor is busy or
    starting workers, at or above its own target; a reclaim that fails changes
    nothing and means no pool had a surplus. *)
Theorem reclaim_takes_only_surplus order requester F F' ok :
  reclaimBorrowedIdle order requester F = (F', ok) ->
  if ok then
    exists donor p p' w,
      donor <> requester /\ pools F !! donor = Some p /\ closing p = false /\ queued p <= 0 /\
      (forall id, id <> donor -> pools F' !! id = pools F !! id) /\
      pools F' !! donor = Some p' /\ idle p = w :: idle p' /\
      workerReservations p' = delete w (workerReservations p) /\
      f_hostMem F' = release (f_hostMem F) (c_bytes (reservation_of p w)) (c_cpu (reservation_of p w)) /\
      min_warm p <= current p' /\ (0 < busy p \/ 0 < spawning p -> desired p <= current p') /\
      (forall id q, id ∈ order -> candidate requester (pools F) id q -> borrowed q <= borrowed p)
  else F' = F /\ forall id q, id ∈ order -> candidate requester (pools F) id q -> borrowed q <= 0.
Proof.
  intros H. apply reclaim_cases in H. destruct ok; [|done].
  destruct H as (donor & p & w & rest & Hin & (Hp & Hne & Hcl & Hqu) & Hi & Hpos & Hmax & ->).
  set (p' := pool (drain_loop 1 (PState p (Some (f_hostMem F)) (f_workers F)))).
  exists donor, p, p', w.
  pose proof (borrowed_le p) as (Hb1 & Hb2 & Hb3).
  assert (Hp' : p' = p <| idle := rest |> <| killed ::= Z.succ |> <| workerReservations ::= delete w |>).
  { unfold p'. cbn [drain_loop]. unfold pop_idle. simpl. by rewrite Hi. }
  assert (Hcur : current p' = current p - 1).
  { rewrite Hp'. unfold current. simpl. rewrite Hi. simpl. lia. }
  split_and!; try done.
  - intros id Hid. by apply on_fleet_lookup_ne.
  - by apply on_fleet_lookup.
  - by rewrite Hp'.
  - by rewrite Hp'.
  - unfold on_fleet. rewrite Hp. cbn [drain_loop]. unfold pop_idle. simpl. by rewrite Hi.
  - lia.
  - intros Hbusy. specialize (Hb3 Hbusy). lia.
Qed.

Definition demo_fleet : fleet :=
  Fleet {[ "fn-a"%string := demo_pool; "fn-b"%string := demo_pool <| fnID := "fn-b"%string |> <| queued := 1 |> ]}
        (demo_tracker <| reserved := 600000000 |> <| reservedCPU := 2000 |>)
        {[ 1%nat := Worker false 3 ]} [] 0.

Lemma reclaim_takes_only_surplus_witness :
  snd (reclaimBorrowedIdle ["fn-b"; "fn-a"]%string "fn-b" demo_fleet) = true /\
  exists w, idle demo_pool = [w] /\
    f_hostMem (fst (reclaimBorrowedIdle ["fn-b"; "fn-a"]%string "fn-b" demo_fleet)) =
    release (f_hostMem demo_fleet) 300000000 1000.
Proof.
  destruct (reclaimBorrowedIdle ["fn-b"; "fn-a"]%string "fn-b" demo_fleet) as [F' ok] eqn:E.
  assert (Hok : ok = true) by (transitivity (snd (F', ok)); [reflexivity|rewrite <- E; vm_compute; reflexivity]).
  pose proof (reclaim_takes_only_surplus _ _ _ _ _ E) as H. subst ok.
  destruct H as (donor & p & p' & w & Hne & Hp & _ & _ & _ & _ & Hi & _ & Hh & _).
  split; [reflexivity|].
  assert (donor = "fn-a"%string) as ->.
  { simpl in Hp. apply lookup_insert_Some in Hp as [[<- _]|[_ Hp]]; [done|].
    apply lookup_singleton_Some in Hp as [<- _]. done. }
  simpl in Hp. apply lookup_insert_rev in Hp. subst p. exists 1%nat.
  injection Hi as <- _. split; [reflexivity|]. simpl fst. rewrite Hh. reflexivity.
Defined.

(** Hysteresis.  One evaluation of a pool either keeps every parked
    worker and grows the pool no further than its new target, or, only after
    the pool has been above target for the whole 30 s grace period, retires
    the oldest parked workers: at most the shrink step, and never below the
    target. *)
Theorem evaluate_hysteresis order id now F p :
  pools F !! id = Some p ->
  exists p', pools (evaluate order id now F) !! id = Some p' /\
  ((idle p' = idle p /\ current p <= current p' <= Z.max (current p) (desired p')) \/
   (exists k t, idle p' = drop k (idle p) /\ busy p' = busy p /\ spawning p' = spawning p /\
      Z.of_nat k <= maxShrink (current p) /\ desired p' + Z.of_nat k <= current p /\
      belowTargetSince (sig p) = Some t /\ scaleDownGrace <= now - t)).
Proof. intros Hp. exact (proj2 (evaluate_pool order id now F p Hp)). Qed.

Definition demo_overfull : fleet :=
  demo_fleet <| pools := {[ "fn-a"%string := set_below (Some 1000) demo_pool ]} |>.

Lemma evaluate_hysteresis_witness :
  exists p', pools (evaluate ["fn-a"%string] "fn-a" (1000 + scaleDownGrace) demo_overfull) !! "fn-a"%string = Some p' /\
    idle p' = [] /\ (idle p' = idle demo_pool \/ exists k, idle p' = drop k (idle demo_pool) /\ Z.of_nat k <= 1).
Proof.
  assert (Hp : pools demo_overfull !! "fn-a"%string = Some (set_below (Some 1000) demo_pool)) by reflexivity.
  destruct (evaluate_hysteresis ["fn-a"%string] "fn-a" (1000 + scaleDownGrace) _ _ Hp) as (p' & Hp' & Hcase).
  exists p'. split; [exact Hp'|]. split.
  - assert (Hi : (idle <$> pools (evaluate ["fn-a"%string] "fn-a" (1000 + scaleDownGrace) demo_overfull)
                    !! "fn-a"%string) = Some []) by (vm_compute; reflexivity).
    rewrite Hp' in Hi. simpl in Hi. congruence.
  - destruct Hcase as [[H _]|(k & t & H & _ & _ & Hk & _)]; [left; exact H|right].
    exists k. split; [exact H|]. replace (maxShrink _) with 1 in Hk by (vm_compute; reflexivity). exact Hk.
Defined.

(** The shrink step is one fifth of the pool rounded up, and at least one
    worker: the binary64 product [current * 0.2] never rounds past an integer
    for any pool of up to 2000 workers. *)
Theorem maxShrink_is_fifth n :
  0 <= n <= 2000 -> maxShrink n = Z.max 1 ((n + 4) / 5).
Proof.
  intros Hn.
  assert (Hall : forallb (fun k => maxShrink (Z.of_nat k) =? Z.max 1 ((Z.of_nat k + 4) / 5)) (seq 0 2001) = true)
    by (vm_compute; reflexivity).
  rewrite forallb_forall in Hall. specialize (Hall (Z.to_nat n)).
  rewrite Z2Nat.id in Hall by lia. apply Z.eqb_eq, Hall, in_seq. lia.
Qed.

Lemma maxShrink_is_fifth_witness : maxShrink 15 = 3.
Proof. rewrite (maxShrink_is_fifth 15) by lia. reflexivity. Defined.

(** The evaluation pass is fair.  Each tick gives every open pool exactly
    one turn, the pool under the cursor first; the cursor then moves one place,
    so among [n] open pools each one is first in some one of [n] consecutive
    ticks. *)
Theorem evaluation_is_fair order now F :
  open_pools F <> [] -> 0 <= cursor F ->
  let n := length (open_pools F) in
  Permutation (evaluation_order F) (open_pools F) /\ NoDup (evaluation_order F) /\
  (forall id, id ∈ evaluation_order F <-> exists p, pools F !! id = Some p /\ closing p = false) /\
  cursor (evaluateAll order now F) = (cursor F + 1) mod Z.of_nat n /\
  (forall id, id ∈ open_pools F ->
   exists k, (k < n)%nat /\
     head (rotate (Z.to_nat ((cursor F + Z.of_nat k) mod Z.of_nat n)) (open_pools F)) = Some id).
Proof.
  intros Hne Hc n.
  assert (Hn : (0 < n)%nat) by (unfold n; destruct (open_pools F); [done|simpl; lia]).
  assert (Hp : Permutation (evaluation_order F) (open_pools F)) by apply rotate_perm.
  assert (Hs : Permutation (open_pools F) (filter (fun id => is_open F id = true) (map_to_list (pools F)).*1))
    by apply merge_sort_Permutation.
  split_and!; [done| | | |].
  - rewrite Hp, Hs. apply NoDup_filter, NoDup_fst_map_to_list.
  - intros id. rewrite Hp, Hs, list_elem_of_filter, list_elem_of_fmap. unfold is_open. split.
    + intros (Ho & [id' p] & -> & Hin). apply elem_of_map_to_list in Hin. simpl in *. rewrite Hin in Ho.
      exists p. split; [done|]. by apply negb_true_iff.
    + intros (p & Hp' & Hcl). rewrite Hp', Hcl. split; [done|]. exists (id, p). split; [done|].
      by apply elem_of_map_to_list.
  - rewrite evaluateAll_cursor by done. fold n. pose proof (Z.rem_nonneg (cursor F) (Z.of_nat n) ltac:(lia) Hc).
    rewrite (Z.rem_mod_nonneg (_ + _)), Z.rem_mod_nonneg by lia.
    rewrite Z.add_mod_idemp_l by lia. done.
  - intros id Hin. apply list_elem_of_lookup in Hin as [i Hi].
    pose proof (lookup_lt_Some _ _ _ Hi) as Hlt. fold n in Hlt.
    exists (Z.to_nat ((Z.of_nat i - cursor F) mod Z.of_nat n)).
    pose proof (Z.mod_pos_bound (Z.of_nat i - cursor F) (Z.of_nat n) ltac:(lia)).
    split; [lia|]. rewrite Z2Nat.id, Z.add_mod_idemp_r by lia.
    replace (cursor F + (Z.of_nat i - cursor F)) with (Z.of_nat i) by lia.
    rewrite Z.mod_small, Nat2Z.id by lia. by rewrite rotate_head.
Qed.

Lemma evaluation_is_fair_witness :
  evaluation_order (demo_fleet <| cursor := 1 |>) = ["fn-b"; "fn-a"]%string /\
  NoDup (evaluation_order (demo_fleet <| cursor := 1 |>)).
Proof.
  assert (Hne : open_pools (demo_fleet <| cursor := 1 |>) <> []) by (vm_compute; discriminate).
  destruct (evaluation_is_fair [] (fun _ => 0) _ Hne ltac:(simpl; lia)) as (_ & Hnd & _).
  split; [vm_compute; reflexivity|exact Hnd].
Defined.
