(* ===== verification/Manager.v ===== *)
(** * The pool manager ([pool/pool.go], [sandbox/limiter.go])

    How a pool generation is configured, how a request goes through bounded
    admission ([Acquire]) to a worker and back ([Release]), and how a
    generation is retired.  A request is a token holder: the machine at the
    end of the definitions interleaves any number of requests, deploys and
    releases over the shared counters. *)
From stdpp Require Import pretty.
From S2P Require Import Prelude Float64 HostMem Signals FunctionPool.
Open Scope Z_scope.

(* ------------------------------------------------------------------ *)
(** ** Host-wide limiter *)

Record Limiter := MkLimiter { sem_taken : nat; sem_cap : nat; active : Z; total : Z }.

#[export] Instance Limiter_eta : Eta Limiter := fun l =>
  MkLimiter (sem_taken l) (sem_cap l) (active l) (total l).

Definition NewLimiter (maxConcurrent : Z) : Limiter :=
  let n := if maxConcurrent <=? 0 then 100 else maxConcurrent in
  MkLimiter 0 (Z.to_nat n) 0 0.

Definition limiter_send (l : Limiter) : option (Limiter * option pool_error) :=
  if (sem_taken l <? sem_cap l)%nat then
    Some (l <| sem_taken ::= S |> <| active ::= Z.succ |> <| total ::= Z.succ |>, None)
  else None.

(** [None] when the call blocks. *)
Definition limiter_Acquire (pick : nat) (ctx : option ctx_error) (l : Limiter)
  : option (Limiter * option pool_error) :=
  go_select pick [limiter_send l; (fun e => (l, Some (ErrContext e))) <$> ctx] None.

Definition limiter_Release (l : Limiter) : Limiter :=
  l <| active ::= Z.pred |> <| sem_taken ::= pred |>.

(* ------------------------------------------------------------------ *)
(** ** Sizing a pool *)

Definition maxPidsOr (v fallback : Z) : Z := if 0 <? v then v else fallback.

Definition workerCPUUnits (cpus : float64) : Z :=
  if fle cpus (f_of_int 0) then 1000
  else
    let units := f_to_int (fceil (fmul cpus (f_of_int 1000))) in
    if units <? 1 then 1 else units.

Definition poolResourceCeiling (hm : option hostMemTracker) (cpuUnits workerBytes functionMax : Z)
  : Z * string :=
  match hm with
  | None => (50, "capacity_unknown"%string)
  | Some hm =>
    let cpuUnits := if cpuUnits <? 1 then 1000 else cpuUnits in
    let max := Z.quot (HostMem.effectiveCPUWorkers (Some hm) * 1000) cpuUnits in
    let max := if max <? 1 then 1 else max in
    let '(max, reason) := (max, "cpu_capacity"%string) in
    let pct := reservationPct hm in
    let pct := if fle pct (f_of_int 0) || flt (f_of_int 1) pct then fconst 8 10 else pct in
    let workerBytes := if workerBytes <? 16777216 then 16777216 else workerBytes in
    let memCap := Z.quot (f_to_int (fmul (f_of_int (totalBytes hm)) pct)) workerBytes in
    let memCap := if memCap <? 1 then 1 else memCap in
    let '(max, reason) := if memCap <? max then (memCap, "memory_capacity"%string) else (max, reason) in
    if (0 <? functionMax) && (functionMax <? max) then (functionMax, "function_concurrency"%string)
    else (max, reason)
  end.

(** The columns of a function row the pool reads. *)
Record Function := Fn {
  fn_ID : string; fn_Name : string; fn_EnvVars : gmap string string;
  MemoryMB : Z; CPUs : float64; TimeoutMS : Z;
  MaxConcurrency : Z; ConcurrencyPolicy : string; NetworkMode : string;
  Entrypoint : string; RunEntrypoint : string
}.

Record PoolConfig := PoolCfg { MinWarm : Z; MaxWarm : Z; IdleTTLS : Z; ScaleToZero : bool }.

Record ManagerConfig := MgrCfg {
  DefaultMin : Z; DefaultMax : Z; DefaultIdleTTL : Z; DefaultMaxUses : Z
}.

(** The pool built by [getOrCreatePool] for a function: [cfg] is its
    pool_config row, if any. *)
Definition new_pool (mc : ManagerConfig) (hm : option hostMemTracker) (fnID : string) (fn : Function)
    (cfg : option PoolConfig) : functionPool :=
  let '(minWarm, maxWarm, ttl, toZero) :=
    match cfg with
    | Some c => (MinWarm c, MaxWarm c, IdleTTLS c * second, ScaleToZero c)
    | None => (DefaultMin mc, DefaultMax mc, DefaultIdleTTL mc, false)
    end in
  let memory := wrap64 (MemoryMB fn * 1572864) in
  let memory := if memory <? 16777216 then 16777216 else memory in
  let cpu := workerCPUUnits (CPUs fn) in
  let '(resourceMax, maxReason) := poolResourceCeiling hm cpu memory (MaxConcurrency fn) in
  let '(resourceMax, maxReason) :=
    if (0 <? maxWarm) && (maxWarm <? resourceMax) then (maxWarm, "operator_max"%string)
    else (resourceMax, maxReason) in
  let maxWarm := resourceMax in
  let minWarm := if maxWarm <? minWarm then maxWarm else minWarm in
  let initialMax := maxWarm in
  let initialMax :=
    match hm with
    | None => initialMax
    | Some h =>
      let cpuCap := Z.quot (HostMem.effectiveCPUWorkers (Some h) * 1000) cpu in
      let initialMax := if cpuCap <? initialMax then cpuCap else initialMax in
      if 0 <? memory then
        let '(total, _, _) := stats h in
        let memCap := Z.quot (f_to_int (fmul (f_of_int total) (fconst 8 10))) memory in
        if memCap <? initialMax then memCap else initialMax
      else initialMax
    end in
  let initialMax := if initialMax <? 1 then 1 else initialMax in
  let sem := if 0 <? MaxConcurrency fn then Some (O, Z.to_nat (MaxConcurrency fn)) else None in
  let policy := if bool_decide (ConcurrencyPolicy fn = ""%string) then "queue"%string
                else ConcurrencyPolicy fn in
  Pool fnID minWarm maxWarm maxReason ttl (DefaultMaxUses mc) memory cpu toZero
       [] (Z.to_nat maxWarm) 0 0 0 0 ∅ emptySignals 0 0 initialMax 0 0 0 0
       false false None (O, false) sem policy.

(** [buildEnv], and the environment of a spawn: secrets over the function's
    variables, the worker's own credential over both. *)
Definition buildEnv (fn : Function) : gmap string string :=
  let env := fn_EnvVars fn in
  let env := <["ORVA_FUNCTION_ID"%string := fn_ID fn]> env in
  let env := <["ORVA_FUNCTION_NAME"%string := fn_Name fn]> env in
  let env := <["ORVA_MEMORY_MB"%string := pretty (MemoryMB fn)]> env in
  let timeoutMS := if TimeoutMS fn <=? 0 then 30000 else TimeoutMS fn in
  let env := <["ORVA_TIMEOUT_MS"%string := pretty timeoutMS]> env in
  if negb (bool_decide (RunEntrypoint fn = ""%string)) then <["ORVA_ENTRYPOINT"%string := RunEntrypoint fn]> env
  else if negb (bool_decide (Entrypoint fn = ""%string)) then <["ORVA_ENTRYPOINT"%string := Entrypoint fn]> env
  else env.

Definition spawn_env (fn : Function) (secrets : option (gmap string string))
    (sdk : option (string * string)) : gmap string string :=
  let env := buildEnv fn in
  let env := match secrets with None => env | Some s => s ∪ env end in
  match sdk with
  | None => env
  | Some (token, base) =>
    <["ORVA_API_BASE"%string := base]> (<["ORVA_INTERNAL_TOKEN"%string := token]> env)
  end.

(* ------------------------------------------------------------------ *)
(** ** Requests and the manager *)

(** Where a request stands in [Acquire]; [Serving] is after it returned. *)
Inductive phase :=
| Waiting
| HasSlot
| HasWorker (w : nat)
| HasHost (w : nat)
| Serving (w : nat).

Record request := Req { r_fn : string; r_gen : nat; r_phase : phase; r_at : Z }.

#[export] Instance request_eta : Eta request := fun r =>
  Req (r_fn r) (r_gen r) (r_phase r) (r_at r).

(** [gens] are the pool generations ever created, by pointer; [m_pools] maps a
    function to its current one. *)
Record manager := Mgr {
  m_closing : bool;
  m_queued : Z;
  m_limits : Z * Z;
  m_gens : gmap nat functionPool;
  m_pools : gmap string nat;
  m_limiter : option Limiter;
  m_hostMem : option hostMemTracker;
  m_workers : gmap nat worker;
  m_requests : gmap nat request
}.

#[export] Instance manager_eta : Eta manager := fun M =>
  Mgr (m_closing M) (m_queued M) (m_limits M) (m_gens M) (m_pools M) (m_limiter M)
      (m_hostMem M) (m_workers M) (m_requests M).

Definition on_gen (g : nat) (f : functionPool -> functionPool) (M : manager) : manager :=
  M <| m_gens ::= alter f g |>.

(** Run a pool operation on generation [g]. *)
Definition on_gen_state (g : nat) (s : pstate) (M : manager) : manager :=
  M <| m_gens ::= <[g := pool s]> |> <| m_hostMem := hostMem s |> <| m_workers := workers s |>.

Definition gen_state (p : functionPool) (M : manager) : pstate := PState p (m_hostMem M) (m_workers M).

(** [getOrCreatePool]: [made] is the freshly configured pool, or the error of
    the registry lookup; [fresh] its address. *)
Definition getOrCreatePool (made : res pool_error functionPool) (fresh : nat) (fnID : string) (M : manager)
  : manager * res pool_error nat :=
  let existing :=
    match m_pools M !! fnID with
    | Some g => match m_gens M !! g with
                | Some p => if closing p then None else Some g
                | None => None
                end
    | None => None
    end in
  match existing with
  | Some g => (M, Ok g)
  | None =>
    if m_closing M then (M, Err ErrManagerClosed)
    else
      let M := M <| m_pools ::= delete fnID |> in
      match made with
      | Err e => (M, Err e)
      | Ok p => (M <| m_gens ::= <[fresh := p]> |> <| m_pools ::= <[fnID := fresh]> |>, Ok fresh)
      end
  end.

Definition queueAdmissionError (parent : option ctx_error) (err : pool_error) : pool_error :=
  match parent with
  | Some e => ErrContext e
  | None =>
    if bool_decide (err = ErrContext DeadlineExceeded) || bool_decide (err = ErrPoolAtCapacity)
    then ErrInvocationQueueFull else err
  end.

Definition finishQueue (arrivedAt now : Z) (rejected : bool) (p : functionPool) : functionPool :=
  let p := p <| queued ::= Z.pred |> <| sig ::= recordQueueWait (now - arrivedAt) |> in
  if rejected then p <| rejections ::= Z.succ |> else p.

(** The outcome of a piece of [Acquire]: the request goes on, or it returned
    an error. *)
Definition outcome : Type := pool_error + request.

(** [reserveQueueCounter(&p.queued, limit)] on generation [g]. *)
Definition join_queue (g : nat) (r : request) (M : manager) : manager * outcome :=
  match m_gens M !! g with
  | None => (M, inl ErrNoFunction)
  | Some p =>
    match reserveQueueCounter (queued p) (snd (m_limits M)) with
    | None => (on_gen g (fun p => p <| rejections ::= Z.succ |>) M, inl ErrInvocationQueueFull)
    | Some n => (on_gen g (fun p => p <| queued := n |>) M, inr (r <| r_gen := g |> <| r_phase := Waiting |>))
    end
  end.

(** The entry of [Acquire], down to the loop. *)
Definition enter (made : res pool_error functionPool) (fresh : nat) (fnID : string) (now : Z) (M : manager)
  : manager * outcome :=
  if m_closing M then (M, inl ErrManagerClosed)
  else
    match getOrCreatePool made fresh fnID M with
    | (M, Err e) => (M, inl e)
    | (M, Ok g) =>
      let M := on_gen g (fun p => p <| sig ::= recordArrival now |> <| arrivalsTotal ::= Z.succ |>) M in
      match reserveQueueCounter (m_queued M) (fst (m_limits M)) with
      | None => (on_gen g (fun p => p <| rejections ::= Z.succ |>) M, inl ErrInvocationQueueFull)
      | Some n =>
        match join_queue g (Req fnID g Waiting now) (M <| m_queued := n |>) with
        | (M, inl e) => (M <| m_queued ::= Z.pred |>, inl e)
        | (M, inr r) => (M, inr r)
        end
      end
    end.

(** Leave the manager's queue: the deferred [m.queued.Add(-1)]. *)
Definition leave (M : manager) : manager := M <| m_queued ::= Z.pred |>.

(** The generation was retired under the request: queue on the new one. *)
Definition regenerate (made : res pool_error functionPool) (fresh : nat) (r : request) (M : manager)
  : manager * outcome :=
  let M := on_gen (r_gen r) (fun p => p <| queued ::= Z.pred |>) M in
  match getOrCreatePool made fresh (r_fn r) M with
  | (M, Err e) => (leave M, inl e)
  | (M, Ok g) =>
    match join_queue g r M with
    | (M, inl e) => (leave M, inl e)
    | (M, inr r) => (M, inr r)
    end
  end.

Definition reject (r : request) (now : Z) (parent : option ctx_error) (e : pool_error) (M : manager)
  : manager * outcome :=
  (leave (on_gen (r_gen r) (finishQueue (r_at r) now true) M), inl (queueAdmissionError parent e)).

(** The loop head: the queue deadline has passed. *)
Definition expire (r : request) (now : Z) (parent : option ctx_error) (ctx : ctx_error) (M : manager)
  : manager * outcome := reject r now parent (ErrContext ctx) M.

(** The concurrency gate, given what [acquireSlot] returned. *)
Definition slot_phase (made : res pool_error functionPool) (fresh : nat) (r : request) (now : Z)
    (parent : option ctx_error) (got : functionPool * option pool_error) (M : manager) : manager * outcome :=
  let M := M <| m_gens ::= <[r_gen r := fst got]> |> in
  match snd got with
  | None => (M, inr (r <| r_phase := HasSlot |>))
  | Some errPoolRetired => regenerate made fresh r M
  | Some e =>
    let M := match e with
             | ErrContext _ => on_gen (r_gen r) (fun p => p <| capacityTimeouts ::= Z.succ |>) M
             | _ => M
             end in
    reject r now parent e M
  end.

(** Taking a worker, given what [acquire] returned. *)
Definition worker_phase (made : res pool_error functionPool) (fresh : nat) (r : request) (now : Z)
    (parent : option ctx_error) (s : pstate) (a : acquired) (M : manager) : manager * outcome :=
  let M := on_gen_state (r_gen r) s M in
  match a with
  | Acquired w _ => (M, inr (r <| r_phase := HasWorker w |>))
  | AcquireFailed e =>
    let M := on_gen (r_gen r) releaseSlot M in
    if bool_decide (e = errPoolRetired) then regenerate made fresh r M
    else reject r now parent e M
  | WaitForIdle | OutOfFuel => (M, inr r)
  end.

(** The host slot: [got] is what [limiter.Acquire] returned. *)
Definition host_phase (r : request) (w : nat) (now : Z) (parent : option ctx_error)
    (got : Limiter * option pool_error) (M : manager) : manager * outcome :=
  let M := M <| m_limiter := Some (fst got) |> in
  match snd got, m_gens M !! r_gen r with
  | Some e, Some p =>
    let M := on_gen_state (r_gen r) (release_worker (gen_state p M) w false) M in
    let M := on_gen (r_gen r) releaseSlot M in
    reject r now parent e (on_gen (r_gen r) (fun p => p <| capacityTimeouts ::= Z.succ |>) M)
  | _, _ => (M, inr (r <| r_phase := HasHost w |>))
  end.

(** The last check of the deadline: hand the worker out, or give everything back. *)
Definition hand_over (r : request) (w : nat) (now : Z) (parent : option ctx_error) (ctx : option ctx_error)
    (M : manager) : manager * outcome :=
  match ctx, m_gens M !! r_gen r with
  | Some e, Some p =>
    let M := M <| m_limiter ::= fmap limiter_Release |> in
    let M := on_gen_state (r_gen r) (release_worker (gen_state p M) w false) M in
    reject r now parent (ErrContext e) (on_gen (r_gen r) releaseSlot M)
  | _, _ =>
    (leave (on_gen (r_gen r) (finishQueue (r_at r) now false) M),
     inr (r <| r_phase := Serving w |> <| r_at := now |>))
  end.

(** [Release] of a request that [Acquire] handed a worker; a request that is
    no longer held ([released] was already set) is left alone. *)
Definition Release (i : nat) (failed : bool) (now : Z) (M : manager) : manager :=
  match m_requests M !! i with
  | Some (Req fnID g (Serving w) at_) =>
    let M := M <| m_requests ::= delete i |> in
    let M := on_gen g (fun p => p <| sig ::= recordLatency (now - at_) |>) M in
    let M := match m_gens M !! g with
             | Some p => on_gen_state g (release_worker (gen_state p M) w failed) M
             | None => M
             end in
    let M := on_gen g releaseSlot M in
    M <| m_limiter ::= fmap limiter_Release |>
  | _ => M
  end.

(** [retirePool]: unpublish the generation, close it and kill what it parked. *)
Definition retirePool (fnID : string) (M : manager) : manager :=
  match m_pools M !! fnID with
  | None => M
  | Some g =>
    let M := M <| m_pools ::= delete fnID |> in
    match m_gens M !! g with
    | None => M
    | Some p => on_gen_state g (drain_idle (gen_state (markRetired p) M)) M
    end
  end.

(** [RetireEgressPools]: [mode] looks a function's network mode up. *)
Definition RetireEgressPools (mode : string -> option string) (M : manager) : manager * Z :=
  let ids := filter (fun id => mode id = Some "egress"%string) (map_to_list (m_pools M)).*1 in
  (foldl (fun M id => retirePool id M) M ids, Z.of_nat (length ids)).

(* ------------------------------------------------------------------ *)
(** ** The machine *)

(** A pool nobody has queued on yet. *)
Definition unused (p : functionPool) : Prop :=
  queued p = 0 /\ match concSem p with None => True | Some (t, _) => t = O end.

(** What [acquire] can return on the pool state [s]: the fast path, or one
    pass of the wait. *)
Inductive acquire_result (s : pstate) : pstate -> acquired -> Prop :=
| AFast fuel s' a : acquire_fast fuel s = (s', a) -> acquire_result s s' a
| AWait pick ctx ch s' a : waitForIdle pick ctx ch s = Some (s', WaitDone a) -> acquire_result s s' a
| AAgain pick ctx ch s' : waitForIdle pick ctx ch s = Some (s', WaitRetry) -> acquire_result s s' WaitForIdle.

(** Record where request [i] got to. *)
Definition record (i : nat) (o : manager * outcome) : manager :=
  match o with
  | (M, inl _) => M <| m_requests ::= delete i |>
  | (M, inr r) => M <| m_requests ::= <[i := r]> |>
  end.

Inductive mgr_step : manager -> manager -> Prop :=
| MEnter M i made fresh fnID now :
    m_requests M !! i = None -> m_gens M !! fresh = None -> (forall p, made = Ok p -> unused p) ->
    mgr_step M (record i (enter made fresh fnID now M))
| MExpire M i r now parent ctx :
    m_requests M !! i = Some r -> r_phase r = Waiting ->
    mgr_step M (record i (expire r now parent ctx M))
| MSlot M i r p made fresh now parent ctx pick closing_after got :
    m_requests M !! i = Some r -> r_phase r = Waiting -> m_gens M !! r_gen r = Some p ->
    acquireSlot pick ctx closing_after p = Some got ->
    m_gens M !! fresh = None -> (forall p, made = Ok p -> unused p) ->
    mgr_step M (record i (slot_phase made fresh r now parent got M))
| MWorker M i r p made fresh now parent s a :
    m_requests M !! i = Some r -> r_phase r = HasSlot -> m_gens M !! r_gen r = Some p ->
    acquire_result (gen_state p M) s a ->
    m_gens M !! fresh = None -> (forall p, made = Ok p -> unused p) ->
    mgr_step M (record i (worker_phase made fresh r now parent s a M))
| MHost M i r w l now parent ctx pick got :
    m_requests M !! i = Some r -> r_phase r = HasWorker w -> m_limiter M = Some l ->
    limiter_Acquire pick ctx l = Some got ->
    mgr_step M (record i (host_phase r w now parent got M))
| MNoLimiter M i r w :
    m_requests M !! i = Some r -> r_phase r = HasWorker w -> m_limiter M = None ->
    mgr_step M (record i (M, inr (r <| r_phase := HasHost w |>)))
| MHandOver M i r w now parent ctx :
    m_requests M !! i = Some r -> r_phase r = HasHost w ->
    mgr_step M (record i (hand_over r w now parent ctx M))
| MRelease M i failed now : mgr_step M (Release i failed now M)
| MRetire M fnID : mgr_step M (retirePool fnID M)
| MPool M g p p' h ws :               (* spawns, sweeps and the scaler work on a pool *)
    m_gens M !! g = Some p -> queued p' = queued p -> concSem p' = concSem p ->
    mgr_step M (M <| m_gens ::= <[g := p']> |> <| m_hostMem := h |> <| m_workers := ws |>)
| MShutdown M : mgr_step M (M <| m_closing := true |>).

(* ------------------------------------------------------------------ *)
(** ** The tokens a request holds *)

Definition at_gen (g g' : nat) : Z := if decide (g = g') then 1 else 0.

(** Places in the manager's queue, in a generation's queue, in a generation's
    semaphore and in the limiter. *)
Record tokens := Tokens { k_m : Z; k_q : nat -> Z; k_s : nat -> Z; k_h : Z }.

Definition nowhere (g : nat) : Z := 0.
Definition no_tokens : tokens := Tokens 0 nowhere nowhere 0.

Definition tokens_of (r : request) : tokens :=
  let here := at_gen (r_gen r) in
  match r_phase r with
  | Waiting => Tokens 1 here nowhere 0
  | HasSlot | HasWorker _ => Tokens 1 here here 0
  | HasHost _ => Tokens 1 here here 1
  | Serving _ => Tokens 0 nowhere here 1
  end.

(** The counters of generation [g] are what the requests [R], plus one holder
    with the tokens [k], hold there. *)
Definition gen_exact (R : gmap nat request) (k : tokens) (limit : Z) (g : nat) (p : functionPool) : Prop :=
  queued p = msum (fun r => k_q (tokens_of r) g) R + k_q k g /\ queued p <= limit /\
  match concSem p with
  | None => True
  | Some (t, cap) => Z.of_nat t = msum (fun r => k_s (tokens_of r) g) R + k_s k g /\ (t <= cap)%nat
  end.

Record exact (R : gmap nat request) (k : tokens) (M : manager) : Prop := Exact {
  ex_queued : m_queued M = msum (fun r => k_m (tokens_of r)) R + k_m k /\ m_queued M <= fst (m_limits M);
  ex_limit : 0 <= snd (m_limits M);
  ex_gens : map_Forall (gen_exact R k (snd (m_limits M))) (m_gens M);
  ex_known : map_Forall (fun _ r => is_Some (m_gens M !! r_gen r)) R;
  ex_limiter : match m_limiter M with
    | None => True
    | Some l => Z.of_nat (sem_taken l) = msum (fun r => k_h (tokens_of r)) R + k_h k /\
                active l = Z.of_nat (sem_taken l) /\ (sem_taken l <= sem_cap l)%nat
    end
}.

(** The manager's books: every counter is the number of requests that hold a
    place in it, within its limit. *)
Definition books_exact (M : manager) : Prop := exact (m_requests M) no_tokens M.

(* ------------------------------------------------------------------ *)
(** ** Lemmas *)

Lemma at_gen_same g : at_gen g g = 1.
Proof. unfold at_gen. by rewrite decide_True. Qed.

Lemma at_gen_other g g' : g <> g' -> at_gen g g' = 0.
Proof. intros. unfold at_gen. by rewrite decide_False. Qed.

Lemma at_gen_nonneg g g' : 0 <= at_gen g g'.
Proof. unfold at_gen. case_decide; lia. Qed.

Lemma tokens_of_nonneg r g :
  0 <= k_m (tokens_of r) /\ 0 <= k_q (tokens_of r) g /\ 0 <= k_s (tokens_of r) g /\ 0 <= k_h (tokens_of r).
Proof.
  pose proof (at_gen_nonneg (r_gen r) g). unfold tokens_of, nowhere. destruct (r_phase r); simpl; lia.
Qed.

Lemma slots_nonneg (R : gmap nat request) g : 0 <= msum (fun r => k_s (tokens_of r) g) R.
Proof. apply msum_nonneg. intros i r _. apply (tokens_of_nonneg r g). Qed.

Lemma hosts_nonneg (R : gmap nat request) : 0 <= msum (fun r => k_h (tokens_of r)) R.
Proof. apply msum_nonneg. intros i r _. apply (tokens_of_nonneg r O). Qed.

(** Tokens are zero at a generation no request refers to. *)
Lemma unknown_gen R k M g :
  exact R k M -> m_gens M !! g = None ->
  msum (fun r => k_q (tokens_of r) g) R = 0 /\ msum (fun r => k_s (tokens_of r) g) R = 0.
Proof.
  intros [_ _ _ Hk _] Hg.
  assert (H : forall f : request -> Z, (forall r, r_gen r <> g -> f r = 0) -> msum f R = 0).
  { intros f Hf. induction R as [|i r R Hi IH] using map_ind; [apply msum_empty|].
    apply map_Forall_insert in Hk as [Hr Hk]; [|done].
    rewrite msum_insert_new, IH by done. rewrite Hf; [done|].
    intros Hr'. rewrite Hr', Hg in Hr. by destruct Hr. }
  split; apply H; intros r Hr; unfold tokens_of; destruct (r_phase r); simpl; try done; by apply at_gen_other.
Qed.

(** Moving one holder's tokens at a single generation. *)
Lemma exact_gen R k k' M g p p' M' :
  exact R k M -> m_gens M !! g = Some p ->
  (gen_exact R k (snd (m_limits M)) g p -> gen_exact R k' (snd (m_limits M)) g p') ->
  (forall g', g' <> g -> k_q k' g' = k_q k g' /\ k_s k' g' = k_s k g') ->
  k_m k' = k_m k -> k_h k' = k_h k ->
  m_gens M' = <[g := p']> (m_gens M) -> m_queued M' = m_queued M -> m_limits M' = m_limits M ->
  m_limiter M' = m_limiter M ->
  exact R k' M'.
Proof.
  intros [Hq Hl Hg Hk Hh] Hp Hok Hoth Hm Hhk Eg Eq El Eh.
  split; rewrite ?Eq, ?El, ?Eh, ?Hm, ?Hhk; try done.
  - intros g' q Hq'. rewrite Eg in Hq'. destruct (decide (g' = g)) as [->|Hne].
    + rewrite lookup_insert_eq in Hq'. simplify_eq. apply Hok, Hg. done.
    + rewrite lookup_insert_ne in Hq' by done. specialize (Hg _ _ Hq'). unfold gen_exact in *.
      destruct (Hoth g' Hne) as [-> ->]. done.
  - intros i r Hr. rewrite Eg. destruct (decide (r_gen r = g)) as [->|]; [rewrite lookup_insert_eq; eauto|].
    rewrite lookup_insert_ne by done. by eapply Hk.
Qed.

Lemma exact_on_gen R k k' M g f :
  exact R k M -> is_Some (m_gens M !! g) ->
  (forall p, gen_exact R k (snd (m_limits M)) g p -> gen_exact R k' (snd (m_limits M)) g (f p)) ->
  (forall g', g' <> g -> k_q k' g' = k_q k g' /\ k_s k' g' = k_s k g') ->
  k_m k' = k_m k -> k_h k' = k_h k ->
  exact R k' (on_gen g f M).
Proof.
  intros Hex [p Hp] Hok Hoth Hm Hh.
  eapply (exact_gen R k k' M g p (f p)); try done; [by apply Hok|]. simpl.
  apply map_eq. intros g'. destruct (decide (g' = g)) as [->|].
  - by rewrite lookup_alter_eq, lookup_insert_eq, Hp.
  - by rewrite lookup_alter_ne, lookup_insert_ne.
Qed.

(** Operations on one generation that leave its counters alone. *)
Definition same_tokens (p p' : functionPool) : Prop := queued p' = queued p /\ concSem p' = concSem p.

Lemma gen_exact_frame R k lim g p p' : same_tokens p p' -> gen_exact R k lim g p -> gen_exact R k lim g p'.
Proof. unfold gen_exact. by intros [-> ->]. Qed.

Lemma exact_frame R k M g f :
  exact R k M -> is_Some (m_gens M !! g) -> (forall p, same_tokens p (f p)) -> exact R k (on_gen g f M).
Proof.
  intros Hex Hg Hf. eapply exact_on_gen; try done. intros p. by apply gen_exact_frame.
Qed.

Lemma exact_state R k M g p s :
  exact R k M -> m_gens M !! g = Some p -> same_tokens p (pool s) -> exact R k (on_gen_state g s M).
Proof.
  intros Hex Hg Hf. eapply (exact_gen R k k M g p (pool s)); try done. by apply gen_exact_frame.
Qed.

Lemma exact_tokens R k k' M :
  exact R k M -> k_m k' = k_m k -> k_h k' = k_h k ->
  (forall g, k_q k' g = k_q k g /\ k_s k' g = k_s k g) -> exact R k' M.
Proof.
  intros [Hq Hl Hg Hk Hh] Em Eh Eg. split; rewrite ?Em, ?Eh; try done.
  intros g p Hp. specialize (Hg g p Hp). unfold gen_exact in *. by destruct (Eg g) as [-> ->].
Qed.

Lemma exact_leave R k M :
  exact R k M -> k_m k = 1 -> exact R (Tokens 0 (k_q k) (k_s k) (k_h k)) (leave M).
Proof. intros [[Hq Hq'] Hl Hg Hk Hh] Hm. split; simpl; try done. lia. Qed.

(** Leaving a generation's queue, giving its slot back. *)
Lemma gen_exact_dequeue R k lim g p p' :
  gen_exact R k lim g p -> queued p' = Z.pred (queued p) -> concSem p' = concSem p -> k_q k g = 1 ->
  gen_exact R (Tokens (k_m k) nowhere (k_s k) (k_h k)) lim g p'.
Proof. unfold gen_exact. simpl. unfold nowhere. intros (? & ? & ?) -> -> Hk. split_and!; try done; lia. Qed.

Lemma gen_exact_releaseSlot R k lim g p :
  gen_exact R k lim g p -> k_s k g = 1 ->
  gen_exact R (Tokens (k_m k) (k_q k) nowhere (k_h k)) lim g (releaseSlot p).
Proof.
  unfold gen_exact, releaseSlot. intros (? & ? & Hs) Hk. pose proof (slots_nonneg R g).
  destruct (concSem p) as [[[|t] cap]|] eqn:E; simpl; rewrite ?E; unfold nowhere; split_and!; try done; lia.
Qed.

Lemma finishQueue_fields at_ now rej p :
  queued (finishQueue at_ now rej p) = Z.pred (queued p) /\ concSem (finishQueue at_ now rej p) = concSem p.
Proof. unfold finishQueue. by destruct rej. Qed.

(** A piece of [Acquire] is sound when its result accounts for the request. *)
Definition accounts (R : gmap nat request) (M : manager) (o : manager * outcome) : Prop :=
  m_requests (fst o) = m_requests M /\
  match snd o with
  | inl _ => exact R no_tokens (fst o)
  | inr r => exact R (tokens_of r) (fst o) /\ is_Some (m_gens (fst o) !! r_gen r)
  end.

Lemma getOrCreatePool_exact R k M made fresh fnID :
  exact R k M -> m_gens M !! fresh = None -> k_q k fresh = 0 -> k_s k fresh = 0 ->
  (forall p, made = Ok p -> unused p) ->
  let o := getOrCreatePool made fresh fnID M in
  exact R k (fst o) /\ m_requests (fst o) = m_requests M /\
  (forall g, snd o = Ok g -> is_Some (m_gens (fst o) !! g)).
Proof.
  intros Hex Hfresh Hkq Hks Hmade. unfold getOrCreatePool.
  set (existing := match m_pools M !! fnID with Some _ => _ | None => _ end).
  assert (Hex' : forall g, existing = Some g -> is_Some (m_gens M !! g)).
  { intros g. unfold existing. repeat case_match; intros; simplify_eq; eauto. }
  destruct existing as [g0|].
  { simpl. split_and!; try done. intros g [= <-]. by apply Hex'. }
  destruct (m_closing M); [by split_and!|].
  destruct made as [p|e].
  2:{ simpl. split_and!; try done. by destruct Hex. }
  destruct (unknown_gen _ _ _ _ Hex Hfresh) as [Hzq Hzs]. destruct (Hmade p eq_refl) as [Hq0 Hs0].
  simpl. split_and!; try done.
  - destruct Hex as [Hq Hl Hg Hk Hh]. split; simpl; try done.
    + apply map_Forall_insert_2; [|done]. unfold gen_exact. rewrite Hzq, Hzs, Hkq, Hks, Hq0.
      destruct (concSem p) as [[t cap]|]; split_and!; try done; [subst t; done|subst t; lia].
    + intros i r Hr. destruct (decide (r_gen r = fresh)) as [->|]; [rewrite lookup_insert_eq; eauto|].
      rewrite lookup_insert_ne by done. by eapply Hk.
  - intros g [= <-]. rewrite lookup_insert_eq. eauto.
Qed.

Definition in_queue : tokens := Tokens 1 nowhere nowhere 0.

Lemma join_queue_exact R M g r :
  exact R in_queue M -> is_Some (m_gens M !! g) ->
  let o := join_queue g r M in
  m_requests (fst o) = m_requests M /\
  match snd o with
  | inl _ => exact R in_queue (fst o)
  | inr r' => exact R (tokens_of r') (fst o) /\ is_Some (m_gens (fst o) !! r_gen r')
  end.
Proof.
  intros Hex [p Hp]. unfold join_queue. rewrite Hp. unfold reserveQueueCounter.
  destruct (Z.leb_spec (snd (m_limits M)) (queued p)); simpl; (split; [done|]).
  - by apply exact_frame; [|eauto|].
  - split; [|rewrite lookup_alter_eq, Hp; eauto].
    eapply (exact_gen R in_queue _ M g p (p <| queued := queued p + 1 |>)); try done.
    + unfold gen_exact, in_queue, tokens_of. simpl. rewrite at_gen_same. unfold nowhere.
      intros (? & ? & ?). split_and!; try done; lia.
    + intros g' Hg'. simpl. unfold nowhere. rewrite at_gen_other; done.
    + simpl. apply map_eq. intros g'. destruct (decide (g' = g)) as [->|].
      * by rewrite lookup_alter_eq, lookup_insert_eq, Hp.
      * by rewrite lookup_alter_ne, lookup_insert_ne.
Qed.

Lemma enter_accounts R M made fresh fnID now :
  exact R no_tokens M -> m_gens M !! fresh = None -> (forall p, made = Ok p -> unused p) ->
  accounts R M (enter made fresh fnID now M).
Proof.
  intros Hex Hfresh Hmade. unfold enter. destruct (m_closing M); [by split|].
  pose proof (getOrCreatePool_exact R no_tokens M made fresh fnID Hex Hfresh eq_refl eq_refl Hmade) as (H1 & H2 & H3).
  destruct (getOrCreatePool made fresh fnID M) as [M1 [g|e]]; cbn [fst snd] in *; [|by split].
  specialize (H3 g eq_refl).
  set (M2 := on_gen g _ M1).
  assert (Hex2 : exact R no_tokens M2) by (by apply exact_frame).
  assert (Hg2 : is_Some (m_gens M2 !! g)) by (by apply lookup_alter_is_Some).
  assert (Hr2 : m_requests M2 = m_requests M) by done. clearbody M2.
  unfold reserveQueueCounter. destruct (Z.leb_spec (fst (m_limits M2)) (m_queued M2)).
  { split; [exact Hr2|]. simpl. by apply exact_frame. }
  set (M3 := M2 <| m_queued := m_queued M2 + 1 |>).
  assert (Hex3 : exact R in_queue M3).
  { destruct Hex2 as [[Hq Hq'] Hl Hg Hk Hh]. split; simpl in *; try done. lia. }
  pose proof (join_queue_exact R M3 g (Req fnID g Waiting now) Hex3 Hg2) as [Hr4 Hj].
  destruct (join_queue g _ M3) as [M4 [e|r]]; simpl in *.
  - split; simpl; [congruence|]. by apply (exact_leave R in_queue).
  - split; simpl; [congruence|done].
Qed.

Lemma regenerate_accounts R M made fresh r :
  exact R (tokens_of (r <| r_phase := Waiting |>)) M -> is_Some (m_gens M !! r_gen r) ->
  m_gens M !! fresh = None -> (forall p, made = Ok p -> unused p) ->
  accounts R M (regenerate made fresh r M).
Proof.
  intros Hex Hg Hfresh Hmade. unfold regenerate.
  set (M1 := on_gen (r_gen r) _ M).
  assert (Hex1 : exact R in_queue M1).
  { eapply (exact_on_gen R _ in_queue M (r_gen r)); [exact Hex|done| | |done|done].
    - intros p Hp. unshelve eapply (gen_exact_dequeue R _ _ _ _ _ Hp); try done. simpl. by rewrite at_gen_same.
    - intros g' Hg'. simpl. unfold nowhere. by rewrite at_gen_other. }
  assert (Hfresh1 : m_gens M1 !! fresh = None) by (simpl; rewrite lookup_alter_None; done).
  pose proof (getOrCreatePool_exact R in_queue M1 made fresh (r_fn r) Hex1 Hfresh1 eq_refl eq_refl Hmade)
    as (H1 & H2 & H3).
  destruct (getOrCreatePool made fresh (r_fn r) M1) as [M2 [g|e]]; simpl in *.
  2:{ split; [done|]. by apply (exact_leave R in_queue). }
  pose proof (join_queue_exact R M2 g r H1 (H3 g eq_refl)) as [Hr4 Hj].
  destruct (join_queue g r M2) as [M4 [e|r']]; simpl in *.
  - split; simpl; [congruence|]. by apply (exact_leave R in_queue).
  - split; simpl; [congruence|done].
Qed.

Lemma reject_accounts R M r now parent e :
  exact R (tokens_of (r <| r_phase := Waiting |>)) M -> is_Some (m_gens M !! r_gen r) ->
  accounts R M (reject r now parent e M).
Proof.
  intros Hex Hg. split; [done|]. simpl. apply (exact_leave R in_queue); [|done].
  eapply (exact_on_gen R _ in_queue M (r_gen r)); [exact Hex|done| | |done|done].
  - intros p Hp. destruct (finishQueue_fields (r_at r) now true p).
    unshelve eapply (gen_exact_dequeue R _ _ _ _ _ Hp); try done. simpl. by rewrite at_gen_same.
  - intros g' Hg'. simpl. unfold nowhere. by rewrite at_gen_other.
Qed.

Lemma releaseSlot_queued p : queued (releaseSlot p) = queued p.
Proof. unfold releaseSlot. by destruct (concSem p) as [[[] ?]|]. Qed.

Lemma after_pop_tokens s w : same_tokens (pool s) (pool (fst (after_pop s w))).
Proof. unfold after_pop. by repeat case_match. Qed.

Lemma acquire_fast_tokens fuel : forall s, same_tokens (pool s) (pool (fst (acquire_fast fuel s))).
Proof.
  induction fuel as [|fuel IH]; intros s; simpl; [done|].
  destruct (closing (pool s)); [done|].
  unfold pop_idle. destruct (idle (pool s)) as [|w rest]; [done|].
  set (s1 := on_pool _ s). pose proof (after_pop_tokens s1 w) as [Hq Hc].
  destruct (after_pop s1 w) as [s2 [[w'|e]|]]; simpl in *; try done.
  destruct (IH s2) as [Hq' Hc']. split; congruence.
Qed.

Lemma waitForIdle_tokens pick ctx ch s s' w :
  waitForIdle pick ctx ch s = Some (s', w) -> same_tokens (pool s) (pool s').
Proof.
  unfold waitForIdle. intros H. apply go_select_in in H as [H|[? _]]; [|done].
  rewrite !elem_of_cons, elem_of_nil in H. destruct H as [H|[H|[H|[H|[]]]]].
  - unfold pop_idle in H. destruct (idle (pool s)) as [|w0 rest]; [done|].
    set (s1 := on_pool _ s) in *. pose proof (after_pop_tokens s1 w0) as [Hq Hc].
    destruct (after_pop s1 w0) as [s2 [[w'|e]|]]; simpl in *; by simplify_eq.
  - destruct (retired (pool s)); by simplify_eq.
  - repeat case_match; by simplify_eq.
  - destruct ctx; by simplify_eq.
Qed.

Lemma acquire_result_tokens s s' a : acquire_result s s' a -> same_tokens (pool s) (pool s').
Proof.
  intros [fuel s1 a1 H|pick ctx ch s1 a1 H|pick ctx ch s1 H].
  - pose proof (acquire_fast_tokens fuel s) as Hf. by rewrite H in Hf.
  - by eapply waitForIdle_tokens.
  - by eapply waitForIdle_tokens.
Qed.

Lemma release_worker_tokens s w failed : same_tokens (pool s) (pool (release_worker s w failed)).
Proof. unfold release_worker, release_park, push_idle. by repeat case_match; simplify_eq. Qed.

Lemma drain_loop_tokens n : forall s, same_tokens (pool s) (pool (drain_loop n s)).
Proof.
  induction n as [|n IH]; intros s; simpl; [done|].
  unfold pop_idle. destruct (idle (pool s)) as [|w rest]; [done|].
  match goal with |- context [drain_loop n ?s1] => destruct (IH s1) as [Hq Hc] end.
  split; [rewrite Hq|rewrite Hc]; done.
Qed.

Lemma slot_phase_accounts R M r p made fresh now parent ctx pick closing_after got :
  exact R (tokens_of r) M -> r_phase r = Waiting -> m_gens M !! r_gen r = Some p ->
  acquireSlot pick ctx closing_after p = Some got ->
  m_gens M !! fresh = None -> (forall p, made = Ok p -> unused p) ->
  accounts R M (slot_phase made fresh r now parent got M).
Proof.
  intros Hex Hph Hp Hgot Hfresh Hmade.
  assert (Hr : r = r <| r_phase := Waiting |>) by (destruct r; simpl in *; by subst).
  pose proof (acquireSlot_cases pick ctx closing_after p) as Hs. rewrite Hgot in Hs.
  destruct got as [p' [e|]]; unfold slot_phase; cbn [fst snd slot_spec] in *.
  - destruct Hs as [-> _].
    replace (M <| m_gens ::= <[r_gen r := p]> |>) with M
      by (destruct M; simpl in *; rewrite insert_id by done; done).
    assert (Hrej : accounts R M (reject r now parent e M)).
    { apply reject_accounts; [by rewrite <- Hr|eauto]. }
    destruct e; try exact Hrej.
    + apply regenerate_accounts; [by rewrite <- Hr|eauto|done|done].
    + split; [done|].
      apply (reject_accounts R (on_gen (r_gen r) (fun p => p <| capacityTimeouts ::= Z.succ |>) M)
               r now parent (ErrContext e)).
      * rewrite <- Hr. by apply exact_frame; [|eauto|].
      * apply lookup_alter_is_Some. eauto.
  - destruct Hs as (_ & Hrel & Hs). split; [done|]. simpl.
    split; [|rewrite lookup_insert_eq; eauto].
    eapply (exact_gen R (tokens_of r) _ M (r_gen r) p p'); try done.
    + assert (Hq : queued p' = queued p) by (by rewrite <- (releaseSlot_queued p'), Hrel).
      unfold gen_exact, tokens_of. rewrite Hph. simpl. unfold nowhere. rewrite Hq, at_gen_same.
      intros (? & ? & H). split_and!; try done.
      destruct (concSem p) as [[t c]|], (concSem p') as [[t' c']|]; try done. lia.
    + intros g' Hg'. unfold tokens_of. rewrite Hph. simpl. unfold nowhere. by rewrite (at_gen_other _ g').
    + unfold tokens_of. by rewrite Hph.
    + unfold tokens_of. by rewrite Hph.
Qed.

Lemma release_slot_exact R M r k :
  exact R k M -> is_Some (m_gens M !! r_gen r) ->
  k_s k = at_gen (r_gen r) ->
  exact R (Tokens (k_m k) (k_q k) nowhere (k_h k)) (on_gen (r_gen r) releaseSlot M).
Proof.
  intros Hex Hg Hk. eapply (exact_on_gen R k _ M (r_gen r)); try done.
  - intros p Hp. apply gen_exact_releaseSlot; [done|]. by rewrite Hk, at_gen_same.
  - intros g' Hg'. simpl. rewrite Hk. unfold nowhere. by rewrite at_gen_other.
Qed.

Lemma worker_phase_accounts R M r p made fresh now parent s a :
  exact R (tokens_of r) M -> r_phase r = HasSlot -> m_gens M !! r_gen r = Some p ->
  acquire_result (gen_state p M) s a ->
  m_gens M !! fresh = None -> (forall p, made = Ok p -> unused p) ->
  accounts R M (worker_phase made fresh r now parent s a M).
Proof.
  intros Hex Hph Hp Ha Hfresh Hmade. unfold worker_phase.
  set (M1 := on_gen_state (r_gen r) s M).
  assert (Hex1 : exact R (tokens_of r) M1).
  { apply (exact_state _ _ _ _ p); try done. by apply (acquire_result_tokens _ _ _ Ha). }
  assert (Hg1 : is_Some (m_gens M1 !! r_gen r)) by (simpl; rewrite lookup_insert_eq; eauto).
  assert (Hf1 : m_gens M1 !! fresh = None).
  { simpl. rewrite lookup_insert_ne; [done|]. intros <-. congruence. }
  assert (Hr1 : m_requests M1 = m_requests M) by done. clearbody M1.
  destruct a as [w cold|e| |].
  - split; [done|]. split; [|done]. cbn [fst]. unfold tokens_of in *. rewrite Hph in Hex1. done.
  - set (M2 := on_gen (r_gen r) releaseSlot M1).
    assert (Hex2 : exact R (tokens_of (r <| r_phase := Waiting |>)) M2).
    { pose proof (release_slot_exact R M1 r _ Hex1 Hg1) as H. unfold tokens_of in H. rewrite Hph in H.
      by apply H. }
    assert (Hg2 : is_Some (m_gens M2 !! r_gen r)) by (by apply lookup_alter_is_Some).
    assert (Hf2 : m_gens M2 !! fresh = None) by (simpl; by rewrite lookup_alter_None).
    case_bool_decide.
    + destruct (regenerate_accounts R M2 made fresh r Hex2 Hg2 Hf2 Hmade) as [H1 H2].
      split; [by rewrite H1|done].
    + destruct (reject_accounts R M2 r now parent e Hex2 Hg2) as [H1 H2]. split; [by rewrite H1|done].
  - by split.
  - by split.
Qed.

Lemma exact_host_up R k k' M l l' :
  exact R k M -> m_limiter M = Some l -> limiter_send l = Some (l', None) ->
  k_m k' = k_m k -> k_q k' = k_q k -> k_s k' = k_s k -> k_h k = 0 -> k_h k' = 1 ->
  exact R k' (M <| m_limiter := Some l' |>).
Proof.
  intros [Hq Hl Hg Hk Hh] El Hsend Em Eq Es H0 H1. rewrite El in Hh.
  unfold limiter_send in Hsend. destruct (Nat.ltb_spec (sem_taken l) (sem_cap l)); simplify_eq.
  split; simpl; rewrite ?Em; try done; [|rewrite H1; lia].
  intros g p Hp. specialize (Hg g p Hp). unfold gen_exact in *. by rewrite Eq, Es.
Qed.

Lemma exact_host_down R k k' M :
  exact R k M -> k_h k = 1 ->
  k_m k' = k_m k -> k_q k' = k_q k -> k_s k' = k_s k -> k_h k' = 0 ->
  exact R k' (M <| m_limiter ::= fmap limiter_Release |>).
Proof.
  intros [Hq Hl Hg Hk Hh] H1 Em Eq Es H0. pose proof (hosts_nonneg R).
  split; simpl; rewrite ?Em; try done.
  - intros g p Hp. specialize (Hg g p Hp). unfold gen_exact in *. by rewrite Eq, Es.
  - destruct (m_limiter M) as [l|]; simpl; [|done]. rewrite H0. lia.
Qed.

(** Give a leased worker and its slot back, then leave the queue rejected. *)
Lemma give_back_accounts R M r p w now parent e f :
  exact R (Tokens 1 (at_gen (r_gen r)) (at_gen (r_gen r)) 0) M -> m_gens M !! r_gen r = Some p ->
  (forall q, same_tokens q (f q)) ->
  accounts R M (reject r now parent e (on_gen (r_gen r) f (on_gen (r_gen r) releaseSlot
    (on_gen_state (r_gen r) (release_worker (gen_state p M) w false) M)))).
Proof.
  intros Hex Hp Hf. set (M1 := on_gen_state (r_gen r) _ M).
  assert (Hex1 : exact R (Tokens 1 (at_gen (r_gen r)) (at_gen (r_gen r)) 0) M1).
  { apply (exact_state _ _ _ _ p); [done|done|].
    apply (release_worker_tokens (gen_state p M)). }
  assert (Hg1 : is_Some (m_gens M1 !! r_gen r)) by (simpl; rewrite lookup_insert_eq; eauto).
  assert (Hr1 : m_requests M1 = m_requests M) by done. clearbody M1.
  pose proof (release_slot_exact R M1 r _ Hex1 Hg1 eq_refl) as Hex2.
  set (M2 := on_gen (r_gen r) releaseSlot M1) in *.
  assert (Hg2 : is_Some (m_gens M2 !! r_gen r)) by (by apply lookup_alter_is_Some).
  assert (Hex3 : exact R (tokens_of (r <| r_phase := Waiting |>)) (on_gen (r_gen r) f M2))
    by (by apply exact_frame).
  assert (Hg3 : is_Some (m_gens (on_gen (r_gen r) f M2) !! r_gen r)) by (by apply lookup_alter_is_Some).
  destruct (reject_accounts R _ r now parent e Hex3 Hg3) as [H1 H2]. split; [by rewrite H1|done].
Qed.

Lemma host_phase_accounts R M r w l now parent ctx pick got :
  exact R (tokens_of r) M -> is_Some (m_gens M !! r_gen r) -> r_phase r = HasWorker w ->
  m_limiter M = Some l -> limiter_Acquire pick ctx l = Some got ->
  accounts R M (host_phase r w now parent got M).
Proof.
  intros Hex [p Hp] Hph Hl Hacq. unfold limiter_Acquire in Hacq.
  apply go_select_in in Hacq as [Hacq|[? _]]; [|done].
  rewrite !elem_of_cons, elem_of_nil in Hacq. destruct Hacq as [Hs|[Hc|[]]].
  - destruct got as [l' [e|]]; [by unfold limiter_send in Hs; destruct (_ <? _)%nat|].
    unfold host_phase; cbn [fst snd]. split; [done|]. split; [|by exists p].
    eapply exact_host_up; try done; unfold tokens_of; by rewrite Hph.
  - destruct ctx as [c|]; simpl in Hc; [|done]. injection Hc as ->. unfold host_phase; cbn [fst snd].
    replace (M <| m_limiter := Some l |>) with M by (destruct M; simpl in *; by subst).
    rewrite Hp. apply give_back_accounts; [|done|done].
    unfold tokens_of in Hex. by rewrite Hph in Hex.
Qed.

Lemma hand_over_accounts R M r w now parent ctx :
  exact R (tokens_of r) M -> is_Some (m_gens M !! r_gen r) -> r_phase r = HasHost w ->
  accounts R M (hand_over r w now parent ctx M).
Proof.
  intros Hex [p Hp] Hph. unfold hand_over. rewrite Hp. destruct ctx as [e|].
  - set (M1 := M <| m_limiter ::= _ |>).
    assert (Hex1 : exact R (Tokens 1 (at_gen (r_gen r)) (at_gen (r_gen r)) 0) M1).
    { eapply (exact_host_down R (tokens_of r)); try done; unfold tokens_of; by rewrite Hph. }
    pose proof (give_back_accounts R M1 r p w now parent (ErrContext e) id Hex1 Hp) as H.
    destruct H as [H1 H2]; [done|].
    assert (Hid : forall N, on_gen (r_gen r) id N = N) by (intros []; unfold on_gen; simpl; by rewrite alter_id).
    rewrite Hid in H1, H2. by split.
  - split; [done|]. cbn [fst snd].
    split; [|simpl; apply lookup_alter_is_Some; eauto].
    unfold tokens_of in Hex. rewrite Hph in Hex.
    apply (exact_leave R (Tokens 1 nowhere (at_gen (r_gen r)) 1)); [|done].
    eapply (exact_on_gen R _ _ M (r_gen r)); [exact Hex|eauto| | |done|done].
    + intros q Hq. destruct (finishQueue_fields (r_at r) now false q).
      unshelve eapply (gen_exact_dequeue R _ _ _ _ _ Hq); try done. simpl. by rewrite at_gen_same.
    + intros g' Hg'. simpl. unfold nowhere. by rewrite at_gen_other.
Qed.

(** Taking one request aside, and putting it back. *)
Lemma exact_focus M i r :
  books_exact M -> m_requests M !! i = Some r ->
  exact (delete i (m_requests M)) (tokens_of r) M /\ is_Some (m_gens M !! r_gen r).
Proof.
  intros [Hq Hl Hg Hk Hh] Hi. split; [|by eapply Hk]. simpl in *.
  split; simpl; rewrite ?(msum_delete _ _ _ r) by done; try done.
  - lia.
  - intros g p Hp. specialize (Hg g p Hp). unfold gen_exact in *. simpl in *. unfold nowhere in *.
    rewrite !(msum_delete _ _ _ r) by done. destruct (concSem p) as [[]|]; split_and!; lia.
  - by apply map_Forall_delete.
  - destruct (m_limiter M); lia.
Qed.

Lemma exact_unfocus M i k :
  exact (delete i (m_requests M)) k M -> match m_requests M !! i with None => k = no_tokens | Some r =>
    k = tokens_of r /\ is_Some (m_gens M !! r_gen r) end -> books_exact M.
Proof.
  intros [Hq Hl Hg Hk Hh] Hi. destruct (m_requests M !! i) as [r|] eqn:E.
  - destruct Hi as [-> Hr]. split; simpl; try done.
    + rewrite (msum_delete _ _ _ r) in Hq by done. lia.
    + intros g p Hp. specialize (Hg g p Hp). unfold gen_exact in *. simpl in *. unfold nowhere.
      rewrite !(msum_delete _ _ _ r) in Hg by done. destruct (concSem p) as [[]|]; split_and!; lia.
    + intros j r' Hj. destruct (decide (j = i)) as [->|]; [by simplify_eq|].
      apply (Hk j). by rewrite lookup_delete_ne.
    + rewrite (msum_delete _ _ _ r) in Hh by done. destruct (m_limiter M); lia.
  - subst k. rewrite delete_id in * by done. by split.
Qed.

Lemma record_books M i o :
  accounts (delete i (m_requests M)) M o -> books_exact (record i o).
Proof.
  destruct o as [M' [e|r]]; intros [Hr Ho]; simpl in *.
  - apply (exact_unfocus _ i no_tokens); simpl; rewrite Hr.
    + rewrite delete_delete_eq. destruct Ho; by split.
    + by rewrite lookup_delete_eq.
  - destruct Ho as [Ho Hg]. apply (exact_unfocus _ i (tokens_of r)); simpl; rewrite Hr.
    + rewrite delete_insert_eq. destruct Ho; by split.
    + by rewrite lookup_insert_eq.
Qed.

(** [Release] of a served request, as a function of its generation. *)
Lemma Release_serving M i fnID g w at_ failed now p :
  m_requests M !! i = Some (Req fnID g (Serving w) at_) -> m_gens M !! g = Some p ->
  Release i failed now M =
  on_gen g releaseSlot
    (on_gen_state g (release_worker (gen_state (p <| sig ::= recordLatency (now - at_) |>) M) w failed) M)
    <| m_requests := delete i (m_requests M) |> <| m_limiter ::= fmap limiter_Release |>.
Proof.
  intros Hi Hp. unfold Release. rewrite Hi. unfold on_gen at 2. simpl.
  rewrite lookup_alter_eq, Hp. simpl. destruct M; unfold on_gen, on_gen_state, gen_state; simpl in *.
  f_equal. f_equal. apply map_eq. intros g'. destruct (decide (g' = g)) as [->|].
  - by rewrite !lookup_insert_eq.
  - by rewrite !lookup_insert_ne, lookup_alter_ne.
Qed.

Lemma Release_books M i failed now : books_exact M -> books_exact (Release i failed now M).
Proof.
  intros Hb. destruct (m_requests M !! i) as [[fnID g ph at_]|] eqn:Hi.
  2:{ unfold Release. by rewrite Hi. }
  destruct ph as [| |w|w|w]; try (unfold Release; by rewrite Hi).
  destruct (exact_focus _ _ _ Hb Hi) as [Hex [p Hp]]. simpl in Hp.
  rewrite (Release_serving _ _ _ _ _ _ _ _ _ Hi Hp).
  set (M1 := on_gen_state g _ M).
  assert (Hex1 : exact (delete i (m_requests M)) (Tokens 0 nowhere (at_gen g) 1) M1).
  { apply (exact_state _ _ _ _ p); [exact Hex|done|].
    destruct (release_worker_tokens (gen_state (p <| sig ::= recordLatency (now - at_) |>) M) w failed)
      as [Hq Hc]. split; [by rewrite Hq|by rewrite Hc]. }
  assert (Hg1 : is_Some (m_gens M1 !! g)) by (simpl; rewrite lookup_insert_eq; eauto). clearbody M1.
  pose proof (release_slot_exact _ M1 (Req fnID g Waiting 0) _ Hex1 Hg1 eq_refl) as Hex2.
  simpl in Hex2. pose proof (exact_host_down _ _ no_tokens _ Hex2 eq_refl eq_refl eq_refl eq_refl eq_refl) as Hex3.
  destruct Hex3. by split.
Qed.

Lemma retirePool_books M fnID : books_exact M -> books_exact (retirePool fnID M).
Proof.
  intros Hb. unfold retirePool. destruct (m_pools M !! fnID) as [g|]; [|done].
  set (M1 := M <| m_pools ::= delete fnID |>).
  assert (Hb1 : books_exact M1) by (destruct Hb; by split). clearbody M1.
  destruct (m_gens M1 !! g) as [p|] eqn:Hp; [|done].
  unfold books_exact. change (m_requests (on_gen_state _ _ M1)) with (m_requests M1).
  apply (exact_state _ _ _ _ p); [done|done|].
  unfold drain_idle. set (n := length _).
  destruct (drain_loop_tokens n (gen_state (markRetired p) M1)) as [Hq Hc].
  split; [by rewrite Hq|by rewrite Hc].
Qed.

Lemma books_exact_step M M' : mgr_step M M' -> books_exact M -> books_exact M'.
Proof.
  intros Hs Hb. destruct Hs;
    try match goal with
    | H : m_requests _ !! _ = Some _ |- _ => destruct (exact_focus _ _ _ Hb H) as [Hex Hg]; apply (record_books M i)
    end.
  - apply (record_books M i). rewrite delete_id by done. by apply enter_accounts.
  - apply reject_accounts; [|done]. destruct r; simpl in *; by subst.
  - by eapply slot_phase_accounts.
  - by eapply worker_phase_accounts.
  - by eapply host_phase_accounts.
  - split; [done|]. split; [|done]. simpl. unfold tokens_of in *. rewrite H0 in Hex. simpl in *.
    destruct Hex as [Hq Hl Hgs Hk Hh]. split; try done. by rewrite H1.
  - by apply hand_over_accounts.
  - by apply Release_books.
  - by apply retirePool_books.
  - eapply (exact_gen _ no_tokens no_tokens M g p p'); try done. by apply gen_exact_frame.
  - destruct Hb. by split.
Qed.

Lemma new_pool_unused mc hm fnID fn cfg : unused (new_pool mc hm fnID fn cfg).
Proof.
  unfold new_pool, unused. repeat (case_match; simplify_eq); simpl in *; simplify_eq; done.
Qed.

Lemma workerCPUUnits_pos cpus : 1 <= workerCPUUnits cpus.
Proof. unfold workerCPUUnits. repeat case_match; zbool; lia. Qed.

Lemma poolResourceCeiling_pos hm cpu bytes fmax :
  1 <= fst (poolResourceCeiling hm cpu bytes fmax) /\
  (hm <> None -> 0 < fmax -> fst (poolResourceCeiling hm cpu bytes fmax) <= fmax).
Proof.
  unfold poolResourceCeiling. destruct hm as [h|]; [|simpl; split; [lia|done]].
  cbv zeta.
  generalize (HostMem.effectiveCPUWorkers (Some h) * 1000 ÷ (if cpu <? 1 then 1000 else cpu)) as c.
  match goal with |- context [f_to_int ?x ÷ ?y] => generalize (f_to_int x ÷ y) as mem end. intros mem c.
  destruct (Z.ltb_spec mem 1), (Z.ltb_spec c 1), (Z.ltb_spec 0 fmax); cbn [andb];
    repeat (case_match; simplify_eq); simpl; zbool; (split; [lia|intros _ Hf; lia]).
Qed.

(* ------------------------------------------------------------------ *)
(** ** Properties *)

(** C1: bounded admission never leaks.  Along every interleaving of requests
    entering, expiring, being rejected, taking slots and workers, being served
    and released, with deploys and shutdown in between, the global queue
    counter, every generation's queue counter and concurrency semaphore and
    the host limiter count exactly the requests that hold a place there, stay
    within their limits, and are all zero when no request is left. *)
Theorem admission_tokens_exact M0 M :
  books_exact M0 -> rtc mgr_step M0 M ->
  m_queued M = msum (fun r => k_m (tokens_of r)) (m_requests M) /\ m_queued M <= fst (m_limits M) /\
  (forall g p, m_gens M !! g = Some p ->
     queued p = msum (fun r => k_q (tokens_of r) g) (m_requests M) /\ queued p <= snd (m_limits M) /\
     forall t cap, concSem p = Some (t, cap) ->
       Z.of_nat t = msum (fun r => k_s (tokens_of r) g) (m_requests M) /\ (t <= cap)%nat) /\
  (forall l, m_limiter M = Some l ->
     active l = msum (fun r => k_h (tokens_of r)) (m_requests M) /\ (sem_taken l <= sem_cap l)%nat) /\
  (m_requests M = ∅ ->
     m_queued M = 0 /\ (forall g p, m_gens M !! g = Some p -> queued p = 0) /\
     (forall g p t cap, m_gens M !! g = Some p -> concSem p = Some (t, cap) -> t = O) /\
     (forall l, m_limiter M = Some l -> active l = 0 /\ sem_taken l = O)).
Proof.
  intros H0 Hrun.
  assert (Hb : books_exact M) by (induction Hrun; eauto using books_exact_step).
  destruct Hb as [[Hq Hq'] Hl Hg Hk Hh]. simpl in *.
  assert (Hgen : forall g p, m_gens M !! g = Some p -> gen_exact (m_requests M) no_tokens (snd (m_limits M)) g p)
    by exact Hg.
  split_and!; [lia|done| | |].
  - intros g p Hp. destruct (Hgen g p Hp) as (H1 & H2 & H3). simpl in *. unfold nowhere in *.
    split_and!; [lia|done|]. intros t cap Hc. rewrite Hc in H3. lia.
  - intros l El. rewrite El in Hh. lia.
  - intros He. rewrite He, msum_empty in *. split_and!; [lia| | |].
    + intros g p Hp. destruct (Hgen g p Hp) as (H1 & _). rewrite msum_empty in H1. simpl in H1. unfold nowhere in H1. lia.
    + intros g p t cap Hp Hc. destruct (Hgen g p Hp) as (_ & _ & H3). rewrite Hc, msum_empty in H3.
      simpl in H3. unfold nowhere in H3. lia.
    + intros l El. rewrite El in Hh. lia.
Qed.

Definition demo_fn : Function :=
  Fn "fn-a" "hello" {[ "ORVA_FUNCTION_ID"%string := "forged"%string; "MODE"%string := "prod"%string ]}
     200 (fconst 5 10) 0 3 "" "egress" "handler.js" "".

Definition demo_cfg : ManagerConfig := MgrCfg 1 0 (10 * minute) 100.

Definition demo_manager : manager :=
  Mgr false 0 (2, 1) ∅ ∅ (Some (NewLimiter 8)) None ∅ ∅.

Lemma demo_manager_exact : books_exact demo_manager.
Proof. split; simpl; try done; try (rewrite msum_empty; simpl; lia). Qed.

Definition demo_entered : manager :=
  record 0 (enter (Ok (new_pool demo_cfg None "fn-a" demo_fn None)) 7 "fn-a" 5 demo_manager).

Lemma admission_tokens_exact_witness :
  rtc mgr_step demo_manager demo_entered /\ m_queued demo_entered = 1 /\
  m_queued demo_entered <= fst (m_limits demo_entered).
Proof.
  assert (Hrun : rtc mgr_step demo_manager demo_entered).
  { apply rtc_once. apply MEnter; [reflexivity|reflexivity|]. intros p [= <-]. apply new_pool_unused. }
  destruct (admission_tokens_exact demo_manager demo_entered demo_manager_exact Hrun) as (_ & Hle & _).
  split_and!; [exact Hrun|vm_compute; reflexivity|exact Hle].
Defined.

(** A release goes to the generation that handed the worker out.  No
    other generation and no published pool is touched, the request's slot and
    host slot are returned, releasing again does nothing, and if a deploy
    closed the generation meanwhile the worker is killed and never parked. *)
Theorem release_is_generation_bound M i fnID g w at_ failed now p :
  m_requests M !! i = Some (Req fnID g (Serving w) at_) -> m_gens M !! g = Some p ->
  let M' := Release i failed now M in
  (forall g', g' <> g -> m_gens M' !! g' = m_gens M !! g') /\
  m_pools M' = m_pools M /\ m_requests M' = delete i (m_requests M) /\
  m_limiter M' = limiter_Release <$> m_limiter M /\
  Release i failed now M' = M' /\
  exists p', m_gens M' !! g = Some p' /\ concSem p' = concSem (releaseSlot p) /\ busy p' = Z.pred (busy p) /\
    (closing p = true -> idle p' = idle p /\ workerReservations p' = delete w (workerReservations p) /\
                         m_workers M' = alter (fun wk => Worker true (Served wk)) w (m_workers M)).
Proof.
  intros Hi Hp M'. subst M'. rewrite (Release_serving _ _ _ _ _ _ _ _ _ Hi Hp).
  set (s := gen_state _ M). set (s' := release_worker s w failed).
  split_and!; try done.
  - intros g' Hg'. simpl. by rewrite lookup_alter_ne, lookup_insert_ne.
  - unfold Release. simpl. by rewrite lookup_delete_eq.
  - exists (releaseSlot (pool s')).
    assert (Hclose : closing p = true -> s' = killWorker (release_begin s) w).
    { intros Hcl. unfold s', release_worker. by rewrite release_park_closing. }
    assert (Hrel : forall q, busy (releaseSlot q) = busy q /\ idle (releaseSlot q) = idle q /\
      workerReservations (releaseSlot q) = workerReservations q /\
      (concSem q = concSem p -> concSem (releaseSlot q) = concSem (releaseSlot p))).
    { intros q. unfold releaseSlot. destruct (concSem q) as [[[|t] c]|] eqn:E; simpl; split_and!; try done;
        intros Hs; rewrite <- Hs; simpl; congruence. }
    destruct (Hrel (pool s')) as (Hb & Hid & Hres & Hsem). split_and!.
    + simpl. by rewrite lookup_alter_eq, lookup_insert_eq.
    + apply Hsem. by destruct (release_worker_tokens s w failed).
    + rewrite Hb. unfold s', release_worker, release_park, push_idle. by repeat case_match; simplify_eq.
    + intros Hcl. rewrite Hid, Hres. pose proof (Hclose Hcl) as E. split_and!; [by rewrite E|by rewrite E|].
      transitivity (workers s'); [done|by rewrite E].
Qed.

Definition demo_serving : manager :=
  demo_manager <| m_gens := {[ 7%nat := new_pool demo_cfg None "fn-a" demo_fn None ]} |>
               <| m_requests := {[ 3%nat := Req "fn-a" 7 (Serving 1) 5 ]} |>
               <| m_workers := {[ 1%nat := Worker false 4 ]} |>.

Lemma release_is_generation_bound_witness :
  m_requests (Release 3 false 9 demo_serving) = ∅ /\
  Release 3 false 9 (Release 3 false 9 demo_serving) = Release 3 false 9 demo_serving.
Proof.
  destruct (release_is_generation_bound demo_serving 3 "fn-a" 7 1 5 false 9
              (new_pool demo_cfg None "fn-a" demo_fn None) eq_refl eq_refl) as (_ & _ & Hr & _ & Hid & _).
  split; [rewrite Hr; reflexivity|exact Hid].
Defined.

(** Retiring a function's pool unpublishes and closes that generation
    and kills everything it had parked, leaving other generations alone; a
    request that then asks for the function's pool gets a freshly configured
    generation, never the retired one. *)
Theorem retire_then_recreate M fnID g p fresh p' :
  m_pools M !! fnID = Some g -> m_gens M !! g = Some p -> m_closing M = false -> fresh <> g ->
  let M' := retirePool fnID M in
  m_pools M' = delete fnID (m_pools M) /\
  (forall g', g' <> g -> m_gens M' !! g' = m_gens M !! g') /\
  (exists q, m_gens M' !! g = Some q /\ closing q = true /\ retired q = true /\ idle q = [] /\
             queued q = queued p /\ concSem q = concSem p /\ busy q = busy p) /\
  snd (getOrCreatePool (Ok p') fresh fnID M') = Ok fresh /\
  m_gens (fst (getOrCreatePool (Ok p') fresh fnID M')) !! fresh = Some p'.
Proof.
  intros Hf Hg Hcl Hne M'. subst M'. unfold retirePool. rewrite Hf. simpl. rewrite Hg.
  set (s := drain_idle _).
  split_and!.
  - done.
  - intros g' Hg'. simpl. by rewrite lookup_insert_ne.
  - exists (pool s). split; [simpl; by rewrite lookup_insert_eq|].
    assert (Hd : forall n s0, let q := pool (drain_loop n s0) in
      closing q = closing (pool s0) /\ retired q = retired (pool s0) /\ queued q = queued (pool s0) /\
      concSem q = concSem (pool s0) /\ busy q = busy (pool s0) /\ idle q = drop n (idle (pool s0))).
    { clear. induction n as [|n IH]; intros s0; simpl; [by rewrite drop_0|].
      unfold pop_idle. destruct (idle (pool s0)) as [|w rest] eqn:E; [by rewrite E|].
      match goal with |- context [drain_loop n ?s1] => destruct (IH s1) as (-> & -> & -> & -> & -> & ->) end.
      done. }
    unfold s, drain_idle. set (n := length _).
    match goal with |- context [drain_loop n ?s0] => destruct (Hd n s0) as (-> & -> & -> & -> & -> & ->) end.
    split_and!; try done. unfold n. by apply drop_ge.
  - unfold getOrCreatePool. simpl. rewrite lookup_delete_eq, Hcl. done.
  - unfold getOrCreatePool. simpl. rewrite lookup_delete_eq, Hcl. simpl. by rewrite lookup_insert_eq.
Qed.

Lemma retire_then_recreate_witness :
  snd (getOrCreatePool (Ok (new_pool demo_cfg None "fn-a" demo_fn None)) 8 "fn-a"
         (retirePool "fn-a" (demo_serving <| m_pools := {[ "fn-a"%string := 7%nat ]} |>))) = Ok 8%nat.
Proof.
  apply (retire_then_recreate (demo_serving <| m_pools := {[ "fn-a"%string := 7%nat ]} |>) "fn-a" 7
           (new_pool demo_cfg None "fn-a" demo_fn None) 8); [reflexivity|reflexivity|reflexivity|lia].
Defined.

(** Every pool is born well-formed, whatever the function row and the
    pool_config row contain (negative or overflowing values included): at
    least one worker is allowed, the warm minimum does not exceed the maximum,
    the idle channel holds the maximum, the published ceiling is between one
    and the maximum, each worker is charged at least 16 MiB and one CPU unit,
    and the maximum respects the operator's and the function's own limits. *)
Theorem new_pool_wellformed mc hm fnID fn cfg :
  let p := new_pool mc hm fnID fn cfg in
  1 <= max_warm p /\ min_warm p <= max_warm p /\ Z.of_nat (idle_cap p) = max_warm p /\
  1 <= dynamicMax p <= max_warm p /\ 16777216 <= memoryBytes p /\ 1 <= cpuUnits p /\
  idle p = [] /\ busy p = 0 /\ spawning p = 0 /\ closing p = false /\
  concSem p = (if 0 <? MaxConcurrency fn then Some (O, Z.to_nat (MaxConcurrency fn)) else None) /\
  (hm <> None -> 0 < MaxConcurrency fn -> max_warm p <= MaxConcurrency fn) /\
  (forall c, cfg = Some c -> 0 < MaxWarm c -> max_warm p <= MaxWarm c).
Proof.
  intros p. subst p. unfold new_pool.
  set (mem := if wrap64 (MemoryMB fn * 1572864) <? 16777216 then 16777216 else wrap64 (MemoryMB fn * 1572864)).
  assert (Hmem : 16777216 <= mem) by (unfold mem; split_ifs; lia). clearbody mem.
  set (cfg' := match cfg with Some c => _ | None => _ end).
  assert (Hcfg : forall c, cfg = Some c -> snd (fst (fst cfg')) = MaxWarm c) by (intros c ->; reflexivity).
  destruct cfg' as [[[minW maxW] ttl] tz]. simpl in Hcfg.
  pose proof (workerCPUUnits_pos (CPUs fn)). set (cpu := workerCPUUnits (CPUs fn)) in *.
  pose proof (poolResourceCeiling_pos hm cpu mem (MaxConcurrency fn)) as [Hc1 Hc2].
  destruct (poolResourceCeiling hm cpu mem (MaxConcurrency fn)) as [rmax why]. simpl in Hc1, Hc2.
  set (final := if (0 <? maxW) && (maxW <? rmax) then (maxW, "operator_max"%string) else (rmax, why)).
  assert (Hfin : 1 <= fst final <= rmax /\ (0 < maxW -> fst final <= maxW)).
  { unfold final. destruct (Z.ltb_spec 0 maxW), (Z.ltb_spec maxW rmax); simpl; lia. }
  destruct final as [mx reason]. simpl in Hfin.
  set (init := match hm with None => mx | Some h => _ end).
  assert (Hinit : init <= mx) by (unfold init; repeat (case_match; simplify_eq); zbool; lia). clearbody init.
  cbn [max_warm min_warm idle_cap dynamicMax memoryBytes cpuUnits idle busy spawning closing concSem].
  split_and!; try done; try lia.
  - split_ifs; lia.
  - split_ifs; lia.
  - split_ifs; lia.
  - intros Hh Hm. specialize (Hc2 Hh Hm). lia.
  - intros c Hc Hpos. rewrite <- (Hcfg c Hc) in *. lia.
Qed.
