(* ===== verification/KV.v ===== *)
(** * The key-value store ([database/kv.go])

    Every operation of the per-function store: validation, expiry, upsert,
    compare-and-swap, counters, paging and batches.  The table is a map from
    (function, key) to rows, an SQL statement is the relational operation it
    denotes, and times are instants (nanoseconds).  [functions] is the parent
    table of the foreign key. *)
From S2P Require Import Prelude GoText.
Open Scope Z_scope.

Inductive kv_error :=
| ErrKVNotFound
| ErrKVKey (msg : string)
| ErrKVValue (msg : string)
| ErrKVExpected (msg : string)
| ErrKVTTL (msg : string)
| ErrKVNotInteger
| ErrKVBatchSize
| ErrKVBatchOp (op : string)
| ErrKVForeignKey.

Record row := Row { r_value : string; expires_at : option Z; created_at : Z; updated_at : Z }.

Record kvdb := KVDB { functions : gset string; kv_store : gmap (string * string) row }.

#[export] Instance row_eta : Eta row := fun r =>
  Row (r_value r) (expires_at r) (created_at r) (updated_at r).
#[export] Instance kvdb_eta : Eta kvdb := fun d => KVDB (functions d) (kv_store d).

Record KVEntry := Entry { FunctionID : string; Key : string; e_row : row }.

(* ------------------------------------------------------------------ *)
(** ** Validation *)

Definition KVMaxKeyRunes : Z := 256.
Definition KVMaxValueBytes : Z := 65536.

Definition ValidateKVKey (key : string) : option kv_error :=
  if bool_decide (key = ""%string) then Some (ErrKVKey "kv: key is required")
  else if negb (validUTF8 key) then Some (ErrKVKey "kv: key must be valid UTF-8")
  else if KVMaxKeyRunes <? runeCount key then Some (ErrKVKey "kv: key exceeds 256 characters")
  else None.

Definition ValidateKVValue (value : string) : option kv_error :=
  if bool_decide (value = ""%string) || negb (json_valid value) then Some (ErrKVValue "kv: value must be valid JSON")
  else if KVMaxValueBytes <? len value then Some (ErrKVValue "kv: value exceeds 64 KB")
  else None.

Definition ValidateKVTTL (ttlSeconds : option Z) : option kv_error :=
  match ttlSeconds with
  | None => None
  | Some t =>
    if t <? 0 then Some (ErrKVTTL "kv: ttl_seconds must be >= 0")
    else if Z.quot int64_max second <? t then Some (ErrKVTTL "kv: ttl_seconds is too large")
    else None
  end.

(** Return the error of a validation, or go on. *)
Notation "'check' e 'in' k" := (match e with Some err => Err err | None => k end)
  (at level 10, e at level 100, k at level 200) : orva_scope.

(* ------------------------------------------------------------------ *)
(** ** Single-key operations *)

(** [now.Add(ttl * time.Second)]; the product is a [time.Duration]. *)
Definition ttl_expiry (now ttl : Z) : Z := now + wrap64 (ttl * second).

(** The insert-or-update statement of [KVPut] and of a batch put. *)
Definition upsert (now : Z) (fid key value : string) (ttl : option Z) (db : kvdb) : res kv_error kvdb :=
  let specified := match ttl with Some _ => true | None => false end in
  let excluded := match ttl with Some t => if 0 <? t then Some (ttl_expiry now t) else None | None => None end in
  match kv_store db !! (fid, key) with
  | Some old =>
    let exp := if specified then excluded
               else match expires_at old with
                    | Some e => if e <=? now then None else Some e
                    | None => None
                    end in
    Ok (db <| kv_store ::= <[(fid, key) := Row value exp (created_at old) now]> |>)
  | None =>
    if decide (fid ∈ functions db)
    then Ok (db <| kv_store ::= <[(fid, key) := Row value excluded now now]> |>)
    else Err ErrKVForeignKey
  end.

Definition KVPut (now : Z) (fid key value : string) (ttl : option Z) (db : kvdb) : res kv_error kvdb :=
  check ValidateKVKey key in
  check ValidateKVValue value in
  check ValidateKVTTL ttl in
  upsert now fid key value ttl db.

(** [expires.Time.Before(now)]. *)
Definition expired_before (now : Z) (r : row) : bool :=
  match expires_at r with Some e => e <? now | None => false end.

(** The row as a reader sees it. *)
Definition visible (now : Z) (fid key : string) (db : kvdb) : option row :=
  match kv_store db !! (fid, key) with
  | Some r => if expired_before now r then None else Some r
  | None => None
  end.

Definition KVGet (now : Z) (fid key : string) (db : kvdb) : res kv_error KVEntry :=
  check ValidateKVKey key in
  match visible now fid key db with
  | Some r => Ok (Entry fid key r)
  | None => Err ErrKVNotFound
  end.

Definition KVDelete (fid key : string) (db : kvdb) : res kv_error kvdb :=
  check ValidateKVKey key in
  Ok (db <| kv_store ::= delete (fid, key) |>).

Definition KVSweepExpired (now : Z) (db : kvdb) : kvdb * Z :=
  let gone r := match expires_at r with Some e => e <=? now | None => false end in
  let kept := filter (fun kr => gone (kr.2) = false) (kv_store db) in
  (db <| kv_store := kept |>, Z.of_nat (size (kv_store db)) - Z.of_nat (size kept)).

(* ------------------------------------------------------------------ *)
(** ** Counters *)

Inductive num_error := NumEmpty | NumNoDigits | NumNonDigit.

Fixpoint fmtInt_digits (n : Z) (s : string) : res num_error Z :=
  match s with
  | EmptyString => Ok n
  | String c s =>
    if (ord c <? 48) || (57 <? ord c) then Err NumNonDigit
    else fmtInt_digits (wrap64 (wrap64 (n * 10) + (ord c - 48))) s
  end.

Definition fmtInt (s : string) : res num_error Z :=
  match s with
  | EmptyString => Err NumEmpty
  | String c r =>
    let '(neg, rest) :=
      if ord c =? 45 then (true, r) else if ord c =? 43 then (false, r) else (false, s) in
    match rest with
    | EmptyString => Err NumNoDigits
    | _ =>
      match fmtInt_digits 0 rest with
      | Ok n => Ok (if neg then wrap64 (- n) else n)
      | Err e => Err e
      end
    end
  end.

(** The digit loop fills the 20-byte buffer from the right. *)
Fixpoint fmtIntStr_loop (fuel : nat) (n : Z) (acc : string) : string :=
  match fuel with
  | O => acc
  | S fuel => if 0 <? n then fmtIntStr_loop fuel (Z.quot n 10) (String (chr (48 + Z.rem n 10)) acc) else acc
  end.

Definition decimal (n : Z) : string := fmtIntStr_loop 20 n "".

Definition fmtIntStr (n : Z) : string :=
  if n =? 0 then "0"
  else
    let '(neg, n) := if n <? 0 then (true, wrap64 (- n)) else (false, n) in
    let s := decimal n in
    if neg then String (chr 45) s else s.

(** Strip one pair of double quotes. *)
Definition unquote (s : string) : string :=
  match s with
  | String c r =>
    if (ord c =? 34) && (2 <=? len s) then
      match String.get (String.length s - 1) s with
      | Some d => if ord d =? 34 then String.substring 1 (String.length s - 2) s else s
      | None => s
      end
    else s
  | EmptyString => s
  end.

(** Expiry written by [KVIncr] and [KVCAS]; [present] is whether a live row existed. *)
Definition next_expiry (now : Z) (ttl : option Z) (present : option row) : option Z :=
  match ttl with
  | Some t => if 0 <? t then Some (ttl_expiry now t) else None
  | None => match present with Some r => expires_at r | None => None end
  end.

(** The closing UPDATE or INSERT of a read-modify-write transaction. *)
Definition write_row (now : Z) (fid key value : string) (exp : option Z) (db : kvdb) : res kv_error kvdb :=
  match kv_store db !! (fid, key) with
  | Some old => Ok (db <| kv_store ::= <[(fid, key) := Row value exp (created_at old) now]> |>)
  | None =>
    if decide (fid ∈ functions db)
    then Ok (db <| kv_store ::= <[(fid, key) := Row value exp now now]> |>)
    else Err ErrKVForeignKey
  end.

Definition KVIncr (now : Z) (fid key : string) (delta : Z) (ttl : option Z) (db : kvdb)
  : res kv_error (kvdb * Z) :=
  check ValidateKVKey key in
  check ValidateKVTTL ttl in
  let present := visible now fid key db in
  let current := match present with Some r => fmtInt (unquote (r_value r)) | None => Ok 0 end in
  match current with
  | Err _ => Err ErrKVNotInteger
  | Ok current =>
    let next := wrap64 (current + delta) in
    match write_row now fid key (fmtIntStr next) (next_expiry now ttl present) db with
    | Ok db => Ok (db, next)
    | Err e => Err e
    end
  end.

(* ------------------------------------------------------------------ *)
(** ** Compare-and-swap *)

Fixpoint bytesEq_loop (a b : string) : bool :=
  match a, b with
  | String x a, String y b => if negb (ord x =? ord y) then false else bytesEq_loop a b
  | _, _ => true
  end.

Definition bytesEq (a b : string) : bool :=
  if negb (String.length a =? String.length b)%nat then false else bytesEq_loop a b.

Inductive cas_result := Swapped | NotSwapped (current : option string).

Definition KVCAS (now : Z) (fid key : string) (expected : option string) (newValue : string) (ttl : option Z)
    (db : kvdb) : res kv_error (kvdb * cas_result) :=
  check ValidateKVKey key in
  check ValidateKVValue newValue in
  check (match expected with
         | Some e => match ValidateKVValue e with Some (ErrKVValue m) => Some (ErrKVExpected m) | Some err => Some err | None => None end
         | None => None
         end) in
  check ValidateKVTTL ttl in
  let present := visible now fid key db in
  let matches := match expected, present with
                 | None, None => true
                 | Some e, Some r => bytesEq (r_value r) e
                 | _, _ => false
                 end in
  if matches then
    match write_row now fid key newValue (next_expiry now ttl present) db with
    | Ok db => Ok (db, Swapped)
    | Err e => Err e
    end
  else Ok (db, NotSwapped (r_value <$> present)).

(* ------------------------------------------------------------------ *)
(** ** Batches *)

Record KVBatchOp := BatchOp { b_op : string; b_key : string; b_value : string; b_ttl : option Z }.

Record KVBatchResult := BatchResult {
  br_op : string; br_key : string; br_found : bool; br_value : option string; br_expires : option Z
}.

Definition validate_op (op : KVBatchOp) : option kv_error :=
  match ValidateKVKey (b_key op) with
  | Some e => Some e
  | None =>
    if bool_decide (b_op op = "get"%string) || bool_decide (b_op op = "delete"%string) then None
    else if bool_decide (b_op op = "put"%string) then
      match ValidateKVValue (b_value op) with Some e => Some e | None => ValidateKVTTL (b_ttl op) end
    else Some (ErrKVBatchOp (b_op op))
  end.

Fixpoint validate_ops (ops : list KVBatchOp) : option kv_error :=
  match ops with
  | [] => None
  | op :: ops => match validate_op op with Some e => Some e | None => validate_ops ops end
  end.

(** One operation inside the transaction. *)
Definition batch_op (now : Z) (fid : string) (op : KVBatchOp) (db : kvdb) : res kv_error (kvdb * KVBatchResult) :=
  let blank := BatchResult (b_op op) (b_key op) false None None in
  if bool_decide (b_op op = "get"%string) then
    match visible now fid (b_key op) db with
    | None => Ok (db, blank)
    | Some r => Ok (db, BatchResult (b_op op) (b_key op) true (Some (r_value r)) (expires_at r))
    end
  else if bool_decide (b_op op = "put"%string) then
    match upsert now fid (b_key op) (b_value op) (b_ttl op) db with
    | Ok db => Ok (db, BatchResult (b_op op) (b_key op) true None None)
    | Err e => Err e
    end
  else if bool_decide (b_op op = "delete"%string) then
    let found := bool_decide (is_Some (kv_store db !! (fid, b_key op))) in
    Ok (db <| kv_store ::= delete (fid, b_key op) |>, BatchResult (b_op op) (b_key op) found None None)
  else Err (ErrKVBatchOp (b_op op)).

Fixpoint batch_loop (now : Z) (fid : string) (ops : list KVBatchOp) (db : kvdb)
  : res kv_error (kvdb * list KVBatchResult) :=
  match ops with
  | [] => Ok (db, [])
  | op :: ops =>
    match batch_op now fid op db with
    | Err e => Err e
    | Ok (db, r) =>
      match batch_loop now fid ops db with
      | Err e => Err e
      | Ok (db, rs) => Ok (db, r :: rs)
      end
    end
  end.

(** The transaction commits the loop's final state or nothing. *)
Definition KVBatch (now : Z) (fid : string) (ops : list KVBatchOp) (db : kvdb)
  : kvdb * res kv_error (list KVBatchResult) :=
  match ops with
  | [] => (db, Ok [])
  | _ =>
    if 100 <? Z.of_nat (length ops) then (db, Err ErrKVBatchSize)
    else
      match validate_ops ops with
      | Some e => (db, Err e)
      | None =>
        match batch_loop now fid ops db with
        | Err e => (db, Err e)
        | Ok (db', rs) => (db', Ok rs)
        end
      end
  end.

(* ------------------------------------------------------------------ *)
(** ** Listing *)

Definition fold_case (b : Z) : Z := if (65 <=? b) && (b <=? 90) then b + 32 else b.

Fixpoint skip_cont (l : list Z) : list Z :=
  match l with b :: r => if is_cont b then skip_cont r else l | [] => [] end.

(** SQLite's [LIKE]: [%] is any sequence, [_] one character, and ASCII letters
    match regardless of case. *)
Fixpoint like (p : list Z) : list Z -> bool :=
  match p with
  | [] => fun s => match s with [] => true | _ => false end
  | c :: p =>
    if c =? 37 then
      fix star (s : list Z) : bool := like p s || match s with [] => false | _ :: s => star s end
    else if c =? 95 then
      fun s => match s with [] => false | d :: s => like p (if 192 <=? d then skip_cont s else s) end
    else fun s => match s with [] => false | d :: s => (fold_case c =? fold_case d) && like p s end
  end.

Definition live (now : Z) (r : row) : bool :=
  match expires_at r with Some e => now <? e | None => true end.

(** The WHERE clause: function, optional LIKE prefix, optional cursor, expiry. *)
Definition selects (now : Z) (fid prefix cursor : string) (k : string) (db : kvdb) : bool :=
  match kv_store db !! (fid, k) with
  | None => false
  | Some r =>
    live now r &&
    (bool_decide (prefix = ""%string) || like (bytes (prefix +:+ "%")) (bytes k)) &&
    (bool_decide (cursor = ""%string) || bool_decide (str_lt cursor k))
  end.

Definition keys_of (fid : string) (db : kvdb) : list string :=
  omap (fun fk : (string * string) * row => if decide (fk.1.1 = fid) then Some fk.1.2 else None)
       (map_to_list (kv_store db)).

(** The selected keys in the order of ORDER BY key ASC. *)
Definition select_keys (now : Z) (fid prefix cursor : string) (db : kvdb) : list string :=
  merge_sort str_le (filter (fun k => selects now fid prefix cursor k db = true) (keys_of fid db)).

Definition fetch (fid : string) (db : kvdb) (k : string) : option KVEntry :=
  Entry fid k <$> kv_store db !! (fid, k).

Definition page_limit (limit : Z) : nat :=
  Z.to_nat (if (limit <=? 0) || (1000 <? limit) then 100 else limit).

Definition KVList (now : Z) (fid prefix : string) (limit : Z) (db : kvdb) : list KVEntry :=
  omap (fetch fid db) (take (page_limit limit) (select_keys now fid prefix "" db)).

Definition KVCount (now : Z) (fid : string) (db : kvdb) : Z :=
  Z.of_nat (length (filter (fun k => selects now fid "" "" k db = true) (keys_of fid db))).

Record KVListPage := Page { Entries : list KVEntry; NextCursor : string }.

Definition KVListWithCursor (now : Z) (fid prefix cursor : string) (limit : Z) (db : kvdb) : KVListPage :=
  let limit := page_limit limit in
  let out := omap (fetch fid db) (take (S limit) (select_keys now fid prefix cursor db)) in
  if (limit <? length out)%nat then
    Page (take limit out) (match out !! (limit - 1)%nat with Some e => Key e | None => ""%string end)
  else Page out "".

(** A client that follows the cursors. *)
Fixpoint all_pages (fuel : nat) (now : Z) (fid prefix cursor : string) (limit : Z) (db : kvdb) : list KVEntry :=
  match fuel with
  | O => []
  | S fuel =>
    let page := KVListWithCursor now fid prefix cursor limit db in
    Entries page ++
    (if bool_decide (NextCursor page = ""%string) then []
     else all_pages fuel now fid prefix (NextCursor page) limit db)
  end.

(* ------------------------------------------------------------------ *)
(** ** Lemmas *)

Lemma elem_of_keys fid db k : k ∈ keys_of fid db <-> is_Some (kv_store db !! (fid, k)).
Proof.
  unfold keys_of. rewrite list_elem_of_omap. split.
  - intros ([[f k'] r] & Hin & Hd). simpl in Hd. case_decide; simplify_eq.
    apply elem_of_map_to_list in Hin. eauto.
  - intros [r Hr]. exists ((fid, k), r). split; [by apply elem_of_map_to_list|]. simpl.
    by rewrite decide_True.
Qed.

Lemma keys_of_nodup fid db : NoDup (keys_of fid db).
Proof.
  unfold keys_of. pose proof (NoDup_fst_map_to_list (kv_store db)) as Hnd.
  induction (map_to_list (kv_store db)) as [|[[f k] r] l IH]; simpl; [constructor|].
  simpl in Hnd. apply NoDup_cons in Hnd as [Hni Hnd]. case_decide as Hf; [|by apply IH]. subst f.
  constructor; [|by apply IH]. rewrite list_elem_of_omap. intros ([[f' k'] r'] & Hin & Hd).
  simpl in Hd. case_decide; simplify_eq. apply Hni. apply list_elem_of_fmap. by exists ((fid, k), r').
Qed.

Lemma select_keys_nodup now fid prefix cursor db : NoDup (select_keys now fid prefix cursor db).
Proof.
  unfold select_keys. rewrite merge_sort_Permutation. apply NoDup_filter, keys_of_nodup.
Qed.

Lemma select_keys_sorted now fid prefix cursor db :
  StronglySorted str_le (select_keys now fid prefix cursor db).
Proof. apply StronglySorted_merge_sort; tc_solve. Qed.

Lemma elem_of_select now fid prefix cursor db k :
  k ∈ select_keys now fid prefix cursor db <-> selects now fid prefix cursor k db = true.
Proof.
  unfold select_keys. rewrite merge_sort_Permutation, list_elem_of_filter, elem_of_keys. split; [tauto|].
  intros H. split; [done|]. unfold selects in H. destruct (kv_store db !! (fid, k)); [eauto|done].
Qed.

(** The entry of a key that is in the table. *)
Definition entry_at (fid : string) (db : kvdb) (k : string) : KVEntry :=
  Entry fid k (default (Row "" None 0 0) (kv_store db !! (fid, k))).

Lemma fetch_select now fid prefix cursor db (ks : list string) :
  Forall (fun k => selects now fid prefix cursor k db = true) ks ->
  omap (fetch fid db) ks = entry_at fid db <$> ks.
Proof.
  induction 1 as [|k ks Hk _ IH]; [done|]. rewrite fmap_cons, <- IH.
  assert (Hf : fetch fid db k = Some (entry_at fid db k)).
  { unfold fetch, entry_at, selects in *. by destruct (kv_store db !! (fid, k)). }
  simpl. by rewrite Hf.
Qed.

Lemma selected_all now fid prefix cursor db ks :
  ks ⊆ select_keys now fid prefix cursor db ->
  Forall (fun k => selects now fid prefix cursor k db = true) ks.
Proof. intros Hs. apply Forall_forall. intros k Hk. by apply elem_of_select, Hs. Qed.

Lemma StronglySorted_filter (P : string -> Prop) `{forall k, Decision (P k)} l :
  StronglySorted str_le l -> StronglySorted str_le (filter P l).
Proof.
  induction 1 as [|k l Hs IH Hall]; [constructor|]. rewrite filter_cons. case_decide; [|done].
  constructor; [done|]. rewrite Forall_forall in Hall |- *. intros x Hx.
  apply list_elem_of_filter in Hx as [_ Hx]. by apply Hall.
Qed.

(** The tail of a strictly sorted list after one of its elements. *)
Lemma sorted_after (l1 l2 : list string) x :
  StronglySorted str_le (l1 ++ x :: l2) -> NoDup (l1 ++ x :: l2) ->
  filter (fun k => str_lt x k) (l1 ++ x :: l2) = l2.
Proof.
  intros Hs Hnd. rewrite filter_app, filter_cons.
  assert (Hx : ~ str_lt x x) by (rewrite str_lt_spec; tauto).
  rewrite decide_False by done.
  assert (H1 : filter (fun k => str_lt x k) l1 = []).
  { induction l1 as [|a l1 IH]; [done|].
    inversion Hs as [|? ? Hs' Hall]; subst. apply NoDup_cons in Hnd as [_ Hnd].
    rewrite filter_cons, decide_False, IH; try done. rewrite str_lt_spec. intros [Hle Hne].
    apply Hne. apply (anti_symm str_le); [done|]. rewrite Forall_forall in Hall. apply Hall. set_solver. }
  rewrite H1. simpl. assert (H2 : Forall (fun k => str_lt x k) l2).
  { apply Forall_forall. intros y Hy. rewrite str_lt_spec. split.
    - clear - Hs Hy. induction l1 as [|a l1 IH]; simpl in Hs; inversion Hs as [|? ? Hs' Hall]; subst; [|by apply IH].
      rewrite Forall_forall in Hall. by apply Hall.
    - intros ->. apply NoDup_app in Hnd as (_ & _ & Hnd). apply NoDup_cons in Hnd as [Hni _]. done. }
  clear - H2. induction H2 as [|y l2 Hy _ IH]; [done|]. by rewrite filter_cons, decide_True, IH.
Qed.

Lemma select_after now fid prefix c db :
  c <> ""%string ->
  select_keys now fid prefix c db = filter (fun k => str_lt c k) (select_keys now fid prefix "" db).
Proof.
  intros Hc. apply (StronglySorted_unique str_le).
  - apply select_keys_sorted.
  - apply StronglySorted_filter, select_keys_sorted.
  - apply NoDup_Permutation; [apply select_keys_nodup|apply NoDup_filter, select_keys_nodup|].
    intros k. rewrite list_elem_of_filter, !elem_of_select. unfold selects.
    destruct (kv_store db !! (fid, k)); [|intuition done].
    rewrite (bool_decide_false (c = ""%string)) by done. simpl.
    rewrite !andb_true_iff, bool_decide_eq_true. tauto.
Qed.

Lemma page_limit_pos limit : (0 < page_limit limit)%nat.
Proof. unfold page_limit. split_ifs; lia. Qed.

(** One page: a prefix of the selection, and the cursor that resumes after it. *)
Lemma page_spec now fid prefix cursor limit db :
  let L := select_keys now fid prefix cursor db in
  let n := page_limit limit in
  KVListWithCursor now fid prefix cursor limit db =
  if (n <? length L)%nat then Page (entry_at fid db <$> take n L) (default ""%string (L !! (n - 1)%nat))
  else Page (entry_at fid db <$> L) "".
Proof.
  intros L n. unfold KVListWithCursor. fold n L. pose proof (page_limit_pos limit) as Hn. fold n in Hn.
  rewrite fetch_select with (now := now) (prefix := prefix) (cursor := cursor)
    by (apply selected_all; intros k Hk; fold L; rewrite <- (take_drop (S n) L); apply elem_of_app; by left).
  rewrite length_fmap, length_take.
  destruct (Nat.ltb_spec n (length L)) as [Hlt|Hge].
  - destruct (Nat.ltb_spec n (S n `min` length L)); [|lia]. f_equal.
    + by rewrite <- fmap_take, take_take, Nat.min_l by lia.
    + rewrite list_lookup_fmap, lookup_take_lt by lia.
      by destruct (L !! (n - 1)%nat).
  - destruct (Nat.ltb_spec n (S n `min` length L)); [lia|]. by rewrite take_ge by lia.
Qed.

Lemma all_pages_spec now fid prefix limit db fuel : forall cursor,
  (forall k r, kv_store db !! (fid, k) = Some r -> k <> ""%string) ->
  (length (select_keys now fid prefix cursor db) < fuel)%nat ->
  all_pages fuel now fid prefix cursor limit db = entry_at fid db <$> select_keys now fid prefix cursor db.
Proof.
  induction fuel as [|fuel IH]; intros cursor Hne Hfuel; [lia|]. cbn [all_pages].
  rewrite page_spec. set (L := select_keys now fid prefix cursor db) in *. set (n := page_limit limit).
  pose proof (page_limit_pos limit) as Hn. fold n in Hn.
  destruct (Nat.ltb_spec n (length L)) as [Hlt|Hge]; cbn [Entries NextCursor].
  2:{ rewrite bool_decide_true by done. by rewrite app_nil_r. }
  destruct (lookup_lt_is_Some_2 L (n - 1) ltac:(lia)) as [x Hx]. rewrite Hx. simpl.
  assert (Hsel : x ∈ L) by (by eapply list_elem_of_lookup_2).
  assert (Hx0 : x <> ""%string).
  { apply elem_of_select in Hsel. unfold selects in Hsel.
    destruct (kv_store db !! (fid, x)) as [r|] eqn:E; [|done]. by eapply Hne. }
  rewrite bool_decide_false by done.
  assert (Hsplit : L = take (n - 1) L ++ x :: drop n L).
  { rewrite <- (take_drop_middle L (n - 1) x Hx) at 1. by replace (S (n - 1)) with n by lia. }
  assert (Hnext : select_keys now fid prefix x db = drop n L).
  { rewrite select_after by done.
    assert (Hf : filter (fun k => str_lt x k) L = drop n L).
    { rewrite Hsplit at 1. apply sorted_after; rewrite <- Hsplit; [apply select_keys_sorted|apply select_keys_nodup]. }
    rewrite <- Hf. unfold L. destruct (decide (cursor = ""%string)) as [->|Hc]; [done|].
    rewrite (select_after _ _ _ cursor) by done. rewrite list_filter_filter.
    apply list_filter_iff. intros k. split; [|tauto]. intros Hk. split; [done|].
    unfold L in Hsel. rewrite (select_after _ _ _ cursor) in Hsel by done.
    apply list_elem_of_filter in Hsel as [Hcx _]. apply str_lt_spec in Hk as [Hk _].
    by eapply str_lt_le_trans. }
  rewrite IH; [|done|rewrite Hnext, length_drop; lia].
  rewrite Hnext, <- fmap_app, take_drop. done.
Qed.

(* Counters *)

Lemma fmt_loop_parse fuel : forall n acc,
  0 <= n < 10 ^ Z.of_nat fuel -> n <= int64_max ->
  fmtInt_digits 0 (fmtIntStr_loop fuel n acc) = fmtInt_digits n acc.
Proof.
  induction fuel as [|fuel IH]; intros n acc Hn Hmax; cbn [fmtIntStr_loop].
  { replace n with 0 by (simpl in Hn; lia). done. }
  destruct (Z.ltb_spec 0 n); [|by replace n with 0 by lia].
  rewrite Nat2Z.inj_succ, Z.pow_succ_r in Hn by lia.
  pose proof (Z.quot_div_nonneg n 10 ltac:(lia) ltac:(lia)) as Hq.
  pose proof (Z.rem_mod_nonneg n 10 ltac:(lia) ltac:(lia)) as Hr.
  pose proof (Z.div_mod n 10 ltac:(lia)). pose proof (Z.mod_pos_bound n 10 ltac:(lia)).
  rewrite Hq, Hr. rewrite IH by (try (split; [apply Z.div_pos; lia|apply Z.div_lt_upper_bound; lia]); lia).
  cbn [fmtInt_digits]. rewrite ord_chr by lia.
  destruct (Z.ltb_spec (48 + n mod 10) 48); [lia|]. destruct (Z.ltb_spec 57 (48 + n mod 10)); [lia|]. simpl.
  rewrite (wrap64_id (n / 10 * 10)) by (unfold in_int64, int64_min, int64_max in *; lia).
  rewrite wrap64_id by (unfold in_int64, int64_min, int64_max in *; lia). f_equal. lia.
Qed.

Definition starts_digit (s : string) : Prop :=
  match s with EmptyString => False | String c _ => 48 <= ord c <= 57 end.

Lemma fmt_loop_starts fuel : forall n acc,
  0 <= n -> starts_digit acc \/ (0 < n /\ (0 < fuel)%nat) -> starts_digit (fmtIntStr_loop fuel n acc).
Proof.
  induction fuel as [|fuel IH]; intros n acc Hn H; cbn [fmtIntStr_loop]; [destruct H as [|[]]; [done|lia]|].
  destruct (Z.ltb_spec 0 n); [|destruct H as [|[]]; [done|lia]].
  apply IH; [apply Z.quot_pos; lia|]. left. simpl.
  pose proof (Z.rem_bound_pos n 10 ltac:(lia) ltac:(lia)). rewrite ord_chr by lia. lia.
Qed.

Lemma decimal_spec n :
  0 < n <= int64_max -> starts_digit (decimal n) /\ fmtInt_digits 0 (decimal n) = Ok n.
Proof.
  intros Hn. unfold decimal. split; [apply fmt_loop_starts; [lia|right; lia]|].
  rewrite fmt_loop_parse; [done| |lia].
  assert (Hpow : int64_max < 10 ^ Z.of_nat 20) by (vm_compute; reflexivity). lia.
Qed.

(** Formatting then parsing is the identity on every int64 but the smallest. *)
Lemma fmt_roundtrip n :
  int64_min < n <= int64_max -> fmtInt (fmtIntStr n) = Ok n.
Proof.
  intros Hn. unfold fmtIntStr. destruct (Z.eqb_spec n 0) as [->|Hnz]; [reflexivity|].
  destruct (Z.ltb_spec n 0).
  - rewrite wrap64_id by (unfold in_int64, int64_min, int64_max in *; lia).
    destruct (decimal_spec (- n)) as [Hs Hp]; [unfold int64_min, int64_max in *; lia|].
    destruct (decimal (- n)) as [|c s]; [done|].
    unfold fmtInt. change (ord (chr 45) =? 45) with true. cbv iota beta. rewrite Hp.
    rewrite wrap64_id by (unfold in_int64, int64_min, int64_max in *; lia). f_equal. lia.
  - destruct (decimal_spec n) as [Hs Hp]; [lia|].
    destruct (decimal n) as [|c s]; [done|]. simpl in Hs. unfold fmtInt.
    destruct (Z.eqb_spec (ord c) 45); [lia|]. destruct (Z.eqb_spec (ord c) 43); [lia|]. cbv iota beta.
    by rewrite Hp.
Qed.

Lemma fmtIntStr_starts n :
  int64_min < n <= int64_max ->
  match fmtIntStr n with EmptyString => False | String c _ => ord c <> 34 end.
Proof.
  intros Hn. unfold fmtIntStr. destruct (Z.eqb_spec n 0) as [->|Hnz]; [done|].
  destruct (Z.ltb_spec n 0); cbv iota beta; [done|].
  destruct (decimal_spec n) as [Hs _]; [lia|]. destruct (decimal n); [done|]. simpl in Hs. lia.
Qed.

Lemma unquote_number n : int64_min < n <= int64_max -> unquote (fmtIntStr n) = fmtIntStr n.
Proof.
  intros Hn. pose proof (fmtIntStr_starts n Hn). unfold unquote.
  destruct (fmtIntStr n) as [|c s]; [done|]. by destruct (Z.eqb_spec (ord c) 34).
Qed.

(* Writes *)

Lemma bytesEq_eq a b : bytesEq a b = bool_decide (a = b).
Proof.
  unfold bytesEq. revert b. induction a as [|x a IH]; intros [|y b]; simpl; try done.
  specialize (IH b). destruct (String.length a =? String.length b)%nat; simpl in *.
  - destruct (Z.eqb_spec (ord x) (ord y)) as [E|E]; simpl.
    + apply ord_inj in E as ->. rewrite IH. repeat case_bool_decide; congruence.
    + rewrite bool_decide_false; [done|]. intros [= -> _]. done.
  - rewrite bool_decide_false; [done|]. intros [= _ ->]. rewrite bool_decide_true in IH; done.
Qed.

Lemma write_row_ok now fid key value exp db db' :
  write_row now fid key value exp db = Ok db' ->
  exists c, db' = db <| kv_store ::= <[(fid, key) := Row value exp c now]> |>.
Proof.
  unfold write_row. destruct (kv_store db !! (fid, key)) as [old|].
  - intros [= <-]. eauto.
  - case_decide; [|done]. intros [= <-]. eauto.
Qed.

Lemma write_row_err now fid key value exp db e :
  write_row now fid key value exp db = Err e -> e = ErrKVForeignKey /\ fid ∉ functions db.
Proof.
  unfold write_row. destruct (kv_store db !! (fid, key)) as [old|]; [done|]. case_decide; [done|].
  by intros [= <-].
Qed.

Lemma visible_insert now fid key r db :
  visible now fid key (db <| kv_store ::= <[(fid, key) := r]> |>) =
  if expired_before now r then None else Some r.
Proof. unfold visible. simpl. by rewrite lookup_insert_eq. Qed.

(** The expiry a put leaves behind. *)
Definition put_expiry (now : Z) (ttl : option Z) (old : option row) : option Z :=
  match ttl with
  | Some t => if 0 <? t then Some (ttl_expiry now t) else None
  | None => match old with
            | Some r => match expires_at r with Some e => if e <=? now then None else Some e | None => None end
            | None => None
            end
  end.

Lemma upsert_ok now fid key value ttl db db' :
  upsert now fid key value ttl db = Ok db' ->
  exists c, db' = db <| kv_store ::= <[(fid, key) :=
    Row value (put_expiry now ttl (kv_store db !! (fid, key))) c now]> |>.
Proof.
  unfold upsert. destruct (kv_store db !! (fid, key)) as [old|].
  - intros [= <-]. exists (created_at old). by destruct ttl.
  - case_decide; [|done]. intros [= <-]. exists now. by destruct ttl.
Qed.

Lemma ttl_expiry_exact now ttl : ValidateKVTTL (Some ttl) = None -> ttl_expiry now ttl = now + ttl * second.
Proof.
  unfold ValidateKVTTL, ttl_expiry. intros H. split_ifs_in H.
  change (Z.quot int64_max second) with 9223372036 in *. rewrite wrap64_id; [done|].
  unfold in_int64, int64_min, int64_max, second in *. lia.
Qed.

Lemma next_expiry_visible now fid key ttl db value c :
  ValidateKVTTL ttl = None ->
  expired_before now (Row value (next_expiry now ttl (visible now fid key db)) c now) = false.
Proof.
  intros Httl. unfold expired_before, next_expiry. simpl. destruct ttl as [t|].
  - destruct (Z.ltb_spec 0 t); [|done]. rewrite ttl_expiry_exact by done. unfold second. lia.
  - unfold visible. destruct (kv_store db !! (fid, key)) as [r|]; [|done].
    destruct (expired_before now r) eqn:E; [done|]. by unfold expired_before in E.
Qed.

(* Batches *)

(** The batch's operations through the single-key entry points. *)
Definition single_op (now : Z) (fid : string) (op : KVBatchOp) (db : kvdb) : res kv_error (kvdb * KVBatchResult) :=
  if bool_decide (b_op op = "get"%string) then
    match KVGet now fid (b_key op) db with
    | Ok e => Ok (db, BatchResult (b_op op) (b_key op) true (Some (r_value (e_row e))) (expires_at (e_row e)))
    | Err ErrKVNotFound => Ok (db, BatchResult (b_op op) (b_key op) false None None)
    | Err e => Err e
    end
  else if bool_decide (b_op op = "put"%string) then
    match KVPut now fid (b_key op) (b_value op) (b_ttl op) db with
    | Ok db => Ok (db, BatchResult (b_op op) (b_key op) true None None)
    | Err e => Err e
    end
  else
    match KVDelete fid (b_key op) db with
    | Ok db' => Ok (db', BatchResult (b_op op) (b_key op)
                          (bool_decide (is_Some (kv_store db !! (fid, b_key op)))) None None)
    | Err e => Err e
    end.

Fixpoint single_ops (now : Z) (fid : string) (ops : list KVBatchOp) (db : kvdb)
  : res kv_error (kvdb * list KVBatchResult) :=
  match ops with
  | [] => Ok (db, [])
  | op :: ops =>
    match single_op now fid op db with
    | Err e => Err e
    | Ok (db, r) =>
      match single_ops now fid ops db with
      | Err e => Err e
      | Ok (db, rs) => Ok (db, r :: rs)
      end
    end
  end.

Lemma batch_op_single now fid op db :
  validate_op op = None -> batch_op now fid op db = single_op now fid op db.
Proof.
  unfold validate_op, batch_op, single_op, KVGet, KVPut, KVDelete.
  destruct (ValidateKVKey (b_key op)); [done|].
  case_bool_decide as Hg; simpl.
  { intros _. by destruct (visible now fid (b_key op) db). }
  case_bool_decide as Hd; simpl.
  { intros _. by rewrite bool_decide_false by congruence. }
  case_bool_decide as Hp; [|done].
  destruct (ValidateKVValue (b_value op)); [done|]. by intros ->.
Qed.

Lemma batch_loop_single now fid ops : forall db,
  validate_ops ops = None -> batch_loop now fid ops db = single_ops now fid ops db.
Proof.
  induction ops as [|op ops IH]; intros db Hv; simpl in *; [done|].
  destruct (validate_op op) eqn:Eo; [done|]. rewrite batch_op_single by done.
  destruct (single_op now fid op db) as [[db1 r]|e]; [|done]. by rewrite IH.
Qed.

(* Increments of one persistent key *)

Fixpoint run_incrs (fid key : string) (ops : list (Z * Z)) (db : kvdb) : res kv_error (kvdb * list Z) :=
  match ops with
  | [] => Ok (db, [])
  | (now, delta) :: ops =>
    match KVIncr now fid key delta None db with
    | Err e => Err e
    | Ok (db, n) =>
      match run_incrs fid key ops db with
      | Err e => Err e
      | Ok (db, ns) => Ok (db, n :: ns)
      end
    end
  end.

(** The running totals a counter should report. *)
Fixpoint totals (start : Z) (ops : list (Z * Z)) : list Z :=
  match ops with [] => [] | (_, d) :: ops => (start + d) :: totals (start + d) ops end.

Definition counter_holds (fid key : string) (n : Z) (db : kvdb) : Prop :=
  match kv_store db !! (fid, key) with
  | Some r => expires_at r = None /\ fmtInt (unquote (r_value r)) = Ok n
  | None => n = 0
  end.

Lemma KVIncr_counter now fid key delta n db :
  ValidateKVKey key = None -> fid ∈ functions db -> counter_holds fid key n db ->
  int64_min < n + delta <= int64_max ->
  exists db', KVIncr now fid key delta None db = Ok (db', n + delta) /\
    counter_holds fid key (n + delta) db' /\ functions db' = functions db.
Proof.
  intros Hk Hf Hc Hr. unfold KVIncr. rewrite Hk. simpl.
  assert (Hvis : visible now fid key db = kv_store db !! (fid, key)).
  { unfold visible, counter_holds in *. destruct (kv_store db !! (fid, key)) as [r|]; [|done].
    unfold expired_before. by rewrite (proj1 Hc). }
  rewrite Hvis.
  assert (Hcur : match kv_store db !! (fid, key) with Some r => fmtInt (unquote (r_value r)) | None => Ok 0 end = Ok n).
  { unfold counter_holds in Hc. destruct (kv_store db !! (fid, key)); [apply Hc|by subst]. }
  rewrite Hcur, wrap64_id by (unfold in_int64; lia).
  assert (Hexp : match kv_store db !! (fid, key) with Some r => expires_at r | None => None end = None).
  { unfold counter_holds in Hc. destruct (kv_store db !! (fid, key)); [apply Hc|done]. }
  simpl. rewrite Hexp.
  destruct (write_row now fid key (fmtIntStr (n + delta)) None db) as [db'|e] eqn:E.
  2:{ by apply write_row_err in E as [_ ?]. }
  apply write_row_ok in E as [c ->]. eexists. split_and!; [done| |done].
  unfold counter_holds. simpl. rewrite lookup_insert_eq. simpl.
  by rewrite unquote_number, fmt_roundtrip.
Qed.

(* ------------------------------------------------------------------ *)
(** ** Properties *)

(** What was put is what is read, for as long as it should be.  After a
    successful put, every later read of the key returns exactly that value
    until its expiry has passed and not-found afterwards; a positive TTL
    expires exactly that many seconds later (no overflow), zero clears the
    expiry, and an omitted TTL keeps an expiry that is still ahead; no other
    key of any function changes. *)
Theorem kv_put_get now fid key value ttl db db' :
  KVPut now fid key value ttl db = Ok db' ->
  exists r,
    r_value r = value /\
    expires_at r =
      match ttl with
      | Some t => if 0 <? t then Some (now + t * second) else None
      | None => match kv_store db !! (fid, key) with
                | Some old => match expires_at old with
                              | Some e => if e <=? now then None else Some e
                              | None => None
                              end
                | None => None
                end
      end /\
    (forall t, KVGet t fid key db' = if expired_before t r then Err ErrKVNotFound else Ok (Entry fid key r)) /\
    (forall fid' key', (fid', key') <> (fid, key) -> kv_store db' !! (fid', key') = kv_store db !! (fid', key')).
Proof.
  unfold KVPut. intros H.
  destruct (ValidateKVKey key) eqn:Ek; [done|]. destruct (ValidateKVValue value); [done|].
  destruct (ValidateKVTTL ttl) eqn:Et; [done|]. apply upsert_ok in H as [c ->].
  eexists (Row value (put_expiry now ttl (kv_store db !! (fid, key))) c now). split_and!.
  - done.
  - simpl. unfold put_expiry. destruct ttl as [t|]; [|done]. by rewrite (ttl_expiry_exact _ _ Et).
  - intros t. unfold KVGet. rewrite Ek, visible_insert. by destruct (expired_before t _).
  - intros fid' key' Hne. simpl. by rewrite lookup_insert_ne.
Qed.

Definition demo_db : kvdb := KVDB {[ "fn-a"%string ]} ∅.

Lemma kv_put_get_witness :
  exists db', KVPut 1000 "fn-a" "k" "42" (Some 5) demo_db = Ok db' /\
    is_ok (KVGet (1000 + 5 * second) "fn-a" "k" db') = true.
Proof.
  destruct (KVPut 1000 "fn-a" "k" "42" (Some 5) demo_db) as [db'|e] eqn:E; [|vm_compute in E; discriminate].
  exists db'. split; [reflexivity|].
  destruct (kv_put_get _ _ _ _ _ _ _ E) as (r & _ & Hexp & Hget & _).
  rewrite Hget. unfold expired_before. rewrite Hexp. reflexivity.
Defined.

(** Compare-and-swap is exact.  It swaps precisely when the value a
    reader would see now (nothing, for a missing or expired key) is the
    expected one; then a reader sees the new value; otherwise the store is
    unchanged and the caller is told the value that was there.  No other key
    changes. *)
Theorem kv_cas_exact now fid key expected newValue ttl db db' result :
  KVCAS now fid key expected newValue ttl db = Ok (db', result) ->
  (forall fid' key', (fid', key') <> (fid, key) -> kv_store db' !! (fid', key') = kv_store db !! (fid', key')) /\
  match result with
  | Swapped => r_value <$> visible now fid key db = expected /\
               r_value <$> visible now fid key db' = Some newValue
  | NotSwapped current => db' = db /\ current = r_value <$> visible now fid key db /\ current <> expected
  end.
Proof.
  unfold KVCAS. intros H. destruct (ValidateKVKey key); [done|]. destruct (ValidateKVValue newValue); [done|].
  match type of H with match ?e with _ => _ end = _ => destruct e; [done|] end.
  destruct (ValidateKVTTL ttl) eqn:Et; [done|].
  pose proof (next_expiry_visible now fid key ttl db newValue) as Hnew.
  set (present := visible now fid key db) in *.
  destruct (match expected, present with None, None => true | Some e, Some r => bytesEq (r_value r) e | _, _ => false end)
    eqn:Em.
  - assert (Hm : r_value <$> present = expected).
    { destruct expected as [e|], present as [r|]; simpl in *; try done.
      rewrite bytesEq_eq in Em. apply bool_decide_eq_true in Em. by subst. }
    destruct (write_row _ _ _ _ _ _) as [db1|e] eqn:E; [|done]. injection H as <- <-.
    apply write_row_ok in E as [c ->]. split.
    + intros fid' key' Hne. simpl. by rewrite lookup_insert_ne.
    + split; [done|]. rewrite visible_insert, Hnew by done. done.
  - injection H as <- <-. split; [done|]. split_and!; [done|done|]. intros Hm. subst expected.
    destruct present as [r|]; simpl in Em; [|done].
    rewrite bytesEq_eq, bool_decide_true in Em; done.
Qed.

Lemma kv_cas_exact_witness :
  exists db', KVCAS 7 "fn-a" "k" None "1" None demo_db = Ok (db', Swapped) /\
    r_value <$> visible 7 "fn-a" "k" db' = Some "1"%string.
Proof.
  destruct (KVCAS 7 "fn-a" "k" None "1" None demo_db) as [[db' r]|e] eqn:E; [|vm_compute in E; discriminate].
  assert (Hr : r = Swapped) by (vm_compute in E; congruence). subst r.
  exists db'. split; [reflexivity|].
  exact (proj2 (proj2 (kv_cas_exact _ _ _ _ _ _ _ _ _ E))).
Defined.

(** C29: a batch is its operations, all or nothing.  A batch that succeeds has
    the effect and the results of running its operations one after the other
    through the single-key calls; a batch that fails, at validation or in the
    middle, leaves the store untouched. *)
Theorem kv_batch_atomic now fid ops db :
  match KVBatch now fid ops db with
  | (db', Ok rs) => single_ops now fid ops db = Ok (db', rs) /\ length rs = length ops
  | (db', Err e) => db' = db
  end.
Proof.
  unfold KVBatch. destruct ops as [|op ops]; [done|]. set (all := op :: ops).
  destruct (100 <? _); [done|]. destruct (validate_ops all) eqn:Ev; [done|].
  rewrite batch_loop_single by done.
  destruct (single_ops now fid all db) as [[db' rs]|e] eqn:Es; [|done]. split; [done|].
  clear Ev. revert db db' rs Es. induction all as [|o os IH]; intros db db' rs Es; simpl in Es.
  - by simplify_eq.
  - destruct (single_op now fid o db) as [[db1 r]|]; [|done].
    destruct (single_ops now fid os db1) as [[db2 rs']|] eqn:E; [|done]. simplify_eq. simpl.
    by rewrite (IH _ _ _ E).
Qed.

(** Paging is complete.  Following the cursors from the first page visits
    every live matching key of the function exactly once, in order, in at most
    one page more than there are keys, whatever the page size. *)
Theorem kv_paging_complete now fid prefix limit db fuel :
  (forall k r, kv_store db !! (fid, k) = Some r -> k <> ""%string) ->
  (length (keys_of fid db) < fuel)%nat ->
  Key <$> all_pages fuel now fid prefix "" limit db = select_keys now fid prefix "" db /\
  StronglySorted str_le (Key <$> all_pages fuel now fid prefix "" limit db) /\
  NoDup (Key <$> all_pages fuel now fid prefix "" limit db) /\
  (forall k, k ∈ Key <$> all_pages fuel now fid prefix "" limit db <->
     exists r, kv_store db !! (fid, k) = Some r /\ live now r = true /\
       (prefix = ""%string \/ like (bytes (prefix +:+ "%")) (bytes k) = true)).
Proof.
  intros Hne Hfuel.
  assert (Hlen : (length (select_keys now fid prefix "" db) <= length (keys_of fid db))%nat).
  { unfold select_keys. rewrite merge_sort_Permutation. apply length_filter. }
  rewrite all_pages_spec by (done || lia).
  rewrite <- list_fmap_compose.
  replace (list_fmap _ _ (Key ∘ entry_at fid db)) with (fmap (M := list) (A := string) id) by reflexivity.
  rewrite list_fmap_id.
  split_and!; [done|apply select_keys_sorted|apply select_keys_nodup|].
  intros k. rewrite elem_of_select. unfold selects.
  destruct (kv_store db !! (fid, k)) as [r|].
  - rewrite (bool_decide_true (EmptyString = EmptyString)) by done. simpl. rewrite andb_true_r, andb_true_iff, orb_true_iff, bool_decide_eq_true.
    split; [intros []; eauto|intros (? & [= <-] & ? & ?); auto].
  - split; [done|intros (? & ? & _); done].
Qed.

Lemma kv_paging_complete_witness :
  let db := KVDB {[ "fn-a"%string ]}
    {[ ("fn-a", "b")%string := Row "1" None 0 0; ("fn-a", "a")%string := Row "2" None 0 0;
       ("fn-b", "c")%string := Row "3" None 0 0 ]} in
  Key <$> all_pages 4 7 "fn-a" "" "" 1 db = ["a"; "b"]%string.
Proof.
  intros db.
  assert (Hne : forall k r, kv_store db !! ("fn-a"%string, k) = Some r -> k <> EmptyString).
  { intros k r H ->. vm_compute in H. discriminate. }
  destruct (kv_paging_complete 7 "fn-a" "" 1 db 4 Hne ltac:(vm_compute; lia)) as [-> _].
  vm_compute. reflexivity.
Defined.

(** Counters count.  Any sequence of increments of a persistent counter
    (absent counters start at zero) reports exactly the running totals, as
    long as every total stays strictly between the smallest int64 and the
    largest; the text written is always read back as the number meant. *)
Theorem kv_incr_counts fid key ops : forall n db,
  ValidateKVKey key = None -> fid ∈ functions db -> counter_holds fid key n db ->
  Forall (fun t => int64_min < t <= int64_max) (totals n ops) ->
  exists db', run_incrs fid key ops db = Ok (db', totals n ops) /\
    counter_holds fid key (n + zsum snd ops) db'.
Proof.
  induction ops as [|[now d] ops IH]; intros n db Hk Hf Hc Hall; simpl.
  - exists db. rewrite Z.add_0_r. auto.
  - simpl in Hall. apply Forall_cons in Hall as [Hn Hall].
    destruct (KVIncr_counter now fid key d n db Hk Hf Hc Hn) as (db1 & -> & Hc1 & Hf1).
    destruct (IH (n + d) db1 Hk) as (db' & -> & Hc'); [by rewrite Hf1|done|done|].
    exists db'. split; [done|]. by rewrite Z.add_assoc.
Qed.

Lemma kv_incr_counts_witness :
  exists db', run_incrs "fn-a" "hits" [(1, 5); (2, -7); (3, 1)] demo_db = Ok (db', [5; -2; -1]).
Proof.
  destruct (kv_incr_counts "fn-a" "hits" [(1, 5); (2, -7); (3, 1)] 0 demo_db) as (db' & H & _).
  - vm_compute. reflexivity.
  - cbn [functions demo_db]. set_solver.
  - reflexivity.
  - cbn [totals]. unfold int64_min, int64_max. repeat (apply Forall_cons; split; [lia|]). apply Forall_nil. exact I.
  - exists db'. exact H.
Defined.

(** At the int64 bounds a counter wraps, and at the smallest int64 it
    breaks for good.  Incrementing the largest value reports the smallest one
    instead of an error, and any counter that reaches the smallest int64 is
    stored as a lone minus sign, so that every later increment of it fails. *)
Theorem kv_incr_breaks_at_bounds now later fid key db r n delta d :
  ValidateKVKey key = None -> visible now fid key db = Some r -> expires_at r = None ->
  fmtInt (unquote (r_value r)) = Ok n -> wrap64 (n + delta) = int64_min ->
  exists db', KVIncr now fid key delta None db = Ok (db', int64_min) /\
    r_value <$> visible later fid key db' = Some "-"%string /\
    KVIncr later fid key d None db' = Err ErrKVNotInteger.
Proof.
  intros Hk Hv Hexp Hn Hw. unfold KVIncr at 1. rewrite Hk. cbn [ValidateKVTTL]. rewrite Hv, Hn, Hw.
  unfold next_expiry. rewrite Hexp.
  destruct (write_row now fid key (fmtIntStr int64_min) None db) as [db'|e] eqn:E.
  - apply write_row_ok in E as [c ->]. eexists. split; [done|].
    rewrite visible_insert. split; [done|]. unfold KVIncr. rewrite Hk. cbn [ValidateKVTTL].
    by rewrite visible_insert.
  - unfold write_row, visible in *. destruct (kv_store db !! (fid, key)); done.
Qed.

Lemma kv_incr_breaks_at_bounds_witness :
  let db := KVDB {[ "fn-a"%string ]}
    {[ ("fn-a", "hits")%string := Row "9223372036854775807" None 0 0 ]} in
  exists db', KVIncr 1 "fn-a" "hits" 1 None db = Ok (db', int64_min) /\
    KVIncr 2 "fn-a" "hits" 1 None db' = Err ErrKVNotInteger.
Proof.
  intros db.
  destruct (kv_incr_breaks_at_bounds 1 2 "fn-a" "hits" db (Row "9223372036854775807" None 0 0)
              int64_max 1 1) as (db' & H1 & _ & H2);
    [vm_compute; reflexivity|reflexivity|reflexivity|vm_compute; reflexivity|vm_compute; reflexivity|].
  exists db'. split; [exact H1|exact H2].
Defined.
