(* ===== verification/Jobs.v ===== *)
(** * Background jobs and webhook deliveries
    ([database/jobs.go], [database/webhooks.go], [scheduler/scheduler.go])

    Both tables are retry queues with the same columns and the same
    statements; [QueueRow] is the interface of such a row and the statements
    are written once against it.  The machine at the end of the definitions
    interleaves enqueues, scheduler ticks, finishing workers, operator retries,
    deletions, crashes and the stuck-row sweep. *)
From S2P Require Import Prelude GoText.
Open Scope Z_scope.

(* ------------------------------------------------------------------ *)
(** ** Retry-queue rows *)

Record qstate := QState {
  q_status : string;
  q_scheduled : Z;
  q_started : option Z;
  q_finished : option Z;
  q_attempts : Z;
  q_max : Z;
  q_error : option string
}.

#[export] Instance qstate_eta : Eta qstate := fun s =>
  QState (q_status s) (q_scheduled s) (q_started s) (q_finished s) (q_attempts s) (q_max s) (q_error s).

Class QueueRow (R : Type) := {
  qs : R -> qstate;
  with_qs : (qstate -> qstate) -> R -> R;
  qs_with : forall f r, qs (with_qs f r) = f (qs r)
}.

Record Job := MkJob {
  j_FunctionID : string; j_Payload : string; j_state : qstate; j_CreatedAt : Z;
  j_TraceID : string; j_ParentSpanID : string; j_EnqueuedBy : string;
  j_IdempotencyKey : string; j_WindowSeconds : Z; j_Replayed : bool
}.

#[export] Instance Job_eta : Eta Job := fun j =>
  MkJob (j_FunctionID j) (j_Payload j) (j_state j) (j_CreatedAt j) (j_TraceID j) (j_ParentSpanID j)
        (j_EnqueuedBy j) (j_IdempotencyKey j) (j_WindowSeconds j) (j_Replayed j).

Record WebhookDelivery := MkDelivery {
  d_SubscriptionID : string; d_EventName : string; d_Payload : string; d_state : qstate;
  d_ResponseStatus : option Z; d_CreatedAt : Z
}.

#[export] Instance WebhookDelivery_eta : Eta WebhookDelivery := fun d =>
  MkDelivery (d_SubscriptionID d) (d_EventName d) (d_Payload d) (d_state d) (d_ResponseStatus d) (d_CreatedAt d).

#[export] Instance Job_row : QueueRow Job := {
  qs := j_state; with_qs f j := j <| j_state ::= f |>; qs_with f j := eq_refl
}.

#[export] Instance Delivery_row : QueueRow WebhookDelivery := {
  qs := d_state; with_qs f d := d <| d_state ::= f |>; qs_with f d := eq_refl
}.

Section Queue.
Context {R : Type} `{QueueRow R}.
Implicit Types T : gmap string R.

Definition is_due (now : Z) (r : R) : bool :=
  bool_decide (q_status (qs r) = "pending"%string) && (q_scheduled (qs r) <=? now).

Definition due_at T (now : Z) (id : string) : bool :=
  match T !! id with Some r => is_due now r | None => false end.

Definition scheduled_of T (id : string) : Z :=
  match T !! id with Some r => q_scheduled (qs r) | None => 0 end.

Definition scheduled_before T (a b : string) : Prop := scheduled_of T a <= scheduled_of T b.
#[export] Instance scheduled_before_dec T a b : Decision (scheduled_before T a b).
Proof using Type. unfold scheduled_before. apply _. Defined.

(** The inner SELECT of a claim; [scan] is the order in which the table is
    read, which decides ties of [scheduled_at]. *)
Definition claim_ids (scan : list string) (now limit : Z) T : list string :=
  take (Z.to_nat limit)
       (merge_sort (scheduled_before T) (filter (fun id => due_at T now id = true) scan)).

Definition claim_row (now : Z) : R -> R :=
  with_qs (fun s => s <| q_status := "running"%string |> <| q_started := Some now |>
                      <| q_attempts ::= Z.succ |>).

(** [ClaimDueJobs] / [ClaimDueDeliveries]: one UPDATE ... RETURNING. *)
Definition claim (scan : list string) (now limit : Z) T : gmap string R * list (string * R) :=
  let limit := if limit <=? 0 then 10 else limit in
  let ids := claim_ids scan now limit T in
  let T' := foldl (fun T id => alter (claim_row now) id T) T ids in
  (T', omap (fun id => pair id <$> T' !! id) ids).

Definition mark_success (now : Z) (id : string) T : gmap string R :=
  alter (with_qs (fun s => s <| q_status := "succeeded"%string |> <| q_finished := Some now |>
                             <| q_error := None |>)) id T.

(** Seconds to wait before attempt [attempts + 1]. *)
Definition backoff (attempts : Z) : Z :=
  let shift := if 12 <? attempts then 12 else attempts in
  let delaySec := Z.shiftl 1 shift in
  if 3600 <? delaySec then 3600 else delaySec.

(** [attempts] and [maxAttempts] are the caller's copies. *)
Definition mark_failure (now : Z) (id errMsg : string) (attempts maxAttempts : Z) T : gmap string R :=
  if maxAttempts <=? attempts then
    alter (with_qs (fun s => s <| q_status := "failed"%string |> <| q_finished := Some now |>
                               <| q_error := Some errMsg |>)) id T
  else
    alter (with_qs (fun s => s <| q_status := "pending"%string |> <| q_started := None |>
                               <| q_error := Some errMsg |>
                               <| q_scheduled := now + backoff attempts * second |>)) id T.

Definition retry_row (now : Z) (s : qstate) : qstate :=
  s <| q_status := "pending"%string |> <| q_scheduled := now |> <| q_attempts := 0 |>
    <| q_started := None |> <| q_finished := None |> <| q_error := None |>.

Definition retry (now : Z) (id : string) T : gmap string R := alter (with_qs (retry_row now)) id T.

Definition StuckLease : Z := 30 * minute.

(** Running since before the lease; a running row with no start time is stuck too. *)
Definition stuck (now : Z) (s : qstate) : bool :=
  bool_decide (q_status s = "running"%string) &&
  match q_started s with None => true | Some t => t <? now - StuckLease end.

Definition requeue_row (now : Z) (s : qstate) : qstate :=
  if stuck now s then
    if q_attempts s <? q_max s then s <| q_status := "pending"%string |> <| q_started := None |>
    else s <| q_status := "failed"%string |> <| q_finished := Some now |>
           <| q_error := match q_error s with
                         | Some e => if bool_decide (e = ""%string)
                                     then Some "abandoned: worker did not report a result"%string else Some e
                         | None => Some "abandoned: worker did not report a result"%string
                         end |>
  else s.

(** The two statements of [RequeueStuck] for one table. *)
Definition requeue_stuck (now : Z) T : gmap string R := with_qs (requeue_row now) <$> T.

End Queue.

(* ------------------------------------------------------------------ *)
(** ** The entry points of the two tables *)

Definition ClaimDueJobs := @claim Job _.
Definition MarkJobSuccess := @mark_success Job _.
Definition MarkJobFailure := @mark_failure Job _.
Definition RetryJob := @retry Job _.
Definition DeleteJob (id : string) (T : gmap string Job) : gmap string Job := delete id T.

Definition ClaimDueDeliveries := @claim WebhookDelivery _.

Definition set_response (st : option Z) (id : string) (T : gmap string WebhookDelivery) :=
  alter (fun d => d <| d_ResponseStatus := st |>) id T.

Definition MarkDeliverySuccess (now : Z) (id : string) (respStatus : Z) (T : gmap string WebhookDelivery) :=
  set_response (Some respStatus) id (mark_success now id T).

Definition MarkDeliveryFailure (now : Z) (id errMsg : string) (attempts maxAttempts respStatus : Z)
    (T : gmap string WebhookDelivery) :=
  set_response (Some respStatus) id (mark_failure now id errMsg attempts maxAttempts T).

Definition RetryDelivery (now : Z) (id : string) (T : gmap string WebhookDelivery) :=
  set_response None id (retry now id T).

Definition RequeueStuck (now : Z) (js : gmap string Job) (ds : gmap string WebhookDelivery)
  : gmap string Job * gmap string WebhookDelivery := (requeue_stuck now js, requeue_stuck now ds).

(* ------------------------------------------------------------------ *)
(** ** Enqueueing *)

Inductive enqueue_error := ErrUnique | ErrForeign.

Definition matches_key (fid key : string) (cutoff : Z) (j : Job) : bool :=
  bool_decide (j_FunctionID j = fid) && bool_decide (j_IdempotencyKey j = key) && (cutoff <=? j_CreatedAt j).

Definition newer_first (a b : string * Job) : Prop := j_CreatedAt b.2 <= j_CreatedAt a.2.
#[export] Instance newer_first_dec a b : Decision (newer_first a b).
Proof. unfold newer_first. apply _. Defined.

(** [getJobByIdempotency]: the newest matching row; an absent key is NULL in
    the table and never equal to a parameter. *)
Definition getJobByIdempotency (fid key : string) (cutoff : Z) (T : gmap string Job) : option (string * Job) :=
  if bool_decide (key = ""%string) then None
  else head (merge_sort newer_first (filter (fun ij => matches_key fid key cutoff ij.2 = true) (map_to_list T))).

(** The INSERT: primary key, foreign key, partial unique index. *)
Definition insert_job (functions : gset string) (id : string) (j : Job) (T : gmap string Job)
  : res enqueue_error (gmap string Job) :=
  if bool_decide (is_Some (T !! id)) then Err ErrUnique
  else if negb (bool_decide (j_IdempotencyKey j = ""%string)) &&
          bool_decide (Exists (fun ij => j_FunctionID ij.2 = j_FunctionID j /\ j_IdempotencyKey ij.2 = j_IdempotencyKey j)
                              (map_to_list T)) then Err ErrUnique
  else if negb (bool_decide (j_FunctionID j ∈ functions)) then Err ErrForeign
  else Ok (<[id := j]> T).

(** [EnqueueJob]: the table, and the job as the caller sees it afterwards.
    [ScheduledAt] is [None] when zero. *)
Definition EnqueueJob (functions : gset string) (now : Z) (id : string) (scheduledAt : option Z) (j : Job)
    (T : gmap string Job) : gmap string Job * res enqueue_error (string * Job) :=
  let j := j <| j_state ::= fun s =>
                 s <| q_status ::= fun st => if bool_decide (st = ""%string) then "pending"%string else st |>
                   <| q_max ::= fun m => if m <=? 0 then 3 else m |>
                   <| q_scheduled := default now scheduledAt |> |>
             <| j_CreatedAt := now |> in
  let key := j_IdempotencyKey j in
  let hit :=
    if bool_decide (key = ""%string) then None
    else
      let window := if j_WindowSeconds j <=? 0 then 86400 else j_WindowSeconds j in
      getJobByIdempotency (j_FunctionID j) key (now - wrap64 (window * second)) T in
  match hit with
  | Some (id', j') => (T, Ok (id', j' <| j_Replayed := true |>))
  | None =>
    match insert_job functions id j T with
    | Ok T' => (T', Ok (id, j))
    | Err e =>
      match (if bool_decide (key = ""%string) then None
             else getJobByIdempotency (j_FunctionID j) key (now - 86400 * second) T) with
      | Some (id', j') => (T, Ok (id', j' <| j_Replayed := true |>))
      | None => (T, Err e)
      end
    end
  end.

(* ------------------------------------------------------------------ *)
(** ** Running jobs *)

(** How a run ended, as [runJob] sees it. *)
Inductive run_outcome :=
| LookupFailed (err : string)
| AcquireFailed (err : string)
| DispatchFailed (err : string)
| Responded (statusCode : Z).

Definition run_verdict (o : run_outcome) : option string :=
  match o with
  | LookupFailed e => Some ("function lookup: " +:+ e)
  | AcquireFailed e => Some ("pool acquire: " +:+ e)
  | DispatchFailed e => Some e
  | Responded code => if 500 <=? code then Some "function returned 5xx"%string else None
  end.

(** [finalize]: persist the outcome; the event published, if any. *)
Definition finalize {R} `{QueueRow R} (now : Z) (id : string) (copy : R) (verdict : option string)
    (T : gmap string R) : gmap string R * option string :=
  match verdict with
  | None => (mark_success now id T, Some "succeeded"%string)
  | Some err =>
    (mark_failure now id err (q_attempts (qs copy)) (q_max (qs copy)) T,
     if q_max (qs copy) <=? q_attempts (qs copy) then Some "failed"%string else None)
  end.

Definition runJob (now : Z) (id : string) (copy : Job) (o : run_outcome) (T : gmap string Job)
  : gmap string Job * option string := finalize now id copy (run_verdict o) T.

(* ------------------------------------------------------------------ *)
(** ** The machine *)

Record queue (R : Type) := Queue { table : gmap string R; running : list (string * R); slots : nat }.
Arguments Queue {R}.
Arguments table {R}.
Arguments running {R}.
Arguments slots {R}.

#[export] Instance queue_eta {R} : Eta (queue R) := fun Q => Queue (table Q) (running Q) (slots Q).

(** [jobsTick] / [webhookTick]: claim no more than the free slots ([granted]
    of them, when completion leases must be had first). *)
Definition tick {R} `{QueueRow R} (scan : list string) (now : Z) (granted : nat) (Q : queue R) : queue R :=
  let free := (slots Q - length (running Q))%nat in
  let n := Nat.min granted free in
  if (n =? 0)%nat then Q
  else
    let '(T, claimed) := claim scan now (Z.of_nat n) (table Q) in
    Q <| table := T |> <| running ::= app claimed |>.

Section Machine.
Context {R : Type} `{QueueRow R}.

Inductive queue_step : queue R -> queue R -> Prop :=
| QEnqueue Q id r :
    table Q !! id = None -> id ∉ (running Q).*1 ->
    q_status (qs r) = "pending"%string -> q_attempts (qs r) = 0 -> 0 < q_max (qs r) ->
    queue_step Q (Q <| table ::= <[id := r]> |>)
| QTick Q scan now granted :
    NoDup scan -> queue_step Q (tick scan now granted Q)
| QFinish Q id copy rest now verdict :
    Permutation (running Q) ((id, copy) :: rest) ->
    queue_step Q (Queue (fst (finalize now id copy verdict (table Q))) rest (slots Q))
| QRetry Q id r now :                 (* of a terminal row *)
    table Q !! id = Some r -> q_status (qs r) ∈ ["succeeded"; "failed"]%string ->
    queue_step Q (Q <| table ::= retry now id |>)
| QDelete Q id : queue_step Q (Q <| table ::= delete id |>)
| QRequeue Q now :                    (* no worker outlives the lease *)
    Forall (fun ic => match table Q !! ic.1 with Some r => stuck now (qs r) = false | None => True end) (running Q) ->
    queue_step Q (Q <| table ::= requeue_stuck now |>)
| QCrash Q : queue_step Q (Q <| running := [] |>).

(** What a row's status says about its attempts. *)
Definition row_ok (s : qstate) : Prop :=
  0 < q_max s /\ 0 <= q_attempts s <= q_max s /\
  q_status s ∈ ["pending"; "running"; "succeeded"; "failed"]%string /\
  (q_status s = "pending"%string -> q_attempts s < q_max s) /\
  (q_status s = "running"%string -> 0 < q_attempts s) /\
  (q_status s = "failed"%string -> q_attempts s = q_max s).

Record queue_ok (Q : queue R) : Prop := QueueOk {
  qo_rows : map_Forall (fun _ r => row_ok (qs r)) (table Q);
  qo_slots : (length (running Q) <= slots Q)%nat;
  qo_nodup : NoDup (running Q).*1;
  qo_copies : forall id c r, (id, c) ∈ running Q -> table Q !! id = Some r ->
    q_status (qs r) = "running"%string /\ q_attempts (qs c) = q_attempts (qs r) /\ q_max (qs c) = q_max (qs r)
}.
End Machine.

(* ------------------------------------------------------------------ *)
(** ** Lemmas *)

Section QueueLemmas.
Context {R : Type} `{QueueRow R}.
Implicit Types T : gmap string R.

Lemma claim_ids_nodup scan now limit T : NoDup scan -> NoDup (claim_ids scan now limit T).
Proof.
  intros Hs. unfold claim_ids. set (l := merge_sort _ _).
  assert (Hl : NoDup l) by (unfold l; rewrite merge_sort_Permutation; by apply NoDup_filter).
  rewrite <- (take_drop (Z.to_nat limit) l) in Hl. by apply NoDup_app in Hl as [? _].
Qed.

Lemma claim_ids_due scan now limit T id : id ∈ claim_ids scan now limit T -> due_at T now id = true.
Proof.
  intros Hin. assert (Hm : id ∈ merge_sort (scheduled_before T) (filter (fun id => due_at T now id = true) scan)).
  { rewrite <- (take_drop (Z.to_nat limit)). apply elem_of_app. by left. }
  rewrite merge_sort_Permutation in Hm. by apply list_elem_of_filter in Hm as [? _].
Qed.

Lemma claim_ids_length scan now limit T : 0 <= limit -> (length (claim_ids scan now limit T) <= Z.to_nat limit)%nat.
Proof. intros. unfold claim_ids. rewrite length_take. lia. Qed.

Lemma due_at_row T now id :
  due_at T now id = true ->
  exists r, T !! id = Some r /\ q_status (qs r) = "pending"%string /\ q_scheduled (qs r) <= now.
Proof.
  unfold due_at, is_due. destruct (T !! id) as [r|]; [|done]. intros Hd. zbool. eauto.
Qed.

(** What the UPDATE does to each row. *)
Lemma alter_all_lookup (f : R -> R) ids : forall T id,
  NoDup ids ->
  foldl (fun T id => alter f id T) T ids !! id = (if decide (id ∈ ids) then f <$> T !! id else T !! id).
Proof.
  induction ids as [|a ids IH]; intros T id Hnd; simpl; [done|].
  apply NoDup_cons in Hnd as [Hni Hnd]. rewrite IH by done.
  destruct (decide (id = a)) as [->|Hne].
  - rewrite decide_False, decide_True by (done || left). by rewrite lookup_alter_eq.
  - rewrite lookup_alter_ne by done. destruct (decide (id ∈ ids)).
    + by rewrite decide_True by (by right).
    + rewrite decide_False; [done|]. by intros [->|?]%elem_of_cons.
Qed.

Lemma claim_lookup scan now limit T id :
  NoDup scan -> 0 < limit ->
  fst (claim scan now limit T) !! id =
  (if decide (id ∈ claim_ids scan now limit T) then claim_row now <$> T !! id else T !! id).
Proof.
  intros Hs Hl. unfold claim. destruct (Z.leb_spec limit 0); [lia|]. simpl.
  apply alter_all_lookup. by apply claim_ids_nodup.
Qed.

(** The returned copies: exactly the claimed rows, as written. *)
Lemma claim_returned scan now limit T :
  NoDup scan -> 0 < limit ->
  (snd (claim scan now limit T)).*1 = claim_ids scan now limit T /\
  (forall id c, (id, c) ∈ snd (claim scan now limit T) ->
     exists r, T !! id = Some r /\ id ∈ claim_ids scan now limit T /\ c = claim_row now r).
Proof.
  intros Hs Hl. unfold claim. destruct (Z.leb_spec limit 0); [lia|]. simpl.
  set (ids := claim_ids scan now limit T). set (T' := foldl _ T ids).
  assert (HT : forall id, id ∈ ids -> exists r, T !! id = Some r /\ T' !! id = Some (claim_row now r)).
  { intros id Hid. destruct (due_at_row _ _ _ (claim_ids_due _ _ _ _ _ Hid)) as (r & Hr & _).
    exists r. split; [done|]. unfold T'. rewrite alter_all_lookup by (by apply claim_ids_nodup).
    by rewrite decide_True, Hr. }
  clearbody T' ids. split.
  - induction ids as [|id ids IH]; [done|]. destruct (HT id) as (r & _ & Hr); [set_solver|].
    simpl. rewrite Hr. simpl. f_equal. apply IH. set_solver.
  - intros id c Hin. apply list_elem_of_omap in Hin as (id' & Hin & Hc).
    destruct (HT id' Hin) as (r & Hr & Hr'). rewrite Hr' in Hc. simpl in Hc. simplify_eq. eauto.
Qed.
End QueueLemmas.

(* Row transitions keep [row_ok]. *)

(** Split [row_ok] of a literal row and discharge it. *)
Ltac row_ok_tac :=
  match goal with Hok : row_ok _ |- _ => destruct Hok as (Hm & Ha & Hs & Hp & Hr & Hf) end;
  unfold row_ok; simpl; split_and!; try done; try lia;
  try (apply list_elem_of_In; simpl; tauto).

Lemma claim_row_ok now s :
  row_ok s -> q_status s = "pending"%string ->
  row_ok (s <| q_status := "running"%string |> <| q_started := Some now |> <| q_attempts ::= Z.succ |>).
Proof.
  intros Hok Hpen. pose proof (proj1 (proj2 (proj2 (proj2 Hok))) Hpen). row_ok_tac.
Qed.

Lemma success_row_ok now s :
  row_ok s -> row_ok (s <| q_status := "succeeded"%string |> <| q_finished := Some now |> <| q_error := None |>).
Proof. intros Hok. row_ok_tac. Qed.

Lemma failed_row_ok now e s :
  row_ok s -> q_max s <= q_attempts s ->
  row_ok (s <| q_status := "failed"%string |> <| q_finished := Some now |> <| q_error := e |>).
Proof.
  intros Hok Hle. row_ok_tac.
Qed.

Lemma pending_row_ok st sch e s :
  row_ok s -> q_attempts s < q_max s ->
  row_ok (s <| q_status := "pending"%string |> <| q_started := st |> <| q_error := e |> <| q_scheduled := sch |>).
Proof.
  intros Hok Hle. row_ok_tac.
Qed.

Lemma retry_row_ok now s : row_ok s -> row_ok (retry_row now s).
Proof.
  intros Hok. row_ok_tac.
Qed.

Lemma requeue_row_ok now s : row_ok s -> row_ok (requeue_row now s).
Proof.
  intros Hok. unfold requeue_row. destruct (stuck now s); [|done].
  destruct (Z.ltb_spec (q_attempts s) (q_max s)).
  - pose proof (pending_row_ok None (q_scheduled s) (q_error s) s Hok ltac:(lia)) as Hp. by destruct s.
  - by apply failed_row_ok.
Qed.

Section MachineLemmas.
Context {R : Type} `{QueueRow R}.

Lemma running_lookup (Q : queue R) id c :
  queue_ok Q -> (id, c) ∈ running Q -> id ∈ (running Q).*1.
Proof. intros _ Hin. apply list_elem_of_fmap. by exists (id, c). Qed.

Lemma queue_ok_perm (Q : queue R) l :
  Permutation (running Q) l -> queue_ok Q -> queue_ok (Q <| running := l |>).
Proof.
  intros Hp []. split; simpl; try done.
  - by rewrite <- Hp.
  - by rewrite <- Hp.
  - intros id c r Hin. apply qo_copies0. by rewrite Hp.
Qed.

(** One row changes, and no worker holds it. *)
Lemma queue_ok_alter (Q : queue R) id f :
  queue_ok Q -> id ∉ (running Q).*1 -> (forall r, table Q !! id = Some r -> row_ok (qs (f r))) ->
  queue_ok (Q <| table ::= alter f id |>).
Proof.
  intros [] Hni Hf. split; simpl; try done.
  - intros i r Hi. destruct (decide (i = id)) as [->|Hne].
    + rewrite lookup_alter_eq in Hi. apply fmap_Some in Hi as (r0 & Hr0 & ->). by apply Hf.
    + rewrite lookup_alter_ne in Hi by done. by eapply qo_rows0.
  - intros i c r Hin Hi. rewrite lookup_alter_ne in Hi; [by eapply qo_copies0|].
    intros ->. apply Hni. apply list_elem_of_fmap. by exists (i, c).
Qed.

Lemma tick_ok (Q : queue R) scan now granted :
  NoDup scan -> queue_ok Q -> queue_ok (tick scan now granted Q).
Proof.
  intros Hnd Hok. unfold tick. set (n := Nat.min _ _). destruct (Nat.eqb_spec n 0); [done|].
  assert (Hn : 0 < Z.of_nat n) by lia. assert (Hfree : (n <= slots Q - length (running Q))%nat) by lia.
  pose proof (claim_returned scan now (Z.of_nat n) (table Q) Hnd Hn) as [Hids Hcopies].
  pose proof (claim_lookup scan now (Z.of_nat n) (table Q)) as Hlook.
  pose proof (claim_ids_length scan now (Z.of_nat n) (table Q) ltac:(lia)) as Hlen.
  pose proof (claim_ids_nodup scan now (Z.of_nat n) (table Q) Hnd) as Hndi.
  pose proof (fun id => claim_ids_due scan now (Z.of_nat n) (table Q) id) as Hdue.
  destruct (claim scan now (Z.of_nat n) (table Q)) as [T' claimed]. simpl in *.
  set (ids := claim_ids scan now (Z.of_nat n) (table Q)) in *. destruct Hok.
  assert (Hdisj : forall id c, (id, c) ∈ running Q -> id ∉ ids).
  { intros id c Hin Hid. destruct (due_at_row _ _ _ (Hdue _ Hid)) as (r & Hr & Hst & _).
    destruct (qo_copies0 _ _ _ Hin Hr) as [Hs' _]. congruence. }
  split; simpl.
  - intros id r Hr. rewrite Hlook in Hr by done. destruct (decide (id ∈ ids)) as [Hin|]; [|by eapply qo_rows0].
    destruct (due_at_row _ _ _ (Hdue _ Hin)) as (r0 & Hr0 & Hst & _). rewrite Hr0 in Hr. simpl in Hr. simplify_eq.
    unfold claim_row. rewrite qs_with. apply claim_row_ok; [by eapply qo_rows0|done].
  - rewrite length_app. rewrite <- (length_fmap fst claimed), Hids. lia.
  - rewrite fmap_app, Hids. apply NoDup_app. split_and!; [done| |done].
    intros id Hid Hrun. apply list_elem_of_fmap in Hrun as ([id' c] & -> & Hin). by eapply Hdisj.
  - intros id c r Hin Hr. apply elem_of_app in Hin as [Hin|Hin].
    + destruct (Hcopies _ _ Hin) as (r0 & Hr0 & Hid & ->). rewrite Hlook, decide_True, Hr0 in Hr by done.
      simpl in Hr. simplify_eq. unfold claim_row. rewrite qs_with. done.
    + rewrite Hlook, decide_False in Hr by (done || by eapply Hdisj). by eapply qo_copies0.
Qed.

Lemma finish_ok (Q : queue R) id copy rest now verdict :
  Permutation (running Q) ((id, copy) :: rest) -> queue_ok Q ->
  queue_ok (Queue (fst (finalize now id copy verdict (table Q))) rest (slots Q)).
Proof.
  intros Hp Hok. apply (queue_ok_perm _ _ Hp) in Hok.
  pose proof (qo_copies _ Hok id copy) as Hcopy. simpl in Hcopy.
  assert (Hrest : queue_ok (Q <| running := rest |>)).
  { destruct Hok. simpl in *. split; simpl; try done; [lia| |].
    - by apply NoDup_cons in qo_nodup0 as [_ ?].
    - intros i c r Hin. apply qo_copies0. by right. }
  assert (Hni : id ∉ rest.*1).
  { destruct Hok. simpl in *. by apply NoDup_cons in qo_nodup0 as [? _]. }
  destruct Hok as [Hrows _ _ _]. simpl in Hrows.
  assert (Hgen : forall f, (forall r, table Q !! id = Some r -> row_ok (qs (f r))) ->
    queue_ok (Queue (alter f id (table Q)) rest (slots Q))).
  { intros f Hf. exact (queue_ok_alter (Queue (table Q) rest (slots Q)) id f Hrest Hni Hf). }
  unfold finalize, mark_success, mark_failure. destruct verdict as [err|]; cbn [fst].
  - destruct (Z.leb_spec (q_max (qs copy)) (q_attempts (qs copy))); apply Hgen; intros r Hr; rewrite qs_with;
      (destruct (Hcopy r) as (_ & Ha & Hm); [by left|done|]).
    + apply failed_row_ok; [by eapply Hrows|lia].
    + apply pending_row_ok; [by eapply Hrows|lia].
  - apply Hgen. intros r Hr. rewrite qs_with. apply success_row_ok. by eapply Hrows.
Qed.

Lemma queue_ok_step (Q Q' : queue R) : queue_step Q Q' -> queue_ok Q -> queue_ok Q'.
Proof.
  intros Hs Hok. destruct Hs as [Q id r Hid Hnr Hst Ha Hm|Q scan now granted Hnd|Q id copy rest now verdict Hp
    |Q id r now Hr Hst|Q id|Q now Hlease|Q].
  - destruct Hok. split; simpl; try done.
    + apply map_Forall_insert_2; [|done]. rewrite <- Ha in *. unfold row_ok. rewrite Hst, Ha.
      split_and!; try done; try lia. apply list_elem_of_In; simpl; tauto.
    + intros i c r' Hin Hi. destruct (decide (i = id)) as [->|].
      * exfalso. apply Hnr. apply list_elem_of_fmap. by exists (id, c).
      * rewrite lookup_insert_ne in Hi by done. by eapply qo_copies0.
  - by apply tick_ok.
  - by eapply finish_ok.
  - apply queue_ok_alter; [done| |].
    + intros Hin. apply list_elem_of_fmap in Hin as ([i c] & -> & Hin). simpl in *.
      destruct (qo_copies _ Hok _ _ _ Hin Hr) as [Hrun _]. rewrite Hrun in Hst.
      apply list_elem_of_In in Hst. simpl in Hst. intuition discriminate.
    + intros r0 Hr0. rewrite qs_with. apply retry_row_ok. by eapply (qo_rows _ Hok).
  - destruct Hok. split; simpl; try done; [by apply map_Forall_delete|].
    intros i c r Hin Hi. apply lookup_delete_Some in Hi as [_ Hi]. by eapply qo_copies0.
  - destruct Hok. split; simpl; try done.
    + intros id r Hr. unfold requeue_stuck in Hr. rewrite lookup_fmap in Hr.
      apply fmap_Some in Hr as (r0 & Hr0 & ->). rewrite qs_with. apply requeue_row_ok. by eapply qo_rows0.
    + intros id c r Hin Hr. unfold requeue_stuck in Hr. rewrite lookup_fmap in Hr.
      apply fmap_Some in Hr as (r0 & Hr0 & ->). rewrite qs_with.
      rewrite Forall_forall in Hlease. specialize (Hlease _ Hin). simpl in Hlease. rewrite Hr0 in Hlease.
      unfold requeue_row. rewrite Hlease. by eapply qo_copies0.
  - destruct Hok. split; simpl; try done; [lia|constructor|]. intros id c r Hin. by apply elem_of_nil in Hin.
Qed.
End MachineLemmas.

Lemma backoff_exact a : 0 <= a -> backoff a = Z.min (2 ^ a) 3600.
Proof.
  intros Ha. unfold backoff. destruct (Z.ltb_spec 12 a).
  - assert (2 ^ 12 <= 2 ^ a) by (apply Z.pow_le_mono_r; lia). change (Z.shiftl 1 12) with 4096.
    change (2 ^ 12) with 4096 in *. simpl. lia.
  - rewrite Z.shiftl_mul_pow2 by lia. rewrite Z.mul_1_l. destruct (Z.ltb_spec 3600 (2 ^ a)); lia.
Qed.

Section ClaimOrder.
Context {R : Type} `{QueueRow R}.

#[export] Instance scheduled_before_total (T : gmap string R) : Total (scheduled_before T).
Proof using Type. intros a b. unfold scheduled_before. lia. Qed.
#[export] Instance scheduled_before_trans (T : gmap string R) : Transitive (scheduled_before T).
Proof using Type. intros a b c. unfold scheduled_before. lia. Qed.

(** What is claimed is scheduled no later than what is left. *)
Lemma claim_ids_earliest scan now limit (T : gmap string R) a b :
  a ∈ claim_ids scan now limit T -> b ∈ scan -> due_at T now b = true ->
  b ∉ claim_ids scan now limit T -> scheduled_of T a <= scheduled_of T b.
Proof.
  unfold claim_ids. set (l := merge_sort _ _). set (n := Z.to_nat limit). intros Ha Hb Hd Hnb.
  assert (Hs : StronglySorted (scheduled_before T) l) by (apply StronglySorted_merge_sort; tc_solve).
  assert (Hbl : b ∈ l).
  { unfold l. rewrite merge_sort_Permutation. by apply list_elem_of_filter. }
  rewrite <- (take_drop n l) in Hbl, Hs. apply elem_of_app in Hbl as [|Hbl]; [done|].
  clear - Hs Ha Hbl. induction (take n l) as [|x t IH]; [by apply elem_of_nil in Ha|].
  simpl in Hs. inversion Hs as [|? ? Hs' Hall]; subst. apply elem_of_cons in Ha as [->|Ha]; [|by apply IH].
  rewrite Forall_forall in Hall. apply Hall. apply elem_of_app. by right.
Qed.

Lemma claim_ids_all scan now limit (T : gmap string R) :
  (length (claim_ids scan now limit T) < Z.to_nat limit)%nat ->
  forall b, b ∈ scan -> due_at T now b = true -> b ∈ claim_ids scan now limit T.
Proof.
  unfold claim_ids. set (l := merge_sort _ _). intros Hlt b Hb Hd.
  rewrite length_take in Hlt. rewrite take_ge by lia. unfold l. rewrite merge_sort_Permutation.
  by apply list_elem_of_filter.
Qed.
End ClaimOrder.

(* Idempotency keys *)

Definition key_unique (T : gmap string Job) : Prop :=
  forall i1 i2 j1 j2, T !! i1 = Some j1 -> T !! i2 = Some j2 ->
    j_FunctionID j1 = j_FunctionID j2 -> j_IdempotencyKey j1 = j_IdempotencyKey j2 ->
    j_IdempotencyKey j1 <> ""%string -> i1 = i2.

Lemma getJobByIdempotency_unique fid key cutoff T id j :
  key_unique T -> key <> ""%string -> T !! id = Some j -> j_FunctionID j = fid -> j_IdempotencyKey j = key ->
  getJobByIdempotency fid key cutoff T = if cutoff <=? j_CreatedAt j then Some (id, j) else None.
Proof.
  intros Hu Hk Hj Hf Hkey. unfold getJobByIdempotency. rewrite bool_decide_false by done.
  set (l := filter _ _).
  assert (Hall : forall x, x ∈ l -> x = (id, j) /\ cutoff <= j_CreatedAt j).
  { intros [i j'] Hin. apply list_elem_of_filter in Hin as [Hm Hin]. apply elem_of_map_to_list in Hin.
    unfold matches_key in Hm. simpl in Hm. zbool.
    assert (i = id) as -> by (eapply Hu; eauto; congruence). simplify_eq. split; [done|lia]. }
  assert (Hperm : Permutation (merge_sort newer_first l) l) by apply merge_sort_Permutation.
  destruct (merge_sort newer_first l) as [|x t] eqn:E; simpl.
  - destruct (Z.leb_spec cutoff (j_CreatedAt j)); [|done]. exfalso.
    assert (Hin : (id, j) ∈ l).
    { apply list_elem_of_filter. split; [|by apply elem_of_map_to_list]. unfold matches_key. simpl.
      rewrite !bool_decide_true by done. simpl. lia. }
    rewrite <- Hperm in Hin. by apply elem_of_nil in Hin.
  - destruct (Hall x) as [-> Hle]; [rewrite <- Hperm; left|]. by rewrite (proj2 (Z.leb_le _ _) Hle).
Qed.

Lemma insert_job_conflict functions id j T id0 j0 :
  T !! id0 = Some j0 -> j_FunctionID j0 = j_FunctionID j -> j_IdempotencyKey j0 = j_IdempotencyKey j ->
  j_IdempotencyKey j <> ""%string -> insert_job functions id j T = Err ErrUnique.
Proof.
  intros H0 Hf Hk Hne. unfold insert_job. case_bool_decide; [done|].
  rewrite bool_decide_false by done. rewrite bool_decide_true; [done|].
  apply Exists_exists. exists (id0, j0). split; [by apply elem_of_map_to_list|done].
Qed.

Lemma insert_job_unique functions id j T T' :
  insert_job functions id j T = Ok T' -> key_unique T -> key_unique T'.
Proof.
  unfold insert_job. case_bool_decide as Hid; [done|].
  match goal with |- context [if ?b then _ else _] => destruct b eqn:Eu; [done|] end.
  destruct (bool_decide (j_FunctionID j ∈ functions)); simpl; [|done]. intros [= <-] Hu i1 i2 j1 j2 H1 H2 Hf Hk Hne.
  assert (Hno : forall i j', T !! i = Some j' -> j_FunctionID j' = j_FunctionID j ->
    j_IdempotencyKey j' = j_IdempotencyKey j -> j_IdempotencyKey j <> ""%string -> False).
  { intros i j' Hj' Hf' Hk' Hne'. rewrite (bool_decide_false (j_IdempotencyKey j = ""%string)) in Eu by done.
    simpl in Eu. apply bool_decide_eq_false in Eu. apply Eu, Exists_exists. exists (i, j').
    split; [by apply elem_of_map_to_list|done]. }
  apply lookup_insert_Some in H1 as [[<- <-]|[? H1]]; apply lookup_insert_Some in H2 as [[<- <-]|[? H2]].
  - done.
  - exfalso. by eapply (Hno i2 j2).
  - exfalso. eapply (Hno i1 j1); try done. congruence.
  - by eapply Hu.
Qed.

(* ------------------------------------------------------------------ *)
(** ** Properties *)


Definition demo_job : Job :=
  MkJob "fn-a" "{}" (QState "pending" 100 None None 0 2 None) 50 "" "" "" "k" 60 false.

Definition demo_queue : queue Job := Queue {[ "j1"%string := demo_job ]} [] 8.


(** A claim takes the due rows, oldest schedule first.  Every claimed row
    was pending and due and comes back running with one more attempt; at most
    the limit is claimed, everything due is when the limit is not reached, and
    nothing left behind was scheduled before something claimed; no other row
    changes. *)
Theorem claim_takes_oldest_due {R} `{QueueRow R} scan now limit (T : gmap string R) :
  NoDup scan -> 0 < limit ->
  let '(T', claimed) := claim scan now limit T in
  NoDup claimed.*1 /\ (length claimed <= Z.to_nat limit)%nat /\
  (forall id c, (id, c) ∈ claimed -> exists r, T !! id = Some r /\ q_status (qs r) = "pending"%string /\
     q_scheduled (qs r) <= now /\ T' !! id = Some c /\ q_status (qs c) = "running"%string /\
     q_attempts (qs c) = q_attempts (qs r) + 1) /\
  (forall id, id ∉ claimed.*1 -> T' !! id = T !! id) /\
  (forall id, id ∈ scan -> due_at T now id = true -> id ∉ claimed.*1 ->
     length claimed = Z.to_nat limit /\
     forall id', id' ∈ claimed.*1 -> scheduled_of T id' <= scheduled_of T id).
Proof.
  intros Hnd Hl. destruct (claim scan now limit T) as [T' claimed] eqn:E.
  pose proof (claim_returned scan now limit T Hnd Hl) as [Hids Hcop].
  pose proof (fun id => claim_lookup scan now limit T id Hnd Hl) as Hlook.
  rewrite E in Hids, Hcop, Hlook. simpl in *.
  assert (Hlen : length claimed = length (claim_ids scan now limit T)) by (by rewrite <- Hids, length_fmap).
  rewrite Hlen, Hids. split_and!.
  - by apply claim_ids_nodup.
  - apply claim_ids_length. lia.
  - intros id c Hin. destruct (Hcop _ _ Hin) as (r & Hr & Hid & ->). exists r.
    destruct (due_at_row _ _ _ (claim_ids_due _ _ _ _ _ Hid)) as (r' & Hr' & Hst & Hsch). simplify_eq.
    split_and!; try done.
    + by rewrite Hlook, decide_True, Hr.
    + unfold claim_row. by rewrite qs_with.
    + unfold claim_row. rewrite qs_with. simpl. lia.
  - intros id Hid. by rewrite Hlook, decide_False.
  - intros id Hin Hd Hni. split.
    + pose proof (claim_ids_length scan now limit T ltac:(lia)).
      destruct (decide (length (claim_ids scan now limit T) < Z.to_nat limit)%nat); [|lia].
      exfalso. apply Hni. by apply claim_ids_all.
    + intros id' Hid'. by eapply claim_ids_earliest.
Qed.

Lemma claim_takes_oldest_due_witness :
  (snd (claim ["j2"; "j1"]%string 200 1
          {[ "j1"%string := demo_job; "j2"%string := demo_job <| j_state ::= fun s => s <| q_scheduled := 150 |> |> ]})).*1
  = ["j1"%string].
Proof.
  set (T := {[ "j1"%string := demo_job; _ := _ ]}).
  assert (Hnd : NoDup ["j2"; "j1"]%string) by (apply NoDup_ListNoDup; repeat constructor; simpl; intuition discriminate).
  pose proof (claim_takes_oldest_due ["j2"; "j1"]%string 200 1 T Hnd ltac:(lia)) as H.
  destruct (claim _ 200 1 T) as [T' claimed] eqn:E. destruct H as (Hnd' & Hlen & _).
  transitivity ((snd (T', claimed)).*1); [reflexivity|]. rewrite <- E. vm_compute. reflexivity.
Defined.

(** Retries back off exponentially, two seconds to the power of the
    attempt, never less than a second and never more than an hour, for every
    attempt count (the shift cannot overflow); the row goes back to pending
    until its attempts are used up and fails for good then. *)
Theorem failure_backs_off {R} `{QueueRow R} now id err (c r : R) (T : gmap string R) :
  T !! id = Some r -> 0 <= q_attempts (qs c) ->
  exists r', mark_failure now id err (q_attempts (qs c)) (q_max (qs c)) T = <[id := r']> T /\
    q_attempts (qs r') = q_attempts (qs r) /\ q_error (qs r') = Some err /\
    if q_max (qs c) <=? q_attempts (qs c)
    then q_status (qs r') = "failed"%string /\ q_finished (qs r') = Some now
    else q_status (qs r') = "pending"%string /\
         q_scheduled (qs r') = now + Z.min (2 ^ q_attempts (qs c)) 3600 * second /\
         now + second <= q_scheduled (qs r') <= now + hour.
Proof.
  intros Hr Ha. unfold mark_failure.
  assert (Halter : forall f : R -> R, alter f id T = <[id := f r]> T).
  { intros f. apply map_eq. intros i. destruct (decide (i = id)) as [->|].
    - by rewrite lookup_alter_eq, lookup_insert_eq, Hr.
    - by rewrite lookup_alter_ne, lookup_insert_ne. }
  pose proof (Z.pow_pos_nonneg 2 (q_attempts (qs c)) ltac:(lia) Ha).
  destruct (Z.leb_spec (q_max (qs c)) (q_attempts (qs c))); rewrite Halter; eexists; (split; [reflexivity|]);
    rewrite !qs_with; simpl; [done|].
  rewrite backoff_exact by done. split_and!; try done; unfold second, hour; lia.
Qed.

Lemma failure_backs_off_witness :
  exists r', mark_failure 0 "j1" "boom" 1 2 {[ "j1"%string := demo_job ]} = <[ "j1"%string := r' ]> {[ "j1"%string := demo_job ]} /\
    q_scheduled (qs r') = 2 * second.
Proof.
  destruct (failure_backs_off 0 "j1" "boom" (demo_job <| j_state ::= fun s => s <| q_attempts := 1 |> |>) demo_job
              {[ "j1"%string := demo_job ]} ltac:(apply lookup_singleton_eq) ltac:(simpl; lia)) as (r' & Hr & _ & _ & _ & Hs & _).
  exists r'. split; [exact Hr|]. rewrite Hs. reflexivity.
Defined.

(** At most one job row per function and idempotency key, ever.  Every
    enqueue keeps that, and enqueueing a key that already has a row inserts
    nothing: within the requested window the existing job is returned as a
    replay; after the window it is still returned as a replay for 24 hours,
    and after that the enqueue fails for as long as the row exists. *)
Theorem enqueue_one_row_per_key functions now id sched j T :
  key_unique T ->
  key_unique (fst (EnqueueJob functions now id sched j T)) /\
  forall id0 j0, T !! id0 = Some j0 -> j_FunctionID j0 = j_FunctionID j ->
    j_IdempotencyKey j0 = j_IdempotencyKey j -> j_IdempotencyKey j <> ""%string ->
    let window := if j_WindowSeconds j <=? 0 then 86400 else j_WindowSeconds j in
    EnqueueJob functions now id sched j T =
    (T, if (now - wrap64 (window * second) <=? j_CreatedAt j0) || (now - 86400 * second <=? j_CreatedAt j0)
        then Ok (id0, j0 <| j_Replayed := true |>) else Err ErrUnique).
Proof.
  intros Hu. split.
  - unfold EnqueueJob. set (j' := j <| j_state ::= _ |> <| j_CreatedAt := now |>).
    cbv zeta. match goal with |- context [match ?h with Some _ => _ | None => _ end] => destruct h as [[? ?]|]; [done|] end.
    destruct (insert_job functions id j' T) as [T'|e] eqn:E; [by eapply insert_job_unique|].
    match goal with |- context [match ?h with Some _ => _ | None => _ end] => by destruct h as [[? ?]|] end.
  - intros id0 j0 H0 Hf Hk Hne. unfold EnqueueJob. simpl.
    rewrite bool_decide_false by done.
    rewrite !(getJobByIdempotency_unique _ _ _ T id0 j0) by done.
    match goal with |- context [now - ?x <=? _] => destruct (now - x <=? j_CreatedAt j0); [done|] end.
    erewrite insert_job_conflict by done. simpl. by destruct (now - 86400 * second <=? j_CreatedAt j0).
Qed.

Lemma enqueue_one_row_per_key_witness :
  let T := {[ "j1"%string := demo_job ]} in
  EnqueueJob {[ "fn-a"%string ]} (50 + 61 * second) "j2" None demo_job T =
  (T, Ok ("j1"%string, demo_job <| j_Replayed := true |>)).
Proof.
  intros T.
  assert (Hu : key_unique T).
  { intros i1 i2 j1 j2 H1 H2 _ _ _. apply lookup_singleton_Some in H1 as [<- _].
    by apply lookup_singleton_Some in H2 as [<- _]. }
  destruct (enqueue_one_row_per_key {[ "fn-a"%string ]} (50 + 61 * second) "j2" None demo_job T Hu) as [_ H].
  rewrite (H "j1"%string demo_job ltac:(apply lookup_singleton_eq) eq_refl eq_refl ltac:(discriminate)). reflexivity.
Defined.

(** [RetryJob] does not look at the status.  Retrying a job that is
    running puts it back in the queue, and the next tick hands it to a second
    worker while the first is still on it. *)
Theorem retry_of_running_job_runs_twice now id r (T : gmap string Job) :
  T !! id = Some r -> q_status (qs r) = "running"%string ->
  exists c, snd (ClaimDueJobs [id] now 1 (RetryJob now id T)) = [(id, c)].
Proof.
  intros Hr Hst. unfold ClaimDueJobs, RetryJob, claim, claim_ids, retry. simpl.
  unfold filter, list_filter. simpl. unfold due_at. rewrite lookup_alter_eq, Hr. simpl.
  unfold is_due. simpl. rewrite Z.leb_refl. simpl.
  rewrite lookup_alter_eq, lookup_alter_eq, Hr. simpl. eauto.
Qed.

Lemma retry_of_running_job_runs_twice_witness :
  exists c, snd (ClaimDueJobs ["j1"%string] 300 1
    (RetryJob 300 "j1" {[ "j1"%string := demo_job <| j_state ::= fun s => s <| q_status := "running"%string |> |> ]}))
    = [("j1"%string, c)].
Proof. eapply retry_of_running_job_runs_twice; [apply lookup_singleton_eq|reflexivity]. Defined.
