(* ===== verification/WriteBatch.v ===== *)
(** * Committing a batch of queued writes ([database/async.go])

    The consumer side of the asynchronous writer: leases and the slots they
    hold, dropping the rows of deleted functions, grouping marked INSERTs into
    multi-row statements, the one-transaction fast path and the savepoint pass
    that isolates a failing statement.

    SQLite is a parameter: [exec] is the effect of one statement on the
    database and [fn_exists] the lookup in the functions table.  Everything
    that can go wrong between the process and the file (no connection, a busy
    or locked database, an expired context, an I/O error) is the list of
    faults a pass consumes, one entry per database call. *)
From S2P Require Import Prelude GoText.
Open Scope Z_scope.

(* ------------------------------------------------------------------ *)
(** ** Jobs *)

(** Statement arguments ([any]); values other than strings and byte slices
    are word-sized. *)
Inductive arg := AString (s : string) | ABytes (b : list Z) | AOther (v : Z).

#[export] Instance arg_eq_dec : EqDecision arg.
Proof. solve_decision. Defined.

(** A lease is named by a number; [None] is the nil lease of best-effort jobs. *)
Record writeJob := WriteJob {
  sql : string; args : list arg; functionID : string; lease : option nat;
  bulkInsert : bool; enqueuedAt : Z; job_bytes : Z; attempts : Z
}.

#[export] Instance writeJob_eta : Eta writeJob := fun j =>
  WriteJob (sql j) (args j) (functionID j) (lease j) (bulkInsert j) (enqueuedAt j) (job_bytes j) (attempts j).

Definition arg_bytes (a : arg) : Z :=
  match a with AString s => len s | ABytes b => Z.of_nat (length b) | AOther _ => 16 end.

Definition jobBytes (statement : string) (xs : list arg) : Z :=
  foldl (fun n a => n + arg_bytes a) (len statement + 64) xs.

Inductive writeKind := writeCritical | writeActivity | writeTelemetry.

#[export] Instance writeKind_eq_dec : EqDecision writeKind.
Proof. solve_decision. Defined.

Definition maxBulkInsertArgs : nat := 850.
Definition maxJobAttempts : Z := 3.

(** How a queued job ended; a history variable, the code keeps only counters. *)
Inductive outcome := Written | FunctionDeleted | ShedWrite | Unwritten.

#[export] Instance outcome_eq_dec : EqDecision outcome.
Proof. solve_decision. Defined.

Record writerTiming := WriterTiming {
  t_attempts : Z; t_committedJobs : Z; t_queueWaitNS : Z; t_queueWaitCount : Z
}.

#[export] Instance writerTiming_eta : Eta writerTiming := fun t =>
  WriterTiming (t_attempts t) (t_committedJobs t) (t_queueWaitNS t) (t_queueWaitCount t).

(** What a commit pass touches: the database, the cache of live functions,
    the slots and lease states (0 caller-owned, 1 writer-owned, 2 released),
    and the counters. *)
Record books {DB : Type} := Books {
  db : DB;
  liveFunctions : gset string;
  criticalSlots : Z;
  leases : gmap nat Z;
  dropped : Z; droppedActivity : Z; deletedWrites : Z; failed : Z; shed : Z; retried : Z;
  timing : writeKind -> writerTiming;
  settled : list (outcome * writeJob)
}.
Arguments books : clear implicits.
Arguments Books {DB}.

#[export] Instance books_eta {DB} : Eta (books DB) := fun b =>
  Books (db b) (liveFunctions b) (criticalSlots b) (leases b) (dropped b) (droppedActivity b)
        (deletedWrites b) (failed b) (shed b) (retried b) (timing b) (settled b).

(* ------------------------------------------------------------------ *)
(** ** Leases *)

Section Leases.
Context {DB : Type}.
Implicit Types b : books DB.

(** [CompareAndSwap(old, 2)] followed by the send that returns the slot. *)
Definition finish_lease (old : Z) (l : option nat) b : books DB :=
  match l with
  | Some l =>
    if bool_decide (leases b !! l = Some old)
    then b <| leases ::= <[l := 2]> |> <| criticalSlots ::= Z.succ |> else b
  | None => b
  end.

Definition Cancel := finish_lease 0.
Definition done_ := finish_lease 1.

Definition transfer (l : nat) b : option (books DB) :=
  if bool_decide (leases b !! l = Some 0) then Some (b <| leases ::= <[l := 1]> |>) else None.

Definition releaseJobs (jobs : list writeJob) b : books DB :=
  foldl (fun b j => done_ (lease j) b) b jobs.

Definition recordDropped (kind : writeKind) (count : Z) b : books DB :=
  let b := b <| dropped ::= Z.add count |> in
  match kind with writeActivity => b <| droppedActivity ::= Z.add count |> | _ => b end.

Definition on_timing (kind : writeKind) (f : writerTiming -> writerTiming) b : books DB :=
  b <| timing ::= fun t k => if bool_decide (k = kind) then f (t k) else t k |>.

(** Record outcomes in the history variable. *)
Definition settle (o : outcome) (jobs : list writeJob) b : books DB :=
  b <| settled ::= fun l => l ++ map (pair o) jobs |>.

End Leases.

(* ------------------------------------------------------------------ *)
(** ** Multi-row INSERTs *)

(** [strings.LastIndex], [i] being the position of [s]. *)
Fixpoint lastIndex_from (sub s : string) (i : nat) : option nat :=
  match s with
  | EmptyString => if hasPrefix sub s then Some i else None
  | String _ r =>
    match lastIndex_from sub r (S i) with
    | Some k => Some k
    | None => if hasPrefix sub s then Some i else None
    end
  end.

Definition lastIndex (s sub : string) : option nat := lastIndex_from sub s 0.

Fixpoint repeat_tuple (tuple : string) (rows : nat) (first : bool) : string :=
  match rows with
  | O => ""
  | S rows => (if first then "" else ",") +:+ tuple +:+ repeat_tuple tuple rows false
  end.

Definition bulkInsertSQL (statement : string) (rows : nat) : string :=
  if (rows <? 2)%nat then ""
  else
    match lastIndex statement "VALUES (" with
    | None => ""
    | Some idx =>
      let prefix := str_take (idx + String.length "VALUES ") statement in
      let tuple := trimSpace (str_drop (idx + String.length "VALUES ") statement) in
      if negb (hasPrefix "(" tuple) || negb (hasSuffix ")" tuple) then ""
      else prefix +:+ repeat_tuple tuple rows true
    end.

Fixpoint bulk_scan (first : writeJob) (rest : list writeJob) (end_ argCount : nat) : nat * nat :=
  match rest with
  | j :: rest =>
    if bulkInsert j && bool_decide (sql j = sql first) &&
       (argCount + length (args j) <=? maxBulkInsertArgs)%nat
    then bulk_scan first rest (S end_) (argCount + length (args j))
    else (end_, argCount)
  | [] => (end_, argCount)
  end.

Definition bulkGroupEnd (work : list writeJob) (start : nat) : option (nat * nat) :=
  match work !! start with
  | Some first => Some (bulk_scan first (drop (S start) work) (S start) (length (args first)))
  | None => None
  end.

(* ------------------------------------------------------------------ *)
(** ** Errors of the database *)

(** A SQLite error with its code, or an error of another shape. *)
Inductive sqlerr := SqliteError (code : Z) | OtherError.

#[export] Instance sqlerr_eq_dec : EqDecision sqlerr.
Proof. solve_decision. Defined.

Definition permanentWriteFailure (e : sqlerr) : bool :=
  match e with
  | SqliteError code =>
    let c := Z.land code 255 in
    (c =? 19) || (c =? 1) || (c =? 20)   (* CONSTRAINT, ERROR, MISMATCH *)
  | OtherError => false
  end.

(** One entry per database call: [Some e] makes the call fail with [e];
    beyond the end of the list no call is disturbed. *)
Definition faults := list (option sqlerr).

Definition attempt {A} (r : res sqlerr A) (fs : faults) : res sqlerr A * faults :=
  match fs with
  | [] => (r, [])
  | None :: fs => (r, fs)
  | Some e :: fs => (Err e, fs)
  end.

(* ------------------------------------------------------------------ *)
(** ** The commit pass *)

Section Commit.
Context {DB : Type} (exec : string -> list arg -> DB -> res sqlerr DB) (fn_exists : string -> DB -> bool).
Implicit Types b : books DB.

(** The loop of [filterDeleted]: kept and discarded jobs in order, the cache
    afterwards; [known] are the answers of this pass. *)
Fixpoint filter_loop (d : DB) (batch : list writeJob) (known : gmap string bool) (live : gset string)
    (keep discarded : list writeJob) (fs : faults)
  : res sqlerr (list writeJob * list writeJob) * gset string * faults :=
  match batch with
  | [] => (Ok (keep, discarded), live, fs)
  | j :: rest =>
    if bool_decide (functionID j = ""%string) || bool_decide (functionID j ∈ live)
    then filter_loop d rest known live (keep ++ [j]) discarded fs
    else
      match known !! functionID j with
      | Some true => filter_loop d rest known live (keep ++ [j]) discarded fs
      | Some false => filter_loop d rest known live keep (discarded ++ [j]) fs
      | None =>
        match attempt (Ok (fn_exists (functionID j) d)) fs with
        | (Err e, fs) => (Err e, live, fs)
        | (Ok found, fs) =>
          let known := <[functionID j := found]> known in
          if found then filter_loop d rest known ({[functionID j]} ∪ live) (keep ++ [j]) discarded fs
          else filter_loop d rest known live keep (discarded ++ [j]) fs
        end
      end
  end.

Definition filterDeleted (batch : list writeJob) (fs : faults) b
  : res sqlerr (list writeJob * list writeJob) * books DB * faults :=
  let '(r, live, fs) := filter_loop (db b) batch ∅ (liveFunctions b) [] [] fs in
  let b := b <| liveFunctions := live |> in
  match r with
  | Err e => (Err e, b, fs)
  | Ok (keep, discarded) =>
    (Ok (keep, discarded), settle FunctionDeleted discarded (releaseJobs discarded b), fs)
  end.

(** The statement run for the jobs from [i] on: its text, its arguments, the
    index of the next one. *)
Definition group_at (work : list writeJob) (i : nat) (j : writeJob) : string * list arg * nat :=
  if bulkInsert j then
    match bulkGroupEnd work i with
    | Some (groupEnd, _) =>
      if (S i <? groupEnd)%nat then
        let bulk := bulkInsertSQL (sql j) (groupEnd - i) in
        if bool_decide (bulk = ""%string) then (sql j, args j, S i)
        else (bulk, concat (map args (take (groupEnd - i) (drop i work))), groupEnd)
      else (sql j, args j, groupEnd)
    | None => (sql j, args j, S i)
    end
  else (sql j, args j, S i).

(** The statements of the fast path, prepared once per text; [fuel] bounds
    the number of groups. *)
Fixpoint exec_loop (fuel : nat) (work : list writeJob) (i : nat) (prepared : gset string) (tx : DB) (fs : faults)
  : res sqlerr DB * faults :=
  match fuel, work !! i with
  | _, None => (Ok tx, fs)
  | O, Some _ => (Err OtherError, fs)
  | S fuel, Some j =>
    let '(statement, xs, next) := group_at work i j in
    let '(p, fs) := if bool_decide (statement ∈ prepared) then (Ok tt, fs) else attempt (Ok tt) fs in
    match p with
    | Err e => (Err e, fs)
    | Ok _ =>
      match attempt (exec statement xs tx) fs with
      | (Err e, fs) => (Err e, fs)
      | (Ok tx, fs) => exec_loop fuel work next ({[statement]} ∪ prepared) tx fs
      end
    end
  end.

(** One job of the savepoint pass: [None] when the transaction is lost,
    otherwise the transaction afterwards and the execution error, if any. *)
Definition isolated_job (j : writeJob) (tx : DB) (fs : faults) : option (DB * option sqlerr) * faults :=
  match attempt (Ok tt) fs with                                    (* SAVEPOINT *)
  | (Err _, fs) => (None, fs)
  | (Ok _, fs) =>
    match attempt (exec (sql j) (args j) tx) fs with
    | (Ok tx', fs) =>
      match attempt (Ok tt) fs with                                (* RELEASE *)
      | (Err _, fs) => (None, fs)
      | (Ok _, fs) => (Some (tx', None), fs)
      end
    | (Err e, fs) =>
      match attempt (Ok tt) fs with                                (* ROLLBACK TO *)
      | (Err _, fs) => (None, fs)
      | (Ok _, fs) =>
        let '(_, fs) := attempt (Ok tt) fs in                      (* RELEASE, result ignored *)
        (Some (tx, Some e), fs)
      end
    end
  end.

Fixpoint isolated_loop (batch : list writeJob) (tx : DB) (fs : faults) (retry : list writeJob)
    (resolved : list (outcome * writeJob)) : option (DB * list writeJob * list (outcome * writeJob)) * faults :=
  match batch with
  | [] => (Some (tx, retry, resolved), fs)
  | j :: rest =>
    match isolated_job j tx fs with
    | (None, fs) => (None, fs)
    | (Some (tx, None), fs) => isolated_loop rest tx fs retry (resolved ++ [(Written, j)])
    | (Some (tx, Some e), fs) =>
      let j := j <| attempts ::= Z.succ |> in
      if permanentWriteFailure e || (maxJobAttempts <=? attempts j)
      then isolated_loop rest tx fs retry (resolved ++ [(ShedWrite, j)])
      else isolated_loop rest tx fs (retry ++ [j]) resolved
    end
  end.

Definition is_shed (r : outcome * writeJob) : Z := match r.1 with ShedWrite => 1 | _ => 0 end.

Definition commitIsolated (batch : list writeJob) (kind : writeKind) (fs : faults) b
  : books DB * list writeJob * faults :=
  match attempt (Ok tt) fs with                                    (* BeginTx *)
  | (Err _, fs) => (b, batch, fs)
  | (Ok _, fs) =>
    match isolated_loop batch (db b) fs [] [] with
    | (None, fs) => (b, batch, fs)
    | (Some (tx, retry, resolved), fs) =>
      match attempt (Ok tt) fs with                                (* Commit *)
      | (Err _, fs) => (b, batch, fs)
      | (Ok _, fs) =>
        let n := zsum is_shed resolved in
        let b := releaseJobs (map snd resolved) (b <| db := tx |>) <| settled ::= fun l => l ++ resolved |> in
        let b := if 0 <? n then
                   let b := b <| shed ::= Z.add n |> in
                   match kind with
                   | writeCritical => b <| failed ::= Z.add n |>
                   | _ => recordDropped kind n b
                   end
                 else b in
        let b := b <| retried ::= Z.add (Z.of_nat (length retry)) |> in
        (b, retry, fs)
      end
    end
  end.

Definition queue_wait (committedAt : Z) (t : writerTiming) (j : writeJob) : writerTiming :=
  if (0 <? enqueuedAt j) && (enqueuedAt j <=? committedAt)
  then t <| t_queueWaitNS ::= Z.add (committedAt - enqueuedAt j) |> <| t_queueWaitCount ::= Z.succ |>
  else t.

Definition commit (batch : list writeJob) (kind : writeKind) (committedAt : Z) (fs : faults) b
  : books DB * list writeJob * faults :=
  match filterDeleted batch fs b with
  | (Err _, b, fs) => (b, batch, fs)
  | (Ok (work, discarded), b, fs) =>
    let b := b <| deletedWrites ::= Z.add (Z.of_nat (length discarded)) |> in
    match work with
    | [] => (b, [], fs)
    | _ =>
      let b := on_timing kind (fun t => t <| t_attempts ::= Z.succ |>) b in
      match attempt (Ok tt) fs with                                (* BeginTx *)
      | (Err _, fs) => (b, work, fs)
      | (Ok _, fs) =>
        match exec_loop (length work) work 0 ∅ (db b) fs with
        | (Ok tx, fs) =>
          match attempt (Ok tt) fs with                            (* Commit *)
          | (Err _, fs) => (b, work, fs)
          | (Ok _, fs) =>
            let b := on_timing kind (fun t =>
                       foldl (queue_wait committedAt)
                             (t <| t_committedJobs ::= Z.add (Z.of_nat (length work)) |>) work)
                       (b <| db := tx |>) in
            (settle Written work (releaseJobs work b), [], fs)
          end
        | (Err _, fs) => commitIsolated work kind fs b
        end
      end
    end
  end.

End Commit.

(** [nextBackoff]: doubles from a tenth of a second up to five. *)
Definition maxCommitBackoff : Z := 5 * second.
Definition nextBackoff (cur : Z) : Z :=
  if cur =? 0 then 100 * millisecond
  else let next := cur * 2 in if maxCommitBackoff <? next then maxCommitBackoff else next.

Definition reserveQueueBytes (counter n limit : Z) : option Z :=
  if (n <? 0) || (limit <? n) then None
  else if (counter <? 0) || (limit - n <? counter) then None
  else Some (counter + n).

(* ------------------------------------------------------------------ *)
(** ** Specification vocabulary *)

(** A job up to the number of passes it has survived. *)
Definition core (j : writeJob) : writeJob := j <| attempts := 0 |>.

(** The jobs of a history that reached the database, in order. *)
Definition written (l : list (outcome * writeJob)) : list writeJob :=
  omap (fun r => match r.1 with Written => Some r.2 | _ => None end) l.

Definition count_outcome (o : outcome) (l : list (outcome * writeJob)) : Z :=
  zsum (fun r => if bool_decide (r.1 = o) then 1 else 0) l.

(** Placeholders of a statement. *)
Fixpoint binds (s : string) : nat :=
  match s with EmptyString => 0 | String c s => (if ord c =? 63 then 1 else 0) + binds s end.

(** A job marked for grouping carries one argument per placeholder. *)
Definition well_bound (j : writeJob) : Prop := bulkInsert j = true -> length (args j) = binds (sql j).

(** The reference meaning of a list of jobs: one statement each, in order. *)
Fixpoint apply_jobs {DB} (exec : string -> list arg -> DB -> res sqlerr DB) (js : list writeJob) (d : DB)
  : res sqlerr DB :=
  match js with
  | [] => Ok d
  | j :: js => match exec (sql j) (args j) d with Ok d => apply_jobs exec js d | Err e => Err e end
  end.

(** The documented meaning of a multi-row INSERT: where it succeeds, it
    inserts its rows one after the other. *)
Definition multi_row_insert {DB} (exec : string -> list arg -> DB -> res sqlerr DB) : Prop :=
  forall s js d d',
    Forall (fun j => sql j = s /\ length (args j) = binds s) js ->
    bulkInsertSQL s (length js) <> ""%string ->
    exec (bulkInsertSQL s (length js)) (concat (map args js)) d = Ok d' ->
    apply_jobs exec js d = Ok d'.

(* ------------------------------------------------------------------ *)
(** ** Lemmas *)

Section LeaseLemmas.
Context {DB : Type}.
Implicit Types b : books DB.

Definition lease_view b : Z * gmap nat Z := (criticalSlots b, leases b).

Lemma finish_lease_view old l b1 b2 :
  lease_view b1 = lease_view b2 -> lease_view (finish_lease old l b1) = lease_view (finish_lease old l b2).
Proof.
  unfold lease_view, finish_lease. intros [= Hs Hl]. destruct l as [l|]; [|by rewrite Hs, Hl].
  rewrite Hl. case_bool_decide; simpl; by rewrite ?Hs, ?Hl.
Qed.

Lemma releaseJobs_view js b1 b2 :
  lease_view b1 = lease_view b2 -> lease_view (releaseJobs js b1) = lease_view (releaseJobs js b2).
Proof.
  revert b1 b2. induction js as [|j js IH]; intros b1 b2 Hv; [done|]. apply IH. by apply finish_lease_view.
Qed.

Lemma releaseJobs_app js ks b : releaseJobs (js ++ ks) b = releaseJobs ks (releaseJobs js b).
Proof. unfold releaseJobs. apply foldl_app. Qed.

(** [releaseJobs] touches only slots and leases. *)
Lemma releaseJobs_frame {A} (f : books DB -> A) js b :
  (forall old l b, f (finish_lease old l b) = f b) -> f (releaseJobs js b) = f b.
Proof.
  intros Hf. revert b. induction js as [|j js IH]; intros b; [done|].
  change (f (releaseJobs js (done_ (lease j) b)) = f b). rewrite IH. apply Hf.
Qed.

Lemma finish_lease_frame old l b :
  db (finish_lease old l b) = db b /\ settled (finish_lease old l b) = settled b /\
  deletedWrites (finish_lease old l b) = deletedWrites b /\ shed (finish_lease old l b) = shed b /\
  failed (finish_lease old l b) = failed b /\ dropped (finish_lease old l b) = dropped b.
Proof. unfold finish_lease. destruct l; [case_bool_decide|]; repeat split. Qed.

Lemma releaseJobs_same js b :
  db (releaseJobs js b) = db b /\ settled (releaseJobs js b) = settled b /\
  deletedWrites (releaseJobs js b) = deletedWrites b /\ shed (releaseJobs js b) = shed b /\
  failed (releaseJobs js b) = failed b /\ dropped (releaseJobs js b) = dropped b.
Proof.
  repeat split; apply releaseJobs_frame; intros; eapply finish_lease_frame.
Qed.
End LeaseLemmas.

Lemma bulk_scan_spec first rest e c e' c' :
  bulk_scan first rest e c = (e', c') ->
  exists grp, grp = take (e' - e) rest /\ (e <= e')%nat /\ length grp = (e' - e)%nat /\
    Forall (fun j => bulkInsert j = true /\ sql j = sql first) grp.
Proof.
  revert e c. induction rest as [|j rest IH]; intros e c; simpl.
  - intros [= <- <-]. exists []. rewrite take_nil, Nat.sub_diag. repeat split; auto.
  - destruct (_ && _) eqn:E.
    + intros (grp & -> & He & Hl & Hf)%IH. exists (take (e' - e) (j :: rest)).
      replace (e' - e)%nat with (S (e' - S e)) by lia. zbool. simpl in *. repeat split; try lia.
      constructor; auto.
    + intros [= <- <-]. exists []. rewrite Nat.sub_diag. repeat split; auto.
Qed.

Section CommitLemmas.
Context {DB : Type} (exec : string -> list arg -> DB -> res sqlerr DB) (fn_exists : string -> DB -> bool).
Implicit Types b : books DB.

Lemma attempt_ok {A} (r : res sqlerr A) fs a fs' : attempt r fs = (Ok a, fs') -> r = Ok a.
Proof using Type. destruct fs as [|[e|] fs]; simpl; congruence. Qed.

Lemma apply_jobs_app js ks d :
  apply_jobs exec (js ++ ks) d =
  match apply_jobs exec js d with Ok d' => apply_jobs exec ks d' | Err e => Err e end.
Proof. revert d. induction js as [|j js IH]; intros d; simpl; [done|]. destruct (exec _ _ _); auto. Qed.

(** [k] kept and [dd] discarded out of [batch], against the cache [live]. *)
Definition filtered (d : DB) (live : gset string) (batch k dd : list writeJob) : Prop :=
  Permutation batch (dd ++ k) /\ (k `sublist_of` batch) /\
  Forall (fun j => functionID j <> ""%string /\ (functionID j ∉ live) /\ fn_exists (functionID j) d = false) dd /\
  Forall (fun j => functionID j = ""%string \/ functionID j ∈ live \/ fn_exists (functionID j) d = true) k.

Lemma filtered_keep d live live0 j batch k dd :
  (forall f, f ∈ live0 -> f ∈ live \/ fn_exists f d = true) -> live ⊆ live0 ->
  (functionID j = ""%string \/ functionID j ∈ live \/ fn_exists (functionID j) d = true) ->
  filtered d live0 batch k dd -> filtered d live (j :: batch) (j :: k) dd.
Proof using fn_exists.
  intros Hl0 Hsub Hj (Hp & Hs & Hd & Hk). repeat split.
  - rewrite Hp. apply Permutation_middle.
  - by constructor.
  - eapply Forall_impl; [exact Hd|]. intros x (? & Hx & ?). split_and!; auto.
  - constructor; [done|]. eapply Forall_impl; [exact Hk|]. intros x [?|[Hx|?]]; auto.
Qed.

Lemma filtered_drop d live j batch k dd :
  functionID j <> ""%string -> functionID j ∉ live -> fn_exists (functionID j) d = false ->
  filtered d live batch k dd -> filtered d live (j :: batch) k (j :: dd).
Proof using fn_exists.
  intros ? ? ? (Hp & Hs & Hd & Hk). repeat split; auto.
  - simpl. by rewrite Hp.
  - by constructor.
Qed.

Definition answers (d : DB) (known : gmap string bool) : Prop :=
  map_Forall (fun f found => found = fn_exists f d) known.

Lemma filter_loop_spec d batch known live keep disc fs keep' disc' live' fs' :
  answers d known ->
  filter_loop fn_exists d batch known live keep disc fs = (Ok (keep', disc'), live', fs') ->
  exists k dd, keep' = keep ++ k /\ disc' = disc ++ dd /\ filtered d live batch k dd.
Proof using fn_exists.
  clear exec.
  revert known live keep disc fs. induction batch as [|j batch IH]; intros known live keep disc fs Hk; simpl.
  { intros [= <- <- <- <-]. exists [], []. rewrite !app_nil_r. repeat split; auto. }
  assert (Keep : forall known live0 fs, answers d known ->
    (forall f, f ∈ live0 -> f ∈ live \/ fn_exists f d = true) -> live ⊆ live0 ->
    (functionID j = ""%string \/ functionID j ∈ live \/ fn_exists (functionID j) d = true) ->
    filter_loop fn_exists d batch known live0 (keep ++ [j]) disc fs = (Ok (keep', disc'), live', fs') ->
    exists k dd, keep' = keep ++ k /\ disc' = disc ++ dd /\ filtered d live (j :: batch) k dd).
  { intros kn l0 f0 Hkn Hl0 Hsub Hj H. apply IH in H as (k & dd & -> & -> & Hf); [|done].
    exists (j :: k), dd. rewrite <- app_assoc. split_and!; [done..|]. by eapply filtered_keep. }
  assert (Drop : forall known fs, answers d known ->
    functionID j <> ""%string -> functionID j ∉ live -> fn_exists (functionID j) d = false ->
    filter_loop fn_exists d batch known live keep (disc ++ [j]) fs = (Ok (keep', disc'), live', fs') ->
    exists k dd, keep' = keep ++ k /\ disc' = disc ++ dd /\ filtered d live (j :: batch) k dd).
  { intros kn f0 Hkn ??? H. apply IH in H as (k & dd & -> & -> & Hf); [|done].
    exists k, (j :: dd). rewrite <- app_assoc. split_and!; [done..|]. by apply filtered_drop. }
  destruct (bool_decide (functionID j = ""%string)) eqn:E0; simpl; zbool; [by apply Keep; auto|].
  destruct (bool_decide (functionID j ∈ live)) eqn:E1; zbool; [by apply Keep; auto|].
  destruct (known !! functionID j) as [[]|] eqn:Ek.
  - pose proof (Hk _ _ Ek). apply Keep; auto.
  - pose proof (Hk _ _ Ek). apply Drop; auto.
  - destruct (attempt _ _) as [[found|e] fs1] eqn:Ea; [|discriminate].
    apply attempt_ok in Ea. injection Ea as Hfound.
    assert (answers d (<[functionID j:=found]> known)) by (apply map_Forall_insert_2; [by subst|done]).
    destruct found; [|by apply Drop]. apply Keep; auto; [|set_solver].
    intros f. rewrite elem_of_union, elem_of_singleton. intros [->|]; auto.
Qed.

Lemma filterDeleted_spec batch fs b r b' fs' :
  filterDeleted fn_exists batch fs b = (r, b', fs') ->
  match r with
  | Err _ => b' = b <| liveFunctions := liveFunctions b' |>
  | Ok (work, disc) =>
    Permutation batch (disc ++ work) /\ (work `sublist_of` batch) /\
    Forall (fun j => functionID j <> ""%string /\ fn_exists (functionID j) (db b) = false) disc /\
    b' = settle FunctionDeleted disc (releaseJobs disc (b <| liveFunctions := liveFunctions b' |>))
  end.
Proof using fn_exists.
  clear exec.
  unfold filterDeleted. destruct (filter_loop _ _ _ _ _ _ _ _) as [[[[keep disc]|e] live] fs1] eqn:E.
  - intros [= <- <- <-]. apply filter_loop_spec in E; [|apply map_Forall_empty].
    destruct E as (k & dd & -> & -> & Hp & Hs & Hd & _). repeat split; auto.
    + eapply Forall_impl; [exact Hd|]. by intros x (? & ? & ?).
    + f_equal. f_equal. f_equal.
      assert (forall l b0, liveFunctions (settle FunctionDeleted l (releaseJobs l b0)) = liveFunctions b0) as Hl.
      { intros l b0. cbn. apply (releaseJobs_frame liveFunctions). intros old o b1. unfold finish_lease.
        destruct o; [case_bool_decide|]; done. }
      by rewrite Hl.
  - intros [= <- <- <-]. done.
Qed.

Section Groups.
Hypothesis Hbulk : multi_row_insert exec.

(** A group is a non-empty run of jobs from [i] on, and its statement does what they do. *)
Lemma group_at_spec work i j st xs next :
  Forall well_bound work -> work !! i = Some j -> group_at work i j = (st, xs, next) ->
  exists grp, drop i work = grp ++ drop next work /\ (i < next)%nat /\
    forall d d', exec st xs d = Ok d' -> apply_jobs exec grp d = Ok d'.
Proof.
  intros Hwb Hj. pose proof (drop_S _ _ _ Hj) as Hd. unfold group_at.
  assert (Single : (sql j, args j, S i) = (st, xs, next) -> exists grp,
    drop i work = grp ++ drop next work /\ (i < next)%nat /\
    forall d d', exec st xs d = Ok d' -> apply_jobs exec grp d = Ok d').
  { intros [= <- <- <-]. exists [j]. split_and!; [done|lia|]. intros d d' He. simpl. by rewrite He. }
  destruct (bulkInsert j) eqn:Eb; [|done]. unfold bulkGroupEnd. rewrite Hj.
  destruct (bulk_scan _ _ _ _) as [e c] eqn:Es.
  apply bulk_scan_spec in Es as (grp & Hgrp & He & Hlen & Hall).
  destruct (S i <? e)%nat eqn:Elt; [|by replace e with (S i) by (apply Nat.ltb_ge in Elt; lia)].
  apply Nat.ltb_lt in Elt. case_bool_decide as Eempty; [done|]. intros [= <- <- <-].
  exists (take (e - i) (drop i work)).
  assert (Hsz : length (take (e - i) (drop i work)) = (e - i)%nat).
  { rewrite Hd. replace (e - i)%nat with (S (e - S i)) by lia. simpl. rewrite <- Hgrp. lia. }
  split_and!; [|lia|].
  { rewrite <- (take_drop (e - i) (drop i work)) at 1. rewrite drop_drop. do 2 f_equal. lia. }
  intros d d' Hex. apply (Hbulk (sql j)); rewrite ?Hsz; try done.
  assert (Hin : Forall (fun x => bulkInsert x = true /\ sql x = sql j) (take (e - i) (drop i work))).
  { rewrite Hd. replace (e - i)%nat with (S (e - S i)) by lia. simpl. rewrite <- Hgrp. by constructor. }
  assert (Hwb' : Forall well_bound (take (e - i) (drop i work))) by (by apply Forall_take, Forall_drop).
  eapply Forall_impl; [apply Forall_and; split; [exact Hin|exact Hwb']|].
  intros x [[Hx1 Hx2] Hx3]. split; [done|]. rewrite <- Hx2. by apply Hx3.
Qed.

Lemma exec_loop_spec fuel work i prepared tx fs tx' fs' :
  Forall well_bound work -> exec_loop exec fuel work i prepared tx fs = (Ok tx', fs') ->
  apply_jobs exec (drop i work) tx = Ok tx'.
Proof.
  intros Hwb. revert i prepared tx fs. induction fuel as [|fuel IH]; intros i prepared tx fs; simpl;
    destruct (work !! i) as [j|] eqn:Ej; try discriminate.
  2: destruct (group_at work i j) as [[st xs] next] eqn:Eg;
     destruct (if bool_decide _ then _ else _) as [[?|?] fs1]; [|discriminate];
     destruct (attempt (exec st xs tx) fs1) as [[tx1|?] fs2] eqn:Ea; [|discriminate];
     intros Hrec%IH; apply attempt_ok in Ea;
     destruct (group_at_spec _ _ _ _ _ _ Hwb Ej Eg) as (grp & -> & _ & Hg);
     rewrite apply_jobs_app, (Hg _ _ Ea); exact Hrec.
  all: intros [= <- <-]; by rewrite drop_ge by (by apply lookup_ge_None).
Qed.
End Groups.

Lemma group_at_next work i j : (i < (group_at work i j).2)%nat.
Proof.
  unfold group_at, bulkGroupEnd. destruct (bulkInsert j); simpl; [|lia].
  destruct (work !! i) as [first|]; simpl; [|lia].
  destruct (bulk_scan _ _ _ _) as [e c] eqn:Es. apply bulk_scan_spec in Es as (_ & _ & ? & _).
  destruct (_ <? _)%nat; [|simpl; lia]. case_bool_decide; simpl; lia.
Qed.

(** The number of jobs is fuel enough: more fuel changes nothing. *)
Lemma exec_loop_fuel fuel k work i prepared tx fs :
  (length work - i <= fuel)%nat ->
  exec_loop exec (fuel + k) work i prepared tx fs = exec_loop exec fuel work i prepared tx fs.
Proof.
  revert i prepared tx fs. induction fuel as [|fuel IH]; intros i prepared tx fs Hf.
  { destruct k; [done|]. simpl. by rewrite lookup_ge_None_2 by lia. }
  simpl. destruct (work !! i) as [j|] eqn:Ej; [|done].
  pose proof (group_at_next work i j) as Hn. destruct (group_at work i j) as [[st xs] next]; simpl in Hn.
  destruct (if bool_decide _ then _ else _) as [[?|?] fs1]; [|done].
  destruct (attempt (exec st xs tx) fs1) as [[tx1|?] fs2]; [|done]. apply IH. lia.
Qed.

(** *** The savepoint pass *)

(** What one pass makes of a batch. *)
Definition isolated (batch : list writeJob) (tx tx' : DB) (retry : list writeJob)
    (resolved : list (outcome * writeJob)) : Prop :=
  apply_jobs exec (written resolved) tx = Ok tx' /\
  Permutation (map core batch) (map core (map snd resolved ++ retry)) /\
  (map core retry `sublist_of` map core batch) /\ (written resolved `sublist_of` batch) /\
  Forall (fun r => r.1 = Written \/ r.1 = ShedWrite) resolved /\
  Forall (fun j => attempts j < maxJobAttempts /\
                   exists j0, j0 ∈ batch /\ core j0 = core j /\ attempts j = attempts j0 + 1) retry.

Lemma isolated_cons_kept j batch retry :
  Forall (fun j => attempts j < maxJobAttempts /\
                   exists j0, j0 ∈ batch /\ core j0 = core j /\ attempts j = attempts j0 + 1) retry ->
  Forall (fun j' => attempts j' < maxJobAttempts /\
                   exists j0, j0 ∈ j :: batch /\ core j0 = core j' /\ attempts j' = attempts j0 + 1) retry.
Proof.
  intros H. eapply Forall_impl; [exact H|]. intros x (? & j0 & ? & ? & ?). split; [done|]. exists j0. split_and!; auto. by right.
Qed.

Lemma isolated_job_spec j tx fs tx' e fs' :
  isolated_job exec j tx fs = (Some (tx', e), fs') ->
  match e with None => exec (sql j) (args j) tx = Ok tx' | Some _ => tx' = tx end.
Proof.
  unfold isolated_job. intros H. repeat (case_match; simplify_eq/=; try done).
  by match goal with Ha : attempt (exec _ _ _) _ = (Ok _, _) |- _ => apply attempt_ok in Ha end.
Qed.

Lemma isolated_loop_spec batch tx fs retry resolved tx' retry' resolved' fs' :
  isolated_loop exec batch tx fs retry resolved = (Some (tx', retry', resolved'), fs') ->
  exists rt rs, retry' = retry ++ rt /\ resolved' = resolved ++ rs /\ isolated batch tx tx' rt rs.
Proof.
  revert tx fs retry resolved. induction batch as [|j batch IH]; intros tx fs retry resolved;
    cbn [isolated_loop].
  { intros [= <- <- <- <-]. exists [], []. rewrite !app_nil_r. repeat split; constructor. }
  destruct (isolated_job exec j tx fs) as [[[tx1 [e|]]|] fs1] eqn:Ej; [| |discriminate];
    apply isolated_job_spec in Ej.
  - subst tx1. cbv zeta. set (j' := j <| attempts ::= Z.succ |>).
    destruct (permanentWriteFailure e || (maxJobAttempts <=? attempts j')) eqn:Es;
      intros (rt & rs & -> & -> & Ha & Hp & Hs & Hw & Ho & Hr)%IH; rewrite <- app_assoc.
    + exists rt, ((ShedWrite, j') :: rs). split_and!; [done..|]. repeat split; try done.
      * simpl. by rewrite Hp.
      * by constructor.
      * by constructor.
      * constructor; [by right|done].
      * by apply isolated_cons_kept.
    + exists (j' :: rt), rs. split_and!; [done..|]. repeat split; try done.
      * simpl. rewrite Hp, !map_app. simpl. apply Permutation_middle.
      * by constructor.
      * by constructor.
      * apply orb_false_iff in Es as [_ Es]. zbool.
        constructor; [|by apply isolated_cons_kept]. split; [done|]. exists j. split_and!; [left|done|done].
  - intros (rt & rs & -> & -> & Ha & Hp & Hs & Hw & Ho & Hr)%IH. rewrite <- app_assoc.
    exists rt, ((Written, j) :: rs). split_and!; [done..|]. repeat split; try done.
    + simpl. by rewrite Ej.
    + simpl. by rewrite Hp.
    + by constructor.
    + by constructor.
    + constructor; [by left|done].
    + by apply isolated_cons_kept.
Qed.

(** *** Accounting of a whole pass *)

Definition lost_counter (kind : writeKind) b : Z :=
  match kind with writeCritical => failed b | _ => dropped b end.

(** [new] accounts for the jobs of [batch] that are not retained. *)
Definition accounts (kind : writeKind) b b' (batch retry : list writeJob) (new : list (outcome * writeJob)) : Prop :=
  settled b' = settled b ++ new /\
  Permutation (map core batch) (map core (map snd new ++ retry)) /\
  (multi_row_insert exec -> Forall well_bound batch -> apply_jobs exec (written new) (db b) = Ok (db b')) /\
  (map core retry `sublist_of` map core batch) /\ (map core (written new) `sublist_of` map core batch) /\
  lease_view b' = lease_view (releaseJobs (map snd new) b) /\
  deletedWrites b' = deletedWrites b + count_outcome FunctionDeleted new /\
  shed b' = shed b + count_outcome ShedWrite new /\
  lost_counter kind b' = lost_counter kind b + count_outcome ShedWrite new /\
  count_outcome Unwritten new = 0 /\
  Forall (fun r => r.1 = FunctionDeleted ->
                   functionID r.2 <> ""%string /\ fn_exists (functionID r.2) (db b) = false) new.

(** Nothing happened: the whole batch is retained. *)
Lemma accounts_retained kind b b' batch :
  settled b' = settled b -> db b' = db b -> lease_view b' = lease_view b -> deletedWrites b' = deletedWrites b ->
  shed b' = shed b -> lost_counter kind b' = lost_counter kind b -> accounts kind b b' batch batch [].
Proof.
  intros Hs Hd Hl Hx Hy Hz. unfold accounts. cbn. rewrite Hs, Hd, Hl, Hx, Hy, Hz, app_nil_r.
  repeat split; auto; try lia. apply sublist_nil_l.
Qed.

Lemma count_outcome_app o l1 l2 : count_outcome o (l1 ++ l2) = count_outcome o l1 + count_outcome o l2.
Proof. apply zsum_app. Qed.

Lemma count_outcome_pair o o' js :
  count_outcome o (map (pair o') js) = if bool_decide (o' = o) then Z.of_nat (length js) else 0.
Proof.
  unfold count_outcome. induction js as [|j js IH]; [by case_bool_decide|].
  cbn [map]. rewrite zsum_cons, IH. cbn [fst length]. case_bool_decide; lia.
Qed.

Lemma written_app l1 l2 : written (l1 ++ l2) = written l1 ++ written l2.
Proof. apply omap_app. Qed.

Lemma written_pair o js : written (map (pair o) js) = if bool_decide (o = Written) then js else [].
Proof. 
  destruct o; induction js as [|j js IH]; try done.
  change (j :: written (map (pair Written) js) = j :: js). by rewrite IH.
Qed.

Lemma map_snd_pair (o : outcome) (js : list writeJob) : map snd (map (pair o) js) = js.
Proof. induction js; simpl; congruence. Qed.

Lemma is_shed_count l : zsum is_shed l = count_outcome ShedWrite l.
Proof. unfold count_outcome. apply zsum_ext. intros [[] j] _; reflexivity. Qed.

Lemma resolved_counts rs :
  Forall (fun r : outcome * writeJob => r.1 = Written \/ r.1 = ShedWrite) rs ->
  count_outcome FunctionDeleted rs = 0 /\ count_outcome Unwritten rs = 0.
Proof.
  induction 1 as [|[o j] rs Ho _ [IH1 IH2]]; [done|]. unfold count_outcome in *. simpl in *.
  rewrite IH1, IH2. destruct Ho as [-> | ->]; done.
Qed.

Lemma sublist_core (l k : list writeJob) : l `sublist_of` k -> map core l `sublist_of` map core k.
Proof. induction 1; by constructor. Qed.

Lemma count_outcome_nonneg o l : 0 <= count_outcome o l.
Proof. apply zsum_nonneg, Forall_forall. intros r _. by case_bool_decide. Qed.

Lemma commitIsolated_spec batch kind fs b b' retry fs' :
  commitIsolated exec batch kind fs b = (b', retry, fs') -> exists new, accounts kind b b' batch retry new.
Proof.
  assert (Same : forall b', b' = b -> exists new, accounts kind b b' batch batch new).
  { intros ? ->. exists []. by apply accounts_retained. }
  unfold commitIsolated.
  destruct (attempt (Ok tt) fs) as [[?|?] fs1]; [|intros [= <- <- <-]; by apply Same].
  destruct (isolated_loop exec batch (db b) fs1 [] []) as [[[[tx rt] rs]|] fs2] eqn:El;
    [|intros [= <- <- <-]; by apply Same].
  destruct (attempt (Ok tt) fs2) as [[?|?] fs3]; [|intros [= <- <- <-]; by apply Same].
  apply isolated_loop_spec in El as (rt' & rs' & Hrt & Hrs & Ha & Hp & Hs & Hw & Ho & Hr).
  simpl in Hrt, Hrs. subst rt' rs'.
  assert (Forall (fun r => r.1 = FunctionDeleted ->
            functionID r.2 <> ""%string /\ fn_exists (functionID r.2) (db b) = false) rs) as Hnd.
  { eapply Forall_impl; [exact Ho|]. intros [o x] [Hx|Hx] Hy; simpl in *; congruence. }
  apply resolved_counts in Ho as [Hdel Hun].
  cbv zeta. set (b0 := b <| db := tx |>).
  destruct (releaseJobs_same (map snd rs) b0) as (E1 & E2 & E3 & E4 & E5 & E6).
  assert (lease_view (releaseJobs (map snd rs) b0) = lease_view (releaseJobs (map snd rs) b)) as Ev
    by by apply releaseJobs_view.
  revert E1 E2 E3 E4 E5 E6 Ev. generalize (releaseJobs (map snd rs) b0).
  intros b1 E1 E2 E3 E4 E5 E6 Ev [= <- <- <-]. exists rs. rewrite is_shed_count.
  pose proof (count_outcome_nonneg ShedWrite rs) as Hpos.
  unfold accounts, lost_counter, recordDropped, lease_view in *. apply sublist_core in Hw.
  destruct (Z.ltb_spec 0 (count_outcome ShedWrite rs)) as [Hlt|Hge]; destruct kind; cbn -[releaseJobs] in *;
    rewrite ?E1, ?E2, ?E3, ?E4, ?E5, ?E6; split_and!; solve [done | lia].
Qed.

Lemma accounts_after_filter kind b b1 b' batch work disc retry new :
  settled b1 = settled b ++ map (pair FunctionDeleted) disc -> db b1 = db b ->
  lease_view b1 = lease_view (releaseJobs disc b) ->
  deletedWrites b1 = deletedWrites b + Z.of_nat (length disc) -> shed b1 = shed b ->
  lost_counter kind b1 = lost_counter kind b ->
  Permutation batch (disc ++ work) -> work `sublist_of` batch ->
  Forall (fun j => functionID j <> ""%string /\ fn_exists (functionID j) (db b) = false) disc ->
  accounts kind b1 b' work retry new ->
  accounts kind b b' batch retry (map (pair FunctionDeleted) disc ++ new).
Proof.
  intros Hs Hd Hl Hdel Hsh Hlo Hp Hsub Hgone (As & Ap & Aa & Ar & Aw & Al & Adel & Ash & Alo & Aun & Agone).
  unfold accounts. rewrite (map_app snd), map_snd_pair, releaseJobs_app, written_app, !count_outcome_app, !count_outcome_pair,
    written_pair, As, Hs, <- Hd, app_assoc. simpl. split_and!; try (done || lia).
  - rewrite Hp, !map_app, <- app_assoc. apply Permutation_app_head. by rewrite Ap, map_app.
  - intros Hbulk Hwb. apply Aa; [done|]. apply Forall_forall. intros x Hx.
    eapply (proj1 (Forall_forall _ _) Hwb). by eapply elem_of_sublist.
  - etransitivity; [exact Ar|]. by apply sublist_core.
  - etransitivity; [exact Aw|]. by apply sublist_core.
  - rewrite Al. by apply releaseJobs_view.
  - apply Forall_app. split; [|done]. apply Forall_map. eapply Forall_impl; [exact Hgone|]. intros x Hx _.
    by rewrite Hd.
Qed.

Lemma accounts_written kind b b0 work tx :
  (multi_row_insert exec -> Forall well_bound work -> apply_jobs exec work (db b) = Ok tx) ->
  db b0 = tx -> settled b0 = settled b -> lease_view b0 = lease_view b ->
  deletedWrites b0 = deletedWrites b -> shed b0 = shed b -> lost_counter kind b0 = lost_counter kind b ->
  accounts kind b (settle Written work (releaseJobs work b0)) work [] (map (pair Written) work).
Proof.
  intros Ha Hd Hs Hl Hx Hy Hz. destruct (releaseJobs_same work b0) as (E1 & E2 & E3 & E4 & E5 & E6).
  unfold accounts. rewrite map_snd_pair, written_pair, !count_outcome_pair, app_nil_r.
  unfold lease_view, lost_counter in *. cbn -[releaseJobs] in *.
  rewrite E1, E2, E3, E4, E5, E6, Hs, Hx, Hy, Hd, Hz. change (bool_decide (Written = Written)) with true.
  change (bool_decide (Written = FunctionDeleted)) with false. change (bool_decide (Written = ShedWrite)) with false.
  change (bool_decide (Written = Unwritten)) with false. split_and!; try (done || lia).
  - apply sublist_nil_l.
  - apply (releaseJobs_view work b0 b Hl).
  - apply Forall_map, Forall_true. done.
Qed.

Lemma lost_counter_frame kind b old l : lost_counter kind (finish_lease old l b) = lost_counter kind b.
Proof. destruct (finish_lease_frame old l b) as (_ & _ & _ & _ & E5 & E6). unfold lost_counter. by rewrite E5, E6. Qed.

Lemma commit_accounts batch kind at_ fs b b' retry fs' :
  commit exec fn_exists batch kind at_ fs b = (b', retry, fs') -> exists new, accounts kind b b' batch retry new.
Proof.
  unfold commit. destruct (filterDeleted _ _ _ _) as [[r b1] fs1] eqn:Ef.
  apply filterDeleted_spec in Ef. destruct r as [[work disc]|e].
  2: { intros [= <- <- <-]. exists []. rewrite Ef. by apply accounts_retained. }
  destruct Ef as (Hp & Hsub & Hgone & Eb1). cbv zeta.
  set (b2 := b1 <| deletedWrites ::= Z.add (Z.of_nat (length disc)) |>).
  set (b3 := on_timing kind (fun t => t <| t_attempts ::= Z.succ |>) b2).
  intros Hrest.
  cut (exists new, accounts kind b2 b' work retry new).
  { intros [new Hacc]. exists (map (pair FunctionDeleted) disc ++ new).
    set (b0 := b <| liveFunctions := liveFunctions b1 |>) in Eb1.
    destruct (releaseJobs_same disc b0) as (E1 & E2 & E3 & E4 & E5 & E6).
    eapply accounts_after_filter; [..|exact Hacc]; try done; subst b2; rewrite Eb1; cbn -[releaseJobs].
    - by rewrite E2.
    - by rewrite E1.
    - by apply releaseJobs_view.
    - rewrite E3. subst b0. cbn. lia.
    - by rewrite E4.
    - unfold lost_counter. cbn -[releaseJobs]. by rewrite E5, E6. }
  destruct work as [|j work'] eqn:Ework; [injection Hrest as <- <- <-; exists []; by apply accounts_retained|].
  rewrite <- Ework in *.
  destruct (attempt (Ok tt) fs1) as [[?|?] fs2];
    [|injection Hrest as <- <- <-; exists []; by apply accounts_retained].
  destruct (exec_loop exec (length work) work 0 ∅ (db b3) fs2) as [[tx|?] fs3] eqn:Eexec.
  2: { apply commitIsolated_spec in Hrest as [new Hacc]. exists new.
       apply (accounts_after_filter _ _ b3 _ _ work []); try done; cbn; [by rewrite app_nil_r|lia]. }
  destruct (attempt (Ok tt) fs3) as [[?|?] fs4];
    [|injection Hrest as <- <- <-; exists []; by apply accounts_retained].
  injection Hrest as <- <- <-. exists (map (pair Written) work).
  apply (accounts_written _ _ _ _ tx); try done. intros Hbulk Hwb.
  by apply exec_loop_spec in Eexec.
Qed.
End CommitLemmas.

(* ------------------------------------------------------------------ *)
(** ** Passes without faults *)

Section FaultFree.
Context {DB : Type} (exec : string -> list arg -> DB -> res sqlerr DB) (fn_exists : string -> DB -> bool).
Implicit Types b : books DB.

Lemma filter_loop_clean d batch known live keep disc :
  exists r live', filter_loop fn_exists d batch known live keep disc [] = (Ok r, live', []).
Proof.
  revert known live keep disc. induction batch as [|j batch IH]; intros known live keep disc; simpl; [eauto|].
  destruct (_ || _); [apply IH|]. destruct (known !! _) as [[]|]; try apply IH. destruct (fn_exists _ _); apply IH.
Qed.

Lemma exec_loop_clean fuel work i prepared tx : (exec_loop exec fuel work i prepared tx []).2 = [].
Proof.
  revert i prepared tx. induction fuel as [|fuel IH]; intros i prepared tx; simpl; [by case_match|].
  destruct (work !! i); [|done]. destruct (group_at _ _ _) as [[st xs] next]. simpl.
  destruct (bool_decide _); destruct (exec st xs tx); try done; apply IH.
Qed.

Lemma isolated_loop_clean batch tx retry resolved :
  exists r, isolated_loop exec batch tx [] retry resolved = (Some r, []).
Proof.
  revert tx retry resolved. induction batch as [|j batch IH]; intros tx retry resolved; cbn [isolated_loop]; [eauto|].
  assert (exists tx' e, isolated_job exec j tx [] = (Some (tx', e), [])) as (tx' & e & ->).
  { unfold isolated_job. simpl. destruct (exec _ _ _); eauto. }
  destruct e as [e|]; [|apply IH]. cbv zeta. destruct (_ || _); apply IH.
Qed.

(** A retained job has been counted: it comes from the batch, one attempt later. *)
Definition counted (batch retry : list writeJob) : Prop :=
  Forall (fun j => attempts j < maxJobAttempts /\
                   exists j0, j0 ∈ batch /\ core j0 = core j /\ attempts j = attempts j0 + 1) retry.

Lemma commit_clean batch kind at_ b :
  exists b' retry, commit exec fn_exists batch kind at_ [] b = (b', retry, []) /\ counted batch retry.
Proof.
  unfold commit. destruct (filterDeleted fn_exists batch [] b) as [[r b1] fs1] eqn:Ef.
  assert (fs1 = [] /\ exists work disc, r = Ok (work, disc)) as (-> & work & disc & ->).
  { unfold filterDeleted in Ef.
    destruct (filter_loop_clean (db b) batch ∅ (liveFunctions b) [] []) as ([work disc] & live & E).
    rewrite E in Ef. simplify_eq. eauto. }
  apply filterDeleted_spec in Ef as (_ & Hsub & _). cbv zeta.
  destruct work as [|j work'] eqn:Ew; [do 2 eexists; split; [reflexivity|constructor]|]. rewrite <- Ew in *.
  cbn [attempt].
  match goal with |- context [exec_loop exec ?n ?w 0 ∅ ?d []] =>
    pose proof (exec_loop_clean n w 0 ∅ d) as Hc; destruct (exec_loop exec n w 0 ∅ d []) as [[tx|e] fs2] eqn:Ee end;
    simpl in Hc; subst fs2; [do 2 eexists; split; [reflexivity|constructor]|].
  unfold commitIsolated. cbn [attempt].
  match goal with |- context [isolated_loop exec work ?d [] [] []] =>
    destruct (isolated_loop_clean work d [] []) as [[[tx rt] rs] El] end.
  rewrite El. do 2 eexists. split; [reflexivity|].
  apply isolated_loop_spec in El as (rt' & rs' & Hrt & _ & _ & _ & _ & _ & _ & Hr). simpl in Hrt. subst rt'.
  eapply Forall_impl; [exact Hr|]. intros x (? & j0 & ? & ?). split; [done|]. exists j0. split; [|done].
  by eapply elem_of_sublist.
Qed.

(** [n] passes over a batch, as the writer's loop makes them. *)
Fixpoint passes (n : nat) (batch : list writeJob) (kind : writeKind) (at_ : Z) b : books DB * list writeJob :=
  match n with
  | O => (b, batch)
  | S n => let '(b, retry, _) := commit exec fn_exists batch kind at_ [] b in passes n retry kind at_ b
  end.

Lemma passes_bound n k batch kind at_ b :
  Forall (fun j => k <= attempts j) batch ->
  Forall (fun j => k + Z.of_nat n <= attempts j /\ ((0 < n)%nat -> attempts j < maxJobAttempts))
         (passes n batch kind at_ b).2.
Proof.
  revert k batch b. induction n as [|n IH]; intros k batch b Hk.
  { simpl. eapply Forall_impl; [exact Hk|]. intros. split; [|lia]. simpl in *. lia. }
  simpl passes. destruct (commit_clean batch kind at_ b) as (b' & retry & -> & Hc).
  assert (Forall (fun j => k + 1 <= attempts j) retry) as Hk'.
  { eapply Forall_impl; [exact Hc|]. intros x (_ & j0 & Hin & _ & ->).
    pose proof (proj1 (Forall_forall _ _) Hk _ Hin). simpl in *. lia. }
  pose proof (IH _ _ b' Hk') as H. destruct n as [|n].
  - simpl in *. eapply Forall_impl; [apply Forall_and; split; [exact Hk'|exact Hc]|].
    intros x [? [? _]]. simpl in *. lia.
  - eapply Forall_impl; [exact H|]. intros x [? Hlt]. split; [lia|]. intros _. apply Hlt. lia.
Qed.
End FaultFree.

(* ------------------------------------------------------------------ *)
(** ** Theorems *)

(** C7.  One commit pass, whatever fails: every job of the batch is either
    retained for the next pass (in order) or settled exactly once -- written,
    dropped because its function is gone from the functions table, or shed --
    and the history, the counters and the leases say which.  The database
    afterwards is the one before with exactly the written jobs applied in
    batch order, one statement each, although the pass groups marked INSERTs
    into multi-row statements and may run everything a second time under
    savepoints; nothing of a retained job is left behind.  Leases of settled
    jobs are released and the others kept. *)
Theorem commit_pass_exact {DB} (exec : string -> list arg -> DB -> res sqlerr DB) (fn_exists : string -> DB -> bool)
    batch kind at_ fs (b b' : books DB) retry fs' :
  multi_row_insert exec ->
  Forall well_bound batch ->
  commit exec fn_exists batch kind at_ fs b = (b', retry, fs') ->
  exists new,
    settled b' = settled b ++ new /\
    Permutation (map core batch) (map core (map snd new ++ retry)) /\
    (map core retry `sublist_of` map core batch) /\ (map core (written new) `sublist_of` map core batch) /\
    apply_jobs exec (written new) (db b) = Ok (db b') /\
    (criticalSlots b', leases b') =
      (criticalSlots (releaseJobs (map snd new) b), leases (releaseJobs (map snd new) b)) /\
    deletedWrites b' = deletedWrites b + count_outcome FunctionDeleted new /\
    shed b' = shed b + count_outcome ShedWrite new /\
    (kind = writeCritical -> failed b' = failed b + count_outcome ShedWrite new) /\
    (kind <> writeCritical -> dropped b' = dropped b + count_outcome ShedWrite new) /\
    Forall (fun r => r.1 = FunctionDeleted ->
                     functionID r.2 <> ""%string /\ fn_exists (functionID r.2) (db b) = false) new.
Proof.
  intros Hbulk Hwb H. destruct (commit_accounts exec fn_exists _ _ _ _ _ _ _ _ H)
    as (new & As & Ap & Aa & Ar & Aw & Al & Adel & Ash & Alo & _ & Agone).
  specialize (Aa Hbulk Hwb). exists new. split_and!; try done; intros; destruct kind; done.
Qed.

(** A small engine: a row is a list of arguments, the value 13 violates a constraint. *)
Definition demo_exec (s : string) (xs : list arg) (d : list arg) : res sqlerr (list arg) :=
  if bool_decide (AOther 13 ∈ xs) then Err (SqliteError 787) else Ok (d ++ xs).

Definition demo_exists (f : string) (d : list arg) : bool := negb (bool_decide (f = "gone"%string)).

Definition demo_insert : string := "INSERT INTO t (a) VALUES (?)".

Definition demo_job (f : string) (l : option nat) (v : Z) : writeJob :=
  WriteJob demo_insert [AOther v] f l true 5 100 0.

Definition demo_batch : list writeJob :=
  [demo_job "f" (Some 1%nat) 1; demo_job "gone" (Some 2%nat) 2; demo_job "f" (Some 3%nat) 13; demo_job "" (Some 4%nat) 4].

Definition demo_books : books (list arg) :=
  Books [] ∅ 1020 (list_to_map [(1%nat, 1); (2%nat, 1); (3%nat, 1); (4%nat, 1)]) 0 0 0 0 0 0
        (fun _ => WriterTiming 0 0 0 0) [].

Lemma demo_multi_row : multi_row_insert demo_exec.
Proof.
  intros s js d d' _ _. unfold demo_exec at 1. case_bool_decide as E; [done|]. intros [= <-].
  revert d. induction js as [|j js IH]; intros d; simpl; [by rewrite app_nil_r|].
  unfold demo_exec at 1. rewrite bool_decide_eq_false_2.
  - rewrite IH; [by rewrite <- app_assoc|]. intros Hin. apply E. simpl. apply elem_of_app. by right.
  - intros Hin. apply E. simpl. apply elem_of_app. by left.
Qed.

Lemma commit_pass_exact_witness :
  let r := commit demo_exec demo_exists demo_batch writeCritical 9 [] demo_books in
  r.1.2 = [] /\ db r.1.1 = [AOther 1; AOther 4] /\ criticalSlots r.1.1 = 1024 /\
  failed r.1.1 = 1 /\ deletedWrites r.1.1 = 1 /\
  exists new, settled r.1.1 = settled demo_books ++ new.
Proof.
  intros r. split_and!; try (vm_compute; reflexivity).
  destruct (commit_pass_exact demo_exec demo_exists demo_batch writeCritical 9 [] demo_books r.1.1 r.1.2 r.2
    demo_multi_row ltac:(repeat constructor) ltac:(unfold r; by destruct (commit _ _ _ _ _ _ _) as [[? ?] ?])) as (new & H & _).
  by exists new.
Defined.

(** A statement that keeps failing cannot hold the queue: without
    connection faults, three passes settle every job of a batch, whatever
    error the statements keep returning. *)
Theorem retries_are_bounded {DB} (exec : string -> list arg -> DB -> res sqlerr DB) (fn_exists : string -> DB -> bool)
    batch kind at_ (b : books DB) :
  Forall (fun j => 0 <= attempts j) batch ->
  (passes exec fn_exists 3 batch kind at_ b).2 = [].
Proof.
  intros H. pose proof (passes_bound exec fn_exists 3 0 batch kind at_ b H) as Hp.
  destruct (passes exec fn_exists 3 batch kind at_ b).2 as [|j l]; [done|].
  apply Forall_cons in Hp as [[H1 H2] _]. unfold maxJobAttempts in H2. specialize (H2 ltac:(lia)). lia.
Qed.

(** An engine that is always busy: two passes retain the job, the third sheds it. *)
Definition busy_exec (s : string) (xs : list arg) (d : list arg) : res sqlerr (list arg) := Err (SqliteError 5).

Lemma retries_are_bounded_witness :
  length (passes busy_exec demo_exists 2 [demo_job "f" None 1] writeCritical 9 demo_books).2 = 1%nat /\
  (passes busy_exec demo_exists 3 [demo_job "f" None 1] writeCritical 9 demo_books).2 = [].
Proof.
  split; [vm_compute; reflexivity|].
  apply retries_are_bounded. repeat constructor; simpl; lia.
Defined.
