(* ===== verification/Writer.v ===== *)
(** * The asynchronous writer ([database/async.go])

    Producers reserve a slot, charge their bytes to a lane, hand a job over;
    one consumer drains three lanes into batches, commits them, retains what
    failed and backs off, and drains everything at shutdown.  The machine
    interleaves any number of producers with the consumer at the granularity
    of the code's atomic operations and channel communications; the commit
    pass is [WriteBatch.commit]. *)
From S2P Require Import Prelude GoText WriteBatch.
Open Scope Z_scope.

(* ------------------------------------------------------------------ *)
(** ** State *)

Definition channel_cap : nat := 1024.
Definition batchMax : nat := 200.

Definition queue_limit (k : writeKind) : Z :=
  match k with
  | writeCritical => Z.shiftl 64 20
  | writeActivity => Z.shiftl 8 20
  | writeTelemetry => Z.shiftl 32 20
  end.

Definition kind_eqb (k1 k2 : writeKind) : bool :=
  match k1, k2 with
  | writeCritical, writeCritical | writeActivity, writeActivity | writeTelemetry, writeTelemetry => true
  | _, _ => false
  end.

(** A lane: its channel and byte counter, and the consumer's locals for it.
    [draining] is false while the consumer's copy of the channel is nil. *)
Record lane := Lane {
  queue : list writeJob; lane_bytes : Z;
  batch : list writeJob; lane_backoff : Z; until : option Z; draining : bool
}.

#[export] Instance lane_eta : Eta lane := fun l =>
  Lane (queue l) (lane_bytes l) (batch l) (lane_backoff l) (until l) (draining l).

(** Where the consumer goroutine is. *)
Inductive control :=
| Top
| Selecting (criticalPressure optionalOpen : bool)
| Flushing (ks : list writeKind)
| Draining
| Finishing (ks : list writeKind)
| Stopped.

#[export] Instance control_eq_dec : EqDecision control.
Proof. solve_decision. Defined.

Record asyncWriter {DB : Type} := AsyncWriter {
  bk : books DB;
  lanes : writeKind -> lane;
  timeouts : Z;
  stopRequested : bool;
  quit : bool;
  ctl : control;
  accepted : list writeJob    (** history: the jobs published to a channel *)
}.
Arguments asyncWriter : clear implicits.
Arguments AsyncWriter {DB}.

#[export] Instance asyncWriter_eta {DB} : Eta (asyncWriter DB) := fun a =>
  AsyncWriter (bk a) (lanes a) (timeouts a) (stopRequested a) (quit a) (ctl a) (accepted a).

Record request := Request { r_sql : string; r_args : list arg; r_fn : string; r_bulk : bool }.

Inductive write_error :=
| ErrContext | ErrWriterStopping | ErrForeignLease | ErrOverBudget | ErrLeaseUsed | ErrDirect (e : sqlerr).

(** Where a producer is: inside [ReserveExecution] ([None] for a call of its
    own), holding a lease, inside the read lock ([Entered], [Charged],
    [Handing]), falling back to a direct write, or back at its caller. *)
Inductive producer :=
| Waiting (r : option request)
| SlotTaken (r : option request)
| Leased (r : request) (l : nat)
| Arriving (k : writeKind) (r : request)
| Entered (k : writeKind) (r : request) (l : option nat)
| Charged (k : writeKind) (j : writeJob)
| Handing (j : writeJob)
| Direct (r : request)
| Returned (e : option write_error)
| Reserved (l : nat).

Definition inside (p : producer) : bool :=
  match p with Entered _ _ _ | Charged _ _ | Handing _ => true | _ => false end.

Record machine {DB : Type} := Machine { aw : asyncWriter DB; procs : gmap nat producer }.
Arguments machine : clear implicits.
Arguments Machine {DB}.

Definition mk_job (r : request) (l : option nat) (now : Z) : writeJob :=
  WriteJob (r_sql r) (r_args r) (r_fn r) l (r_bulk r) now (jobBytes (r_sql r) (r_args r) + len (r_fn r)) 0.

(* ------------------------------------------------------------------ *)
(** ** Producers *)

Section Writer.
Context {DB : Type} (exec : string -> list arg -> DB -> res sqlerr DB) (fn_exists : string -> DB -> bool).
Implicit Types a : asyncWriter DB.

Definition on_lane (k : writeKind) (f : lane -> lane) a : asyncWriter DB :=
  a <| lanes ::= fun ls k' => if kind_eqb k' k then f (ls k') else ls k' |>.

Definition add_bytes (k : writeKind) (n : Z) : asyncWriter DB -> asyncWriter DB :=
  on_lane k (fun l => l <| lane_bytes ::= Z.add n |>).

Definition on_books (f : books DB -> books DB) a : asyncWriter DB := a <| bk ::= f |>.

(** [ReserveExecution]: the select, then the second look at [stopRequested]. *)
Definition reserve_select (pick : nat) (ctx : bool) (r : option request) a : option (asyncWriter DB * producer) :=
  go_select pick
    [ (if ctx then Some (match r with
                         | None => (a, Returned (Some ErrContext))
                         | Some _ => (a <| timeouts ::= Z.succ |>, Returned (Some ErrContext))
                         end) else None);
      (if stopRequested a then Some (a, match r with
                                        | None => Returned (Some ErrWriterStopping)
                                        | Some r => Direct r
                                        end) else None);
      (if 0 <? criticalSlots (bk a)
       then Some (on_books (fun b => b <| criticalSlots ::= Z.pred |>) a, SlotTaken r) else None) ]
    None.

Definition reserve_check (r : option request) a : asyncWriter DB * producer :=
  if stopRequested a then
    (on_books (fun b => b <| criticalSlots ::= Z.succ |>) a,
     match r with None => Returned (Some ErrWriterStopping) | Some r => Direct r end)
  else
    let l := fresh (dom (leases (bk a))) in
    (on_books (fun b => b <| leases ::= <[l := 0]> |>) a,
     match r with None => Reserved l | Some r => Leased r l end).

(** [asyncExecCriticalReserved], from the read lock on. *)
Definition critical_enter (r : request) (l : nat) a : asyncWriter DB * producer :=
  if stopRequested a then (on_books (Cancel (Some l)) a, Direct r)
  else (a, Entered writeCritical r (Some l)).

Definition critical_charge (r : request) (l : option nat) (now : Z) a : asyncWriter DB * producer :=
  let j := mk_job r l now in
  match reserveQueueBytes (lane_bytes (lanes a writeCritical)) (job_bytes j) (queue_limit writeCritical) with
  | Some c => (on_lane writeCritical (fun ln => ln <| lane_bytes := c |>) a, Charged writeCritical j)
  | None => (on_books (Cancel l) a <| timeouts ::= Z.succ |>, Returned (Some ErrOverBudget))
  end.

Definition critical_transfer (j : writeJob) a : asyncWriter DB * producer :=
  match lease j ≫= fun l => transfer l (bk a) with
  | Some b => (a <| bk := b |>, Handing j)
  | None => (add_bytes writeCritical (- job_bytes j) a, Returned (Some ErrLeaseUsed))
  end.

Definition publish (k : writeKind) (j : writeJob) a : option (asyncWriter DB * producer) :=
  if (length (queue (lanes a k)) <? channel_cap)%nat
  then Some (on_lane k (fun ln => ln <| queue ::= fun q => q ++ [j] |>) a <| accepted ::= fun l => l ++ [j] |>,
             Returned None)
  else None.

Definition job_request (j : writeJob) : request := Request (sql j) (args j) (functionID j) (bulkInsert j).

(** [None]: the select blocks. *)
Definition critical_send (pick : nat) (ctx : bool) (j : writeJob) a : option (asyncWriter DB * producer) :=
  let undo := on_books (done_ (lease j)) (add_bytes writeCritical (- job_bytes j) a) in
  go_select pick
    [ (if stopRequested a then Some (undo, Direct (job_request j)) else None);
      publish writeCritical j a;
      (if ctx then Some (undo <| timeouts ::= Z.succ |>, Returned (Some ErrContext)) else None) ]
    None.

(** The fallback [db.write.ExecContext]. *)
Definition direct_write (r : request) (fs : faults) a : asyncWriter DB * producer :=
  match attempt (exec (r_sql r) (r_args r) (db (bk a))) fs with
  | (Ok d, _) => (on_books (fun b => b <| db := d |>) a, Returned None)
  | (Err e, _) => (a, Returned (Some (ErrDirect e)))
  end.

(** [asyncExecBestEffort]. *)
Definition effort_enter (k : writeKind) (r : request) a : asyncWriter DB * producer :=
  if stopRequested a then (on_books (recordDropped k 1) a, Returned None) else (a, Entered k r None).

Definition effort_charge (k : writeKind) (r : request) (now : Z) a : asyncWriter DB * producer :=
  let j := mk_job r None now in
  match reserveQueueBytes (lane_bytes (lanes a k)) (job_bytes j) (queue_limit k) with
  | Some c => (on_lane k (fun ln => ln <| lane_bytes := c |>) a, Charged k j)
  | None => (on_books (recordDropped k 1) a, Returned None)
  end.

Definition effort_send (pick : nat) (k : writeKind) (j : writeJob) a : option (asyncWriter DB * producer) :=
  let drop_ := (on_books (recordDropped k 1) (add_bytes k (- job_bytes j) a), Returned None) in
  go_select pick [ (if stopRequested a then Some drop_ else None); publish k j a ] (Some drop_).

(** The next atomic step of a producer; [None] when it waits or has returned. *)
Definition producer_step (pick : nat) (ctx : bool) (now : Z) (fs : faults) (p : producer) a
  : option (asyncWriter DB * producer) :=
  match p with
  | Waiting r => reserve_select pick ctx r a
  | SlotTaken r => Some (reserve_check r a)
  | Leased r l => Some (critical_enter r l a)
  | Arriving k r => Some (effort_enter k r a)
  | Entered writeCritical r l => Some (critical_charge r l now a)
  | Entered k r _ => Some (effort_charge k r now a)
  | Charged writeCritical j => Some (critical_transfer j a)
  | Charged k j => effort_send pick k j a
  | Handing j => critical_send pick ctx j a
  | Direct r => Some (direct_write r fs a)
  | Returned _ | Reserved _ => None
  end.

(** The calls: with no lease the call reserves one, with a lease it must be
    one of this writer's. *)
Definition asyncExecCriticalReserved (r : request) (l : option nat) a : producer :=
  match l with
  | None => Waiting (Some r)
  | Some l => if bool_decide (is_Some (leases (bk a) !! l)) then Leased r l else Returned (Some ErrForeignLease)
  end.

Definition asyncExecBestEffort (k : writeKind) (r : request) : producer := Arriving k r.
Definition ReserveExecution : producer := Waiting None.

(* ------------------------------------------------------------------ *)
(** ** The consumer *)

Definition batchBytes (b : list writeJob) : Z := zsum job_bytes b.

(** [flushCritical], [flushActivity], [flushTelemetry]. *)
Definition flush (k : writeKind) (now committedAt : Z) (fs : faults) a : asyncWriter DB :=
  let ln := lanes a k in
  match batch ln with
  | [] => a
  | _ =>
    let '(b, retry, _) := commit exec fn_exists (batch ln) k committedAt fs (bk a) in
    let a := add_bytes k (batchBytes retry - batchBytes (batch ln)) (a <| bk := b |>) in
    match retry with
    | [] => on_lane k (fun ln => ln <| batch := [] |> <| lane_backoff := 0 |> <| until := None |>
                                    <| draining := true |>) a
    | _ => on_lane k (fun ln =>
             let w := nextBackoff (lane_backoff ln) in
             ln <| batch := retry |> <| lane_backoff := w |> <| until := Some (now + w) |>
                <| draining := false |>) a
    end
  end.

Definition after_until (now : Z) (u : option Z) : bool :=
  match u with None => true | Some t => t <? now end.

(** The top of the loop: what the next select may receive from. *)
Definition loop_top a : asyncWriter DB :=
  let nc := length (queue (lanes a writeCritical)) in
  let na := length (queue (lanes a writeActivity)) in
  a <| ctl := Selecting (channel_cap * 3 / 4 <=? nc)%nat (negb ((0 <? nc)%nat || (0 <? na)%nat)) |>.

Definition receive (k : writeKind) (next : lane -> control) a : option (asyncWriter DB) :=
  match queue (lanes a k) with
  | [] => None
  | j :: q =>
    let a := on_lane k (fun ln => ln <| queue := q |> <| batch ::= fun b => b ++ [j] |>) a in
    Some (a <| ctl := next (lanes a k) |>)
  end.

(** A full batch is flushed at once. *)
Definition full_then_flush (k : writeKind) (ln : lane) : control :=
  if (batchMax <=? length (batch ln))%nat then Flushing [k] else Top.

Definition due_flushes (pressure : bool) (now : Z) a : list writeKind :=
  (if after_until now (until (lanes a writeCritical)) then [writeCritical] else []) ++
  (if negb pressure && after_until now (until (lanes a writeActivity)) then [writeActivity] else []) ++
  (if after_until now (until (lanes a writeTelemetry)) then [writeTelemetry] else []).

Definition loop_select (pick : nat) (tick : bool) (now : Z) (pressure optional : bool) a : option (asyncWriter DB) :=
  go_select pick
    [ (if draining (lanes a writeCritical) then receive writeCritical (full_then_flush writeCritical) a else None);
      (if draining (lanes a writeActivity) && negb pressure
       then receive writeActivity (full_then_flush writeActivity) a else None);
      (if draining (lanes a writeTelemetry) && optional
       then receive writeTelemetry (full_then_flush writeTelemetry) a else None);
      (if tick then Some (a <| ctl := Flushing (due_flushes pressure now a) |>) else None);
      (if quit a then Some (a <| ctl := Draining |>) else None) ]
    None.

(** One turn of the drain loop of [drainAndFinish]. *)
Definition drain_select (pick : nat) a : option (asyncWriter DB) :=
  go_select pick
    [ receive writeCritical (fun _ => Draining) a; receive writeActivity (fun _ => Draining) a;
      receive writeTelemetry (fun _ => Draining) a ]
    (Some (on_lane writeCritical (fun ln => ln <| until := None |>)
             (on_lane writeActivity (fun ln => ln <| until := None |>)
                (on_lane writeTelemetry (fun ln => ln <| until := None |>) a))
           <| ctl := Finishing [writeCritical; writeActivity; writeTelemetry] |>)).

(** The last commit of a lane. *)
Definition finish_lane (k : writeKind) (committedAt : Z) (fs : faults) a : asyncWriter DB :=
  match batch (lanes a k) with
  | [] => a
  | _ =>
    let '(b, retry, _) := commit exec fn_exists (batch (lanes a k)) k committedAt fs (bk a) in
    let b := match retry with
             | [] => b
             | _ => match k with
                    | writeCritical => releaseJobs retry (b <| failed ::= Z.add (Z.of_nat (length retry)) |>)
                    | _ => recordDropped k (Z.of_nat (length retry)) b
                    end
             end in
    a <| bk := settle Unwritten retry b |>
  end.

(** The counters are reset and [done] is closed; the batches go out of scope. *)
Definition finish_all a : asyncWriter DB :=
  a <| lanes ::= fun ls k => ls k <| lane_bytes := 0 |> <| batch := [] |> |> <| ctl := Stopped |>.

Definition consumer_step (pick : nat) (tick : bool) (now committedAt : Z) (fs : faults) a : option (asyncWriter DB) :=
  match ctl a with
  | Top => Some (loop_top a)
  | Selecting pressure optional => loop_select pick tick now pressure optional a
  | Flushing [] => Some (a <| ctl := Top |>)
  | Flushing (k :: ks) => Some (flush k now committedAt fs a <| ctl := Flushing ks |>)
  | Draining => drain_select pick a
  | Finishing [] => Some (finish_all a)
  | Finishing (k :: ks) => Some (finish_lane k committedAt fs a <| ctl := Finishing ks |>)
  | Stopped => None
  end.

(* ------------------------------------------------------------------ *)
(** ** The machine *)

Inductive event :=
| EReserve (t : nat)
| ECritical (t : nat) (r : request) (l : option nat)
| EEffort (t : nat) (k : writeKind) (r : request)
| EProducer (t pick : nat) (ctx : bool) (now : Z) (fs : faults)
| ECancel (l : nat)
| EConsumer (pick : nat) (tick : bool) (now committedAt : Z) (fs : faults)
| EStop                        (** [close(stopRequested)] *)
| EQuit                        (** the exclusive lock, [close(quit)] *)
| EOther (d : DB).             (** any other writer of the database *)

Definition spawn (t : nat) (p : producer) (m : machine DB) : option (machine DB) :=
  match procs m !! t with None => Some (Machine (aw m) (<[t := p]> (procs m))) | Some _ => None end.

Definition no_reader (ps : gmap nat producer) : bool :=
  forallb (fun tp => negb (inside tp.2)) (map_to_list ps).

Definition wstep (e : event) (m : machine DB) : option (machine DB) :=
  match e with
  | EReserve t => spawn t ReserveExecution m
  | ECritical t r l => spawn t (asyncExecCriticalReserved r l (aw m)) m
  | EEffort t k r => match k with writeCritical => None | _ => spawn t (asyncExecBestEffort k r) m end
  | EProducer t pick ctx now fs =>
    p ← procs m !! t;
    '(a, p') ← producer_step pick ctx now fs p (aw m);
    Some (Machine a (<[t := p']> (procs m)))
  | ECancel l => Some (Machine (on_books (Cancel (Some l)) (aw m)) (procs m))
  | EConsumer pick tick now at_ fs =>
    a ← consumer_step pick tick now at_ fs (aw m); Some (Machine a (procs m))
  | EStop => Some (Machine (aw m <| stopRequested := true |>) (procs m))
  | EQuit =>
    if stopRequested (aw m) && no_reader (procs m)
    then Some (Machine (aw m <| quit := true |>) (procs m)) else None
  | EOther d => Some (Machine (on_books (fun b => b <| db := d |>) (aw m)) (procs m))
  end.

Fixpoint run (es : list event) (m : machine DB) : option (machine DB) :=
  match es with [] => Some m | e :: es => m' ← wstep e m; run es m' end.

Definition newAsyncWriter (d : DB) : machine DB :=
  Machine (AsyncWriter (Books d ∅ (Z.of_nat channel_cap) ∅ 0 0 0 0 0 0 (fun _ => WriterTiming 0 0 0 0) [])
                       (fun _ => Lane [] 0 [] 0 None true) 0 false false Top [])
          ∅.

End Writer.
Arguments event : clear implicits.

(* ------------------------------------------------------------------ *)
(** ** Bookkeeping vocabulary *)

Definition is_live (s : Z) : Z := if (s =? 0) || (s =? 1) then 1 else 0.

(** Slots in the channel plus slots held by leases. *)
Definition total {DB} (b : books DB) : Z := criticalSlots b + msum is_live (leases b).

(** Whether lease [l] is owned by the writer. *)
Definition own {DB} (l : nat) (b : books DB) : Z := if bool_decide (leases b !! l = Some 1) then 1 else 0.

Definition carries (l : nat) (j : writeJob) : Z := if bool_decide (lease j = Some l) then 1 else 0.

#[export] Instance writeJob_eq_dec : EqDecision writeJob.
Proof. solve_decision. Defined.

Definition same_job (c j : writeJob) : Z := if bool_decide (core j = c) then 1 else 0.

Definition taken (p : producer) : Z := match p with SlotTaken _ => 1 | _ => 0 end.
Definition hands (l : nat) (p : producer) : Z := match p with Handing j => carries l j | _ => 0 end.
Definition charge (k : writeKind) (p : producer) : Z :=
  match p with
  | Charged k' j => if kind_eqb k' k then job_bytes j else 0
  | Handing j => if kind_eqb writeCritical k then job_bytes j else 0
  | _ => 0
  end.

(** The batch of a lane, as long as its jobs are not settled. *)
Definition pending {DB} (a : asyncWriter DB) (k : writeKind) : list writeJob :=
  match ctl a with
  | Stopped => []
  | Finishing ks => if bool_decide (k ∈ ks) then batch (lanes a k) else []
  | _ => batch (lanes a k)
  end.

Definition in_memory {DB} (a : asyncWriter DB) (k : writeKind) : list writeJob := queue (lanes a k) ++ pending a k.

(** Everything the writer still has to settle. *)
Definition unsettled {DB} (a : asyncWriter DB) : list writeJob :=
  in_memory a writeCritical ++ in_memory a writeActivity ++ in_memory a writeTelemetry.

(** Critical jobs carry a lease, best-effort jobs do not. *)
Definition lane_ok (k : writeKind) (j : writeJob) : Prop :=
  0 <= job_bytes j /\ (k = writeCritical <-> is_Some (lease j)).

Definition proc_ok (p : producer) : Prop :=
  match p with
  | Charged k j => lane_ok k j
  | Handing j => lane_ok writeCritical j
  | Entered k _ l => k = writeCritical <-> is_Some l
  | Arriving k _ => k <> writeCritical
  | _ => True
  end.

Definition ending (c : control) : bool := match c with Draining | Finishing _ | Stopped => true | _ => false end.
Definition drained (c : control) : bool := match c with Finishing _ | Stopped => true | _ => false end.

Record Inv {DB} (a : asyncWriter DB) (ps : gmap nat producer) : Prop := {
  I_slots : total (bk a) + msum taken ps = 1024;
  I_owner : forall l, own l (bk a) = zsum (carries l) (in_memory a writeCritical) + msum (hands l) ps;
  I_bytes : forall k, lane_bytes (lanes a k)
                      = zsum job_bytes (queue (lanes a k)) + zsum job_bytes (batch (lanes a k)) + msum (charge k) ps;
  I_limit : forall k, lane_bytes (lanes a k) <= queue_limit k;
  I_lane : forall k, Forall (lane_ok k) (queue (lanes a k)) /\ Forall (lane_ok k) (batch (lanes a k));
  I_proc : map_Forall (fun _ => proc_ok) ps;
  I_quit : quit a = true -> stopRequested a = true /\ map_Forall (fun _ p => inside p = false) ps;
  I_ending : ending (ctl a) = true -> quit a = true;
  I_drained : drained (ctl a) = true -> forall k, queue (lanes a k) = [];
  I_lanes_left : match ctl a with Finishing ks => NoDup ks | _ => True end;
  I_jobs : forall c, zsum (same_job c) (accepted a)
                     = zsum (same_job c) (map snd (settled (bk a))) + zsum (same_job c) (unsettled a)
}.

(* ------------------------------------------------------------------ *)
(** ** Lemmas on leases *)

Section LeaseBooks.
Context {DB : Type}.
Implicit Types b : books DB.

Lemma total_finish old l b : old = 0 \/ old = 1 -> total (finish_lease old l b) = total b.
Proof.
  intros Ho. unfold finish_lease, total. destruct l as [l|]; [|done]. case_bool_decide as E; [|done].
  cbn. rewrite (msum_insert_some _ _ _ _ old) by done. destruct Ho as [-> | ->]; cbn; lia.
Qed.

Lemma own_cancel x l b : own x (Cancel l b) = own x b.
Proof.
  unfold Cancel, finish_lease, own. destruct l as [l|]; [|done].
  destruct (bool_decide (leases b !! l = Some 0)) eqn:E; [|done]. zbool.
  cbn. destruct (decide (x = l)) as [->|Hne]; [|by rewrite lookup_insert_ne].
  rewrite lookup_insert_eq, !bool_decide_eq_false_2; [done|congruence|congruence].
Qed.

Lemma own_done x l b : own x (done_ l b) = if bool_decide (l = Some x) then 0 else own x b.
Proof.
  unfold done_, finish_lease, own. destruct l as [l|]; [|done].
  destruct (decide (x = l)) as [->|Hne].
  - rewrite (bool_decide_eq_true_2 (Some l = Some l)) by done.
    destruct (bool_decide (leases b !! l = Some 1)) eqn:E; cbn; [by rewrite lookup_insert_eq|by rewrite E].
  - rewrite (bool_decide_eq_false_2 (Some l = Some x)) by congruence.
    destruct (bool_decide (leases b !! l = Some 1)) eqn:E; cbn; [|done]. by rewrite lookup_insert_ne by congruence.
Qed.

Lemma own_range x b : 0 <= own x b <= 1.
Proof. unfold own. case_bool_decide; lia. Qed.

Lemma carries_pos l j : 0 <= carries l j.
Proof. unfold carries. case_bool_decide; lia. Qed.

Lemma carries_nonneg l js : 0 <= zsum (carries l) js.
Proof. apply zsum_nonneg, Forall_true. apply carries_pos. Qed.

Lemma carries_own l j : lease j = Some l -> carries l j = 1.
Proof. intros H. unfold carries. by rewrite bool_decide_eq_true_2. Qed.

Lemma total_releaseJobs js b : total (releaseJobs js b) = total b.
Proof.
  revert b. induction js as [|j js IH]; intros b; [done|].
  change (total (releaseJobs js (done_ (lease j) b)) = total b). rewrite IH. apply total_finish. by right.
Qed.

Lemma own_releaseJobs x js b :
  zsum (carries x) js <= own x b -> own x (releaseJobs js b) = own x b - zsum (carries x) js.
Proof.
  revert b. induction js as [|j js IH]; intros b Hle; [simpl in *; lia|].
  change (own x (releaseJobs js (done_ (lease j) b)) = own x b - zsum (carries x) (j :: js)).
  rewrite zsum_cons in *. pose proof (carries_nonneg x js). pose proof (own_range x b).
  pose proof (own_done x (lease j) b) as Hd.
  assert (carries x j = if bool_decide (lease j = Some x) then 1 else 0) as Hc by reflexivity.
  destruct (bool_decide (lease j = Some x)); rewrite IH; lia.
Qed.

Lemma own_fresh x l b : leases b !! l = None -> own x (b <| leases ::= <[l := 0]> |>) = own x b.
Proof.
  intros Hn. unfold own. cbn. destruct (decide (x = l)) as [->|Hne].
  - rewrite lookup_insert_eq, Hn. done.
  - by rewrite lookup_insert_ne.
Qed.

Lemma total_fresh l b : leases b !! l = None -> total (b <| leases ::= <[l := 0]> |>) = total b + 1.
Proof. intros Hn. unfold total. cbn. rewrite msum_insert_new by done. cbn. lia. Qed.

Lemma transfer_spec l b b' :
  transfer l b = Some b' ->
  total b' = total b /\ settled b' = settled b /\
  forall x, own x b' = own x b + (if bool_decide (Some l = Some x) then 1 else 0).
Proof.
  unfold transfer. case_bool_decide as E; [|done]. intros [= <-]. split_and!; [|done|].
  - unfold total. cbn. rewrite (msum_insert_some _ _ _ _ 0) by done. cbn. lia.
  - intros x. unfold own. cbn. destruct (decide (x = l)) as [->|Hne].
    + rewrite lookup_insert_eq, E, (bool_decide_eq_true_2 (Some l = Some l)) by done. done.
    + rewrite lookup_insert_ne by congruence. rewrite (bool_decide_eq_false_2 (Some l = Some x)) by congruence. lia.
Qed.

Lemma settled_finish old l b : settled (finish_lease old l b) = settled b.
Proof. apply finish_lease_frame. Qed.

(** Ids of writer-owned leases are no more than the live ones. *)
Lemma owned_bound (ids : list nat) (m : gmap nat Z) :
  NoDup ids -> Forall (fun l => m !! l = Some 1) ids -> Z.of_nat (length ids) <= msum is_live m.
Proof.
  revert m. induction ids as [|l ids IH]; intros m Hnd Hf.
  { simpl. apply msum_nonneg. intros l s _. unfold is_live. case_match; lia. }
  apply NoDup_cons in Hnd as [Hl Hnd]. apply Forall_cons in Hf as [Hm Hf].
  pose proof (msum_delete is_live m l 1 Hm) as Hd. specialize (IH (delete l m) Hnd).
  rewrite Hd in IH. cbn [length]. change (is_live 1) with 1 in IH.
  assert (Forall (fun l0 => delete l m !! l0 = Some 1) ids) as Hf'.
  { apply Forall_forall. intros x Hx. rewrite lookup_delete_ne; [|by intros ->].
    by apply (proj1 (Forall_forall _ _) Hf). }
  specialize (IH Hf'). lia.
Qed.
End LeaseBooks.

(** Jobs that all carry leases the writer owns, each at most once, are no more than the live leases. *)
Lemma critical_jobs_bound {DB} (b : books DB) js :
  Forall (fun j => is_Some (lease j)) js -> (forall l, zsum (carries l) js <= own l b) ->
  Z.of_nat (length js) <= msum is_live (leases b).
Proof.
  intros Hs Ho.
  assert (Hlen : length js = length (omap lease js)).
  { clear Ho. induction Hs as [|j js [l Hl] _ IH]; simpl; [done|]. rewrite Hl. simpl. f_equal. exact IH. }
  rewrite Hlen. clear Hlen Hs.
  assert (Hcnt : forall js l, l ∈ omap lease js -> 1 <= zsum (carries l) js).
  { clear. intros js l (j & Hj & Hl)%list_elem_of_omap. apply list_elem_of_split in Hj as (l1 & l2 & ->).
    rewrite zsum_app, zsum_cons, (carries_own l j) by done.
    pose proof (carries_nonneg l l1). pose proof (carries_nonneg l l2). lia. }
  apply owned_bound.
  - assert (forall l, zsum (carries l) js <= 1) as H1 by (intros l; pose proof (own_range l b); specialize (Ho l); lia).
    clear Ho. induction js as [|j js IH]; simpl; [constructor|].
    assert (forall l, zsum (carries l) js <= 1) as H2.
    { intros l. specialize (H1 l). rewrite zsum_cons in H1. pose proof (carries_pos l j). lia. }
    destruct (lease j) as [l|] eqn:El; [|by apply IH]. constructor; [|by apply IH].
    intros Hin%Hcnt. specialize (H1 l). rewrite zsum_cons, (carries_own l j) in H1 by done. lia.
  - apply Forall_forall. intros l Hl%Hcnt. specialize (Ho l). unfold own in Ho. case_bool_decide; [done|lia].
Qed.

(* ------------------------------------------------------------------ *)
(** ** The commit pass, seen from the machine *)

Section CommitBooks.
Context {DB : Type} (exec : string -> list arg -> DB -> res sqlerr DB) (fn_exists : string -> DB -> bool).
Implicit Types b : books DB.

Lemma zsum_core f js : (forall j, f (core j) = f j) -> zsum f (map core js) = zsum f js.
Proof. intros Hf. induction js as [|j js IH]; simpl; [done|]. by rewrite Hf, IH. Qed.

Lemma zsum_retained f js ks :
  (forall j, f (core j) = f j) -> Permutation (map core js) (map core ks) -> zsum f js = zsum f ks.
Proof. intros Hf Hp. rewrite <- (zsum_core f js), <- (zsum_core f ks) by done. by rewrite Hp. Qed.

Lemma lane_ok_retained k js ks :
  Permutation (map core js) (map core ks) -> Forall (lane_ok k) js -> Forall (lane_ok k) ks.
Proof.
  intros Hp Hf. apply (Forall_map core (lane_ok k) ks). rewrite <- Hp. by apply Forall_map.
Qed.

Lemma bytes_nonneg k js : Forall (lane_ok k) js -> 0 <= zsum job_bytes js.
Proof. intros H. apply zsum_nonneg. eapply Forall_impl; [exact H|]. by intros j []. Qed.

(** Best-effort jobs own no lease. *)
Lemma no_lease_carries k js l : k <> writeCritical -> Forall (lane_ok k) js -> zsum (carries l) js = 0.
Proof.
  intros Hk. induction 1 as [|j js [_ Hj] _ IH]; simpl; [done|]. rewrite IH. unfold carries.
  case_bool_decide as E; [|done]. exfalso. apply Hk, Hj. by rewrite E.
Qed.

Lemma settled_counts b b' kind batch retry new :
  accounts exec fn_exists kind b b' batch retry new ->
  (forall l, zsum (carries l) batch <= own l b) -> Forall (lane_ok kind) batch ->
  total b' = total b /\
  (forall l, own l b' = own l b - zsum (carries l) batch + zsum (carries l) retry) /\
  (forall c, zsum (same_job c) (map snd (settled b'))
             = zsum (same_job c) (map snd (settled b)) + zsum (same_job c) batch - zsum (same_job c) retry) /\
  Forall (lane_ok kind) retry /\ batchBytes retry <= batchBytes batch.
Proof.
  intros (As & Ap & _ & _ & _ & Al & _) Ho Hok.
  assert (Hsum : forall f, (forall j, f (core j) = f j) -> zsum f batch = zsum f (map snd new) + zsum f retry).
  { intros f Hf. rewrite <- zsum_app. by apply zsum_retained. }
  pose proof (lane_ok_retained _ _ _ Ap Hok) as [Hnew Hret]%Forall_app.
  unfold lease_view in Al. injection Al as Hslots Hleases.
  assert (Hown : forall l, own l b' = own l (releaseJobs (map snd new) b)) by (intros; unfold own; by rewrite Hleases).
  split_and!; [|intros l|intros c|done|].
  - rewrite <- (total_releaseJobs (map snd new) b). unfold total. by rewrite Hslots, Hleases.
  - pose proof (Hsum (carries l) (fun _ => eq_refl)). specialize (Ho l). pose proof (carries_nonneg l retry).
    rewrite Hown, own_releaseJobs; lia.
  - pose proof (Hsum (same_job c) (fun _ => eq_refl)). rewrite As, map_app, zsum_app. lia.
  - pose proof (Hsum job_bytes (fun _ => eq_refl)). pose proof (bytes_nonneg _ _ Hnew). unfold batchBytes. lia.
Qed.

Lemma commit_books batch kind at_ fs b b' retry fs' :
  commit exec fn_exists batch kind at_ fs b = (b', retry, fs') ->
  (forall l, zsum (carries l) batch <= own l b) -> Forall (lane_ok kind) batch ->
  total b' = total b /\
  (forall l, own l b' = own l b - zsum (carries l) batch + zsum (carries l) retry) /\
  (forall c, zsum (same_job c) (map snd (settled b'))
             = zsum (same_job c) (map snd (settled b)) + zsum (same_job c) batch - zsum (same_job c) retry) /\
  Forall (lane_ok kind) retry /\ batchBytes retry <= batchBytes batch.
Proof.
  intros H. apply commit_accounts in H as [new Hacc]. by apply (settled_counts _ _ _ _ _ _ Hacc).
Qed.
End CommitBooks.

(* ------------------------------------------------------------------ *)
(** ** Preservation *)

Section Preservation.
Context {DB : Type} (exec : string -> list arg -> DB -> res sqlerr DB) (fn_exists : string -> DB -> bool).
Implicit Types (a : asyncWriter DB) (b : books DB) (ps : gmap nat producer) (p : producer).

Definition job_balance c a : Z :=
  zsum (same_job c) (accepted a) - zsum (same_job c) (map snd (settled (bk a))) - zsum (same_job c) (unsettled a).

Definition lane_balance k a : Z :=
  lane_bytes (lanes a k) - zsum job_bytes (queue (lanes a k)) - zsum job_bytes (batch (lanes a k)).

Definition owner_balance l a : Z := own l (bk a) - zsum (carries l) (in_memory a writeCritical).

(** One producer moves from [p] to [p'] while the writer goes from [a] to [a']. *)
Lemma inv_producer a a' ps t p p' :
  Inv a ps -> ps !! t = Some p ->
  total (bk a') + taken p' = total (bk a) + taken p ->
  (forall l, owner_balance l a' - hands l p' = owner_balance l a - hands l p) ->
  (forall k, lane_balance k a' - charge k p' = lane_balance k a - charge k p) ->
  (forall k, lane_bytes (lanes a' k) <= queue_limit k) ->
  (forall k, Forall (lane_ok k) (queue (lanes a' k)) /\ Forall (lane_ok k) (batch (lanes a' k))) ->
  proc_ok p' -> quit a' = quit a -> stopRequested a' = stopRequested a -> ctl a' = ctl a ->
  (inside p' = true -> inside p = true \/ stopRequested a = false) ->
  (inside p = false -> forall k, queue (lanes a' k) = queue (lanes a k)) ->
  (forall c, job_balance c a' = job_balance c a) ->
  Inv a' (<[t := p']> ps).
Proof.
  intros [Is Io Ib Il Ila Ip Iq Ie Idr Ik Ij] Ht Hs Ho Hb Hl Hla Hp Hq Hst Hc Hin Hqu Hj.
  unfold owner_balance, lane_balance, job_balance in *. split.
  - rewrite (msum_insert_some _ _ _ _ p) by done. lia.
  - intros l. rewrite (msum_insert_some _ _ _ _ p) by done. specialize (Ho l). specialize (Io l). lia.
  - intros k. rewrite (msum_insert_some _ _ _ _ p) by done. specialize (Hb k). specialize (Ib k). lia.
  - done.
  - done.
  - by apply map_Forall_insert_2.
  - rewrite Hq, Hst. intros [Hstop Hall]%Iq. split; [done|]. apply map_Forall_insert_2; [|done].
    destruct (inside p') eqn:E; [|done]. destruct (Hin eq_refl) as [Hx|Hx]; [|congruence].
    by rewrite (Hall _ _ Ht) in Hx.
  - by rewrite Hc, Hq.
  - rewrite Hc. intros Hd k. destruct (Iq ltac:(apply Ie; by destruct (ctl a))) as [_ Hall].
    rewrite Hqu; [by apply Idr|]. by apply (Hall t).
  - by rewrite Hc.
  - intros c. specialize (Hj c). specialize (Ij c). lia.
Qed.

(** The same when the lanes are untouched. *)
Lemma inv_producer_lanes a a' ps t p p' :
  Inv a ps -> ps !! t = Some p ->
  lanes a' = lanes a -> accepted a' = accepted a -> settled (bk a') = settled (bk a) ->
  quit a' = quit a -> stopRequested a' = stopRequested a -> ctl a' = ctl a ->
  total (bk a') + taken p' = total (bk a) + taken p ->
  (forall l, own l (bk a') - hands l p' = own l (bk a) - hands l p) ->
  (forall k, charge k p' = charge k p) -> proc_ok p' ->
  (inside p' = true -> inside p = true \/ stopRequested a = false) ->
  Inv a' (<[t := p']> ps).
Proof.
  intros HI Ht Hl Ha Hs Hq Hst Hc Htot Ho Hch Hp Hin.
  pose proof HI as [Is Io Ib Il Ila Ip Iq Ie Idr Ik Ij].
  apply (inv_producer a _ _ _ p); unfold owner_balance, lane_balance, job_balance, unsettled, in_memory, pending;
    rewrite ?Hl, ?Ha, ?Hs, ?Hc; auto.
  - intros l. specialize (Ho l). lia.
  - intros k. rewrite Hch. lia.
Qed.

(** Byte accounting of a lane change that keeps the jobs. *)
Lemma inv_producer_bytes a b' ps t p p' k f n c :
  Inv a ps -> ps !! t = Some p ->
  (forall ln, queue (f ln) = queue ln /\ batch (f ln) = batch ln) -> lane_bytes (f (lanes a k)) = n ->
  settled b' = settled (bk a) -> total b' + taken p' = total (bk a) + taken p ->
  (forall l, own l b' - hands l p' = own l (bk a) - hands l p) ->
  n <= queue_limit k -> n - charge k p' = lane_bytes (lanes a k) - charge k p ->
  (forall k', k' <> k -> charge k' p' = charge k' p) -> proc_ok p' ->
  (inside p' = true -> inside p = true \/ stopRequested a = false) ->
  Inv (on_lane k f a <| bk := b' |> <| timeouts := c |>) (<[t := p']> ps).
Proof.
  intros HI Ht Hf Hfn Hs Htot Ho Hn Hk Hk' Hp Hin.
  pose proof HI as [Is Io Ib Il Ila Ip Iq Ie Idr Ik Ij].
  set (a' := on_lane k f a <| bk := b' |> <| timeouts := c |>).
  assert (Hq : forall k', queue (lanes a' k') = queue (lanes a k'))
    by (intros k'; cbn; destruct (kind_eqb k' k); [apply Hf|done]).
  assert (Hb : forall k', batch (lanes a' k') = batch (lanes a k'))
    by (intros k'; cbn; destruct (kind_eqb k' k); [apply Hf|done]).
  assert (Hy : forall k', lane_bytes (lanes a' k') = if kind_eqb k' k then n else lane_bytes (lanes a k'))
    by (intros k'; destruct k, k'; cbn; congruence).
  assert (Hm : forall k', in_memory a' k' = in_memory a k').
  { intros k'. unfold in_memory, pending. rewrite Hq. change (ctl a') with (ctl a). by rewrite Hb. }
  apply (inv_producer a _ _ _ p); try done.
  - intros l. unfold owner_balance. rewrite Hm. specialize (Ho l). change (bk a') with b'. lia.
  - intros k'. unfold lane_balance. rewrite Hq, Hb, Hy.
    destruct k, k'; cbn; first [rewrite Hk' by done; lia | lia].
  - intros k'. specialize (Il k'). rewrite Hy. destruct k, k'; cbn in *; lia.
  - intros k'. rewrite Hq, Hb. apply Ila.
  - intros x. unfold job_balance, unsettled. rewrite !Hm. change (bk a') with b'. by rewrite Hs.
Qed.

Lemma inv_publish a a' ps t p p' k j :
  Inv a ps -> ps !! t = Some p -> publish k j a = Some (a', p') ->
  taken p = 0 -> inside p = true -> lane_ok k j ->
  (forall l, hands l p = if kind_eqb k writeCritical then carries l j else 0) ->
  (forall k', charge k' p = if kind_eqb k k' then job_bytes j else 0) ->
  Inv a' (<[t := p']> ps).
Proof.
  intros HI Ht Hpub Htk Hin Hok Hh Hch. unfold publish in Hpub. destruct (_ <? _)%nat; [|done].
  injection Hpub as <- <-. pose proof HI as [Is Io Ib Il Ila Ip Iq Ie Idr Ik Ij].
  set (a' := on_lane k (fun ln => ln <| queue ::= fun q => q ++ [j] |>) a <| accepted ::= fun l => l ++ [j] |>).
  change (Inv a' (<[t := Returned None]> ps)).
  assert (Hlane : forall k', lane_bytes (lanes a' k') = lane_bytes (lanes a k') /\ batch (lanes a' k') = batch (lanes a k'))
    by (intros k'; cbn; by destruct (kind_eqb k' k)).
  assert (Hq : forall k', queue (lanes a' k') = queue (lanes a k') ++ if kind_eqb k' k then [j] else [])
    by (intros k'; cbn; destruct (kind_eqb k' k); cbn; by rewrite ?app_nil_r).
  assert (Hm : forall f k', zsum f (in_memory a' k') = zsum f (in_memory a k') + if kind_eqb k' k then f j else 0).
  { intros f k'. unfold in_memory, pending. rewrite Hq. change (ctl a') with (ctl a). destruct (Hlane k') as [_ ->].
    rewrite !zsum_app. destruct (kind_eqb k' k); cbn; lia. }
  apply (inv_producer a _ _ _ p); try done.
  - change (bk a') with (bk a). cbn [taken]. lia.
  - intros l. unfold owner_balance. rewrite Hm, Hh. change (bk a') with (bk a). destruct k; cbn; lia.
  - intros k'. unfold lane_balance. destruct (Hlane k') as [-> ->]. rewrite Hq, zsum_app, Hch.
    destruct k, k'; cbn; lia.
  - intros k'. destruct (Hlane k') as [-> _]. apply Il.
  - intros k'. destruct (Hlane k') as [_ ->]. rewrite Hq, Forall_app. destruct (Ila k'). repeat split; auto.
    destruct k, k'; cbn; auto.
  - congruence.
  - intros c. unfold job_balance, unsettled. change (accepted a') with (accepted a ++ [j]).
    change (bk a') with (bk a). rewrite !zsum_app, !Hm. destruct k; cbn; lia.
Qed.

Lemma reserveQueueBytes_spec counter n limit c :
  reserveQueueBytes counter n limit = Some c -> c = counter + n /\ 0 <= n /\ 0 <= counter /\ c <= limit.
Proof. unfold reserveQueueBytes. intros H. split_ifs_in H. injection H as <-. lia. Qed.

(** A step that only moves the producer. *)
Lemma inv_move a ps t p p' :
  Inv a ps -> ps !! t = Some p -> taken p' = taken p -> (forall l, hands l p' = hands l p) ->
  (forall k, charge k p' = charge k p) -> proc_ok p' -> (inside p' = true -> inside p = true \/ stopRequested a = false) ->
  Inv a (<[t := p']> ps).
Proof.
  intros HI Ht Htk Hh Hch Hp Hin. apply (inv_producer_lanes a _ _ _ p); auto; [lia|].
  intros l. specialize (Hh l). lia.
Qed.

(** A lease is finished from the caller's side. *)
Lemma inv_cancel a ps t p p' l :
  Inv a ps -> ps !! t = Some p -> taken p' = taken p -> (forall l, hands l p' = hands l p) ->
  (forall k, charge k p' = charge k p) -> proc_ok p' -> inside p' = false ->
  Inv (on_books (Cancel l) a) (<[t := p']> ps).
Proof.
  intros HI Ht Htk Hh Hch Hp Hin. apply (inv_producer_lanes a _ _ _ p); auto; try done.
  - cbn. apply finish_lease_frame.
  - cbn [bk on_books set_field]. unfold Cancel. rewrite total_finish by by left. lia.
  - intros x. cbn [bk on_books set_field]. rewrite own_cancel, Hh. lia.
  - congruence.
Qed.

Lemma inv_timeouts a ps n : Inv a ps -> Inv (a <| timeouts := n |>) ps.
Proof. intros [Is Io Ib Il Ila Ip Iq Ie Idr Ik Ij]. by split. Qed.

Lemma inv_reserve a a' ps t r p' pick ctx :
  Inv a ps -> ps !! t = Some (Waiting r) -> reserve_select pick ctx r a = Some (a', p') ->
  Inv a' (<[t := p']> ps).
Proof.
  intros HI Ht. unfold reserve_select. intros [Hin|[? _]]%go_select_in; [|done].
  apply list_elem_of_In in Hin. destruct Hin as [H|[H|[H|[]]]].
  - destruct ctx; [|done]. destruct r; injection H as <- <-; [apply (inv_timeouts a)|]; by eapply inv_move.
  - destruct (stopRequested a); [|done]. destruct r; injection H as <- <-; by eapply inv_move.
  - destruct (0 <? _) eqn:E; [|done]. injection H as <- <-.
    apply (inv_producer_lanes a _ _ _ (Waiting r)); try done; try reflexivity.
    unfold total. cbn. lia.
Qed.

Lemma inv_reserve_check a ps t r :
  Inv a ps -> ps !! t = Some (SlotTaken r) ->
  Inv (reserve_check r a).1 (<[t := (reserve_check r a).2]> ps).
Proof.
  intros HI Ht. unfold reserve_check. destruct (stopRequested a) eqn:Es; cbn [fst snd].
  - apply (inv_producer_lanes a _ _ _ (SlotTaken r)); try done; try (destruct r; done).
    destruct r; unfold total; cbn; lia.
  - set (l := fresh (dom (leases (bk a)))).
    assert (Hl : leases (bk a) !! l = None) by (apply not_elem_of_dom, is_fresh).
    apply (inv_producer_lanes a _ _ _ (SlotTaken r)); try done; try (destruct r; done).
    + pose proof (total_fresh _ _ Hl) as H. unfold total in *. cbn in *. destruct r; cbn; lia.
    + intros x. pose proof (own_fresh x _ _ Hl) as H. unfold own in *. cbn in *. rewrite H. by destruct r.
Qed.

Lemma inv_critical_charge a ps t r l now :
  Inv a ps -> ps !! t = Some (Entered writeCritical r l) ->
  Inv (critical_charge r l now a).1 (<[t := (critical_charge r l now a).2]> ps).
Proof.
  intros HI Ht. unfold critical_charge. cbv zeta.
  pose proof (I_proc _ _ HI _ _ Ht) as Hp. cbn in Hp.
  destruct (reserveQueueBytes _ _ _) as [c|] eqn:E; cbn [fst snd].
  - apply reserveQueueBytes_spec in E as (Hc & Hn & _ & Hlim).
    apply (inv_producer_bytes a (bk a) ps t (Entered writeCritical r l) _ writeCritical _ c (timeouts a)); try done.
    + cbn [charge kind_eqb]. cbn [charge]. lia.
    + intros k' Hk'. destruct k'; done.
    + by left.
  - apply (inv_timeouts _ _ _). by apply (inv_cancel a _ _ (Entered writeCritical r l)).
Qed.

Lemma inv_effort_charge a ps t k r now :
  Inv a ps -> ps !! t = Some (Entered k r None) -> k <> writeCritical ->
  Inv (effort_charge k r now a).1 (<[t := (effort_charge k r now a).2]> ps).
Proof.
  intros HI Ht Hk. unfold effort_charge. cbv zeta.
  destruct (reserveQueueBytes _ _ _) as [c|] eqn:E; cbn [fst snd].
  - apply reserveQueueBytes_spec in E as (Hc & Hn & _ & Hlim).
    apply (inv_producer_bytes a (bk a) ps t (Entered k r None) _ k _ c (timeouts a)); try done.
    + destruct k; cbn [charge kind_eqb]; lia.
    + intros k' Hk'. destruct k, k'; done.
    + split; [done|]. split; [done|]. by intros [].
    + by left.
  - apply (inv_producer_lanes a _ _ _ (Entered k r None)); try done; by destruct k.
Qed.

(** A charge is taken back and the producer leaves the read lock. *)
Lemma inv_undo a b' ps t p p' k n c :
  Inv a ps -> ps !! t = Some p ->
  settled b' = settled (bk a) -> total b' = total (bk a) -> taken p = 0 -> taken p' = 0 ->
  (forall l, own l b' - hands l p' = own l (bk a) - hands l p) ->
  (forall k', charge k' p = if kind_eqb k k' then n else 0) -> (forall k', charge k' p' = 0) -> 0 <= n ->
  proc_ok p' -> inside p' = false ->
  Inv (add_bytes k (- n) a <| bk := b' |> <| timeouts := c |>) (<[t := p']> ps).
Proof.
  intros HI Ht Hs Htot Htk Htk' Ho Hch Hch' Hn Hp Hin. pose proof (I_limit _ _ HI k).
  eapply (inv_producer_bytes a b' ps t p p' k _ (lane_bytes (lanes a k) - n) c); try done.
  - cbn. lia.
  - lia.
  - lia.
  - rewrite Hch, Hch'. destruct k; cbn; lia.
  - intros k' Hk. rewrite Hch, Hch'. destruct k, k'; done.
  - congruence.
Qed.

Lemma inv_critical_transfer a ps t j :
  Inv a ps -> ps !! t = Some (Charged writeCritical j) ->
  Inv (critical_transfer j a).1 (<[t := (critical_transfer j a).2]> ps).
Proof.
  intros HI Ht. destruct (I_proc _ _ HI _ _ Ht) as [Hn [Hsome _]]. destruct (Hsome eq_refl) as [l Hl].
  unfold critical_transfer.
  rewrite Hl. cbn [mbind option_bind]. destruct (transfer l (bk a)) as [b|] eqn:E; cbn [fst snd].
  - apply transfer_spec in E as (Et & Es & Eo).
    apply (inv_producer_lanes a _ _ _ (Charged writeCritical j)); try done.
    + cbn [bk set_field taken]. lia.
    + intros x. cbn [bk set_field hands]. rewrite Eo. unfold carries. rewrite Hl. lia.
    + by left.
  - apply (inv_undo a (bk a) ps t (Charged writeCritical j) _ _ (job_bytes j) (timeouts a)); try done.
Qed.

(** A producer handing over a job has the writer own its lease. *)
Lemma handing_owns a ps t j l : Inv a ps -> ps !! t = Some (Handing j) -> lease j = Some l -> own l (bk a) = 1.
Proof.
  intros HI Ht Hl. pose proof (I_owner _ _ HI l) as Ho. pose proof (own_range l (bk a)).
  pose proof (carries_nonneg l (in_memory a writeCritical)).
  assert (hands l (Handing j) <= msum (hands l) ps) as Hle.
  { apply (msum_lookup_le _ _ t); [|done]. intros t' p' _. destruct p'; cbn; try lia. apply carries_pos. }
  cbn [hands] in Hle. rewrite (carries_own l j Hl) in Hle. lia.
Qed.

Lemma inv_critical_undo a ps t j p' c :
  Inv a ps -> ps !! t = Some (Handing j) -> taken p' = 0 -> (forall l, hands l p' = 0) ->
  (forall k, charge k p' = 0) -> proc_ok p' -> inside p' = false ->
  Inv (on_books (done_ (lease j)) (add_bytes writeCritical (- job_bytes j) a) <| timeouts := c |>) (<[t := p']> ps).
Proof.
  intros HI Ht Htk Hh Hch Hp Hin. destruct (I_proc _ _ HI _ _ Ht) as [Hn [Hsome _]].
  destruct (Hsome eq_refl) as [l Hl].
  eapply (inv_undo a (done_ (lease j) (bk a)) ps t (Handing j) _ writeCritical (job_bytes j) c); try done.
  - apply finish_lease_frame.
  - apply total_finish. by right.
  - intros x. rewrite own_done, Hh. cbn [hands]. unfold carries. rewrite Hl. case_bool_decide as E; [|lia].
    injection E as ->. rewrite (handing_owns a ps t j x); done.
Qed.

Lemma inv_critical_send a a' ps t pick ctx j p' :
  Inv a ps -> ps !! t = Some (Handing j) -> critical_send pick ctx j a = Some (a', p') ->
  Inv a' (<[t := p']> ps).
Proof.
  intros HI Ht. unfold critical_send. intros [Hin|[? _]]%go_select_in; [|done].
  apply list_elem_of_In in Hin. destruct Hin as [H|[H|[H|[]]]].
  - destruct (stopRequested a); [|done]. injection H as <- <-.
    by apply (inv_critical_undo a ps t j _ (timeouts a)).
  - apply (inv_publish _ _ _ _ _ _ _ _ HI Ht H); try done. apply (I_proc _ _ HI _ _ Ht).
  - destruct ctx; [|done]. injection H as <- <-. by apply (inv_critical_undo a ps t j _ (Z.succ (timeouts a))).
Qed.

Lemma inv_effort_send a a' ps t pick k j p' :
  Inv a ps -> ps !! t = Some (Charged k j) -> k <> writeCritical -> effort_send pick k j a = Some (a', p') ->
  Inv a' (<[t := p']> ps).
Proof.
  intros HI Ht Hk. pose proof (I_proc _ _ HI _ _ Ht) as Hok. unfold effort_send.
  assert (Drop : forall a' p', (on_books (recordDropped k 1) (add_bytes k (- job_bytes j) a), Returned None) = (a', p') ->
                               Inv a' (<[t := p']> ps)).
  { intros a1 p1 [= <- <-].
    apply (inv_undo a (recordDropped k 1 (bk a)) ps t (Charged k j) _ k (job_bytes j) (timeouts a)); try done;
      try (by destruct k). apply Hok. }
  intros [Hin|[Hd _]]%go_select_in; [|injection Hd as Ha Hb; apply Drop; congruence].
  apply list_elem_of_In in Hin. destruct Hin as [H|[H|[]]].
  - destruct (stopRequested a); [|done]. injection H as Ha Hb. apply Drop; congruence.
  - apply (inv_publish _ _ _ _ _ _ _ _ HI Ht H); try done. intros l. by destruct k.
Qed.

Lemma inv_direct a ps t r fs :
  Inv a ps -> ps !! t = Some (Direct r) ->
  Inv (direct_write exec r fs a).1 (<[t := (direct_write exec r fs a).2]> ps).
Proof.
  intros HI Ht. unfold direct_write. destruct (attempt _ _) as [[d|e] fs']; cbn [fst snd].
  - by apply (inv_producer_lanes a _ _ _ (Direct r)).
  - by apply (inv_move a _ _ (Direct r)).
Qed.

Lemma inv_producer_step a a' ps t pick ctx now fs p p' :
  Inv a ps -> ps !! t = Some p -> producer_step exec pick ctx now fs p a = Some (a', p') ->
  Inv a' (<[t := p']> ps).
Proof.
  intros HI Ht. pose proof (I_proc _ _ HI _ _ Ht) as Hok.
  destruct p as [r|r|r l|k r|k r l|k j|j|r|e|l]; cbn [producer_step]; try done.
  - by apply inv_reserve.
  - intros [= H]. pose proof (inv_reserve_check a ps t r HI Ht) as Hx. by rewrite H in Hx.
  - unfold critical_enter. destruct (stopRequested a) eqn:Es; intros [= <- <-].
    + by apply (inv_cancel a _ _ (Leased r l)).
    + apply (inv_move a _ _ (Leased r l)); try done; by right.
  - unfold effort_enter. destruct (stopRequested a) eqn:Es; intros [= <- <-].
    + apply (inv_producer_lanes a _ _ _ (Arriving k r)); try done; by destruct k.
    + apply (inv_move a _ _ (Arriving k r)); try done; [by right].
  - intros H. destruct k; injection H as H.
    1: pose proof (inv_critical_charge a ps t r l now HI Ht) as Hx; by rewrite H in Hx.
    all: cbn in Hok; destruct l as [l|]; [by discriminate (proj2 Hok (mk_is_Some _ _ eq_refl))|].
    + pose proof (inv_effort_charge a ps t writeActivity r now HI Ht ltac:(done)) as Hx. by rewrite H in Hx.
    + pose proof (inv_effort_charge a ps t writeTelemetry r now HI Ht ltac:(done)) as Hx. by rewrite H in Hx.
  - destruct k; [|by apply inv_effort_send..]. intros [= H].
    pose proof (inv_critical_transfer a ps t j HI Ht) as Hx. by rewrite H in Hx.
  - by apply inv_critical_send.
  - intros [= H]. pose proof (inv_direct a ps t r fs HI Ht) as Hx. by rewrite H in Hx.
Qed.

(** *** The consumer *)

Lemma pending_live a k : drained (ctl a) = false -> pending a k = batch (lanes a k).
Proof. unfold pending. by destruct (ctl a). Qed.

(** The writer moves from [a] to [a'], the producers stay. *)
Lemma inv_consumer a a' ps :
  Inv a ps ->
  total (bk a') = total (bk a) ->
  (forall l, owner_balance l a' = owner_balance l a) ->
  (forall k, lane_balance k a' = lane_balance k a) ->
  (forall k, lane_bytes (lanes a' k) <= lane_bytes (lanes a k)) ->
  (forall k, Forall (lane_ok k) (queue (lanes a' k)) /\ Forall (lane_ok k) (batch (lanes a' k))) ->
  quit a' = quit a -> stopRequested a' = stopRequested a ->
  (ending (ctl a') = true -> quit a = true) ->
  (drained (ctl a') = true -> forall k, queue (lanes a' k) = []) ->
  match ctl a' with Finishing ks => NoDup ks | _ => True end ->
  (forall c, job_balance c a' = job_balance c a) ->
  Inv a' ps.
Proof.
  intros [Is Io Ib Il Ila Ip Iq Ie Idr Ik Ij] Ht Ho Hb Hl Hla Hq Hst He Hd Hk Hj.
  unfold owner_balance, lane_balance, job_balance in *. split; try done.
  - lia.
  - intros l. specialize (Ho l). specialize (Io l). lia.
  - intros k. specialize (Hb k). specialize (Ib k). lia.
  - intros k. specialize (Hl k). specialize (Il k). lia.
  - by rewrite Hq, Hst.
  - by rewrite Hq.
  - intros c. specialize (Hj c). specialize (Ij c). lia.
Qed.

(** Moving between control points of the main loop. *)
Lemma inv_ctl a ps c :
  Inv a ps -> drained (ctl a) = false -> drained c = false -> (ending c = true -> quit a = true) ->
  Inv (a <| ctl := c |>) ps.
Proof.
  intros HI Hd Hc He.
  assert (Hp : forall k, in_memory (a <| ctl := c |>) k = in_memory a k).
  { intros k. unfold in_memory. by rewrite !pending_live. }
  apply (inv_consumer a); try done.
  - intros l. unfold owner_balance. by rewrite Hp.
  - apply (I_lane _ _ HI).
  - cbn. congruence.
  - by destruct c.
  - intros x. unfold job_balance, unsettled. by rewrite !Hp.
Qed.

Lemma inv_receive a a' ps k next :
  Inv a ps -> drained (ctl a) = false -> receive k next a = Some a' ->
  (forall ln, drained (next ln) = false /\ (ending (next ln) = true -> quit a = true)) -> Inv a' ps.
Proof.
  intros HI Hd Hr Hn. unfold receive in Hr. destruct (queue (lanes a k)) as [|j q] eqn:Eq; [done|].
  pose proof HI as [Is Io Ib Il Ila Ip Iq Ie Idr Ik Ij].
  set (a1 := on_lane k (fun ln => ln <| queue := q |> <| batch ::= fun bs => bs ++ [j] |>) a).
  assert (a' = a1 <| ctl := next (lanes a1 k) |>) as -> by (unfold a1; congruence). clear Hr.
  assert (HI1 : Inv a1 ps).
  { assert (Hlane : forall k', queue (lanes a k') = (if kind_eqb k' k then [j] else []) ++ queue (lanes a1 k') /\
              batch (lanes a1 k') = batch (lanes a k') ++ (if kind_eqb k' k then [j] else []) /\
              lane_bytes (lanes a1 k') = lane_bytes (lanes a k')).
    { intros k'. subst a1. destruct k, k'; cbn; rewrite ?Eq, ?app_nil_r; auto. }
    assert (Hm : forall f k', zsum f (in_memory a1 k') = zsum f (in_memory a k')).
    { intros f k'. unfold in_memory. rewrite !pending_live by done.
      destruct (Hlane k') as (-> & -> & _). rewrite !zsum_app. lia. }
    apply (inv_consumer a); try done.
    - intros l. unfold owner_balance. by rewrite Hm.
    - intros k'. unfold lane_balance. destruct (Hlane k') as (-> & -> & ->). rewrite !zsum_app. lia.
    - intros k'. destruct (Hlane k') as (_ & _ & ->). lia.
    - intros k'. destruct (Ila k') as [Hf1 Hf2]. destruct (Hlane k') as (E1 & -> & _). rewrite E1 in Hf1.
      apply Forall_app in Hf1 as []. split; [done|]. by apply Forall_app.
    - change (ctl a1) with (ctl a). congruence.
    - intros c. unfold job_balance, unsettled. rewrite !zsum_app, !Hm. done. }
  destruct (Hn (lanes a1 k)). by apply inv_ctl.
Qed.

Lemma owns_batch a ps k :
  Inv a ps -> pending a k = batch (lanes a k) -> forall l, zsum (carries l) (batch (lanes a k)) <= own l (bk a).
Proof.
  intros HI Hp l. destruct (decide (k = writeCritical)) as [->|Hk].
  - pose proof (I_owner _ _ HI l) as Ho. unfold in_memory in Ho. rewrite Hp, zsum_app in Ho.
    pose proof (carries_nonneg l (queue (lanes a writeCritical))).
    assert (0 <= msum (hands l) ps).
    { apply msum_nonneg. intros t p _. destruct p; cbn; try lia. apply carries_pos. }
    lia.
  - rewrite (no_lease_carries k); [|done|apply (I_lane _ _ HI)]. apply own_range.
Qed.

Lemma inv_flush a ps k now at_ fs :
  Inv a ps -> drained (ctl a) = false -> Inv (flush exec fn_exists k now at_ fs a) ps.
Proof.
  intros HI Hd. unfold flush. destruct (batch (lanes a k)) as [|j0 q0] eqn:Eb; [done|]. rewrite <- Eb.
  destruct (commit _ _ _ _ _ _ _) as [[b retry] fs'] eqn:Ec.
  pose proof HI as [Is Io Ib Il Ila Ip Iq Ie Idr Ik Ij].
  pose proof (owns_batch a ps k HI (pending_live a k Hd)) as Hown.
  apply commit_books in Ec as (Ht & Ho & Hs & Hok & Hbytes); [|done|apply Ila].
  match goal with |- Inv ?x ps => set (a' := x) end.
  assert (Hlane : forall k', queue (lanes a' k') = queue (lanes a k') /\
            batch (lanes a' k') = (if kind_eqb k' k then retry else batch (lanes a k')) /\
            lane_bytes (lanes a' k') = lane_bytes (lanes a k') +
              (if kind_eqb k' k then batchBytes retry - batchBytes (batch (lanes a k)) else 0)).
  { intros k'. subst a'. destruct retry; destruct k, k'; cbn; split_and!; auto; lia. }
  assert (Hbk : bk a' = b) by (subst a'; by destruct retry).
  assert (Hctl : ctl a' = ctl a /\ quit a' = quit a /\ stopRequested a' = stopRequested a /\ accepted a' = accepted a)
    by (subst a'; by destruct retry).
  destruct Hctl as (Hctl & Hq & Hst & Hacc). clearbody a'.
  assert (Hm : forall f k', zsum f (in_memory a' k') = zsum f (in_memory a k') +
              if kind_eqb k' k then zsum f retry - zsum f (batch (lanes a k)) else 0).
  { intros f k'. unfold in_memory. rewrite !pending_live by congruence.
    destruct (Hlane k') as (-> & -> & _). rewrite !zsum_app. destruct k, k'; cbn [kind_eqb]; lia. }
  apply (inv_consumer a); try done; rewrite ?Hbk, ?Hctl; try done.
  - intros l. unfold owner_balance. rewrite Hm, Hbk, Ho. destruct (decide (k = writeCritical)) as [->|Hk]; [cbn [kind_eqb]; lia|].
    rewrite !(no_lease_carries k) by (done || apply Ila). destruct k; cbn [kind_eqb]; [done|lia|lia].
  - intros k'. unfold lane_balance. destruct (Hlane k') as (-> & -> & ->). unfold batchBytes in *.
    destruct k, k'; cbn [kind_eqb]; lia.
  - intros k'. destruct (Hlane k') as (_ & _ & ->). destruct (kind_eqb k' k); lia.
  - intros k'. destruct (Ila k'). destruct (Hlane k') as (-> & -> & _). destruct k, k'; cbn [kind_eqb]; auto.
  - congruence.
  - intros c. unfold job_balance, unsettled. rewrite !zsum_app, !Hm, Hbk, Hs, Hacc. destruct k; cbn [kind_eqb]; lia.
Qed.

Lemma inv_loop_select a a' ps pick tick now pressure optional :
  Inv a ps -> ctl a = Selecting pressure optional -> loop_select pick tick now pressure optional a = Some a' -> Inv a' ps.
Proof.
  intros HI Hc. assert (Hd : drained (ctl a) = false) by by rewrite Hc.
  assert (Full : forall k ln, drained (full_then_flush k ln) = false /\ (ending (full_then_flush k ln) = true -> quit a = true)).
  { intros k ln. unfold full_then_flush. by destruct (_ <=? _)%nat. }
  unfold loop_select. intros [Hin|[? _]]%go_select_in; [|done].
  apply list_elem_of_In in Hin. destruct Hin as [H|[H|[H|[H|[H|[]]]]]].
  - destruct (draining _); [|done]. by eapply inv_receive.
  - destruct (_ && _); [|done]. by eapply inv_receive.
  - destruct (_ && _); [|done]. by eapply inv_receive.
  - destruct tick; [|done]. injection H as <-. by apply inv_ctl.
  - destruct (quit a) eqn:Eq; [|done]. injection H as <-. by apply inv_ctl.
Qed.

Lemma inv_drain_select a a' ps pick :
  Inv a ps -> ctl a = Draining -> drain_select pick a = Some a' -> Inv a' ps.
Proof.
  intros HI Hc. assert (Hd : drained (ctl a) = false) by by rewrite Hc.
  pose proof (I_ending _ _ HI) as He. rewrite Hc in He. specialize (He eq_refl).
  unfold drain_select. intros [Hin|[H Hnone]]%go_select_in.
  { apply list_elem_of_In in Hin. destruct Hin as [H|[H|[H|[]]]].
    all: apply (inv_receive _ _ _ _ _ HI Hd H); intros; split; [done|auto]. }
  injection H as H. rewrite !Forall_cons in Hnone. destruct Hnone as (H1 & H2 & H3 & _).
  assert (Hq : forall k, queue (lanes a k) = []).
  { unfold receive in *. intros []; [destruct (queue (lanes a writeCritical))|destruct (queue (lanes a writeActivity))|
      destruct (queue (lanes a writeTelemetry))]; done. }
  assert (Hlane : forall k, queue (lanes a' k) = queue (lanes a k) /\ batch (lanes a' k) = batch (lanes a k) /\
                            lane_bytes (lanes a' k) = lane_bytes (lanes a k)) by (subst a'; by intros []).
  assert (Hctl : ctl a' = Finishing [writeCritical; writeActivity; writeTelemetry] /\ bk a' = bk a /\
                 quit a' = quit a /\ stopRequested a' = stopRequested a /\ accepted a' = accepted a) by by subst a'.
  destruct Hctl as (Hctl & Hbk & Hqu & Hst & Hacc). clear H.
  assert (Hm : forall k, in_memory a' k = in_memory a k).
  { intros k. unfold in_memory. rewrite (pending_live a) by done. unfold pending. rewrite Hctl.
    destruct (Hlane k) as (-> & -> & _). by destruct k. }
  apply (inv_consumer a); try done; rewrite ?Hbk, ?Hctl; try done.
  - intros l. unfold owner_balance. by rewrite Hm, Hbk.
  - intros k. unfold lane_balance. by destruct (Hlane k) as (-> & -> & ->).
  - intros k. by destruct (Hlane k) as (_ & _ & ->).
  - intros k. destruct (Hlane k) as (-> & -> & _). apply (I_lane _ _ HI).
  - intros _ k. destruct (Hlane k) as (-> & _ & _). apply Hq.
  - apply (bool_decide_unpack _). vm_compute. exact I.
  - intros c. unfold job_balance, unsettled. by rewrite !Hm, Hbk, Hacc.
Qed.

(** The lane being finished settles its batch. *)
Lemma inv_finish_books a b' ps k ks :
  Inv a ps -> ctl a = Finishing (k :: ks) ->
  total b' = total (bk a) ->
  (forall l, own l b' = own l (bk a) - zsum (carries l) (batch (lanes a k))) ->
  (forall c, zsum (same_job c) (map snd (settled b'))
             = zsum (same_job c) (map snd (settled (bk a))) + zsum (same_job c) (batch (lanes a k))) ->
  Inv (a <| bk := b' |> <| ctl := Finishing ks |>) ps.
Proof.
  intros HI Hc Ht Ho Hs. pose proof HI as [Is Io Ib Il Ila Ip Iq Ie Idr Ik Ij]. rewrite Hc in *.
  apply NoDup_cons in Ik as [Hk Hnd]. specialize (Idr eq_refl).
  set (a' := a <| bk := b' |> <| ctl := Finishing ks |>).
  assert (Hm : forall f k', zsum f (in_memory a' k') = zsum f (in_memory a k') -
              if kind_eqb k' k then zsum f (batch (lanes a k)) else 0).
  { intros f k'. unfold in_memory, pending. rewrite Hc. change (lanes a') with (lanes a).
    change (ctl a') with (Finishing ks). cbv iota. rewrite !zsum_app.
    destruct (decide (k' = k)) as [->|Hne].
    - rewrite (bool_decide_eq_false_2 (k ∈ ks)) by done. rewrite bool_decide_eq_true_2 by left.
      destruct k; cbn [kind_eqb]; rewrite zsum_nil; lia.
    - assert (kind_eqb k' k = false) as -> by (by destruct k, k').
      assert (bool_decide (k' ∈ k :: ks) = bool_decide (k' ∈ ks)) as ->
        by (apply bool_decide_ext; rewrite elem_of_cons; tauto). lia. }
  apply (inv_consumer a); try done.
  - intros l. unfold owner_balance. rewrite Hm. change (bk a') with b'. rewrite Ho.
    destruct (decide (k = writeCritical)) as [->|Hne]; [cbn [kind_eqb]; lia|].
    rewrite (no_lease_carries k) by (done || apply Ila). destruct k; cbn [kind_eqb]; [done|lia|lia].
  - intros c. unfold job_balance, unsettled. rewrite !zsum_app, !Hm. change (bk a') with b'. rewrite Hs.
    change (accepted a') with (accepted a). destruct k; cbn [kind_eqb]; lia.
Qed.

Lemma settle_counts b o js c :
  zsum (same_job c) (map snd (settled (settle o js b)))
  = zsum (same_job c) (map snd (settled b)) + zsum (same_job c) js.
Proof. cbn [settle settled set_field]. by rewrite map_app, zsum_app, map_snd_pair. Qed.

Lemma inv_finish_lane a ps k ks at_ fs :
  Inv a ps -> ctl a = Finishing (k :: ks) ->
  Inv (finish_lane exec fn_exists k at_ fs a <| ctl := Finishing ks |>) ps.
Proof.
  intros HI Hc. unfold finish_lane. destruct (batch (lanes a k)) as [|j0 q0] eqn:Eb.
  { apply (inv_finish_books a (bk a) ps k ks); rewrite ?Eb; try done; intros; rewrite zsum_nil; lia. }
  rewrite <- Eb. destruct (commit _ _ _ _ _ _ _) as [[b retry] fs'] eqn:Ec.
  assert (Hp : pending a k = batch (lanes a k)).
  { unfold pending. rewrite Hc, bool_decide_eq_true_2; [done|by left]. }
  apply commit_books in Ec as (Ht & Ho & Hs & Hok & _); [|by eapply owns_batch|apply (I_lane _ _ HI)].
  set (b1 := match retry with [] => b | _ => _ end).
  assert (Hb1 : total b1 = total b /\ (forall l, own l b1 = own l b - zsum (carries l) retry) /\ settled b1 = settled b).
  { subst b1. destruct retry as [|j rest]; [split_and!; try done; intros; rewrite zsum_nil; lia|].
    destruct (decide (k = writeCritical)) as [->|Hne].
    2: { split_and!; [by destruct k| |by destruct k].
         intros l. rewrite (no_lease_carries k (j :: rest) l Hne Hok). rewrite Z.sub_0_r. by destruct k. }
    set (b0 := b <| failed ::= Z.add (Z.of_nat (length (j :: rest))) |>).
    split_and!; [by rewrite total_releaseJobs| |by destruct (releaseJobs_same (j :: rest) b0) as (_ & -> & _)].
    intros l. assert (own l b0 = own l b) as Hb by done.
    pose proof (owns_batch a ps writeCritical HI Hp l). specialize (Ho l).
    pose proof (carries_nonneg l (j :: rest)).
    rewrite own_releaseJobs; lia. }
  clearbody b1. destruct Hb1 as (Ht1 & Ho1 & Hs1).
  apply (inv_finish_books a (settle Unwritten retry b1) ps k ks); try done.
  - change (total (settle Unwritten retry b1)) with (total b1). lia.
  - intros l. change (own l (settle Unwritten retry b1)) with (own l b1). rewrite Ho1, Ho. lia.
  - intros c. rewrite settle_counts, Hs1, Hs. lia.
Qed.

Lemma inv_finish_all a ps : Inv a ps -> ctl a = Finishing [] -> Inv (finish_all a) ps.
Proof.
  intros HI Hc. pose proof HI as [Is Io Ib Il Ila Ip Iq Ie Idr Ik Ij]. rewrite Hc in *.
  specialize (Idr eq_refl). specialize (Ie eq_refl). destruct (Iq Ie) as [Hst Hin].
  assert (Hm : forall k, in_memory (finish_all a) k = in_memory a k).
  { intros k. unfold in_memory, pending. rewrite Hc, (bool_decide_eq_false_2 (k ∈ [])) by apply not_elem_of_nil. done. }
  assert (Hch : forall k, msum (charge k) ps = 0).
  { intros k. clear -Hin. induction ps as [|t p ps Ht IH] using map_ind; [apply msum_empty|].
    rewrite msum_insert_new by done. apply map_Forall_insert in Hin as [Hp Hps]; [|done].
    rewrite (IH Hps). by destruct p. }
  split; try done.
  - intros l. rewrite Hm. apply Io.
  - intros k. cbn. rewrite (Idr k), Hch. reflexivity.
  - by intros [].
  - intros k. cbn. rewrite (Idr k). auto.
  - intros c. unfold unsettled. rewrite !Hm. apply Ij.
Qed.

Lemma inv_consumer_step a a' ps pick tick now at_ fs :
  Inv a ps -> consumer_step exec fn_exists pick tick now at_ fs a = Some a' -> Inv a' ps.
Proof.
  intros HI. unfold consumer_step. destruct (ctl a) as [|pr op|[|k ks]| |[|k ks]|] eqn:Hc; intros H; try done.
  - injection H as <-. apply inv_ctl; try done. by rewrite Hc.
  - by eapply inv_loop_select.
  - injection H as <-. apply inv_ctl; try done. by rewrite Hc.
  - injection H as <-.
    assert (Hd : drained (ctl a) = false) by by rewrite Hc.
    pose proof (inv_flush a ps k now at_ fs HI Hd) as HI'.
    apply inv_ctl; try done. unfold flush. destruct (batch (lanes a k)); [done|].
    destruct (commit _ _ _ _ _ _ _) as [[b [|r0 rest]] fs']; cbn; done.
  - by eapply inv_drain_select.
  - injection H as <-. by apply inv_finish_all.
  - injection H as <-. by apply inv_finish_lane.
Qed.
End Preservation.

(* ------------------------------------------------------------------ *)
(** ** Runs *)

Section Runs.
Context {DB : Type} (exec : string -> list arg -> DB -> res sqlerr DB) (fn_exists : string -> DB -> bool).
Implicit Types (a : asyncWriter DB) (b : books DB) (ps : gmap nat producer) (m : machine DB).

Lemma no_reader_spec ps : no_reader ps = true -> map_Forall (fun _ p => inside p = false) ps.
Proof.
  unfold no_reader. intros H t p Hp. rewrite forallb_forall in H.
  specialize (H (t, p)). apply negb_true_iff, H. apply list_elem_of_In. by apply elem_of_map_to_list.
Qed.

(** A new producer starts outside the lock, with nothing. *)
Lemma inv_spawn a ps t p :
  Inv a ps -> ps !! t = None -> inside p = false -> taken p = 0 -> (forall l, hands l p = 0) ->
  (forall k, charge k p = 0) -> proc_ok p -> Inv a (<[t := p]> ps).
Proof.
  intros [Is Io Ib Il Ila Ip Iq Ie Idr Ik Ij] Ht Hin Htk Hh Hch Hp. split; try done.
  - rewrite msum_insert_new by done. lia.
  - intros l. rewrite msum_insert_new, Hh by done. apply Io.
  - intros k. rewrite msum_insert_new, Hch by done. apply Ib.
  - by apply map_Forall_insert_2.
  - intros [? ?]%Iq. split; [done|]. by apply map_Forall_insert_2.
Qed.

(** The books change without touching owned leases, slots or the history. *)
Lemma inv_books a b' ps :
  Inv a ps -> total b' = total (bk a) -> (forall l, own l b' = own l (bk a)) -> settled b' = settled (bk a) ->
  Inv (a <| bk := b' |>) ps.
Proof.
  intros [Is Io Ib Il Ila Ip Iq Ie Idr Ik Ij] Ht Ho Hs. split; try done; cbn [bk set_field].
  - lia.
  - intros l. rewrite Ho. apply Io.
  - intros c. rewrite Hs. apply Ij.
Qed.

Lemma inv_wstep e m m' :
  Inv (aw m) (procs m) -> wstep exec fn_exists e m = Some m' -> Inv (aw m') (procs m').
Proof.
  intros HI. unfold wstep, spawn. destruct e as [t|t r l|t k r|t pick ctx now fs|l|pick tick now at_ fs| | |d].
  - destruct (procs m !! t) eqn:Et; [done|]. intros [= <-]. by apply inv_spawn.
  - destruct (procs m !! t) eqn:Et; [done|]. intros [= <-]. unfold asyncExecCriticalReserved.
    destruct l as [l|]; [case_bool_decide|]; by apply inv_spawn.
  - destruct k; [done|..]; (destruct (procs m !! t) eqn:Et; [done|]; intros [= <-]; by apply inv_spawn).
  - destruct (procs m !! t) as [p|] eqn:Et; [|done]. cbn [mbind option_bind].
    destruct (producer_step _ _ _ _ _ _ _) as [[a' p']|] eqn:Es; [|done]. intros [= <-].
    by eapply inv_producer_step.
  - intros [= <-]. apply inv_books; [done|apply total_finish; by left|intros; apply own_cancel|apply finish_lease_frame].
  - destruct (consumer_step _ _ _ _ _ _ _ _) as [a'|] eqn:Es; [|done]. intros [= <-]. by eapply inv_consumer_step.
  - intros [= <-]. destruct HI as [Is Io Ib Il Ila Ip Iq Ie Idr Ik Ij]. split; try done.
    intros [? ?]%Iq. done.
  - destruct (_ && _) eqn:E; [|done]. intros [= <-]. zbool.
    destruct HI as [Is Io Ib Il Ila Ip Iq Ie Idr Ik Ij]. split; try done.
    intros _. split; [done|]. by apply no_reader_spec.
  - intros [= <-]. by apply inv_books.
Qed.

Lemma inv_run es m m' : Inv (aw m) (procs m) -> run exec fn_exists es m = Some m' -> Inv (aw m') (procs m').
Proof.
  revert m. induction es as [|e es IH]; intros m HI; cbn [run]; [by intros [= <-]|].
  destruct (wstep exec fn_exists e m) as [m1|] eqn:E; [|done]. apply IH. by eapply inv_wstep.
Qed.

Lemma inv_new (d : DB) : Inv (aw (newAsyncWriter d)) (procs (newAsyncWriter d)).
Proof.
  split; try done.
  by intros [].
Qed.

(** Slots are taken only where there are some. *)
Lemma slots_finish old l b : criticalSlots b <= criticalSlots (finish_lease old l b).
Proof. unfold finish_lease. destruct l; [case_bool_decide; cbn; lia|lia]. Qed.

Lemma slots_releaseJobs js b : criticalSlots b <= criticalSlots (releaseJobs js b).
Proof.
  revert b. induction js as [|j js IH]; intros b; [cbn; lia|].
  change (criticalSlots b <= criticalSlots (releaseJobs js (done_ (lease j) b))).
  pose proof (slots_finish 1 (lease j) b). specialize (IH (done_ (lease j) b)). unfold done_ in *. lia.
Qed.

Lemma slots_commit batch kind at_ fs b b' retry fs' :
  commit exec fn_exists batch kind at_ fs b = (b', retry, fs') -> criticalSlots b <= criticalSlots b'.
Proof.
  intros H. apply commit_accounts in H as (new & _ & _ & _ & _ & _ & Hl & _).
  unfold lease_view in Hl. injection Hl as -> _. apply slots_releaseJobs.
Qed.

Lemma slots_consumer_step a a' pick tick now at_ fs :
  consumer_step exec fn_exists pick tick now at_ fs a = Some a' -> criticalSlots (bk a) <= criticalSlots (bk a').
Proof.
  assert (Recv : forall k next a', receive k next a = Some a' -> bk a' = bk a).
  { intros k next a1. unfold receive. destruct (queue _); [done|]. by intros [= <-]. }
  unfold consumer_step. destruct (ctl a) as [|pr op|[|k ks]| |[|k ks]|]; intros H; try done.
  - by injection H as <-.
  - unfold loop_select in H. apply go_select_in in H as [Hin|[? _]]; [|done].
    apply list_elem_of_In in Hin.
    destruct Hin as [H|[H|[H|[H|[H|[]]]]]]; split_ifs_in H; try done.
    all: first [by injection H as <-|apply Recv in H; by rewrite H].
  - by injection H as <-.
  - injection H as <-. unfold flush. destruct (batch (lanes a k)); [done|].
    destruct (commit _ _ _ _ _ _ _) as [[b retry] fs'] eqn:Ec. apply slots_commit in Ec. by destruct retry.
  - unfold drain_select in H. apply go_select_in in H as [Hin|[H _]]; [|by injection H as <-].
    apply list_elem_of_In in Hin. destruct Hin as [H|[H|[H|[]]]]; apply Recv in H; by rewrite H.
  - by injection H as <-.
  - injection H as <-. unfold finish_lane. destruct (batch (lanes a k)); [done|].
    destruct (commit _ _ _ _ _ _ _) as [[b retry] fs'] eqn:Ec. apply slots_commit in Ec.
    destruct retry as [|r0 rest]; [done|]. destruct k; try done.
    match goal with |- context [releaseJobs ?l ?b0] => pose proof (slots_releaseJobs l b0) end. cbn -[releaseJobs] in *. lia.
Qed.

Lemma slots_producer_step a a' pick ctx now fs p p' :
  0 <= criticalSlots (bk a) -> producer_step exec pick ctx now fs p a = Some (a', p') -> 0 <= criticalSlots (bk a').
Proof.
  intros Hs. assert (Pub : forall k j a' p', publish k j a = Some (a', p') -> bk a' = bk a).
  { intros k j a1 p1. unfold publish. destruct (_ <? _)%nat; [|done]. by intros [= <- <-]. }
  pose proof (fun o l => slots_finish o l (bk a)) as Hf.
  destruct p as [r|r|r l|k r|k r l|k j|j|r|e|l]; cbn [producer_step]; try done.
  - unfold reserve_select. intros [Hin|[? _]]%go_select_in; [|done]. apply list_elem_of_In in Hin.
    destruct Hin as [H|[H|[H|[]]]]; split_ifs_in H; try done; try (destruct r; by injection H as <- <-).
    injection H as <- <-. cbn. lia.
  - unfold reserve_check. destruct (stopRequested a); intros [= <- <-]; cbn; lia.
  - unfold critical_enter. destruct (stopRequested a); intros [= <- <-]; [|done].
    specialize (Hf 0 (Some l)). cbn -[finish_lease]. unfold Cancel. lia.
  - unfold effort_enter. destruct (stopRequested a); intros [= <- <-]; by destruct k.
  - destruct k; unfold critical_charge, effort_charge; destruct (reserveQueueBytes _ _ _); intros [= <- <-]; try done.
    specialize (Hf 0 l). cbn -[finish_lease]. unfold Cancel. lia.
  - destruct k.
    + unfold critical_transfer. intros [= H]. destruct (lease j) as [l|]; cbn in H; [|by injection H as <- <-].
      destruct (transfer l (bk a)) as [b|] eqn:Et; injection H as <- <-; [|done].
      unfold transfer in Et. case_bool_decide; [|done]. by injection Et as <-.
    + unfold effort_send. intros [Hin|[H _]]%go_select_in; [|by injection H as <- <-].
      apply list_elem_of_In in Hin. destruct Hin as [H|[H|[]]]; [|by rewrite (Pub _ _ _ _ H)].
      destruct (stopRequested a); by simplify_eq.
    + unfold effort_send. intros [Hin|[H _]]%go_select_in; [|by injection H as <- <-].
      apply list_elem_of_In in Hin. destruct Hin as [H|[H|[]]]; [|by rewrite (Pub _ _ _ _ H)].
      destruct (stopRequested a); by simplify_eq.
  - specialize (Hf 1 (lease j)). unfold critical_send. intros [Hin|[? _]]%go_select_in; [|done].
    apply list_elem_of_In in Hin. destruct Hin as [H|[H|[H|[]]]].
    + destruct (stopRequested a); [|done]. injection H as <- <-. cbn -[finish_lease] in *. unfold done_. lia.
    + by rewrite (Pub _ _ _ _ H).
    + destruct ctx; [|done]. injection H as <- <-. cbn -[finish_lease] in *. unfold done_. lia.
  - unfold direct_write. destruct (attempt _ _) as [[d|e] fs']; by intros [= <- <-].
Qed.

Lemma slots_run es m m' :
  0 <= criticalSlots (bk (aw m)) -> run exec fn_exists es m = Some m' -> 0 <= criticalSlots (bk (aw m')).
Proof.
  revert m. induction es as [|e es IH]; intros m Hs; cbn [run]; [by intros [= <-]|].
  destruct (wstep exec fn_exists e m) as [m1|] eqn:E; [|done]. apply IH. clear IH.
  unfold wstep, spawn in E. destruct e as [t|t r l|t k r|t pick ctx now fs|l|pick tick now at_ fs| | |d].
  - destruct (procs m !! t); simplify_eq/=; done.
  - destruct (procs m !! t); simplify_eq/=; done.
  - destruct k; destruct (procs m !! t); simplify_eq/=; done.
  - destruct (procs m !! t) as [p|]; [|done]. cbn [mbind option_bind] in E.
    destruct (producer_step _ _ _ _ _ _ _) as [[a' p']|] eqn:Ep; [|done]. injection E as <-.
    by eapply slots_producer_step.
  - injection E as <-. pose proof (slots_finish 0 (Some l) (bk (aw m))). cbn -[finish_lease]. unfold Cancel. lia.
  - destruct (consumer_step _ _ _ _ _ _ _ _) as [a'|] eqn:Es; [|done]. injection E as <-.
    apply slots_consumer_step in Es. cbn [aw]. lia.
  - by injection E as <-.
  - destruct (_ && _); [|done]. by injection E as <-.
  - by injection E as <-.
Qed.

(** *** The drain *)

Definition queued a : nat :=
  length (queue (lanes a writeCritical)) + length (queue (lanes a writeActivity)) + length (queue (lanes a writeTelemetry)).

(** Consumer steps left once the drain has begun. *)
Definition drain_left a : nat :=
  match ctl a with Draining => queued a + 5 | Finishing ks => length ks + 1 | _ => 0 end.

Lemma receive_queued k next a a' :
  receive k next a = Some a' -> queued a = S (queued a') /\ exists ln, ctl a' = next ln.
Proof.
  unfold receive, queued. destruct (queue (lanes a k)) as [|j q] eqn:E; [done|]. intros [= <-].
  split; [|by eexists]. cbn [lanes on_lane set_field]. destruct k; cbn; rewrite E; cbn; lia.
Qed.

Lemma drain_progress n pick tick now at_ fs a :
  drain_left a = S n ->
  exists a', consumer_step exec fn_exists pick tick now at_ fs a = Some a' /\ drain_left a' = n /\
             (n = 0%nat -> ctl a' = Stopped /\ forall k, batch (lanes a' k) = []) /\ (n <> 0%nat -> ending (ctl a') = true /\ ctl a' <> Stopped).
Proof.
  unfold drain_left at 1, consumer_step. destruct (ctl a) as [|pr op|ks| |[|k ks]|] eqn:Hc; intros Hn; try done.
  - destruct (drain_select pick a) as [a'|] eqn:Ed.
    2: { unfold drain_select in Ed. apply go_select_none in Ed as [? _]. done. }
    exists a'. split; [done|]. unfold drain_select in Ed. apply go_select_in in Ed as [Hin|[H Hnone]].
    + apply list_elem_of_In in Hin.
      destruct Hin as [H|[H|[H|[]]]]; apply receive_queued in H as [Hq [ln Hctl]]; unfold drain_left; rewrite Hctl;
        (split; [lia|]); (split; [lia|]); intros; done.
    + injection H as H. rewrite !Forall_cons in Hnone. destruct Hnone as (H1 & H2 & H3 & _).
      assert (queued a = 0%nat) as Hz.
      { unfold queued, receive in *. do 3 (destruct (queue (lanes a _)); [|done]). done. }
      subst a'. unfold drain_left. cbn. split; [lia|]. split; [lia|]. intros; done.
  - eexists. split; [done|]. unfold drain_left. cbn in *. split; [lia|]. split; [done|]. lia.
  - eexists. split; [done|]. unfold drain_left. cbn in *. split; [lia|]. split; [lia|]. intros; done.
Qed.

Definition is_consumer (e : event DB) : Prop := match e with EConsumer _ _ _ _ _ => True | _ => False end.

Lemma drain_run evs m :
  Forall is_consumer evs -> length evs = drain_left (aw m) -> (0 < drain_left (aw m))%nat ->
  exists m', run exec fn_exists evs m = Some m' /\ ctl (aw m') = Stopped /\
             forall k, batch (lanes (aw m') k) = [].
Proof.
  revert m. induction evs as [|e evs IH]; intros m Hev Hl Hpos; [cbn in Hl; lia|].
  apply Forall_cons in Hev as [He Hev]. destruct e as [| | | | |pick tick now at_ fs| | |]; try done.
  destruct (drain_progress (length evs) pick tick now at_ fs (aw m)) as (a' & Ha & Hleft & Hz & Hnz); [cbn in Hl; lia|].
  cbn [run wstep]. rewrite Ha. cbn [mbind option_bind].
  destruct evs as [|e' evs'].
  - eexists. split; [done|]. by apply Hz.
  - apply IH; [done|by cbn [aw]|]. cbn [aw]. rewrite Hleft. cbn. lia.
Qed.
End Runs.

(** Equal counts of every job make equal multisets. *)
Lemma same_job_pos c js : 0 <= zsum (same_job c) js.
Proof. apply zsum_nonneg, Forall_true. intros j. unfold same_job. case_bool_decide; lia. Qed.

Lemma same_job_self c j : core j = c -> same_job c j = 1.
Proof. intros H. unfold same_job. by rewrite bool_decide_eq_true_2. Qed.

Lemma same_counts_perm l1 l2 :
  (forall c, zsum (same_job c) l1 = zsum (same_job c) l2) -> Permutation (map core l1) (map core l2).
Proof.
  revert l2. induction l1 as [|j l1 IH]; intros l2 H.
  - destruct l2 as [|j l2]; [done|]. specialize (H (core j)). rewrite zsum_nil, zsum_cons in H.
    rewrite (same_job_self (core j) j) in H by done. pose proof (same_job_pos (core j) l2). lia.
  - assert (exists k, k ∈ l2 /\ core k = core j) as (k & Hk & Hc).
    { specialize (H (core j)). rewrite zsum_cons, (same_job_self (core j) j) in H by done.
      pose proof (same_job_pos (core j) l1). clear IH.
      induction l2 as [|k l2 IHl]; [rewrite zsum_nil in H; lia|]. rewrite zsum_cons in H.
      destruct (decide (core k = core j)) as [|Hne]; [exists k; split; [left|done]|].
      assert (same_job (core j) k = 0) by (unfold same_job; by rewrite bool_decide_eq_false_2).
      destruct IHl as (k' & ? & ?); [lia|]. exists k'. split; [by right|done]. }
    apply list_elem_of_split in Hk as (r1 & r2 & ->). rewrite map_app. cbn [map]. rewrite Hc.
    rewrite <- Permutation_middle. apply perm_skip. rewrite <- map_app. apply IH. intros c. specialize (H c).
    rewrite zsum_cons, zsum_app, zsum_cons in H. rewrite zsum_app.
    assert (same_job c k = same_job c j) by (unfold same_job; by rewrite Hc). lia.
Qed.

Section Summary.
Context {DB : Type}.
Implicit Types (a : asyncWriter DB) (ps : gmap nat producer).

Lemma charge_nonneg a ps k : Inv a ps -> 0 <= msum (charge k) ps.
Proof.
  intros HI. apply msum_nonneg. intros t p Hp. apply (I_proc _ _ HI) in Hp.
  destruct p; cbn in *; try lia; destruct Hp; [destruct (kind_eqb _ _)|destruct k]; lia.
Qed.

Lemma msum_zero (f : producer -> Z) ps : map_Forall (fun _ p => f p = 0) ps -> msum f ps = 0.
Proof.
  induction ps as [|t p ps Ht IH] using map_ind; intros H; [apply msum_empty|].
  rewrite msum_insert_new by done. apply map_Forall_insert in H as [Hp Hps]; [|done]. rewrite (IH Hps). lia.
Qed.

Lemma stopped_bytes a ps k : Inv a ps -> ctl a = Stopped -> batch (lanes a k) = [] -> lane_bytes (lanes a k) = 0.
Proof.
  intros HI Hc Hb. pose proof HI as [Is Io Ib Il Ila Ip Iq Ie Idr Ik Ij]. rewrite Hc in Ie, Idr.
  destruct (Iq (Ie eq_refl)) as [_ Hin]. rewrite Ib, Hb, (Idr eq_refl k), (msum_zero (charge k)); [done|].
  intros t p Hp. apply Hin in Hp. by destruct p.
Qed.

Lemma live_nonneg (m : gmap nat Z) : 0 <= msum is_live m.
Proof. apply msum_nonneg. intros l s _. unfold is_live. destruct (_ || _); lia. Qed.

Lemma taken_nonneg ps : 0 <= msum taken ps.
Proof. apply msum_nonneg. intros t p _. destruct p; cbn; lia. Qed.

(** A job that is being handed over finds room in the channel. *)
Lemma handing_has_room a ps t j :
  Inv a ps -> 0 <= criticalSlots (bk a) -> ps !! t = Some (Handing j) ->
  (length (queue (lanes a writeCritical)) < channel_cap)%nat.
Proof.
  intros HI Hs Ht. destruct (I_proc _ _ HI _ _ Ht) as [_ Hok].
  assert (Z.of_nat (length (j :: queue (lanes a writeCritical))) <= msum is_live (leases (bk a))) as Hb.
  { apply critical_jobs_bound.
    - constructor; [by apply Hok|]. eapply Forall_impl; [apply (I_lane _ _ HI writeCritical)|].
      intros x [_ Hx]. by apply Hx.
    - intros l. rewrite (I_owner _ _ HI l). unfold in_memory. rewrite zsum_cons, zsum_app.
      pose proof (carries_nonneg l (pending a writeCritical)).
      assert (hands l (Handing j) <= msum (hands l) ps) as Hle.
      { apply (msum_lookup_le _ _ t); [|done]. intros t' p' _. destruct p'; cbn; try lia. apply carries_pos. }
      cbn [hands] in Hle. lia. }
  pose proof (I_slots _ _ HI) as Hsl. unfold total in Hsl. pose proof (taken_nonneg ps).
  cbn [length] in Hb. unfold channel_cap. lia.
Qed.
End Summary.

(* ------------------------------------------------------------------ *)
(** ** Theorems *)

(** C6.  Whatever the interleaving of producers, cancellations, commit
    passes, faults and shutdown: the 1024 completion slots are exactly the
    free ones, those of unfinished leases and those in a producer's hand; a
    lease is writer-owned exactly while one job in memory carries it; each
    lane's byte counter is exactly the bytes it holds, never negative and
    never over its ceiling; so returning a slot never blocks, and a producer
    that transferred its lease always finds room in the channel. *)
Theorem writer_books_exact {DB} (exec : string -> list arg -> DB -> res sqlerr DB) (fn_exists : string -> DB -> bool)
    es (d : DB) m :
  run exec fn_exists es (newAsyncWriter d) = Some m ->
  let a := aw m in
  0 <= criticalSlots (bk a) /\
  criticalSlots (bk a) + msum is_live (leases (bk a)) + msum taken (procs m) = 1024 /\
  (forall l, own l (bk a) = zsum (carries l) (in_memory a writeCritical) + msum (hands l) (procs m)) /\
  (forall k, lane_bytes (lanes a k)
             = zsum job_bytes (queue (lanes a k)) + zsum job_bytes (batch (lanes a k)) + msum (charge k) (procs m) /\
             0 <= lane_bytes (lanes a k) <= queue_limit k) /\
  (forall l s, leases (bk a) !! l = Some s -> s = 0 \/ s = 1 -> criticalSlots (bk a) < 1024) /\
  (forall t j, procs m !! t = Some (Handing j) -> is_Some (publish writeCritical j a)).
Proof.
  intros Hrun a. pose proof (inv_run _ _ _ _ _ (inv_new d) Hrun) as HI.
  assert (0 <= criticalSlots (bk a)) as Hs by (by eapply slots_run; [|exact Hrun]).
  pose proof HI as [Is Io Ib Il Ila Ip Iq Ie Idr Ik Ij]. unfold total in Is. fold a in HI, Is, Io, Ib, Il, Ila.
  split_and!; [done|lia|done| | |].
  - intros k. rewrite <- (Ib k). split; [done|]. split; [|apply Il]. rewrite (Ib k).
    pose proof (charge_nonneg _ _ k HI). destruct (Ila k) as [Hq Hb].
    pose proof (bytes_nonneg _ _ Hq). pose proof (bytes_nonneg _ _ Hb). lia.
  - intros l s Hl Hst.
    assert (is_live s <= msum is_live (leases (bk a))).
    { apply (msum_lookup_le _ _ l); [|done]. intros ? s' _. unfold is_live. destruct (_ || _); lia. }
    pose proof (taken_nonneg (procs m)). destruct Hst as [-> | ->]; cbn in *; lia.
  - intros t j Ht. unfold publish. pose proof (handing_has_room _ _ _ _ HI Hs Ht) as Hroom.
    apply Nat.ltb_lt in Hroom. by rewrite Hroom.
Qed.

Definition demo_request (v : Z) : request := Request demo_insert [AOther v] "f" true.

Definition next (t : nat) : event (list arg) := EProducer t 0 false 5 [].

(** A call that reserves for itself and publishes, a lease cancelled under a
    call that then fails, an activity record, and shutdown with both jobs queued. *)
Definition demo_events : list (event (list arg)) :=
  [ ECritical 1 (demo_request 7) None; next 1; EReserve 2; next 2; next 2; next 1;
    ECritical 3 (demo_request 8) (Some 0%nat); next 1; next 1; next 1; next 1; ECancel 0; next 3; next 3; next 3;
    EEffort 4 writeActivity (demo_request 9); next 4; next 4; next 4;
    EStop; EQuit; EConsumer 0 false 5 9 []; EConsumer 2 false 5 9 [] ].

Definition demo_machine : machine (list arg) :=
  default (newAsyncWriter []) (run demo_exec demo_exists demo_events (newAsyncWriter [])).

Lemma writer_books_exact_witness :
  run demo_exec demo_exists demo_events (newAsyncWriter []) = Some demo_machine /\
  procs demo_machine !! 3%nat = Some (Returned (Some ErrLeaseUsed)) /\
  criticalSlots (bk (aw demo_machine)) = 1023 /\
  lane_bytes (lanes (aw demo_machine) writeCritical) = 109 /\
  0 <= lane_bytes (lanes (aw demo_machine) writeCritical) <= queue_limit writeCritical.
Proof.
  assert (run demo_exec demo_exists demo_events (newAsyncWriter []) = Some demo_machine) as Hrun
    by (vm_compute; reflexivity).
  destruct (writer_books_exact demo_exec demo_exists demo_events [] demo_machine Hrun) as (_ & _ & _ & Hk & _).
  destruct (Hk writeCritical) as [_ Hlim]. split; [exact Hrun|]. do 3 (split; [vm_compute; reflexivity|]). exact Hlim.
Defined.

(** C24.  Shutdown loses nothing silently.  Once the consumer has seen [quit],
    a number of its steps fixed by the queue lengths -- whatever the selects
    pick and whatever fails -- brings it to the end; then every job any
    producer ever published has exactly one recorded outcome (written, dropped
    with its function, shed, or counted as unwritten), the channels and byte
    counters are empty, no lease is left with the writer, and no producer is
    inside the lock. *)
Theorem shutdown_settles_everything {DB} (exec : string -> list arg -> DB -> res sqlerr DB) (fn_exists : string -> DB -> bool)
    es (d : DB) m evs :
  run exec fn_exists es (newAsyncWriter d) = Some m -> ctl (aw m) = Draining ->
  Forall is_consumer evs -> length evs = (queued (aw m) + 5)%nat ->
  exists m', run exec fn_exists evs m = Some m' /\ ctl (aw m') = Stopped /\
    Permutation (map core (accepted (aw m'))) (map core (map snd (settled (bk (aw m'))))) /\
    (forall k, queue (lanes (aw m') k) = [] /\ lane_bytes (lanes (aw m') k) = 0) /\
    (forall l, leases (bk (aw m')) !! l <> Some 1) /\
    map_Forall (fun _ p => inside p = false) (procs m').
Proof.
  intros Hrun Hc Hev Hl.
  destruct (drain_run exec fn_exists evs m Hev) as (m' & Hrun' & Hstop & Hbatch); [by unfold drain_left; rewrite Hc|
    unfold drain_left; rewrite Hc; lia|].
  exists m'. pose proof (inv_run _ _ _ _ _ (inv_run _ _ _ _ _ (inv_new d) Hrun) Hrun') as HI.
  pose proof HI as [Is Io Ib Il Ila Ip Iq Ie Idr Ik Ij]. rewrite Hstop in Ie, Idr.
  specialize (Ie eq_refl). specialize (Idr eq_refl). destruct (Iq Ie) as [_ Hin].
  assert (Hm : forall k, in_memory (aw m') k = []).
  { intros k. unfold in_memory, pending. by rewrite Hstop, Idr. }
  split_and!; try done.
  - apply same_counts_perm. intros c. rewrite Ij. unfold unsettled. rewrite !Hm. cbn. lia.
  - intros k. split; [apply Idr|]. by apply (stopped_bytes (aw m') (procs m')).
  - intros l Hl1. specialize (Io l). rewrite Hm in Io. unfold own in Io.
    rewrite bool_decide_eq_true_2 in Io by done. rewrite zsum_nil in Io.
    rewrite (msum_zero (hands l)) in Io; [lia|]. intros t p Hp. apply Hin in Hp. by destruct p.
Qed.

Lemma shutdown_settles_everything_witness :
  queued (aw demo_machine) = 2%nat /\
  exists m', run demo_exec demo_exists (repeat (EConsumer 0 false 5 9 []) 7) demo_machine = Some m' /\
             ctl (aw m') = Stopped /\ length (settled (bk (aw m'))) = 2%nat.
Proof.
  split; [vm_compute; reflexivity|].
  destruct (shutdown_settles_everything demo_exec demo_exists demo_events [] demo_machine
    (repeat (EConsumer 0 false 5 9 []) 7)) as (m' & Hrun & Hstop & _);
    [vm_compute; reflexivity|vm_compute; reflexivity|repeat constructor|vm_compute; reflexivity|].
  exists m'. split; [exact Hrun|]. split; [exact Hstop|].
  assert (m' = default demo_machine (run demo_exec demo_exists (repeat (EConsumer 0 false 5 9 []) 7) demo_machine)) as ->
    by (by rewrite Hrun).
  vm_compute. reflexivity.
Defined.
