(* ===== verification/Sha256.v ===== *)
(** * SHA-256, HMAC and the text encodings of credentials

    What the sources use of [crypto/sha256], [crypto/hmac], [encoding/hex] and
    [encoding/base64] ([RawURLEncoding]), on byte slices. *)
From S2P Require Import Prelude GoText.
Open Scope Z_scope.

(* ------------------------------------------------------------------ *)
(** ** SHA-256 *)

Definition w32 (z : Z) : Z := Z.land z 0xffffffff.
Definition rotr (n x : Z) : Z := Z.lor (Z.shiftr x n) (w32 (Z.shiftl x (32 - n))).

(** The constants, as the standard defines them: the first 32 bits of the
    fractional parts of the square and cube roots of the first primes. *)
Definition is_prime (n : nat) : bool := forallb (fun d => negb (n mod d =? 0)%nat) (seq 2 (n - 2)).
Definition primes (bound : nat) : list Z := map Z.of_nat (List.filter is_prime (seq 2 (bound - 2))).

(** The largest cube root below [lo + 2^bits]. *)
Fixpoint cbrt_search (bits : nat) (n lo : Z) : Z :=
  match bits with
  | O => lo
  | S bits => let mid := lo + 2 ^ Z.of_nat bits in cbrt_search bits n (if mid * mid * mid <=? n then mid else lo)
  end.

Definition sha_k : list Z := Eval vm_compute in map (fun p => w32 (cbrt_search 40 (p * 2 ^ 96) 0)) (primes 312).

Definition sha_init : list Z := Eval vm_compute in map (fun p => w32 (Z.sqrt (p * 2 ^ 64))) (primes 20).

(** Big-endian bytes of [z], [n] of them. *)
Fixpoint be_bytes (n : nat) (z : Z) : list Z :=
  match n with
  | O => []
  | S n => Z.land (Z.shiftr z (8 * Z.of_nat n)) 255 :: be_bytes n z
  end.

Definition be_word (l : list Z) : Z := foldl (fun acc b => acc * 256 + b) 0 l.

(** Cut into pieces of [n] > 0 elements; [fuel] bounds their number. *)
Fixpoint chunks (fuel n : nat) (l : list Z) : list (list Z) :=
  match fuel, l with
  | O, _ | _, [] => []
  | S fuel, _ => take n l :: chunks fuel n (drop n l)
  end.

Definition sha_pad (msg : list Z) : list Z :=
  let n := length msg in
  let z := Z.to_nat ((55 - Z.of_nat n) mod 64) in
  msg ++ [128] ++ repeat 0 z ++ be_bytes 8 (8 * Z.of_nat n).

(** The message schedule, latest word first. *)
Fixpoint schedule (n : nat) (ws : list Z) : list Z :=
  match n with
  | O => ws
  | S n =>
    let x15 := nth 14 ws 0 in
    let x2 := nth 1 ws 0 in
    let s0 := Z.lxor (Z.lxor (rotr 7 x15) (rotr 18 x15)) (Z.shiftr x15 3) in
    let s1 := Z.lxor (Z.lxor (rotr 17 x2) (rotr 19 x2)) (Z.shiftr x2 10) in
    schedule n (w32 (nth 15 ws 0 + s0 + nth 6 ws 0 + s1) :: ws)
  end.

Definition sha_round (st : list Z) (kw : Z * Z) : list Z :=
  match st with
  | [a; b; c; d; e; f; g; h] =>
    let s1 := Z.lxor (Z.lxor (rotr 6 e) (rotr 11 e)) (rotr 25 e) in
    let ch := Z.lxor (Z.land e f) (Z.land (w32 (Z.lnot e)) g) in
    let t1 := w32 (h + s1 + ch + kw.1 + kw.2) in
    let s0 := Z.lxor (Z.lxor (rotr 2 a) (rotr 13 a)) (rotr 22 a) in
    let maj := Z.lxor (Z.lxor (Z.land a b) (Z.land a c)) (Z.land b c) in
    [w32 (t1 + w32 (s0 + maj)); a; b; c; w32 (d + t1); e; f; g]
  | _ => st
  end.

Definition sha_block (st : list Z) (block : list Z) : list Z :=
  let ws := rev (schedule 48 (rev (map be_word (chunks 16 4 block)))) in
  zip_with (fun x y => w32 (x + y)) st (foldl sha_round st (zip sha_k ws)).

(** [sha256.Sum256]. *)
Definition sha256 (msg : list Z) : list Z :=
  let p := sha_pad msg in
  concat (map (be_bytes 4) (foldl sha_block sha_init (chunks (length p) 64 p))).

(** [hmac.New(sha256.New, key)] over one message. *)
Definition hmac_sha256 (key msg : list Z) : list Z :=
  let key := if (64 <? length key)%nat then sha256 key else key in
  let key := key ++ repeat 0 (64 - length key) in
  sha256 (map (Z.lxor 0x5c) key ++ sha256 (map (Z.lxor 0x36) key ++ msg)).

(* ------------------------------------------------------------------ *)
(** ** Hexadecimal *)

Definition hex_digit (v : Z) : Z := if v <? 10 then 48 + v else 87 + v.

(** [hex.EncodeToString]. *)
Definition hex_encode (l : list Z) : list Z := flat_map (fun b => [hex_digit (b / 16); hex_digit (b mod 16)]) l.

(* ------------------------------------------------------------------ *)
(** ** base64.RawURLEncoding *)

Definition b64_char (v : Z) : Z :=
  if v <? 26 then 65 + v else if v <? 52 then 71 + v else if v <? 62 then v - 4 else if v =? 62 then 45 else 95.

Definition b64_value (c : Z) : option Z :=
  if (65 <=? c) && (c <=? 90) then Some (c - 65)
  else if (97 <=? c) && (c <=? 122) then Some (c - 71)
  else if (48 <=? c) && (c <=? 57) then Some (c + 4)
  else if c =? 45 then Some 62 else if c =? 95 then Some 63 else None.

Fixpoint b64_encode (l : list Z) : list Z :=
  match l with
  | a :: b :: c :: r =>
    b64_char (a / 4) :: b64_char ((a mod 4) * 16 + b / 16) :: b64_char ((b mod 16) * 4 + c / 64)
      :: b64_char (c mod 64) :: b64_encode r
  | [a; b] => [b64_char (a / 4); b64_char ((a mod 4) * 16 + b / 16); b64_char ((b mod 16) * 4)]
  | [a] => [b64_char (a / 4); b64_char ((a mod 4) * 16)]
  | [] => []
  end.

(** Four values make three bytes; the unused low bits of a short last group
    are ignored, a single last value is an error. *)
Fixpoint b64_groups (l : list Z) : option (list Z) :=
  match l with
  | v1 :: v2 :: v3 :: v4 :: r =>
    r' ← b64_groups r; Some (v1 * 4 + v2 / 16 :: (v2 mod 16) * 16 + v3 / 4 :: (v3 mod 4) * 64 + v4 :: r')
  | [v1; v2; v3] => Some [v1 * 4 + v2 / 16; (v2 mod 16) * 16 + v3 / 4]
  | [v1; v2] => Some [v1 * 4 + v2 / 16]
  | [_] => None
  | [] => Some []
  end.

(** [DecodeString]: line breaks are skipped, any other foreign byte is an error. *)
Definition b64_decode (s : list Z) : option (list Z) :=
  vs ← mapM b64_value (List.filter (fun c => negb ((c =? 10) || (c =? 13))) s);
  b64_groups vs.

(* ------------------------------------------------------------------ *)
(** ** Lemmas *)

Definition is_byte (b : Z) : Prop := 0 <= b < 256.

(** Published test vectors. *)
Example sha256_abc :
  of_bytes (hex_encode (sha256 (bytes "abc")))
  = "ba7816bf8f01cfea414140de5dae2223b00361a396177a9cb410ff61f20015ad"%string.
Proof. vm_compute. reflexivity. Qed.

Example sha256_two_blocks :
  of_bytes (hex_encode (sha256 (bytes "abcdbcdecdefdefgefghfghighijhijkijkljklmklmnlmnomnopnopq")))
  = "248d6a61d20638b8e5c026930c3e6039a33ce45964ff2167f6ecedd419db06c1"%string.
Proof. vm_compute. reflexivity. Qed.

Example hmac_sha256_rfc4231_2 :
  of_bytes (hex_encode (hmac_sha256 (bytes "Jefe") (bytes "what do ya want for nothing?")))
  = "5bdcc146bf60754e6a042426089575c75a003f089d2739839dec58b964ec3843"%string.
Proof. vm_compute. reflexivity. Qed.

(** All values below [n] satisfy a test that holds of each. *)
Lemma below_forallb (p : Z -> bool) n :
  forallb p (map Z.of_nat (seq 0 n)) = true -> forall v, 0 <= v < Z.of_nat n -> p v = true.
Proof.
  intros H v Hv. rewrite forallb_forall in H. apply H. apply in_map_iff. exists (Z.to_nat v).
  split; [lia|]. apply in_seq. lia.
Qed.

Lemma b64_value_char v : 0 <= v < 64 -> b64_value (b64_char v) = Some v.
Proof.
  intros Hv.
  pose proof (below_forallb (fun v => match b64_value (b64_char v) with Some w => w =? v | None => false end) 64
                ltac:(vm_compute; reflexivity) v ltac:(lia)) as H. simpl in H.
  destruct (b64_value (b64_char v)); [|done]. apply Z.eqb_eq in H. by subst.
Qed.

(** Encoded text contains neither dots nor line breaks. *)
Definition plain_char (c : Z) : bool := negb ((c =? 10) || (c =? 13)) && negb (c =? 46).

Lemma b64_char_plain v : 0 <= v < 64 -> plain_char (b64_char v) = true.
Proof.
  intros Hv. apply (below_forallb (fun v => plain_char (b64_char v)) 64); [vm_compute; reflexivity|lia].
Qed.

Local Ltac Zify.zify_post_hook ::= Z.to_euclidean_division_equations.

(** Induction by groups of three. *)
Lemma list_ind3 {A} (P : list A -> Prop) :
  P [] -> (forall a, P [a]) -> (forall a b, P [a; b]) -> (forall a b c l, P l -> P (a :: b :: c :: l)) -> forall l, P l.
Proof.
  intros H0 H1 H2 H3. fix IH 1. intros [|a [|b [|c l]]]; [exact H0|apply H1|apply H2|apply H3, IH].
Qed.

Lemma b64_encode_plain l : Forall is_byte l -> Forall (fun c => plain_char c = true) (b64_encode l).
Proof.
  induction l as [|a|a b|a b c l IH] using list_ind3; intros Hl; simpl; rewrite ?Forall_cons in *; unfold is_byte in *.
  - constructor.
  - split_and!; try apply b64_char_plain; try lia. constructor.
  - split_and!; try apply b64_char_plain; try lia. constructor.
  - destruct Hl as (? & ? & ? & ?). split_and!; try apply b64_char_plain; try lia. by apply IH.
Qed.

Lemma b64_decode_encode l : Forall is_byte l -> b64_decode (b64_encode l) = Some l.
Proof.
  intros Hl. unfold b64_decode.
  assert (List.filter (fun c => negb ((c =? 10) || (c =? 13))) (b64_encode l) = b64_encode l) as ->.
  { pose proof (b64_encode_plain l Hl) as Hp. induction Hp as [|c r Hc _ IH]; simpl; [done|].
    unfold plain_char in Hc. apply andb_true_iff in Hc as [-> _]. by rewrite IH. }
  induction l as [|a|a b|a b c l IH] using list_ind3; rewrite ?Forall_cons in Hl; unfold is_byte in Hl; cbn -[Z.div Z.modulo].
  - done.
  - rewrite !b64_value_char by lia. simpl. f_equal. f_equal. lia.
  - rewrite !b64_value_char by lia. simpl. repeat f_equal; lia.
  - destruct Hl as (? & ? & ? & Hl). rewrite !b64_value_char by lia. simpl.
    specialize (IH Hl). destruct (mapM b64_value (b64_encode l)) as [vs|]; [|done]. simpl in *.
    rewrite IH. simpl. repeat f_equal; lia.
Qed.

(* ------------------------------------------------------------------ *)
(** ** Digests

    Thirty-two bytes, sixty-four lower-case hexadecimal digits. *)
Lemma be_bytes_are_bytes n z : Forall is_byte (be_bytes n z).
Proof.
  induction n as [|n IH]; simpl; constructor; [|done]. unfold is_byte.
  change 255 with (Z.ones 8). rewrite Z.land_ones by lia. apply Z.mod_pos_bound. lia.
Qed.

Lemma sha256_are_bytes m : Forall is_byte (sha256 m).
Proof.
  unfold sha256. generalize (foldl sha_block sha_init (chunks (length (sha_pad m)) 64 (sha_pad m))) as ws.
  induction ws as [|w ws IH]; [constructor|]. change (Forall is_byte (be_bytes 4 w ++ concat (map (be_bytes 4) ws))).
  apply Forall_app. split; [apply be_bytes_are_bytes|done].
Qed.

Lemma length_be_bytes n z : length (be_bytes n z) = n.
Proof. induction n as [|n IH]; [reflexivity|]. cbn. by rewrite IH. Qed.

Lemma length_sha_round st kw : length (sha_round st kw) = length st.
Proof. by do 9 (destruct st as [|? st]; [reflexivity|]). Qed.

Lemma length_sha_block st block : length (sha_block st block) = length st.
Proof.
  assert (Hr : forall kws st, length (foldl sha_round st kws) = length st).
  { intros kws. induction kws as [|kw kws IH]; intros s; [reflexivity|]. cbn [foldl]. by rewrite IH, length_sha_round. }
  unfold sha_block. rewrite length_zip_with, Hr. lia.
Qed.

Lemma length_sha256 m : length (sha256 m) = 32%nat.
Proof.
  unfold sha256. set (bs := chunks _ _ _). clearbody bs.
  assert (Hl : length (foldl sha_block sha_init bs) = 8%nat).
  { change 8%nat with (length sha_init). generalize sha_init. induction bs as [|b bs IH]; intros st; [reflexivity|].
    cbn [foldl]. by rewrite IH, length_sha_block. }
  generalize dependent (foldl sha_block sha_init bs). intros ws Hl.
  transitivity (4 * length ws)%nat; [|by rewrite Hl]. clear Hl. induction ws as [|w ws IH]; [reflexivity|].
  cbn [map concat length]. rewrite length_app, length_be_bytes, IH. lia.
Qed.

Definition is_hex_lower (c : Z) : bool := ((48 <=? c) && (c <=? 57)) || ((97 <=? c) && (c <=? 102)).

Lemma hex_encode_digits l : Forall is_byte l -> length (hex_encode l) = (2 * length l)%nat /\ forallb is_hex_lower (hex_encode l) = true.
Proof.
  induction 1 as [|b l Hb _ [IH1 IH2]]; [done|]. unfold hex_encode in *. cbn [flat_map app length forallb]. split; [lia|].
  rewrite IH2, andb_true_r. unfold is_byte in Hb. assert (0 <= b / 16 < 16) by (split; [apply Z.div_pos; lia | apply Z.div_lt_upper_bound; lia]).
  pose proof (Z.mod_pos_bound b 16 ltac:(lia)). unfold hex_digit, is_hex_lower. split_ifs; zbool; rewrite ?andb_true_iff; rewrite ?orb_true_iff; lia.
Qed.
