(* ===== verification/SdkAuth.v ===== *)
(** * Credentials of sandbox workers ([sdkauth/auth.go])

    A credential names a function and carries a nonce; it is signed with a
    process-random key and valid while the worker it was minted for lives.
    Nonces come from [crypto/rand] and are an input of [Mint]. *)
From S2P Require Import Prelude GoText Sha256.
Open Scope Z_scope.

(* ------------------------------------------------------------------ *)
(** ** State and operations *)

Record activeExecution := ActiveExecution {
  ex_functionID : string; ex_startedAt : Z; ex_traceID : string; ex_spanID : string
}.

Record Authenticator := MkAuthenticator {
  key : list Z;
  active : gmap string activeExecution;
  live : gset (list Z)
}.

#[export] Instance Authenticator_eta : Eta Authenticator := fun a => MkAuthenticator (key a) (active a) (live a).

Definition New (k : list Z) : Authenticator := MkAuthenticator k ∅ ∅.

Definition tokenVersion : list Z := bytes "v2".
Definition dot : Z := 46.

(** [strings.Split(s, ".")]. *)
Fixpoint split_dot (s : list Z) : list (list Z) :=
  match s with
  | [] => [[]]
  | c :: r =>
    if c =? dot then [] :: split_dot r
    else match split_dot r with h :: t => (c :: h) :: t | [] => [[c]] end
  end.

Definition payload_of (encodedID encodedNonce : list Z) : list Z :=
  tokenVersion ++ [dot] ++ encodedID ++ [dot] ++ encodedNonce.

(** The receiver may be nil; [random] is what [rand.Read] filled in, [None]
    when it failed.  The third result is the nonce the release function will
    delete, if it does anything. *)
Definition Mint (random : option (list Z)) (functionID : string) (a : option Authenticator)
  : option Authenticator * list Z * option (list Z) :=
  match a with
  | None => (a, [], None)
  | Some au =>
    if bool_decide (key au = []) || bool_decide (functionID = ""%string) then (a, [], None)
    else
      match random with
      | None => (a, [], None)
      | Some nonce =>
        let encodedNonce := b64_encode nonce in
        let payload := payload_of (b64_encode (bytes functionID)) encodedNonce in
        (Some (au <| live ::= union {[encodedNonce]} |>),
         payload ++ [dot] ++ b64_encode (hmac_sha256 (key au) payload), Some encodedNonce)
      end
  end.

Definition release_credential (encodedNonce : list Z) (au : Authenticator) : Authenticator :=
  au <| live ::= fun s => s ∖ {[encodedNonce]} |>.

(** [None] is [ErrInvalidToken]. *)
Definition Verify (token : list Z) (a : option Authenticator) : option string :=
  match a with
  | None => None
  | Some au =>
    if bool_decide (key au = []) then None
    else
      match split_dot token with
      | [p0; p1; p2; p3] =>
        if negb (bool_decide (p0 = tokenVersion)) then None
        else
          let payload := p0 ++ [dot] ++ p1 ++ [dot] ++ p2 in
          match b64_decode p3 with
          | None => None
          | Some gotMAC =>
            if negb (bool_decide (gotMAC = hmac_sha256 (key au) payload)) then None
            else if negb (bool_decide (p2 ∈ live au)) then None
            else match b64_decode p1 with
                 | None | Some [] => None
                 | Some rawID => Some (of_bytes rawID)
                 end
          end
      | _ => None
      end
  end.

Definition BindExecution (executionID functionID traceID spanID : string) (startedAt : Z) (a : option Authenticator)
  : option Authenticator :=
  match a with
  | None => None
  | Some au =>
    if bool_decide (executionID = ""%string) || bool_decide (functionID = ""%string) then a
    else Some (au <| active ::= <[executionID := ActiveExecution functionID startedAt traceID spanID]> |>)
  end.

(** The function [BindExecution] returns. *)
Definition unbind (executionID : string) (au : Authenticator) : Authenticator :=
  au <| active ::= delete executionID |>.

Definition OwnsExecution (executionID functionID : string) (a : option Authenticator) : bool :=
  match a ≫= fun au => active au !! executionID with
  | Some e => bool_decide (ex_functionID e = functionID)
  | None => false
  end.

Definition ExecutionStart (executionID functionID : string) (a : option Authenticator) : Z * bool :=
  match a ≫= fun au => active au !! executionID with
  | Some e => (ex_startedAt e, bool_decide (ex_functionID e = functionID))
  | None => (0, false)
  end.

Definition TraceContext (executionID functionID : string) (a : option Authenticator)
  : option (string * string * Z) :=
  match a ≫= fun au => active au !! executionID with
  | Some e => if bool_decide (ex_functionID e = functionID)
              then Some (ex_traceID e, ex_spanID e, ex_startedAt e) else None
  | None => None
  end.

(* ------------------------------------------------------------------ *)
(** ** Lifecycles *)

(** The credentials issued so far (encoded nonce and function) and those released. *)
Record world := World {
  auth : Authenticator; issued : gmap (list Z) string; released : gset (list Z)
}.

Inductive event :=
| EMint (nonce : list Z) (functionID : string)    (** a worker is spawned *)
| ERelease (encodedNonce : list Z)                (** its process exited *)
| EBind (executionID functionID traceID spanID : string) (startedAt : Z)
| EUnbind (executionID : string).

(** Sixteen random bytes never repeat; only issued credentials are released. *)
Definition allowed (e : event) (w : world) : bool :=
  match e with
  | EMint nonce f =>
    (length nonce =? 16)%nat && forallb (fun b => (0 <=? b) && (b <? 256)) nonce &&
    negb (bool_decide (f = ""%string)) && bool_decide (issued w !! b64_encode nonce = None)
  | ERelease n => bool_decide (is_Some (issued w !! n))
  | _ => true
  end.

Definition apply_event (e : event) (w : world) : world :=
  match e with
  | EMint nonce f =>
    match Mint (Some nonce) f (Some (auth w)) with
    | (Some au, _, Some n) => World au (<[n := f]> (issued w)) (released w)
    | _ => w
    end
  | ERelease n => World (release_credential n (auth w)) (issued w) ({[n]} ∪ released w)
  | EBind x f t s at_ =>
    World (default (auth w) (BindExecution x f t s at_ (Some (auth w)))) (issued w) (released w)
  | EUnbind x => World (unbind x (auth w)) (issued w) (released w)
  end.

Fixpoint lifecycle (es : list event) (w : world) : option world :=
  match es with
  | [] => Some w
  | e :: es => if allowed e w then lifecycle es (apply_event e w) else None
  end.

(** The credential text of an issued nonce. *)
Definition credential (k encodedNonce : list Z) (functionID : string) : list Z :=
  let payload := payload_of (b64_encode (bytes functionID)) encodedNonce in
  payload ++ [dot] ++ b64_encode (hmac_sha256 k payload).

(** The presenter of [token] knows no MAC that was not issued. *)
Definition unforged (w : world) (token : list Z) : Prop :=
  forall p0 p1 p2 p3, split_dot token = [p0; p1; p2; p3] ->
    b64_decode p3 = Some (hmac_sha256 (key (auth w)) (p0 ++ [dot] ++ p1 ++ [dot] ++ p2)) ->
    exists n f, issued w !! n = Some f /\
      p0 ++ [dot] ++ p1 ++ [dot] ++ p2 = payload_of (b64_encode (bytes f)) n.

(* ------------------------------------------------------------------ *)
(** ** Lemmas *)

Definition no_dot (l : list Z) : Prop := Forall (fun c => c <> dot) l.

Lemma b64_no_dot l : Forall is_byte l -> no_dot (b64_encode l).
Proof.
  intros Hl. eapply Forall_impl; [by apply b64_encode_plain|]. intros c Hc ->. done.
Qed.

Lemma split_dot_app l r : no_dot l -> split_dot (l ++ [dot] ++ r) = l :: split_dot r.
Proof.
  induction 1 as [|c l Hc _ IH]; [done|]. simpl app. simpl split_dot in *. rewrite IH.
  apply Z.eqb_neq in Hc. by rewrite Hc.
Qed.

Lemma split_dot_one l : no_dot l -> split_dot l = [l].
Proof.
  induction 1 as [|c l Hc _ IH]; [done|]. simpl. rewrite IH. apply Z.eqb_neq in Hc. by rewrite Hc.
Qed.

Lemma split_dot_parts s : Forall no_dot (split_dot s).
Proof.
  induction s as [|c s IH]; simpl; [repeat constructor|]. destruct (c =? dot) eqn:E; [by constructor; [constructor|]|].
  apply Z.eqb_neq in E. destruct (split_dot s) as [|h t]; [by repeat constructor|].
  apply Forall_cons in IH as [Hh Ht]. constructor; [by constructor|done].
Qed.

Lemma app_dot_inj a b a' b' :
  no_dot a -> no_dot a' -> a ++ [dot] ++ b = a' ++ [dot] ++ b' -> a = a' /\ b = b'.
Proof.
  intros Ha. revert a'. induction Ha as [|c a Hc _ IH]; intros a' Ha' H.
  - destruct a' as [|c' a']; simpl in H; [by simplify_eq|]. apply Forall_cons in Ha' as [Hc' _]. congruence.
  - destruct a' as [|c' a']; simpl in H; [congruence|]. apply Forall_cons in Ha' as [_ Ha'].
    injection H as -> H. destruct (IH a' Ha' H). by subst.
Qed.

Lemma tokenVersion_no_dot : no_dot tokenVersion.
Proof. repeat constructor; done. Qed.

Lemma split_credential k n f :
  no_dot n ->
  split_dot (credential k n f)
  = [tokenVersion; b64_encode (bytes f); n;
     b64_encode (hmac_sha256 k (payload_of (b64_encode (bytes f)) n))].
Proof.
  intros Hn. unfold credential. cbv zeta.
  assert (Hmac : no_dot (b64_encode (hmac_sha256 k (payload_of (b64_encode (bytes f)) n))))
    by apply b64_no_dot, sha256_are_bytes.
  revert Hmac. generalize (b64_encode (hmac_sha256 k (payload_of (b64_encode (bytes f)) n))) as mac.
  intros mac Hmac. unfold payload_of. rewrite <- !app_assoc.
  rewrite (split_dot_app tokenVersion) by apply tokenVersion_no_dot.
  rewrite (split_dot_app (b64_encode (bytes f))) by apply b64_no_dot, bytes_are_bytes.
  by rewrite (split_dot_app n), (split_dot_one mac).
Qed.

(** What [Verify] accepts, spelled out. *)
Lemma Verify_spec token au f :
  Verify token (Some au) = Some f <->
  key au <> [] /\
  exists p1 p2 p3 raw,
    split_dot token = [tokenVersion; p1; p2; p3] /\
    b64_decode p3 = Some (hmac_sha256 (key au) (payload_of p1 p2)) /\
    p2 ∈ live au /\ b64_decode p1 = Some raw /\ raw <> [] /\ f = of_bytes raw.
Proof.
  unfold Verify. case_bool_decide as Ek.
  { split; [done|]. by intros [? _]. }
  split.
  - intros H. split; [done|].
    destruct (split_dot token) as [|p0 [|p1 [|p2 [|p3 [|]]]]] eqn:Es; try done.
    case_bool_decide as E0; simpl in H; [|done]. subst p0.
    destruct (b64_decode p3) as [mac|] eqn:Em; [|done].
    case_bool_decide as E1; simpl in H; [|done]. case_bool_decide as E2; simpl in H; [|done].
    destruct (b64_decode p1) as [[|r raw]|] eqn:Er; try done. injection H as <-.
    exists p1, p2, p3, (r :: raw). split_and!; try done. rewrite Em, E1. done.
  - intros (_ & p1 & p2 & p3 & raw & -> & Em & Hlive & Er & Hraw & ->).
    rewrite bool_decide_eq_true_2 by done. cbn [negb]. rewrite Em.
    rewrite bool_decide_eq_true_2 by done. cbn [negb]. rewrite bool_decide_eq_true_2 by done. cbn [negb].
    rewrite Er. by destruct raw.
Qed.

(** The nonces of live workers are the issued ones less the released ones. *)
Record sound (k : list Z) (w : world) : Prop := {
  S_key : key (auth w) = k;
  S_live : forall n, n ∈ live (auth w) <-> is_Some (issued w !! n) /\ n ∉ released w;
  S_released : forall n, n ∈ released w -> is_Some (issued w !! n);
  S_issued : map_Forall (fun n f => no_dot n /\ f <> ""%string) (issued w)
}.

Lemma sound_mint k nonce f w :
  k <> [] -> sound k w -> allowed (EMint nonce f) w = true -> sound k (apply_event (EMint nonce f) w).
Proof.
  intros Hk [Sk Sl Sr Si] Ha. cbn [apply_event allowed] in *. zbool.
  unfold Mint. rewrite bool_decide_eq_false_2 by congruence. rewrite bool_decide_eq_false_2 by done. cbn [orb].
  assert (Hb : Forall is_byte nonce).
  { apply Forall_forall. intros b Hb. apply list_elem_of_In in Hb.
    match goal with Hf : forallb _ nonce = true |- _ => rewrite forallb_forall in Hf; apply Hf in Hb end.
    zbool. unfold is_byte. lia. }
  split; cbn.
  - done.
  - intros n. rewrite elem_of_union, elem_of_singleton, Sl. destruct (decide (n = b64_encode nonce)) as [->|Hne].
    + rewrite lookup_insert_eq. split; [|by left]. intros _. split; [by eexists|].
      intros [x Hx]%Sr. congruence.
    + rewrite lookup_insert_ne by done. split; [by intros [|]|by right].
  - intros n Hn%Sr. destruct (decide (n = b64_encode nonce)) as [->|Hne].
    + rewrite lookup_insert_eq. by eexists.
    + by rewrite lookup_insert_ne.
  - apply map_Forall_insert_2; [|done]. split; [by apply b64_no_dot|done].
Qed.

Lemma sound_event k e w : k <> [] -> sound k w -> allowed e w = true -> sound k (apply_event e w).
Proof.
  intros Hk Hs Ha. destruct e as [nonce f|n|x f t s at_|x]; [by apply sound_mint| | |];
    destruct Hs as [Sk Sl Sr Si]; cbn [apply_event allowed] in *.
  - zbool. split; cbn; try done.
    + intros n'. rewrite elem_of_difference, elem_of_singleton, elem_of_union, elem_of_singleton, Sl. tauto.
    + intros n' [->%elem_of_singleton|?%Sr]%elem_of_union; done.
  - unfold BindExecution. destruct (_ || _); by split.
  - by split.
Qed.

Lemma sound_lifecycle k es w w' : k <> [] -> sound k w -> lifecycle es w = Some w' -> sound k w'.
Proof.
  intros Hk. revert w. induction es as [|e es IH]; intros w Hs; cbn [lifecycle]; [by intros [= <-]|].
  destruct (allowed e w) eqn:Ha; [|done]. apply IH. by apply sound_event.
Qed.

Lemma sound_new k : sound k (World (New k) ∅ ∅).
Proof.
  split; cbn; try done.
  intros n. split; [by intros ?%elem_of_empty|]. intros [[x Hx] _]. by rewrite lookup_empty in Hx.
Qed.

Lemma bytes_nonempty s : s <> ""%string -> bytes s <> [].
Proof. by destruct s. Qed.

Lemma payload_inj p1 p2 f n :
  no_dot p1 -> payload_of p1 p2 = payload_of (b64_encode (bytes f)) n -> p1 = b64_encode (bytes f) /\ p2 = n.
Proof.
  intros H1 Hp. unfold payload_of in Hp. apply app_inv_head in Hp. apply app_inv_head in Hp.
  apply app_dot_inj in Hp; [done|done|]. apply b64_no_dot, bytes_are_bytes.
Qed.

(* ------------------------------------------------------------------ *)
(** ** Theorems *)


Definition demo_nonce (x : Z) : list Z := repeat x 16.

Definition demo_events : list event :=
  [EMint (demo_nonce 1) "fn_a"; EMint (demo_nonce 2) "fn_b"; ERelease (b64_encode (demo_nonce 1))].

Definition demo_world : world := default (World (New []) ∅ ∅) (lifecycle demo_events (World (New (bytes "k")) ∅ ∅)).

