(* ===== verification/AuthGate.v ===== *)
(** * Who may call what ([server/middleware_auth.go], [server/handlers/invoke_auth.go])

    The gate in front of the management API -- sandbox credentials, dashboard
    sessions and API keys, with its two caches -- and the check in front of a
    function's own endpoint.  Rows of the database are inputs; a key's
    permissions column is taken as the list its JSON text denotes. *)
From S2P Require Import Prelude GoText Sha256 SdkAuth.
Open Scope Z_scope.

(* ------------------------------------------------------------------ *)
(** ** Data *)

Record APIKey := MkAPIKey {
  k_ID : string; k_Name : string; k_Permissions : list string; k_ExpiresAt : option Z
}.

Record session := Session { s_username : string; s_expires : Z }.

(** The rows the gate reads: sessions by token, keys by hash. *)
Record authdb := AuthDB { sessions : gmap string session; api_keys : gmap string APIKey }.

Record request := Request {
  r_Method : string; r_Path : string;
  h_InternalToken : string; h_APIKey : string; h_Authorization : string;
  c_session : option string
}.

Record Actor := MkActor { a_Source : string; a_Type : string; a_ID : string; a_Label : string }.

Inductive verdict :=
| Pass (actor : option Actor)      (** the handler runs *)
| Deny (status : Z) (code : string)
| Panic.                           (** the handler goroutine crashes *)

Definition sessionCacheTTL : Z := 30 * second.
Definition keyCacheTTL : Z := 30 * second.

Record gate := Gate {
  gdb : authdb;
  sessionCache : gmap string Z;
  keyCache : gmap string (APIKey * Z);
  sdkAuth : option Authenticator;
  clock : Z;
  log : list (Z * authdb)          (** history: what the database held at each lookup *)
}.

#[export] Instance gate_eta : Eta gate := fun g =>
  Gate (gdb g) (sessionCache g) (keyCache g) (sdkAuth g) (clock g) (log g).

(** The readings of the clock during one request, and whether the database answers. *)
Record env := Env { now_session : Z; now_key : Z; now_expiry : Z; session_db_ok : bool; key_db_ok : bool }.

(* ------------------------------------------------------------------ *)
(** ** The gate *)

Definition requiredPermission (method path : string) : string :=
  if hasPrefix "/api/v1/keys" path then "admin"
  else if hasPrefix "/api/v1/ai/" path then "admin"
  else if bool_decide (path = "/api/v1/pool/config"%string) &&
          (bool_decide (method = "PUT"%string) || bool_decide (method = "POST"%string)) then "admin"
  else if hasPrefix "/api/v1/channels" path then "admin"
  else if hasPrefix "/api/v1/firewall" path then "admin"
  else if bool_decide (path = "/api/v1/backup"%string) || bool_decide (path = "/api/v1/restore"%string) then "admin"
  else if bool_decide (path = "/api/v1/system/storage"%string) || bool_decide (path = "/api/v1/system/vacuum"%string)
       then "admin"
  else if bool_decide (method = "GET"%string) then "read" else "write".

(** [GetSessionUser]: the comparison with CURRENT_TIMESTAMP is by whole seconds. *)
Definition GetSessionUser (now : Z) (token : string) (d : authdb) : option session :=
  match sessions d !! token with
  | Some s => if now / second <=? s_expires s / second then Some s else None
  | None => None
  end.

Definition GetAPIKeyByHash (hash : string) (d : authdb) : option APIKey := api_keys d !! hash.

Definition key_hash (apiKey : string) : string := of_bytes (hex_encode (sha256 (bytes apiKey))).

(** [cookie.Value[:8]]: out of range below eight bytes. *)
Definition session_verdict (token label : string) : verdict :=
  if (String.length token <? 8)%nat then Panic
  else Pass (Some (MkActor "web" "session" (str_take 8 token) label)).

Definition sdk_actor (caller : string) : Actor := MkActor "sdk" "scoped_token" caller caller.

Definition is_public (r : request) : bool :=
  (bool_decide (r_Method r = "GET"%string) && bool_decide (r_Path r = "/api/v1/system/health"%string)) ||
  negb (hasPrefix "/api/" (r_Path r)) || hasPrefix "/api/v1/auth/" (r_Path r).

Definition is_internal (r : request) : bool :=
  hasPrefix "/api/v1/_kv/" (r_Path r) || hasPrefix "/api/v1/_internal/" (r_Path r).

Definition is_jobs_post (r : request) : bool :=
  bool_decide (r_Method r = "POST"%string) && bool_decide (r_Path r = "/api/v1/jobs"%string).

(** The session-cookie branch: [None] falls through to the API key. *)
Definition try_session (e : env) (r : request) (g : gate) : gate * option verdict :=
  match c_session r with
  | None => (g, None)
  | Some token =>
    match sessionCache g !! token with
    | Some validUntil =>
      if now_session e <? validUntil then (g, Some (session_verdict token "session"))
      else
        let g := g <| sessionCache ::= delete token |> in
        match (if session_db_ok e then GetSessionUser (now_session e) token (gdb g) else None) with
        | Some u =>
          (g <| sessionCache ::= <[token := now_session e + sessionCacheTTL]> |>,
           Some (session_verdict token (if bool_decide (s_username u = ""%string) then "session" else s_username u)))
        | None => (g, None)
        end
    | None =>
      match (if session_db_ok e then GetSessionUser (now_session e) token (gdb g) else None) with
      | Some u =>
        (g <| sessionCache ::= <[token := now_session e + sessionCacheTTL]> |>,
         Some (session_verdict token (if bool_decide (s_username u = ""%string) then "session" else s_username u)))
      | None => (g, None)
      end
    end
  end.

Definition bearer (r : request) : string :=
  if bool_decide (h_APIKey r = ""%string) then
    if hasPrefix "Bearer " (h_Authorization r) then trimSpace (str_drop 7 (h_Authorization r)) else ""
  else h_APIKey r.

(** The cached key if it is fresh, else the row, which is then cached. *)
Definition lookup_key (e : env) (hash : string) (g : gate) : gate * res verdict APIKey :=
  let cached := match keyCache g !! hash with
                | Some (k, validUntil) => if now_key e <? validUntil then Some k else None
                | None => None
                end in
  match cached with
  | Some k => (g, Ok k)
  | None =>
    let g := g <| keyCache ::= delete hash |> in
    if negb (key_db_ok e) then (g, Err (Deny 503 "SERVICE_UNAVAILABLE"))
    else
      match GetAPIKeyByHash hash (gdb g) with
      | None => (g, Err (Deny 401 "UNAUTHORIZED"))
      | Some k => (g <| keyCache ::= <[hash := (k, now_key e + keyCacheTTL)]> |>, Ok k)
      end
  end.

Definition expired (now : Z) (k : APIKey) : bool :=
  match k_ExpiresAt k with Some t => t <? now | None => false end.

Definition key_gate (e : env) (r : request) (g : gate) : gate * verdict :=
  let apiKey := bearer r in
  if bool_decide (apiKey = ""%string) then (g, Deny 401 "UNAUTHORIZED")
  else if hasPrefix "orva_chn_" apiKey then (g, Deny 401 "UNAUTHORIZED")
  else if hasPrefix "orva_oat_" apiKey || hasPrefix "orva_ort_" apiKey then (g, Deny 401 "UNAUTHORIZED")
  else
    let hash := key_hash apiKey in
    match lookup_key e hash g with
    | (g, Err v) => (g, v)
    | (g, Ok k) =>
      if expired (now_expiry e) k then (g <| keyCache ::= delete hash |>, Deny 401 "UNAUTHORIZED")
      else if bool_decide (requiredPermission (r_Method r) (r_Path r) ∈ k_Permissions k)
      then (g, Pass (Some (MkActor "api" "api_key" (k_ID k) (k_Name k))))
      else (g, Deny 403 "FORBIDDEN")
    end.

Definition authMiddleware (e : env) (r : request) (g : gate) : gate * verdict :=
  if is_public r then (g, Pass None)
  else if is_internal r then
    match Verify (bytes (h_InternalToken r)) (sdkAuth g) with
    | Some caller => (g, Pass (Some (sdk_actor caller)))
    | None => (g, Deny 401 "UNAUTHORIZED")
    end
  else
    match (if is_jobs_post r then Verify (bytes (h_InternalToken r)) (sdkAuth g) else None) with
    | Some caller => (g, Pass (Some (sdk_actor caller)))
    | None =>
      match try_session e r g with
      | (g, Some v) => (g, v)
      | (g, None) => key_gate e r g
      end
    end.

(* ------------------------------------------------------------------ *)
(** ** The gate over time *)

Inductive gevent :=
| GRequest (e : env) (r : request)
| GDatabase (now : Z) (d : authdb)     (** log-in, log-out, key minted or revoked, ... *)
| GEvictKey (hash : string)
| GEvictSession (token : string)
| GAuthenticator (a : option Authenticator).

(** Clock readings do not go back; the history records what each lookup saw. *)
Definition gstep (ev : gevent) (g : gate) : option (gate * option verdict) :=
  match ev with
  | GRequest e r =>
    if (clock g <=? now_session e) && (now_session e <=? now_key e) && (now_key e <=? now_expiry e) then
      let '(g', v) := authMiddleware e r g in
      Some (g' <| clock := now_expiry e |>
               <| log ::= app [(now_key e, gdb g); (now_session e, gdb g)] |>, Some v)
    else None
  | GDatabase now d => if clock g <=? now then Some (g <| gdb := d |> <| clock := now |>, None) else None
  | GEvictKey h => Some (g <| keyCache ::= delete h |>, None)
  | GEvictSession t => Some (g <| sessionCache ::= delete t |>, None)
  | GAuthenticator a => Some (g <| sdkAuth := a |>, None)
  end.

Fixpoint grun (evs : list gevent) (g : gate) : option gate :=
  match evs with [] => Some g | ev :: evs => '(g, _) ← gstep ev g; grun evs g end.

Definition gate_start (now : Z) (d : authdb) (a : option Authenticator) : gate := Gate d ∅ ∅ a now [].

(* ------------------------------------------------------------------ *)
(** ** The endpoint of a function *)

Definition AuthModeNone : string := "none".
Definition AuthModePlatformKey : string := "platform_key".
Definition AuthModeSigned : string := "signed".
Definition SigningSecretKey : string := "ORVA_SIGNING_SECRET".

(** A call: the headers every request has, the two of a signed one, the body. *)
Record invocation := Invocation {
  i_request : request; h_Signature : string; h_Timestamp : string; i_body : list Z
}.

Definition abs64 (x : Z) : Z := if x <? 0 then wrap64 (- x) else x.

(** [strings.EqualFold (b[:7], "bearer ")]: no letter of it has a folding outside ASCII. *)
Definition is_bearer (b : string) : bool :=
  (7 <? String.length b)%nat &&
  bool_decide (map (fun c => if (65 <=? c) && (c <=? 90) then c + 32 else c) (bytes (str_take 7 b)) = bytes "bearer ").

Definition invoke_key (r : request) : string :=
  if bool_decide (h_APIKey r = ""%string) then
    if is_bearer (h_Authorization r) then trimSpace (str_drop 7 (h_Authorization r)) else ""
  else h_APIKey r.

Definition session_admits (e : env) (r : request) (d : authdb) : bool :=
  match c_session r with
  | Some token => session_db_ok e && bool_decide (is_Some (GetSessionUser (now_session e) token d))
  | None => false
  end.

Definition signature_of (secret ts : string) (body : list Z) : string :=
  ("sha256=" ++ of_bytes (hex_encode (hmac_sha256 (bytes secret) (bytes ts ++ bytes "." ++ body))))%string.

(** The arm of [AuthModePlatformKey]. *)
Definition invoke_platform (e : env) (r : request) (d : authdb) : res (Z * string) unit :=
  if session_admits e r d then Ok tt
  else
    let apiKey := invoke_key r in
    if bool_decide (apiKey = ""%string) then Err (401, "UNAUTHORIZED"%string)
    else
      match (if key_db_ok e then GetAPIKeyByHash (key_hash apiKey) d else None) with
      | None => Err (401, "UNAUTHORIZED"%string)
      | Some key =>
        if expired (now_expiry e) key then Err (401, "UNAUTHORIZED"%string)
        else if bool_decide ("invoke"%string ∈ k_Permissions key) then Ok tt
        else Err (403, "FORBIDDEN"%string)
      end.

(** The arm of [AuthModeSigned]; [secrets] is what the secrets manager
    answered for the function. *)
Definition invoke_signed (e : env) (secrets : option (gmap string string)) (i : invocation) : res (Z * string) unit :=
  match secrets ≫= (.!! SigningSecretKey) with
  | None => Err (500, "SIGNING_NOT_CONFIGURED"%string)
  | Some secret =>
    if bool_decide (secret = ""%string) then Err (500, "SIGNING_NOT_CONFIGURED"%string)
    else if bool_decide (h_Signature i = ""%string) || bool_decide (h_Timestamp i = ""%string)
    then Err (401, "UNAUTHORIZED"%string)
    else
      match parseInt64 (h_Timestamp i) with
      | None => Err (401, "UNAUTHORIZED"%string)
      | Some ts =>
        if 5 * 60 <? abs64 (wrap64 (now_expiry e / second - ts)) then Err (401, "UNAUTHORIZED"%string)
        else if bool_decide (h_Signature i = signature_of secret (h_Timestamp i) (i_body i)) then Ok tt
        else Err (401, "UNAUTHORIZED"%string)
      end
  end.

Definition authorizeInvoke (e : env) (mode : string) (secrets : option (gmap string string))
    (i : invocation) (d : authdb) : res (Z * string) unit :=
  let mode := if bool_decide (mode = ""%string) then AuthModeNone else mode in
  if bool_decide (mode = AuthModeNone) then Ok tt
  else if bool_decide (mode = AuthModePlatformKey) then invoke_platform e (i_request i) d
  else if bool_decide (mode = AuthModeSigned) then invoke_signed e secrets i
  else Err (500, "INTERNAL"%string).

(* ------------------------------------------------------------------ *)
(** ** Lemmas *)

(** Every cached answer was the database's thirty seconds before it lapses. *)
Record gate_ok (g : gate) : Prop := {
  G_session : forall tok vu, sessionCache g !! tok = Some vu ->
    exists t d u, (t, d) ∈ log g /\ vu = t + sessionCacheTTL /\ GetSessionUser t tok d = Some u;
  G_key : forall h k vu, keyCache g !! h = Some (k, vu) ->
    exists t d, (t, d) ∈ log g /\ vu = t + keyCacheTTL /\ api_keys d !! h = Some k;
  G_log : Forall (fun td => td.1 <= clock g) (log g)
}.

(** The session branch only ever adds the answer it just got. *)
Lemma try_session_cache e r g g' o :
  try_session e r g = (g', o) ->
  gdb g' = gdb g /\ keyCache g' = keyCache g /\ sdkAuth g' = sdkAuth g /\ log g' = log g /\
  (forall tok vu, sessionCache g' !! tok = Some vu ->
     sessionCache g !! tok = Some vu \/
     vu = now_session e + sessionCacheTTL /\ exists u, GetSessionUser (now_session e) tok (gdb g) = Some u) /\
  (forall v, o = Some v -> exists tok, c_session r = Some tok /\
     ((exists vu, sessionCache g !! tok = Some vu /\ now_session e < vu) \/
      exists u, GetSessionUser (now_session e) tok (gdb g) = Some u) /\
     exists label, v = session_verdict tok label).
Proof.
  unfold try_session. destruct (c_session r) as [tok|]; [|intros [= <- <-]; split_and!; try done; by left].
  assert (Miss : forall g0, gdb g0 = gdb g -> keyCache g0 = keyCache g -> sdkAuth g0 = sdkAuth g -> log g0 = log g ->
    (forall tok vu, sessionCache g0 !! tok = Some vu -> sessionCache g !! tok = Some vu) ->
    match (if session_db_ok e then GetSessionUser (now_session e) tok (gdb g0) else None) with
    | Some u => (g0 <| sessionCache ::= <[tok := now_session e + sessionCacheTTL]> |>,
                 Some (session_verdict tok (if bool_decide (s_username u = ""%string) then "session" else s_username u)))
    | None => (g0, None)
    end = (g', o) ->
    gdb g' = gdb g /\ keyCache g' = keyCache g /\ sdkAuth g' = sdkAuth g /\ log g' = log g /\
    (forall tok vu, sessionCache g' !! tok = Some vu ->
       sessionCache g !! tok = Some vu \/
       vu = now_session e + sessionCacheTTL /\ exists u, GetSessionUser (now_session e) tok (gdb g) = Some u) /\
    (forall v, o = Some v -> exists tok', Some tok = Some tok' /\
       ((exists vu, sessionCache g !! tok' = Some vu /\ now_session e < vu) \/
        exists u, GetSessionUser (now_session e) tok' (gdb g) = Some u) /\
       exists label, v = session_verdict tok' label)).
  { intros g0 Hd Hk Hs Hl Hc. rewrite Hd.
    destruct (if session_db_ok e then _ else _) as [u|] eqn:Eu.
    - destruct (session_db_ok e); [|done]. intros [= <- <-]. cbn. split_and!; try done.
      + intros tok' vu. destruct (decide (tok' = tok)) as [->|Hne].
        * rewrite lookup_insert_eq. intros [= <-]. right. eauto.
        * rewrite lookup_insert_ne by done. left. by apply Hc.
      + intros v [= <-]. exists tok. split; [done|]. split; [right|]; eauto.
    - intros [= <- <-]. split_and!; try done. intros tok' vu H. left. by apply Hc. }
  destruct (sessionCache g !! tok) as [vu|] eqn:Ec; [|by apply Miss].
  destruct (now_session e <? vu) eqn:El.
  - intros [= <- <-]. split_and!; try done; [by left|]. intros v [= <-]. exists tok. zbool.
    split; [done|]. split; [left|]; eauto.
  - apply Miss; try done. cbn. intros tok' vu' [_ H]%lookup_delete_Some. done.
Qed.

Lemma lookup_key_cache e h g g' o :
  lookup_key e h g = (g', o) ->
  gdb g' = gdb g /\ sessionCache g' = sessionCache g /\ sdkAuth g' = sdkAuth g /\ log g' = log g /\
  (forall h' k vu, keyCache g' !! h' = Some (k, vu) ->
     keyCache g !! h' = Some (k, vu) \/ vu = now_key e + keyCacheTTL /\ api_keys (gdb g) !! h' = Some k) /\
  match o with
  | Ok k => (exists vu, keyCache g !! h = Some (k, vu) /\ now_key e < vu) \/ api_keys (gdb g) !! h = Some k
  | Err v => exists st code, v = Deny st code
  end.
Proof.
  unfold lookup_key.
  assert (Miss : forall g' o,
    (if negb (key_db_ok e) then (g <| keyCache ::= delete h |>, Err (Deny 503 "SERVICE_UNAVAILABLE"))
     else match GetAPIKeyByHash h (gdb g) with
          | None => (g <| keyCache ::= delete h |>, Err (Deny 401 "UNAUTHORIZED"))
          | Some k => (g <| keyCache ::= delete h |> <| keyCache ::= <[h := (k, now_key e + keyCacheTTL)]> |>, Ok k)
          end) = (g', o) ->
    gdb g' = gdb g /\ sessionCache g' = sessionCache g /\ sdkAuth g' = sdkAuth g /\ log g' = log g /\
    (forall h' k vu, keyCache g' !! h' = Some (k, vu) ->
       keyCache g !! h' = Some (k, vu) \/ vu = now_key e + keyCacheTTL /\ api_keys (gdb g) !! h' = Some k) /\
    match o with
    | Ok k => (exists vu, keyCache g !! h = Some (k, vu) /\ now_key e < vu) \/ api_keys (gdb g) !! h = Some k
    | Err v => exists st code, v = Deny st code
    end).
  { intros g0 o0. destruct (negb (key_db_ok e)).
    { intros [= <- <-]. cbn. split_and!; eauto. intros h' k vu [_ H]%lookup_delete_Some. by left. }
    unfold GetAPIKeyByHash. destruct (api_keys (gdb g) !! h) as [k|] eqn:Ek; intros [= <- <-]; cbn; split_and!; eauto.
    - intros h' k' vu. destruct (decide (h' = h)) as [->|Hne].
      + rewrite lookup_insert_eq. intros [= <- <-]. by right.
      + rewrite lookup_insert_ne, lookup_delete_ne by done. by left.
    - intros h' k vu [_ H]%lookup_delete_Some. by left. }
  destruct (keyCache g !! h) as [[k vu]|] eqn:Ec; [|apply Miss].
  destruct (now_key e <? vu) eqn:El; [|apply Miss]. intros [= <- <-]. zbool. split_and!; eauto.
Qed.

(** The authority a passing request is found to hold: what the caches [sc],
    [kc] or the database [d] say when it is looked up. *)
Definition session_held (e : env) (tok : string) (sc : gmap string Z) (d : authdb) : Prop :=
  (exists vu, sc !! tok = Some vu /\ now_session e < vu) \/
  (exists u, GetSessionUser (now_session e) tok d = Some u).

Definition key_held (e : env) (h : string) (k : APIKey) (kc : gmap string (APIKey * Z)) (d : authdb) : Prop :=
  (exists vu, kc !! h = Some (k, vu) /\ now_key e < vu) \/ api_keys d !! h = Some k.

Definition mcp_only (apiKey : string) : bool :=
  hasPrefix "orva_chn_" apiKey || hasPrefix "orva_oat_" apiKey || hasPrefix "orva_ort_" apiKey.

Definition by_credential (r : request) (a : Actor) (sdk : option Authenticator) : Prop :=
  is_internal r || is_jobs_post r = true /\
  exists caller, Verify (bytes (h_InternalToken r)) sdk = Some caller /\ a = sdk_actor caller.

Definition by_session (r : request) (a : Actor) (held : string -> Prop) : Prop :=
  exists tok label, c_session r = Some tok /\ a = MkActor "web" "session" (str_take 8 tok) label /\ held tok.

Definition by_key (e : env) (r : request) (a : Actor) (held : string -> APIKey -> Prop) : Prop :=
  exists k, a = MkActor "api" "api_key" (k_ID k) (k_Name k) /\ bearer r <> ""%string /\ mcp_only (bearer r) = false /\
    held (key_hash (bearer r)) k /\ expired (now_expiry e) k = false /\
    requiredPermission (r_Method r) (r_Path r) ∈ k_Permissions k.

Definition fills_session (e : env) (g g' : gate) : Prop :=
  forall tok vu, sessionCache g' !! tok = Some vu ->
    sessionCache g !! tok = Some vu \/
    vu = now_session e + sessionCacheTTL /\ exists u, GetSessionUser (now_session e) tok (gdb g) = Some u.

Definition fills_key (e : env) (g g' : gate) : Prop :=
  forall h k vu, keyCache g' !! h = Some (k, vu) ->
    keyCache g !! h = Some (k, vu) \/ vu = now_key e + keyCacheTTL /\ api_keys (gdb g) !! h = Some k.

Lemma key_gate_spec e r g g' v :
  key_gate e r g = (g', v) ->
  gdb g' = gdb g /\ sdkAuth g' = sdkAuth g /\ log g' = log g /\ sessionCache g' = sessionCache g /\ fills_key e g g' /\
  match v with
  | Pass None => False
  | Pass (Some a) => by_key e r a (fun h k => key_held e h k (keyCache g) (gdb g))
  | _ => True
  end.
Proof.
  unfold key_gate. case_bool_decide as E0; [intros [= <- <-]; split_and!; try done; by left|].
  destruct (hasPrefix "orva_chn_" (bearer r)) eqn:E1; [intros [= <- <-]; split_and!; try done; by left|].
  destruct (hasPrefix "orva_oat_" (bearer r) || hasPrefix "orva_ort_" (bearer r)) eqn:E2;
    [intros [= <- <-]; split_and!; try done; by left|].
  destruct (lookup_key e (key_hash (bearer r)) g) as [g1 o] eqn:El.
  apply lookup_key_cache in El as (Hd & Hs & Ha & Hl & Hf & Ho).
  destruct o as [k|v']; [|intros [= <- <-]; destruct Ho as (st & code & ->); done].
  destruct (expired (now_expiry e) k) eqn:Ex.
  { intros [= <- <-]. split_and!; try done. intros h k' vu H. cbn in H. apply lookup_delete_Some in H as [_ H]. by apply Hf. }
  case_bool_decide as Ep; intros [= <- <-]; [|done]. split_and!; try done.
  exists k. split_and!; try done. unfold mcp_only. by rewrite E1, <- orb_assoc.
Qed.

(** What one request does to the caches, and on what authority it passes. *)
Lemma authMiddleware_spec e r g g' v :
  authMiddleware e r g = (g', v) ->
  gdb g' = gdb g /\ sdkAuth g' = sdkAuth g /\ log g' = log g /\ fills_session e g g' /\ fills_key e g g' /\
  match v with
  | Pass None => is_public r = true
  | Pass (Some a) =>
    by_credential r a (sdkAuth g) \/
    by_session r a (fun tok => session_held e tok (sessionCache g) (gdb g)) \/
    by_key e r a (fun h k => key_held e h k (keyCache g) (gdb g))
  | _ => True
  end.
Proof.
  unfold authMiddleware. destruct (is_public r) eqn:E0; [intros [= <- <-]; split_and!; try done; by left|].
  destruct (is_internal r) eqn:E1.
  { destruct (Verify _ _) as [caller|] eqn:Ev; intros [= <- <-]; split_and!; try done; try (by left).
    left. split; [by rewrite E1|]. eauto. }
  destruct (if is_jobs_post r then _ else None) as [caller|] eqn:Ej.
  { destruct (is_jobs_post r) eqn:E2; [|done]. intros [= <- <-]. split_and!; try done; try (by left).
    left. split; [by rewrite E2, orb_true_r|]. eauto. }
  destruct (try_session e r g) as [g1 o] eqn:Es.
  apply try_session_cache in Es as (Hd & Hk & Ha & Hl & Hf & Hv).
  destruct o as [v'|].
  - intros [= <- <-]. split_and!; try done; [intros h k vu; rewrite Hk; by left|].
    destruct (Hv _ eq_refl) as (tok & Htok & Hheld & label & ->). unfold session_verdict.
    destruct (_ <? _)%nat; [done|]. right. left. exists tok, label. split_and!; done.
  - intros H. apply key_gate_spec in H as (Hd' & Ha' & Hl' & Hs' & Hf' & Hv').
    split_and!; try congruence.
    + intros tok vu. rewrite Hs'. apply Hf.
    + intros h k vu Hh%Hf'. by rewrite Hk, Hd in Hh.
    + destruct v as [[a|]| |]; try done. right. right. by rewrite Hk, Hd in Hv'.
Qed.

Lemma gate_ok_request e r g g' v :
  gate_ok g -> clock g <= now_session e -> now_session e <= now_key e -> now_key e <= now_expiry e ->
  authMiddleware e r g = (g', v) ->
  gate_ok (g' <| clock := now_expiry e |> <| log ::= app [(now_key e, gdb g); (now_session e, gdb g)] |>).
Proof.
  intros [Hs Hk Hlog] H1 H2 H3 Hm. apply authMiddleware_spec in Hm as (Hd & _ & Hl & Hfs & Hfk & _).
  split; cbn.
  - intros tok vu [Hc|[-> [u Hu]]]%Hfs.
    + destruct (Hs _ _ Hc) as (t & d & u & Hin & ? & ?). exists t, d, u. split_and!; try done. rewrite Hl. by do 2 right.
    + exists (now_session e), (gdb g), u. split_and!; try done. right. left.
  - intros h k vu [Hc|[-> Hr]]%Hfk.
    + destruct (Hk _ _ _ Hc) as (t & d & Hin & ? & ?). exists t, d. split_and!; try done. rewrite Hl. by do 2 right.
    + exists (now_key e), (gdb g). split_and!; try done. left.
  - rewrite Hl. repeat constructor; cbn; try lia. eapply Forall_impl; [exact Hlog|]. intros x Hx. cbn in *. lia.
Qed.

Lemma gate_ok_step ev g g' o : gate_ok g -> gstep ev g = Some (g', o) -> gate_ok g'.
Proof.
  intros HG. unfold gstep. destruct ev as [e r|now d|h|t|a].
  - destruct (_ && _) eqn:E; [|done]. zbool. destruct (authMiddleware e r g) as [g1 v] eqn:Em. intros [= <- <-].
    by eapply gate_ok_request.
  - destruct (clock g <=? now) eqn:E; [|done]. zbool. intros [= <- <-]. destruct HG as [Hs Hk Hl]. split; try done.
    cbn. eapply Forall_impl; [exact Hl|]. intros x Hx. cbn in *. lia.
  - intros [= <- <-]. destruct HG as [Hs Hk Hl]. split; try done. cbn. intros h' k vu [_ H]%lookup_delete_Some. by apply Hk.
  - intros [= <- <-]. destruct HG as [Hs Hk Hl]. split; try done. cbn. intros h' vu [_ H]%lookup_delete_Some. by apply Hs.
  - intros [= <- <-]. by destruct HG.
Qed.

Lemma gate_ok_run evs g g' : gate_ok g -> grun evs g = Some g' -> gate_ok g'.
Proof.
  revert g. induction evs as [|ev evs IH]; intros g HG; cbn [grun]; [by intros [= <-]|].
  destruct (gstep ev g) as [[g1 o]|] eqn:E; [|done]. cbn. apply IH. by eapply gate_ok_step.
Qed.

Lemma gate_ok_start now d a : gate_ok (gate_start now d a).
Proof. split; cbn; [intros ? ?|intros ? ? ?|constructor]; by rewrite lookup_empty. Qed.

Lemma clock_run evs g g' : grun evs g = Some g' -> clock g <= clock g'.
Proof.
  revert g. induction evs as [|ev evs IH]; intros g; cbn [grun]; [intros [= <-]; lia|].
  destruct (gstep ev g) as [[g1 o]|] eqn:E; [|done]. cbn. intros H%IH.
  cut (clock g <= clock g1); [lia|]. clear H IH. unfold gstep in E. destruct ev as [e r|now d|h|t|a].
  - destruct (_ && _) eqn:Ec; [|done]. zbool. destruct (authMiddleware e r g) as [g2 v]. injection E as <- <-. cbn. lia.
  - destruct (clock g <=? now) eqn:Ec; [|done]. zbool. by injection E as <- <-.
  - injection E as <- <-. cbn. lia.
  - injection E as <- <-. cbn. lia.
  - injection E as <- <-. cbn. lia.
Qed.

(** A row that stays deleted is never cached again. *)
Definition never_stores (P : authdb -> Prop) (ev : gevent) : Prop :=
  match ev with GDatabase _ d => P d | _ => True end.

Lemma revoked_key_run h evs g g' :
  api_keys (gdb g) !! h = None -> Forall (never_stores (fun d => api_keys d !! h = None)) evs ->
  grun evs g = Some g' ->
  api_keys (gdb g') !! h = None /\
  forall k vu, keyCache g' !! h = Some (k, vu) -> keyCache g !! h = Some (k, vu).
Proof.
  revert g. induction evs as [|ev evs IH]; intros g Hn Hev; cbn [grun]; [by intros [= <-]|].
  apply Forall_cons in Hev as [He Hev]. destruct (gstep ev g) as [[g1 o]|] eqn:E; [|done]. cbn. intros Hrun.
  assert (api_keys (gdb g1) !! h = None /\ forall k vu, keyCache g1 !! h = Some (k, vu) -> keyCache g !! h = Some (k, vu))
    as [Hn1 Hc1].
  { unfold gstep in E. destruct ev as [e r|now d|h'|t|a].
    - destruct (_ && _) eqn:Ec; [|done]. destruct (authMiddleware e r g) as [g2 v] eqn:Em. injection E as <- <-.
      apply authMiddleware_spec in Em as (Hd & _ & _ & _ & Hfk & _). cbn. rewrite Hd. split; [done|].
      intros k vu [?|[_ ?]]%Hfk; congruence.
    - destruct (clock g <=? now); [|done]. by injection E as <- <-.
    - injection E as <- <-. split; [done|]. cbn. by intros k vu [_ Hk]%lookup_delete_Some.
    - by injection E as <- <-.
    - by injection E as <- <-. }
  destruct (IH _ Hn1 Hev Hrun) as [? Hc]. split; [done|]. intros k vu Hk. by apply Hc1, Hc.
Qed.

Lemma revoked_session_run tok evs g g' :
  sessions (gdb g) !! tok = None -> Forall (never_stores (fun d => sessions d !! tok = None)) evs ->
  grun evs g = Some g' ->
  sessions (gdb g') !! tok = None /\
  forall vu, sessionCache g' !! tok = Some vu -> sessionCache g !! tok = Some vu.
Proof.
  revert g. induction evs as [|ev evs IH]; intros g Hn Hev; cbn [grun]; [by intros [= <-]|].
  apply Forall_cons in Hev as [He Hev]. destruct (gstep ev g) as [[g1 o]|] eqn:E; [|done]. cbn. intros Hrun.
  assert (sessions (gdb g1) !! tok = None /\ forall vu, sessionCache g1 !! tok = Some vu -> sessionCache g !! tok = Some vu)
    as [Hn1 Hc1].
  { unfold gstep in E. destruct ev as [e r|now d|h'|t|a].
    - destruct (_ && _) eqn:Ec; [|done]. destruct (authMiddleware e r g) as [g2 v] eqn:Em. injection E as <- <-.
      apply authMiddleware_spec in Em as (Hd & _ & _ & Hfs & _). cbn. rewrite Hd. split; [done|].
      intros vu [?|[_ [u Hu]]]%Hfs; [done|]. unfold GetSessionUser in Hu. by rewrite Hn in Hu.
    - destruct (clock g <=? now); [|done]. by injection E as <- <-.
    - by injection E as <- <-.
    - injection E as <- <-. split; [done|]. cbn. by intros vu [_ Hk]%lookup_delete_Some.
    - by injection E as <- <-. }
  destruct (IH _ Hn1 Hev Hrun) as [? Hc]. split; [done|]. intros vu Hv. by apply Hc1, Hc.
Qed.

(** The instants the skew check lets through. *)
Lemma skew_window now ts :
  0 <= now <= 4611686018427387904 -> in_int64 ts ->
  (5 * 60 <? abs64 (wrap64 (now - ts))) = false <-> now - 300 <= ts <= now + 300 \/ ts = now + int64_min.
Proof.
  unfold in_int64, abs64, wrap64, int64_min, int64_max. intros Hn Ht.
  pose proof (Z.div_mod (now - ts + 9223372036854775808) 18446744073709551616 ltac:(lia)) as Hd.
  pose proof (Z.mod_pos_bound (now - ts + 9223372036854775808) 18446744073709551616 ltac:(lia)) as Hb.
  set (q := (now - ts + 9223372036854775808) / 18446744073709551616) in *.
  set (m := (now - ts + 9223372036854775808) mod 18446744073709551616) in *.
  assert (q = 0 \/ q = 1) as Hq by lia.
  destruct (m - 9223372036854775808 <? 0) eqn:E; zbool.
  - destruct (decide (m = 0)) as [->|Hm].
    + change ((- (0 - 9223372036854775808) + 9223372036854775808) mod 18446744073709551616) with 0. zbool. lia.
    + rewrite Z.mod_small by lia. lia.
  - lia.
Qed.

Lemma parseInt64_range s n : parseInt64 s = Some n -> in_int64 n.
Proof.
  unfold parseInt64. destruct (if hasPrefix "-" s then _ else _) as [neg [|c r]]; [done|].
  destruct (parse_digits _ _); [|done]. destruct (_ && _) eqn:E; [|done]. intros [= <-]. zbool. unfold in_int64. lia.
Qed.

Lemma grun_app l1 l2 g g' : grun (l1 ++ l2) g = Some g' -> exists g1, grun l1 g = Some g1 /\ grun l2 g1 = Some g'.
Proof.
  revert g. induction l1 as [|ev l1 IH]; intros g; cbn [app grun]; [by eauto|].
  destruct (gstep ev g) as [[g1 o]|]; [|done]. apply IH.
Qed.

(** A passing request, by what it was passed on. *)
Lemma passed e r g g' a :
  gstep (GRequest e r) g = Some (g', Some (Pass (Some a))) ->
  clock g <= now_session e <= now_key e /\ log g' = (now_key e, gdb g) :: (now_session e, gdb g) :: log g /\
  (by_credential r a (sdkAuth g) \/
   by_session r a (fun tok => session_held e tok (sessionCache g) (gdb g)) \/
   by_key e r a (fun h k => key_held e h k (keyCache g) (gdb g))).
Proof.
  cbn [gstep]. destruct (_ && _) eqn:E; [|done]. zbool. destruct (authMiddleware e r g) as [g1 v] eqn:Em.
  intros [= <- ->]. apply authMiddleware_spec in Em as (_ & _ & Hl & _ & _ & Hv). cbn. rewrite Hl. split_and!; done || lia.
Qed.

Lemma revoked_key_gone h later g g1 :
  gate_ok g -> api_keys (gdb g) !! h = None -> Forall (never_stores (fun d => api_keys d !! h = None)) later ->
  grun later g = Some g1 ->
  api_keys (gdb g1) !! h = None /\ (GEvictKey h ∈ later -> keyCache g1 !! h = None) /\
  forall k vu, keyCache g1 !! h = Some (k, vu) -> vu <= clock g + keyCacheTTL.
Proof.
  intros HG Hn Hev Hrun. destruct (revoked_key_run _ _ _ _ Hn Hev Hrun) as [Hn1 Hc]. split_and!; [done| |].
  - intros (l1 & l2 & ->)%list_elem_of_split. apply Forall_app in Hev as [Hl1 Hl2]. apply Forall_cons in Hl2 as [_ Hl2].
    apply grun_app in Hrun as (ga & Ha & Hb). cbn in Hb. destruct (revoked_key_run _ _ _ _ Hn Hl1 Ha) as [Hna _].
    apply (revoked_key_run h) in Hb as [_ Hcb]; [|done..].
    destruct (keyCache g1 !! h) as [[k vu]|]; [|done]. specialize (Hcb _ _ eq_refl). cbn in Hcb.
    by rewrite lookup_delete_eq in Hcb.
  - intros k vu (t & d & Hin & -> & _)%Hc%(G_key _ HG). pose proof (G_log _ HG) as Hl. rewrite Forall_forall in Hl.
    specialize (Hl _ Hin). cbn in Hl. lia.
Qed.

Lemma revoked_session_gone tok later g g1 :
  gate_ok g -> sessions (gdb g) !! tok = None -> Forall (never_stores (fun d => sessions d !! tok = None)) later ->
  grun later g = Some g1 ->
  sessions (gdb g1) !! tok = None /\ (GEvictSession tok ∈ later -> sessionCache g1 !! tok = None) /\
  forall vu, sessionCache g1 !! tok = Some vu -> vu <= clock g + sessionCacheTTL.
Proof.
  intros HG Hn Hev Hrun. destruct (revoked_session_run _ _ _ _ Hn Hev Hrun) as [Hn1 Hc]. split_and!; [done| |].
  - intros (l1 & l2 & ->)%list_elem_of_split. apply Forall_app in Hev as [Hl1 Hl2]. apply Forall_cons in Hl2 as [_ Hl2].
    apply grun_app in Hrun as (ga & Ha & Hb). cbn in Hb. destruct (revoked_session_run _ _ _ _ Hn Hl1 Ha) as [Hna _].
    apply (revoked_session_run tok) in Hb as [_ Hcb]; [|done..].
    destruct (sessionCache g1 !! tok) as [vu|]; [|done]. specialize (Hcb _ eq_refl). cbn in Hcb.
    by rewrite lookup_delete_eq in Hcb.
  - intros vu (t & d & u & Hin & -> & _)%Hc%(G_session _ HG). pose proof (G_log _ HG) as Hl. rewrite Forall_forall in Hl.
    specialize (Hl _ Hin). cbn in Hl. lia.
Qed.

(* ------------------------------------------------------------------ *)
(** ** Theorems *)

(** Whatever has happened to the caches and the database before, a
    request that is let through is a public one, or carries a live sandbox
    credential on a path for sandboxes, or the cookie of a session the
    database held valid at some moment of the last thirty seconds, or an API
    key (not a token of the MCP surface) whose row the database held at some
    moment of the last thirty seconds, which has not expired now and which
    carries the very permission the method and path require. *)
Theorem gate_admits_only_authorised evs now d a g e r g' v :
  grun evs (gate_start now d a) = Some g -> gstep (GRequest e r) g = Some (g', Some (Pass v)) ->
  match v with
  | None => is_public r = true
  | Some act =>
    by_credential r act (sdkAuth g) \/
    by_session r act (fun tok => exists t dt u, (t, dt) ∈ log g' /\
      now_session e - sessionCacheTTL < t <= now_session e /\ GetSessionUser t tok dt = Some u) \/
    by_key e r act (fun h k => exists t dt, (t, dt) ∈ log g' /\
      now_key e - keyCacheTTL < t <= now_key e /\ api_keys dt !! h = Some k)
  end.
Proof.
  intros Hrun Hs. pose proof (gate_ok_run _ _ _ (gate_ok_start now d a) Hrun) as HG. destruct v as [act|].
  - apply passed in Hs as (Hclk & Hl & [?|[(tok & label & ? & ? & Hh)|(k & ? & ? & ? & Hh & Hx & Hp)]]); [by left|right;left|right;right].
    + exists tok, label. split_and!; try done. rewrite Hl. destruct Hh as [(vu & Hc & Hlt)|[u Hu]].
      * destruct (G_session _ HG _ _ Hc) as (t & dt & u & Hin & -> & Hu). exists t, dt, u. pose proof (G_log _ HG) as Hlog.
        rewrite Forall_forall in Hlog. specialize (Hlog _ Hin). cbn in Hlog. split_and!; [by do 2 right|lia|lia|done].
      * exists (now_session e), (gdb g), u. unfold sessionCacheTTL, second. split_and!; [right; left|lia|lia|done].
    + exists k. split_and!; try done. rewrite Hl. destruct Hh as [(vu & Hc & Hlt)|Hr].
      * destruct (G_key _ HG _ _ _ Hc) as (t & dt & Hin & -> & Hr). exists t, dt. pose proof (G_log _ HG) as Hlog.
        rewrite Forall_forall in Hlog. specialize (Hlog _ Hin). cbn in Hlog. split_and!; [by do 2 right|lia|lia|done].
      * exists (now_key e), (gdb g). unfold keyCacheTTL, second. split_and!; [left|lia|lia|done].
  - cbn [gstep] in Hs. destruct (_ && _); [|done]. destruct (authMiddleware e r g) as [g1 v] eqn:Em.
    injection Hs as _ ->. by apply authMiddleware_spec in Em as (_ & _ & _ & _ & _ & Hv).
Qed.

(** A key (a session) that is gone from the database, and that nothing
    writes back, authenticates no request once its cached answer has been
    evicted, or -- where a caller forgot to evict it -- once thirty seconds
    have passed; whatever requests, evictions and writes came in between.
    A request is one step here: the lookup and the store it makes of the
    answer are not interleaved with an eviction. *)
Theorem revocation_is_bounded before now d a g later g1 e r g2 act :
  grun before (gate_start now d a) = Some g -> grun later g = Some g1 ->
  gstep (GRequest e r) g1 = Some (g2, Some (Pass (Some act))) ->
  (forall h, api_keys (gdb g) !! h = None -> Forall (never_stores (fun d => api_keys d !! h = None)) later ->
     GEvictKey h ∈ later \/ clock g + keyCacheTTL <= now_key e ->
     ~ (a_Type act = "api_key"%string /\ key_hash (bearer r) = h)) /\
  (forall tok, sessions (gdb g) !! tok = None -> Forall (never_stores (fun d => sessions d !! tok = None)) later ->
     GEvictSession tok ∈ later \/ clock g + sessionCacheTTL <= now_session e ->
     ~ (a_Type act = "session"%string /\ c_session r = Some tok)).
Proof.
  intros Hb Hl Hs. pose proof (gate_ok_run _ _ _ (gate_ok_start now d a) Hb) as HG.
  apply passed in Hs as (_ & _ & Hby). split.
  - intros h Hn Hev Hlate [Ht Hh]. destruct (revoked_key_gone h later g g1 HG Hn Hev Hl) as (Hn1 & He & Hc).
    destruct Hby as [(_ & c & _ & ->)|[(tok & label & _ & -> & _)|(k & -> & _ & _ & [(vu & Hk & Hlt)|Hk] & _)]]; try done;
      rewrite Hh in Hk; [|congruence].
    destruct Hlate as [Hin|Hlate]; [rewrite (He Hin) in Hk; done|]. specialize (Hc _ _ Hk). lia.
  - intros tok Hn Hev Hlate [Ht Hh]. destruct (revoked_session_gone tok later g g1 HG Hn Hev Hl) as (Hn1 & He & Hc).
    destruct Hby as [(_ & c & _ & ->)|[(tok' & label & Htok & -> & Hheld)|(k & -> & _)]]; try done.
    assert (tok' = tok) as -> by congruence. destruct Hheld as [(vu & Hk & Hlt)|[u Hu]].
    + destruct Hlate as [Hin|Hlate]; [rewrite (He Hin) in Hk; done|]. specialize (Hc _ Hk). lia.
    + unfold GetSessionUser in Hu. by rewrite Hn1 in Hu.
Qed.

(** What the endpoint of a function asks for, by its mode. *)
Definition platform_authority (e : env) (r : request) (d : authdb) : Prop :=
  (exists tok u, c_session r = Some tok /\ session_db_ok e = true /\ GetSessionUser (now_session e) tok d = Some u) \/
  (exists k, invoke_key r <> ""%string /\ key_db_ok e = true /\ api_keys d !! key_hash (invoke_key r) = Some k /\
     expired (now_expiry e) k = false /\ "invoke"%string ∈ k_Permissions k).

Definition signed_authority (now : Z) (secrets : option (gmap string string)) (i : invocation) : Prop :=
  exists m secret ts, secrets = Some m /\ m !! SigningSecretKey = Some secret /\ secret <> ""%string /\
    parseInt64 (h_Timestamp i) = Some ts /\ (now - 300 <= ts <= now + 300 \/ ts = now + int64_min) /\
    h_Signature i = signature_of secret (h_Timestamp i) (i_body i).

Lemma invoke_platform_spec e r d : invoke_platform e r d = Ok tt <-> platform_authority e r d.
Proof.
  unfold invoke_platform, platform_authority, session_admits, GetAPIKeyByHash.
  set (S := exists tok u, _). set (b := match c_session r with Some _ => _ | None => _ end).
  assert (b = true <-> S) as HS.
  { subst b S. destruct (c_session r) as [tok|]; [|split; [done|by intros (? & ? & ? & _)]].
    rewrite andb_true_iff, bool_decide_eq_true. split.
    - intros [? [u Hu]]. by exists tok, u.
    - intros (t & u & [= <-] & ? & Hu). split; [done|by eexists]. }
  clearbody b S. destruct b; [split; [left; by apply HS|done]|].
  assert (~ S) as HnS by (intros ?%HS; done). clear HS.
  case_bool_decide as E0; [split; [done|intros [?|(k & ? & _)]; done]|].
  destruct (key_db_ok e); [|split; [done|intros [?|(k & _ & ? & _)]; done]].
  destruct (api_keys d !! _) as [k|]; [|split; [done|intros [?|(k & _ & _ & ? & _)]; done]].
  destruct (expired (now_expiry e) k) eqn:Ex; [split; [done|intros [?|(k' & _ & _ & [= <-] & ? & _)]; congruence]|].
  case_bool_decide as Ep; split; try done.
  - right. by exists k.
  - intros [?|(k' & _ & _ & [= <-] & _ & ?)]; done.
Qed.

Lemma invoke_signed_spec e secrets i :
  0 <= now_expiry e / second <= 4611686018427387904 ->
  invoke_signed e secrets i = Ok tt <-> signed_authority (now_expiry e / second) secrets i.
Proof.
  intros Hnow. unfold invoke_signed, signed_authority.
  destruct (secrets ≫= _) as [secret|] eqn:Es.
  2: { split; [done|]. intros (m & s & ts & -> & Hm & _). cbn in Es. congruence. }
  apply bind_Some in Es as (m & -> & Hm).
  case_bool_decide as E0; [split; [done|]; intros (m' & s & ts & [= <-] & Hm' & Hs & _); congruence|].
  destruct (bool_decide (h_Signature i = EmptyString) || bool_decide (h_Timestamp i = EmptyString)) eqn:E1.
  { split; [done|]. intros (_ & s & ts & _ & _ & _ & Hts & _ & Hsig). apply orb_true_iff in E1.
    rewrite !bool_decide_eq_true in E1. destruct E1 as [E1|E1]; rewrite E1 in *; done. }
  destruct (parseInt64 _) as [ts|] eqn:Ets; [|split; [done|]; by intros (_ & s & ts & _ & _ & _ & ? & _)].
  pose proof (skew_window _ _ Hnow (parseInt64_range _ _ Ets)) as Hw.
  destruct (5 * 60 <? _).
  { split; [done|]. intros (_ & s & ts' & _ & _ & _ & [= <-] & Hin & _). by apply Hw in Hin. }
  clear E1. case_bool_decide as E2; split; try done.
  - intros _. exists m, secret, ts. split_and!; try done. by apply Hw.
  - intros (m' & s & ts' & [= <-] & Hm' & _ & _ & _ & ?). congruence.
Qed.

(** A call of a function's own endpoint is admitted exactly when its
    mode is open; or it needs the platform's authority and carries a valid
    session or an unexpired key with the invoke permission; or it must be
    signed and its signature is the MAC, under the function's configured
    secret, of the timestamp header and the body, the timestamp being within
    five minutes of now -- or exactly 2^63 seconds behind it, where the
    subtraction overflows and [abs] keeps the negative.  Any other mode and
    a signed function without a secret admit nothing. *)
Theorem invoke_auth_exact e mode secrets i d :
  0 <= now_expiry e / second <= 4611686018427387904 ->
  authorizeInvoke e mode secrets i d = Ok tt <->
  (mode = ""%string \/ mode = AuthModeNone \/
   mode = AuthModePlatformKey /\ platform_authority e (i_request i) d \/
   mode = AuthModeSigned /\ signed_authority (now_expiry e / second) secrets i).
Proof.
  intros Hnow. rewrite <- invoke_platform_spec, <- invoke_signed_spec by done.
  destruct (decide (mode = EmptyString)) as [->|E0]; [split; [by left|by intros _]|].
  unfold authorizeInvoke. rewrite (bool_decide_eq_false_2 _ E0).
  case_bool_decide as E1; [split; [by right; left|done]|]. case_bool_decide as E2.
  { subst mode. split; [by right; right; left|]. intros [?|[?|[[_ ?]|[? _]]]]; done. }
  case_bool_decide as E3; [subst mode; split; [by right; right; right|]; intros [?|[?|[[? _]|[_ ?]]]]; done|].
  split; [done|]. intros [?|[?|[[? _]|[? _]]]]; done.
Qed.

(* ------------------------------------------------------------------ *)
(** ** Witnesses *)

Definition demo_key : APIKey := MkAPIKey "k1" "ci" ["read"%string; "invoke"%string] None.

Definition demo_db : authdb :=
  AuthDB {[ "feedfacefeedface"%string := Session "ada" (2000 * second) ]} {[ key_hash "orva_k" := demo_key ]}.

Definition demo_env (t : Z) : env := Env t t t true true.

Definition demo_get : request := Request "GET" "/api/v1/functions" "" "orva_k" "" None.

(** The key is used, revoked in the database, and used again from the cache. *)
Definition demo_before : list gevent := [GRequest (demo_env (1000 * second)) demo_get].
Definition demo_revoked : authdb := AuthDB (sessions demo_db) ∅.
Definition demo_gate (evs : list gevent) : gate := default (gate_start 0 demo_db None) (grun evs (gate_start 0 demo_db None)).

Lemma gate_admits_only_authorised_witness :
  exists k, MkActor "api" "api_key" "k1" "ci" = MkActor "api" "api_key" (k_ID k) (k_Name k) /\
    "read"%string ∈ k_Permissions k.
Proof.
  destruct (gate_admits_only_authorised demo_before 0 demo_db None (demo_gate demo_before) (demo_env (1020 * second))
    demo_get (demo_gate (demo_before ++ [GRequest (demo_env (1020 * second)) demo_get]))
    (Some (MkActor "api" "api_key" "k1" "ci"))) as [(H & _)|[(tok & l & H & _)|(k & Ha & _ & _ & _ & _ & Hp)]];
    [vm_compute; reflexivity|vm_compute; reflexivity|discriminate H|discriminate H|].
  exists k. split; [exact Ha|exact Hp].
Defined.

Definition demo_later : list gevent :=
  [GDatabase (1001 * second) demo_revoked; GRequest (demo_env (1020 * second)) demo_get].

(** Another key is still let through, and it is not the revoked one. *)
Definition demo_cookie : request := Request "GET" "/api/v1/functions" "" "orva_k" "" (Some "feedfacefeedface"%string).

Lemma revocation_is_bounded_witness :
  ~ (a_Type (MkActor "web" "session" "feedface" "ada") = "api_key"%string /\ key_hash (bearer demo_cookie) = key_hash "orva_k").
Proof.
  refine (proj1 (revocation_is_bounded
    (demo_before ++ [GDatabase (1001 * second) demo_revoked]) 0 demo_db None
    (demo_gate (demo_before ++ [GDatabase (1001 * second) demo_revoked]))
    [GRequest (demo_env (1020 * second)) demo_get]
    (demo_gate (demo_before ++ demo_later)) (demo_env (1040 * second)) demo_cookie
    (demo_gate (demo_before ++ demo_later ++ [GRequest (demo_env (1040 * second)) demo_cookie]))
    (MkActor "web" "session" "feedface" "ada") _ _ _) (key_hash "orva_k") _ _ _);
    [vm_compute; reflexivity..|repeat constructor|right; vm_compute; discriminate].
Defined.

Definition demo_body : list Z := bytes "{}".
Definition demo_call : invocation :=
  Invocation (Request "POST" "/fn/f" "" "" "" None) (signature_of "s3cret" "1000" demo_body) "1000" demo_body.

Lemma invoke_auth_exact_witness :
  authorizeInvoke (demo_env (1300 * second)) AuthModeSigned (Some {[ SigningSecretKey := "s3cret"%string ]}) demo_call demo_db = Ok tt.
Proof.
  apply invoke_auth_exact; [vm_compute; split; discriminate|]. right. right. right. split; [reflexivity|].
  exists {[ SigningSecretKey := "s3cret"%string ]}, "s3cret"%string, 1000. split_and!; try reflexivity.
  - discriminate.
  - left. vm_compute. split; discriminate.
Defined.
