(* ===== verification/Netip.v ===== *)
(** * IP addresses and prefixes ([net/netip])

    What the firewall uses of the standard library's [netip]: parsing and
    printing of IPv4 and IPv6 addresses (zones, the double colon, embedded
    IPv4) and of CIDR prefixes, masking and containment.  Texts are byte
    lists. *)
From S2P Require Import Prelude GoText.
Open Scope Z_scope.

(* ------------------------------------------------------------------ *)
(** ** Addresses *)

(** The zero [netip.Addr], a 32-bit address, or a 128-bit one with its zone. *)
Inductive Addr := AddrZero | V4 (a : Z) | V6 (a : Z) (zone : list Z).

#[export] Instance Addr_eq_dec : EqDecision Addr.
Proof. solve_decision. Defined.

Definition IsValid (a : Addr) : bool := match a with AddrZero => false | _ => true end.
Definition Is4 (a : Addr) : bool := match a with V4 _ => true | _ => false end.
Definition Is6 (a : Addr) : bool := match a with V6 _ _ => true | _ => false end.
Definition Is4In6 (a : Addr) : bool := match a with V6 a _ => Z.shiftr a 32 =? 0xffff | _ => false end.
Definition Unmap (a : Addr) : Addr :=
  match a with V6 x _ => if Is4In6 a then V4 (Z.land x 0xffffffff) else a | _ => a end.
Definition BitLen (a : Addr) : Z := match a with AddrZero => 0 | V4 _ => 32 | V6 _ _ => 128 end.
Definition hasZone (a : Addr) : bool := match a with V6 _ (_ :: _) => true | _ => false end.
Definition IsUnspecified (a : Addr) : bool :=
  match a with V4 x => x =? 0 | V6 x [] => x =? 0 | _ => false end.
Definition IsLoopback (a : Addr) : bool :=
  match Unmap a with V4 x => Z.shiftr x 24 =? 127 | V6 x _ => x =? 1 | AddrZero => false end.
Definition withoutZone (a : Addr) : Addr := match a with V6 x _ => V6 x [] | _ => a end.

(* ------------------------------------------------------------------ *)
(** ** Parsing *)

(** [parseIPv4Fields]; [prev] is the byte before the cursor. *)
Fixpoint fields4 (s : list Z) (prev : option Z) (val : Z) (digLen : nat) (fields : list Z) : option (list Z) :=
  match s with
  | [] => if (length fields =? 3)%nat then Some (fields ++ [val]) else None
  | c :: r =>
    if is_digit c then
      if (digLen =? 1)%nat && (val =? 0) then None
      else
        let val := val * 10 + (c - 48) in
        if 255 <? val then None else fields4 r (Some c) val (S digLen) fields
    else if c =? 46 then
      if bool_decide (prev = None) || bool_decide (r = []) || bool_decide (prev = Some 46) then None
      else if (length fields =? 3)%nat then None
      else fields4 r (Some c) 0 0 (fields ++ [val])
    else None
  end.

Definition of_fields4 (l : list Z) : Z := foldl (fun acc b => acc * 256 + b) 0 l.

Definition parseIPv4 (s : list Z) : option Addr := V4 ∘ of_fields4 <$> fields4 s None 0 0 [].

Definition hexval (c : Z) : option Z :=
  if is_digit c then Some (c - 48)
  else if (97 <=? c) && (c <=? 102) then Some (c - 87)
  else if (65 <=? c) && (c <=? 70) then Some (c - 55)
  else None.

(** At most four hexadecimal digits: how many, their value, the rest. *)
Fixpoint hex_run (off : nat) (acc : Z) (s : list Z) : option (nat * Z * list Z) :=
  match s with
  | [] => Some (off, acc, [])
  | c :: r =>
    match hexval c with
    | Some v => if (3 <? off)%nat then None else hex_run (S off) (acc * 16 + v) r
    | None => Some (off, acc, s)
    end
  end.

(** The loop over the 16-bit groups: those read so far, where the double
    colon stood, and what is left of the text; [fuel] is the room left. *)
Fixpoint groups6 (fuel : nat) (gs : list Z) (ellipsis : option nat) (s : list Z)
  : option (list Z * option nat * list Z) :=
  match fuel with
  | O => Some (gs, ellipsis, s)
  | S fuel =>
    match hex_run 0 0 s with
    | None | Some (O, _, _) => None
    | Some (_, acc, rest) =>
      match rest with
      | [] => Some (gs ++ [acc], ellipsis, [])
      | c :: rest' =>
        if c =? 46 then
          if bool_decide (ellipsis = None) && negb (length gs =? 6)%nat then None
          else if (8 <? length gs + 2)%nat then None
          else
            match fields4 s None 0 0 [] with
            | Some [a; b; c; d] => Some (gs ++ [a * 256 + b; c * 256 + d], ellipsis, [])
            | _ => None
            end
        else if negb (c =? 58) then None
        else
          match rest' with
          | [] => None
          | c' :: rest'' =>
            if c' =? 58 then
              if bool_decide (ellipsis <> None) then None
              else match rest'' with
                   | [] => Some (gs ++ [acc], Some (length gs + 1)%nat, [])
                   | _ => groups6 fuel (gs ++ [acc]) (Some (length gs + 1)%nat) rest''
                   end
            else groups6 fuel (gs ++ [acc]) ellipsis rest'
          end
      end
    end
  end.

Definition of_groups (gs : list Z) : Z := foldl (fun acc g => acc * 65536 + g) 0 gs.

(** After the loop: everything used, the double colon filled with zeros. *)
Definition finish6 (r : list Z * option nat * list Z) : option Z :=
  let '(gs, ellipsis, s) := r in
  if bool_decide (s <> []) then None
  else if (length gs <? 8)%nat then
    match ellipsis with
    | None => None
    | Some e => Some (of_groups (take e gs ++ replicate (8 - length gs) 0 ++ drop e gs))
    end
  else if bool_decide (ellipsis <> None) then None
  else Some (of_groups gs).

Definition read6 (s : list Z) : option Z :=
  match s with
  | 58 :: 58 :: r => match r with [] => Some 0 | _ => groups6 8 [] (Some 0%nat) r ≫= finish6 end
  | _ => groups6 8 [] None s ≫= finish6
  end.

Fixpoint cut (c : Z) (s : list Z) : list Z * option (list Z) :=
  match s with
  | [] => ([], None)
  | x :: r => if x =? c then ([], Some r) else let '(a, b) := cut c r in (x :: a, b)
  end.

(** [bytes.Split] at one byte. *)
Fixpoint split (c : Z) (s : list Z) : list (list Z) :=
  match s with
  | [] => [[]]
  | x :: s => if x =? c then [] :: split c s
              else match split c s with l :: ls => (x :: l) :: ls | [] => [[x]] end
  end.

Definition parseIPv6 (s : list Z) : option Addr :=
  let '(s, zone) := cut 37 s in
  match zone with
  | Some [] => None
  | _ => a ← read6 s; Some (V6 a (default [] zone))
  end.

Definition ParseAddr (s : list Z) : option Addr :=
  match List.find (fun c => (c =? 46) || (c =? 58) || (c =? 37)) s with
  | Some 46 => parseIPv4 s
  | Some 58 => parseIPv6 s
  | _ => None
  end.

(* ------------------------------------------------------------------ *)
(** ** Printing *)

(** Digits of [n] in [base], most significant first; [fuel] bounds their number. *)
Fixpoint fmt_base (base : Z) (fuel : nat) (n : Z) (acc : list Z) : list Z :=
  match fuel with
  | O => acc
  | S fuel =>
    let d := n mod base in
    let acc := (if d <? 10 then 48 + d else 87 + d) :: acc in
    if n <? base then acc else fmt_base base fuel (n / base) acc
  end.

Definition itoa (n : Z) : list Z := fmt_base 10 20 n [].
Definition hexa (n : Z) : list Z := fmt_base 16 4 n [].

Fixpoint join (sep : list Z) (l : list (list Z)) : list Z :=
  match l with [] => [] | [x] => x | x :: l => x ++ sep ++ join sep l end.

Definition octets (a : Z) : list Z := [Z.shiftr a 24; Z.land (Z.shiftr a 16) 255; Z.land (Z.shiftr a 8) 255; Z.land a 255].
Definition groups (a : Z) : list Z :=
  map (fun i => Z.land (Z.shiftr a (16 * i)) 65535) [7; 6; 5; 4; 3; 2; 1; 0].

Definition text4 (a : Z) : list Z := join [46] (map itoa (octets a)).

(** The length of the run of zeros at the front. *)
Fixpoint zero_run (gs : list Z) : nat :=
  match gs with g :: gs => if g =? 0 then S (zero_run gs) else O | [] => O end.

(** The first of the longest runs of at least two zero groups: where it
    starts and how long it is. *)
Fixpoint best_run (i : nat) (gs : list Z) (best : nat * nat) : nat * nat :=
  match gs with
  | [] => best
  | _ :: gs' =>
    let l := zero_run gs in
    best_run (S i) gs' (if (2 <=? l)%nat && (snd best <? l)%nat then (i, l) else best)
  end.

Definition text6 (a : Z) : list Z :=
  let gs := groups a in
  let '(start, n) := best_run 0 gs (0%nat, 0%nat) in
  if (n =? 0)%nat then join [58] (map hexa gs)
  else join [58] (map hexa (take start gs)) ++ [58; 58] ++ join [58] (map hexa (drop (start + n) gs)).

Definition zone_text (z : list Z) : list Z := match z with [] => [] | _ => 37 :: z end.

Definition AddrString (a : Addr) : list Z :=
  match a with
  | AddrZero => bytes "invalid IP"
  | V4 x => text4 x
  | V6 x z =>
    if Is4In6 a then bytes "::ffff:" ++ text4 (Z.land x 0xffffffff) ++ zone_text z else text6 x ++ zone_text z
  end.

(* ------------------------------------------------------------------ *)
(** ** Prefixes *)

(** [p_bits] is -1 for an invalid prefix. *)
Record Prefix := MkPrefix { p_addr : Addr; p_bits : Z }.

#[export] Instance Prefix_eq_dec : EqDecision Prefix.
Proof. solve_decision. Defined.

Definition PrefixFrom (a : Addr) (bits : Z) : Prefix :=
  MkPrefix (withoutZone a) (if IsValid a && (0 <=? bits) && (bits <=? BitLen a) then bits else -1).

Definition PrefixIsValid (p : Prefix) : bool := 0 <=? p_bits p.

(** Clear the low bits of a [w]-bit address. *)
Definition mask (w bits x : Z) : Z := Z.shiftl (Z.shiftr x (w - bits)) (w - bits).

Definition Masked (p : Prefix) : Prefix :=
  if PrefixIsValid p then
    match p_addr p with
    | V4 x => MkPrefix (V4 (mask 32 (p_bits p) x)) (p_bits p)
    | V6 x z => MkPrefix (V6 (mask 128 (p_bits p) x) z) (p_bits p)
    | AddrZero => p
    end
  else MkPrefix AddrZero (-1).

Definition Contains (p : Prefix) (a : Addr) : bool :=
  PrefixIsValid p && negb (hasZone a) &&
  match p_addr p, a with
  | V4 x, V4 y => Z.shiftr (Z.lxor x y) (32 - p_bits p) =? 0
  | V6 x _, V6 y _ => Z.shiftr (Z.lxor x y) (128 - p_bits p) =? 0
  | _, _ => false
  end.

Definition PrefixString (p : Prefix) : list Z :=
  if PrefixIsValid p then AddrString (p_addr p) ++ [47] ++ itoa (p_bits p) else bytes "invalid Prefix".

(** Split at the last [c]. *)
Definition cut_last (c : Z) (s : list Z) : option (list Z * list Z) :=
  let '(a, b) := cut c (rev s) in match b with Some b => Some (rev b, rev a) | None => None end.

Definition ParsePrefix (s : list Z) : option Prefix :=
  '(host, bitsStr) ← cut_last 47 s;
  ip ← ParseAddr host;
  if hasZone ip then None
  else if (1 <? length bitsStr)%nat && match bitsStr with c :: _ => (c <? 49) || (57 <? c) | [] => false end then None
  else
    bits ← parseInt64 (of_bytes bitsStr);
    if (bits <? 0) || (BitLen ip <? bits) then None else Some (PrefixFrom ip bits).

Example addr_texts :
  map (fun s => AddrString <$> ParseAddr (bytes s))
    ["10.0.0.1"; "::1"; "2001:DB8:0:0:1:0:0:1"; "::ffff:1.2.3.4"; "fe80::1%eth0"; "1::"; "::"; "1:2:3:4:5:6:7::"; "0:0:1::"]%string =
  map (fun s => Some (bytes s))
    ["10.0.0.1"; "::1"; "2001:db8::1:0:0:1"; "::ffff:1.2.3.4"; "fe80::1%eth0"; "1::"; "::"; "1:2:3:4:5:6:7:0"; "0:0:1::"]%string.
Proof. vm_compute. reflexivity. Qed.

Example addr_errors :
  forallb (fun s => bool_decide (ParseAddr (bytes s) = None))
    [""; "10.0.0"; "10.0.0.256"; "10.0.0.01"; "1.2.3.4."; "1..2.3"; "1:2"; ":::"; "1::2::3"; "12345::"; "1:2:3:4:5:6:7:8:9";
     "fe80::1%"; "::1.2.3"; "1:2:3:4:5:6:7:1.2.3.4"; "1:"; ":1"; "g::"]%string = true.
Proof. vm_compute. reflexivity. Qed.

(* ------------------------------------------------------------------ *)
(** ** Lemmas *)

Lemma land_mod x n : 0 <= n -> Z.land x (2 ^ n - 1) = x mod 2 ^ n.
Proof. intros. rewrite <- Z.land_ones, Z.ones_equiv by done. f_equal. Qed.

Lemma octets_range a : 0 <= a < 2 ^ 32 -> Forall (fun b => 0 <= b < 256) (octets a).
Proof.
  intros. unfold octets. rewrite !Z.shiftr_div_pow2 by lia.
  change 255 with (2 ^ 8 - 1). rewrite !land_mod by lia. change (2 ^ 8) with 256.
  repeat apply Forall_cons_2; try apply Forall_nil_2; try (apply Z.mod_pos_bound; lia).
  split; [apply Z.div_pos; lia|apply Z.div_lt_upper_bound; lia].
Qed.

Lemma of_octets a : of_fields4 (octets a) = a.
Proof.
  unfold octets, of_fields4. cbn [foldl]. rewrite !Z.shiftr_div_pow2 by lia.
  change 255 with (2 ^ 8 - 1). rewrite !land_mod by lia.
  change (2 ^ 24) with (256 * 256 * 256). change (2 ^ 16) with (256 * 256). change (2 ^ 8) with 256.
  rewrite <- !Z.div_div by lia. pose proof (Z.div_mod a 256 ltac:(lia)).
  pose proof (Z.div_mod (a / 256) 256 ltac:(lia)). pose proof (Z.div_mod (a / 256 / 256) 256 ltac:(lia)). lia.
Qed.

Lemma groups_range a : Forall (fun g => 0 <= g < 65536) (groups a).
Proof.
  unfold groups. apply Forall_forall. intros g (i & -> & _)%list_elem_of_fmap.
  rewrite (land_mod _ 16) by lia. apply Z.mod_pos_bound. lia.
Qed.

Lemma shiftr_step a i : 0 <= i -> Z.shiftr a (16 * (i + 1)) = Z.shiftr a (16 * i) / 65536.
Proof.
  intros. replace (16 * (i + 1)) with (16 * i + 16) by lia. rewrite <- Z.shiftr_shiftr by lia.
  by rewrite (Z.shiftr_div_pow2 _ 16) by lia.
Qed.

Lemma of_groups_groups a : 0 <= a < 2 ^ 128 -> of_groups (groups a) = a.
Proof.
  intros Ha. unfold groups, of_groups. cbn [map foldl]. change 65535 with (2 ^ 16 - 1). rewrite !land_mod by lia.
  change (2 ^ 16) with 65536.
  set (s i := Z.shiftr a (16 * i)).
  assert (forall i, 0 <= i -> s (i + 1) = s i / 65536) as Hs by (intros; by apply shiftr_step).
  assert (s 0 = a) as H0 by done.
  assert (s 8 = 0) as H8.
  { unfold s. rewrite Z.shiftr_div_pow2 by lia. apply Z.div_small. exact Ha. }
  change (Z.shiftr a (16 * 7)) with (s 7). change (Z.shiftr a (16 * 6)) with (s 6). change (Z.shiftr a (16 * 5)) with (s 5).
  change (Z.shiftr a (16 * 4)) with (s 4). change (Z.shiftr a (16 * 3)) with (s 3). change (Z.shiftr a (16 * 2)) with (s 2).
  change (Z.shiftr a (16 * 1)) with (s 1). change (Z.shiftr a (16 * 0)) with (s 0). clear Ha.
  assert (forall i, 0 <= i -> s i = s (i + 1) * 65536 + s i mod 65536) as Hd.
  { intros i Hi. rewrite Hs by done. pose proof (Z.div_mod (s i) 65536 ltac:(lia)). lia. }
  pose proof (Hd 0 ltac:(lia)). pose proof (Hd 1 ltac:(lia)). pose proof (Hd 2 ltac:(lia)). pose proof (Hd 3 ltac:(lia)).
  pose proof (Hd 4 ltac:(lia)). pose proof (Hd 5 ltac:(lia)). pose proof (Hd 6 ltac:(lia)). pose proof (Hd 7 ltac:(lia)).
  clear Hd Hs. clearbody s. change (0 + 1) with 1 in *. change (1 + 1) with 2 in *. change (2 + 1) with 3 in *.
  change (3 + 1) with 4 in *. change (4 + 1) with 5 in *. change (5 + 1) with 6 in *. change (6 + 1) with 7 in *.
  change (7 + 1) with 8 in *. lia.
Qed.

(** Reading back one octet, whatever follows and whatever came before. *)
Lemma read_octet b : 0 <= b < 256 -> forall rest prev fields,
  exists d n, d <> 46 /\ fields4 (itoa b ++ rest) prev 0 0 fields = fields4 rest (Some d) b (S n) fields /\ itoa b <> [].
Proof.
  intros Hb.
  assert (Forall (fun b => forall rest prev fields, exists d n, d <> 46 /\
    fields4 (itoa b ++ rest) prev 0 0 fields = fields4 rest (Some d) b (S n) fields /\ itoa b <> []) (seqZ 0 256)) as Hall.
  { vm_compute seqZ.
    repeat (apply Forall_cons_2; [intros; do 2 eexists; split; [|split; [reflexivity|discriminate]]; discriminate|]).
    apply Forall_nil_2. }
  rewrite Forall_forall in Hall. apply Hall. apply elem_of_seqZ. lia.
Qed.

Lemma read_text4 x : 0 <= x < 2 ^ 32 -> fields4 (text4 x) None 0 0 [] = Some (octets x).
Proof.
  intros Hx. pose proof (octets_range x Hx) as Hr. unfold text4, octets in *. cbn [map join].
  rewrite !Forall_cons in Hr. destruct Hr as (H1 & H2 & H3 & H4 & _).
  revert H1 H2 H3 H4. generalize (Z.shiftr x 24) (Z.land (Z.shiftr x 16) 255) (Z.land (Z.shiftr x 8) 255) (Z.land x 255).
  intros a b c d Ha Hb Hc Hd.
  destruct (read_octet a Ha ([46] ++ itoa b ++ [46] ++ itoa c ++ [46] ++ itoa d) None []) as (da & na & Hna & -> & _).
  destruct (read_octet b Hb ([46] ++ itoa c ++ [46] ++ itoa d) (Some 46) [a]) as (db & nb & Hnb & Eb & Nb).
  destruct (read_octet c Hc ([46] ++ itoa d) (Some 46) [a; b]) as (dc & nc & Hnc & Ec & Nc).
  destruct (read_octet d Hd [] (Some 46) [a; b; c]) as (dd & nd & Hnd & Ed & Nd).
  assert (forall d, d <> 46 -> bool_decide (Some d = Some 46) = false) as Hne by (intros; apply bool_decide_eq_false; congruence).
  assert (forall l r : list Z, l <> [] -> bool_decide (l ++ r = []) = false) as Hnn.
  { intros [|] r Hl; [done|]. by apply bool_decide_eq_false. }
  cbn -[itoa bool_decide Nat.eqb]. rewrite (bool_decide_false (Some da = None)), Hne, Hnn by done. cbn -[itoa bool_decide].
  change (itoa b ++ 46 :: itoa c ++ 46 :: itoa d) with (itoa b ++ [46] ++ itoa c ++ [46] ++ itoa d). rewrite Eb.
  cbn -[itoa bool_decide]. rewrite (bool_decide_false (Some db = None)), Hne, Hnn by done. cbn -[itoa bool_decide].
  change (itoa c ++ 46 :: itoa d) with (itoa c ++ [46] ++ itoa d). rewrite Ec.
  cbn -[itoa bool_decide]. rewrite (bool_decide_false (Some dc = None)), Hne by done.
  rewrite <- (app_nil_r (itoa d)), Hnn by done. cbn -[itoa bool_decide]. rewrite Ed. reflexivity.
Qed.

Definition hex_digit_of (d : Z) : Z := if d <? 10 then 48 + d else 87 + d.

Lemma hexval_digit d : 0 <= d < 16 -> hexval (hex_digit_of d) = Some d.
Proof.
  intros Hd. assert (Forall (fun d => hexval (hex_digit_of d) = Some d) (seqZ 0 16)) as Hall.
  { vm_compute. repeat constructor. }
  rewrite Forall_forall in Hall. apply Hall, elem_of_seqZ. lia.
Qed.

Definition no_hex (rest : list Z) : Prop := match rest with [] => True | c :: _ => hexval c = None end.

Lemma hex_run_stop n acc rest : no_hex rest -> hex_run n acc rest = Some (n, acc, rest).
Proof. destruct rest as [|c rest]; cbn; [done|]. by intros ->. Qed.

Lemma read_hexa g rest : 0 <= g < 65536 -> no_hex rest -> exists n, hex_run 0 0 (hexa g ++ rest) = Some (S n, g, rest).
Proof.
  intros Hg Hrest. unfold hexa. cbn [fmt_base].
  change (if g mod 16 <? 10 then _ else _) with (hex_digit_of (g mod 16)).
  change (if g / 16 mod 16 <? 10 then _ else _) with (hex_digit_of (g / 16 mod 16)).
  change (if g / 16 / 16 mod 16 <? 10 then _ else _) with (hex_digit_of (g / 16 / 16 mod 16)).
  change (if g / 16 / 16 / 16 mod 16 <? 10 then _ else _) with (hex_digit_of (g / 16 / 16 / 16 mod 16)).
  pose proof (Z.div_mod g 16 ltac:(lia)) as D0. pose proof (Z.mod_pos_bound g 16 ltac:(lia)) as M0.
  pose proof (Z.div_mod (g / 16) 16 ltac:(lia)) as D1. pose proof (Z.mod_pos_bound (g / 16) 16 ltac:(lia)) as M1.
  pose proof (Z.div_mod (g / 16 / 16) 16 ltac:(lia)) as D2. pose proof (Z.mod_pos_bound (g / 16 / 16) 16 ltac:(lia)) as M2.
  pose proof (Z.div_mod (g / 16 / 16 / 16) 16 ltac:(lia)) as D3.
  pose proof (Z.mod_pos_bound (g / 16 / 16 / 16) 16 ltac:(lia)) as M3.
  destruct (Z.ltb_spec g 16).
  { eexists. cbn [app hex_run]. rewrite hexval_digit by done. cbn [Nat.ltb Nat.leb]. rewrite hex_run_stop by done.
    do 3 f_equal. lia. }
  destruct (Z.ltb_spec (g / 16) 16).
  { eexists. cbn [app hex_run]. rewrite !hexval_digit by done. cbn [Nat.ltb Nat.leb]. rewrite hex_run_stop by done.
    do 3 f_equal. lia. }
  destruct (Z.ltb_spec (g / 16 / 16) 16).
  { eexists. cbn [app hex_run]. rewrite !hexval_digit by done. cbn [Nat.ltb Nat.leb]. rewrite hex_run_stop by done.
    do 3 f_equal. lia. }
  eexists. destruct (g / 16 / 16 / 16 <? 16); cbn [app hex_run]; rewrite !hexval_digit by done; cbn [Nat.ltb Nat.leb];
    rewrite hex_run_stop by done; do 3 f_equal; lia.
Qed.

Lemma hexa_start g : exists d r, hexa g = hex_digit_of d :: r /\ 0 <= d < 16.
Proof.
  unfold hexa. cbn [fmt_base].
  pose proof (Z.mod_pos_bound g 16 ltac:(lia)). pose proof (Z.mod_pos_bound (g / 16) 16 ltac:(lia)).
  pose proof (Z.mod_pos_bound (g / 16 / 16) 16 ltac:(lia)). pose proof (Z.mod_pos_bound (g / 16 / 16 / 16) 16 ltac:(lia)).
  destruct (g <? 16); [by eauto|]. destruct (g / 16 <? 16); [by eauto|]. destruct (g / 16 / 16 <? 16); [by eauto|].
  destruct (g / 16 / 16 / 16 <? 16); by eauto.
Qed.

Lemma digit_plain d : 0 <= d < 16 -> hex_digit_of d <> 58 /\ hex_digit_of d <> 46 /\ hex_digit_of d <> 37.
Proof. unfold hex_digit_of. intros. destruct (Z.ltb_spec d 10); lia. Qed.

(** Reading groups joined by colons, to the end of the text or to the double colon. *)
Lemma read_groups l : forall fuel gs ell,
  Forall (fun g => 0 <= g < 65536) l -> l <> [] -> (length l <= fuel)%nat ->
  groups6 fuel gs ell (join [58] (map hexa l)) = Some (gs ++ l, ell, []).
Proof.
  induction l as [|g l IH]; intros [|fuel] gs ell Hl Hne Hf; try done; [cbn in Hf; lia|].
  apply Forall_cons in Hl as [Hg Hl]. cbn [map join groups6]. destruct l as [|g' l].
  - destruct (read_hexa g [] Hg I) as [n En]. rewrite app_nil_r in En. cbn [map]. by rewrite En.
  - cbn [map]. destruct (read_hexa g ([58] ++ join [58] (map hexa (g' :: l))) Hg eq_refl) as [n En].
    cbn [map] in En. rewrite En. cbn [app Z.eqb Pos.eqb negb].
    destruct (hexa_start g') as (d & r & Ed & Hd). destruct (digit_plain d Hd) as (Hd1 & _).
    assert (exists t, join [58] (hexa g' :: map hexa l) = hex_digit_of d :: t) as [t Et].
    { rewrite Ed. destruct l; cbn; eauto. }
    rewrite Et. apply Z.eqb_neq in Hd1. rewrite Hd1. rewrite <- Et.
    change (hexa g' :: map hexa l) with (map hexa (g' :: l)). rewrite IH; [by rewrite <- app_assoc|done|done|cbn in *; lia].
Qed.

Lemma read_groups_gap l : forall fuel gs r,
  Forall (fun g => 0 <= g < 65536) l -> l <> [] -> (length l <= fuel)%nat ->
  groups6 fuel gs None (join [58] (map hexa l) ++ [58; 58] ++ r) =
  match r with
  | [] => Some (gs ++ l, Some (length gs + length l)%nat, [])
  | _ => groups6 (fuel - length l) (gs ++ l) (Some (length gs + length l)%nat) r
  end.
Proof.
  induction l as [|g l IH]; intros [|fuel] gs r Hl Hne Hf; try done; [cbn in Hf; lia|].
  apply Forall_cons in Hl as [Hg Hl]. cbn [map join groups6]. destruct l as [|g' l].
  - destruct (read_hexa g ([58; 58] ++ r) Hg eq_refl) as [n En]. cbn [map]. rewrite En.
    cbn -[groups6 Nat.add Nat.sub length]. destruct r; [done|]. change (length [g]) with 1%nat. by replace (S fuel - 1)%nat with fuel by lia.
  - cbn [map]. rewrite <- app_assoc, <- app_assoc.
    destruct (read_hexa g ([58] ++ join [58] (map hexa (g' :: l)) ++ [58; 58] ++ r) Hg eq_refl) as [n En].
    cbn [map] in En. rewrite En. cbn [app Z.eqb Pos.eqb negb].
    destruct (hexa_start g') as (d & t & Ed & Hd). destruct (digit_plain d Hd) as (Hd1 & _).
    assert (exists t, join [58] (hexa g' :: map hexa l) ++ 58 :: 58 :: r = hex_digit_of d :: t) as [t' Et].
    { rewrite Ed. destruct l; cbn; eauto. }
    rewrite Et. apply Z.eqb_neq in Hd1. rewrite Hd1. rewrite <- Et.
    change (hexa g' :: map hexa l) with (map hexa (g' :: l)). change (58 :: 58 :: r) with ([58; 58] ++ r).
    rewrite IH; [|done|done|cbn in *; lia]. rewrite <- app_assoc, length_app. cbn [length].
    replace (length gs + 1 + S (length l))%nat with (length gs + S (S (length l)))%nat by lia. done.
Qed.

Lemma zero_run_spec gs : gs = replicate (zero_run gs) 0 ++ drop (zero_run gs) gs.
Proof.
  induction gs as [|g gs IH]; [done|]. cbn [zero_run]. destruct (Z.eqb_spec g 0) as [->|]; [|done].
  cbn [replicate drop app]. by rewrite <- IH.
Qed.

Lemma zero_run_length gs : (zero_run gs <= length gs)%nat.
Proof. induction gs as [|g gs IH]; cbn; [done|]. destruct (g =? 0); lia. Qed.

(** A run of zeros worth two colons. *)
Definition gap (gs : list Z) (r : nat * nat) : Prop :=
  snd r = 0%nat \/
  (2 <= snd r)%nat /\ (fst r + snd r <= length gs)%nat /\ gs = take (fst r) gs ++ replicate (snd r) 0 ++ drop (fst r + snd r) gs.

Lemma best_run_gap pre suf best : gap (pre ++ suf) best -> gap (pre ++ suf) (best_run (length pre) suf best).
Proof.
  revert pre best. induction suf as [|g suf IH]; intros pre best Hb; [done|].
  cbn [best_run]. replace (pre ++ g :: suf) with ((pre ++ [g]) ++ suf) in * by (by rewrite <- app_assoc).
  replace (S (length pre)) with (length (pre ++ [g])) by (rewrite length_app; cbn; lia).
  apply IH. destruct (_ && _) eqn:E; [|done]. right. cbn [fst snd].
  apply andb_true_iff in E as [E _]. apply Nat.leb_le in E. pose proof (zero_run_length (g :: suf)) as Hl.
  rewrite <- app_assoc. cbn [app]. split; [lia|]. split; [rewrite length_app; lia|].
  rewrite take_app_length, drop_app_ge by lia. replace (length pre + zero_run (g :: suf) - length pre)%nat with (zero_run (g :: suf)) by lia.
  by rewrite <- zero_run_spec.
Qed.

Lemma read6_other c t : c <> 58 -> read6 (c :: t) = groups6 8 [] None (c :: t) ≫= finish6.
Proof. intros Hc. unfold read6. destruct c as [|p|p]; try done. do 6 (destruct p as [p|p|]; try done). Qed.

Lemma joined_start l rest : l <> [] -> exists d t, join [58] (map hexa l) ++ rest = hex_digit_of d :: t /\ 0 <= d < 16.
Proof.
  destruct l as [|g l]; [done|]. intros _. cbn [map join]. destruct (hexa_start g) as (d & r & Ed & Hd). rewrite Ed.
  destruct (map hexa l); cbn; eauto.
Qed.

Lemma read6_text6 a : 0 <= a < 2 ^ 128 -> read6 (text6 a) = Some a.
Proof.
  intros Ha. unfold text6. pose proof (groups_range a) as Hr. pose proof (of_groups_groups a Ha) as Hof.
  assert (length (groups a) = 8%nat) as Hlen by done.
  pose proof (best_run_gap [] (groups a) (0%nat, 0%nat) (or_introl eq_refl)) as Hgap. cbn [app length] in Hgap.
  destruct (best_run 0 (groups a) (0%nat, 0%nat)) as [start n]. clear Ha. revert Hr Hof Hlen Hgap.
  generalize (groups a). intros gs Hr Hof Hlen Hgap. unfold gap in Hgap. cbn [fst snd] in Hgap.
  destruct Hgap as [->|(Hn & Hle & Hgs)].
  { cbn [Nat.eqb]. destruct (joined_start gs []) as (d & t & Et & Hd); [by destruct gs|]. rewrite app_nil_r in Et.
    rewrite Et, read6_other by (by apply digit_plain). rewrite <- Et, read_groups by (done || (by destruct gs) || lia).
    change (finish6 (gs, None, []) = Some a). unfold finish6. rewrite !bool_decide_false by (by intros ?). by rewrite Hlen, <- Hof. }
  destruct (Nat.eqb_spec n 0) as [->|_]; [lia|].
  assert (length (take start gs) = start) as Hl by (rewrite length_take; lia).
  assert (length (drop (start + n) gs) = 8 - start - n)%nat as Hr8 by (rewrite length_drop; lia).
  assert (Forall (fun g => 0 <= g < 65536) (take start gs)) as Hfl by (by apply Forall_take).
  assert (Forall (fun g => 0 <= g < 65536) (drop (start + n) gs)) as Hfr by (by apply Forall_drop).
  revert Hl Hr8 Hfl Hfr Hgs. generalize (take start gs) (drop (start + n) gs). intros l r Hl Hr8 Hfl Hfr Hgs.
  assert (finish6 (l ++ r, Some start, []) = Some a) as Hfin.
  { unfold finish6. rewrite bool_decide_false by (by intros ?). rewrite length_app, Hl, Hr8.
    destruct (Nat.ltb_spec (start + (8 - start - n)) 8); [|lia].
    replace (8 - (start + (8 - start - n)))%nat with n by lia.
    by rewrite take_app_length', drop_app_length', <- Hgs, Hof by done. }
  destruct l as [|g l].
  - cbn in Hl. subst start. cbn [map join app]. destruct r as [|g r].
    + cbn in Hfin |- *. replace (8 - 0)%nat with 8%nat in Hfin by lia. done.
    + destruct (joined_start (g :: r) []) as (d & t & Et & Hd); [done|]. rewrite app_nil_r in Et.
      unfold read6. rewrite Et. rewrite <- Et, read_groups by (done || (cbn in *; lia)). exact Hfin.
  - destruct (joined_start (g :: l) ([58; 58] ++ join [58] (map hexa r))) as (d & t & Et & Hd); [done|].
    rewrite Et, read6_other by (by apply digit_plain). rewrite <- Et, read_groups_gap by (done || (cbn in *; lia)).
    destruct r as [|g' r]; [cbn [map join]; rewrite Hl; by rewrite app_nil_r in Hfin|].
    destruct (joined_start (g' :: r) []) as (d' & t' & Et' & _); [done|]. rewrite app_nil_r in Et'. rewrite Et', <- Et'.
    rewrite read_groups by (done || (cbn in *; lia)). change (length [] + length (g :: l))%nat with (length (g :: l)).
    rewrite Hl. exact Hfin.
Qed.

(** The bytes of printed addresses. *)
Definition addr_char (c : Z) : Prop := exists d, 0 <= d < 16 /\ c = hex_digit_of d.

Lemma fmt_base_chars base fuel : forall n acc,
  2 <= base <= 16 -> Forall addr_char acc -> Forall addr_char (fmt_base base fuel n acc).
Proof.
  induction fuel as [|fuel IH]; intros n acc Hb Hacc; [done|]. cbn [fmt_base].
  assert (Forall addr_char ((if n mod base <? 10 then 48 + n mod base else 87 + n mod base) :: acc)) as Hc.
  { constructor; [|done]. exists (n mod base). split; [pose proof (Z.mod_pos_bound n base); lia|done]. }
  destruct (n <? base); [exact Hc|]. by apply IH.
Qed.

Lemma hexa_chars g : Forall addr_char (hexa g).
Proof. apply fmt_base_chars; [lia|constructor]. Qed.
Lemma itoa_chars n : Forall addr_char (itoa n).
Proof. apply fmt_base_chars; [lia|constructor]. Qed.

Lemma join_chars (P : Z -> Prop) sep l : P sep -> Forall (Forall P) l -> Forall P (join [sep] l).
Proof.
  intros Hs. induction 1 as [|x l Hx Hl IH]; [constructor|]. cbn [join]. destruct l; [done|].
  apply Forall_app. split; [done|]. by constructor.
Qed.

Definition addr6_char (c : Z) : Prop := addr_char c \/ c = 58.

Lemma text6_chars a : Forall addr6_char (text6 a).
Proof.
  unfold text6. destruct (best_run 0 (groups a) (0%nat, 0%nat)) as [start n].
  assert (forall l, Forall addr6_char (join [58] (map hexa l))) as Hj.
  { intros l. apply join_chars; [by right|]. apply Forall_forall. intros x (g & -> & _)%list_elem_of_fmap.
    eapply Forall_impl; [apply hexa_chars|]. intros c ?. by left. }
  destruct (n =? 0)%nat; [apply Hj|]. rewrite !Forall_app. split_and!; [apply Hj| |apply Hj]. repeat constructor; by right.
Qed.

Lemma text6_colon a : 58 ∈ text6 a.
Proof.
  unfold text6. destruct (best_run 0 (groups a) (0%nat, 0%nat)) as [start n].
  destruct (n =? 0)%nat.
  - unfold groups. cbn [map join]. apply elem_of_app. right. left.
  - apply elem_of_app. right. left.
Qed.

Lemma addr_char_plain c : addr_char c -> c <> 37 /\ c <> 46 /\ c <> 47 /\ c <> 58.
Proof. intros (d & Hd & ->). unfold hex_digit_of. destruct (Z.ltb_spec d 10); lia. Qed.

Lemma find_colon l : Forall addr6_char l -> 58 ∈ l -> List.find (fun c => (c =? 46) || (c =? 58) || (c =? 37)) l = Some 58.
Proof.
  induction 1 as [|c l Hc Hl IH]; [by intros ?%elem_of_nil|]. intros Hin. cbn [List.find].
  destruct Hc as [Hc| ->]; [|done]. apply addr_char_plain in Hc as (H1 & H2 & _ & H4).
  apply Z.eqb_neq in H1, H2, H4. rewrite H1, H2, H4. apply IH. apply elem_of_cons in Hin as [<-|?]; [done|done].
Qed.

Lemma find_dot x : 0 <= x < 2 ^ 32 -> List.find (fun c => (c =? 46) || (c =? 58) || (c =? 37)) (text4 x) = Some 46.
Proof.
  intros Hx. unfold text4, octets. cbn [map join]. generalize (itoa_chars (Z.shiftr x 24)). generalize (itoa (Z.shiftr x 24)).
  induction 1 as [|c l Hc Hl IH]; [done|]. cbn [app List.find]. apply addr_char_plain in Hc as (H1 & H2 & _ & H4).
  apply Z.eqb_neq in H1, H2, H4. by rewrite H1, H2, H4.
Qed.

Lemma cut_none c s : Forall (fun x => x <> c) s -> cut c s = (s, None).
Proof. induction 1 as [|x s Hx Hs IH]; cbn; [done|]. apply Z.eqb_neq in Hx. by rewrite Hx, IH. Qed.

Lemma cut_app c s r : Forall (fun x => x <> c) s -> cut c (s ++ c :: r) = (s, Some r).
Proof. induction 1 as [|x s Hx Hs IH]; cbn; [by rewrite Z.eqb_refl|]. apply Z.eqb_neq in Hx. by rewrite Hx, IH. Qed.

Lemma cut_last_app c s r : Forall (fun x => x <> c) r -> cut_last c (s ++ [c] ++ r) = Some (s, r).
Proof.
  intros Hr. unfold cut_last. rewrite !rev_app_distr. cbn [rev app]. rewrite <- app_assoc. cbn [app].
  rewrite cut_app by (by apply Forall_rev). by rewrite !rev_involutive.
Qed.

(** Addresses as the firewall handles them: in range, without a zone, and
    not an IPv4 address in disguise. *)
Definition plain_addr (a : Addr) : Prop :=
  match a with
  | AddrZero => False
  | V4 x => 0 <= x < 2 ^ 32
  | V6 x z => 0 <= x < 2 ^ 128 /\ z = [] /\ Is4In6 a = false
  end.

Lemma ParseAddr_String a : plain_addr a -> ParseAddr (AddrString a) = Some a.
Proof.
  destruct a as [|x|x z]; intros Ha; [done| |].
  - unfold ParseAddr, AddrString, parseIPv4. rewrite find_dot, read_text4 by done. change (Some (V4 (of_fields4 (octets x))) = Some (V4 x)). by rewrite of_octets.
  - destruct Ha as (Hx & -> & H4). unfold AddrString. rewrite H4. cbn [zone_text]. rewrite app_nil_r.
    unfold ParseAddr. rewrite find_colon by (apply text6_chars || apply text6_colon). unfold parseIPv6.
    rewrite cut_none; [by rewrite read6_text6|].
    eapply Forall_impl; [apply text6_chars|]. intros c [Hc| ->]; [by destruct (addr_char_plain c Hc)|lia].
Qed.

Definition plain_prefix (p : Prefix) : Prop := plain_addr (p_addr p) /\ 0 <= p_bits p <= BitLen (p_addr p).

Lemma bits_text n : 0 <= n <= 128 ->
  parseInt64 (of_bytes (itoa n)) = Some n /\
  (1 <? length (itoa n))%nat && match itoa n with c :: _ => (c <? 49) || (57 <? c) | [] => false end = false.
Proof.
  intros Hn.
  assert (forallb (fun n => bool_decide (parseInt64 (of_bytes (itoa n)) = Some n) &&
    negb ((1 <? length (itoa n))%nat && match itoa n with c :: _ => (c <? 49) || (57 <? c) | [] => false end)) (seqZ 0 129) = true)
    as Hall by (vm_compute; reflexivity).
  rewrite forallb_forall in Hall. specialize (Hall n). rewrite <- list_elem_of_In, elem_of_seqZ in Hall.
  specialize (Hall ltac:(lia)). apply andb_true_iff in Hall as [H1%bool_decide_eq_true H2%negb_true_iff]. by split.
Qed.

Lemma ParsePrefix_String p : plain_prefix p -> ParsePrefix (PrefixString p) = Some p.
Proof.
  destruct p as [a n]. intros [Ha Hn]. cbn [p_addr p_bits] in *.
  assert (0 <= n <= 128) as Hn' by (destruct a; cbn in *; lia).
  unfold PrefixString, PrefixIsValid. cbn [p_addr p_bits]. destruct (Z.leb_spec 0 n); [|lia].
  unfold ParsePrefix. rewrite cut_last_app.
  2: { eapply Forall_impl; [apply itoa_chars|]. intros c Hc. by destruct (addr_char_plain c Hc) as (_ & _ & ? & _). }
  cbn [mbind option_bind]. rewrite ParseAddr_String by done. cbn [mbind option_bind].
  assert (hasZone a = false) as -> by (by destruct a as [| |? []]; try destruct Ha as (_ & ? & _)).
  destruct (bits_text n Hn') as [-> ->]. cbn [mbind option_bind].
  destruct (Z.ltb_spec n 0); [lia|]. destruct (Z.ltb_spec (BitLen a) n); [lia|]. cbn [orb]. f_equal.
  unfold PrefixFrom. assert (IsValid a = true) as -> by (by destruct a).
  destruct (Z.leb_spec 0 n); [|lia]. destruct (Z.leb_spec n (BitLen a)); [|lia]. cbn [andb]. f_equal.
  destruct a as [| |x z]; [done..|]. by destruct Ha as (_ & -> & _).
Qed.

Lemma PrefixString_inj p q : plain_prefix p -> plain_prefix q -> PrefixString p = PrefixString q -> p = q.
Proof. intros Hp Hq He. apply (inj Some). by rewrite <- (ParsePrefix_String p), <- (ParsePrefix_String q), He. Qed.

Lemma mask_range w bits x : 0 <= bits <= w -> 0 <= x < 2 ^ w -> 0 <= mask w bits x < 2 ^ w.
Proof.
  intros Hb Hx. unfold mask. rewrite Z.shiftl_mul_pow2, Z.shiftr_div_pow2 by lia.
  assert (0 < 2 ^ (w - bits)) by (apply Z.pow_pos_nonneg; lia).
  pose proof (Z.mul_div_le x (2 ^ (w - bits)) ltac:(lia)).
  assert (0 <= x / 2 ^ (w - bits)) by (apply Z.div_pos; lia). nia.
Qed.

Lemma mask_keeps w bits x : bits <= w -> Z.shiftr (mask w bits x) (w - bits) = Z.shiftr x (w - bits).
Proof. intros Hb. unfold mask. rewrite Z.shiftr_shiftl_l, Z.sub_diag, Z.shiftl_0_r by lia. done. Qed.

Lemma mask_not_4in6 bits x z : 0 <= bits <= 128 -> Is4In6 (V6 x z) = false -> Is4In6 (V6 (mask 128 bits x) z) = false.
Proof.
  unfold Is4In6. intros Hb Hx. apply Z.eqb_neq in Hx. apply Z.eqb_neq. intros Hm.
  destruct (Z.le_gt_cases 96 bits) as [Hge|Hlt].
  - apply Hx. rewrite <- Hm. replace 32 with (128 - bits + (bits - 96)) by lia.
    rewrite <- !Z.shiftr_shiftr by lia. by rewrite mask_keeps by lia.
  - assert (Z.testbit (Z.shiftr (mask 128 bits x) 32) 0 = Z.testbit 65535 0) as Hbit by (by rewrite Hm).
    rewrite Z.shiftr_spec in Hbit by lia. unfold mask in Hbit. rewrite Z.shiftl_spec_low in Hbit by lia. done.
Qed.

Lemma Masked_plain p : plain_prefix p -> plain_prefix (Masked p).
Proof.
  destruct p as [a n]. intros [Ha Hn]. cbn [p_addr p_bits] in *. unfold Masked, PrefixIsValid. cbn [p_addr p_bits].
  destruct (Z.leb_spec 0 n); [|lia]. destruct a as [|x|x z]; [done|..]; cbn in Ha, Hn.
  - split; [|done]. by apply mask_range.
  - destruct Ha as (Hx & -> & H4). split; [|done]. split_and!; [by apply mask_range..|done|by apply mask_not_4in6].
Qed.

Lemma lxor_shiftr_eq x y k : 0 <= k -> (Z.shiftr (Z.lxor x y) k =? 0) = (Z.shiftr x k =? Z.shiftr y k).
Proof. intros Hk. rewrite Z.shiftr_lxor. apply eq_true_iff_eq. by rewrite !Z.eqb_eq, Z.lxor_eq_0_iff. Qed.

(** Masking does not change what a prefix contains. *)
Lemma Contains_Masked p a : 0 <= p_bits p <= BitLen (p_addr p) -> Contains (Masked p) a = Contains p a.
Proof.
  destruct p as [b n]. cbn [p_addr p_bits]. intros Hn. unfold Masked, Contains, PrefixIsValid. cbn [p_addr p_bits].
  destruct (Z.leb_spec 0 n); [|lia]. destruct b as [|x|x z]; cbn [p_addr p_bits BitLen] in *; destruct (Z.leb_spec 0 n); try lia.
  - destruct a; [done| |done]. by rewrite !lxor_shiftr_eq, mask_keeps by lia.
  - destruct a; [done|done|]. by rewrite !lxor_shiftr_eq, mask_keeps by lia.
Qed.

(* ------------------------------------------------------------------ *)
(** ** What is parsed is in range *)

Lemma Forall_snoc {A} (P : A -> Prop) l x : Forall P l -> P x -> Forall P (l ++ [x]).
Proof. intros. apply Forall_app. split; [done|]. constructor; [done|constructor]. Qed.

Lemma fields4_range s : forall prev val dl fs l,
  0 <= val < 256 -> Forall (fun b => 0 <= b < 256) fs -> fields4 s prev val dl fs = Some l ->
  length l = 4%nat /\ Forall (fun b => 0 <= b < 256) l.
Proof.
  induction s as [|c s IH]; intros prev val dl fs l Hv Hf; cbn [fields4].
  - destruct (Nat.eqb_spec (length fs) 3) as [Hl|]; [|done]. intros [= <-]. rewrite length_app, Hl. split; [done|].
    by apply Forall_snoc.
  - unfold is_digit. destruct ((48 <=? c) && (c <=? 57)) eqn:Ed; zbool.
    + destruct (_ && _); [done|]. destruct (Z.ltb_spec 255 (val * 10 + (c - 48))); [done|]. apply IH; [lia|done].
    + destruct (c =? 46); [|done]. destruct (_ || _); [done|]. destruct (length fs =? 3)%nat; [done|].
      apply IH; [lia|]. by apply Forall_snoc.
Qed.

Lemma hex_run_range s : forall off acc n v rest,
  0 <= acc < 16 ^ Z.of_nat off -> (off <= 4)%nat -> hex_run off acc s = Some (n, v, rest) -> 0 <= v < 65536.
Proof.
  assert (forall off, (off <= 4)%nat -> 16 ^ Z.of_nat off <= 65536) as Hpow.
  { intros off Ho. change 65536 with (16 ^ 4). apply Z.pow_le_mono_r; lia. }
  induction s as [|c s IH]; intros off acc n v rest Ha Ho; cbn [hex_run].
  - intros [= <- <- <-]. specialize (Hpow off Ho). lia.
  - destruct (hexval c) as [d|] eqn:Ed; [|intros [= <- <- <-]; specialize (Hpow off Ho); lia].
    destruct (Nat.ltb_spec 3 off); [done|]. apply IH; [|lia]. rewrite Nat2Z.inj_succ, Z.pow_succ_r by lia.
    assert (0 <= d < 16); [|lia]. revert Ed. unfold hexval, is_digit.
    destruct ((48 <=? c) && (c <=? 57)) eqn:E1; zbool; [intros [= <-]; lia|].
    destruct ((97 <=? c) && (c <=? 102)) eqn:E2; zbool; [intros [= <-]; lia|].
    destruct ((65 <=? c) && (c <=? 70)) eqn:E3; zbool; [intros [= <-]; lia|done].
Qed.

Definition group_list (gs : list Z) : Prop := Forall (fun g => 0 <= g < 65536) gs.

Lemma groups6_range fuel : forall gs ell s gs' ell' s',
  group_list gs -> groups6 fuel gs ell s = Some (gs', ell', s') -> group_list gs'.
Proof.
  unfold group_list. induction fuel as [|fuel IH]; intros gs ell s gs' ell' s' Hg; cbn [groups6]; [by intros [= <- _ _]|].
  destruct (hex_run 0 0 s) as [[[[|n] v] rest]|] eqn:Eh; try done.
  apply hex_run_range in Eh; [|cbn; lia|lia].
  assert (Forall (fun g => 0 <= g < 65536) (gs ++ [v])) as Hgv by (by apply Forall_snoc).
  destruct rest as [|c rest]; [by intros [= <- _ _]|]. destruct (c =? 46).
  { destruct (_ && _); [done|]. destruct (8 <? _)%nat; [done|]. destruct (fields4 s None 0 0 []) as [fs|] eqn:Ef; [|done].
    apply fields4_range in Ef as [_ Hf]; [|lia|done]. destruct fs as [|a [|b [|d [|e [|? ?]]]]]; try done.
    intros [= <- _ _]. rewrite !Forall_cons in Hf. destruct Hf as (? & ? & ? & ? & _).
    apply Forall_app. split; [done|]. repeat (apply Forall_cons_2; [lia|]). apply Forall_nil_2. }
  destruct (negb (c =? 58)); [done|]. destruct rest as [|c' rest]; [done|]. destruct (c' =? 58).
  - destruct (bool_decide _); [done|]. destruct rest; [by intros [= <- _ _]|]. by apply IH.
  - by apply IH.
Qed.

Lemma of_list_bound w gs : 0 < w -> Forall (fun g => 0 <= g < w) gs ->
  0 <= foldl (fun acc g => acc * w + g) 0 gs < w ^ Z.of_nat (length gs).
Proof.
  intros Hw. induction gs as [|g gs IH] using rev_ind; [cbn; lia|]. intros [Hg Hl]%Forall_app.
  rewrite foldl_app, length_app. cbn [foldl length]. apply Forall_cons in Hl as [Hl _].
  specialize (IH Hg). rewrite Nat2Z.inj_add, Z.pow_add_r by lia. change (w ^ Z.of_nat 1) with (w ^ 1). rewrite Z.pow_1_r. nia.
Qed.

Lemma finish6_range gs ell s x : group_list gs -> (length gs <= 8)%nat -> finish6 (gs, ell, s) = Some x -> 0 <= x < 2 ^ 128.
Proof.
  intros Hg Hl. unfold finish6. destruct (bool_decide _); [done|].
  assert (forall l, length l = 8%nat -> group_list l -> 0 <= of_groups l < 2 ^ 128) as Hof.
  { intros l H8 Hr. pose proof (of_list_bound 65536 l ltac:(lia) Hr) as Hb. rewrite H8 in Hb. exact Hb. }
  destruct (Nat.ltb_spec (length gs) 8).
  - destruct ell as [e|]; [|done]. intros [= <-]. apply Hof.
    + rewrite !length_app, length_replicate, length_take, length_drop. lia.
    + apply Forall_app. split; [by apply Forall_take|]. apply Forall_app. split; [|by apply Forall_drop].
      apply Forall_replicate. lia.
  - destruct (bool_decide _); [done|]. intros [= <-]. apply Hof; [lia|done].
Qed.

Lemma groups6_length fuel : forall gs ell s gs' ell' s',
  (length gs + fuel = 8)%nat -> groups6 fuel gs ell s = Some (gs', ell', s') -> (length gs' <= 8)%nat.
Proof.
  induction fuel as [|fuel IH]; intros gs ell s gs' ell' s' Hf; cbn [groups6]; [intros [= <- _ _]; lia|].
  destruct (hex_run 0 0 s) as [[[[|n] v] rest]|]; try done.
  assert (length (gs ++ [v]) + fuel = 8)%nat as Hf' by (rewrite length_app; cbn; lia).
  destruct rest as [|c rest]; [intros [= <- _ _]; lia|]. destruct (c =? 46).
  { destruct (_ && _); [done|]. destruct (Nat.ltb_spec 8 (length gs + 2)); [done|].
    destruct (fields4 s None 0 0 []) as [[|a [|b [|d [|e [|? ?]]]]]|]; try done. intros [= <- _ _].
    rewrite length_app. cbn. lia. }
  destruct (negb (c =? 58)); [done|]. destruct rest as [|c' rest]; [done|]. destruct (c' =? 58).
  - destruct (bool_decide _); [done|]. destruct rest; [intros [= <- _ _]; lia|]. by apply IH.
  - by apply IH.
Qed.

Lemma read6_range s x : read6 s = Some x -> 0 <= x < 2 ^ 128.
Proof.
  assert (forall ell s, groups6 8 [] ell s ≫= finish6 = Some x -> 0 <= x < 2 ^ 128) as Hg.
  { intros ell s' ([[gs ell'] s''] & Eg & Ef)%bind_Some. eapply finish6_range; [| |exact Ef].
    - by eapply groups6_range; [constructor|].
    - eapply groups6_length; [|exact Eg]. done. }
  unfold read6. repeat case_match; intros Hr; try (by eapply Hg). by injection Hr as <-.
Qed.

Definition addr_in_range (a : Addr) : Prop :=
  match a with AddrZero => False | V4 x => 0 <= x < 2 ^ 32 | V6 x _ => 0 <= x < 2 ^ 128 end.

Lemma ParseAddr_range s a : ParseAddr s = Some a -> addr_in_range a.
Proof.
  unfold ParseAddr. destruct (List.find _ s) as [c|]; [|done].
  assert (forall a, parseIPv4 s = Some a -> addr_in_range a) as H4.
  { intros a' H. unfold parseIPv4 in H. apply fmap_Some in H as (l & Hl & ->). apply fields4_range in Hl as [Hlen Hr]; [|lia|done].
    pose proof (of_list_bound 256 l ltac:(lia) Hr) as Hb. rewrite Hlen in Hb. exact Hb. }
  assert (forall a, parseIPv6 s = Some a -> addr_in_range a) as H6.
  { intros a' H. unfold parseIPv6 in H. destruct (cut 37 s) as [s' z]. assert ((a ← read6 s'; Some (V6 a (default [] z))) = Some a') as H'.
    { destruct z as [[|]|]; done. } clear H. apply bind_Some in H' as (x & Hx & [= <-]). by apply read6_range in Hx. }
  repeat case_match; intros Hp; try done; first [by apply H4|by apply H6].
Qed.

Lemma Unmap_range a : addr_in_range a -> addr_in_range (Unmap a) /\ Is4In6 (Unmap a) = false.
Proof.
  destruct a as [|x|x z]; [done|done|]. unfold Unmap. destruct (Is4In6 (V6 x z)) eqn:E; [|done]. intros _. split; [|done].
  change (0 <= Z.land x (2 ^ 32 - 1) < 2 ^ 32). rewrite land_mod by lia. apply Z.mod_pos_bound. lia.
Qed.
