(* ===== verification/Firewall.v ===== *)
(** * The egress policy compiler ([firewall/policy.go])

    Blocklist rows become an ordered list of packet rules, carve-outs first;
    the rules are rendered as an nsjail configuration and also answer for the
    daemon's own connections.  The resolver is an argument with a state of its
    own, as the code injects it. *)
From S2P Require Import Prelude GoText Sha256 Netip.
Open Scope Z_scope.

(* ------------------------------------------------------------------ *)
(** ** Data *)

Record BlocklistRule := Rule {
  b_ID : Z; b_Kind : string; b_RuleType : string; b_Value : string; b_Label : string; b_Enabled : bool
}.
#[export] Instance BlocklistRule_eta : Eta BlocklistRule := fun r =>
  Rule (b_ID r) (b_Kind r) (b_RuleType r) (b_Value r) (b_Label r) (b_Enabled r).

Definition BlocklistTypeCIDR : string := "cidr".
Definition BlocklistTypeHostname : string := "hostname".
Definition BlocklistTypeWildcard : string := "wildcard".

Record GuestNet := Guest { IP4 : Addr; GW4 : Addr; IP6 : Addr; GW6 : Addr }.

Definition MustParseAddr (s : string) : Addr := default AddrZero (ParseAddr (bytes s)).

Definition DefaultGuestNet : GuestNet :=
  Guest (MustParseAddr "10.255.255.2") (MustParseAddr "10.255.255.1") (MustParseAddr "fc00::2") (MustParseAddr "fc00::1").

Record ControlPlane := MkControlPlane { cp_Addrs : list Addr; cp_Port : Z }.

Record UnenforcedRule := Unenforced { u_ID : Z; u_Value : string; u_Reason : string }.

Inductive ruleAction := actionReject | actionAllow.
Inductive ruleProto := protoAny | protoTCP | protoUDP.

#[export] Instance ruleAction_eq_dec : EqDecision ruleAction.
Proof. solve_decision. Defined.

(** [dport] 0 means no port constraint. *)
Record nstunRule := NstunRule { act : ruleAction; pr : ruleProto; dst : Prefix; dport : Z }.

Record compiled := Compiled {
  rules4 : list nstunRule; rules6 : list nstunRule; unenforced : list UnenforcedRule; allows : Z; rejects : Z
}.
#[export] Instance compiled_eta : Eta compiled := fun c =>
  Compiled (rules4 c) (rules6 c) (unenforced c) (allows c) (rejects c).

Record Policy := MkPolicy {
  Gen : string; Path : string; Rules4 : Z; Rules6 : Z; Allows : Z; Rejects : Z; CompiledAt : Z;
  p_rules4 : list nstunRule; p_rules6 : list nstunRule; exemptAddrs : list Addr; exemptPort : Z
}.

(* ------------------------------------------------------------------ *)
(** ** Targets *)

Definition hostPrefix (a : Addr) : Prefix := PrefixFrom a (BitLen a).

Definition usableTarget (a : Addr) : bool := let a := Unmap a in IsValid a && negb (IsUnspecified a).

Definition contains_byte (c : Z) (s : string) : bool := existsb (Z.eqb c) (bytes s).

Definition parseTarget (raw : string) : res string Prefix :=
  let s := trimSpace raw in
  if bool_decide (s = ""%string) then Err "empty value"%string
  else
    match (if contains_byte 47 s then
             match ParsePrefix (bytes s) with
             | Some p => Ok p
             | None => Err ("not a valid CIDR: " +:+ raw)
             end
           else
             match ParseAddr (bytes s) with
             | Some a => Ok (hostPrefix a)
             | None => Err ("not a valid IP or CIDR: " +:+ raw)
             end) with
    | Err e => Err e
    | Ok p =>
      if Is4In6 (p_addr p) then Err ("v4-mapped IPv6 address is ambiguous: " +:+ raw)
      else if IsUnspecified (p_addr p) then Err ("unspecified address is not allowed: " +:+ raw)
      else Ok (Masked p)
    end.

Definition ValidateTarget (raw : string) : option string :=
  match parseTarget raw with Ok _ => None | Err e => Some e end.

(** Keep the first of each printed form, then sort by it. *)
Definition prefix_le (p q : Prefix) : Prop := str_le (of_bytes (PrefixString p)) (of_bytes (PrefixString q)).
#[export] Instance prefix_le_dec p q : Decision (prefix_le p q).
Proof. unfold prefix_le. apply _. Defined.

Fixpoint dedup_prefixes (seen : list (list Z)) (l : list Prefix) : list Prefix :=
  match l with
  | [] => []
  | p :: l =>
    let k := PrefixString p in
    if bool_decide (k ∈ seen) then dedup_prefixes seen l else p :: dedup_prefixes (k :: seen) l
  end.

Definition canonPrefixes (l : list Prefix) : list Prefix := merge_sort prefix_le (dedup_prefixes [] l).

(* ------------------------------------------------------------------ *)
(** ** Compiling *)

Definition count (r : nstunRule) (c : compiled) : compiled :=
  match act r with actionAllow => c <| allows ::= Z.succ |> | actionReject => c <| rejects ::= Z.succ |> end.
Definition add4 (r : nstunRule) (c : compiled) : compiled := count r (c <| rules4 ::= fun l => l ++ [r] |>).
Definition add6 (r : nstunRule) (c : compiled) : compiled := count r (c <| rules6 ::= fun l => l ++ [r] |>).
Definition addByFamily (r : nstunRule) (c : compiled) : compiled :=
  if Is4 (p_addr (dst r)) then add4 r c else add6 r c.

Definition fmt_int (n : Z) : string := (if n <? 0 then "-"%string else EmptyString) +:+ of_bytes (itoa (Z.abs n)).

Definition port_error (port : Z) : string := "control-plane port " +:+ fmt_int port +:+ " out of range".

Definition portToUint16 (p : Z) : option Z := if (p <? 1) || (65535 <? p) then None else Some p.

Definition add_gateways (gn : GuestNet) (c : compiled) : compiled :=
  let c := if usableTarget (GW4 gn) then add4 (NstunRule actionAllow protoAny (hostPrefix (GW4 gn)) 0) c else c in
  if usableTarget (GW6 gn) then add6 (NstunRule actionAllow protoAny (hostPrefix (GW6 gn)) 0) c else c.

Fixpoint add_control (addrs : list Addr) (port : Z) (c : compiled) : res string compiled :=
  match addrs with
  | [] => Ok c
  | a :: addrs =>
    if negb (usableTarget a) then Err "control-plane address is invalid or unspecified"%string
    else
      match portToUint16 port with
      | None => Err (port_error port)
      | Some port' => add_control addrs port (addByFamily (NstunRule actionAllow protoTCP (hostPrefix a) port') c)
      end
  end.

Definition add_dns (servers : list Addr) (c : compiled) : compiled :=
  foldl (fun c s =>
    if usableTarget s then
      foldl (fun c p => addByFamily (NstunRule actionAllow p (hostPrefix s) 53) c) c [protoUDP; protoTCP]
    else c) c servers.

Definition hostname_reason : string :=
  "hostname did not resolve to any usable address, so it blocks nothing right now. Check the name and that the resolver is reachable; this clears itself once resolution succeeds.".
Definition wildcard_reason : string :=
  "wildcard hostnames are not enforceable: egress policy matches IP/CIDR, not DNS names. Use a CIDR or an exact hostname.".

(** The usable addresses among a resolver's answers. *)
Definition usable_answers (answers : list string) : list Addr :=
  omap (fun ipStr =>
    match ParseAddr (bytes ipStr) with
    | Some a => if usableTarget a then Some (Unmap a) else None
    | None => None
    end) answers.

(** What the loop over the rows has gathered. *)
Record gathered := Gathered { v4Blocks : list Prefix; v6Blocks : list Prefix; skipped : list UnenforcedRule }.

Definition add_block (p : Prefix) (g : gathered) : gathered :=
  if Is4 (p_addr p) then Gathered (v4Blocks g ++ [p]) (v6Blocks g) (skipped g)
  else Gathered (v4Blocks g) (v6Blocks g ++ [p]) (skipped g).
Definition skip (r : BlocklistRule) (reason : string) (g : gathered) : gathered :=
  Gathered (v4Blocks g) (v6Blocks g) (skipped g ++ [Unenforced (b_ID r) (b_Value r) reason]).

Section Compile.
Context {S : Type} (resolve : string -> S -> S * list string).

Definition gather_rule (r : BlocklistRule) (s : S) (g : gathered) : S * gathered :=
  if negb (b_Enabled r) then (s, g)
  else if bool_decide (b_RuleType r = BlocklistTypeCIDR) then
    match parseTarget (b_Value r) with
    | Err e => (s, skip r e g)
    | Ok p => (s, add_block p g)
    end
  else if bool_decide (b_RuleType r = BlocklistTypeHostname) then
    let '(s, answers) := resolve (b_Value r) s in
    match usable_answers answers with
    | [] => (s, skip r hostname_reason g)
    | l => (s, foldl (fun g a => add_block (hostPrefix a) g) g l)
    end
  else if bool_decide (b_RuleType r = BlocklistTypeWildcard) then (s, skip r wildcard_reason g)
  else (s, skip r ("unknown rule_type " +:+ b_RuleType r) g).

Fixpoint gather (rules : list BlocklistRule) (s : S) (g : gathered) : S * gathered :=
  match rules with
  | [] => (s, g)
  | r :: rules => let '(s, g) := gather_rule r s g in gather rules s g
  end.

Definition compile (rules : list BlocklistRule) (cp : ControlPlane) (gn : GuestNet) (dnsServers : list Addr) (s : S)
  : S * res string compiled :=
  let c := add_gateways gn (Compiled [] [] [] 0 0) in
  match cp_Addrs cp with
  | [] => (s, Err "control-plane address is unknown: refusing to compile a policy that could block orvad's internal SDK"%string)
  | _ =>
    if (cp_Port cp <? 1) || (65535 <? cp_Port cp) then (s, Err (port_error (cp_Port cp)))
    else
      match add_control (cp_Addrs cp) (cp_Port cp) c with
      | Err e => (s, Err e)
      | Ok c =>
        let c := add_dns dnsServers c in
        let '(s, g) := gather rules s (Gathered [] [] []) in
        let c := c <| unenforced ::= fun l => l ++ skipped g |> in
        let c := foldl (fun c p => add4 (NstunRule actionReject protoAny p 0) c) c (canonPrefixes (v4Blocks g)) in
        (s, Ok (foldl (fun c p => add6 (NstunRule actionReject protoAny p 0) c) c (canonPrefixes (v6Blocks g))))
      end
  end.
End Compile.

(* ------------------------------------------------------------------ *)
(** ** Rendering *)

Definition action_text (a : ruleAction) : list Z := bytes (match a with actionAllow => "ALLOW" | actionReject => "REJECT" end).
Definition proto_text (p : ruleProto) : list Z :=
  bytes (match p with protoTCP => "TCP" | protoUDP => "UDP" | protoAny => "ANY" end).

(** [%q] of a printed address: no byte of it needs escaping. *)
Definition quoted (s : list Z) : list Z := [34] ++ s ++ [34].

Definition rule_lines (field : string) (r : nstunRule) (v4 : bool) : list (list Z) :=
  [bytes "  " ++ bytes field ++ bytes " {";
   bytes "    direction: GUEST_TO_HOST";
   bytes "    action: " ++ action_text (act r);
   bytes "    proto: " ++ proto_text (pr r);
   bytes "    dst_ip: " ++ quoted (PrefixString (dst r))] ++
  (if dport r =? 0 then []
   else [bytes "    dport: " ++ itoa (dport r); bytes "    dport_end: " ++ itoa (dport r)]) ++
  (if v4 then [bytes "    redirect_ip: " ++ quoted (bytes "0.0.0.0")] else []) ++
  [bytes "  }"].

(** The lines of the file, each of which ends in a newline. *)
Definition policy_lines (c : compiled) (gn : GuestNet) : list (list Z) :=
  [bytes "# Generated by orva. Do not edit — regenerated on every policy change.";
   bytes "# mount_proc is required: without it nsjail clears proc_path and /proc";
   bytes "# is silently absent inside the jail.";
   bytes "mount_proc: true"; []; bytes "user_net {";
   bytes "  backend: NSTUN";
   bytes "  ip4: " ++ quoted (AddrString (IP4 gn));
   bytes "  gw4: " ++ quoted (AddrString (GW4 gn));
   bytes "  ip6: " ++ quoted (AddrString (IP6 gn));
   bytes "  gw6: " ++ quoted (AddrString (GW6 gn));
   bytes "  ns_iface: " ++ quoted (bytes "eth0")] ++
  flat_map (fun r => rule_lines "rule4" r true) (rules4 c) ++
  flat_map (fun r => rule_lines "rule6" r false) (rules6 c) ++
  [bytes "}"].

Definition render (c : compiled) (gn : GuestNet) : list Z := flat_map (fun l => l ++ [10]) (policy_lines c gn).

Definition genOf (rendered : list Z) : string := of_bytes (take 16 (hex_encode (sha256 rendered))).

Definition countRuleBlocks (rendered : list Z) : Z * Z :=
  foldl (fun '(v4, v6) line =>
    let t := trimSpace (of_bytes line) in
    if bool_decide (t = "rule4 {"%string) then (v4 + 1, v6)
    else if bool_decide (t = "rule6 {"%string) then (v4, v6 + 1) else (v4, v6))
    (0, 0) (split 10 rendered).

(* ------------------------------------------------------------------ *)
(** ** The daemon's own connections *)

Fixpoint first_match (rules : list nstunRule) (addr : Addr) (port : Z) : bool :=
  match rules with
  | [] => false
  | r :: rules =>
    if negb (Contains (dst r) addr) then first_match rules addr port
    else if negb (dport r =? 0) && negb (dport r =? port) then first_match rules addr port
    else bool_decide (act r = actionReject)
  end.

(** The policy [refresh] publishes for a compiled rule set. *)
Definition new_policy (gen path : string) (now : Z) (cp : ControlPlane) (c : compiled) : Policy :=
  MkPolicy gen path (Z.of_nat (length (rules4 c))) (Z.of_nat (length (rules6 c))) (allows c) (rejects c) now
    (rules4 c) (rules6 c) (cp_Addrs cp) (default 0 (portToUint16 (cp_Port cp))).

Definition Blocks (p : option Policy) (addr : Addr) (port : Z) : bool :=
  match p with
  | None => false
  | Some p =>
    if negb (IsValid addr) then false
    else
      let addr := Unmap addr in
      if IsLoopback addr then false
      else if existsb (fun e => bool_decide (Unmap e = addr) && (port =? exemptPort p)) (exemptAddrs p) then false
      else first_match (if Is6 addr then p_rules6 p else p_rules4 p) addr port
  end.

(* ------------------------------------------------------------------ *)
(** ** Specifications *)

(** What each row contributes, given what the resolver answered at its turn. *)
Definition targets_of (ra : BlocklistRule * list string) : list Prefix :=
  let '(r, answers) := ra in
  if negb (b_Enabled r) then []
  else if bool_decide (b_RuleType r = BlocklistTypeCIDR) then
    match parseTarget (b_Value r) with Ok p => [p] | Err _ => [] end
  else if bool_decide (b_RuleType r = BlocklistTypeHostname) then hostPrefix <$> usable_answers answers
  else [].

Fixpoint consult {S} (resolve : string -> S -> S * list string) (rules : list BlocklistRule) (s : S)
  : list (BlocklistRule * list string) :=
  match rules with
  | [] => []
  | r :: rules =>
    if b_Enabled r && bool_decide (b_RuleType r = BlocklistTypeHostname) &&
       negb (bool_decide (b_RuleType r = BlocklistTypeCIDR))
    then let '(s, answers) := resolve (b_Value r) s in (r, answers) :: consult resolve rules s
    else (r, []) :: consult resolve rules s
  end.

(** The carve-outs of a policy, in order. *)
Definition carve_outs (cp : ControlPlane) (dnsServers : list Addr) : list nstunRule :=
  [NstunRule actionAllow protoAny (hostPrefix (GW4 DefaultGuestNet)) 0;
   NstunRule actionAllow protoAny (hostPrefix (GW6 DefaultGuestNet)) 0] ++
  ((fun a => NstunRule actionAllow protoTCP (hostPrefix a) (cp_Port cp)) <$> cp_Addrs cp) ++
  (s ← filter (fun s => usableTarget s = true) dnsServers;
   (fun p => NstunRule actionAllow p (hostPrefix s) 53) <$> [protoUDP; protoTCP]).

Definition matches (a : Addr) (port : Z) (r : nstunRule) : bool :=
  Contains (dst r) a && ((dport r =? 0) || (dport r =? port)).

Definition dst4 (r : nstunRule) : bool := Is4 (p_addr (dst r)).
Definition prefix4 (p : Prefix) : bool := Is4 (p_addr p).
Definition reject_rule (p : Prefix) : nstunRule := NstunRule actionReject protoAny p 0.

(** What no rule of the operator reaches: the daemon itself, the guest's
    gateways, the control plane on its port, the resolvers on theirs. *)
Definition spared (cp : ControlPlane) (dnsServers : list Addr) (a : Addr) (port : Z) : bool :=
  IsLoopback a ||
  existsb (fun g => Contains (hostPrefix g) a) [GW4 DefaultGuestNet; GW6 DefaultGuestNet] ||
  (port =? cp_Port cp) && existsb (fun e => bool_decide (Unmap e = a) || Contains (hostPrefix e) a) (cp_Addrs cp) ||
  (port =? 53) && existsb (fun s => usableTarget s && Contains (hostPrefix s) a) dnsServers.

(* ------------------------------------------------------------------ *)
(** ** Lemmas *)

Lemma withoutZone_range a : addr_in_range a -> addr_in_range (withoutZone a).
Proof. by destruct a. Qed.

Lemma hostPrefix_plain a : addr_in_range a -> Is4In6 a = false -> plain_prefix (hostPrefix a).
Proof.
  intros Hr H4. unfold hostPrefix, PrefixFrom. destruct a as [|x|x z]; [done|..]; split; cbn; done || (split_and!; done || apply Hr).
Qed.

Lemma parseTarget_plain raw p : parseTarget raw = Ok p -> plain_prefix p.
Proof.
  unfold parseTarget. destruct (bool_decide _); [done|]. set (o := if contains_byte 47 _ then _ else _).
  assert (forall q, o = Ok q -> Is4In6 (p_addr q) = false -> plain_prefix q) as Ho.
  { intros q. subst o. destruct (contains_byte _ _).
    - unfold ParsePrefix. destruct (_ ≫= _) as [q'|] eqn:E; [|done]. intros [= <-].
      apply bind_Some in E as ([host b] & _ & E). apply bind_Some in E as (ip & Hip & E).
      destruct (hasZone ip) eqn:Hz; [done|]. destruct (_ && _); [done|]. apply bind_Some in E as (bits & _ & E).
      destruct (_ || _) eqn:Hb; [done|]. injection E as <-. zbool. apply ParseAddr_range in Hip.
      unfold PrefixFrom. destruct (Z.leb_spec 0 bits); [|lia]. destruct (Z.leb_spec bits (BitLen ip)); [|lia].
      destruct ip as [|x|x [|]]; [done|..|done]; cbn in *; intros H4; split; cbn; done || lia || (split_and!; done || apply Hip).
    - destruct (ParseAddr _) as [a|] eqn:Ea; [|done]. intros [= <-]. apply ParseAddr_range in Ea. intros H4.
      replace (hostPrefix a) with (hostPrefix (withoutZone a)) by (by destruct a).
      apply hostPrefix_plain; [by apply withoutZone_range|]. by destruct a. }
  destruct o as [q|]; [|done]. destruct (Is4In6 (p_addr q)) eqn:H4; [done|]. destruct (IsUnspecified _); [done|].
  intros [= <-]. apply Masked_plain. by apply Ho.
Qed.

Lemma usable_answers_plain l x : x ∈ usable_answers l -> plain_prefix (hostPrefix x).
Proof.
  unfold usable_answers. intros (s & _ & Hs)%list_elem_of_omap. destruct (ParseAddr (bytes s)) as [a|] eqn:Ea; [|done].
  destruct (usableTarget a); [|done]. injection Hs as <-. apply ParseAddr_range, Unmap_range in Ea as [? ?].
  by apply hostPrefix_plain.
Qed.

Lemma targets_plain ra p : p ∈ targets_of ra -> plain_prefix p.
Proof.
  destruct ra as [r l]. unfold targets_of. destruct (negb _); [by intros ?%elem_of_nil|]. destruct (bool_decide _).
  - destruct (parseTarget _) as [q|] eqn:E; [|by intros ?%elem_of_nil]. intros ->%list_elem_of_singleton. by eapply parseTarget_plain.
  - destruct (bool_decide _); [|by intros ?%elem_of_nil]. intros (x & -> & Hx)%list_elem_of_fmap. by eapply usable_answers_plain.
Qed.

Lemma dedup_prefixes_in l : forall seen p,
  Forall plain_prefix l -> plain_prefix p ->
  p ∈ dedup_prefixes seen l <-> p ∈ l /\ PrefixString p ∉ seen.
Proof.
  induction l as [|q l IH]; intros seen p Hl Hp; cbn [dedup_prefixes].
  - split; [by intros ?%elem_of_nil|]. by intros [?%elem_of_nil _].
  - apply Forall_cons in Hl as [Hq Hl]. case_bool_decide as Hin.
    + rewrite IH by done. rewrite elem_of_cons. split; [intros [? ?]; split; [by right|done]|]. intros [[->|?] ?]; [done|by split].
    + rewrite elem_of_cons, IH by done. rewrite !elem_of_cons. split.
      * intros [->|[Hpl Hs]]; [split; [by left|done]|]. split; [by right|]. intros ?. apply Hs. by right.
      * intros [[->|Hpl] Hs]; [by left|]. destruct (decide (p = q)) as [->|Hne]; [by left|]. right. split; [done|].
        intros [He|?]; [|done]. apply Hne. by apply PrefixString_inj.
Qed.

Lemma canonPrefixes_in l p : Forall plain_prefix l -> p ∈ canonPrefixes l <-> p ∈ l.
Proof.
  intros Hl. unfold canonPrefixes. rewrite merge_sort_Permutation. split.
  - assert (forall l seen, p ∈ dedup_prefixes seen l -> p ∈ l) as Hsub.
    { clear. induction l as [|q l IH]; intros seen; cbn [dedup_prefixes]; [done|]. case_bool_decide.
      - intros ?. right. by eapply IH.
      - intros [->|?]%elem_of_cons; [left|right; by eapply IH]. }
    apply Hsub.
  - intros Hp. apply dedup_prefixes_in; [done|by rewrite Forall_forall in Hl; apply Hl|]. split; [done|by intros ?%elem_of_nil].
Qed.

Lemma filter_cons_bool {A} (f : A -> bool) b x l :
  filter (fun x => f x = b) (x :: l) = (if Bool.eqb (f x) b then [x] else []) ++ filter (fun x => f x = b) l.
Proof. rewrite filter_cons. destruct (decide (f x = b)) as [<-|Hn]; [by rewrite eqb_reflx|]. by destruct (f x), b. Qed.

Lemma add_blocks_spec l g :
  v4Blocks (foldl (fun g a => add_block (hostPrefix a) g) g l) = v4Blocks g ++ filter (fun p => prefix4 p = true) (hostPrefix <$> l) /\
  v6Blocks (foldl (fun g a => add_block (hostPrefix a) g) g l) = v6Blocks g ++ filter (fun p => prefix4 p = false) (hostPrefix <$> l).
Proof.
  revert g. induction l as [|a l IH]; intros g; cbn [foldl]; [by rewrite !app_nil_r|].
  destruct (IH (add_block (hostPrefix a) g)) as [-> ->]. unfold add_block.
  cbn [fmap list_fmap]. rewrite !filter_cons_bool. change (Is4 (p_addr (hostPrefix a))) with (prefix4 (hostPrefix a)).
  destruct (prefix4 (hostPrefix a)); cbn [v4Blocks v6Blocks Bool.eqb]; by rewrite <- ?app_assoc.
Qed.

Lemma gather_spec {S} (resolve : string -> S -> S * list string) rules : forall s g,
  let g' := (gather resolve rules s g).2 in
  let l := consult resolve rules s ≫= targets_of in
  v4Blocks g' = v4Blocks g ++ filter (fun p => prefix4 p = true) l /\
  v6Blocks g' = v6Blocks g ++ filter (fun p => prefix4 p = false) l.
Proof.
  induction rules as [|r rules IH]; intros s g; cbn [gather consult]; [cbn; by rewrite !app_nil_r|].
  unfold gather_rule. destruct (b_Enabled r) eqn:Een; cbn [negb andb].
  2: { assert (targets_of (r, []) = []) as Ht by (unfold targets_of; by rewrite Een).
       cbn [mbind list_bind]. rewrite Ht. apply IH. }
  destruct (decide (b_RuleType r = BlocklistTypeCIDR)) as [Hc|Hc].
  { rewrite (bool_decide_eq_true_2 _ Hc), andb_false_r.
    assert (targets_of (r, []) = match parseTarget (b_Value r) with Ok p => [p] | Err _ => [] end) as Ht
      by (unfold targets_of; by rewrite Een, (bool_decide_eq_true_2 _ Hc)).
    cbn [mbind list_bind]. rewrite Ht. destruct (parseTarget (b_Value r)) as [p|e]; [|exact (IH s (skip r e g))].
    destruct (IH s (add_block p g)) as [-> ->]. cbn [app]. rewrite !filter_cons_bool. unfold add_block. change (Is4 (p_addr p)) with (prefix4 p).
    destruct (prefix4 p); cbn [v4Blocks v6Blocks Bool.eqb]; by rewrite <- ?app_assoc. }
  rewrite (bool_decide_eq_false_2 _ Hc), andb_true_r.
  destruct (decide (b_RuleType r = BlocklistTypeHostname)) as [Hh|Hh].
  { rewrite (bool_decide_eq_true_2 _ Hh). destruct (resolve (b_Value r) s) as [s' answers].
    assert (targets_of (r, answers) = hostPrefix <$> usable_answers answers) as Ht
      by (unfold targets_of; by rewrite Een, (bool_decide_eq_false_2 _ Hc), (bool_decide_eq_true_2 _ Hh)).
    cbn [mbind list_bind]. rewrite Ht. destruct (usable_answers answers) as [|x l]; [exact (IH s' (skip r hostname_reason g))|].
    destruct (IH s' (foldl (fun g a => add_block (hostPrefix a) g) g (x :: l))) as [-> ->].
    destruct (add_blocks_spec (x :: l) g) as [-> ->]. by rewrite !filter_app, <- !app_assoc. }
  rewrite (bool_decide_eq_false_2 _ Hh).
  assert (targets_of (r, []) = []) as Ht
    by (unfold targets_of; by rewrite Een, (bool_decide_eq_false_2 _ Hc), (bool_decide_eq_false_2 _ Hh)).
  cbn [mbind list_bind]. rewrite Ht. cbn [app].
  destruct (bool_decide _); [exact (IH s (skip r wildcard_reason g))|exact (IH s (skip r _ g))].
Qed.

(** The rules, split by family as the compiler files them. *)
Lemma add_control_spec addrs port : forall c c', 1 <= port <= 65535 -> add_control addrs port c = Ok c' ->
  let l := (fun a => NstunRule actionAllow protoTCP (hostPrefix a) port) <$> addrs in
  rules4 c' = rules4 c ++ filter (fun r => dst4 r = true) l /\ rules6 c' = rules6 c ++ filter (fun r => dst4 r = false) l.
Proof.
  induction addrs as [|a addrs IH]; intros c c' Hp; cbn [add_control]; [intros [= <-]; cbn; by rewrite !app_nil_r|].
  destruct (negb _); [done|]. unfold portToUint16. destruct (Z.ltb_spec port 1); [lia|]. destruct (Z.ltb_spec 65535 port); [lia|].
  cbn [orb]. intros H'. destruct (IH _ _ Hp H') as [-> ->]. cbn [fmap list_fmap]. rewrite !filter_cons_bool.
  unfold addByFamily. set (r := NstunRule _ _ _ _). change (Is4 (p_addr (dst r))) with (dst4 r).
  destruct (dst4 r); cbn [Bool.eqb app]; cbn; by rewrite <- ?app_assoc.
Qed.

Lemma add_rules_spec (l : list nstunRule) : forall c, let c' := foldl (fun c r => addByFamily r c) c l in
  rules4 c' = rules4 c ++ filter (fun r => dst4 r = true) l /\ rules6 c' = rules6 c ++ filter (fun r => dst4 r = false) l.
Proof.
  induction l as [|r l IH]; intros c; cbn [foldl]; [cbn; by rewrite !app_nil_r|].
  destruct (IH (addByFamily r c)) as [-> ->]. rewrite !filter_cons_bool. unfold addByFamily.
  change (Is4 (p_addr (dst r))) with (dst4 r). unfold add4, add6, count.
  destruct (dst4 r), (act r); cbn; by rewrite <- ?app_assoc.
Qed.

Lemma add_dns_rules servers : forall c,
  add_dns servers c = foldl (fun c r => addByFamily r c) c
    (s ← filter (fun s => usableTarget s = true) servers; (fun p => NstunRule actionAllow p (hostPrefix s) 53) <$> [protoUDP; protoTCP]).
Proof.
  unfold add_dns. induction servers as [|s servers IH]; intros c; [done|]. cbn [foldl]. rewrite IH, filter_cons_bool.
  destruct (usableTarget s); [|done]. cbn [Bool.eqb app mbind list_bind]. by rewrite foldl_app.
Qed.

Lemma add_rejects4 l : forall c, let c' := foldl (fun c p => add4 (NstunRule actionReject protoAny p 0) c) c l in
  rules4 c' = rules4 c ++ (reject_rule <$> l) /\ rules6 c' = rules6 c.
Proof.
  induction l as [|p l IH]; intros c; cbn [foldl]; [cbn; by rewrite app_nil_r|].
  destruct (IH (add4 (NstunRule actionReject protoAny p 0) c)) as [-> ->]. cbn. by rewrite <- app_assoc.
Qed.

Lemma add_rejects6 l : forall c, let c' := foldl (fun c p => add6 (NstunRule actionReject protoAny p 0) c) c l in
  rules6 c' = rules6 c ++ (reject_rule <$> l) /\ rules4 c' = rules4 c.
Proof.
  induction l as [|p l IH]; intros c; cbn [foldl]; [cbn; by rewrite app_nil_r|].
  destruct (IH (add6 (NstunRule actionReject protoAny p 0) c)) as [-> ->]. cbn. by rewrite <- app_assoc.
Qed.

Lemma compile_spec {S} (resolve : string -> S -> S * list string) rules cp dnsServers s s' c :
  compile resolve rules cp DefaultGuestNet dnsServers s = (s', Ok c) ->
  let l := consult resolve rules s ≫= targets_of in
  let k := carve_outs cp dnsServers in
  1 <= cp_Port cp <= 65535 /\
  rules4 c = filter (fun r => dst4 r = true) k ++ (reject_rule <$> canonPrefixes (filter (fun p => prefix4 p = true) l)) /\
  rules6 c = filter (fun r => dst4 r = false) k ++ (reject_rule <$> canonPrefixes (filter (fun p => prefix4 p = false) l)).
Proof.
  unfold compile, carve_outs. destruct (cp_Addrs cp) as [|a0 addrs] eqn:Ea; [done|]. rewrite <- Ea. clear a0 addrs Ea.
  destruct (_ || _) eqn:Ep; [done|]. zbool. destruct (add_control _ _ _) as [c1|] eqn:Ec; [|done].
  assert (1 <= cp_Port cp <= 65535) as Hp by lia. destruct (add_control_spec _ _ _ _ Hp Ec) as [H4 H6].
  destruct (gather resolve rules s (Gathered [] [] [])) as [s1 g] eqn:Eg. intros [= _ <-].
  pose proof (gather_spec resolve rules s (Gathered [] [] [])) as Hg. rewrite Eg in Hg. cbn [snd v4Blocks v6Blocks app] in Hg.
  destruct Hg as [<- <-]. split; [done|].
  repeat match goal with |- context [foldl (fun c p => add6 (NstunRule actionReject protoAny p 0) c) ?c0 ?l] =>
    destruct (add_rejects6 l c0) as [-> ->] end.
  repeat match goal with |- context [foldl (fun c p => add4 (NstunRule actionReject protoAny p 0) c) ?c0 ?l] =>
    destruct (add_rejects4 l c0) as [-> ->] end.
  cbn [rules4 rules6].
  rewrite add_dns_rules.
  match goal with |- context [foldl (fun c r => addByFamily r c) c1 ?l] => destruct (add_rules_spec l c1) as [-> ->] end.
  rewrite H4, H6, !filter_app. split; by rewrite <- !app_assoc.
Qed.

Lemma Contains_family p a : Contains p a = true -> Is4 (p_addr p) = Is4 a /\ Is6 a = negb (Is4 a).
Proof. unfold Contains. destruct (p_addr p), a; cbn; rewrite ?andb_false_r; done. Qed.

Lemma existsb_false {A} (f : A -> bool) l : existsb f l = false <-> forall x, x ∈ l -> f x = false.
Proof.
  induction l as [|x l IH]; cbn; [split; [by intros _ ? ?%elem_of_nil|done]|]. rewrite orb_false_iff, IH. split.
  - intros [H1 H2] y [->|?]%elem_of_cons; auto.
  - intros H'. split; [apply H'; left|]. intros y Hy. apply H'. by right.
Qed.

Lemma existsb_true {A} (f : A -> bool) l : existsb f l = true <-> exists x, x ∈ l /\ f x = true.
Proof. rewrite existsb_exists. by setoid_rewrite list_elem_of_In. Qed.

Lemma Forall_filter {A} (P Q : A -> Prop) `{forall x, Decision (Q x)} l : Forall P l -> Forall P (filter Q l).
Proof. rewrite !Forall_forall. intros Hl x [_ Hx]%list_elem_of_filter. by apply Hl. Qed.

Lemma existsb_fmap {A B} (f : B -> bool) (g : A -> B) l : existsb f (g <$> l) = existsb (fun x => f (g x)) l.
Proof. induction l as [|x l IH]; cbn; [done|]. by rewrite <- IH. Qed.

Lemma existsb_ext {A} (f g : A -> bool) l : (forall x, f x = g x) -> existsb f l = existsb g l.
Proof. intros H. induction l as [|x l IH]; cbn; [done|]. by rewrite H, IH. Qed.

Lemma existsb_andb {A} (b : bool) (f : A -> bool) l : existsb (fun x => f x && b) l = b && existsb f l.
Proof. induction l as [|x l IH]; cbn; [by destruct b|]. rewrite IH. by destruct b, (f x), (existsb f l). Qed.

(** Restricting to the address's own family loses no match. *)
Lemma existsb_family {A} (q : A -> Prefix) (f : A -> bool) a l :
  (forall x, f x = true -> Contains (q x) a = true) ->
  existsb f (filter (fun x => Is4 (p_addr (q x)) = negb (Is6 a)) l) = existsb f l.
Proof.
  intros Hf. apply eq_true_iff_eq. rewrite !existsb_true. split; intros (x & Hx & Ht).
  - apply list_elem_of_filter in Hx as [_ Hx]. by exists x.
  - exists x. split; [|done]. apply list_elem_of_filter. split; [|done].
    destruct (Contains_family _ _ (Hf x Ht)) as [-> ->]. by rewrite negb_involutive.
Qed.

Lemma first_match_spec l ps a port :
  Forall (fun r => act r = actionAllow) l ->
  first_match (l ++ (reject_rule <$> ps)) a port = negb (existsb (matches a port) l) && existsb (fun p => Contains p a) ps.
Proof.
  induction 1 as [|r l Hr Hl IH].
  - cbn [app existsb negb andb]. induction ps as [|p ps IH]; [done|]. cbn. destruct (Contains p a); [done|]. apply IH.
  - cbn [app first_match existsb]. unfold matches at 1. destruct (Contains (dst r) a); cbn [negb andb]; [|exact IH].
    destruct (dport r =? 0), (dport r =? port); cbn [negb andb orb]; try exact IH; by rewrite Hr.
Qed.

Lemma carve_outs_allow cp dns : Forall (fun r => act r = actionAllow) (carve_outs cp dns).
Proof.
  unfold carve_outs. rewrite !Forall_app. split_and!; [by repeat constructor|by apply Forall_fmap, Forall_true|].
  apply Forall_forall. intros r (s & Hr & _)%list_elem_of_bind. by apply list_elem_of_fmap in Hr as (p & -> & _).
Qed.

Lemma carve_outs_match cp dns a port : 1 <= cp_Port cp ->
  existsb (matches a port) (carve_outs cp dns) =
  existsb (fun g => Contains (hostPrefix g) a) [GW4 DefaultGuestNet; GW6 DefaultGuestNet] ||
  (port =? cp_Port cp) && existsb (fun e => Contains (hostPrefix e) a) (cp_Addrs cp) ||
  (port =? 53) && existsb (fun s => usableTarget s && Contains (hostPrefix s) a) dns.
Proof.
  intros Hp. unfold carve_outs. rewrite !existsb_app, existsb_fmap, orb_assoc. f_equal; [f_equal|].
  - unfold matches. cbn [existsb dst dport Z.eqb orb]. by rewrite !andb_true_r.
  - rewrite <- existsb_andb. apply existsb_ext. intros e. unfold matches. cbn [dst dport].
    destruct (Z.eqb_spec (cp_Port cp) 0); [lia|]. cbn [orb]. by rewrite Z.eqb_sym.
  - induction dns as [|s dns IH]; [by rewrite andb_false_r|]. rewrite filter_cons_bool. cbn [existsb].
    destruct (usableTarget s); cbn [Bool.eqb app mbind list_bind andb orb]; [|exact IH].
    rewrite existsb_app. etransitivity; [apply (f_equal2 orb); [reflexivity|exact IH]|]. unfold matches. cbn [fmap list_fmap existsb dst dport].
    change (53 =? 0) with false. cbn [orb]. rewrite (Z.eqb_sym 53 port). by destruct (Contains _ a), (port =? 53), (existsb _ dns).
Qed.

(** *** Rendering *)

Lemma trim_left_keeps x sp fuel : forall l, (forall p, p ∈ sp -> x ∉ p) -> x ∈ l -> x ∈ trim_left fuel sp l.
Proof.
  induction fuel as [|fuel IH]; intros l Hsp Hx; [done|]. cbn [trim_left].
  destruct (List.find _ sp) as [p|] eqn:E; [|done]. apply List.find_some in E as [Hp Hs]. apply list_elem_of_In in Hp.
  apply IH; [done|]. unfold starts_with in Hs. apply bool_decide_eq_true in Hs. rewrite <- (take_drop (length p) l) in Hx.
  apply elem_of_app in Hx as [Hx|]; [|done]. rewrite Hs in Hx. by destruct (Hsp p Hp).
Qed.

Lemma of_bytes_in x l : 0 <= x < 256 -> x ∈ l -> x ∈ bytes (of_bytes l).
Proof.
  intros Hx. induction l as [|y l IH]; [done|]. intros [<-|Hin]%elem_of_cons; cbn; [rewrite ord_chr by done; left|].
  right. by apply IH.
Qed.

(** A byte of a rendered line. *)
Definition line_byte (c : Z) : Prop := 0 <= c < 256 /\ c <> 10.

Lemma trim_colon line t : 58 ∈ line -> existsb (Z.eqb 58) (bytes t) = false -> trimSpace (of_bytes line) <> t.
Proof.
  intros Hc Ht <-. rewrite existsb_false in Ht. enough (58 ∈ bytes (trimSpace (of_bytes line))) as Hin by (by specialize (Ht _ Hin)).
  assert (forall p, p ∈ spaces -> 58 ∉ p) as H1.
  { apply Forall_forall. refine (bool_decide_unpack _ _). vm_compute. exact I. }
  assert (forall p, p ∈ map (@rev Z) spaces -> 58 ∉ p) as H2.
  { apply Forall_forall. refine (bool_decide_unpack _ _). vm_compute. exact I. }
  assert (forall l : list Z, 58 ∈ l -> 58 ∈ rev l) as Hrev by (intros l; by rewrite !list_elem_of_In, <- in_rev).
  unfold trimSpace. apply of_bytes_in; [done|]. apply Hrev, trim_left_keeps; [done|]. apply Hrev, trim_left_keeps; [done|].
  by apply of_bytes_in.
Qed.

Lemma split_lines ls : Forall (Forall line_byte) ls -> split 10 (flat_map (fun l => l ++ [10]) ls) = ls ++ [[]].
Proof.
  assert (forall l r, Forall line_byte l -> split 10 (l ++ 10 :: r) = l :: split 10 r) as Hl.
  { induction 1 as [|c l [_ Hc] Hl IH]; [done|]. cbn. apply Z.eqb_neq in Hc. by rewrite Hc, IH. }
  induction 1 as [|l ls Hx Hls IH]; [done|]. cbn [flat_map]. rewrite <- app_assoc. cbn [app]. by rewrite Hl, IH.
Qed.

(** How many of the lines open a rule of each family. *)
Definition opens (ls : list (list Z)) : Z * Z :=
  (zsum (fun l => if bool_decide (trimSpace (of_bytes l) = "rule4 {"%string) then 1 else 0) ls,
   zsum (fun l => if bool_decide (trimSpace (of_bytes l) = "rule6 {"%string) then 1 else 0) ls).

Lemma countRuleBlocks_opens ls : Forall (Forall line_byte) ls -> countRuleBlocks (flat_map (fun l => l ++ [10]) ls) = opens ls.
Proof.
  intros Hls. unfold countRuleBlocks. rewrite split_lines by done. rewrite foldl_app. cbn [foldl].
  assert (forall ls a b, foldl (fun '(v4, v6) line => let t := trimSpace (of_bytes line) in
    if bool_decide (t = "rule4 {"%string) then (v4 + 1, v6)
    else if bool_decide (t = "rule6 {"%string) then (v4, v6 + 1) else (v4, v6)) (a, b) ls = (a + (opens ls).1, b + (opens ls).2)) as Hf.
  { clear. induction ls as [|l ls IH]; intros a b; [cbn; f_equal; lia|]. cbn [foldl]. unfold opens. cbn [zsum fst snd foldr].
    unfold opens, zsum in IH. cbn [fst snd] in IH. set (t := trimSpace (of_bytes l)).
    destruct (decide (t = "rule4 {"%string)) as [->|H4].
    - rewrite bool_decide_true, bool_decide_false by done. rewrite IH. f_equal; lia.
    - rewrite bool_decide_false by done. case_bool_decide; rewrite IH; f_equal; lia. }
  rewrite Hf. rewrite bool_decide_false, bool_decide_false by done. by destruct (opens ls).
Qed.

Lemma opens_app l1 l2 : opens (l1 ++ l2) = ((opens l1).1 + (opens l2).1, (opens l1).2 + (opens l2).2).
Proof. unfold opens. cbn [fst snd]. by rewrite !zsum_app. Qed.

Lemma opens_colon l ls : 58 ∈ l -> opens (l :: ls) = opens ls.
Proof. intros Hc. unfold opens. cbn [zsum foldr]. by rewrite !bool_decide_false by (by apply trim_colon). Qed.

Definition plain_text (l : list Z) : Prop := Forall line_byte l.

Lemma bytes_line s : forallb (fun c => (0 <=? c) && (c <? 256) && negb (c =? 10)) (bytes s) = true -> plain_text (bytes s).
Proof.
  intros H. apply Forall_forall. intros c Hc%list_elem_of_In. rewrite forallb_forall in H. specialize (H c Hc). zbool.
  unfold line_byte. lia.
Qed.

Lemma addr_char_line c : addr_char c -> line_byte c.
Proof. intros (d & Hd & ->). unfold line_byte, hex_digit_of. destruct (Z.ltb_spec d 10); lia. Qed.

Lemma text4_line a : plain_text (text4 a).
Proof.
  apply join_chars; [done|]. apply Forall_forall. intros x (o & -> & _)%list_elem_of_fmap.
  eapply Forall_impl; [apply itoa_chars|apply addr_char_line].
Qed.

Lemma itoa_line n : plain_text (itoa n).
Proof. eapply Forall_impl; [apply itoa_chars|apply addr_char_line]. Qed.

Lemma AddrString_line a : hasZone a = false -> plain_text (AddrString a).
Proof.
  unfold plain_text. destruct a as [|x|x [|c z]]; intros Hz; [by apply bytes_line|apply text4_line| |done]. cbn [AddrString zone_text].
  destruct (Is4In6 _); rewrite ?app_nil_r, ?Forall_app.
  - split_and!; [by apply bytes_line|apply text4_line].
  - eapply Forall_impl; [apply text6_chars|]. intros c [?| ->]; [by apply addr_char_line|done].
Qed.

Lemma PrefixString_line p : hasZone (p_addr p) = false -> plain_text (PrefixString p).
Proof.
  intros Hz. unfold PrefixString. destruct (PrefixIsValid p); [|by apply bytes_line]. unfold plain_text. rewrite !Forall_app.
  split_and!; [by apply AddrString_line|by repeat constructor|apply itoa_line].
Qed.

Lemma rule_lines_opens field r v4 : hasZone (p_addr (dst r)) = false -> field = "rule4"%string \/ field = "rule6"%string ->
  Forall plain_text (rule_lines field r v4) /\
  opens (rule_lines field r v4) = if bool_decide (field = "rule4"%string) then (1, 0) else (0, 1).
Proof.
  intros Hz Hf. pose proof (PrefixString_line _ Hz) as Hp. pose proof (itoa_line (dport r)) as Hi. unfold rule_lines.
  assert (forall s l, forallb (fun c => (0 <=? c) && (c <? 256) && negb (c =? 10)) (bytes s) = true -> plain_text l ->
    plain_text (bytes s ++ l)) as Happ by (intros; apply Forall_app; split; [by apply bytes_line|done]).
  assert (plain_text (quoted (PrefixString (dst r)))) as Hq.
  { unfold plain_text, quoted. rewrite !Forall_app. split_and!; [by repeat constructor|done|by repeat constructor]. }
  assert (forall s l, existsb (Z.eqb 58) (bytes s) = true -> 58 ∈ bytes s ++ l) as Hcol.
  { intros s l (x & Hx & <-%Z.eqb_eq)%existsb_true. apply elem_of_app. by left. }
  split.
  - apply Forall_app. split; [|apply Forall_app; split; [|apply Forall_app; split]].
    + rewrite !Forall_cons. split_and!; [destruct Hf as [-> | ->]; [exact (bytes_line "  rule4 {" eq_refl)|exact (bytes_line "  rule6 {" eq_refl)]|
        by apply bytes_line|
        apply Happ; [done|by destruct (act r); apply bytes_line]|apply Happ; [done|by destruct (pr r); apply bytes_line]|
        by apply Happ|apply Forall_nil_2].
    + destruct (_ =? 0); [apply Forall_nil_2|]. rewrite !Forall_cons. split_and!; [by apply Happ..|apply Forall_nil_2].
    + destruct v4; [|apply Forall_nil_2]. rewrite !Forall_cons. split; [by apply Happ; [done|vm_compute; repeat constructor]|apply Forall_nil_2].
    + rewrite !Forall_cons. split; [by apply bytes_line|apply Forall_nil_2].
  - cbn [app]. match goal with |- opens (?x :: ?l) = _ => pose proof (opens_app [x] l) as E; cbn [app] in E; rewrite E; clear E; set (o1 := opens [x]) end.
    rewrite (opens_colon (bytes "    direction: GUEST_TO_HOST")) by (rewrite <- (app_nil_r (bytes _)); by apply Hcol).
    rewrite !opens_colon by (by apply Hcol). rewrite !opens_app.
    assert (opens (if dport r =? 0 then [] else [bytes "    dport: " ++ itoa (dport r); bytes "    dport_end: " ++ itoa (dport r)]) = (0, 0)) as ->.
    { destruct (_ =? 0); [done|]. by rewrite !opens_colon by (by apply Hcol). }
    assert (opens (if v4 then [bytes "    redirect_ip: " ++ quoted (bytes "0.0.0.0")] else []) = (0, 0)) as ->.
    { destruct v4; [|done]. by rewrite !opens_colon by (by apply Hcol). }
    subst o1. destruct Hf as [-> | ->]; by vm_compute.
Qed.
Definition zoneless (r : nstunRule) : Prop := hasZone (p_addr (dst r)) = false.

Lemma hostPrefix_zoneless a : hasZone (p_addr (hostPrefix a)) = false.
Proof. by destruct a. Qed.

Lemma all_rules_opens field v4 rs : field = "rule4"%string \/ field = "rule6"%string -> Forall zoneless rs ->
  Forall plain_text (flat_map (fun r => rule_lines field r v4) rs) /\
  opens (flat_map (fun r => rule_lines field r v4) rs) =
    if bool_decide (field = "rule4"%string) then (Z.of_nat (length rs), 0) else (0, Z.of_nat (length rs)).
Proof.
  intros Hf. induction 1 as [|r rs Hr Hrs [IH1 IH2]]; [split; [constructor|by case_bool_decide]|].
  cbn [flat_map length]. destruct (rule_lines_opens field r v4 Hr Hf) as [H1 H2]. split; [by apply Forall_app|].
  rewrite opens_app, H2, IH2. case_bool_decide; cbn [fst snd]; f_equal; lia.
Qed.

Lemma render_rule_count c : Forall zoneless (rules4 c) -> Forall zoneless (rules6 c) ->
  countRuleBlocks (render c DefaultGuestNet) = (Z.of_nat (length (rules4 c)), Z.of_nat (length (rules6 c))).
Proof.
  intros H4 H6. unfold render. destruct (all_rules_opens "rule4" true _ (or_introl eq_refl) H4) as [L4 O4].
  destruct (all_rules_opens "rule6" false _ (or_intror eq_refl) H6) as [L6 O6]. unfold policy_lines.
  match goal with |- context [flat_map _ (?h ++ _)] => set (head := h) end.
  rewrite countRuleBlocks_opens.
  - rewrite !opens_app, O4, O6. assert (opens head = (0, 0)) as -> by (by vm_compute).
    assert (opens [bytes "}"] = (0, 0)) as -> by (by vm_compute). rewrite bool_decide_true, bool_decide_false by done. cbn [fst snd]. f_equal; lia.
  - assert (forall ls, forallb (forallb (fun c => (0 <=? c) && (c <? 256) && negb (c =? 10))) ls = true -> Forall plain_text ls) as Hls.
    { intros ls Hls. apply Forall_forall. intros l Hl%list_elem_of_In. rewrite forallb_forall in Hls. specialize (Hls l Hl).
      apply Forall_forall. intros x Hx%list_elem_of_In. rewrite forallb_forall in Hls. specialize (Hls x Hx). zbool. unfold line_byte. lia. }
    rewrite !Forall_app. split_and!; [by apply Hls|done|done|by apply Hls].
Qed.

Lemma compile_zoneless {S} (resolve : string -> S -> S * list string) rules cp dnsServers s s' c :
  compile resolve rules cp DefaultGuestNet dnsServers s = (s', Ok c) -> Forall zoneless (rules4 c) /\ Forall zoneless (rules6 c).
Proof.
  intros Hc. destruct (compile_spec _ _ _ _ _ _ _ Hc) as (_ & -> & ->).
  assert (Forall zoneless (carve_outs cp dnsServers)) as Hk.
  { unfold carve_outs. rewrite !Forall_app. split_and!; [by repeat constructor| |].
    - apply Forall_fmap, Forall_true. intros a. apply hostPrefix_zoneless.
    - apply Forall_forall. intros r (a & Hr & _)%list_elem_of_bind. apply list_elem_of_fmap in Hr as (p & -> & _).
      apply hostPrefix_zoneless. }
  assert (forall l, Forall plain_prefix l -> Forall zoneless (reject_rule <$> canonPrefixes l)) as Hl.
  { intros l Hl. apply Forall_fmap, Forall_forall. intros p Hp. rewrite canonPrefixes_in in Hp by done.
    rewrite Forall_forall in Hl. destruct (Hl _ Hp) as [Ha _]. unfold zoneless. cbn. destruct (p_addr p) as [| |? []]; try done.
    by destruct Ha as (_ & ? & _). }
  assert (Forall plain_prefix (consult resolve rules s ≫= targets_of)) as Ht.
  { apply Forall_forall. intros p (ra & Hra & _)%list_elem_of_bind. by eapply targets_plain. }
  split; apply Forall_app; split; try (by apply Forall_filter); apply Hl; by apply Forall_filter.
Qed.

(** *** The canonical order *)

#[export] Instance prefix_le_total : Total prefix_le.
Proof. intros p q. unfold prefix_le. apply (total str_le). Qed.
#[export] Instance prefix_le_trans : Transitive prefix_le.
Proof. intros p q r. unfold prefix_le. apply transitivity. Qed.

Lemma of_bytes_inj_ascii l1 l2 : plain_text l1 -> plain_text l2 -> of_bytes l1 = of_bytes l2 -> l1 = l2.
Proof.
  intros H1 H2 He. assert (forall l, plain_text l -> bytes (of_bytes l) = l) as Hb.
  { induction 1 as [|b l [Hb _] Hl IH]; [done|]. cbn. by rewrite ord_chr, IH. }
  by rewrite <- (Hb l1), <- (Hb l2), He.
Qed.

Lemma plain_prefix_line p : plain_prefix p -> plain_text (PrefixString p).
Proof.
  intros [Ha _]. apply PrefixString_line. destruct (p_addr p) as [| |? []]; try done. by destruct Ha as (_ & ? & _).
Qed.

Lemma dedup_prefixes_nodup l : forall seen, Forall plain_prefix l -> NoDup (dedup_prefixes seen l).
Proof.
  induction l as [|q l IH]; intros seen Hl; cbn [dedup_prefixes]; [constructor|]. apply Forall_cons in Hl as [Hq Hl].
  case_bool_decide; [by apply IH|]. constructor; [|by apply IH]. rewrite dedup_prefixes_in by done. intros [_ Hn]. apply Hn. left.
Qed.

Lemma canonPrefixes_ext l1 l2 : Forall plain_prefix l1 -> Forall plain_prefix l2 -> (forall p, p ∈ l1 <-> p ∈ l2) ->
  canonPrefixes l1 = canonPrefixes l2.
Proof.
  intros H1 H2 Hin. apply (StronglySorted_unique_strong prefix_le).
  - intros p q Hp Hq Hpq Hqp. rewrite canonPrefixes_in in Hp, Hq by done. rewrite Forall_forall in H1, H2.
    specialize (H1 _ Hp). specialize (H2 _ Hq). apply PrefixString_inj; [done..|].
    apply of_bytes_inj_ascii; [by apply plain_prefix_line..|]. by apply (anti_symm str_le).
  - apply StronglySorted_merge_sort; apply _.
  - apply StronglySorted_merge_sort; apply _.
  - unfold canonPrefixes. rewrite !merge_sort_Permutation. apply NoDup_Permutation; [by apply dedup_prefixes_nodup..|].
    intros p. rewrite <- (merge_sort_Permutation prefix_le (dedup_prefixes [] l1)), <- (merge_sort_Permutation prefix_le (dedup_prefixes [] l2)).
    fold (canonPrefixes l1) (canonPrefixes l2). by rewrite !canonPrefixes_in.
Qed.

(* ------------------------------------------------------------------ *)
(** ** Theorems *)

(** A target the check lets through although masking turns it into the
    all-zero address, which the enforcer takes for any address at all. *)
Lemma wide_target_is_match_any :
  exists p, parseTarget "10.0.0.0/4" = Ok p /\ IsUnspecified (p_addr p) = true /\
    Contains p (MustParseAddr "0.0.0.1") = true /\ parseTarget "0.0.0.0/4" = Err "unspecified address is not allowed: 0.0.0.0/4"%string.
Proof. exists (MkPrefix (V4 0) 4). by vm_compute. Qed.

(** A destination with a zone is covered by no prefix, so nothing blocks it. *)
Lemma zoned_destination_passes p x z port : z <> [] -> Is4In6 (V6 x z) = false -> Blocks p (V6 x z) port = false.
Proof.
  intros Hz H4. destruct p as [p|]; [|done]. unfold Blocks, Unmap. rewrite H4. cbn [IsValid negb Is6].
  destruct (IsLoopback _); [done|]. destruct (existsb _ _); [done|].
  induction (p_rules6 p) as [|r rs IH]; [done|]. cbn [first_match]. unfold Contains at 1. destruct z; [done|].
  cbn [hasZone negb]. by rewrite andb_false_r.
Qed.

(** C15.  The published policy blocks exactly what the operator listed.  For
    every rule table, every answer of the resolver and every configuration,
    a connection of the daemon to a valid address is refused if and only if
    some enabled CIDR row, or some address an enabled host name resolved to,
    covers it, and it is not one of the carve-outs (the daemon itself, the
    guest's gateways, the control plane on its own port, the resolvers on
    port 53): neither the order of the rules, nor their grouping by family,
    nor dropping duplicates by their printed form loses or adds a block. *)
Theorem policy_blocks_exactly {S} (resolve : string -> S -> S * list string) rules cp dnsServers s s' c gen path now addr port :
  compile resolve rules cp DefaultGuestNet dnsServers s = (s', Ok c) -> IsValid addr = true ->
  Blocks (Some (new_policy gen path now cp c)) addr port =
  negb (spared cp dnsServers (Unmap addr) port) &&
  existsb (fun p => Contains p (Unmap addr)) (consult resolve rules s ≫= targets_of).
Proof.
  intros Hc Hv. destruct (compile_spec _ _ _ _ _ _ _ Hc) as (Hp & H4 & H6). unfold Blocks, new_policy. rewrite Hv.
  cbn [negb p_rules4 p_rules6 exemptAddrs exemptPort]. set (a := Unmap addr).
  unfold portToUint16. destruct (Z.ltb_spec (cp_Port cp) 1); [lia|]. destruct (Z.ltb_spec 65535 (cp_Port cp)); [lia|].
  cbn [orb default from_option id]. unfold spared. destruct (IsLoopback a); [done|]. cbn [orb].
  set (l := consult resolve rules s ≫= targets_of) in *. rewrite existsb_andb.
  assert (Forall plain_prefix l) as Hl.
  { apply Forall_forall. intros p (ra & Hra & _)%list_elem_of_bind. by eapply targets_plain. }
  assert (first_match (if Is6 a then rules6 c else rules4 c) a port =
          negb (existsb (matches a port) (carve_outs cp dnsServers)) && existsb (fun p => Contains p a) l) as ->.
  { transitivity (first_match (filter (fun r => dst4 r = negb (Is6 a)) (carve_outs cp dnsServers) ++
      (reject_rule <$> canonPrefixes (filter (fun p => prefix4 p = negb (Is6 a)) l))) a port).
    { destruct (Is6 a); by rewrite ?H4, ?H6. }
    rewrite first_match_spec by (apply Forall_filter, carve_outs_allow). f_equal.
    - f_equal. apply (existsb_family dst). unfold matches. by intros r [? _]%andb_true_iff.
    - rewrite <- (existsb_family id _ a l) by done. apply eq_true_iff_eq. rewrite !existsb_true.
      by setoid_rewrite canonPrefixes_in; [|apply Forall_filter]. }
  rewrite carve_outs_match by lia. rewrite <- !orb_assoc.
  destruct (port =? cp_Port cp); cbn [andb orb]; [|by destruct (existsb _ [_; _])].
  assert (existsb (fun e => bool_decide (Unmap e = a) || Contains (hostPrefix e) a) (cp_Addrs cp) =
          existsb (fun e => bool_decide (Unmap e = a)) (cp_Addrs cp) || existsb (fun e => Contains (hostPrefix e) a) (cp_Addrs cp)) as ->.
  { induction (cp_Addrs cp) as [|e es IH]; cbn; [done|]. rewrite IH.
    by destruct (bool_decide (Unmap e = a)), (Contains (hostPrefix e) a), (existsb (fun e => bool_decide (Unmap e = a)) es). }
  destruct (existsb (fun e => bool_decide _) _); cbn [orb negb andb]; [by rewrite orb_true_r|done].
Qed.

(** The policy's generation is a function of what is enforced.  Two
    compilations with the same control plane and resolvers whose rows come to
    the same set of targets -- in another order, with duplicates, after a no-op
    edit, or with the resolver's answers arriving differently -- emit the same
    rules, the same configuration text and so the same generation; and the
    text always passes the count check that guards the renderer. *)
Theorem generation_is_canonical {S} (resolve1 resolve2 : string -> S -> S * list string) rules1 rules2 cp dnsServers s1 s2 s1' s2' c1 c2 :
  compile resolve1 rules1 cp DefaultGuestNet dnsServers s1 = (s1', Ok c1) ->
  compile resolve2 rules2 cp DefaultGuestNet dnsServers s2 = (s2', Ok c2) ->
  (forall p, p ∈ (consult resolve1 rules1 s1 ≫= targets_of) <-> p ∈ (consult resolve2 rules2 s2 ≫= targets_of)) ->
  rules4 c1 = rules4 c2 /\ rules6 c1 = rules6 c2 /\
  genOf (render c1 DefaultGuestNet) = genOf (render c2 DefaultGuestNet) /\
  countRuleBlocks (render c1 DefaultGuestNet) = (Z.of_nat (length (rules4 c1)), Z.of_nat (length (rules6 c1))).
Proof.
  intros Hc1 Hc2 Hin. destruct (compile_zoneless _ _ _ _ _ _ _ Hc1) as [Z4 Z6].
  destruct (compile_spec _ _ _ _ _ _ _ Hc1) as (_ & E4 & E6). destruct (compile_spec _ _ _ _ _ _ _ Hc2) as (_ & F4 & F6).
  assert (forall (resolve : string -> S -> S * list string) rules s, Forall plain_prefix (consult resolve rules s ≫= targets_of)) as Ht.
  { intros resolve rules s. apply Forall_forall. intros p (ra & Hra & _)%list_elem_of_bind. by eapply targets_plain. }
  assert (forall b, canonPrefixes (filter (fun p => prefix4 p = b) (consult resolve1 rules1 s1 ≫= targets_of)) =
                    canonPrefixes (filter (fun p => prefix4 p = b) (consult resolve2 rules2 s2 ≫= targets_of))) as Hcan.
  { intros b. apply canonPrefixes_ext; [by apply Forall_filter..|]. intros p. rewrite !list_elem_of_filter. by rewrite Hin. }
  assert (rules4 c1 = rules4 c2) as R4 by (by rewrite E4, F4, Hcan).
  assert (rules6 c1 = rules6 c2) as R6 by (by rewrite E6, F6, Hcan).
  split_and!; [done|done| |by apply render_rule_count]. unfold genOf, render, policy_lines. by rewrite R4, R6.
Qed.

(* ------------------------------------------------------------------ *)
(** ** Witnesses *)

Definition demo_rules : list BlocklistRule :=
  [Rule 1 "custom" "cidr" "10.0.0.0/8" "" true; Rule 2 "custom" "hostname" "evil.example" "" true;
   Rule 3 "custom" "cidr" "fe80::/10" "" true; Rule 4 "custom" "cidr" "bogus" "" true; Rule 5 "default" "cidr" "192.168.0.0/16" "" false].

Definition demo_resolve (h : string) (s : unit) : unit * list string := (s, ["203.0.113.7"%string; "::ffff:10.1.2.3"%string]).

Definition demo_cp : ControlPlane := MkControlPlane [MustParseAddr "10.0.0.5"] 8443.

Definition demo_compiled (rules : list BlocklistRule) : compiled :=
  match (compile demo_resolve rules demo_cp DefaultGuestNet [MustParseAddr "1.1.1.1"] tt).2 with
  | Ok c => c
  | Err _ => Compiled [] [] [] 0 0
  end.

Lemma policy_blocks_exactly_witness :
  let p := Some (new_policy "g" "f" 0 demo_cp (demo_compiled demo_rules)) in
  map (fun ap => Blocks p (MustParseAddr (fst ap)) (snd ap))
    [("10.1.2.3", 80); ("10.0.0.5", 8443); ("10.0.0.5", 22); ("203.0.113.7", 443); ("192.168.1.1", 80); ("fe80::1", 80); ("8.8.8.8", 80)]%string =
  [true; false; true; true; false; true; false].
Proof.
  intros p. unfold p.
  assert (forall a port, IsValid a = true -> Blocks p a port =
    negb (spared demo_cp [MustParseAddr "1.1.1.1"] (Unmap a) port) &&
    existsb (fun q => Contains q (Unmap a)) (consult demo_resolve demo_rules tt ≫= targets_of)) as H.
  { intros a port Ha. apply (policy_blocks_exactly demo_resolve demo_rules demo_cp [MustParseAddr "1.1.1.1"] tt tt); [vm_compute; reflexivity|exact Ha]. }
  unfold p in H. cbn [map fst snd]. rewrite !H by (vm_compute; reflexivity). vm_compute. reflexivity.
Defined.

Lemma generation_is_canonical_witness :
  genOf (render (demo_compiled demo_rules) DefaultGuestNet) = genOf (render (demo_compiled (rev demo_rules)) DefaultGuestNet).
Proof.
  refine (proj1 (proj2 (proj2 (generation_is_canonical demo_resolve demo_resolve demo_rules (rev demo_rules) demo_cp
    [MustParseAddr "1.1.1.1"] tt tt tt tt (demo_compiled demo_rules) (demo_compiled (rev demo_rules)) _ _ _))));
    [vm_compute; reflexivity|vm_compute; reflexivity|].
  intros p. change (consult demo_resolve (rev demo_rules) tt) with (rev (consult demo_resolve demo_rules tt)).
  rewrite !list_elem_of_bind. setoid_rewrite (list_elem_of_In (rev _)). setoid_rewrite <- in_rev. by setoid_rewrite <- list_elem_of_In.
Defined.
