(* ===== verification/FirewallManager.v ===== *)
(** * The egress policy over time ([firewall/manager.go], [firewall/nstun.go],
    [firewall/dns.go], [database/blocklist.go])

    The rule table and its edits, the resolver memory of host names, one
    refresh from the table to a published generation, and the rate-limited
    recycling of warm workers.  The machine at the end of the definitions is
    the poll loop and the handlers that force a refresh; [refreshMu] makes a
    refresh one step. *)
From S2P Require Import Prelude GoText Sha256 Netip Firewall.
Open Scope Z_scope.

(* ------------------------------------------------------------------ *)
(** ** The rule table *)

Definition blocklist : Type := gmap Z BlocklistRule.

Definition BlocklistKindCustom : string := "custom".

Definition ValidBlocklistRuleType (s : string) : bool :=
  bool_decide (s = BlocklistTypeCIDR) || bool_decide (s = BlocklistTypeHostname) || bool_decide (s = BlocklistTypeWildcard).

Inductive blocklist_error := ErrRuleType (ruleType : string) | ErrNoRows | ErrNotEditable | ErrNotDeletable.

Definition ListEnabledBlocklistRules (T : blocklist) : list BlocklistRule :=
  filter (fun r => b_Enabled r = true) (snd <$> map_to_list T).

(** [id] is the row id the insert is given. *)
Definition InsertCustomBlocklistRule (id : Z) (ruleType value label : string) (enabled : bool) (T : blocklist)
  : res blocklist_error (blocklist * BlocklistRule) :=
  if negb (ValidBlocklistRuleType ruleType) then Err (ErrRuleType ruleType)
  else
    let r := Rule id BlocklistKindCustom ruleType value label enabled in
    Ok (<[id := r]> T, r).

Definition SetBlocklistRuleEnabled (id : Z) (enabled : bool) (T : blocklist) : res blocklist_error blocklist :=
  match T !! id with
  | Some r => Ok (<[id := r <| b_Enabled := enabled |>]> T)
  | None => Err ErrNoRows
  end.

Definition UpdateBlocklistRuleValue (id : Z) (ruleType value label : string) (T : blocklist) : res blocklist_error blocklist :=
  if negb (ValidBlocklistRuleType ruleType) then Err (ErrRuleType ruleType)
  else
    match T !! id with
    | Some r =>
      if bool_decide (b_Kind r = BlocklistKindCustom)
      then Ok (<[id := r <| b_RuleType := ruleType |> <| b_Value := value |> <| b_Label := label |>]> T)
      else Err ErrNotEditable
    | None => Err ErrNotEditable
    end.

Definition DeleteCustomBlocklistRule (id : Z) (T : blocklist) : res blocklist_error blocklist :=
  match T !! id with
  | Some r => if bool_decide (b_Kind r = BlocklistKindCustom) then Ok (delete id T) else Err ErrNotDeletable
  | None => Err ErrNotDeletable
  end.

(* ------------------------------------------------------------------ *)
(** ** The resolvers *)

Definition DefaultDNSServers : list string := ["1.1.1.1"; "8.8.8.8"]%string.

(** [net.ParseIP] accepts what [ParseAddr] does, except a zone. *)
Definition ParseIP (s : string) : bool :=
  match ParseAddr (bytes s) with Some a => negb (hasZone a) | None => false end.

(** The servers of [LoadDNSConfig], from the stored setting. *)
Definition LoadDNSServers (setting : string) : list string :=
  let raw := trimSpace setting in
  if bool_decide (raw = ""%string) then []
  else
    filter (fun s => (negb (bool_decide (s = ""%string)) && ParseIP s && bool_decide (ValidateTarget s = None)) = true)
      ((fun s => trimSpace (of_bytes s)) <$> split 44 (bytes raw)).

Definition dnsServerAddrs (servers : list string) : list Addr :=
  let servers := match servers with [] => DefaultDNSServers | _ => servers end in
  omap (fun s =>
    match ParseAddr (bytes s) with
    | Some a => if usableTarget a then Some (Unmap a) else None
    | None => None
    end) servers.

(* ------------------------------------------------------------------ *)
(** ** Host names *)

Definition hostnameTTL : Z := 30 * minute.
Definition minRetireInterval : Z := 60 * second.

Record hostmem := HostMemory {
  hostSeen : gmap string (gmap string Z);
  hostnameMap : gmap string (list string)
}.

(** [resolveHostname]: [answer] is what the lookup returned, [None] when it failed. *)
Definition resolveHostname (now : Z) (answer : string -> option (list string)) (host : string) (h : hostmem)
  : hostmem * list string :=
  let seen := default ∅ (hostSeen h !! host) in
  let addrs := default [] (answer host) in
  let seen := foldl (fun m a => <[a := now]> m) seen addrs in
  let kept := filter (fun at_ => ~ hostnameTTL < now - at_.2) seen in
  let out := merge_sort str_le (fst <$> map_to_list kept) in
  (HostMemory (<[host := kept]> (hostSeen h)) (<[host := out]> (hostnameMap h)), out).

(* ------------------------------------------------------------------ *)
(** ** The manager *)

Record manager := Mgr {
  policy : option Policy;
  files : gmap string (list Z);                 (** published configurations, by generation *)
  hosts : hostmem;
  resolvedV4 : list (list Z);
  resolvedV6 : list (list Z);
  m_unenforced : list UnenforcedRule;
  lastError : string;
  compileErr : string;
  stale : bool;
  lastSuccess : option Z;
  lastRetire : option Z;
  pendingRetire : bool;
  onPolicyChange : bool;                        (** whether the callback is set *)
  fired : list (Z * string)                     (** history: calls of it, newest first *)
}.
#[export] Instance manager_eta : Eta manager := fun m =>
  Mgr (policy m) (files m) (hosts m) (resolvedV4 m) (resolvedV6 m) (m_unenforced m) (lastError m) (compileErr m) (stale m)
      (lastSuccess m) (lastRetire m) (pendingRetire m) (onPolicyChange m) (fired m).

(** [fs] is what an earlier process left in the policy directory. *)
Definition NewManager (callback : bool) (fs : gmap string (list Z)) : manager :=
  Mgr None fs (HostMemory ∅ ∅) [] [] [] "" "" false None None false callback [].

Definition setCompileError (e : string) (m : manager) : manager := m <| compileErr := e |> <| lastError := e |>.

Definition markStale (reason : string) (m : manager) : manager :=
  m <| compileErr := reason |> <| lastError := reason |> <| stale := bool_decide (is_Some (policy m)) |>.

Definition policyPath (dir gen : string) : string := dir +:+ "/egress-" +:+ gen +:+ ".cfg".

(** What the file system does during a publication. *)
Record disk := Disk { mkdir_err : option string; write_err : option string; rename_err : option string }.

Definition publish (dir gen : string) (rendered : list Z) (d : disk) (fs : gmap string (list Z))
  : res string (gmap string (list Z) * string) :=
  match mkdir_err d with
  | Some e => Err ("create policy dir: " +:+ e)
  | None =>
    match fs !! gen with
    | Some _ => Ok (fs, policyPath dir gen)
    | None =>
      match write_err d with
      | Some e => Err ("write policy: " +:+ e)
      | None =>
        match rename_err d with
        | Some e => Err ("publish policy: " +:+ e)
        | None => Ok (<[gen := rendered]> fs, policyPath dir gen)
        end
      end
    end
  end.

Definition effectiveBlocked (rs : list nstunRule) : list (list Z) :=
  (fun r => PrefixString (dst r)) <$> filter (fun r => act r = actionReject) rs.

Definition within (now : Z) (last : option Z) : bool :=
  match last with Some t => now - t <? minRetireInterval | None => false end.

Definition notifyPolicyChange (now : Z) (gen : string) (m : manager) : manager :=
  if negb (onPolicyChange m) then m
  else if within now (lastRetire m) then m <| pendingRetire := true |>
  else m <| lastRetire := Some now |> <| pendingRetire := false |> <| fired ::= cons (now, gen) |>.

(** [time.Since (m.lastRetire) < minRetireInterval]: never for the zero time. *)
Definition drainPendingRetire (now : Z) (m : manager) : manager :=
  if negb (pendingRetire m) || within now (lastRetire m) then m
  else
    let m := m <| pendingRetire := false |> <| lastRetire := Some now |> in
    if onPolicyChange m then
      match policy m with Some p => m <| fired ::= cons (now, Gen p) |> | None => m end
    else m.

(** What one refresh reads: the clock, the rows (or the read's error), the
    resolver setting, the answers of the resolver, the disk. *)
Record inputs := Inputs {
  i_now : Z; i_rules : res string (list BlocklistRule); i_dns : string;
  i_answer : string -> option (list string); i_disk : disk
}.

Section Manager.
Context (dir : string) (cp : ControlPlane).

Definition refresh (i : inputs) (m : manager) : manager * option string :=
  match i_rules i with
  | Err e => (m, Some ("read blocklist: " +:+ e))
  | Ok rules =>
    let '(h, r) := compile (resolveHostname (i_now i) (i_answer i)) rules cp DefaultGuestNet
                     (dnsServerAddrs (LoadDNSServers (i_dns i))) (hosts m) in
    let m := m <| hosts := h |> in
    match r with
    | Err e => (markStale e m, Some e)
    | Ok c =>
      let rendered := render c DefaultGuestNet in
      let gen := genOf rendered in
      let '(v4, v6) := countRuleBlocks rendered in
      if negb (v4 =? Z.of_nat (length (rules4 c))) || negb (v6 =? Z.of_nat (length (rules6 c)))
      then (markStale "policy render mismatch" m, Some "policy render mismatch"%string)
      else
        let changed := match policy m with None => true | Some p => negb (bool_decide (Gen p = gen)) end in
        match (if changed then
                 match publish dir gen rendered (i_disk i) (files m) with
                 | Err e => Err e
                 | Ok (fs, path) => Ok (m <| files := fs |> <| policy := Some (new_policy gen path (i_now i) cp c) |>)
                 end
               else Ok m) with
        | Err e => (markStale e m, Some e)
        | Ok m =>
          let m := m <| resolvedV4 := effectiveBlocked (rules4 c) |> <| resolvedV6 := effectiveBlocked (rules6 c) |>
                     <| m_unenforced := unenforced c |> <| lastError := ""%string |> <| compileErr := ""%string |>
                     <| stale := false |> <| lastSuccess := Some (i_now i) |> in
          (if changed then notifyPolicyChange (i_now i) gen m else m, None)
        end
    end
  end.

Definition ForceRefresh (i : inputs) (m : manager) : manager * option string :=
  let '(m, err) := refresh i m in
  (match err with Some e => setCompileError e m | None => m end, err).

Definition CurrentPolicy (m : manager) : option Policy := policy m.

Definition EgressPolicy (m : manager) : option (string * string) := (fun p => (Path p, Gen p)) <$> policy m.

(** The poll tick refreshes and drains, the slow tick and a handler only refresh. *)
Inductive event := EPoll (i : inputs) (drained : Z) | EResolve (i : inputs) | EForce (i : inputs).

Definition at_ (e : event) : Z := match e with EPoll i _ | EResolve i | EForce i => i_now i end.
Definition until (e : event) : Z := match e with EPoll i t => t | EResolve i | EForce i => i_now i end.

Definition step (e : event) (m : manager) : manager :=
  match e with
  | EPoll i t => drainPendingRetire t (ForceRefresh i m).1
  | EResolve i | EForce i => (ForceRefresh i m).1
  end.

Fixpoint run (now : Z) (es : list event) (m : manager) : option (Z * manager) :=
  match es with
  | [] => Some (now, m)
  | e :: es => if (now <=? at_ e) && (at_ e <=? until e) then run (until e) es (step e m) else None
  end.

(* ------------------------------------------------------------------ *)
(** ** Lemmas *)

(** The compile step of a refresh, and what it returned. *)
Definition compiles (i : inputs) (m : manager) (c : compiled) : Prop :=
  exists rules h, i_rules i = Ok rules /\
    compile (resolveHostname (i_now i) (i_answer i)) rules cp DefaultGuestNet
      (dnsServerAddrs (LoadDNSServers (i_dns i))) (hosts m) = (h, Ok c).

(** A policy whose generation names the compiled rules it was made from. *)
Definition policy_of (c : compiled) (p : Policy) : Prop :=
  Gen p = genOf (render c DefaultGuestNet).

Definition same_retire (m m' : manager) : Prop :=
  lastRetire m' = lastRetire m /\ pendingRetire m' = pendingRetire m /\ fired m' = fired m /\
  onPolicyChange m' = onPolicyChange m.

Inductive refreshed (i : inputs) (m : manager) : manager -> option string -> Prop :=
| refreshed_fail e m' :
    policy m' = policy m -> files m' = files m -> same_retire m m' ->
    (stale m' = stale m \/ stale m' = bool_decide (is_Some (policy m))) -> refreshed i m m' (Some e)
| refreshed_same c p m' :
    compiles i m c -> policy m = Some p -> policy_of c p ->
    policy m' = policy m -> files m' = files m -> same_retire m m' -> stale m' = false -> refreshed i m m' None
| refreshed_new c rendered gen fs path m1 :
    compiles i m c -> rendered = render c DefaultGuestNet -> gen = genOf rendered ->
    (forall p, policy m = Some p -> Gen p <> gen) ->
    publish dir gen rendered (i_disk i) (files m) = Ok (fs, path) ->
    policy m1 = Some (new_policy gen path (i_now i) cp c) -> files m1 = fs ->
    same_retire m m1 -> stale m1 = false ->
    refreshed i m (notifyPolicyChange (i_now i) gen m1) None.

#[local] Opaque genOf render compile.

Lemma refresh_refreshed i m : refreshed i m (refresh i m).1 (refresh i m).2.
Proof.
  unfold refresh. destruct (i_rules i) as [rules|e] eqn:Er; [|apply refreshed_fail; try done; by left].
  destruct (compile _ rules _ _ _ _) as [h [c|e]] eqn:Ec; [|apply refreshed_fail; try done; by right].
  assert (compiles i m c) as Hc by (exists rules, h; by rewrite Er, Ec).
  pose proof (compile_zoneless _ _ _ _ _ _ _ Ec) as [Hz4 Hz6].
  rewrite (render_rule_count c Hz4 Hz6), !Z.eqb_refl. cbn [negb orb].
  remember (render c DefaultGuestNet) as rendered eqn:Erd. remember (genOf rendered) as gen eqn:Egen.
  change (policy (set_field hosts (fun _ => h) m)) with (policy m).
  change (files (set_field hosts (fun _ => h) m)) with (files m).
  assert (forall p, policy m = Some p -> Gen p = gen -> policy_of c p) as Hof.
  { intros p _ Hg. unfold policy_of. by rewrite Hg, Egen, Erd. }
  assert ((exists p, policy m = Some p /\ Gen p = gen) \/
    match policy m with None => true | Some p => negb (bool_decide (Gen p = gen)) end = true) as [(p & Ep & Hg)|Hne].
  { destruct (policy m) as [p|]; [|by right]. case_bool_decide; [left; by exists p|by right]. }
  - rewrite Ep, Hg, bool_decide_true by done. cbn [negb]. apply (refreshed_same _ _ c p); auto; by cbn.
  - rewrite Hne. cbn [fst snd].
    destruct (publish dir gen rendered (i_disk i) (files m)) as [[fs path]|e] eqn:Epub.
    + cbn [fst snd]. apply (refreshed_new i m c rendered gen fs path); try done. intros p Hp Hg. rewrite Hp, Hg, bool_decide_true in Hne by done. done.
    + apply refreshed_fail; done || by right.
Qed.

Lemma publish_spec gen rendered d fs fs' path : publish dir gen rendered d fs = Ok (fs', path) ->
  path = policyPath dir gen /\ is_Some (fs' !! gen) /\ fs ⊆ fs' /\
  (forall g f, fs' !! g = Some f -> fs !! g = Some f \/ g = gen /\ f = rendered).
Proof.
  unfold publish. destruct (mkdir_err d); [done|]. destruct (fs !! gen) as [f|] eqn:Ef.
  - intros [= <- <-]. split_and!; auto.
  - destruct (write_err d); [done|]. destruct (rename_err d); [done|]. intros [= <- <-].
    split_and!; [done|by exists rendered; rewrite lookup_insert_eq|by apply insert_subseteq|].
    intros g f [[-> <-]|[Hne ?]]%lookup_insert_Some; [by right|by left].
Qed.

Lemma notify_frame now gen m : policy (notifyPolicyChange now gen m) = policy m /\
  files (notifyPolicyChange now gen m) = files m /\ stale (notifyPolicyChange now gen m) = stale m /\
  onPolicyChange (notifyPolicyChange now gen m) = onPolicyChange m.
Proof. unfold notifyPolicyChange. destruct (onPolicyChange m) eqn:E; cbn [negb]; [|done]. by destruct (within now (lastRetire m)). Qed.

Lemma drain_frame now m : policy (drainPendingRetire now m) = policy m /\
  files (drainPendingRetire now m) = files m /\ stale (drainPendingRetire now m) = stale m /\
  onPolicyChange (drainPendingRetire now m) = onPolicyChange m.
Proof.
  unfold drainPendingRetire. destruct (negb _ || _); [done|]. cbn.
  by destruct (onPolicyChange m) eqn:Eo; [destruct (policy m) eqn:Ep|]; cbn; rewrite ?Ep.
Qed.

Lemma ForceRefresh_spec i m : exists m', refreshed i m m' (ForceRefresh i m).2 /\
  policy (ForceRefresh i m).1 = policy m' /\ files (ForceRefresh i m).1 = files m' /\
  stale (ForceRefresh i m).1 = stale m' /\ same_retire m' (ForceRefresh i m).1.
Proof.
  exists (refresh i m).1. pose proof (refresh_refreshed i m) as H. unfold ForceRefresh.
  destruct (refresh i m) as [m' [e|]]; cbn in *; by split_and!.
Qed.

(** *** Published generations *)

Definition hash_named (fs : gmap string (list Z)) : Prop := map_Forall (fun g f => genOf f = g) fs.

(** The published policy was compiled from rows, and its file is on disk. *)
Definition enforces (fs : gmap string (list Z)) (p : Policy) : Prop :=
  is_Some (fs !! Gen p) /\ Path p = policyPath dir (Gen p) /\
  exists rules h h' i c, compile (resolveHostname (i_now i) (i_answer i)) rules cp DefaultGuestNet
      (dnsServerAddrs (LoadDNSServers (i_dns i))) h = (h', Ok c) /\
    p = new_policy (Gen p) (Path p) (CompiledAt p) cp c /\ policy_of c p.

Record sound (m : manager) : Prop := Sound {
  s_named : hash_named (files m);
  s_policy : forall p, policy m = Some p -> enforces (files m) p;
  s_stale : stale m = true -> is_Some (policy m)
}.

Lemma enforces_mono fs fs' p : fs ⊆ fs' -> enforces fs p -> enforces fs' p.
Proof.
  intros Hs ([f Hf] & ? & ?). split_and!; try done. exists f. by eapply lookup_weaken.
Qed.

Lemma refreshed_sound i m m' err : sound m -> refreshed i m m' err ->
  sound m' /\ files m ⊆ files m' /\ (is_Some (policy m) -> is_Some (policy m')).
Proof.
  intros [Hn Hp Hs] H. destruct H as [e m' E1 E2 _ E3|c p m' _ _ _ E1 E2 _ E3|c rendered gen fs path m1 Hc Erd Egen _ Epub E1 E2 _ E3].
  - rewrite E1, E2. split_and!; try done. split; rewrite ?E1, ?E2; try done.
    destruct E3 as [E3|E3]; rewrite E3; [done|by intros ?%bool_decide_eq_true].
  - rewrite E1, E2. split_and!; try done. split; rewrite ?E1, ?E2, ?E3; done.
  - destruct (publish_spec _ _ _ _ _ _ Epub) as (Epath & Hin & Hsub & Hnew).
    destruct (notify_frame (i_now i) gen m1) as (F1 & F2 & F3 & _).
    rewrite F1, F2, E1, E2. split_and!; [|done|by eexists].
    split; rewrite ?F1, ?F2, ?F3, ?E1, ?E2, ?E3; [| |done].
    + intros g f Hf. destruct (Hnew g f Hf) as [?%Hn|[-> ->]]; done.
    + intros p [= <-]. split_and!; [done|done|]. destruct Hc as (rules & h' & _ & Hc).
      exists rules, (hosts m), h', i, c. split_and!; try done. unfold policy_of. by rewrite <- Erd.
Qed.

Lemma step_sound e m : sound m ->
  sound (step e m) /\ files m ⊆ files (step e m) /\ (is_Some (policy m) -> is_Some (policy (step e m))).
Proof.
  intros Hm. assert (forall i, let m' := (ForceRefresh i m).1 in
    sound m' /\ files m ⊆ files m' /\ (is_Some (policy m) -> is_Some (policy m'))) as HF.
  { intros i. destruct (ForceRefresh_spec i m) as (m' & Hr & E1 & E2 & E3 & _).
    destruct (refreshed_sound _ _ _ _ Hm Hr) as ([A B C] & ? & ?). cbv zeta. rewrite E1, E2. split_and!; try done.
    split; by rewrite ?E1, ?E2, ?E3. }
  destruct e as [i t|i|i]; cbn [step]; [|apply HF..]. destruct (HF i) as ([A B C] & ? & ?).
  destruct (drain_frame t (ForceRefresh i m).1) as (E1 & E2 & E3 & _). rewrite E1, E2. split_and!; try done.
  split; by rewrite ?E1, ?E2, ?E3.
Qed.

Lemma run_sound es : forall now m now' m', sound m -> run now es m = Some (now', m') ->
  sound m' /\ files m ⊆ files m' /\ (is_Some (policy m) -> is_Some (policy m')).
Proof.
  induction es as [|e es IH]; cbn [run]; intros now m now' m' Hm; [by intros [= <- <-]|].
  destruct (_ && _); [|done]. intros Hr. destruct (step_sound e m Hm) as (H1 & H2 & H3).
  destruct (IH _ _ _ _ H1 Hr) as (? & ? & ?). split_and!; [done|by etrans|auto].
Qed.

(** *** Recycles *)

(** Newest first: each call at least a window after the one before it. *)
Fixpoint spaced (l : list (Z * string)) : Prop :=
  match l with
  | [] => True
  | x :: l => match l with [] => True | y :: _ => y.1 + minRetireInterval <= x.1 end /\ spaced l
  end.

Record recycling (now : Z) (m : manager) : Prop := Recycling {
  y_set : onPolicyChange m = true;
  y_last : lastRetire m = fst <$> head (fired m);
  y_now : forall t, lastRetire m = Some t -> t <= now;
  y_spaced : spaced (fired m);
  y_due : forall p, policy m = Some p -> pendingRetire m = true \/ exists t, head (fired m) = Some (t, Gen p);
  y_pending : pendingRetire m = true -> is_Some (policy m)
}.

Lemma spaced_cons now m gen : recycling now m -> within now (lastRetire m) = false -> spaced ((now, gen) :: fired m).
Proof.
  intros Hm Hw. split; [|apply Hm]. pose proof (y_last _ _ Hm) as Hl. destruct (fired m) as [|[t g] l]; [done|].
  rewrite Hl in Hw. cbn in *. zbool. lia.
Qed.

Lemma recycling_frame now m m' : recycling now m -> policy m' = policy m -> same_retire m m' -> recycling now m'.
Proof. intros [? ? ? ? ? ?] E (E1 & E2 & E3 & E4). split; rewrite ?E, ?E1, ?E2, ?E3, ?E4; done. Qed.

Lemma recycling_later now now' m : now <= now' -> recycling now m -> recycling now' m.
Proof. intros ? [? ? Ht ? ? ?]. split; try done. intros t Hl. specialize (Ht t Hl). lia. Qed.

Lemma refreshed_recycling now i m m' err : now <= i_now i -> recycling now m -> refreshed i m m' err ->
  recycling (i_now i) m'.
Proof.
  intros Hle Hm%(recycling_later _ _ _ Hle) H. clear Hle.
  destruct H as [e m' E1 _ E2 _|c p m' _ _ _ E1 _ E2 _|c rendered gen fs path m1 _ _ _ _ _ E1 _ E2 _]; try (by eapply recycling_frame).
  destruct E2 as (L & P & F & S). unfold notifyPolicyChange. rewrite S, (y_set _ _ Hm), L. cbn [negb].
  destruct (within (i_now i) (lastRetire m)) eqn:Ew.
  - split; cbn; rewrite ?L, ?F, ?S, ?E1; try apply Hm; [by left|done].
  - split; cbn; rewrite ?F, ?E1; try done; [by rewrite S; apply Hm|by intros t [= <-]|exact (spaced_cons _ _ gen Hm Ew)|].
    intros ? [= <-]. right. by eexists.
Qed.

Lemma drain_recycling now m : recycling now m ->
  recycling now (drainPendingRetire now m) /\
  (within now (lastRetire m) = false -> pendingRetire (drainPendingRetire now m) = false).
Proof.
  intros Hm. unfold drainPendingRetire. destruct (negb (pendingRetire m)) eqn:Ep; cbn [orb].
  { zbool. by split. }
  zbool. destruct (within now (lastRetire m)) eqn:Ew; [done|]. cbn. rewrite (y_set _ _ Hm).
  destruct (y_pending _ _ Hm Ep) as [p Hp]. rewrite Hp. cbn. split; [|done].
  split; cbn; try done; [by intros t [= <-]|exact (spaced_cons _ _ (Gen p) Hm Ew)|].
  intros q [= <-]. right. by eexists.
Qed.

Lemma step_recycling now e m : now <= at_ e -> at_ e <= until e -> recycling now m -> recycling (until e) (step e m).
Proof.
  intros Hle Hu Hm. assert (forall i, now <= i_now i -> recycling (i_now i) (ForceRefresh i m).1) as HF.
  { intros i Hi. destruct (ForceRefresh_spec i m) as (m' & Hr & E1 & _ & _ & E2).
    eapply recycling_frame; [by eapply refreshed_recycling|done..]. }
  destruct e as [i t|i|i]; cbn in *; [|by apply HF..]. apply drain_recycling. eapply recycling_later; [done|by apply HF].
Qed.

Lemma run_recycling es : forall now m now' m', recycling now m -> run now es m = Some (now', m') -> recycling now' m'.
Proof.
  induction es as [|e es IH]; cbn [run]; intros now m now' m' Hm; [by intros [= <- <-]|].
  destruct (_ <=? _) eqn:E1; [|done]. destruct (_ <=? until e) eqn:E2; [|done]. zbool. cbn [andb]. intros Hr.
  eapply IH; [|done]. by eapply step_recycling.
Qed.
End Manager.

(* ------------------------------------------------------------------ *)
(** ** The properties *)

(** C39. Egress fails closed and policies are immutable: along every run of
    refreshes, polls and forced refreshes from a policy directory whose files
    are named by their hash, (1) every configuration file keeps its bytes, and
    those bytes hash to its generation; (2) the published policy, when there is
    one, is the whole result of a successful compilation that carved out the
    control plane, its generation is the hash of that rule set's rendering, its
    path is that generation's own file and the file exists; (3) once an egress
    policy is available it never becomes unavailable, and the status calls a
    policy stale only when there is one.  Moreover a refresh that fails leaves
    the policy and the files as they were. *)
Theorem egress_fails_closed dir cp callback fs now es now' m :
  hash_named fs -> run dir cp now es (NewManager callback fs) = Some (now', m) ->
  (hash_named (files m) /\ fs ⊆ files m) /\
  (forall p, CurrentPolicy m = Some p -> enforces dir cp (files m) p /\ EgressPolicy m = Some (Path p, Gen p)) /\
  (stale m = true -> is_Some (EgressPolicy m)) /\
  (forall e m', m' = step dir cp e m ->
     files m ⊆ files m' /\ (is_Some (EgressPolicy m) -> is_Some (EgressPolicy m'))) /\
  (forall i e, (ForceRefresh dir cp i m).2 = Some e ->
     policy (ForceRefresh dir cp i m).1 = policy m /\ files (ForceRefresh dir cp i m).1 = files m).
Proof.
  intros Hfs Hrun.
  assert (sound dir cp (NewManager callback fs)) as H0 by by split.
  destruct (run_sound _ _ _ _ _ _ _ H0 Hrun) as ([Hn Hp Hs] & Hsub & _).
  assert (forall m, is_Some (EgressPolicy m) <-> is_Some (policy m)) as HE.
  { intros m0. unfold EgressPolicy. by rewrite fmap_is_Some. }
  split_and!; try done.
  - intros p Hpol. split; [by apply Hp|]. unfold CurrentPolicy in Hpol. unfold EgressPolicy. by rewrite Hpol.
  - intros Hst. apply HE. by apply Hs.
  - intros e m' ->. destruct (step_sound dir cp e m) as (_ & ? & ?); [by split|]. by rewrite !HE.
  - intros i e He. destruct (ForceRefresh_spec dir cp i m) as (m' & Hr & E1 & E2 & _). rewrite E1, E2.
    rewrite He in Hr. by inversion Hr.
Qed.

(** Worker recycles are rate-limited and never lost: when the server has
    registered its callback, along every run (1) consecutive calls of it are at
    least a minute apart; (2) whenever a policy is in force, either the last
    call announced exactly its generation or a recycle is pending; (3) a poll
    whose drain runs a minute or more after the last call leaves nothing
    pending, so the callback has then been given the current generation. *)
Theorem recycles_are_not_lost dir cp fs now es now' m :
  run dir cp now es (NewManager true fs) = Some (now', m) ->
  spaced (fired m) /\
  (forall p, CurrentPolicy m = Some p ->
     pendingRetire m = true \/ exists t, head (fired m) = Some (t, Gen p)) /\
  (forall i t p, now' <= i_now i -> i_now i <= t ->
     let m' := step dir cp (EPoll i t) m in
     (forall f, head (fired (ForceRefresh dir cp i m).1) = Some f -> f.1 + minRetireInterval <= t) ->
     CurrentPolicy m' = Some p -> pendingRetire m' = false /\ exists t', head (fired m') = Some (t', Gen p)).
Proof.
  intros Hrun. assert (recycling now (NewManager true fs)) as H0 by by split.
  pose proof (run_recycling _ _ _ _ _ _ _ H0 Hrun) as Hm.
  split_and!; [apply Hm|apply Hm|]. intros i t p Hi Ht m' Hf Hp.
  pose proof (step_recycling dir cp now' (EPoll i t) m Hi Ht Hm) as Hm'.
  destruct (ForceRefresh_spec dir cp i m) as (m1 & Hr & E1 & _ & _ & E2).
  assert (recycling t (ForceRefresh dir cp i m).1) as Hm1.
  { eapply recycling_later; [done|]. eapply recycling_frame; [by eapply refreshed_recycling|done..]. }
  assert (pendingRetire m' = false) as Hpend.
  { apply (drain_recycling t); [done|]. rewrite (y_last _ _ Hm1). destruct (head _) as [f|]; [|done].
    cbn. apply Z.ltb_ge. specialize (Hf f eq_refl). lia. }
  split; [done|]. destruct (y_due _ _ Hm' p Hp) as [Hd|Hd]; [|done]. fold m' in Hd. by rewrite Hpend in Hd.
Qed.

(* ------------------------------------------------------------------ *)
(** ** Witnesses *)

Definition demo_inputs (now : Z) (rules : list BlocklistRule) (e : option string) : inputs :=
  Inputs now (Ok rules) "" (fun _ => None) (Disk None e None).

(** A publication, one within the window, and one the disk refuses. *)
Definition demo_events : list event :=
  [EForce (demo_inputs second demo_rules None);
   EPoll (demo_inputs (10 * second) (take 1 demo_rules) None) (10 * second);
   EForce (demo_inputs (20 * second) [] (Some "disk full"%string))].

Definition demo_final : option (Z * manager) :=
  run "/data/firewall/policy" demo_cp 0 demo_events (NewManager true ∅).

Lemma egress_fails_closed_witness :
  match demo_final with Some (_, m) => stale m = true /\ is_Some (EgressPolicy m) | None => False end.
Proof.
  assert (match demo_final with Some (_, m) => stale m | None => false end = true) as H by (vm_compute; reflexivity).
  destruct demo_final as [[t m]|] eqn:E; [|discriminate]. split; [exact H|].
  refine (proj1 (proj2 (proj2 (egress_fails_closed "/data/firewall/policy" demo_cp true ∅ 0 demo_events t m _ E))) H).
  apply map_Forall_empty.
Defined.

Lemma recycles_are_not_lost_witness :
  match demo_final with
  | Some (_, m) =>
    pendingRetire m = true /\
    (let m' := step "/data/firewall/policy" demo_cp (EPoll (demo_inputs (30 * second) [] (Some "disk full"%string)) (61 * second)) m in
     pendingRetire m' = false /\ exists t, head (fired m') = Some (t, match CurrentPolicy m' with Some p => Gen p | None => EmptyString end))
  | None => False
  end.
Proof.
  set (i := demo_inputs (30 * second) [] (Some "disk full"%string)).
  assert (match demo_final with
    | Some (t, m) => t = 20 * second /\ pendingRetire m = true /\
        (fst <$> head (fired (ForceRefresh "/data/firewall/policy" demo_cp i m).1)) = Some second /\
        bool_decide (is_Some (CurrentPolicy (step "/data/firewall/policy" demo_cp (EPoll i (61 * second)) m))) = true
    | None => False end) as H by (vm_compute; repeat split; reflexivity).
  destruct demo_final as [[t m]|] eqn:E; [|exact H]. destruct H as (-> & Hp & Hh & Hc). split; [exact Hp|].
  apply bool_decide_eq_true in Hc as [p Hc]. cbv zeta. rewrite Hc.
  refine (proj2 (proj2 (recycles_are_not_lost "/data/firewall/policy" demo_cp ∅ 0 demo_events (20 * second) m E)) i (61 * second) p _ _ _ Hc).
  - vm_compute. discriminate.
  - vm_compute. discriminate.
  - intros f Hf. rewrite Hf in Hh. cbn in Hh. injection Hh as ->. vm_compute. discriminate.
Defined.
