(* ===== verification/Url.v ===== *)
(** * Package net/url and the string functions around it

    [url.Parse] as far as the sources look at its result (scheme, host, path,
    opaque part, fragment) and [Hostname]; [strings.Fields], [strings.Join]
    and [strings.ToLower].  Strings are lists of bytes here. *)
From S2P Require Import Prelude GoText Netip.
Open Scope Z_scope.

(* ------------------------------------------------------------------ *)
(** ** Words *)

(** [strings.Fields]: the maximal runs without white space. *)
Fixpoint fields_from (fuel : nat) (cur : list Z) (s : list Z) : list (list Z) :=
  let flush := match cur with [] => [] | _ => [rev cur] end in
  match fuel, s with
  | O, _ | _, [] => flush
  | S fuel, c :: s' =>
    match List.find (fun p => starts_with p s) spaces with
    | Some p => flush ++ fields_from fuel [] (drop (length p) s)
    | None => fields_from fuel (c :: cur) s'
    end
  end.

Definition fields (s : string) : list string := of_bytes <$> fields_from (String.length s) [] (bytes s).

Definition join_words (sep : string) (l : list string) : string := of_bytes (join (bytes sep) (bytes <$> l)).

(** [strings.ToLower], for comparison with ASCII text: the Kelvin sign and the
    dotted capital I are the other code points with an ASCII lower case. *)
Definition lower_byte (c : Z) : Z := if (65 <=? c) && (c <=? 90) then c + 32 else c.
Fixpoint lower (s : list Z) : list Z :=
  match s with
  | 226 :: 132 :: 170 :: s => 107 :: lower s
  | 196 :: 176 :: s => 105 :: lower s
  | c :: s => lower_byte c :: lower s
  | [] => []
  end.

(** [strings.EqualFold] where one side is ASCII: the long s and the Kelvin sign
    fold to ASCII letters. *)
Fixpoint fold (s : list Z) : list Z :=
  match s with
  | 226 :: 132 :: 170 :: s => 107 :: fold s
  | 197 :: 191 :: s => 115 :: fold s
  | c :: s => lower_byte c :: fold s
  | [] => []
  end.

Definition EqualFold (s t : list Z) : bool := bool_decide (fold s = fold t).

(* ------------------------------------------------------------------ *)
(** ** Escapes *)

Inductive encoding := encodePath | encodeFragment | encodeUserPassword | encodeHost | encodeZone.

Definition is_alnum (c : Z) : bool :=
  ((97 <=? c) && (c <=? 122)) || ((65 <=? c) && (c <=? 90)) || ((48 <=? c) && (c <=? 57)).

(** [shouldEscape] in a host or a zone. *)
Definition host_escapes (c : Z) : bool :=
  negb (is_alnum c) && negb (bool_decide (c ∈ bytes "!$&'()*+,;=:[]<>-_.~" ++ [34])).

Definition unhex (c : Z) : option Z := hexval c.

Fixpoint unescape (m : encoding) (s : list Z) : option (list Z) :=
  match s with
  | [] => Some []
  | c :: s =>
    if c =? 37 then
      match s with
      | a :: b :: s =>
        match unhex a, unhex b with
        | Some h, Some l =>
          let v := h * 16 + l in
          let refused :=
            match m with
            | encodeHost => (h <? 8) && negb (v =? 37)
            | encodeZone => negb (v =? 37) && negb (v =? 32) && host_escapes v
            | _ => false
            end in
          if refused then None else cons v <$> unescape m s
        | _, _ => None
        end
      | _ => None
      end
    else
      match m with
      | encodeHost | encodeZone => if (c <? 128) && host_escapes c then None else cons c <$> unescape m s
      | _ => cons c <$> unescape m s
      end
  end.

(* ------------------------------------------------------------------ *)
(** ** Parsing *)

Record URL := MkURL { Scheme : list Z; Opaque_ : list Z; Host : list Z; Path_ : list Z; RawQuery : list Z; Fragment : list Z }.

Definition noURL : URL := MkURL [] [] [] [] [] [].

Definition is_digit_byte (c : Z) : bool := (48 <=? c) && (c <=? 57).

Definition validOptionalPort (p : list Z) : bool :=
  match p with [] => true | c :: p => (c =? 58) && forallb is_digit_byte p end.

(** The scheme and the rest; [None] when the first byte is a colon. *)
Fixpoint getScheme (i : nat) (pre s raw : list Z) : option (list Z * list Z) :=
  match s with
  | [] => Some ([], raw)
  | c :: s =>
    if ((97 <=? c) && (c <=? 122)) || ((65 <=? c) && (c <=? 90)) then getScheme (S i) (c :: pre) s raw
    else if is_digit_byte c || (c =? 43) || (c =? 45) || (c =? 46) then
      match i with O => Some ([], raw) | _ => getScheme (S i) (c :: pre) s raw end
    else if c =? 58 then match i with O => None | _ => Some (rev pre, s) end
    else Some ([], raw)
  end.

Fixpoint cut_text (t s : list Z) : option (list Z * list Z) :=
  if starts_with t s then Some ([], drop (length t) s)
  else match s with [] => None | c :: s => '(a, b) ← cut_text t s; Some (c :: a, b) end.

Definition parseHost (host : list Z) : option (list Z) :=
  match cut_last 91 host with
  | Some (before, _) =>
    '(inner, colonPort) ← cut_last 93 host;
    if negb (validOptionalPort colonPort) then None
    else
      port ← unescape encodeHost colonPort;
      let hostname := drop (S (length before)) inner in
      name ← match cut_text (bytes "%25") hostname with
             | Some (h, _) =>
               a ← unescape encodeHost h;
               z ← unescape encodeZone (drop (length h) hostname);
               Some (a ++ z)
             | None => unescape encodeHost hostname
             end;
      addr ← ParseAddr name;
      if Is4 addr then None else Some ([91] ++ name ++ [93] ++ port)
  | None =>
    match cut 58 host with
    | (h, Some port) => if validOptionalPort (58 :: port) then unescape encodeHost host else None
    | (_, None) => unescape encodeHost host
    end
  end.

Definition validUserinfo (s : list Z) : bool :=
  forallb (fun c => is_alnum c || bool_decide (c ∈ bytes "-._:~!$&'()*+,;=%@")) s.

Definition parseAuthority (authority : list Z) : option (list Z) :=
  match cut_last 64 authority with
  | None => parseHost authority
  | Some (userinfo, host) =>
    h ← parseHost host;
    if negb (validUserinfo userinfo) then None
    else
      match cut 58 userinfo with
      | (u, None) => _ ← unescape encodeUserPassword u; Some h
      | (u, Some p) => _ ← unescape encodeUserPassword u; _ ← unescape encodeUserPassword p; Some h
      end
  end.

Definition is_ctl (c : Z) : bool := (c <? 32) || (c =? 127).

Definition count_byte (c : Z) (s : list Z) : nat := length (filter (fun x => x = c) s).

(** [parse (rawURL, false)]. *)
Definition parse (raw : list Z) : option URL :=
  if existsb is_ctl raw then None
  else if bool_decide (raw = [42]) then Some (MkURL [] [] [] [42] [] [])
  else
    '(scheme, rest) ← getScheme 0 [] raw raw;
    let scheme := map lower_byte scheme in
    let '(rest, query) :=
      match cut 63 rest with (r, Some q) => (r, q) | (r, None) => (r, []) end in
    let rooted := bool_decide (take 1 rest = [47]) in
    if negb rooted && negb (bool_decide (scheme = [])) then Some (MkURL scheme rest [] [] query [])
    else if negb rooted && existsb (Z.eqb 58) (cut 47 rest).1 then None
    else
      if (negb (bool_decide (scheme = [])) || negb (bool_decide (take 3 rest = [47; 47; 47]))) && bool_decide (take 2 rest = [47; 47]) then
        let '(authority, path) :=
          match cut 47 (drop 2 rest) with (a, Some p) => (a, 47 :: p) | (a, None) => (a, []) end in
        host ← parseAuthority authority;
        path ← unescape encodePath path;
        Some (MkURL scheme [] host path query [])
      else path ← unescape encodePath rest; Some (MkURL scheme [] [] path query []).

(** [url.Parse]. *)
Definition Parse (raw : string) : option URL :=
  let '(u, frag) := cut 35 (bytes raw) in
  url ← parse u;
  match frag with
  | None | Some [] => Some url
  | Some f => f ← unescape encodeFragment f;
    Some (MkURL (Scheme url) (Opaque_ url) (Host url) (Path_ url) (RawQuery url) f)
  end.

Definition Hostname (u : URL) : string :=
  let host :=
    match cut_last 58 (Host u) with
    | Some (h, p) => if validOptionalPort (58 :: p) then h else Host u
    | None => Host u
    end in
  of_bytes (match host with
            | 91 :: (_ :: _) as t => if bool_decide (last host = Some 93) then removelast (tl host) else host
            | _ => host
            end).

Example parse_loopback :
  (fun u => (of_bytes (Scheme u), Hostname u, of_bytes (Path_ u))) <$> Parse "HTTP://user@[::1]:8080/cb%20x?y=1#f"
  = Some ("http", "::1", "/cb x")%string.
Proof. reflexivity. Qed.

Example parse_rejects :
  Parse "http://a:1:2/" = None /\ Parse "http://[1.2.3.4]/" = None /\ Parse "http://h/%zz" = None /\ Parse ":x" = None.
Proof. repeat split. Qed.

(* ------------------------------------------------------------------ *)
(** ** Words and their joins *)

Definition space_at (s : list Z) : option (list Z) := List.find (fun p => starts_with p s) spaces.

(** No white space starts in [w] when [s] follows it. *)
Fixpoint unspaced (w s : list Z) : Prop :=
  match w with [] => True | c :: w' => space_at (c :: w' ++ s) = None /\ unspaced w' s end.

Definition word (w : list Z) : Prop := w <> [] /\ unspaced w [] /\ Forall (fun b => 0 <= b < 256) w.

Lemma starts_with_app p a b : starts_with p a = true -> starts_with p (a ++ b) = true.
Proof.
  unfold starts_with. rewrite !bool_decide_eq_true. intros H.
  assert (length p <= length a)%nat by (rewrite <- H, length_take; lia).
  by rewrite take_app_le.
Qed.

Lemma space_at_prefix a b : space_at (a ++ b) = None -> space_at a = None.
Proof.
  unfold space_at. intros H. destruct (List.find _ spaces) as [p|] eqn:E in |- *; [|done].
  apply List.find_some in E as [Hin Hp]. apply (List.find_none _ _ H) in Hin. by rewrite starts_with_app in Hin.
Qed.

Lemma unspaced_prefix w s : unspaced w s -> unspaced w [].
Proof.
  induction w as [|c w IH]; cbn [unspaced]; [done|]. intros [H1 H2]. split; [|by apply IH].
  rewrite app_nil_r. apply (space_at_prefix _ s). exact H1.
Qed.

Lemma unspaced_snoc w c s : unspaced w (c :: s) -> space_at (c :: s) = None -> unspaced (w ++ [c]) s.
Proof.
  induction w as [|x w IH]; cbn [unspaced app]; intros H Hc; [by split|]. destruct H as [H1 H2].
  split; [by rewrite <- app_assoc|by apply IH].
Qed.

Lemma spaces_blank p : p ∈ spaces -> p = [32] \/ 32 ∉ p.
Proof.
  assert (Forall (fun p => p = [32] \/ 32 ∉ p) spaces) as H by (refine (bool_decide_unpack _ _); vm_compute; exact I).
  rewrite Forall_forall in H. apply H.
Qed.

Lemma space_at_blank b r : b <> [] -> space_at b = None -> space_at (b ++ 32 :: r) = None.
Proof.
  intros Hb H. unfold space_at in *. destruct (List.find _ spaces) as [p|] eqn:E in |- *; [|done].
  apply List.find_some in E as [Hin Hp]. pose proof (List.find_none _ _ H _ Hin) as Hn. cbn in Hn.
  exfalso. unfold starts_with in *. rewrite bool_decide_eq_true in Hp. rewrite bool_decide_eq_false in Hn.
  destruct (decide (length p <= length b)%nat) as [Hl|Hl]; [by rewrite take_app_le in Hp|].
  rewrite take_app_ge in Hp by lia. destruct (length p - length b)%nat as [|k] eqn:Ek; [lia|]. cbn [take] in Hp.
  destruct (spaces_blank p) as [->|Hno]; [by apply list_elem_of_In| |].
  - destruct b as [|x [|]]; done.
  - apply Hno. rewrite <- Hp. apply elem_of_app. right. left.
Qed.

Lemma fields_are_words fuel : forall cur s w, unspaced (rev cur) s ->
  Forall (fun b => 0 <= b < 256) cur -> Forall (fun b => 0 <= b < 256) s -> w ∈ fields_from fuel cur s -> word w.
Proof.
  assert (forall cur s w, unspaced (rev cur) s -> Forall (fun b => 0 <= b < 256) cur ->
    w ∈ match cur with [] => [] | _ => [rev cur] end -> word w) as Hflush.
  { intros [|c cur] s w Hu Hb; [by intros ?%elem_of_nil|]. intros ->%list_elem_of_singleton. split_and!.
    - cbn. by destruct (rev cur).
    - by eapply unspaced_prefix.
    - by apply Forall_rev. }
  induction fuel as [|fuel IH]; intros cur s w Hu Hc Hs; cbn [fields_from]; [by eapply Hflush|].
  destruct s as [|c s]; [by eapply Hflush|]. destruct (List.find _ spaces) as [p|] eqn:E.
  - intros [Hw|Hw]%elem_of_app; [by eapply Hflush|]. eapply (IH []); [done|done| |done]. by apply Forall_drop.
  - apply Forall_cons in Hs as [Hx Hs]. apply IH; [|by constructor|done]. cbn [rev]. by apply unspaced_snoc.
Qed.

Lemma fields_scan w : forall n cur r, unspaced w [] -> r = [] \/ (exists r', r = 32 :: r') ->
  fields_from (length w + n) cur (w ++ r) = fields_from n (rev w ++ cur) r.
Proof.
  induction w as [|c w IH]; intros n cur r; cbn [unspaced length app rev]; [done|]. intros [Hc Hw] Hr. cbn [Nat.add fields_from].
  rewrite app_nil_r in Hc. assert (space_at (c :: w ++ r) = None) as Hn.
  { destruct Hr as [->|[r' ->]]; [by rewrite app_nil_r|]. by apply (space_at_blank (c :: w)). }
  unfold space_at in Hn. rewrite Hn, IH by done. by rewrite <- app_assoc.
Qed.

Lemma fields_from_end w fuel : w <> [] -> fields_from fuel (rev w) [] = [w].
Proof.
  intros Hw. assert (match rev w with [] => [] | _ => [rev (rev w)] end = [w]) as He.
  { rewrite rev_involutive. destruct (rev w) eqn:E; [|done]. by rewrite <- (rev_involutive w), E in Hw. }
  destruct fuel; exact He.
Qed.

Lemma fields_join ws : Forall word ws -> forall n, fields_from (length (join [32] ws) + n) [] (join [32] ws) = ws.
Proof.
  induction 1 as [|w ws (Hne & Hw & _) Hws IH]; intros n; [by destruct n|]. destruct ws as [|w' ws].
  - cbn [join]. pose proof (fields_scan w n [] [] Hw (or_introl eq_refl)) as H. rewrite !app_nil_r in H.
    rewrite H. by apply fields_from_end.
  - change (join [32] (w :: w' :: ws)) with (w ++ 32 :: join [32] (w' :: ws)). rewrite length_app. cbn [length].
    rewrite <- Nat.add_assoc, fields_scan by eauto. rewrite app_nil_r. cbn [Nat.add fields_from].
    assert (List.find (fun p => starts_with p (32 :: join [32] (w' :: ws))) spaces = Some [32]) as -> by (by vm_compute).
    rewrite IH. destruct (rev w) eqn:E; [by rewrite <- (rev_involutive w), E in Hne|]. by rewrite <- E, rev_involutive.
Qed.

Definition scope_word (s : string) : Prop := word (bytes s).

Lemma fields_scope_words s t : t ∈ fields s -> scope_word t.
Proof.
  unfold fields, scope_word. intros (w & -> & Hw)%list_elem_of_fmap.
  assert (word w) as H by (eapply (fields_are_words _ []); [done|done|apply bytes_are_bytes|done]).
  rewrite bytes_of_bytes by apply H. done.
Qed.

Lemma join_in_range ws : Forall (Forall (fun b => 0 <= b < 256)) ws -> Forall (fun b => 0 <= b < 256) (join [32] ws).
Proof. apply join_chars. lia. Qed.

(** Words survive being joined by a blank and read back. *)
Lemma fields_join_words l : Forall scope_word l -> fields (join_words " " l) = l.
Proof.
  intros H. unfold fields, join_words. assert (Forall word (bytes <$> l)) as Hw by by apply Forall_fmap.
  change (bytes " ") with [32]. rewrite bytes_of_bytes.
  - rewrite <- length_bytes, bytes_of_bytes.
    + rewrite <- (Nat.add_0_r (length _)), fields_join by done. rewrite <- list_fmap_compose.
      rewrite <- (list_fmap_id l) at 2. apply list_fmap_ext. intros ? s _. apply of_bytes_bytes.
    + apply join_in_range, Forall_fmap, Forall_true. intros s. apply bytes_are_bytes.
  - apply join_in_range, Forall_fmap, Forall_true. intros s. apply bytes_are_bytes.
Qed.
