(* ===== verification/Worker.v ===== *)
(** * Sandboxed worker processes ([sandbox/worker.go])

    The length-prefixed frames on the worker's pipes, the ring that keeps its
    last standard-error bytes, and the exchange of one request: [DispatchEx],
    [NextFrame], [Dispatch].  What the process does between two steps of the
    daemon (bytes on its pipes, its death, an expired context) is the argument
    of the step that observes it, so the theorems hold for every schedule. *)
From S2P Require Import Prelude GoText FunctionPool Sha256 Json Netip Url.
Open Scope Z_scope.

(* ------------------------------------------------------------------ *)
(** ** Framing *)

(** Sixty-four megabytes per frame. *)
Definition frame_cap : Z := 64 * 1024 * 1024.

Definition writeFrame (payload : list Z) : list Z :=
  be_bytes 4 (Z.of_nat (length payload) mod 2 ^ 32) ++ payload.

(** [readFrame] on the bytes that have arrived: a frame and what follows it,
    a frame over the cap, or more bytes are needed (end of file if the pipe is
    closed). *)
Inductive pulled := Frame (payload rest : list Z) | TooLarge (n : Z) | Partial.

Definition readFrame (l : list Z) : pulled :=
  if (length l <? 4)%nat then Partial
  else
    let n := be_word (take 4 l) in
    if n =? 0 then Frame (bytes "{}") (drop 4 l)
    else if frame_cap <? n then TooLarge n
    else if Z.of_nat (length l) - 4 <? n then Partial
    else Frame (take (Z.to_nat n) (drop 4 l)) (drop (4 + Z.to_nat n) l).

(* ------------------------------------------------------------------ *)
(** ** The ring of standard-error bytes *)

Record ringBuffer := MkRing { r_buf : list Z; r_size : nat; r_written : nat }.

Definition newRingBuffer (size : nat) : ringBuffer := MkRing (replicate size 0) size 0.

Definition ring_put (r : ringBuffer) (b : Z) : ringBuffer :=
  MkRing (<[(r_written r mod r_size r)%nat := b]> (r_buf r)) (r_size r) (S (r_written r)).

Definition ring_Write (r : ringBuffer) (p : list Z) : ringBuffer := foldl ring_put r p.

Definition ring_Len (r : ringBuffer) : nat := r_written r.

Definition ring_Snapshot (r : ringBuffer) (from : nat) : list Z :=
  if (r_written r <=? from)%nat then []
  else
    let want := Nat.min (r_written r - from) (r_size r) in
    let start := ((r_written r - want) mod r_size r)%nat in
    if (start + want <=? r_size r)%nat then take want (drop start (r_buf r))
    else drop start (r_buf r) ++ take (want - (r_size r - start)) (r_buf r).

(* ------------------------------------------------------------------ *)
(** ** Response frames *)

Record frameResponse := MkFrame {
  f_Type : string; f_StatusCode : Z; f_Headers : option (gmap string string); f_Body : string; f_Fatal : bool;
  f_Message : string; f_Data : string }.
#[export] Instance eta_frameResponse : Eta frameResponse := fun r =>
  MkFrame (f_Type r) (f_StatusCode r) (f_Headers r) (f_Body r) (f_Fatal r) (f_Message r) (f_Data r).

Definition zero_frame : frameResponse := MkFrame "" 0 None "" false "" "".

Inductive field := FType | FStatusCode | FHeaders | FBody | FFatal | FMessage | FData.

Definition frame_fields : list (string * field) :=
  [("type", FType); ("statusCode", FStatusCode); ("headers", FHeaders); ("body", FBody); ("fatal", FFatal);
   ("message", FMessage); ("data", FData)]%string.

(** [encoding/json] matches a member to a field by its exact name, or else up
    to case. *)
Definition field_of (k : string) : option field :=
  match List.find (fun nf => bool_decide (fst nf = k)) frame_fields with
  | Some (_, f) => Some f
  | None =>
    match List.find (fun nf => EqualFold (bytes k) (bytes (fst nf))) frame_fields with
    | Some (_, f) => Some f
    | None => None
    end
  end.

(** A value stored in a Go variable that holds [old]; [null] leaves it, and
    makes a map nil ([None]). *)
Definition as_string (old : string) (v : json) : option string :=
  match v with JNull => Some old | JString s => Some s | _ => None end.
Definition as_bool (old : bool) (v : json) : option bool :=
  match v with JNull => Some old | JBool b => Some b | _ => None end.
Definition as_int (old : Z) (v : json) : option Z :=
  match v with JNull => Some old | JNumber lit => parseInt64 lit | _ => None end.
Definition as_map (old : option (gmap string string)) (v : json) : option (option (gmap string string)) :=
  match v with
  | JNull => Some None
  | JObject l =>
    m ← foldl (fun m kv => m ← m; s ← as_string "" (snd kv); Some (<[fst kv := s]> m)) (Some (default ∅ old)) l;
    Some (Some m)
  | _ => None
  end.

Definition assign (fr : frameResponse) (k : string) (v : json) : option frameResponse :=
  match field_of k with
  | None => Some fr
  | Some FType => s ← as_string (f_Type fr) v; Some (fr <| f_Type := s |>)
  | Some FStatusCode => n ← as_int (f_StatusCode fr) v; Some (fr <| f_StatusCode := n |>)
  | Some FHeaders => m ← as_map (f_Headers fr) v; Some (fr <| f_Headers := m |>)
  | Some FBody => s ← as_string (f_Body fr) v; Some (fr <| f_Body := s |>)
  | Some FFatal => b ← as_bool (f_Fatal fr) v; Some (fr <| f_Fatal := b |>)
  | Some FMessage => s ← as_string (f_Message fr) v; Some (fr <| f_Message := s |>)
  | Some FData => s ← as_string (f_Data fr) v; Some (fr <| f_Data := s |>)
  end.

(** [json.Unmarshal (payload, &frame)]; [None] for any error. *)
Definition frame_of (payload : list Z) : option frameResponse :=
  match unmarshal payload with
  | Some JNull => Some zero_frame
  | Some (JObject l) => foldl (fun fr kv => fr ← fr; assign fr (fst kv) (snd kv)) (Some zero_frame) l
  | _ => None
  end.

(** [base64.StdEncoding.DecodeString]. *)
Definition std_value (c : Z) : option Z :=
  if c =? 43 then Some 62 else if c =? 47 then Some 63
  else if (c =? 45) || (c =? 95) then None else b64_value c.

Fixpoint std_groups (l : list Z) : option (list Z) :=
  match l with
  | [] => Some []
  | a :: b :: c :: d :: r =>
    va ← std_value a; vb ← std_value b;
    if d =? 61 then
      match r with
      | [] => if c =? 61 then Some [va * 4 + vb / 16]
              else vc ← std_value c; Some [va * 4 + vb / 16; vb mod 16 * 16 + vc / 4]
      | _ => None
      end
    else
      vc ← std_value c; vd ← std_value d; s ← std_groups r;
      Some (va * 4 + vb / 16 :: vb mod 16 * 16 + vc / 4 :: vc mod 4 * 64 + vd :: s)
  | _ => None
  end.

Definition std_decode (s : string) : option (list Z) :=
  std_groups (List.filter (fun c => negb ((c =? 10) || (c =? 13))) (bytes s)).

Example std_decode_hello :
  std_decode "aGVsbG8=" = Some (bytes "hello") /\ std_decode "aGVsbG8" = None /\ std_decode "/+8=" = Some [255; 239].
Proof. vm_compute. auto. Qed.

Example frame_of_text :
  frame_of (text "{`TYPE`:`response`,`statusCode`:201,`headers`:{`a`:`b`,`c`:null},`body`:`hi`,`x`:[1]}")
  = Some (MkFrame "response" 201 (Some {[ "a" := "b"; "c" := "" ]}) "hi" false "" "")%string /\
  frame_of (text "{`statusCode`:2e2}") = None /\ frame_of (text "[]") = None.
Proof. vm_compute. auto. Qed.

(* ------------------------------------------------------------------ *)
(** ** The worker *)

(** What an exchange fails with; the text of the pipe's own error is left
    out of the messages. *)
Inductive werror :=
| ErrWorkerExited (why : string)
| ErrCtx (e : ctx_error)
| ErrAdapter (msg : string)
| ErrStreamTooLarge.

(** [w_pipe]: bytes of standard output the daemon has not consumed.
    [w_locked]: the mutex of the exchange is held. *)
Record Worker := MkWorker {
  w_dead : bool; w_locked : bool; w_Served : Z; w_pipe : list Z; w_errBuf : ringBuffer; w_sent : list (list Z) }.
#[export] Instance eta_Worker : Eta Worker := fun r =>
  MkWorker (w_dead r) (w_locked r) (w_Served r) (w_pipe r) (w_errBuf r) (w_sent r).

(** A process just started, its standard error empty. *)
Definition spawned : Worker := MkWorker false false 0 [] (newRingBuffer (64 * 1024)) [].

Definition markDead (w : Worker) : Worker := w <| w_dead := true |>.

Definition IsDead (w : Worker) : bool := w_dead w.

(** [ttl] and [maxUses] zero disable their checks. *)
Definition IsExpired (w : Worker) (age ttl maxUses : Z) : bool :=
  ((0 <? ttl) && (ttl <? age)) || ((0 <? maxUses) && (maxUses <=? w_Served w)).

(** How the wait for a frame ends: a frame is delivered, the pipe ends, or
    the context of the wait is done. *)
Inductive fate := Delivered | Gone | Expired (e : ctx_error).

(** A wait, with the bytes the process wrote on its two streams before it
    ended. *)
Record wait := MkWait { a_out : list Z; a_err : list Z; a_fate : fate }.

Definition gone : wait := MkWait [] [] Gone.

Inductive reading := Got (payload : list Z) | Ended | CtxDone (e : ctx_error).

Definition readNext (w : Worker) (a : wait) : Worker * reading :=
  let w := w <| w_pipe ::= (fun p => p ++ a_out a) |> <| w_errBuf ::= (fun r => ring_Write r (a_err a)) |> in
  match a_fate a with
  | Expired e => (w, CtxDone e)
  | Gone => (w, Ended)
  | Delivered =>
    match readFrame (w_pipe w) with
    | Frame p rest => (w <| w_pipe := rest |>, Got p)
    | TooLarge _ | Partial => (w, Ended)
    end
  end.

Definition AwaitReady (w : Worker) (a : wait) : Worker * option werror :=
  match readNext w a with
  | (w, CtxDone e) => (w, Some (ErrCtx e))
  | (w, Ended) => (w, Some (ErrWorkerExited "adapter startup"))
  | (w, Got payload) =>
    match frame_of payload with
    | Some fr => if bool_decide (f_Type fr = "ready"%string) then (w, None)
                 else (w, Some (ErrWorkerExited "invalid adapter startup frame"))
    | None => (w, Some (ErrWorkerExited "invalid adapter startup frame"))
    end
  end.

(** [finishHook] is only ever the release of the worker's lock. *)
Record DispatchResult := MkResult {
  Streaming : bool; StatusCode : Z; Headers : option (gmap string string); Body : string;
  errBefore : nat; finished : bool; readErr : option werror; finishHook : bool }.
#[export] Instance eta_DispatchResult : Eta DispatchResult := fun r =>
  MkResult (Streaming r) (StatusCode r) (Headers r) (Body r) (errBefore r) (finished r) (readErr r) (finishHook r).

Definition no_response (n : nat) : DispatchResult := MkResult false 0 None "" n false None false.

Definition finalize (r : DispatchResult) (w : Worker) : DispatchResult * Worker :=
  if finishHook r then (r <| finishHook := false |>, w <| w_locked := false |>) else (r, w).

Definition Stderr (r : DispatchResult) (w : Worker) : list Z := ring_Snapshot (w_errBuf w) (errBefore r).

(** The stream is over: the error stays, the lock goes. *)
Definition fail_stream (r : DispatchResult) (w : Worker) (e : werror) : DispatchResult * Worker :=
  finalize (r <| readErr := Some e |>) (markDead w).

Inductive stream_frame := Chunk (data : list Z) | End | StreamErr (e : werror).

Definition NextFrame (r : DispatchResult) (w : Worker) (a : wait) : DispatchResult * Worker * stream_frame :=
  if finished r then (finalize r w, End)
  else
    match readErr r with
    | Some e => (finalize r w, StreamErr e)
    | None =>
      match readNext w a with
      | (w, CtxDone e) => (fail_stream r w (ErrCtx e), StreamErr (ErrCtx e))
      | (w, Ended) => let e := ErrWorkerExited "read chunk frame" in (fail_stream r w e, StreamErr e)
      | (w, Got payload) =>
        match frame_of payload with
        | None => let e := ErrWorkerExited "invalid chunk frame" in (fail_stream r w e, StreamErr e)
        | Some fr =>
          if bool_decide (f_Type fr = "chunk"%string) then
            if bool_decide (f_Data fr = ""%string) then (r, w, Chunk [])
            else
              match std_decode (f_Data fr) with
              | Some d => (r, w, Chunk d)
              | None => let e := ErrWorkerExited "invalid chunk data" in (fail_stream r w e, StreamErr e)
              end
          else if bool_decide (f_Type fr = "response_end"%string) then
            (finalize (r <| finished := true |>) (w <| w_Served ::= Z.succ |>), End)
          else if bool_decide (f_Type fr = "error"%string) then
            let e := ErrWorkerExited ("adapter mid-stream error: " ++ f_Message fr) in (fail_stream r w e, StreamErr e)
          else let e := ErrWorkerExited "unexpected stream frame type" in (fail_stream r w e, StreamErr e)
        end
      end
    end.

(** How the write of the request frame ends. *)
Inductive write_fate := Written | WriteFailed | WriteExpired (e : ctx_error).

Definition request_frame (event : json) : list Z :=
  marshal (JObject [("type", JString "request"); ("event", event)]%string).

(** [None]: the call waits for the lock of an exchange that nobody ends. *)
Definition DispatchEx (w : Worker) (event : json) (wr : write_fate) (a : wait) :
    option (DispatchResult * Worker * option werror) :=
  if w_dead w then Some (no_response 0, w, Some (ErrWorkerExited "process exited before dispatch"))
  else if w_locked w then None
  else Some (
    let r := no_response (ring_Len (w_errBuf w)) in
    match wr with
    | WriteFailed => (r, markDead w, Some (ErrWorkerExited "write frame"))
    | WriteExpired e => (r, markDead w, Some (ErrCtx e))
    | Written =>
      let w := w <| w_sent ::= (fun s => s ++ [writeFrame (request_frame event)]) |> in
      match readNext w a with
      | (w, CtxDone e) => (r, markDead w, Some (ErrCtx e))
      | (w, Ended) => (r, markDead w, Some (ErrWorkerExited "read frame"))
      | (w, Got payload) =>
        match frame_of payload with
        | None => (r, markDead w, Some (ErrWorkerExited "invalid response frame"))
        | Some fr =>
          if bool_decide (f_Type fr = "error"%string) then
            if f_Fatal fr then (r, markDead w, Some (ErrWorkerExited ("adapter fatal: " ++ f_Message fr)))
            else (r, w, Some (ErrAdapter ("adapter: " ++ f_Message fr)))
          else if bool_decide (f_Type fr = "response"%string) then
            (r <| StatusCode := f_StatusCode fr |> <| Headers := f_Headers fr |> <| Body := f_Body fr |> <| finished := true |>,
             w <| w_Served ::= Z.succ |>, None)
          else if bool_decide (f_Type fr = "response_start"%string) then
            (r <| Streaming := true |> <| StatusCode := f_StatusCode fr |> <| Headers := f_Headers fr |> <| finishHook := true |>,
             w <| w_locked := true |>, None)
          else (r, markDead w, Some (ErrWorkerExited "unexpected frame type"))
        end
      end
    end).

(** Thirty-two megabytes. *)
Definition maxBufferedStreamBytes : Z := 32 * 1024 * 1024.

(** The loop of [Dispatch] over a streaming answer; the process is gone when
    the waits run out. *)
Fixpoint collect (r : DispatchResult) (w : Worker) (buf : list Z) (waits : list wait) :
    DispatchResult * Worker * (list Z + werror) :=
  match waits with
  | [] =>
    match NextFrame r w gone with
    | (r, w, StreamErr e) => (r, w, inr e)
    | (r, w, _) => (r, w, inl buf)
    end
  | a :: waits =>
    match NextFrame r w a with
    | (r, w, StreamErr e) => (r, w, inr e)
    | (r, w, End) => (r, w, inl buf)
    | (r, w, Chunk data) =>
      if maxBufferedStreamBytes <? Z.of_nat (length buf) + Z.of_nat (length data) then (r, w, inr ErrStreamTooLarge)
      else collect r w (buf ++ data) waits
    end
  end.

(** [strconv.FormatInt (n, 10)]. *)
Definition formatInt (n : Z) : string := of_bytes (if n <? 0 then 45 :: itoa (- n) else itoa n).

Definition json_headers (m : option (gmap string string)) : json :=
  match m with
  | None => JNull
  | Some m => JObject (map (fun kv => (fst kv, JString (snd kv))) (merge_sort (fun a b => str_le (fst a) (fst b)) (map_to_list m)))
  end.

(** [json.Marshal] of the answer; map keys are sorted. *)
Definition envelope (status : Z) (headers : option (gmap string string)) (body : string) : list Z :=
  marshal (JObject [("body", JString body); ("headers", json_headers headers);
                    ("statusCode", JNumber (formatInt status))]%string).

(** [Dispatch]: the answer in one piece, its standard error, and what failed. *)
Definition Dispatch (w : Worker) (event : json) (wr : write_fate) (a : wait) (waits : list wait) :
    option (Worker * (list Z + werror) * list Z) :=
  match DispatchEx w event wr a with
  | None => None
  | Some (r, w, Some e) => Some (w, inr e, Stderr r w)
  | Some (r, w, None) =>
    if Streaming r then
      match collect r w [] waits with
      | (r, w, inr e) => Some (w, inr e, Stderr r w)
      | (r, w, inl buf) => Some (w, inl (envelope (StatusCode r) (Headers r) (of_bytes buf)), Stderr r w)
      end
    else Some (w, inl (envelope (StatusCode r) (Headers r) (Body r)), Stderr r w)
  end.

(* ------------------------------------------------------------------ *)
(** ** Frames on the pipe *)

(** A payload the reader accepts as it is. *)
Definition sendable (p : list Z) : Prop := (1 <= length p)%nat /\ Z.of_nat (length p) <= frame_cap.

Definition framed (ps : list (list Z)) : list Z := flat_map writeFrame ps.

Lemma be_word_be_bytes n : 0 <= n < 2 ^ 32 -> be_word (be_bytes 4 n) = n.
Proof.
  intros Hn. unfold be_word, be_bytes. cbn [foldl Nat.mul].
  change 255 with (Z.ones 8). rewrite !Z.land_ones, !Z.shiftr_div_pow2 by lia.
  change (8 * Z.of_nat 3) with 24. change (8 * Z.of_nat 2) with 16. change (8 * Z.of_nat 1) with 8. change (8 * Z.of_nat 0) with 0.
  Z.to_euclidean_division_equations. nia.
Qed.

Lemma header_of p : sendable p -> be_word (be_bytes 4 (Z.of_nat (length p) mod 2 ^ 32)) = Z.of_nat (length p).
Proof.
  unfold sendable, frame_cap. intros [H1 H2]. rewrite Z.mod_small by lia. apply be_word_be_bytes. lia.
Qed.

(** What the reader makes of the bytes that have come, the rest of a frame and
    of the stream still under way. *)
Lemma readFrame_sound p l fut rest :
  sendable p -> l ++ fut = writeFrame p ++ rest ->
  (exists rest', readFrame l = Frame p rest' /\ rest' ++ fut = rest) \/
  (readFrame l = Partial /\ (length l < length (writeFrame p))%nat).
Proof.
  intros Hp E. pose proof Hp as [H1 H2]. unfold writeFrame in *. set (h := be_bytes 4 _) in *.
  assert (length h = 4%nat) as Hh by done. rewrite length_app, Hh.
  assert (be_word h = Z.of_nat (length p)) as Hw by (by apply header_of).
  unfold readFrame. destruct (length l <? 4)%nat eqn:E4; [apply Nat.ltb_lt in E4; right; split; [done|lia]|].
  apply Nat.ltb_ge in E4.
  assert (take 4 l = h) as Ht.
  { apply (f_equal (take 4)) in E. rewrite take_app_le, <- app_assoc, take_app_le in E by lia.
    rewrite E. apply take_ge. lia. }
  cbv zeta. rewrite Ht, Hw. rewrite (proj2 (Z.eqb_neq _ 0)) by lia. rewrite (proj2 (Z.ltb_ge _ _)) by done.
  destruct (Z.of_nat (length l) - 4 <? Z.of_nat (length p)) eqn:El; zbool; [right; split; [done|lia]|left].
  rewrite <- (take_drop 4 l), Ht in E. rewrite <- !app_assoc in E. apply app_inv_head in E.
  set (t := drop 4 l) in *. assert (length t = (length l - 4)%nat) as Hl by apply length_drop.
  rewrite Nat2Z.id, <- drop_drop. fold t.
  exists (drop (length p) t). split.
  - f_equal. apply (f_equal (take (length p))) in E.
    rewrite take_app_le, take_app_length in E by lia. done.
  - apply (f_equal (drop (length p))) in E. by rewrite drop_app_le, drop_app_length in E by lia.
Qed.

(** A reader over a pipe that fills in arbitrary pieces ([readLoop]): the
    frames it hands over and the bytes it still holds. *)
Fixpoint pull_all (fuel : nat) (l : list Z) : list (list Z) * list Z :=
  match fuel with
  | O => ([], l)
  | S fuel =>
    match readFrame l with
    | Frame p rest => let '(ps, l) := pull_all fuel rest in (p :: ps, l)
    | _ => ([], l)
    end
  end.

Fixpoint readLoop (pipe : list Z) (pieces : list (list Z)) : list (list Z) :=
  match pieces with
  | [] => []
  | c :: pieces => let '(ps, pipe) := pull_all (length (pipe ++ c)) (pipe ++ c) in ps ++ readLoop pipe pieces
  end.

Lemma framed_nil ps : Forall sendable ps -> framed ps = [] -> ps = [].
Proof. intros Hp E. destruct ps as [|p ps]; [done|]. discriminate E. Qed.

Lemma pull_all_sound fuel l fut ps :
  Forall sendable ps -> l ++ fut = framed ps -> (length l <= fuel)%nat ->
  exists done_ ps', ps = done_ ++ ps' /\ (pull_all fuel l).1 = done_ /\ (pull_all fuel l).2 ++ fut = framed ps' /\
    (fut = [] -> ps' = []).
Proof.
  revert l ps. induction fuel as [|fuel IH]; intros l ps Hp E Hf.
  { destruct l; [|simpl in Hf; lia]. exists [], ps. split_and!; [done..|]. intros ->. symmetry in E. by apply framed_nil. }
  destruct ps as [|p ps].
  { exists [], []. simpl in E. apply app_eq_nil in E as [-> ->]. done. }
  apply Forall_cons in Hp as [Hp Hps]. change (framed (p :: ps)) with (writeFrame p ++ framed ps) in E.
  destruct (readFrame_sound p l fut (framed ps) Hp E) as [(rest & Er & E')|[Er Hl]]; cbn [pull_all]; rewrite Er.
  - destruct (IH rest ps Hps E') as (d & ps' & -> & <- & H3 & H4).
    { apply (f_equal length) in E, E'. repeat (simpl in E; rewrite ?length_app in E). rewrite length_app in E'. lia. }
    destruct (pull_all fuel rest) as [d l'] eqn:Ea. exists (p :: d), ps'. done.
  - exists [], (p :: ps). split_and!; [done..|]. intros ->. rewrite app_nil_r in E. subst l.
    rewrite length_app in Hl. lia.
Qed.

(** However the bytes of some frames are cut up on their way, the reader hands
    over exactly those frames, in order. *)
Lemma readLoop_sound pieces pipe ps :
  Forall sendable ps -> pipe ++ concat pieces = framed ps -> (pieces = [] -> pipe = []) ->
  readLoop pipe pieces = ps.
Proof.
  revert pipe ps. induction pieces as [|c pieces IH]; intros pipe ps Hp E Hn.
  { rewrite Hn in E by done. symmetry. by apply framed_nil. }
  cbn [concat] in E. rewrite app_assoc in E. cbn [readLoop].
  destruct (pull_all_sound (length (pipe ++ c)) (pipe ++ c) (concat pieces) ps Hp E ltac:(done)) as (d & ps' & -> & E1 & E2 & E3).
  destruct (pull_all (length (pipe ++ c)) (pipe ++ c)) as [d' l']. simpl in E1, E2. subst d'.
  apply Forall_app in Hp as [_ Hp]. f_equal. apply IH; [done|done|].
  intros ->. specialize (E3 eq_refl) as ->. by rewrite app_nil_r in E2.
Qed.

(** C34. However the bytes of a sequence of frames are cut up on the pipe, inside
    headers and payloads alike, the reader hands over exactly the payloads
    that were written, in order. *)
Theorem frames_survive_fragmentation pieces ps :
  Forall sendable ps -> concat pieces = flat_map writeFrame ps -> readLoop [] pieces = ps.
Proof. intros Hp E. by apply readLoop_sound. Qed.

Lemma frames_survive_fragmentation_witness :
  readLoop [] [[0; 0]; [0; 2; 7]; [8; 0; 0; 0; 1]; [9]] = [[7; 8]; [9]].
Proof.
  apply frames_survive_fragmentation.
  - repeat constructor; discriminate.
  - reflexivity.
Defined.

(* ------------------------------------------------------------------ *)
(** ** The ring keeps the newest bytes *)

(** The ring of [size] bytes after the bytes [h] were written to it. *)
Record ring_of (size : nat) (h : list Z) (r : ringBuffer) : Prop := {
  ro_size : r_size r = size;
  ro_written : r_written r = length h;
  ro_length : length (r_buf r) = size;
  ro_window : forall i, (length h - size <= i < length h)%nat -> r_buf r !! (i mod size)%nat = h !! i }.

Lemma ring_of_new size : ring_of size [] (newRingBuffer size).
Proof. split; simpl; [done|done|apply length_replicate|lia]. Qed.

Lemma mod_distinct a b n : (a < b)%nat -> (b < a + n)%nat -> (a mod n <> b mod n)%nat.
Proof.
  intros Hab Hn E. pose proof (Nat.div_mod a n ltac:(lia)) as Ha. pose proof (Nat.div_mod b n ltac:(lia)) as Hb.
  rewrite E in Ha. assert (a / n < b / n)%nat by nia. nia.
Qed.

Lemma ring_of_put size h r b : (0 < size)%nat -> ring_of size h r -> ring_of size (h ++ [b]) (ring_put r b).
Proof.
  intros Hs [H1 H2 H3 H4]. unfold ring_put. rewrite H1, H2. split; simpl; rewrite ?length_app, ?length_insert; simpl; [done|lia|done|].
  intros i Hi. destruct (decide (i = length h)) as [->|Hne].
  - rewrite list_lookup_insert_eq by (rewrite H3; apply Nat.mod_upper_bound; lia).
    by rewrite lookup_app_r, Nat.sub_diag by lia.
  - rewrite list_lookup_insert_ne by (apply not_eq_sym, mod_distinct; lia).
    rewrite lookup_app_l by lia. apply H4. lia.
Qed.

Lemma ring_of_Write size h r p : (0 < size)%nat -> ring_of size h r -> ring_of size (h ++ p) (ring_Write r p).
Proof.
  intros Hs. revert h r. induction p as [|b p IH]; intros h r Hr; [by rewrite app_nil_r|].
  simpl. change (b :: p) with ([b] ++ p). rewrite app_assoc. by apply IH, ring_of_put.
Qed.

(** [Snapshot] is the bytes since the marker, the last [size] of them. *)
Lemma Snapshot_of size h r from :
  (0 < size)%nat -> ring_of size h r ->
  ring_Snapshot r from = drop (Nat.max from (length h - size)) h.
Proof.
  intros Hs [H1 H2 H3 H4]. unfold ring_Snapshot. rewrite H1, H2.
  destruct (length h <=? from)%nat eqn:E; [apply Nat.leb_le in E; rewrite drop_ge by lia; done|].
  apply Nat.leb_gt in E. cbv zeta. set (want := Nat.min (length h - from) size).
  set (first := (length h - want)%nat). set (start := (first mod size)%nat).
  assert (Nat.max from (length h - size) = first) as -> by (unfold first, want; lia).
  assert (start < size)%nat as Hst by (apply Nat.mod_upper_bound; lia).
  assert (forall j, (j < want)%nat -> h !! (first + j)%nat = r_buf r !! ((start + j) mod size)%nat) as Hw.
  { intros j Hj. rewrite <- H4 by (unfold first, want in *; lia). unfold start.
    by rewrite Nat.Div0.add_mod_idemp_l. }
  apply list_eq. intros j. rewrite lookup_drop. destruct (decide (j < want)%nat) as [Hj|Hj].
  - rewrite Hw by done. destruct (start + want <=? size)%nat eqn:Es.
    + apply Nat.leb_le in Es. rewrite lookup_take_lt, lookup_drop by done. by rewrite Nat.mod_small by lia.
    + apply Nat.leb_gt in Es. destruct (decide (start + j < size)%nat) as [Hlt|Hge].
      * rewrite lookup_app_l, lookup_drop by (rewrite length_drop; lia). by rewrite Nat.mod_small by lia.
      * rewrite lookup_app_r by (rewrite length_drop; lia). rewrite length_drop, H3.
        rewrite lookup_take_lt by (unfold want in *; lia).
        replace (start + j)%nat with (start + j - size + 1 * size)%nat by lia.
        rewrite Nat.Div0.mod_add, Nat.mod_small by (unfold want in *; lia). f_equal. lia.
  - rewrite (lookup_ge_None_2 h) by (unfold first in *; lia). apply lookup_ge_None_2.
    destruct (start + want <=? size)%nat eqn:Es.
    + rewrite length_take. lia.
    + apply Nat.leb_gt in Es. rewrite length_app, length_take, !length_drop, H3. unfold want in *. lia.
Qed.

(* ------------------------------------------------------------------ *)
(** ** One exchange

    What an adapter writes for one request, and what it means: one frame, or
    a head, chunks and an end. *)

Inductive reply :=
| Single (status : Z) (headers : option (gmap string string)) (body : string)
| Streamed (status : Z) (headers : option (gmap string string)) (chunks : list (list Z))
| Failed (msg : string) (fatal : bool).

Definition chunk_data (fr : frameResponse) : option (list Z) :=
  if bool_decide (f_Data fr = ""%string) then Some [] else std_decode (f_Data fr).

Fixpoint chunks_of (ps : list (list Z)) : option (list (list Z)) :=
  match ps with
  | [] => None
  | p :: ps =>
    fr ← frame_of p;
    if bool_decide (f_Type fr = "chunk"%string) then d ← chunk_data fr; cs ← chunks_of ps; Some (d :: cs)
    else if bool_decide (f_Type fr = "response_end"%string) then match ps with [] => Some [] | _ => None end
    else None
  end.

Definition reply_of (ps : list (list Z)) : option reply :=
  match ps with
  | [] => None
  | p :: ps =>
    fr ← frame_of p;
    if bool_decide (f_Type fr = "error"%string) then
      match ps with [] => Some (Failed (f_Message fr) (f_Fatal fr)) | _ => None end
    else if bool_decide (f_Type fr = "response"%string) then
      match ps with [] => Some (Single (f_StatusCode fr) (f_Headers fr) (f_Body fr)) | _ => None end
    else if bool_decide (f_Type fr = "response_start"%string) then
      cs ← chunks_of ps; Some (Streamed (f_StatusCode fr) (f_Headers fr) cs)
    else None
  end.

(** Of the answer, the frames [ps] are not consumed yet; [fut] is what the
    process has still to write. *)
Definition due (w : Worker) (fut : list Z) (ps : list (list Z)) : Prop :=
  Forall sendable ps /\ w_pipe w ++ fut = framed ps.

(** Between two requests: nothing unread, the lock free. *)
Definition idle (w : Worker) : Prop := w_dead w = false /\ w_locked w = false /\ w_pipe w = [].

(** In the middle of a stream of which [cs] is left. *)
Record on_stream (r : DispatchResult) (w : Worker) (fut : list Z) (cs : list (list Z)) : Prop := {
  os_open : finished r = false /\ readErr r = None;
  os_held : finishHook r = true /\ w_locked w = true;
  os_alive : w_dead w = false;
  os_due : exists ps, chunks_of ps = Some cs /\ due w fut ps }.

Lemma readNext_due w a fut ps :
  due w (a_out a ++ fut) ps ->
  let '(w', got) := readNext w a in
  w_dead w' = w_dead w /\ w_locked w' = w_locked w /\ w_Served w' = w_Served w /\ w_sent w' = w_sent w /\
  match got with Got p => exists ps', ps = p :: ps' /\ due w' fut ps' | _ => True end.
Proof.
  intros [Hps E]. unfold readNext. destruct (a_fate a); try done. simpl.
  rewrite app_assoc in E. destruct ps as [|p ps].
  { simpl in E. apply app_eq_nil in E as [-> _]. done. }
  apply Forall_cons in Hps as [Hp Hps].
  destruct (readFrame_sound p (w_pipe w ++ a_out a) fut (framed ps) Hp E) as [(rest & -> & E')|[-> _]]; [|done].
  split_and!; try done. by exists ps.
Qed.

(** The last frame consumed leaves the pipe empty. *)
Lemma due_nil w fut : due w fut [] -> w_pipe w = [] /\ fut = [].
Proof. intros [_ E]. by apply app_eq_nil in E. Qed.

Lemma DispatchEx_due w event wr a fut ps rep :
  idle w -> due w (a_out a ++ fut) ps -> reply_of ps = Some rep ->
  exists r w' e, DispatchEx w event wr a = Some (r, w', e) /\
  match e with
  | Some e => w_dead w' = true \/ exists msg, rep = Failed msg false /\ e = ErrAdapter ("adapter: " ++ msg) /\ idle w' /\ fut = []
  | None =>
    if Streaming r
    then exists cs, rep = Streamed (StatusCode r) (Headers r) cs /\ on_stream r w' fut cs
    else rep = Single (StatusCode r) (Headers r) (Body r) /\ idle w' /\ fut = []
  end.
Proof.
  intros (Hd & Hl & Hpipe) Hdue Hrep. unfold DispatchEx. rewrite Hd, Hl.
  destruct wr; cbv zeta; [|eexists _, _, _; split; [done|by left]..].
  set (w1 := w <| w_sent ::= _ |>).
  pose proof (readNext_due w1 a fut ps Hdue) as Hr.
  destruct (readNext w1 a) as [w2 [p| |e]]; [|eexists _, _, _; split; [done|by left]..].
  destruct Hr as (Hd2 & Hl2 & _ & _ & ps' & -> & Hdue'). simpl in Hrep, Hd2, Hl2. rewrite Hd in Hd2. rewrite Hl in Hl2.
  destruct (frame_of p) as [fr|]; [|done]. simpl in Hrep.
  case_bool_decide; [|case_bool_decide; [|case_bool_decide; [|done]]].
  - destruct ps'; [|done]. injection Hrep as <-. apply due_nil in Hdue' as [Hp ->].
    destruct (f_Fatal fr); eexists _, _, _; (split; [done|]); [by left|right]. by eexists.
  - destruct ps'; [|done]. injection Hrep as <-. apply due_nil in Hdue' as [Hp ->].
    eexists _, _, _. split; [done|]. done.
  - destruct (chunks_of ps') as [cs|] eqn:Ec; [|done]. injection Hrep as <-.
    eexists _, _, _. split; [done|]. exists cs. split; [done|]. split; [done..|]. by exists ps'.
Qed.

Lemma fail_stream_dead r w e :
  let '(_, w', f) := (fail_stream r w e, StreamErr e) in match f with StreamErr _ => w_dead w' = true | _ => True end.
Proof. unfold fail_stream, finalize. by destruct (finishHook _). Qed.

Lemma NextFrame_due r w a fut cs :
  on_stream r w (a_out a ++ fut) cs ->
  match NextFrame r w a with
  | (r', w', Chunk d) => exists cs', cs = d :: cs' /\ on_stream r' w' fut cs' /\ r' = r
  | (_, w', End) => cs = [] /\ idle w' /\ fut = []
  | (_, w', StreamErr _) => w_dead w' = true
  end.
Proof.
  intros [[Hf He] [Hh Hl] Hd (ps & Hps & Hdue)]. unfold NextFrame. rewrite Hf, He.
  pose proof (readNext_due w a fut ps Hdue) as Hr.
  destruct (readNext w a) as [w2 [p| |e]]; [|apply fail_stream_dead..].
  destruct Hr as (Hd2 & Hl2 & _ & _ & ps' & -> & Hdue'). simpl in Hps. rewrite Hd in Hd2. rewrite Hl in Hl2.
  destruct (frame_of p) as [fr|]; [|done]. simpl in Hps. unfold chunk_data in Hps.
  case_bool_decide; [|case_bool_decide; [|done]].
  - case_bool_decide.
    + simpl in Hps. destruct (chunks_of ps') as [cs'|] eqn:Ec; [|done]. injection Hps as <-.
      exists cs'. split; [done|]. split; [|done]. split; [done..|]. by exists ps'.
    + destruct (std_decode (f_Data fr)) as [d|]; [|done]. simpl in Hps.
      destruct (chunks_of ps') as [cs'|] eqn:Ec; [|done]. injection Hps as <-.
      exists cs'. split; [done|]. split; [|done]. split; [done..|]. by exists ps'.
  - destruct ps'; [|done]. injection Hps as <-. apply due_nil in Hdue' as [Hp ->].
    unfold finalize. simpl. rewrite Hh. done.
Qed.
