(* ===== verification/Headers.v ===== *)
(** * Headers between callers and sandboxes ([proxy/proxy.go])

    What of an inbound request enters a sandbox
    ([SanitizeForwardedHeaders]), what is kept of it for replay
    ([captureRequest]), and what of a function's answer reaches the caller
    (the loop over its headers and [applyFunctionResponseGuards]). *)
From S2P Require Import Prelude GoText Netip Url AuthGate.
Open Scope Z_scope.

(** An [http.Header] in the order a walk over the map meets its keys, and the
    same for a plain map of strings. *)
Definition header := list (string * list string).

(* ------------------------------------------------------------------ *)
(** ** Inbound *)

Definition toLower (s : string) : string := of_bytes (lower (bytes s)).
Definition fold_is (s t : string) : bool := EqualFold (bytes s) (bytes t).

Definition redactHeaders : list string :=
  ["authorization"; "cookie"; "x-orva-api-key"; "x-orva-internal-token"; "proxy-authorization"]%string.
Definition redactedValue : string := "[REDACTED]".
Definition sessionCookieName : string := "session_token".

Definition isOrvaCredential (v : string) : bool :=
  let v := trimSpace v in
  match fields v with
  | [scheme; key] => if fold_is scheme "Bearer" then hasPrefix "orva_" key else hasPrefix "orva_" v
  | _ => hasPrefix "orva_" v
  end.

(** The name of one crumb of a cookie header. *)
Definition crumb_name (p : string) : string := trimSpace (of_bytes (fst (cut 61 (bytes p)))).

Definition crumbs (v : string) : list string :=
  List.filter (fun p => negb (bool_decide (p = ""%string))) (map (fun l => trimSpace (of_bytes l)) (split 59 (bytes v))).

Definition stripSessionCookie (v : string) : string :=
  join_words "; " (List.filter (fun p => negb (fold_is (crumb_name p) sessionCookieName)) (crumbs v)).

Definition forward_one (out : gmap string string) (kv : string * list string) : gmap string string :=
  let '(k, vs) := kv in
  if fold_is k "X-Orva-API-Key" || fold_is k "X-Orva-Internal-Token" || fold_is k "Proxy-Authorization" then out
  else if fold_is k "Cookie" then
    match List.filter (fun c => negb (bool_decide (c = ""%string))) (map stripSessionCookie vs) with
    | [] => out
    | kept => <["cookie" := join_words "; " kept]> out
    end
  else if fold_is k "Authorization" then
    let v := join_words ", " vs in
    if isOrvaCredential v then out else <["authorization" := v]> out
  else if hasPrefix "x-orva-" (toLower k) then out
  else <[toLower k := join_words ", " vs]> out.

Definition SanitizeForwardedHeaders (h : header) : gmap string string := foldl forward_one ∅ h.

(** What [captureRequest] hands to the writer; the time is left out. *)
Record captured := MkCaptured {
  cap_ExecutionID : string; cap_FunctionID : string; cap_Method : string; cap_Path : string;
  cap_Headers : gmap string string; cap_Body : list Z; cap_Truncated : bool }.

Definition redact_one (out : gmap string string) (kv : string * list string) : gmap string string :=
  match snd kv with
  | [] => out
  | v :: _ => let k := toLower (fst kv) in
              <[k := if bool_decide (k ∈ redactHeaders) then redactedValue else v]> out
  end.

Definition captureRequest (fnID execID method path : string) (hdr : header) (body : list Z) (maxBytes : Z) : captured :=
  let maxBytes := if maxBytes <=? 0 then 1048576 else maxBytes in
  let over := maxBytes <? Z.of_nat (length body) in
  MkCaptured execID fnID method path (foldl redact_one ∅ hdr)
    (if over then take (Z.to_nat maxBytes) body else body) over.

(* ------------------------------------------------------------------ *)
(** ** Outbound *)

Definition hop_names : list string :=
  ["content-length"; "content-encoding"; "transfer-encoding"; "connection"; "keep-alive"; "proxy-authenticate";
   "proxy-authorization"; "te"; "trailer"; "upgrade"]%string.

Definition hopByHopResponseHeader (k : string) : bool := bool_decide (toLower (trimSpace k) ∈ hop_names).

(** A byte of a header field name. *)
Definition is_token (c : Z) : bool :=
  is_alnum c || existsb (Z.eqb c) [33; 35; 36; 37; 38; 39; 42; 43; 45; 46; 94; 95; 96; 124; 126].

Fixpoint capitalise (up : bool) (l : list Z) : list Z :=
  match l with
  | [] => []
  | c :: l =>
    (if up then if (97 <=? c) && (c <=? 122) then c - 32 else c
     else lower_byte c) :: capitalise (c =? 45) l
  end.

(** [textproto.CanonicalMIMEHeaderKey]: a key that is no field name is left
    as it is. *)
Definition canonicalKey (k : string) : string :=
  if forallb is_token (bytes k) then of_bytes (capitalise true (bytes k)) else k.

(** [w.Header().Set]; the headers under their canonical names. *)
Definition setHeader (k v : string) (m : gmap string string) : gmap string string := <[canonicalKey k := v]> m.

Definition relay_one (m : gmap string string) (kv : string * string) : gmap string string :=
  if hopByHopResponseHeader (fst kv) then m else setHeader (fst kv) (snd kv) m.

Definition function_CSP : string :=
  "sandbox allow-scripts allow-forms allow-popups allow-downloads; frame-ancestors 'none'; base-uri 'none'".

Definition applyFunctionResponseGuards (m : gmap string string) : gmap string string :=
  setHeader "Content-Security-Policy" function_CSP (setHeader "X-Content-Type-Options" "nosniff" m).

(** The headers of the answer up to its status line, from those the server had
    set before; [hs] is a walk over the function's own. *)
Definition answer_headers (hs : list (string * string)) (execID : string) (coldStart : bool)
    (m : gmap string string) : gmap string string :=
  setHeader "X-Orva-Cold-Start" (if coldStart then "true" else "false")
    (setHeader "X-Orva-Execution-ID" execID
      (applyFunctionResponseGuards (foldl relay_one m hs))).

(* ------------------------------------------------------------------ *)
(** ** The path and the request the function sees *)

Definition trimPrefix (p s : string) : string := if hasPrefix p s then str_drop (String.length p) s else s.

Definition function_path (path rawQuery stripPrefix fnID : string) : string :=
  let path :=
    if negb (bool_decide (stripPrefix = ""%string)) && hasPrefix stripPrefix path then
      let path := trimPrefix stripPrefix path in
      if hasPrefix "/" path then path else ("/" ++ path)%string
    else
      let prefix := ("/fn/" ++ fnID)%string in
      if hasPrefix prefix path then
        let path := trimPrefix prefix path in
        if bool_decide (path = ""%string) then "/"%string else path
      else path in
  if bool_decide (rawQuery = ""%string) then path else (path ++ "?" ++ rawQuery)%string.

Example sanitized_headers :
  SanitizeForwardedHeaders
    [("Cookie", ["mine=1; Session_Token=secret"; "session_token=x"]); ("Authorization", ["Bearer jwt"]);
     ("X-Orva-Trigger", ["cron"]); ("Accept", ["a"; "b"]); ("X-Orva-Api-Key", ["orva_k"])]%string
  = {[ "cookie" := "mine=1"; "authorization" := "Bearer jwt"; "accept" := "a, b" ]}%string.
Proof. vm_compute. reflexivity. Qed.

(** Two [Authorization] lines: the first is the key that authorises the call,
    and both reach the function. *)
Example two_authorization_lines_leak :
  SanitizeForwardedHeaders [("Authorization", ["Bearer orva_secret"; "x"])]%string
  = {[ "authorization" := "Bearer orva_secret, x" ]}%string.
Proof. vm_compute. reflexivity. Qed.

Example canonical_names :
  map canonicalKey ["x-orva-cold-start"; "CONTENT-type"; "a b"]%string = ["X-Orva-Cold-Start"; "Content-Type"; "a b"]%string.
Proof. reflexivity. Qed.

Example function_paths :
  [function_path "/shop/cart" "" "/shop/" "f"; function_path "/fn/f" "q=1" "" "f"; function_path "/hook" "" "/hook" "f"]%string
  = ["/cart"; "/?q=1"; "/"]%string.
Proof. reflexivity. Qed.

(* ------------------------------------------------------------------ *)
(** ** Trimming *)

Section TrimLeft.
Context (sp : list (list Z)) (Hsp : Forall (fun p => p <> []) sp).

Definition no_space (l : list Z) : Prop := List.find (fun p => starts_with p l) sp = None.

Lemma trim_left_id n l : no_space l -> trim_left n sp l = l.
Proof. intros H. destruct n; [done|]. cbn [trim_left]. unfold no_space in H. by rewrite H. Qed.

Lemma trim_left_suffix n l : exists p, l = p ++ trim_left n sp l.
Proof.
  revert l. induction n as [|n IH]; intros l; [by exists []|]. cbn [trim_left].
  destruct (List.find _ sp) as [p|]; [|by exists []]. destruct (IH (drop (length p) l)) as [q Hq].
  exists (take (length p) l ++ q). by rewrite <- app_assoc, <- Hq, take_drop.
Qed.

Lemma trim_left_done n l : (length l <= n)%nat -> no_space (trim_left n sp l).
Proof.
  revert l. induction n as [|n IH]; intros l Hn.
  { destruct l; [|simpl in Hn; lia]. unfold no_space. simpl.
    destruct (List.find _ sp) as [p|] eqn:E; [|done]. apply List.find_some in E as [Hp Hs].
    unfold starts_with in Hs. rewrite take_nil in Hs. apply bool_decide_eq_true in Hs. subst p.
    rewrite Forall_forall in Hsp. apply list_elem_of_In in Hp. by apply Hsp in Hp. }
  cbn [trim_left]. destruct (List.find _ sp) as [p|] eqn:E; [|done]. apply IH.
  apply List.find_some in E as [Hp _]. rewrite Forall_forall in Hsp. apply list_elem_of_In, Hsp in Hp.
  rewrite length_drop. destruct p; [done|]. simpl in *. lia.
Qed.

Lemma no_space_prefix l m : no_space (l ++ m) -> no_space l.
Proof.
  unfold no_space. intros H. destruct (List.find _ sp) as [p|] eqn:E in |- *; [|done].
  apply List.find_some in E as [Hp Hs]. pose proof (List.find_none _ _ H p Hp) as Hn. simpl in Hn.
  by rewrite starts_with_app in Hn.
Qed.
End TrimLeft.

Lemma spaces_ne : Forall (fun p : list Z => p <> []) spaces.
Proof. refine (bool_decide_unpack _ _). vm_compute. exact I. Qed.
Lemma rev_spaces_ne : Forall (fun p : list Z => p <> []) (map (@rev Z) spaces).
Proof. refine (bool_decide_unpack _ _). vm_compute. exact I. Qed.

(** A text with no white space at either end. *)
Definition trimmed (s : string) : Prop := no_space spaces (bytes s) /\ no_space (map (@rev Z) spaces) (rev (bytes s)).

Lemma trimSpace_id s : trimmed s -> trimSpace s = s.
Proof.
  intros [H1 H2]. unfold trimSpace. rewrite (trim_left_id spaces) by done. cbv zeta.
  rewrite (trim_left_id (map (@rev Z) spaces)) by done.
  by rewrite rev_involutive, of_bytes_bytes.
Qed.

Lemma all_bytes_suffix (l : list Z) n sp : Forall (fun b => 0 <= b < 256) l -> Forall (fun b => 0 <= b < 256) (trim_left n sp l).
Proof. destruct (trim_left_suffix sp n l) as [p Hp]. rewrite Hp at 1. by intros [_ H]%Forall_app. Qed.

(** What [trimSpace] leaves: a piece from the middle, without white space at its ends. *)
Lemma trimSpace_spec s : exists a b, bytes s = a ++ bytes (trimSpace s) ++ b /\ trimmed (trimSpace s).
Proof.
  unfold trimSpace, trimmed. set (l1 := trim_left (String.length s) spaces (bytes s)). cbv zeta.
  set (l2 := trim_left (length l1) (map (@rev Z) spaces) (rev l1)).
  assert (Forall (fun b => 0 <= b < 256) l1) as Hb1 by (apply all_bytes_suffix, bytes_are_bytes).
  assert (Forall (fun b => 0 <= b < 256) l2) as Hb2 by (by apply all_bytes_suffix, Forall_rev).
  destruct (trim_left_suffix spaces (String.length s) (bytes s)) as [a Ha]. fold l1 in Ha.
  destruct (trim_left_suffix (map (@rev Z) spaces) (length l1) (rev l1)) as [b Hb]. fold l2 in Hb.
  assert (l1 = rev l2 ++ rev b) as E1 by (by rewrite <- (rev_involutive l1), Hb, rev_app_distr).
  rewrite bytes_of_bytes by (by apply Forall_rev). exists a, (rev b). split; [by rewrite Ha, E1|]. split.
  - apply (no_space_prefix spaces _ (rev b)). rewrite <- E1. apply trim_left_done; [apply spaces_ne|]. by rewrite length_bytes.
  - rewrite rev_involutive. apply trim_left_done; [apply rev_spaces_ne|]. by rewrite length_rev.
Qed.

Lemma trimSpace_idem s : trimSpace (trimSpace s) = trimSpace s.
Proof. destruct (trimSpace_spec s) as (_ & _ & _ & H). by apply trimSpace_id. Qed.

(* ------------------------------------------------------------------ *)
(** ** Joining and splitting *)

Lemma join_in (P : Z -> Prop) sep ls : Forall P sep -> Forall (Forall P) ls -> Forall P (join sep ls).
Proof.
  intros Hs. induction 1 as [|l ls Hl Hls IH]; [done|]. destruct ls; [done|].
  cbn [join]. by apply Forall_app; split; [|apply Forall_app].
Qed.

Lemma bytes_join_words sep ls : bytes (join_words sep ls) = join (bytes sep) (bytes <$> ls).
Proof.
  unfold join_words. apply bytes_of_bytes, join_in; [apply bytes_are_bytes|].
  apply Forall_fmap, Forall_true. intros s. apply bytes_are_bytes.
Qed.

Lemma join_app sep l1 l2 : l1 <> [] -> l2 <> [] -> join sep (l1 ++ l2) = join sep l1 ++ sep ++ join sep l2.
Proof.
  intros H1 H2. induction l1 as [|x l1 IH]; [done|]. destruct l1 as [|y l1].
  - destruct l2; [done|]. reflexivity.
  - change (join sep ((x :: y :: l1) ++ l2)) with (x ++ sep ++ join sep ((y :: l1) ++ l2)).
    rewrite IH by done. cbn [join]. by rewrite <- !app_assoc.
Qed.

Lemma join_concat sep css : Forall (fun cs => cs <> []) css -> join sep (map (join sep) css) = join sep (concat css).
Proof.
  induction 1 as [|cs css Hcs Hcss IH]; [done|]. destruct css as [|cs' css].
  { cbn [map concat join]. by rewrite app_nil_r. }
  change (join sep (map (join sep) (cs :: cs' :: css)))
    with (join sep cs ++ sep ++ join sep (map (join sep) (cs' :: css))).
  rewrite IH. cbn [concat]. rewrite (join_app sep cs); [done|done|].
  apply Forall_cons in Hcss as [Hc _]. by destruct cs'.
Qed.

Lemma split_app c a r : Forall (fun x => x <> c) a -> split c (a ++ c :: r) = a :: split c r.
Proof.
  induction 1 as [|x a Hx _ IH]; cbn [app split]; [by rewrite Z.eqb_refl|].
  by rewrite (proj2 (Z.eqb_neq x c) Hx), IH.
Qed.

Lemma split_one c a : Forall (fun x => x <> c) a -> split c a = [a].
Proof. induction 1 as [|x a Hx _ IH]; [done|]. cbn [split]. by rewrite (proj2 (Z.eqb_neq x c) Hx), IH. Qed.

Lemma split_parts (P : Z -> Prop) c s : Forall P s -> Forall (Forall (fun x => P x /\ x <> c)) (split c s).
Proof.
  induction 1 as [|x s Hx Hs IH]; [by repeat constructor|]. cbn [split]. destruct (x =? c) eqn:E; [by constructor|].
  zbool. destruct (split c s) as [|l ls]; [by repeat constructor|]. apply Forall_cons in IH as [Hl Hls].
  by repeat constructor.
Qed.

(* ------------------------------------------------------------------ *)
(** ** Cookies *)

(** What [crumbs] gives: not empty, trimmed, without a semicolon. *)
Definition crumb (c : string) : Prop := c <> ""%string /\ trimSpace c = c /\ Forall (fun x => x <> 59) (bytes c).

Lemma crumbs_are_crumbs v : Forall crumb (crumbs v).
Proof.
  unfold crumbs. apply Forall_forall. intros c [Hne Hin]%list_elem_of_In%filter_In%and_comm.
  apply in_map_iff in Hin as (l & <- & Hl%list_elem_of_In).
  pose proof (split_parts _ 59 (bytes v) (bytes_are_bytes v)) as Hp. rewrite Forall_forall in Hp. specialize (Hp l Hl).
  split_and!; [intros E; by rewrite E in Hne|apply trimSpace_idem|].
  destruct (trimSpace_spec (of_bytes l)) as (a & b & E & _).
  rewrite bytes_of_bytes in E by (eapply Forall_impl; [exact Hp|by intros ? []]).
  rewrite E in Hp. apply Forall_app in Hp as [_ [Hp _]%Forall_app]. eapply Forall_impl; [exact Hp|by intros ? []].
Qed.

Definition piece (l : list Z) : string := trimSpace (of_bytes l).

Lemma split_ne c s : split c s <> [].
Proof. destruct s as [|x s]; [done|]. cbn [split]. destruct (x =? c); [done|]. by destruct (split c s). Qed.

Lemma split_blank s : map piece (split 59 (32 :: s)) = map piece (split 59 s).
Proof.
  cbn [split]. change (32 =? 59) with false. cbn iota. destruct (split 59 s) as [|l ls] eqn:E.
  - by apply split_ne in E.
  - cbn [map]. by f_equal.
Qed.

Lemma pieces_join cs : cs <> [] -> Forall crumb cs -> map piece (split 59 (join [59; 32] (bytes <$> cs))) = cs.
Proof.
  intros Hne H. induction H as [|c cs (_ & Ht & Hc) Hcs IH]; [done|].
  assert (piece (bytes c) = c) as Hp by (unfold piece; by rewrite of_bytes_bytes).
  destruct cs as [|c' cs]; [simpl; by rewrite split_one by done; simpl; rewrite Hp|].
  change (join [59; 32] (bytes <$> c :: c' :: cs)) with (bytes c ++ 59 :: 32 :: join [59; 32] (bytes <$> c' :: cs)).
  rewrite split_app by done. cbn [map]. by rewrite Hp, split_blank, IH.
Qed.

Lemma filter_all {A} (f : A -> bool) l : Forall (fun x => f x = true) l -> List.filter f l = l.
Proof. induction 1 as [|x l Hx _ IH]; [done|]. simpl. by rewrite Hx, IH. Qed.

(** A cookie header put together from crumbs is read as those crumbs. *)
Lemma crumbs_join cs : Forall crumb cs -> crumbs (join_words "; " cs) = cs.
Proof.
  intros H. unfold crumbs. rewrite bytes_join_words. change (bytes "; ") with [59; 32].
  destruct cs as [|c cs]; [done|]. fold piece. rewrite pieces_join by done.
  apply filter_all. eapply Forall_impl; [exact H|]. intros s (Hs & _). by rewrite bool_decide_eq_false_2.
Qed.

Definition not_session (p : string) : bool := negb (fold_is (crumb_name p) sessionCookieName).

Lemma kept_are_crumbs vs : Forall crumb (List.filter not_session (concat (map crumbs vs))).
Proof.
  apply Forall_forall. intros c [Hin _]%list_elem_of_In%filter_In. apply in_concat in Hin as (l & Hl & Hc).
  apply in_map_iff in Hl as (v & <- & _). pose proof (crumbs_are_crumbs v) as H. rewrite Forall_forall in H.
  by apply H, list_elem_of_In.
Qed.

(** The header the function gets is that of the crumbs that are left. *)
Lemma strip_all vs :
  join_words "; " (List.filter (fun c => negb (bool_decide (c = ""%string))) (map stripSessionCookie vs))
  = join_words "; " (List.filter not_session (concat (map crumbs vs))) /\
  (List.filter (fun c => negb (bool_decide (c = ""%string))) (map stripSessionCookie vs) = [] <->
   List.filter not_session (concat (map crumbs vs)) = []).
Proof.
  set (kept := fun v => List.filter not_session (crumbs v)).
  assert (forall v, stripSessionCookie v = ""%string <-> kept v = []) as Hemp.
  { intros v. unfold stripSessionCookie. fold not_session. fold (kept v). split; [|by intros ->].
    intros E. apply (f_equal bytes) in E. rewrite bytes_join_words in E.
    pose proof (crumbs_are_crumbs v) as Hc. rewrite Forall_forall in Hc.
    destruct (kept v) as [|c cs] eqn:Ek; [done|].
    assert (crumb c) as (Hne & _) by (apply Hc, list_elem_of_In, (filter_In not_session); fold (kept v); rewrite Ek; by left).
    destruct c as [|a c]; [done|]. simpl in E. by destruct cs. }
  assert (List.filter not_session (concat (map crumbs vs)) = concat (List.filter (fun cs => negb (bool_decide (cs = []))) (map kept vs))) as ->.
  { induction vs as [|v vs IH]; [done|]. cbn [map concat]. rewrite List.filter_app, IH. fold (kept v). cbn [List.filter].
    case_bool_decide as E; [by rewrite E|done]. }
  set (css := List.filter (fun cs => negb (bool_decide (cs = []))) (map kept vs)).
  assert (List.filter (fun c => negb (bool_decide (c = ""%string))) (map stripSessionCookie vs) = map (join_words "; ") css) as ->.
  { unfold css. induction vs as [|v vs IH]; [done|]. cbn [map List.filter]. rewrite IH.
    rewrite (bool_decide_ext _ _ (Hemp v)). destruct (bool_decide (kept v = [])); [done|]. done. }
  assert (Forall (fun cs => cs <> []) css) as Hcss.
  { apply Forall_forall. intros cs [_ H]%list_elem_of_In%filter_In. apply negb_true_iff, bool_decide_eq_false in H. done. }
  split; [|split].
  - apply bytes_inj. rewrite !bytes_join_words.
    assert (bytes <$> map (join_words "; ") css = map (join (bytes "; ")) (map (fmap bytes) css)) as ->.
    { clear. induction css as [|cs css IH]; [done|]. cbn. rewrite bytes_join_words. f_equal. exact IH. }
    rewrite join_concat; [|apply Forall_fmap; eapply Forall_impl; [exact Hcss|by intros []]].
    f_equal. clear. induction css as [|cs css IH]; [done|]. cbn. by rewrite IH, fmap_app.
  - by destruct css.
  - destruct css as [|cs css']; [done|]. apply Forall_cons in Hcss as [Hc _]. by destruct cs.
Qed.

(* ------------------------------------------------------------------ *)
(** ** What enters a sandbox *)

(** Field names the server lets through are ASCII. *)
Definition ascii_key (k : string) : Prop := Forall (fun c => c < 128) (bytes k).

(** Deciding by the bits of a byte. *)
Ltac ascii_byte c := destruct c as [|p|p]; [reflexivity| |reflexivity];
  repeat (reflexivity || (exfalso; lia) || (destruct p as [p|p|])).

Lemma lower_cons c l : c < 128 -> lower (c :: l) = lower_byte c :: lower l.
Proof. intros Hc. cbn [lower]. ascii_byte c. Qed.

Lemma fold_cons c l : c < 128 -> fold (c :: l) = lower_byte c :: fold l.
Proof. intros Hc. cbn [fold]. ascii_byte c. Qed.

Lemma lower_ascii l : Forall (fun c => c < 128) l -> lower l = map lower_byte l /\ fold l = map lower_byte l.
Proof.
  induction 1 as [|c l Hc _ [IH1 IH2]]; [done|]. rewrite lower_cons, fold_cons by done. by rewrite IH1, IH2.
Qed.

Lemma lower_byte_range c : 0 <= c < 256 -> 0 <= lower_byte c < 256.
Proof. unfold lower_byte. split_ifs; zbool; lia. Qed.

(** On field names the two ways of ignoring case agree. *)
Lemma fold_is_lower k t :
  ascii_key k -> ascii_key t -> fold_is k t = bool_decide (toLower k = toLower t).
Proof.
  intros Hk Ht. unfold fold_is, EqualFold, toLower.
  destruct (lower_ascii _ Hk) as [-> ->], (lower_ascii _ Ht) as [-> ->]. apply bool_decide_ext.
  split; [by intros ->|]. intros E. apply (f_equal bytes) in E.
  rewrite !bytes_of_bytes in E; [done|..]; apply Forall_map; eapply Forall_impl;
    try apply bytes_are_bytes; intros c; apply lower_byte_range.
Qed.

(** What the function is given under a (lower-case) name for the lines [vs]
    the caller sent. *)
Definition forwarded_value (name : string) (vs : list string) : option string :=
  if hasPrefix "x-orva-" name || bool_decide (name = "proxy-authorization"%string) then None
  else if bool_decide (name = "cookie"%string) then
    match List.filter not_session (concat (map crumbs vs)) with
    | [] => None
    | cs => Some (join_words "; " cs)
    end
  else if bool_decide (name = "authorization"%string) then
    let v := join_words ", " vs in if isOrvaCredential v then None else Some v
  else Some (join_words ", " vs).

Lemma forward_one_value out k vs :
  ascii_key k ->
  forward_one out (k, vs) = match forwarded_value (toLower k) vs with Some v => <[toLower k := v]> out | None => out end.
Proof.
  intros Hk. unfold forward_one, forwarded_value.
  rewrite !fold_is_lower by (done || refine (bool_decide_unpack _ _); vm_compute; exact I).
  change (toLower "X-Orva-API-Key") with "x-orva-api-key"%string.
  change (toLower "X-Orva-Internal-Token") with "x-orva-internal-token"%string.
  change (toLower "Proxy-Authorization") with "proxy-authorization"%string.
  change (toLower "Cookie") with "cookie"%string. change (toLower "Authorization") with "authorization"%string.
  set (name := toLower k). destruct (strip_all vs) as [Hs Hn].
  case_bool_decide as E1; [by rewrite E1|]. case_bool_decide as E2; [by rewrite E2|]. cbn [orb].
  case_bool_decide as E3; [by rewrite orb_true_r|]. rewrite orb_false_r.
  case_bool_decide as E4.
  { rewrite E4. cbn [hasPrefix]. destruct (List.filter _ (map _ vs)) as [|c cs].
    - by rewrite (proj1 Hn eq_refl).
    - destruct (List.filter not_session _) as [|c' cs']; [by destruct Hn as [_ Hn]; specialize (Hn eq_refl)|]. by rewrite Hs. }
  case_bool_decide as E5; [rewrite E5; by destruct (isOrvaCredential _)|].
  by destruct (hasPrefix "x-orva-" name).
Qed.

Definition lower_names (h : header) : list string := map (fun kv => toLower (fst kv)) h.

Lemma forward_other h : Forall (fun kv => ascii_key (fst kv)) h -> forall out name,
  name ∉ lower_names h -> foldl forward_one out h !! name = out !! name.
Proof.
  induction 1 as [|[k vs] h Hk _ IH]; intros out name Hn; [done|]. cbn [lower_names map] in Hn.
  apply not_elem_of_cons in Hn as [Hn Hns]. cbn [foldl]. rewrite IH by done.
  rewrite forward_one_value by done. destruct (forwarded_value _ _); [|done]. by rewrite lookup_insert_ne.
Qed.

Lemma forward_walk h k vs :
  Forall (fun kv => ascii_key (fst kv)) h -> NoDup (lower_names h) -> (k, vs) ∈ h ->
  SanitizeForwardedHeaders h !! toLower k = forwarded_value (toLower k) vs.
Proof.
  unfold SanitizeForwardedHeaders. intros Ha Hnd Hin.
  assert ((∅ : gmap string string) !! toLower k = None) as Hout by apply lookup_empty. revert Hout. generalize (∅ : gmap string string) as out.
  induction Ha as [|[k' vs'] h Hk Ha IH]; [by apply elem_of_nil in Hin|]. intros out Hout.
  cbn [lower_names map fst] in Hnd. apply NoDup_cons in Hnd as [Hni Hnd]. cbn [foldl fst] in *.
  apply elem_of_cons in Hin as [[= -> ->]|Hin].
  - rewrite forward_other by done. rewrite forward_one_value by done.
    destruct (forwarded_value _ _); [by rewrite lookup_insert_eq|done].
  - apply IH; [done|done|]. rewrite forward_one_value by done.
    destruct (forwarded_value (toLower k') vs'); [|exact Hout].
    rewrite lookup_insert_ne; [done|]. intros E. apply Hni. rewrite E. apply list_elem_of_In, in_map_iff.
    exists (k, vs). split; [done|by apply list_elem_of_In].
Qed.

(** Whatever order the walk takes, each entry is the value of some line. *)
Lemma forward_source h name v :
  Forall (fun kv => ascii_key (fst kv)) h -> SanitizeForwardedHeaders h !! name = Some v ->
  exists k vs, (k, vs) ∈ h /\ name = toLower k /\ forwarded_value name vs = Some v.
Proof.
  unfold SanitizeForwardedHeaders. intros Ha Hv.
  enough ((∅ : gmap string string) !! name = Some v \/ exists k vs, (k, vs) ∈ h /\ name = toLower k /\ forwarded_value name vs = Some v)
    as [H|H] by (by rewrite ?lookup_empty in H || exact H).
  revert Hv. generalize (∅ : gmap string string) as out.
  induction Ha as [|[k vs] h Hk Ha IH]; intros out Hv; [by left|]. cbn [foldl] in Hv.
  destruct (IH _ Hv) as [H|(k' & vs' & Hin & H)].
  - rewrite forward_one_value in H by done. destruct (forwarded_value (toLower k) vs) as [v'|] eqn:Ev; [|by left].
    destruct (decide (name = toLower k)) as [->|Hne].
    + rewrite lookup_insert_eq in H. injection H as <-. right. exists k, vs. split_and!; [by left|done|done].
    + rewrite lookup_insert_ne in H by done. by left.
  - right. exists k', vs'. split; [by right|done].
Qed.

(** What a sandbox is handed is, name by name, exactly what the lines of
    the request say: Orva's own names and credentials dropped, every cookie
    but the session's kept in order, all other lines joined. *)
Theorem sandbox_headers_exact h :
  Forall (fun kv => ascii_key (fst kv)) h -> NoDup (lower_names h) ->
  (forall k vs, (k, vs) ∈ h -> SanitizeForwardedHeaders h !! toLower k = forwarded_value (toLower k) vs) /\
  (forall name, name ∉ lower_names h -> SanitizeForwardedHeaders h !! name = None) /\
  (forall k vs v, (k, vs) ∈ h -> toLower k = "cookie"%string -> SanitizeForwardedHeaders h !! "cookie"%string = Some v ->
   crumbs v = List.filter not_session (concat (map crumbs vs))).
Proof.
  intros Ha Hnd. split; [|split].
  - intros k vs Hin. by apply forward_walk.
  - intros name Hn. unfold SanitizeForwardedHeaders. rewrite forward_other by done. apply lookup_empty.
  - intros k vs v Hin Ek Hv. rewrite <- Ek, (forward_walk h k vs) in Hv by done. rewrite Ek in Hv.
    unfold forwarded_value in Hv. cbn [hasPrefix] in Hv.
    destruct (List.filter not_session _) as [|c cs] eqn:E; [done|]. injection Hv as <-. rewrite crumbs_join; [done|].
    rewrite <- E. apply kept_are_crumbs.
Qed.

Definition sample_request : header :=
  [("Cookie", ["mine=1; Session_Token=secret"; "theme=dark"]); ("Authorization", ["bearer orva_k1"]); ("Accept", ["a"; "b"])]%string.

Lemma sandbox_headers_exact_witness :
  Forall (fun kv => ascii_key (fst kv)) sample_request /\ NoDup (lower_names sample_request) /\
  crumbs "mine=1; theme=dark" = ["mine=1"; "theme=dark"]%string.
Proof.
  assert (Forall (fun kv => ascii_key (fst kv)) sample_request) as Ha by (refine (bool_decide_unpack _ _); vm_compute; exact I).
  assert (NoDup (lower_names sample_request)) as Hn by (refine (bool_decide_unpack _ _); vm_compute; exact I).
  split; [exact Ha|split; [exact Hn|]].
  destruct (sandbox_headers_exact sample_request Ha Hn) as (_ & _ & H).
  rewrite (H "Cookie"%string ["mine=1; Session_Token=secret"; "theme=dark"]%string);
    [vm_compute; reflexivity|left|vm_compute; reflexivity|vm_compute; reflexivity].
Defined.


(* ------------------------------------------------------------------ *)
(** ** The key that opens a function does not enter it *)

Definition printable (c : Z) : Prop := 33 <= c <= 126.

(** How a white space starts. *)
Definition blank_head (p : list Z) : bool := match p with x :: _ => (x <? 33) || (126 <? x) | [] => false end.

Lemma no_space_printable sp c l : forallb blank_head sp = true -> printable c -> no_space sp (c :: l).
Proof.
  intros Hsp Hc. unfold no_space. destruct (List.find _ sp) as [p|] eqn:E in |- *; [|done].
  apply List.find_some in E as [Hp%list_elem_of_In Hs]. rewrite forallb_forall in Hsp. apply list_elem_of_In, Hsp in Hp.
  destruct p as [|x p]; [done|]. unfold starts_with in Hs. apply bool_decide_eq_true in Hs. injection Hs as -> _.
  unfold printable in Hc. simpl in Hp. lia.
Qed.

Lemma spaces_heads : forallb blank_head spaces = true /\ forallb blank_head (map (@rev Z) spaces) = true.
Proof. split; reflexivity. Qed.

Lemma printable_word w : w <> [] -> Forall printable w -> word w.
Proof.
  intros Hne H. split; [done|]. split; [|eapply Forall_impl; [exact H|]; unfold printable; lia].
  clear Hne. induction H as [|c w Hc _ IH]; [done|]. split; [|done]. by apply no_space_printable; [apply spaces_heads|].
Qed.

(** Printable at both ends, hence trimmed. *)
Lemma printable_trimmed a m b : printable a -> printable b -> forall s, bytes s = a :: m ++ [b] -> trimSpace s = s.
Proof.
  intros Ha Hb s E. apply trimSpace_id. unfold trimmed. rewrite E. destruct spaces_heads as [H1 H2]. split.
  - by apply no_space_printable.
  - cbn [rev]. rewrite rev_app_distr. by apply no_space_printable.
Qed.

Lemma lower_bearer c d : 97 <= d <= 122 -> lower_byte c = d -> printable c /\ c < 128.
Proof. unfold lower_byte, printable. split_ifs; zbool; lia. Qed.

(** An [Authorization] line that carries a key: the scheme in any case, a
    blank, the key. *)
Record key_line (line scheme key : string) : Prop := {
  kl_line : line = (scheme ++ " " ++ key)%string;
  kl_scheme : map lower_byte (bytes scheme) = bytes "bearer";
  kl_key : Forall printable (bytes key);
  kl_orva : hasPrefix "orva_" key = true }.

Lemma hasPrefix_bytes p s : hasPrefix p s = true -> exists r, bytes s = bytes p ++ r.
Proof.
  revert s. induction p as [|a p IH]; intros s; [by exists (bytes s)|]. destruct s as [|b s]; [done|]. simpl.
  intros [->%bool_decide_eq_true H]%andb_true_iff. destruct (IH s H) as [r ->]. by exists r.
Qed.

Lemma key_line_shape line scheme key :
  key_line line scheme key ->
  Forall printable (bytes scheme) /\ Forall (fun c => c < 128) (bytes scheme) /\ length (bytes scheme) = 6%nat /\
  (exists a m b, bytes key = a :: m ++ [b] /\ printable a /\ printable b) /\ trimSpace line = line /\ trimSpace key = key.
Proof.
  intros [-> Hs Hk Ho]. destruct (hasPrefix_bytes _ _ Ho) as [r Hr].
  assert (exists a m b, bytes key = a :: m ++ [b] /\ printable a /\ printable b) as (a & m & b & Hkey & Ha & Hb).
  { destruct (exists_last (l := tl (bytes key))) as (m & b & E); [by rewrite Hr|]. rewrite Hr in E. cbn in E.
    exists 111, m, b. rewrite Hr. cbn. rewrite E. split; [done|]. split; [unfold printable; lia|].
    rewrite Forall_forall in Hk. apply Hk. rewrite Hr. cbn. rewrite E. right. apply elem_of_app. right. by left. }
  assert (Forall (fun c => printable c /\ c < 128) (bytes scheme) /\ length (bytes scheme) = 6%nat) as [H6 Hl].
  { destruct (bytes scheme) as [|c1 [|c2 [|c3 [|c4 [|c5 [|c6 [|c7 r']]]]]]]; try discriminate Hs.
    change (bytes "bearer") with [98; 101; 97; 114; 101; 114] in Hs. injection Hs as H1 H2 H3 H4 H5 H6. split; [|done].
    repeat (apply Forall_cons; split; [eapply lower_bearer; [|eassumption]; lia|]). by apply Forall_nil. }
  split_and!.
  - eapply Forall_impl; [exact H6|by intros ? []].
  - eapply Forall_impl; [exact H6|by intros ? []].
  - done.
  - by exists a, m, b.
  - destruct (bytes scheme) as [|c s] eqn:Es; [done|]. apply Forall_cons in H6 as [[Hc _] _].
    apply (printable_trimmed c (s ++ 32 :: a :: m) b Hc Hb).
    rewrite !bytes_app, Es, Hkey. cbn. by rewrite <- app_assoc.
  - by apply (printable_trimmed a m b Ha Hb).
Qed.

Lemma str_take_app s t : str_take (String.length s) (s ++ t) = s.
Proof.
  induction s as [|c s IH]; [by destruct t|].
  change (String c (str_take (String.length s) (s ++ t)) = String c s). by rewrite IH.
Qed.
Lemma str_drop_app s t : str_drop (String.length s) (s ++ t) = t.
Proof. induction s as [|c s IH]; [by destruct t|exact IH]. Qed.

(** The endpoint takes that key to authorise the call, and the sandbox is not
    given the line. *)
Lemma key_line_credential line scheme key r :
  key_line line scheme key -> h_APIKey r = ""%string -> h_Authorization r = line ->
  invoke_key r = key /\ isOrvaCredential (join_words ", " [line]) = true.
Proof.
  intros Hl Ha Hr. destruct (key_line_shape _ _ _ Hl) as (Hp & Hlt & Hlen & (a & m & b & Hkey & _) & Ht & Htk).
  destruct Hl as [E Hs Hk Ho]. split.
  - unfold invoke_key. rewrite Ha, Hr, bool_decide_eq_true_2, E by done.
    assert (String.length (scheme ++ " ") = 7%nat) as H7 by (by rewrite <- length_bytes, bytes_app, length_app, Hlen).
    replace (scheme ++ " " ++ key)%string with ((scheme ++ " ") ++ key)%string by (apply bytes_inj; by rewrite !bytes_app, <- app_assoc).
    unfold is_bearer. rewrite <- H7, str_take_app, str_drop_app, bytes_app, List.map_app.
    change (map (fun c => if (65 <=? c) && (c <=? 90) then c + 32 else c) (bytes scheme)) with (map lower_byte (bytes scheme)).
    rewrite Hs. rewrite bool_decide_eq_true_2 by done.
    assert ((String.length (scheme ++ " ") <? String.length ((scheme ++ " ") ++ key))%nat = true) as ->.
    { apply Nat.ltb_lt. rewrite <- !length_bytes, !bytes_app, !length_app, Hkey. simpl. lia. }
    by rewrite Htk.
  - assert (join_words ", " [line] = line) as -> by (unfold join_words; cbn; apply of_bytes_bytes).
    unfold isOrvaCredential. rewrite Ht.
    assert (fields line = [scheme; key]) as ->.
    { rewrite E. replace (scheme ++ " " ++ key)%string with (join_words " " [scheme; key]).
      - apply fields_join_words, Forall_cons. split; [apply printable_word; [by destruct (bytes scheme)|done]|].
        apply Forall_singleton, printable_word; [by rewrite Hkey|done].
      - apply bytes_inj. rewrite bytes_join_words, !bytes_app. done. }
    unfold fold_is, EqualFold. destruct (lower_ascii _ Hlt) as [_ ->]. rewrite Hs.
    by rewrite bool_decide_eq_true_2.
Qed.


Definition sample_caller : request := Request "POST" "/fn/f" "" "" "bearer orva_k1" None.


(* ------------------------------------------------------------------ *)
(** ** What is kept of a request *)

Lemma redact_walk h : forall out name,
  name ∈ redactHeaders -> (out !! name = None \/ out !! name = Some redactedValue) ->
  foldl redact_one out h !! name = None \/ foldl redact_one out h !! name = Some redactedValue.
Proof.
  induction h as [|[k vs] h IH]; intros out name Hn Hout; [done|]. cbn [foldl]. apply IH; [done|].
  unfold redact_one. cbn [fst snd]. destruct vs as [|v vs]; [done|].
  destruct (decide (name = toLower k)) as [->|Hne]; [|by rewrite lookup_insert_ne].
  rewrite lookup_insert_eq. right. by rewrite bool_decide_eq_true_2.
Qed.

(** A captured request never holds the value of a credential header, and
    its body is the request's up to the cap, marked when it was cut. *)
Theorem captures_hold_no_credentials fnID execID method path hdr body maxBytes :
  let c := captureRequest fnID execID method path hdr body maxBytes in
  let cap := if maxBytes <=? 0 then 1048576 else maxBytes in
  (forall name, name ∈ redactHeaders -> cap_Headers c !! name = None \/ cap_Headers c !! name = Some redactedValue) /\
  cap_Body c `prefix_of` body /\ Z.of_nat (length (cap_Body c)) <= cap /\
  (cap_Truncated c = false -> cap_Body c = body) /\ (cap_Truncated c = true -> Z.of_nat (length (cap_Body c)) = cap /\ cap_Body c <> body).
Proof.
  cbv zeta. unfold captureRequest. set (cap := if maxBytes <=? 0 then 1048576 else maxBytes).
  assert (0 < cap) as Hcap by (unfold cap; split_ifs; zbool; lia). cbn [cap_Headers cap_Body cap_Truncated].
  split; [intros name Hn; apply redact_walk; [done|left; apply lookup_empty]|].
  destruct (cap <? Z.of_nat (length body)) eqn:E; zbool.
  - assert (length (take (Z.to_nat cap) body) = Z.to_nat cap) as Hl by (rewrite length_take; lia). split_and!.
    + apply prefix_take.
    + rewrite Hl. lia.
    + done.
    + intros _. split; [rewrite Hl; lia|]. intros Eb. rewrite Eb in Hl. lia.
  - split_and!; [done|lia|done|done].
Qed.

(* ------------------------------------------------------------------ *)
(** ** What an answer cannot undo *)

Lemma token_printable c : is_token c = true -> printable c.
Proof.
  unfold is_token, is_alnum, printable. cbn [existsb]. intros H.
  repeat (apply orb_true_iff in H as [H|H]; [zbool; lia|]). zbool; done.
Qed.

Lemma printable_trim k : Forall printable (bytes k) -> trimSpace k = k.
Proof.
  intros H. apply trimSpace_id. destruct spaces_heads as [H1 H2]. unfold trimmed. split.
  - destruct H; [done|]. by apply no_space_printable.
  - apply Forall_rev in H. destruct H; [done|]. by apply no_space_printable.
Qed.

Lemma lower_capitalise up l : map lower_byte (capitalise up l) = map lower_byte l.
Proof.
  revert up. induction l as [|c l IH]; intros up; [done|]. cbn [capitalise map]. rewrite IH. f_equal.
  unfold lower_byte. destruct up; split_ifs; zbool; lia.
Qed.

Lemma capitalise_range up l : Forall (fun c => 0 <= c < 256) l -> Forall (fun c => 0 <= c < 256) (capitalise up l).
Proof.
  intros H. revert up. induction H as [|c l Hc _ IH]; intros up; [done|]. cbn [capitalise]. constructor; [|apply IH].
  destruct up; [split_ifs; zbool; lia|by apply lower_byte_range].
Qed.

(** A key that ends up under the canonical form of a hop-by-hop name is one. *)
Lemma canonical_hop k h : h ∈ hop_names -> canonicalKey k = canonicalKey h -> hopByHopResponseHeader k = true.
Proof.
  intros Hh E. unfold hopByHopResponseHeader. apply bool_decide_eq_true.
  assert (Forall (fun h => forallb is_token (bytes (canonicalKey h)) = true /\ toLower (canonicalKey h) = h) hop_names) as Hall
    by (refine (bool_decide_unpack _ _); vm_compute; exact I).
  rewrite Forall_forall in Hall. destruct (Hall h Hh) as [Ht Hl]. rewrite <- E in Ht, Hl. unfold canonicalKey in Ht, Hl.
  destruct (forallb is_token (bytes k)) eqn:Ek; [|congruence].
  assert (Forall printable (bytes k)) as Hp.
  { apply Forall_forall. intros c Hc. apply token_printable. rewrite forallb_forall in Ek. by apply Ek, list_elem_of_In. }
  rewrite printable_trim by done. enough (toLower k = h) as -> by done. rewrite <- Hl. unfold toLower. f_equal.
  rewrite bytes_of_bytes by apply capitalise_range, bytes_are_bytes.
  assert (forall l, Forall printable l -> Forall (fun c => c < 128) l) as H128
    by (intros l Hx; eapply Forall_impl; [exact Hx|unfold printable; lia]).
  destruct (lower_ascii (bytes k)) as [-> _]; [by apply H128|].
  destruct (lower_ascii (capitalise true (bytes k))) as [-> _]; [|by rewrite lower_capitalise].
  apply H128, Forall_forall. intros c Hc. apply token_printable. rewrite bytes_of_bytes in Ht by apply capitalise_range, bytes_are_bytes.
  rewrite forallb_forall in Ht. by apply Ht, list_elem_of_In.
Qed.

Lemma relay_keeps hs : forall m h, h ∈ hop_names -> foldl relay_one m hs !! canonicalKey h = m !! canonicalKey h.
Proof.
  induction hs as [|[k v] hs IH]; intros m h Hh; [done|]. cbn [foldl]. rewrite IH by done. unfold relay_one. cbn [fst snd].
  destruct (hopByHopResponseHeader k) eqn:E; [done|]. unfold setHeader. rewrite lookup_insert_ne; [done|].
  intros Ec. by rewrite (canonical_hop k h Hh Ec) in E.
Qed.

(** No header of a function's answer survives in place of the guards, the
    execution's id or the cold-start mark, in any order of its headers, and
    none of them sets a header that describes the transfer. *)
Theorem answers_keep_their_guards hs execID coldStart m :
  let out := answer_headers hs execID coldStart m in
  out !! "Content-Security-Policy"%string = Some function_CSP /\
  out !! "X-Content-Type-Options"%string = Some "nosniff"%string /\
  out !! "X-Orva-Execution-Id"%string = Some execID /\
  out !! "X-Orva-Cold-Start"%string = Some (if coldStart then "true" else "false")%string /\
  Forall (fun h => out !! canonicalKey h = m !! canonicalKey h) hop_names.
Proof.
  cbv zeta. unfold answer_headers, applyFunctionResponseGuards, setHeader.
  change (canonicalKey "Content-Security-Policy") with "Content-Security-Policy"%string.
  change (canonicalKey "X-Content-Type-Options") with "X-Content-Type-Options"%string.
  change (canonicalKey "X-Orva-Execution-ID") with "X-Orva-Execution-Id"%string.
  change (canonicalKey "X-Orva-Cold-Start") with "X-Orva-Cold-Start"%string.
  split_and!; try (by rewrite ?lookup_insert_ne, lookup_insert_eq by done).
  apply Forall_forall. intros h Hh.
  assert (Forall (fun h => canonicalKey h ∉ ["Content-Security-Policy"; "X-Content-Type-Options"; "X-Orva-Execution-Id"; "X-Orva-Cold-Start"]%string) hop_names)
    as Hne by (refine (bool_decide_unpack _ _); vm_compute; exact I).
  rewrite Forall_forall in Hne. specialize (Hne h Hh). rewrite !not_elem_of_cons in Hne. destruct Hne as (H1 & H2 & H3 & H4 & _).
  rewrite !lookup_insert_ne by done. by apply relay_keeps.
Qed.
