(* ===== verification/Stderr.v ===== *)
(** * Standard error of an invocation ([proxy/logparser.go], [finalizeStderr])

    The structured log lines the runtime SDK writes to standard error are
    taken out and queued as entries; nsjail's own warnings are dropped; the
    rest is what the dashboard shows.  An entry's instant is kept as the text
    it was sent as, its fields as a value. *)
From S2P Require Import Prelude GoText Json Netip Url Worker.
Open Scope Z_scope.

Definition orvaLogMagicPrefix : list Z := Eval vm_compute in bytes "__ORVA_LOG_JSON__".

(** [bytes.SplitAfter (s, "\n")]. *)
Fixpoint split_after (s : list Z) : list (list Z) :=
  match s with
  | [] => [[]]
  | x :: s => if x =? 10 then [x] :: split_after s
              else match split_after s with l :: ls => (x :: l) :: ls | [] => [[x]] end
  end.

Fixpoint contains (p s : list Z) : bool :=
  starts_with p s || match s with [] => false | _ :: s => contains p s end.

(** The record decoded from a line. *)
Record logrec := MkLogrec { l_TS : string; l_Level : string; l_Message : string; l_Fields : option json; l_SpanID : string }.
#[export] Instance eta_logrec : Eta logrec := fun r => MkLogrec (l_TS r) (l_Level r) (l_Message r) (l_Fields r) (l_SpanID r).

Inductive log_field := LTS | LLevel | LMessage | LFields | LSpanID.
Definition log_fields : list (string * log_field) :=
  [("ts", LTS); ("level", LLevel); ("message", LMessage); ("fields", LFields); ("span_id", LSpanID)]%string.

Definition log_field_of (k : string) : option log_field :=
  match List.find (fun nf => bool_decide (fst nf = k)) log_fields with
  | Some (_, f) => Some f
  | None =>
    match List.find (fun nf => EqualFold (bytes k) (bytes (fst nf))) log_fields with
    | Some (_, f) => Some f
    | None => None
    end
  end.

Definition assign_log (r : logrec) (k : string) (v : json) : option logrec :=
  match log_field_of k with
  | None => Some r
  | Some LTS => s ← as_string (l_TS r) v; Some (r <| l_TS := s |>)
  | Some LLevel => s ← as_string (l_Level r) v; Some (r <| l_Level := s |>)
  | Some LMessage => s ← as_string (l_Message r) v; Some (r <| l_Message := s |>)
  | Some LFields => Some (r <| l_Fields := Some v |>)
  | Some LSpanID => s ← as_string (l_SpanID r) v; Some (r <| l_SpanID := s |>)
  end.

Definition log_of (payload : list Z) : option logrec :=
  let zero := MkLogrec "" "" "" None "" in
  match unmarshal payload with
  | Some JNull => Some zero
  | Some (JObject l) => foldl (fun r kv => r ← r; assign_log r (fst kv) (snd kv)) (Some zero) l
  | _ => None
  end.

(** An entry as [AsyncInsertLogEntry] queues it. *)
Record LogEntry := MkEntry {
  le_FunctionID : string; le_ExecutionID : string; le_TraceID : string; le_SpanID : string;
  le_TS : string; le_Level : string; le_Message : string; le_Fields : option json }.

(** Who the lines belong to. *)
Record log_owner := MkOwner { o_FunctionID : string; o_ExecutionID : string; o_TraceID : string; o_SpanID : string }.

Definition log_entry (o : log_owner) (r : logrec) : LogEntry :=
  MkEntry (o_FunctionID o) (o_ExecutionID o) (o_TraceID o)
    (if bool_decide (l_SpanID r = ""%string) then o_SpanID o else l_SpanID r)
    (l_TS r) (if bool_decide (l_Level r = ""%string) then "info" else l_Level r) (l_Message r) (l_Fields r).

(** Without the newline that ends it. *)
Definition probe (line : list Z) : list Z :=
  if bool_decide (last line = Some 10) then removelast line else line.

(** The record of a line that is a structured one. *)
Definition log_line (line : list Z) : option logrec :=
  let p := probe line in
  if starts_with orvaLogMagicPrefix p then log_of (drop (length orvaLogMagicPrefix) p) else None.

Fixpoint extract_lines (o : log_owner) (lines : list (list Z)) : list Z * list LogEntry :=
  match lines with
  | [] => ([], [])
  | line :: lines =>
    let '(keep, es) := extract_lines o lines in
    match log_line line with
    | Some r => (keep, log_entry o r :: es)
    | None => (line ++ keep, es)
    end
  end.

(** What stays of the blob, and the entries queued, in order. *)
Definition extractStructuredLogs (o : log_owner) (stderr : list Z) : list Z * list LogEntry :=
  if bool_decide (stderr = []) || negb (contains orvaLogMagicPrefix stderr) then (stderr, [])
  else extract_lines o (split_after stderr).

(* ------------------------------------------------------------------ *)
(** ** nsjail's own lines *)

Definition is_word_char (c : Z) : bool := is_alnum c || (c =? 95).

(** At least one byte of a class, and what follows the run of them. *)
Fixpoint skip_while (p : Z -> bool) (l : list Z) : list Z :=
  match l with c :: r => if p c then skip_while p r else l | [] => [] end.
Definition skip_some (p : Z -> bool) (l : list Z) : option (list Z) :=
  match l with c :: r => if p c then Some (skip_while p r) else None | [] => None end.

(** [^\[[WI]\]\[[^\]]*\]\[\d+\] \w+\(\):\d+ ] *)
Definition nsjailNoise (l : list Z) : bool :=
  match
    l ← match l with 91 :: c :: 93 :: 91 :: r => if (c =? 87) || (c =? 73) then Some r else None | _ => None end;
    l ← strip (bytes "][") (skip_while (fun c => negb (c =? 93)) l);
    l ← skip_some is_digit l;
    l ← strip (bytes "] ") l;
    l ← skip_some is_word_char l;
    l ← strip (bytes "():") l;
    l ← skip_some is_digit l;
    strip (bytes " ") l
  with Some _ => true | None => false end.

Definition stripNsjailNoise (stderr : list Z) : list Z :=
  if bool_decide (stderr = []) || negb (starts_with [91] (skip_while (Z.eqb 10) stderr)) then stderr
  else
    let out := join [10] (List.filter (fun l => negb (nsjailNoise l)) (split 10 stderr)) in
    if bool_decide (trimSpace (of_bytes out) = ""%string) then [] else out.

(** With a database: entries are queued and the rest is what is stored. *)
Definition finalizeStderr (o : log_owner) (raw : list Z) : list Z * list LogEntry :=
  if bool_decide (raw = []) then (raw, [])
  else let '(rest, es) := extractStructuredLogs o raw in (stripNsjailNoise rest, es).

Definition sample_owner : log_owner := MkOwner "fn" "ex" "tr" "sp".

Example finalize_sample :
  finalizeStderr sample_owner
    (bytes "[W][2026-01-01T00:00:00+0000][1] logParams():318 Process" ++ [10] ++
     text "__ORVA_LOG_JSON__{`level`:``,`message`:`hi`}" ++ [10] ++ bytes "plain" ++ [10])
  = (bytes "plain" ++ [10], [MkEntry "fn" "ex" "tr" "sp" "" "info" "hi" None]).
Proof. vm_compute. reflexivity. Qed.

(* ------------------------------------------------------------------ *)
(** ** Lemmas *)

Lemma split_after_concat s : concat (split_after s) = s.
Proof.
  induction s as [|x s IH]; [done|]. cbn [split_after]. destruct (x =? 10) eqn:E; [cbn; by rewrite IH|].
  destruct (split_after s) as [|l ls]; cbn in *; by rewrite <- IH.
Qed.

Definition no_newline (l : list Z) : Prop := Forall (fun x => x <> 10) l.

Lemma split_after_line b s : no_newline b -> split_after (b ++ 10 :: s) = (b ++ [10]) :: split_after s.
Proof.
  induction 1 as [|x b Hx _ IH]; [done|]. cbn [app split_after]. by rewrite (proj2 (Z.eqb_neq x 10) Hx), IH.
Qed.

Lemma split_after_last b : no_newline b -> split_after b = [b].
Proof. induction 1 as [|x b Hx _ IH]; [done|]. cbn [split_after]. by rewrite (proj2 (Z.eqb_neq x 10) Hx), IH. Qed.

(** Whole lines and a rest. *)
Definition ended (ls : list (list Z)) : list (list Z) := map (fun l => l ++ [10]) ls.

Lemma split_after_ended ls b : Forall no_newline ls -> no_newline b -> split_after (concat (ended ls) ++ b) = ended ls ++ [b].
Proof.
  intros Hls Hb. induction Hls as [|l ls Hl _ IH]; [by apply split_after_last|].
  cbn [ended map concat app]. rewrite <- !app_assoc. cbn [app]. rewrite split_after_line by done. fold (ended ls). by rewrite IH.
Qed.

Lemma split_after_shape s : exists ls b, split_after s = ended ls ++ [b] /\ Forall no_newline ls /\ no_newline b.
Proof.
  induction s as [|x s (ls & b & E & Hls & Hb)]; [exists [], []; repeat constructor|]. cbn [split_after]. rewrite E.
  destruct (x =? 10) eqn:Ex; zbool.
  - subst. exists ([] :: ls), b. split_and!; [done|by repeat constructor|done].
  - destruct ls as [|l ls]; cbn [ended map app].
    + exists [], (x :: b). split_and!; [done|by constructor|by constructor].
    + apply Forall_cons in Hls as [Hl Hls]. exists ((x :: l) :: ls), b. split_and!; [done|by repeat constructor|done].
Qed.

Definition plain (line : list Z) : bool := match log_line line with Some _ => false | None => true end.

Lemma extract_lines_spec o lines :
  extract_lines o lines = (concat (List.filter plain lines), log_entry o <$> omap log_line lines).
Proof.
  induction lines as [|l lines IH]; [done|]. cbn [extract_lines List.filter omap list_omap]. rewrite IH.
  assert (plain l = match log_line l with Some _ => false | None => true end) as -> by done. by destruct (log_line l).
Qed.

Lemma starts_with_split p s : starts_with p s = true -> exists r, s = p ++ r.
Proof.
  unfold starts_with. intros H%bool_decide_eq_true. exists (drop (length p) s). by rewrite <- H at 1; rewrite take_drop.
Qed.

Lemma contains_here p a b : starts_with p b = true -> contains p (a ++ b) = true.
Proof.
  intros H. induction a as [|x a IH]; cbn [app contains]; [destruct b; cbn [contains]; by rewrite H|].
  by rewrite IH, orb_true_r.
Qed.

(** A blob without the marker has no structured line. *)
Lemma no_marker s : contains orvaLogMagicPrefix s = false -> Forall (fun l => log_line l = None) (split_after s).
Proof.
  intros Hc. apply Forall_forall. intros l Hl. unfold log_line.
  destruct (starts_with orvaLogMagicPrefix (probe l)) eqn:E; [|done]. exfalso.
  apply list_elem_of_split in Hl as (l1 & l2 & Hs). pose proof (split_after_concat s) as Hcat. rewrite Hs, concat_app in Hcat.
  cbn [concat] in Hcat. assert (exists r, l = probe l ++ r) as [r Hr].
  { unfold probe. case_bool_decide as Hlast; [|exists []; by rewrite app_nil_r].
    destruct (exists_last (l := l)) as (m & z & ->); [by intros ->|]. exists [z]. by rewrite removelast_last. }
  rewrite Hr, <- app_assoc in Hcat. rewrite <- Hcat in Hc. rewrite contains_here in Hc; [done|]. by apply starts_with_app.
Qed.

Lemma all_plain ls : Forall (fun l => log_line l = None) ls -> List.filter plain ls = ls /\ omap log_line ls = [].
Proof.
  induction 1 as [|l ls Hl _ [IH1 IH2]]; [done|]. cbn [List.filter omap list_omap].
  assert (plain l = true) as -> by (unfold plain; by rewrite Hl). rewrite Hl. split; [by rewrite IH1|exact IH2].
Qed.

Lemma extract_spec o s :
  extractStructuredLogs o s
  = (concat (List.filter plain (split_after s)), log_entry o <$> omap log_line (split_after s)).
Proof.
  unfold extractStructuredLogs. case_bool_decide as He; [by subst|]. cbn [orb].
  destruct (contains orvaLogMagicPrefix s) eqn:Ec; cbn [negb]; [apply extract_lines_spec|].
  destruct (all_plain _ (no_marker s Ec)) as [-> ->]. by rewrite split_after_concat.
Qed.

Lemma filter_ended ls : exists ls', List.filter plain (ended ls) = ended ls' /\ (forall l, In l ls' -> In l ls /\ plain (l ++ [10]) = true).
Proof.
  induction ls as [|l ls (ls' & E & H)]; [by exists []|]. cbn [ended map List.filter]. fold (ended ls).
  destruct (plain (l ++ [10])) eqn:Ep; rewrite E; [exists (l :: ls')|exists ls'].
  - split; [done|]. intros x [->|Hx]; [split; [by left|done]|]. destruct (H x Hx). split; [by right|done].
  - split; [done|]. intros x Hx. destruct (H x Hx). split; [by right|done].
Qed.

(** Every structured line becomes one entry and leaves the blob, every
    other line stays where it was, byte for byte; and what stays holds no
    structured line any more. *)
Theorem structured_lines_move_once o s :
  let '(kept, es) := extractStructuredLogs o s in
  es = log_entry o <$> omap log_line (split_after s) /\
  kept = concat (List.filter plain (split_after s)) /\ concat (split_after s) = s /\
  extractStructuredLogs o kept = (kept, []).
Proof.
  rewrite extract_spec. split_and!; [done|done|apply split_after_concat|]. rewrite extract_spec.
  destruct (split_after_shape s) as (ls & b & -> & Hls & Hb). rewrite List.filter_app, concat_app.
  destruct (filter_ended ls) as (ls' & -> & Hin).
  assert (exists b', concat (List.filter plain [b]) = b' /\ no_newline b' /\ plain b' = true) as (b' & -> & Hb' & Hp).
  { cbn [List.filter]. destruct (plain b) eqn:E; [exists b|exists []]; split_and!; try done; [apply app_nil_r|by constructor]. }
  assert (Forall no_newline ls') as Hls'.
  { apply Forall_forall. intros l Hl%list_elem_of_In. rewrite Forall_forall in Hls. by apply Hls, list_elem_of_In, Hin. }
  rewrite split_after_ended by done.
  assert (Forall (fun l => log_line l = None) (ended ls' ++ [b'])) as Hnone.
  { apply Forall_app. split; [|apply Forall_singleton; unfold plain in Hp; by destruct (log_line b')].
    apply Forall_forall. intros l Hl%list_elem_of_In. apply in_map_iff in Hl as (l' & <- & Hl'). destruct (Hin l' Hl') as [_ H].
    unfold plain in H. by destruct (log_line (l' ++ [10])). }
  destruct (all_plain _ Hnone) as [-> ->]. rewrite concat_app. cbn [concat]. by rewrite app_nil_r.
Qed.
