(* ===== verification/Proxy.v ===== *)
(** * Forwarding an HTTP request to a worker ([proxy/proxy.go], [Forward])

    The whole of [Forward] on one [forward_env], which holds what its
    surroundings answer: the request budget, the body that could be read, the
    worker [Acquire] hands over, the waits of the exchange, the writes to the
    client.  Its effects outside the response come out as a list in the order
    they happen, the deferred ones last. *)
From S2P Require Import Prelude GoText Budget FunctionPool Json Netip Url Worker Headers Stderr.
Open Scope Z_scope.

(* ------------------------------------------------------------------ *)
(** ** The response writer of net/http *)

Record writer := MkWriter { wr_header : gmap string string; wr_status : option Z; wr_body : list Z }.
#[export] Instance eta_writer : Eta writer := fun r => MkWriter (wr_header r) (wr_status r) (wr_body r).

(** Informational codes but [101] leave the final status open; a code of other
    than three digits panics ([None]). *)
Definition WriteHeader (sc : Z) (w : writer) : option writer :=
  if (sc <? 100) || (999 <? sc) then None
  else if (sc <? 200) && negb (sc =? 101) then Some w
  else match wr_status w with Some _ => Some w | None => Some (w <| wr_status := Some sc |>) end.

(** [fate]: [None] when all of [data] goes out, else how much did before the
    error.  The count written and whether it failed. *)
Definition Write (data : list Z) (fate : option nat) (w : writer) : writer * Z * bool :=
  let sent := match fate with None => data | Some n => take n data end in
  let status := match wr_status w with Some s => s | None => 200 end in
  (w <| wr_status := Some status |> <| wr_body ::= (fun b => b ++ sent) |>, Z.of_nat (length sent),
   match fate with None => false | Some _ => true end).

Definition set_response (k v : string) (w : writer) : writer := w <| wr_header ::= setHeader k v |>.

(* ------------------------------------------------------------------ *)
(** ** Settings that are cached *)

Record streamSettings := MkStreamSettings { ss_enabled : Z; ss_keepaliveSeconds : Z; ss_expiresAt : Z }.

Definition streamingRefreshEvery : Z := 30 * second.

(** [contended]: another request holds the refresh lock.  [db]: the two rows,
    [None] without a database. *)
Definition streamingConfig (contended : bool) (now later : Z) (db : option (Z * Z)) (current : option streamSettings) :
    option streamSettings * (Z * Z) :=
  match db with
  | None => (current, (1, 15))
  | Some (enabled, keepalive) =>
    let refreshed := MkStreamSettings enabled keepalive (later + streamingRefreshEvery) in
    match current with
    | None => (Some refreshed, (enabled, keepalive))
    | Some c =>
      if (now <? ss_expiresAt c) || contended || (later <? ss_expiresAt c)
      then (current, (ss_enabled c, ss_keepaliveSeconds c))
      else (Some refreshed, (enabled, keepalive))
    end
  end.

(* ------------------------------------------------------------------ *)
(** ** Requests, failures, effects *)

Record http_request := MkHttp {
  q_Method : string; q_Path : string; q_RawQuery : string; q_Header : header; q_TraceID : string; q_SpanID : string }.

Inductive body_read := BodyRead (b : list Z) | BodyTooLarge (limit : Z) | BodyFailed.

(** What [Acquire] fails with, by the sentinel its error wraps. *)
Inductive acquire_error :=
| AcqPool (e : pool_error) | AcqTooManyRequests | AcqPolicyUnavailable | AcqEgressPolicyMissing | AcqWorkerExited.

Inductive failure :=
| FIngress (e : ingress_error) | FBodyTooLarge | FBody | FNoPool | FAcquire (e : acquire_error)
| FTimeout | FDispatch (e : werror) | FWrite | FStream (e : werror) | FStreamWrite.

Record Result := MkRes {
  res_StatusCode : Z; res_ResponseSize : Z; res_Stderr : list Z; res_TimedOut : bool; res_Wrote : bool; res_ColdStart : bool }.
#[export] Instance eta_Result : Eta Result := fun r =>
  MkRes (res_StatusCode r) (res_ResponseSize r) (res_Stderr r) (res_TimedOut r) (res_Wrote r) (res_ColdStart r).

Definition no_result : Result := MkRes 0 0 [] false false false.

(** [ReleasedWorker failed]: [Release] with an error or without. *)
Inductive effect :=
| ReservedIngress | BoundExecution | AcquiredWorker | Captured (c : captured) | QueuedLogs (es : list LogEntry)
| ReleasedWorker (failed : bool) | UnboundExecution | ReleasedIngress.

Record forward_env := MkEnv {
  e_ingress : res ingress_error unit;
  e_pool : bool;                              (** [p.Pool] is there *)
  e_db : bool;                                (** [p.DB] is there *)
  e_body : body_read;
  e_streaming : Z * Z;                        (** [streamingConfig] *)
  e_acquire : res acquire_error (bool * Worker);
  e_capture : option Z;                       (** capture is on, with its cap *)
  e_write : write_fate; e_wait : wait;        (** the exchange *)
  e_deadline : bool;                          (** the deadline has passed when it failed *)
  e_order : list (string * string) -> list (string * string);   (** the walk over the answer's headers *)
  e_elapsed : Z;                              (** milliseconds since the request came *)
  e_writes : list (option nat); e_waits : list wait }.

#[export] Instance eta_forward_env : Eta forward_env := fun r =>
  MkEnv (e_ingress r) (e_pool r) (e_db r) (e_body r) (e_streaming r) (e_acquire r) (e_capture r) (e_write r) (e_wait r)
    (e_deadline r) (e_order r) (e_elapsed r) (e_writes r) (e_waits r).

(** How [Forward] ended; [f_result] is [None] where it returns nil or panics. *)
Record forwarded := MkForwarded {
  f_result : option Result; f_err : option failure; f_panicked : bool; f_effects : list effect;
  f_writer : writer; f_worker : option Worker }.

Definition request_headers (q : http_request) (fnID execID : string) (timeoutMS : Z) (streaming : Z * Z) : gmap string string :=
  let h := SanitizeForwardedHeaders (q_Header q) in
  let h := <["x-orva-function-id" := fnID]> h in
  let h := <["x-orva-execution-id" := execID]> h in
  let h := <["x-orva-timeout-ms" := formatInt timeoutMS]> h in
  let h := if bool_decide (q_TraceID q = ""%string) then h else <["x-orva-trace-id" := q_TraceID q]> h in
  let h := if bool_decide (q_SpanID q = ""%string) then h else <["x-orva-span-id" := q_SpanID q]> h in
  let h := <["x-orva-streaming-enabled" := formatInt (fst streaming)]> h in
  <["x-orva-stream-keepalive-seconds" := formatInt (snd streaming)]> h.

(** The event the adapter is sent. *)
Definition request_event (q : http_request) (path : string) (headers : gmap string string) (body : list Z) : json :=
  JObject [("method", JString (q_Method q)); ("path", JString path); ("headers", json_headers (Some headers));
           ("body", JString (of_bytes body))]%string.

(** The error of the exchange as [Forward] reports it. *)
Definition dispatch_failure (err : werror) (deadline : bool) : bool * failure :=
  match err with
  | ErrCtx DeadlineExceeded => (true, FTimeout)
  | ErrCtx Canceled => (false, FDispatch err)
  | _ => if deadline then (true, FTimeout) else (false, FDispatch err)
  end.

(** The stream to the client: the result of the exchange, the worker, the
    response, the bytes counted, what failed. *)
Fixpoint stream (dres : DispatchResult) (w : Worker) (wr : writer) (total : Z) (waits : list wait) (writes : list (option nat)) :
    DispatchResult * Worker * writer * Z * option failure :=
  match waits with
  | [] =>
    match NextFrame dres w gone with
    | (dres, w, StreamErr e) => (dres, w, wr, total, Some (FStream e))
    | (dres, w, _) => (dres, w, wr, total, None)
    end
  | a :: waits =>
    match NextFrame dres w a with
    | (dres, w, StreamErr e) => (dres, w, wr, total, Some (FStream e))
    | (dres, w, End) => (dres, w, wr, total, None)
    | (dres, w, Chunk []) => stream dres w wr total waits writes
    | (dres, w, Chunk data) =>
      let '(wr, n, failed) := Write data (default None (head writes)) wr in
      if (failed : bool) then (dres, w, wr, total + n, Some FStreamWrite)
      else stream dres w wr (total + n) waits (tail writes)
    end
  end.

(* ------------------------------------------------------------------ *)
(** ** [Forward] *)

Section Forward.
Context (q : http_request) (fnID execID stripPrefix : string) (timeoutMS : Z) (e : forward_env).

Definition log_owner_of : log_owner := MkOwner fnID execID (q_TraceID q) (q_SpanID q).

(** [p.finalizeStderr]: without a database the blob is left as it is. *)
Definition finalized (raw : list Z) : list Z * list LogEntry :=
  if e_db e then finalizeStderr log_owner_of raw else (raw, []).

Definition forward_path : string := function_path (q_Path q) (q_RawQuery q) stripPrefix fnID.

(** After the exchange: the response, and the error [Release] is given. *)
Definition respond (dres : DispatchResult) (w : Worker) (result : Result) (wr : writer) :
    option Result * option failure * bool * bool * list effect * writer * Worker :=
  let hs := e_order e (map_to_list (default ∅ (Headers dres))) in
  let wr := wr <| wr_header ::= answer_headers hs execID (res_ColdStart result) |> in
  let sc := if StatusCode dres =? 0 then 200 else StatusCode dres in
  if negb (Streaming dres) then
    let wr := set_response "X-Orva-Duration-MS" (formatInt (e_elapsed e)) wr in
    match WriteHeader sc wr with
    | None => (None, None, true, false, [], wr, w)
    | Some wr =>
      let '(wr, n, failed) := Write (bytes (Body dres)) (default None (head (e_writes e))) wr in
      let result := result <| res_StatusCode := sc |> <| res_ResponseSize := n |> <| res_Wrote := true |> in
      (Some result, if failed : bool then Some FWrite else None, false, false, [], wr, w)
    end
  else
    let wr := set_response "x-orva-streaming-enabled" (formatInt (fst (e_streaming e))) wr in
    let wr := set_response "x-orva-stream-keepalive-seconds" (formatInt (snd (e_streaming e))) wr in
    let wr := set_response "X-Orva-Ttfb-Ms" (formatInt (e_elapsed e)) wr in
    match WriteHeader sc wr with
    | None => (None, None, true, false, [], wr, w)
    | Some wr =>
      let '(dres, w, wr, total, err) := stream dres w wr 0 (e_waits e) (e_writes e) in
      let '(stderr, logs) := finalized (Stderr dres w) in
      let result := result <| res_StatusCode := sc |> <| res_ResponseSize := total |> <| res_Wrote := true |>
                           <| res_Stderr := stderr |> in
      (Some result, err, false, match err with Some _ => true | None => false end, [QueuedLogs logs], wr, w)
    end.

(** With a worker: the exchange, then the response; the worker is released
    whatever happened.  [None]: the exchange never returns. *)
Definition with_worker (cold : bool) (w : Worker) (body : list Z) (wr : writer) :
    option (option Result * option failure * bool * list effect * writer * Worker) :=
  let headers := request_headers q fnID execID timeoutMS (e_streaming e) in
  let captured := match e_capture e with
                  | Some cap => if e_db e then [Captured (captureRequest fnID execID (q_Method q) forward_path (q_Header q) body cap)] else []
                  | None => []
                  end in
  match DispatchEx w (request_event q forward_path headers body) (e_write e) (e_wait e) with
  | None => None
  | Some (dres, w, err) =>
    let '(stderr, logs) := finalized (Stderr dres w) in
    let result := no_result <| res_Stderr := stderr |> <| res_ColdStart := cold |> in
    Some match err with
         | Some err =>
           let '(timedOut, f) := dispatch_failure err (e_deadline e) in
           (Some (result <| res_TimedOut := timedOut |>), Some f, false,
            captured ++ [QueuedLogs logs; ReleasedWorker true], wr, w)
         | None =>
           let '(result, f, panicked, reqErr, effects, wr, w) := respond dres w result wr in
           (result, f, panicked, captured ++ [QueuedLogs logs] ++ effects ++ [ReleasedWorker reqErr], wr, w)
         end
  end.

(** Between the binding of the execution and its release. *)
Definition bound (wr : writer) : option (option Result * option failure * bool * list effect * writer * option Worker) :=
  match e_body e with
  | BodyTooLarge _ => Some (None, Some FBodyTooLarge, false, [], wr, None)
  | BodyFailed => Some (None, Some FBody, false, [], wr, None)
  | BodyRead body =>
    if negb (e_pool e) then Some (Some no_result, Some FNoPool, false, [], wr, None)
    else
      match e_acquire e with
      | Err err => Some (Some no_result, Some (FAcquire err), false, [], wr, None)
      | Ok (cold, w) =>
        match with_worker cold w body wr with
        | None => None
        | Some (r, f, p, effects, wr, w) => Some (r, f, p, AcquiredWorker :: effects, wr, Some w)
        end
      end
  end.

Definition Forward (wr : writer) : option forwarded :=
  match (if e_pool e then e_ingress e else Ok tt) with
  | Err err => Some (MkForwarded (Some no_result) (Some (FIngress err)) false [] wr None)
  | Ok _ =>
    match bound wr with
    | None => None
    | Some (r, f, p, effects, wr, w) =>
      let effects := [BoundExecution] ++ effects ++ [UnboundExecution] in
      let effects := if e_pool e then [ReservedIngress] ++ effects ++ [ReleasedIngress] else effects in
      Some (MkForwarded r f p effects wr w)
    end
  end.
End Forward.

(* ------------------------------------------------------------------ *)
(** ** What is taken is given back *)

Definition records (x : effect) : bool := match x with Captured _ | QueuedLogs _ => true | _ => false end.

(** Opened, perhaps a worker used, closed again. *)
Inductive balanced (pool : bool) : list effect -> Prop :=
| BRefused : balanced pool []
| BUnused : balanced pool ((if pool then [ReservedIngress] else []) ++ [BoundExecution; UnboundExecution] ++ (if pool then [ReleasedIngress] else []))
| BUsed mid failed : Forall (fun x => records x = true) mid ->
    balanced pool ((if pool then [ReservedIngress] else []) ++ [BoundExecution; AcquiredWorker] ++ mid ++
                   [ReleasedWorker failed; UnboundExecution] ++ (if pool then [ReleasedIngress] else [])).

Lemma with_worker_effects q fnID execID strip timeoutMS e cold w body wr r f p effects wr' w' :
  with_worker q fnID execID strip timeoutMS e cold w body wr = Some (r, f, p, effects, wr', w') ->
  exists mid failed, effects = mid ++ [ReleasedWorker failed] /\ Forall (fun x => records x = true) mid /\
    (failed = false -> f = None \/ f = Some FWrite) /\ (p = true -> failed = false).
Proof.
  unfold with_worker. destruct (DispatchEx _ _ _ _) as [[[dres w1] err]|]; [|done].
  destruct (finalized _ _ _ _ _) as [stderr logs]. set (cap := match e_capture e with Some _ => _ | None => _ end).
  assert (Forall (fun x => records x = true) cap) as Hcap
    by (unfold cap; destruct (e_capture e); [|done]; destruct (e_db e); [by repeat constructor|done]).
  destruct err as [err|].
  - destruct (dispatch_failure err (e_deadline e)) as [t f']. intros [= <- <- <- <- <- <-].
    exists (cap ++ [QueuedLogs logs]), true. rewrite <- app_assoc. split_and!; try done.
    apply Forall_app. split; [done|by repeat constructor].
  - unfold respond. destruct (negb (Streaming dres)).
    + destruct (WriteHeader _ _) as [wr1|].
      * destruct (Write _ _ wr1) as [[wr2 n] failed]. intros [= <- <- <- <- <- <-].
        exists (cap ++ [QueuedLogs logs]), false. rewrite <- app_assoc. split_and!; try done.
        -- apply Forall_app. split; [done|by repeat constructor].
        -- intros _. destruct failed; [by right|by left].
      * intros [= <- <- <- <- <- <-]. exists (cap ++ [QueuedLogs logs]), false. rewrite <- app_assoc. split_and!; try done.
        -- apply Forall_app. split; [done|by repeat constructor].
        -- intros _. by left.
    + destruct (WriteHeader _ _) as [wr1|].
      * destruct (stream _ _ _ _ _ _) as [[[[d w2] wr2] total] err2]. destruct (finalized _ _ _ _ _) as [s2 l2].
        intros [= <- <- <- <- <- <-]. exists (cap ++ [QueuedLogs logs; QueuedLogs l2]), (match err2 with Some _ => true | None => false end).
        rewrite <- app_assoc. split_and!; try done.
        -- apply Forall_app. split; [done|by repeat constructor].
        -- destruct err2; [done|by left].
      * intros [= <- <- <- <- <- <-]. exists (cap ++ [QueuedLogs logs]), false. rewrite <- app_assoc. split_and!; try done.
        -- apply Forall_app. split; [done|by repeat constructor].
        -- intros _. by left.
Qed.

(** The worker was taken; it went back for reuse. *)
Definition acquires (x : effect) : bool := match x with AcquiredWorker => true | _ => false end.
Definition reuses (x : effect) : bool := match x with ReleasedWorker false => true | _ => false end.

Lemma records_only mid :
  Forall (fun x => records x = true) mid -> existsb acquires mid = false /\ existsb reuses mid = false.
Proof. induction 1 as [|x mid Hx _ [IH1 IH2]]; [done|]. simpl. rewrite IH1, IH2. by destruct x. Qed.

(** C27. On every path, errors, time-outs, broken connections and panics
    included, the budget, the execution's binding and the worker are taken at
    most once each and given back exactly when they were taken, in the order
    of the deferred calls; nothing is captured or logged before a worker is
    held; a worker goes back for reuse only when its exchange ended without
    an error of its own; and the call returns unless the worker it was handed
    is stuck in an exchange. *)
Theorem forward_gives_back q fnID execID strip timeoutMS e wr :
  match Forward q fnID execID strip timeoutMS e wr with
  | Some f =>
    balanced (e_pool e) (f_effects f) /\
    bool_decide (is_Some (f_worker f)) = existsb acquires (f_effects f) /\
    (existsb reuses (f_effects f) = true -> f_err f = None \/ f_err f = Some FWrite) /\
    (f_panicked f = true -> existsb reuses (f_effects f) = true)
  | None => exists cold w, e_acquire e = Ok (cold, w) /\ w_locked w = true /\ w_dead w = false
  end.
Proof.
  unfold Forward. destruct (if e_pool e then e_ingress e else Ok tt) as [u|err]; [|by split; [constructor|]].
  assert (Hunused : forall r f, let effects := if e_pool e then [ReservedIngress] ++ ([BoundExecution] ++ [] ++ [UnboundExecution]) ++ [ReleasedIngress] else [BoundExecution] ++ [] ++ [UnboundExecution] in
    let o := MkForwarded r (Some f) false effects wr None in
    balanced (e_pool e) (f_effects o) /\ bool_decide (is_Some (f_worker o)) = existsb acquires (f_effects o) /\
    (existsb reuses (f_effects o) = true -> f_err o = None \/ f_err o = Some FWrite) /\
    (f_panicked o = true -> existsb reuses (f_effects o) = true)).
  { intros r f. pose proof (BUnused (e_pool e)) as Hb. by destruct (e_pool e). }
  unfold bound. destruct (e_body e) as [body|limit|]; [|apply Hunused..].
  destruct (e_pool e) eqn:Ep; cbn [negb]; [|apply Hunused].
  destruct (e_acquire e) as [[cold w]|err]; [|apply Hunused].
  destruct (with_worker q fnID execID strip timeoutMS e cold w body wr) as [[[[[[r f] p] effects] wr'] w']|] eqn:Ew.
  - destruct (with_worker_effects _ _ _ _ _ _ _ _ _ _ _ _ _ _ _ _ Ew) as (mid & failed & -> & Hmid & Hf & Hp).
    destruct (records_only mid Hmid) as [Ha Hr].
    cbn [f_effects f_worker f_err f_panicked app]. rewrite <- !app_assoc. cbn [app].
    split; [exact (BUsed true mid failed Hmid)|]. cbn [existsb acquires reuses orb]. rewrite existsb_app, Hr. cbn [existsb reuses orb].
    split; [done|]. split; destruct failed; try done; [intros _; by apply Hf|]. intros H. by specialize (Hp H).
  - exists cold, w. split; [done|]. unfold with_worker in Ew.
    destruct (DispatchEx w _ _ _) as [[[dres w1] err]|] eqn:Ed.
    + destruct (finalized _ _ _ _ _) as [s l]. destruct err; [by destruct (dispatch_failure _ _)|].
      by destruct (respond _ _ _ _ _ _ _) as [[[[[[] ] ] ] ] ].
    + unfold DispatchEx in Ed. destruct (w_dead w); [done|]. by destruct (w_locked w).
Qed.

(* ------------------------------------------------------------------ *)
(** ** A worker that serves many requests *)

(** A status that ends a response. *)
Definition final_status (sc : Z) : Prop := sc = 0 \/ sc = 101 \/ 200 <= sc <= 999.

Definition sent_status (sc : Z) : Z := if sc =? 0 then 200 else sc.

Lemma WriteHeader_final sc wr :
  final_status sc -> wr_status wr = None ->
  WriteHeader (if sc =? 0 then 200 else sc) wr = Some (wr <| wr_status := Some (sent_status sc) |>).
Proof.
  unfold final_status, sent_status, WriteHeader. intros Hsc ->. destruct (sc =? 0) eqn:E; [done|]. zbool.
  rewrite (proj2 (Z.ltb_ge sc 100)), (proj2 (Z.ltb_ge 999 sc)) by lia. cbn [orb].
  destruct (sc =? 101) eqn:E1; zbool; [by subst|]. by rewrite (proj2 (Z.ltb_ge sc 200)) by lia.
Qed.

(** What the client has of an answer that was forwarded without an error. *)
Definition carries (wr : writer) (rep : reply) : Prop :=
  match rep with
  | Single sc _ body => wr_status wr = Some (sent_status sc) /\ wr_body wr = bytes body
  | Streamed sc _ cs => wr_status wr = Some (sent_status sc) /\ wr_body wr = concat cs
  | Failed _ _ => False
  end.

Definition reply_final (rep : reply) : Prop :=
  match rep with Single sc _ _ | Streamed sc _ _ => final_status sc | Failed _ _ => True end.

Lemma Write_all data fate wr sc :
  wr_status wr = Some sc ->
  let '(wr', n, failed) := Write data fate wr in
  failed = false -> wr_status wr' = Some sc /\ wr_body wr' = wr_body wr ++ data /\ n = Z.of_nat (length data).
Proof. intros H. unfold Write. rewrite H. by destruct fate. Qed.

Lemma stream_due waits : forall dres w wr total writes fut cs sc,
  on_stream dres w (concat (map a_out waits) ++ fut) cs -> wr_status wr = Some sc ->
  let '(_, w', wr', total', f) := stream dres w wr total waits writes in
  match f with
  | None => wr_status wr' = Some sc /\ wr_body wr' = wr_body wr ++ concat cs /\ total' = total + Z.of_nat (length (concat cs)) /\ idle w'
  | Some (FStream _) => w_dead w' = true
  | Some _ => True
  end.
Proof.
  induction waits as [|a waits IH]; intros dres w wr total writes fut cs sc Hs Hsc; cbn [stream].
  - destruct (os_open _ _ _ _ Hs) as [Ho Hr]. unfold NextFrame. rewrite Ho, Hr. cbn.
    unfold fail_stream, finalize. by destruct (finishHook _).
  - cbn [map concat] in Hs. rewrite <- app_assoc in Hs. pose proof (NextFrame_due dres w a _ cs Hs) as H.
    destruct (NextFrame dres w a) as [[dres' w'] [data| |err]]; [| |done].
    + destruct H as (cs' & -> & Hs' & _). destruct data as [|b data].
      { cbn [concat app]. exact (IH dres' w' wr total writes fut cs' sc Hs' Hsc). }
      pose proof (Write_all (b :: data) (default None (head writes)) wr sc Hsc) as Hw.
      destruct (Write _ _ wr) as [[wr1 n] []]; [exact I|]. destruct (Hw eq_refl) as (H1 & H2 & ->).
      pose proof (IH dres' w' wr1 (total + Z.of_nat (length (b :: data))) (tail writes) fut cs' sc Hs' H1) as Hst.
      destruct (stream _ _ _ _ _ _) as [[[[d2 w2] wr2] t2] [f|]]; [exact Hst|].
      destruct Hst as (H3 & H4 & H5 & H6). split; [done|]. cbn [concat]. rewrite H4, H2, H5, <- app_assoc, length_app.
      split; [done|]. split; [lia|done].
    + destruct H as (-> & Hi & _). cbn [concat]. rewrite app_nil_r. split_and!; [done|done|cbn; lia|done].
Qed.

(** One call: what surrounds it, and what the adapter writes for it. *)
Record call := MkCall {
  c_request : http_request; c_fnID : string; c_execID : string; c_strip : string; c_timeoutMS : Z;
  c_env : Worker -> forward_env; c_answer : list (list Z) }.

(** The adapter's contract and the transport's: the answer is one well-formed
    reply, and what arrives during the exchange is its bytes in order, as far
    as they get. *)
Definition good_call (c : call) : Prop :=
  Forall sendable (c_answer c) /\ (exists rep, reply_of (c_answer c) = Some rep /\ reply_final rep) /\
  forall w, (exists cold, e_acquire (c_env c w) = Ok (cold, w) \/ exists err, e_acquire (c_env c w) = Err err) /\
    exists fut, a_out (e_wait (c_env c w)) ++ concat (map a_out (e_waits (c_env c w))) ++ fut = framed (c_answer c).

Definition fresh_writer : writer := MkWriter ∅ None [].

Definition run_call (c : call) (w : Worker) : option forwarded :=
  Forward (c_request c) (c_fnID c) (c_execID c) (c_strip c) (c_timeoutMS c) (c_env c w) fresh_writer.

(** The worker the next call gets, if this one leaves it usable. *)
Definition reusable (w : Worker) (f : forwarded) : option Worker :=
  match f_worker f with
  | None => Some w
  | Some w' => if existsb reuses (f_effects f) && negb (w_dead w') then Some w' else None
  end.

Fixpoint serve (w : Worker) (calls : list call) : list (call * option forwarded) :=
  match calls with
  | [] => []
  | c :: calls =>
    match run_call c w with
    | None => [(c, None)]
    | Some f => (c, Some f) :: match reusable w f with Some w' => serve w' calls | None => [] end
    end
  end.

Lemma with_worker_due q fnID execID strip timeoutMS e cold w body rep ps :
  idle w -> Forall sendable ps -> reply_of ps = Some rep -> reply_final rep ->
  (exists fut, a_out (e_wait e) ++ concat (map a_out (e_waits e)) ++ fut = framed ps) ->
  match with_worker q fnID execID strip timeoutMS e cold w body fresh_writer with
  | None => False
  | Some (r, f, p, effects, wr, w') =>
    p = false /\ (f = None -> carries wr rep /\ is_Some r) /\ (existsb reuses effects = true -> w_dead w' = false -> idle w')
  end.
Proof.
  intros Hi Hps Hrep Hfin [fut Hfut]. unfold with_worker.
  set (event := request_event _ _ _ _).
  assert (due w (a_out (e_wait e) ++ concat (map a_out (e_waits e)) ++ fut) ps) as Hdue.
  { split; [done|]. destruct Hi as (_ & _ & ->). exact Hfut. }
  destruct (DispatchEx_due w event (e_write e) (e_wait e) _ ps rep Hi Hdue Hrep) as (dres & w1 & err & -> & H).
  destruct (finalized _ _ _ _ _) as [s l]. set (cap := match e_capture e with Some _ => _ | None => _ end).
  assert (existsb reuses cap = false) as Hcap by (unfold cap; destruct (e_capture e); [by destruct (e_db e)|done]).
  destruct err as [err|].
  { destruct (dispatch_failure err (e_deadline e)) as [t f]. split; [done|]. split; [done|].
    rewrite existsb_app, Hcap. done. }
  unfold respond. destruct (Streaming dres) eqn:Est; cbn [negb].
  - destruct H as (cs & -> & Hs). cbn [reply_final] in Hfin. rewrite WriteHeader_final by done.
    set (wr1 := _ <| wr_status := _ |>).
    pose proof (stream_due (e_waits e) dres w1 wr1 0 (e_writes e) fut cs _ Hs eq_refl) as Hst.
    destruct (stream _ _ _ _ _ _) as [[[[d2 w2] wr2] t2] f]. destruct (finalized _ _ _ _ _) as [s2 l2].
    split; [done|]. rewrite existsb_app, Hcap. destruct f as [f|]; [done|].
    destruct Hst as (H1 & H2 & _ & H4). split; [|done]. intros _. split; [|done]. split; [done|]. by rewrite H2.
  - destruct H as (-> & Hi' & _). cbn [reply_final] in Hfin. rewrite WriteHeader_final by done.
    destruct (head (e_writes e)) as [[n|]|]; cbn [default Write]; (split; [done|]; split; [|done]); try done.
Qed.

(** C3. Whatever the schedule, the failures and the cuts in the transport,
    every request a worker serves in its life gets its own answer: a call
    that [Forward] ends without an error sent the client exactly the status
    and the bytes the adapter wrote for that very request, and no call
    panics or hangs. *)
Theorem every_request_gets_its_own_answer w calls c o :
  idle w -> Forall good_call calls -> (c, o) ∈ serve w calls ->
  exists f rep, o = Some f /\ reply_of (c_answer c) = Some rep /\ f_panicked f = false /\
    (f_err f = None -> carries (f_writer f) rep).
Proof.
  revert w. induction calls as [|c0 calls IH]; intros w Hi Hg Hin; [by apply elem_of_nil in Hin|].
  apply Forall_cons in Hg as [(Hps & (rep & Hrep & Hfin) & Henv) Hg]. destruct (Henv w) as [[cold Hacq] Hfut].
  assert (exists f, run_call c0 w = Some f /\ f_panicked f = false /\ (f_err f = None -> carries (f_writer f) rep) /\
            forall w', reusable w f = Some w' -> idle w') as (f & Ef & Hp & Hc & Hn).
  { assert (Hno : forall r err effects, exists f, Some (MkForwarded r (Some err) false effects fresh_writer None) = Some f /\
      f_panicked f = false /\ (f_err f = None -> carries (f_writer f) rep) /\ forall w', reusable w f = Some w' -> idle w').
    { intros r err effects. eexists. split; [done|]. split; [done|]. split; [done|]. by intros w' [= <-]. }
    unfold run_call, Forward. destruct (if e_pool _ then _ else _); [|apply Hno].
    unfold bound. destruct (e_body _) as [body|limit|]; [|apply Hno..].
    destruct (e_pool _); cbn [negb]; [|apply Hno].
    destruct Hacq as [->|[err ->]]; [|apply Hno].
    pose proof (with_worker_due (c_request c0) (c_fnID c0) (c_execID c0) (c_strip c0) (c_timeoutMS c0) (c_env c0 w) cold w body
                  rep _ Hi Hps Hrep Hfin Hfut) as H.
    destruct (with_worker _ _ _ _ _ _ _ _ _ _) as [[[[[[r f] p] effects] wr] w1]|]; [|done].
    destruct H as (-> & Hc & Hn). eexists. split; [done|]. split; [done|]. split; [intros E; by apply Hc|].
    intros w'. unfold reusable. cbn [f_worker f_effects].
    cbn [app existsb reuses orb]. rewrite !existsb_app. cbn [existsb reuses orb]. rewrite !orb_false_r.
    destruct (existsb reuses effects); cbn [andb]; [|done]. destruct (w_dead w1) eqn:Ed; [done|]. intros [= <-]. by apply Hn. }
  cbn [serve] in Hin. rewrite Ef in Hin. apply elem_of_cons in Hin as [[= -> ->]|Hin].
  - exists f, rep. done.
  - destruct (reusable w f) as [w'|] eqn:Er; [|by apply elem_of_nil in Hin]. by apply (IH w'); [apply Hn|..].
Qed.

(** *** A worker that serves two requests *)

Definition small_worker : Worker := MkWorker false false 0 [] (newRingBuffer 64) [].

Definition sample_http : http_request := MkHttp "POST" "/fn/f/x" "" [("Accept", ["*/*"])]%string "tr_1" "sp_1".

(** A call whose bytes arrive in the given pieces. *)
Definition sample_env (first : wait) (rest : list wait) (w : Worker) : forward_env :=
  MkEnv (Ok tt) true true (BodyRead (bytes "hi")) (1, 15) (Ok (false, w)) (Some 0) Written first false (fun l => l) 3 [] rest.

Definition answer_one : list (list Z) := [text "{`type`:`response`,`statusCode`:201,`body`:`one`}"].
Definition answer_two : list (list Z) :=
  [text "{`type`:`response_start`,`headers`:{`content-length`:`9`,`x`:`y`}}"; text "{`type`:`chunk`,`data`:`dHdv`}";
   text "{`type`:`response_end`}"].

Definition log_text : list Z := text "__ORVA_LOG_JSON__{`message`:`m`}" ++ [10].

Definition call_one : call :=
  MkCall sample_http "f" "ex_1" "" 1000 (sample_env (MkWait (framed answer_one) [] Delivered) []) answer_one.
(** The second answer is cut inside its second frame. *)
Definition call_two : call :=
  MkCall sample_http "f" "ex_2" "" 1000
    (sample_env (MkWait (take 80 (framed answer_two)) log_text Delivered)
       [MkWait (drop 80 (framed answer_two)) [] Delivered; MkWait [] [] Delivered]) answer_two.

Definition second_outcome : option forwarded := default None (snd <$> (serve small_worker [call_one; call_two] !! 1%nat)).

Lemma every_request_gets_its_own_answer_witness :
  exists f, second_outcome = Some f /\ f_err f = None /\
    carries (f_writer f) (Streamed 0 (Some {[ "content-length" := "9"; "x" := "y" ]}) [bytes "two"])%string.
Proof.
  assert (Forall good_call [call_one; call_two]) as Hg.
  { repeat apply Forall_cons_2; [| |apply Forall_nil_2]; (split; [|split]).
    - repeat constructor; discriminate.
    - eexists. split; [vm_compute; reflexivity|]. right; right. split; discriminate.
    - intros w. split; [exists false; by left|]. exists []. vm_compute. reflexivity.
    - repeat constructor; discriminate.
    - eexists. split; [vm_compute; reflexivity|]. by left.
    - intros w. split; [exists false; by left|]. exists []. vm_compute. reflexivity. }
  destruct (every_request_gets_its_own_answer small_worker [call_one; call_two] call_two second_outcome) as (f & rep & E & Hr & _ & Hc).
  - done.
  - exact Hg.
  - apply (list_elem_of_lookup_2 _ 1). vm_compute. reflexivity.
  - exists f. split; [exact E|]. assert (f_err f = None) as He.
    { assert (f_err <$> second_outcome = Some None) as H by (vm_compute; reflexivity). rewrite E in H. by injection H. }
    split; [exact He|]. specialize (Hc He). vm_compute in Hr. injection Hr as <-. exact Hc.
Defined.

(** The log line written before the first frame is queued twice. *)
Example stream_logs_are_queued_twice :
  (fun f => omap (fun x => match x with QueuedLogs es => Some (map le_Message es) | _ => None end) (f_effects f)) <$> second_outcome
  = Some [["m"]; ["m"]]%string.
Proof. vm_compute. reflexivity. Qed.

(** A streaming answer whose status has not three digits makes the
    server's [WriteHeader] panic; the deferred release then hands the worker
    back for reuse, alive and with its exchange still locked, and every later
    request it is given waits forever. *)
Theorem invalid_status_wedges_the_worker q fnID execID strip timeoutMS e wr cold w body dres w1 :
  e_pool e = true -> e_ingress e = Ok tt -> e_body e = BodyRead body -> e_acquire e = Ok (cold, w) ->
  DispatchEx w (request_event q (forward_path q fnID strip) (request_headers q fnID execID timeoutMS (e_streaming e)) body)
    (e_write e) (e_wait e) = Some (dres, w1, None) ->
  Streaming dres = true -> w_dead w = false -> StatusCode dres <> 0 -> StatusCode dres < 100 \/ 999 < StatusCode dres ->
  exists f, Forward q fnID execID strip timeoutMS e wr = Some f /\ f_panicked f = true /\
    existsb reuses (f_effects f) = true /\ f_worker f = Some w1 /\ IsDead w1 = false /\
    forall event io a, DispatchEx w1 event io a = None.
Proof.
  intros Hpool Hin Hbody Hacq Hd Hs Hw Hsc Hbad.
  assert (w_dead w1 = false /\ w_locked w1 = true) as [Hdead Hlocked].
  { unfold DispatchEx in Hd. rewrite Hw in Hd. destruct (w_locked w); [done|]. destruct (e_write e); [|done..].
    destruct (readNext _ _) as [w2 [p| |x]] eqn:Er; [|done..].
    assert (w_dead w2 = false) as Hw2.
    { revert Er. unfold readNext. destruct (a_fate _); [|done..]. destruct (readFrame _); [|done..]. intros [= <- <-]. done. }
    destruct (frame_of p) as [fr|]; [|done]. case_bool_decide; [by destruct (f_Fatal fr)|].
    case_bool_decide; [by injection Hd as <- <-|]. case_bool_decide; [|done]. by injection Hd as <- <-. }
  assert (WriteHeader (if StatusCode dres =? 0 then 200 else StatusCode dres) = fun _ => None) as Hnone.
  { rewrite (proj2 (Z.eqb_neq _ 0)) by done. unfold WriteHeader.
    assert ((StatusCode dres <? 100) || (999 <? StatusCode dres) = true) as ->; [|done].
    apply orb_true_iff. destruct Hbad; [left|right]; by apply Z.ltb_lt. }
  unfold Forward. rewrite Hpool, Hin. unfold bound. rewrite Hbody, Hpool, Hacq. cbn [negb]. unfold with_worker. rewrite Hd.
  destruct (finalized _ _ _ _ _) as [s l]. unfold respond. rewrite Hs, Hnone. cbn [negb].
  eexists. split; [done|]. cbn [f_panicked f_effects f_worker]. split; [done|]. split.
  { cbn [app existsb reuses orb]. rewrite !existsb_app. cbn [existsb reuses orb]. by rewrite !orb_true_r. }
  split; [done|]. split; [done|]. intros event io a. unfold DispatchEx. by rewrite Hdead, Hlocked.
Qed.

Definition answer_bad : list (list Z) := [text "{`type`:`response_start`,`statusCode`:42}"].
Definition bad_env : forward_env := sample_env (MkWait (framed answer_bad) [] Delivered) [] small_worker.
Definition bad_dispatch : option (DispatchResult * Worker * option werror) :=
  DispatchEx small_worker
    (request_event sample_http (forward_path sample_http "f" "") (request_headers sample_http "f" "ex" 1000 (e_streaming bad_env)) (bytes "hi"))
    (e_write bad_env) (e_wait bad_env).

Lemma invalid_status_wedges_the_worker_witness :
  exists f, Forward sample_http "f" "ex" "" 1000 bad_env fresh_writer = Some f /\ f_panicked f = true.
Proof.
  assert (exists dres w1, bad_dispatch = Some (dres, w1, None) /\ Streaming dres = true /\ StatusCode dres = 42) as (dres & w1 & E & Hs & Hc).
  { eexists _, _. split; [vm_compute; reflexivity|]. split; reflexivity. }
  destruct (invalid_status_wedges_the_worker sample_http "f" "ex" "" 1000 bad_env fresh_writer false small_worker (bytes "hi") dres w1)
    as (f & Hf & Hp & _); try reflexivity; [exact E|exact Hs|rewrite Hc; discriminate|left; rewrite Hc; reflexivity|].
  exists f. split; [exact Hf|exact Hp].
Defined.

(* ------------------------------------------------------------------ *)
(** ** The event as the function reads it *)

Definition text_ok (s : string) : bool := validUTF8 s.

Lemma json_headers_ok d m : (0 < d)%nat -> json_ok d (json_headers m) = true.
Proof.
  intros Hd. destruct m as [m|]; [|done]. destruct d; [lia|]. simpl. apply forallb_forall. intros kv Hin.
  by apply in_map_iff in Hin as (x & <- & _).
Qed.

(** What the adapter decodes from its standard input is the frame that was
    sent with every string made valid UTF-8: the request itself exactly when
    all its texts, the body included, are UTF-8. *)
Theorem function_reads_the_request q path headers body :
  let event := request_event q path headers body in
  unmarshal (request_frame event) = Some (JObject [("type", JString "request"); ("event", repair_json event)])%string /\
  (Forall (fun s => validUTF8 s = true) [q_Method q; path; of_bytes body] ->
   map_Forall (fun k v => validUTF8 k = true /\ validUTF8 v = true) headers -> repair_json event = event).
Proof.
  cbv zeta. split.
  - unfold request_frame. rewrite unmarshal_marshal; [done|]. cbn [json_ok Z.to_nat Pos.to_nat].
    assert (exists d, Z.to_nat 10000 = S (S (S d))) as [d ->] by (exists (Z.to_nat 9997); lia).
    cbn [forallb snd andb]. unfold request_event. cbn [json_ok forallb snd andb].
    rewrite (json_headers_ok (S d)) by lia. done.
  - intros Hf Hm. rewrite !Forall_cons in Hf. destruct Hf as (H1 & H2 & H3 & _). unfold request_event. cbn [repair_json map fst snd].
    rewrite (repair_valid (q_Method q)), (repair_valid path), (repair_valid (of_bytes body)) by done.
    assert (repair_json (json_headers (Some headers)) = json_headers (Some headers)) as ->; [|reflexivity].
    unfold json_headers. cbn [repair_json]. f_equal. rewrite map_map. apply map_ext_in. intros [k v] Hin. cbn [fst snd].
    assert (headers !! k = Some v) as Hkv.
    { apply elem_of_map_to_list. rewrite <- (merge_sort_Permutation (fun a b => str_le (fst a) (fst b))). by apply list_elem_of_In. }
    destruct (Hm k v Hkv) as [Hk Hv]. cbn [repair_json]. by rewrite !repair_valid.
Qed.

Lemma function_reads_the_request_witness :
  unmarshal (request_frame (request_event sample_http "/x" {[ "accept" := "*/*" ]} (bytes "hi")))
  = Some (JObject [("type", JString "request"); ("event", request_event sample_http "/x" {[ "accept" := "*/*" ]} (bytes "hi"))])%string.
Proof.
  destruct (function_reads_the_request sample_http "/x" {[ "accept" := "*/*" ]}%string (bytes "hi")) as [H1 H2].
  rewrite H1, H2.
  - reflexivity.
  - repeat constructor.
  - apply map_Forall_singleton. split; reflexivity.
Defined.
