(* ===== verification/Limiter.v ===== *)
(** * Per-address rate limits
    ([server/handlers/ratelimit.go], [urlhint/urlhint.go])

    Token buckets keyed by function and client address, with the sweep that
    bounds their number, and the address a request is counted under.  Times
    are nanoseconds; a call is one step. *)
From S2P Require Import Prelude GoText Float64 Netip Url Headers.
Open Scope Z_scope.

Definition bucketTTL : Z := 5 * minute.
Definition sweepEvery : Z := 30 * second.
Definition sweepThreshold : Z := 4096.

Record bucket := MkBucket { tokens : float64; cap : float64; refill : float64; lastTouch : Z }.
#[export] Instance eta_bucket : Eta bucket := fun r => MkBucket (tokens r) (cap r) (refill r) (lastTouch r).

(** [lastSweep] is zero before the first sweep. *)
Record rateLimiter := MkLimiter { buckets : gmap string bucket; lastSweep : Z; tracked : Z }.
#[export] Instance eta_rateLimiter : Eta rateLimiter := fun r => MkLimiter (buckets r) (lastSweep r) (tracked r).

Definition newRateLimiter : rateLimiter := MkLimiter ∅ 0 0.

Definition sweep_due (now : Z) (rl : rateLimiter) : bool :=
  (lastSweep rl =? 0) || (sweepEvery <=? now - lastSweep rl) || (sweepThreshold <=? tracked rl).

Definition idle_before (cutoff : Z) (b : bucket) : bool := lastTouch b <? cutoff.

(** [sweeping]: another request is at it. *)
Definition maybeSweep (sweeping : bool) (now : Z) (rl : rateLimiter) : rateLimiter :=
  if negb (sweep_due now rl) || sweeping then rl
  else
    let kept := filter (fun kb => idle_before (now - bucketTTL) (snd kb) = false) (buckets rl) in
    MkLimiter kept now (tracked rl - (Z.of_nat (size (buckets rl)) - Z.of_nat (size kept))).

Definition new_bucket (perMin now : Z) : bucket :=
  let n := f_of_int perMin in MkBucket n n (fdiv n (f_of_int 60)) now.

(** The bucket resized to the present limit, refilled for the time since. *)
Definition refreshed (perMin now : Z) (b : bucket) : bucket :=
  let limit := f_of_int perMin in
  let b := if feq (cap b) limit then b
           else b <| cap := limit |> <| refill := fdiv limit (f_of_int 60) |>
                  <| tokens := if flt limit (tokens b) then limit else tokens b |> in
  let elapsed := seconds (now - lastTouch b) in
  let b := if flt (f_of_int 0) elapsed then
             let t := fadd (tokens b) (fmul elapsed (refill b)) in
             b <| tokens := if flt (cap b) t then cap b else t |>
           else b in
  b <| lastTouch := now |>.

Definition Allow (sweeping : bool) (now : Z) (fnID ip : string) (perMin : Z) (rl : rateLimiter) : rateLimiter * bool :=
  if perMin <=? 0 then (rl, true)
  else
    let key := (fnID ++ "|" ++ ip)%string in
    let rl := maybeSweep sweeping now rl in
    let '(b, fresh) := match buckets rl !! key with Some b => (b, false) | None => (new_bucket perMin now, true) end in
    let rl := if fresh : bool then rl <| tracked ::= Z.succ |> else rl in
    let b := refreshed perMin now b in
    if fle (f_of_int 1) (tokens b)
    then (rl <| buckets ::= <[key := b <| tokens := fsub (tokens b) (f_of_int 1) |>]> |>, true)
    else (rl <| buckets ::= <[key := b]> |>, false).

(** What a series of calls answers. *)
Fixpoint allows (calls : list (bool * Z * string * string * Z)) (rl : rateLimiter) : rateLimiter * list bool :=
  match calls with
  | [] => (rl, [])
  | (sweeping, now, fnID, ip, perMin) :: calls =>
    let '(rl, ok) := Allow sweeping now fnID ip perMin rl in
    let '(rl, oks) := allows calls rl in (rl, ok :: oks)
  end.

(** Two a minute: the third waits thirty seconds, the other address does not. *)
Example two_a_minute :
  snd (allows [(false, 1, "f", "a", 2); (false, 2, "f", "a", 2); (false, 3, "f", "a", 2); (false, 4, "f", "b", 2);
               (false, 31 * second, "f", "a", 2); (false, 32 * second, "f", "a", 2)]%string newRateLimiter)
  = [true; true; false; true; true; false].
Proof. vm_compute. reflexivity. Qed.

(* ------------------------------------------------------------------ *)
(** ** The number of buckets stays bounded *)

(** The counter counts; no bucket is from the future. *)
Record limiter_ok (now : Z) (rl : rateLimiter) : Prop := {
  lo_tracked : tracked rl = Z.of_nat (size (buckets rl));
  lo_past : map_Forall (fun _ b => lastTouch b <= now) (buckets rl) }.

Lemma size_insert_Z {A} (m : gmap string A) k v :
  Z.of_nat (size (<[k := v]> m)) = Z.of_nat (size m) + match m !! k with Some _ => 0 | None => 1 end.
Proof. destruct (m !! k) eqn:E; [rewrite map_size_insert_Some by eauto|rewrite map_size_insert_None by done]; lia. Qed.

Lemma maybeSweep_ok sweeping now rl : limiter_ok now rl -> limiter_ok now (maybeSweep sweeping now rl).
Proof.
  intros [Ht Hp]. unfold maybeSweep. destruct (_ || _); [done|]. split; simpl; [lia|].
  intros k b [Hb _]%map_lookup_filter_Some. by apply (Hp k).
Qed.

Lemma refreshed_touch perMin now b : lastTouch (refreshed perMin now b) = now.
Proof. done. Qed.

Lemma Allow_ok sweeping now fnID ip perMin rl :
  limiter_ok now rl -> limiter_ok now (Allow sweeping now fnID ip perMin rl).1.
Proof.
  intros Hok. unfold Allow. destruct (perMin <=? 0); [done|]. apply (maybeSweep_ok sweeping) in Hok.
  set (rl1 := maybeSweep sweeping now rl) in *. set (key := (_ ++ _)%string).
  assert (forall b n, lastTouch b = now -> n = tracked rl1 + match buckets rl1 !! key with Some _ => 0 | None => 1 end ->
    limiter_ok now (MkLimiter (<[key := b]> (buckets rl1)) (lastSweep rl1) n)) as Hins.
  { intros b n Hb ->. destruct Hok as [Ht Hp]. split; simpl; [rewrite size_insert_Z; lia|].
    intros k b' [[<- <-]|[_ H]]%lookup_insert_Some; [lia|by apply (Hp k)]. }
  destruct (buckets rl1 !! key) as [b|] eqn:E; cbn [fst]; destruct (fle _ _); apply Hins; simpl; try done; lia.
Qed.

Lemma limiter_ok_later now now' rl : now <= now' -> limiter_ok now rl -> limiter_ok now' rl.
Proof. intros Hn [Ht Hp]. split; [done|]. intros k b Hb. specialize (Hp k b Hb). simpl in Hp. lia. Qed.

(** Calls whose clock does not run backwards. *)
Fixpoint clocked (from : Z) (calls : list (bool * Z * string * string * Z)) : Prop :=
  match calls with [] => True | (_, now, _, _, _) :: calls => from <= now /\ clocked now calls end.

(** However often it is called, the limiter's counter is the number of its
    buckets, and a call that finds a sweep due and nobody sweeping leaves only
    buckets used within the last five minutes: at the latest thirty seconds
    after the last sweep, or at once when there are 4096. *)
Theorem limiter_forgets_idle_addresses calls from now fnID ip perMin :
  clocked from calls ->
  let rl := (allows calls newRateLimiter).1 in
  from <= now -> Forall (fun c => let '(_, t, _, _, _) := c in t <= now) calls -> 0 < perMin ->
  tracked rl = Z.of_nat (size (buckets rl)) /\
  (sweep_due now rl = true ->
   let rl' := (Allow false now fnID ip perMin rl).1 in
   map_Forall (fun _ b => now - bucketTTL <= lastTouch b <= now) (buckets rl') /\ lastSweep rl' = now).
Proof.
  intros Hc. cbv zeta. intros Hfrom Hall Hpm.
  assert (limiter_ok now (allows calls newRateLimiter).1) as Hok.
  { assert (limiter_ok from newRateLimiter) as H0 by (split; [done|apply map_Forall_empty]).
    revert H0. generalize newRateLimiter as rl. revert from Hc Hfrom.
    induction calls as [|[[[[s t] f] i] p] calls IH]; intros from Hc Hfrom rl H0; [by eapply limiter_ok_later|].
    destruct Hc as [Ht Hc]. apply Forall_cons in Hall as [Htn Hall]. cbn [allows].
    pose proof (Allow_ok s t f i p rl (limiter_ok_later _ _ _ Ht H0)) as H1. destruct (Allow s t f i p rl) as [rl1 ok].
    specialize (IH Hall t Hc Htn rl1 H1). by destruct (allows calls rl1). }
  set (rl := (allows calls newRateLimiter).1) in *. split; [apply Hok|]. intros Hdue.
  unfold Allow. rewrite (proj2 (Z.leb_gt perMin 0)) by lia. unfold maybeSweep. rewrite Hdue. cbn [negb orb].
  set (kept := filter _ _). set (key := (_ ++ _)%string).
  assert (map_Forall (fun _ b => now - bucketTTL <= lastTouch b <= now) kept) as Hk.
  { intros k b [Hb Hi]%map_lookup_filter_Some. simpl in Hi. unfold idle_before in Hi. apply Z.ltb_ge in Hi.
    split; [done|]. by apply (lo_past _ _ Hok k). }
  assert (forall b, lastTouch b = now -> map_Forall (fun _ b => now - bucketTTL <= lastTouch b <= now) (<[key := b]> kept)) as Hins.
  { intros b Hb. apply map_Forall_insert_2; [|done]. rewrite Hb. unfold bucketTTL, minute. lia. }
  cbn [buckets]. destruct (kept !! key) as [b|]; cbn [fst]; destruct (fle _ _); (split; [by apply Hins|done]).
Qed.

Lemma limiter_forgets_idle_addresses_witness :
  tracked (allows [(false, 1, "f", "a", 2); (false, 2, "f", "b", 2)]%string newRateLimiter).1 = 2 /\
  sweep_due (10 * minute) (allows [(false, 1, "f", "a", 2); (false, 2, "f", "b", 2)]%string newRateLimiter).1 = true /\
  lastSweep (Allow false (10 * minute) "f" "c" 2 (allows [(false, 1, "f", "a", 2); (false, 2, "f", "b", 2)]%string newRateLimiter).1).1 = 10 * minute.
Proof.
  destruct (limiter_forgets_idle_addresses [(false, 1, "f", "a", 2); (false, 2, "f", "b", 2)]%string 0 (10 * minute) "f" "c" 2) as [Ht Hs].
  - repeat split; discriminate.
  - discriminate.
  - repeat constructor; discriminate.
  - reflexivity.
  - split; [rewrite Ht; vm_compute; reflexivity|]. split; [vm_compute; reflexivity|]. apply Hs. vm_compute. reflexivity.
Defined.

(* ------------------------------------------------------------------ *)
(** ** A burst gets the limit *)

Definition limit_call : Type := bool * Z * string * string * Z.
Definition call_key (c : limit_call) : string := let '(_, _, fnID, ip, _) := c in (fnID ++ "|" ++ ip)%string.
Definition call_limit (c : limit_call) : Z := let '(_, _, _, _, perMin) := c in perMin.
Definition call_time (c : limit_call) : Z := let '(_, now, _, _, _) := c in now.

(** What the calls of one bucket are answered. *)
Fixpoint answers (key : string) (calls : list limit_call) (oks : list bool) : list bool :=
  match calls, oks with
  | c :: calls, ok :: oks => if bool_decide (call_key c = key) then ok :: answers key calls oks else answers key calls oks
  | _, _ => []
  end.

Section Burst.
Context (key : string) (perMin now : Z) (Hlimit : 0 < perMin < 2 ^ 53).

(** [u] of the tokens of this instant are spent. *)
Definition spent (u : Z) (rl : rateLimiter) : Prop :=
  match buckets rl !! key with
  | None => u = 0
  | Some b => cap b = f_of_int perMin /\ tokens b = f_of_int (perMin - u) /\ lastTouch b = now
  end.

Lemma small_limit z : 0 <= z <= perMin -> small_int z.
Proof. unfold small_int. lia. Qed.

Lemma maybeSweep_spent sweeping rl u : spent u rl -> spent u (maybeSweep sweeping now rl).
Proof.
  unfold spent, maybeSweep. destruct (_ || _); [done|]. cbn [buckets]. intros H.
  destruct (buckets rl !! key) as [b|] eqn:E.
  - rewrite (map_lookup_filter_Some_2 _ _ _ b E); [done|]. simpl. unfold idle_before. destruct H as (_ & _ & ->).
    apply Z.ltb_ge. unfold bucketTTL, minute. lia.
  - rewrite map_lookup_filter_None_2 by by left. done.
Qed.

Lemma refreshed_now b : cap b = f_of_int perMin -> lastTouch b = now -> tokens (refreshed perMin now b) = tokens b /\ cap (refreshed perMin now b) = cap b.
Proof.
  intros Hc Ht. unfold refreshed. rewrite Hc, feq_int by (apply small_limit; lia). rewrite Z.eqb_refl, Ht, Z.sub_diag.
  change (flt (f_of_int 0) (seconds 0)) with false. by rewrite Hc.
Qed.

Lemma Allow_spends sweeping fnID ip rl u :
  (fnID ++ "|" ++ ip)%string = key -> spent u rl -> 0 <= u <= perMin ->
  let '(rl', ok) := Allow sweeping now fnID ip perMin rl in
  ok = (u <? perMin) /\ spent (if ok then u + 1 else u) rl'.
Proof.
  intros Hkey Hs Hu. unfold Allow. rewrite (proj2 (Z.leb_gt perMin 0)), Hkey by lia.
  apply (maybeSweep_spent sweeping) in Hs. set (rl1 := maybeSweep sweeping now rl) in *.
  set (b := match buckets rl1 !! key with Some b => (b, false) | None => _ end).
  assert (cap b.1 = f_of_int perMin /\ tokens b.1 = f_of_int (perMin - u) /\ lastTouch b.1 = now) as (Hc & Ht & Hl).
  { unfold b, spent in *. destruct (buckets rl1 !! key); [done|]. subst u. by rewrite Z.sub_0_r. }
  destruct b as [b fresh]. cbn [fst] in *. destruct (refreshed_now b Hc Hl) as [Hrt Hrc]. rewrite Hrt, Ht.
  rewrite fle_int by (apply small_limit; lia).
  assert (Hlook : forall t b' u', cap b' = f_of_int perMin -> tokens b' = f_of_int (perMin - u') -> lastTouch b' = now ->
    spent u' (MkLimiter (<[key := b']> (buckets rl1)) (lastSweep rl1) t)).
  { intros t b' u' H1 H2 H3. unfold spent. cbn [buckets]. by rewrite lookup_insert_eq. }
  destruct (1 <=? perMin - u) eqn:E; zbool.
  - split; [symmetry; apply Z.ltb_lt; lia|].
    destruct fresh; apply Hlook; cbn -[fsub f_of_int refreshed]; rewrite ?Hrc, ?Hrt, ?Ht; try done; rewrite fsub_int by (try apply small_limit; lia); f_equal; lia.
  - split; [symmetry; apply Z.ltb_ge; lia|]. destruct fresh; apply Hlook; cbn -[fsub f_of_int refreshed]; rewrite ?Hrc, ?Hrt, ?Ht; done.
Qed.

Lemma Allow_other sweeping fnID ip n rl u :
  (fnID ++ "|" ++ ip)%string <> key -> spent u rl -> spent u (Allow sweeping now fnID ip n rl).1.
Proof.
  intros Hkey Hs. unfold Allow. destruct (n <=? 0); [done|]. apply (maybeSweep_spent sweeping) in Hs.
  set (rl1 := maybeSweep sweeping now rl) in *.
  assert (forall t b, spent u (MkLimiter (<[(fnID ++ "|" ++ ip)%string := b]> (buckets rl1)) (lastSweep rl1) t)) as H.
  { intros t b. unfold spent. cbn [buckets]. by rewrite lookup_insert_ne. }
  destruct (buckets rl1 !! _) as [b|]; destruct (fle _ _); apply H.
Qed.

Lemma burst_answers calls : forall rl u,
  Forall (fun c => call_time c = now /\ (call_key c = key -> call_limit c = perMin)) calls -> spent u rl -> 0 <= u <= perMin ->
  let n := length (List.filter (fun c => bool_decide (call_key c = key)) calls) in
  answers key calls (allows calls rl).2 =
  replicate (Nat.min n (Z.to_nat (perMin - u))) true ++ replicate (n - Z.to_nat (perMin - u)) false.
Proof.
  induction calls as [|[[[[s t] f] i] p] calls IH]; intros rl u Hall Hs Hu; [done|].
  apply Forall_cons in Hall as [[Ht Hp] Hall]. cbn [call_time call_key call_limit] in Ht, Hp. subst t. cbn [allows].
  cbn [List.filter call_key]. case_bool_decide as Hk.
  - specialize (Hp Hk). subst p. pose proof (Allow_spends s f i rl u Hk Hs Hu) as H.
    destruct (Allow s now f i perMin rl) as [rl1 ok]. destruct H as [Hok Hs1].
    assert (0 <= (if ok then u + 1 else u) <= perMin) as Hu1 by (subst ok; destruct (u <? perMin) eqn:E; zbool; lia).
    specialize (IH rl1 _ Hall Hs1 Hu1). destruct (allows calls rl1) as [rl2 oks]. cbn [snd] in *. cbn [answers call_key].
    rewrite bool_decide_eq_true_2 by done. rewrite IH. cbn [length]. subst ok. destruct (u <? perMin) eqn:E; zbool.
    + replace (Z.to_nat (perMin - u)) with (S (Z.to_nat (perMin - (u + 1)))) by lia. done.
    + replace (perMin - u) with 0 by lia. cbn. rewrite Nat.min_0_r, Nat.sub_0_r. done.
  - pose proof (Allow_other s f i p rl u Hk Hs) as Hs1. destruct (Allow s now f i p rl) as [rl1 ok].
    specialize (IH rl1 u Hall Hs1 Hu). destruct (allows calls rl1) as [rl2 oks]. cbn [snd] in *. cbn [answers call_key].
    by rewrite bool_decide_eq_false_2 by done.
Qed.
End Burst.

(** However many calls of one function from one address arrive together,
    and whatever else arrives with them, the first [perMin] are let through
    and all further ones are refused: no address borrows from another, and no
    sweep hands out a second allowance. *)
Theorem a_burst_gets_exactly_the_limit key perMin now calls rl :
  0 < perMin < 2 ^ 53 -> buckets rl !! key = None ->
  Forall (fun c => call_time c = now /\ (call_key c = key -> call_limit c = perMin)) calls ->
  let n := length (List.filter (fun c => bool_decide (call_key c = key)) calls) in
  answers key calls (allows calls rl).2 =
  replicate (Nat.min n (Z.to_nat perMin)) true ++ replicate (n - Z.to_nat perMin) false.
Proof.
  intros Hl Hnone Hall. assert (spent key perMin now 0 rl) as Hs by (unfold spent; by rewrite Hnone).
  pose proof (burst_answers key perMin now Hl calls rl 0 Hall Hs ltac:(lia)) as H. by rewrite Z.sub_0_r in H.
Qed.

Lemma a_burst_gets_exactly_the_limit_witness :
  answers "f|a" [(false, 5, "f", "a", 2); (true, 5, "f", "b", 9); (false, 5, "f", "a", 2); (false, 5, "f", "a", 2)]%string
    (allows [(false, 5, "f", "a", 2); (true, 5, "f", "b", 9); (false, 5, "f", "a", 2); (false, 5, "f", "a", 2)]%string newRateLimiter).2
  = [true; true; false].
Proof.
  apply (a_burst_gets_exactly_the_limit "f|a" 2 5
    [(false, 5, "f", "a", 2); (true, 5, "f", "b", 9); (false, 5, "f", "a", 2); (false, 5, "f", "a", 2)]%string newRateLimiter).
  - split; reflexivity.
  - reflexivity.
  - repeat apply Forall_cons_2; [split; [reflexivity|intros H; first [reflexivity|discriminate H]]..|apply Forall_nil_2].
Defined.

(* ------------------------------------------------------------------ *)
(** ** The address of a client *)

(** [net.SplitHostPort]. *)
Definition SplitHostPort (s : list Z) : option (list Z * list Z) :=
  let has c l := existsb (Z.eqb c) l in
  match cut_last 58 s with
  | None => None
  | Some (pre, port) =>
    match s with
    | 91 :: rest =>
      let '(host, after) := cut 93 rest in
      match after with
      | None => None
      | Some _ =>
        if bool_decide (pre = 91 :: host ++ [93]) && negb (has 91 rest) && negb (has 93 port) then Some (host, port) else None
      end
    | _ => if has 58 pre || has 91 s || has 93 s then None else Some (pre, port)
    end
  end.

(** [net.ParseIP] and [IP.String]. *)
Definition ParseIP (s : list Z) : option Addr :=
  match ParseAddr s with Some a => if hasZone a then None else Some a | None => None end.
Definition IPString (a : Addr) : list Z := AddrString (Unmap a).

Definition normalizeIP (s : string) : string :=
  let s := bytes (trimSpace s) in
  match s with
  | [] => ""%string
  | _ =>
    match ParseIP s with
    | Some ip => of_bytes (IPString ip)
    | None =>
      match SplitHostPort s with
      | Some (host, _) => match ParseIP host with Some ip => of_bytes (IPString ip) | None => ""%string end
      | None => ""%string
      end
    end
  end.

(** [Header.Values]. *)
Definition header_values (k : string) (h : header) : list string :=
  match List.find (fun kv => bool_decide (fst kv = canonicalKey k)) h with Some (_, vs) => vs | None => [] end.

Definition ClientIP (trustProxyHeaders : bool) (remoteAddr : string) (h : header) : string :=
  let xff := bytes (join_words "," (header_values "X-Forwarded-For" h)) in
  let xri := default ""%string (last (header_values "X-Real-IP" h)) in
  let peer :=
    match SplitHostPort (bytes remoteAddr) with
    | Some (host, _) =>
      let ip := normalizeIP (of_bytes host) in
      if bool_decide (ip = ""%string) then of_bytes host else ip
    | None => remoteAddr
    end in
  if trustProxyHeaders then
    let ip := normalizeIP (of_bytes match cut_last 44 xff with Some (_, l) => l | None => xff end) in
    if negb (bool_decide (ip = ""%string)) then ip
    else let ip := normalizeIP xri in if negb (bool_decide (ip = ""%string)) then ip else peer
  else peer.

Example client_addresses :
  [ClientIP false "[::ffff:10.0.0.1]:80" [("X-Forwarded-For", ["6.6.6.6"])];
   ClientIP true "10.0.0.1:80" [("X-Forwarded-For", ["6.6.6.6"; "7.7.7.7, 2001:DB8::1"])];
   ClientIP true "10.0.0.1:80" [("X-Forwarded-For", ["evil"]); ("X-Real-Ip", ["1.1.1.1"])];
   ClientIP true "pipe" []]%string
  = ["10.0.0.1"; "2001:db8::1"; "1.1.1.1"; "pipe"]%string.
Proof. vm_compute. reflexivity. Qed.

(** *** What a caller can forge *)

Lemma addr_char_printable c : addr6_char c \/ c = 46 -> printable c.
Proof.
  intros [[(d & Hd & ->)| ->]| ->]; unfold printable; [|lia..]. unfold hex_digit_of. destruct (d <? 10) eqn:E; zbool; lia.
Qed.

Lemma AddrString_printable a : plain_addr a -> Forall printable (AddrString a) /\ AddrString a <> [].
Proof.
  destruct a as [|x|x z]; [done| |].
  - intros _. cbn [AddrString]. split; [|unfold text4, octets; cbn [map join]; by destruct (itoa _)].
    eapply Forall_impl; [|intros c H; apply addr_char_printable; exact H]. unfold text4.
    apply (join_chars (fun c => addr6_char c \/ c = 46)); [by right|]. apply Forall_forall.
    intros l (y & -> & _)%list_elem_of_fmap. eapply Forall_impl; [apply itoa_chars|]. intros c Hc. by left; left.
  - intros (_ & -> & H4). unfold AddrString. rewrite H4. cbn [zone_text]. rewrite app_nil_r. split.
    + eapply Forall_impl; [apply text6_chars|]. intros c Hc. apply addr_char_printable. by left.
    + pose proof (text6_colon x) as H. intros E. rewrite E in H. by apply elem_of_nil in H.
Qed.

Lemma ParseIP_plain s ip : ParseIP s = Some ip -> plain_addr (Unmap ip) /\ Unmap (Unmap ip) = Unmap ip.
Proof.
  unfold ParseIP. destruct (ParseAddr s) as [a|] eqn:E; [|done]. destruct (hasZone a) eqn:Ez; [done|]. intros [= <-].
  apply ParseAddr_range in E. destruct (Unmap_range a E) as [Hr H4]. split.
  - destruct (Unmap a) as [|x|x z] eqn:Eu; [done|done|]. split; [done|]. split; [|done].
    destruct a as [|y|y w]; [discriminate Eu|discriminate Eu|]. unfold Unmap in Eu.
    destruct (Is4In6 _); [discriminate Eu|]. injection Eu as <- <-. by destruct w.
  - destruct (Unmap a) as [|x|x z]; [done|done|]. unfold Unmap. by rewrite H4.
Qed.

Lemma ParseIP_String ip s : ParseIP s = Some ip -> ParseIP (IPString ip) = Some (Unmap ip).
Proof.
  intros [Hp Hu]%ParseIP_plain. unfold ParseIP, IPString. rewrite ParseAddr_String by done.
  destruct (Unmap ip) as [|x|x z]; [done|done|]. by destruct Hp as (_ & -> & _).
Qed.

(** The normal form is its own. *)
Lemma normalizeIP_idem s : normalizeIP (normalizeIP s) = normalizeIP s.
Proof.
  assert (forall t ip, ParseIP t = Some ip -> normalizeIP (of_bytes (IPString ip)) = of_bytes (IPString ip)) as Hip.
  { intros t ip H. destruct (ParseIP_plain _ _ H) as [Hp Hu]. destruct (AddrString_printable _ Hp) as [Hc Hne].
    fold (IPString ip) in Hc, Hne. unfold normalizeIP.
    assert (bytes (of_bytes (IPString ip)) = IPString ip) as Hb.
    { apply bytes_of_bytes. eapply Forall_impl; [exact Hc|]. unfold printable. intros. simpl in *. lia. }
    rewrite printable_trim by (by rewrite Hb). rewrite Hb, (ParseIP_String ip t H).
    assert (IPString (Unmap ip) = IPString ip) as -> by (unfold IPString; by rewrite Hu). by destruct (IPString ip). }
  unfold normalizeIP at 2 3. destruct (bytes (trimSpace s)) as [|c l]; [done|].
  destruct (ParseIP (c :: l)) as [ip|] eqn:E; [by eapply Hip|].
  destruct (SplitHostPort (c :: l)) as [[host port]|]; [|done].
  destruct (ParseIP host) as [ip|] eqn:E'; [by eapply Hip|done].
Qed.

Lemma join_snoc_bytes (ls : list (list Z)) x :
  join [44] (ls ++ [x]) = match ls with [] => x | _ => join [44] ls ++ [44] ++ x end.
Proof.
  induction ls as [|l ls IH]; [done|]. destruct ls as [|l' ls]; [done|].
  change (join [44] ((l :: l' :: ls) ++ [x])) with (l ++ [44] ++ join [44] ((l' :: ls) ++ [x])). rewrite IH.
  change (join [44] (l :: l' :: ls)) with (l ++ [44] ++ join [44] (l' :: ls)). by rewrite <- !app_assoc.
Qed.

Lemma join_snoc ls x :
  bytes (join_words "," (ls ++ [x])) = match ls with [] => bytes x | _ => join [44] (map bytes ls) ++ [44] ++ bytes x end.
Proof.
  unfold join_words. change (bytes ",") with [44]. rewrite bytes_of_bytes.
  - change (bytes <$> ls ++ [x]) with (map bytes (ls ++ [x])). rewrite map_app. cbn [map].
    rewrite join_snoc_bytes. by destruct ls.
  - apply join_chars; [lia|]. apply Forall_forall. intros t (y & -> & _)%list_elem_of_fmap. apply bytes_are_bytes.
Qed.

Definition no_comma (s : string) : Prop := Forall (fun c => c <> 44) (bytes s).

Lemma last_entry ls peer :
  no_comma peer ->
  (forall pre, match cut_last 44 (bytes (join_words "," (ls ++ [(pre ++ "," ++ peer)%string]))) with Some (_, l) => l = bytes peer | None => False end) /\
  match cut_last 44 (bytes (join_words "," (ls ++ [peer]))) with Some (_, l) => l = bytes peer | None => bytes (join_words "," (ls ++ [peer])) = bytes peer end.
Proof.
  intros Hp. split.
  - intros pre. rewrite join_snoc.
    assert (exists s, match ls with [] => bytes (pre ++ "," ++ peer) | _ => join [44] (map bytes ls) ++ [44] ++ bytes (pre ++ "," ++ peer) end
                      = s ++ [44] ++ bytes peer) as [s ->].
    { rewrite !bytes_app. change (bytes ",") with [44]. destruct ls as [|l ls]; [by exists (bytes pre)|].
      exists (join [44] (map bytes (l :: ls)) ++ [44] ++ bytes pre). by rewrite <- !app_assoc. }
    by rewrite cut_last_app.
  - rewrite join_snoc. destruct ls as [|l ls]; [|by rewrite cut_last_app].
    unfold cut_last. by rewrite cut_none by (by apply Forall_rev).
Qed.

(** Unless the operator vouches for a proxy, no header of a request moves
    it to another bucket.  Behind a proxy that writes the address it saw at
    the end of [X-Forwarded-For] -- on the last line or on one of its own --
    the bucket is that address whatever the caller wrote before it; and each
    address has one spelling. *)
Theorem forged_addresses_do_not_choose_the_bucket remote h h' lines pre peer :
  ClientIP false remote h = ClientIP false remote h' /\
  (no_comma peer -> normalizeIP peer <> ""%string ->
   header_values "X-Forwarded-For" h = lines ++ [peer] \/ header_values "X-Forwarded-For" h = lines ++ [(pre ++ "," ++ peer)%string] ->
   ClientIP true remote h = normalizeIP peer /\ normalizeIP (ClientIP true remote h) = ClientIP true remote h).
Proof.
  split; [done|]. intros Hc Hip Hv. enough (ClientIP true remote h = normalizeIP peer) as -> by (split; [done|apply normalizeIP_idem]).
  destruct (last_entry lines peer Hc) as [H1 H2]. unfold ClientIP.
  enough (of_bytes match cut_last 44 (bytes (join_words "," (header_values "X-Forwarded-For" h))) with
                   | Some (_, l) => l | None => bytes (join_words "," (header_values "X-Forwarded-For" h)) end = peer) as ->
    by (by rewrite bool_decide_eq_false_2 by done).
  destruct Hv as [->| ->].
  - destruct (cut_last _ _) as [[a l]|]; rewrite H2; apply of_bytes_bytes.
  - specialize (H1 pre). destruct (cut_last _ _) as [[a l]|]; [|done]. rewrite H1. apply of_bytes_bytes.
Qed.

Lemma forged_addresses_do_not_choose_the_bucket_witness :
  ClientIP true "10.0.0.1:80" [("X-Forwarded-For", ["6.6.6.6"; "1.2.3.4,5.6.7.8,2001:DB8::1"])]%string = normalizeIP "2001:DB8::1".
Proof.
  apply (forged_addresses_do_not_choose_the_bucket "10.0.0.1:80" [("X-Forwarded-For", ["6.6.6.6"; "1.2.3.4,5.6.7.8,2001:DB8::1"])]
    [] ["6.6.6.6"] "1.2.3.4,5.6.7.8" "2001:DB8::1")%string.
  - repeat constructor; discriminate.
  - vm_compute. discriminate.
  - right. reflexivity.
Defined.
