(* ===== verification/OAuth.v ===== *)
(** * The OAuth 2.1 authorization server ([oauth/], [database/oauth.go],
    [mcp/auth.go] for its tokens)

    Clients, authorization codes and token pairs as the tables hold them; the
    scope, redirect and PKCE checks; the handlers cut where they touch the
    database, so that requests interleave there.  Random values are inputs of
    the steps that draw them.  Times are instants; a comparison in SQL is by
    whole seconds, since CURRENT_TIMESTAMP has no fraction and the stored text
    is longer. *)
From S2P Require Import Prelude GoText Sha256 Netip Url.
Open Scope Z_scope.

(* ------------------------------------------------------------------ *)
(** ** Secrets ([oauth/crypto.go]) *)

Definition HashToken (plaintext : string) : string := of_bytes (hex_encode (sha256 (bytes plaintext))).

Definition VerifyPKCE (codeVerifier codeChallenge method : string) : bool :=
  if negb (bool_decide (method = "S256"%string)) then false
  else if bool_decide (codeVerifier = EmptyString) || bool_decide (codeChallenge = EmptyString) then false
  else bool_decide (b64_encode (sha256 (bytes codeVerifier)) = bytes codeChallenge).

(* ------------------------------------------------------------------ *)
(** ** Scopes ([oauth/scopes.go]) *)

Definition ScopeRead : string := "read".
Definition ScopeInvoke : string := "invoke".
Definition ScopeWrite : string := "write".
Definition ScopeAdmin : string := "admin".
Definition ScopeOpenID : string := "openid".
Definition ScopeEmail : string := "email".
Definition ScopeProfile : string := "profile".

Definition SupportedScopes : list string :=
  [ScopeRead; ScopeInvoke; ScopeWrite; ScopeAdmin; ScopeOpenID; ScopeEmail; ScopeProfile].

Definition DefaultGrantedScope : string := "read invoke write admin".

Definition nonempty (s : string) : bool := negb (bool_decide (s = EmptyString)).

Definition ParseScope (s : string) : list string :=
  if bool_decide (s = EmptyString) then [] else List.filter nonempty (fields s).

(** Keep the first occurrence of each. *)
Fixpoint uniq (seen : list string) (l : list string) : list string :=
  match l with
  | [] => []
  | s :: l => if bool_decide (s ∈ seen) then uniq seen l else s :: uniq (s :: seen) l
  end.

Definition NormaliseScope (scopes : list string) : string := join_words " " (merge_sort str_le (uniq [] scopes)).

Definition IntersectScope (requested allowed : list string) : list string :=
  List.filter (fun s => bool_decide (s ∈ allowed)) requested.

Definition ScopeToPermissions (scope : string) : list string :=
  List.filter (fun s => bool_decide (s ∈ [ScopeRead; ScopeInvoke; ScopeWrite; ScopeAdmin])) (ParseScope scope).

Definition IsValidScope (scope : string) : bool := forallb (fun s => bool_decide (s ∈ SupportedScopes)) (ParseScope scope).

(* ------------------------------------------------------------------ *)
(** ** Client metadata ([oauth/clients.go]) *)

Inductive client_error :=
| ErrInvalidRedirectURI | ErrUnsupportedGrantType | ErrUnsupportedResponseType | ErrUnsupportedAuthMethod.

Definition SupportedGrantTypes : list string := ["authorization_code"; "refresh_token"]%string.
Definition SupportedResponseTypes : list string := ["code"]%string.
Definition SupportedAuthMethods : list string := ["none"; "client_secret_basic"; "client_secret_post"]%string.

Definition is_loopback (host : string) : bool := bool_decide (host ∈ ["localhost"; "127.0.0.1"; "::1"]%string).

Definition redirect_ok (raw : string) : bool :=
  match Parse raw with
  | None => false
  | Some u =>
    if negb (bool_decide (Fragment u = [])) then false
    else if bool_decide (Scheme u = bytes "https") then true
    else if bool_decide (Scheme u = bytes "http") then is_loopback (Hostname u)
    else if bool_decide (Scheme u = []) then false
    else negb (bool_decide (Host u = []) && bool_decide (Path_ u = []) && bool_decide (Opaque_ u = []))
  end.

Definition ValidateRedirectURIs (uris : list string) : option client_error :=
  match uris with
  | [] => Some ErrInvalidRedirectURI
  | _ => if forallb redirect_ok uris then None else Some ErrInvalidRedirectURI
  end.

Definition loopback_match (req : URL) (registered : string) : bool :=
  match Parse registered with
  | None => false
  | Some reg =>
    bool_decide (Scheme reg = bytes "http") && bool_decide (Hostname reg = Hostname req) && bool_decide (Path_ reg = Path_ req)
  end.

Definition MatchRedirectURI (registered : list string) (requested : string) : bool :=
  if bool_decide (requested ∈ registered) then true
  else
    match Parse requested with
    | None => false
    | Some req =>
      if negb (bool_decide (Scheme req = bytes "http")) then false
      else if negb (is_loopback (Hostname req)) then false
      else existsb (loopback_match req) registered
    end.

Definition ValidateGrantTypes (l : list string) : option client_error :=
  if forallb (fun g => bool_decide (g ∈ SupportedGrantTypes)) l then None else Some ErrUnsupportedGrantType.

Definition ValidateResponseTypes (l : list string) : option client_error :=
  if forallb (fun g => bool_decide (g ∈ SupportedResponseTypes)) l then None else Some ErrUnsupportedResponseType.

Definition ValidateAuthMethod (method : string) : option client_error :=
  if bool_decide (method = EmptyString) then None
  else if bool_decide (lower (bytes method) ∈ (bytes <$> SupportedAuthMethods)) then None
  else Some ErrUnsupportedAuthMethod.

(* ------------------------------------------------------------------ *)
(** ** The tables ([database/oauth.go]) *)

Record OAuthClient := Client {
  c_ID : string; c_ClientID : string; c_SecretHash : string; c_ClientName : string; c_ClientURI : string;
  c_RedirectURIs : list string; c_GrantTypes : list string; c_ResponseTypes : list string;
  c_AuthMethod : string; c_Scope : string; c_RevokedAt : option Z
}.
#[export] Instance OAuthClient_eta : Eta OAuthClient := fun c =>
  Client (c_ID c) (c_ClientID c) (c_SecretHash c) (c_ClientName c) (c_ClientURI c) (c_RedirectURIs c) (c_GrantTypes c)
    (c_ResponseTypes c) (c_AuthMethod c) (c_Scope c) (c_RevokedAt c).

Definition IsPublic (c : OAuthClient) : bool :=
  bool_decide (c_AuthMethod c = "none"%string) || bool_decide (c_SecretHash c = EmptyString).

Record AuthorizationCode := Code {
  a_CodeHash : string; a_ClientID : string; a_UserID : Z; a_RedirectURI : string; a_Scope : string; a_Resource : string;
  a_CodeChallenge : string; a_CodeChallengeMethod : string; a_ExpiresAt : Z; a_UsedAt : option Z
}.
#[export] Instance AuthorizationCode_eta : Eta AuthorizationCode := fun c =>
  Code (a_CodeHash c) (a_ClientID c) (a_UserID c) (a_RedirectURI c) (a_Scope c) (a_Resource c) (a_CodeChallenge c)
    (a_CodeChallengeMethod c) (a_ExpiresAt c) (a_UsedAt c).

(** [t_Refresh] is [None] for NULL. *)
Record AccessToken := Token {
  t_ID : string; t_Access : string; t_Refresh : option string; t_ClientID : string; t_UserID : Z; t_Scope : string;
  t_Resource : string; t_IssuedAt : Z; t_AccessExpiresAt : Z; t_RefreshExpiresAt : option Z; t_RevokedAt : option Z;
  t_LastUsedAt : option Z
}.
#[export] Instance AccessToken_eta : Eta AccessToken := fun t =>
  Token (t_ID t) (t_Access t) (t_Refresh t) (t_ClientID t) (t_UserID t) (t_Scope t) (t_Resource t) (t_IssuedAt t)
    (t_AccessExpiresAt t) (t_RefreshExpiresAt t) (t_RevokedAt t) (t_LastUsedAt t).

Record odb := ODB {
  o_clients : gmap string OAuthClient;      (** by client_id *)
  o_codes : gmap string AuthorizationCode;  (** by hash *)
  o_tokens : gmap string AccessToken        (** by id *)
}.
#[export] Instance odb_eta : Eta odb := fun d => ODB (o_clients d) (o_codes d) (o_tokens d).

Inductive oauth_error := ErrUnique | ErrNoRows | ErrAuthCodeAlreadyUsed | ErrRefreshTokenAlreadyRotated.

(** SQL's [a > b] and [a < b] between a stored instant and the clock. *)
Definition sql_after (stored now : Z) : bool := now / second <=? stored / second.
Definition sql_before (stored now : Z) : bool := stored / second <? now / second.

Definition stamp (old : option Z) (now : Z) : option Z := match old with Some t => Some t | None => Some now end.

Definition InsertOAuthClient (c : OAuthClient) (d : odb) : res oauth_error odb :=
  if existsb (fun '(k, c') => bool_decide (k = c_ClientID c) || bool_decide (c_ID c' = c_ID c)) (map_to_list (o_clients d))
  then Err ErrUnique
  else Ok (d <| o_clients ::= <[c_ClientID c := c]> |>).

Definition GetOAuthClientByID (clientID : string) (d : odb) : option OAuthClient := o_clients d !! clientID.

Definition InsertOAuthAuthorizationCode (c : AuthorizationCode) (d : odb) : res oauth_error odb :=
  match o_codes d !! a_CodeHash c with
  | Some _ => Err ErrUnique
  | None => Ok (d <| o_codes ::= <[a_CodeHash c := c]> |>)
  end.

Definition RedeemOAuthAuthorizationCode (now : Z) (codeHash : string) (d : odb) : res oauth_error (odb * AuthorizationCode) :=
  match o_codes d !! codeHash with
  | Some c =>
    if bool_decide (a_UsedAt c = None) && sql_after (a_ExpiresAt c) now then
      let c := c <| a_UsedAt := Some now |> in Ok (d <| o_codes ::= <[codeHash := c]> |>, c)
    else Err ErrAuthCodeAlreadyUsed
  | None => Err ErrAuthCodeAlreadyUsed
  end.

Definition SweepExpiredOAuthCodes (now : Z) (d : odb) : odb :=
  d <| o_codes ::= filter (fun kc => sql_before (a_ExpiresAt kc.2) (now - hour) = false) |>.

(** A row clashes with the unique columns of another. *)
Definition clashes (t t' : AccessToken) : bool :=
  bool_decide (t_ID t = t_ID t') || bool_decide (t_Access t = t_Access t') ||
  match t_Refresh t, t_Refresh t' with Some h, Some h' => bool_decide (h = h') | _, _ => false end.

Definition InsertOAuthAccessToken (t : AccessToken) (d : odb) : res oauth_error odb :=
  if existsb (fun kt => clashes t kt.2) (map_to_list (o_tokens d)) then Err ErrUnique
  else Ok (d <| o_tokens ::= <[t_ID t := t]> |>).

Definition find_token (p : AccessToken -> bool) (d : odb) : option AccessToken :=
  List.find p (snd <$> map_to_list (o_tokens d)).

Definition GetOAuthAccessTokenByAccessHash (hash : string) (d : odb) : option AccessToken :=
  find_token (fun t => bool_decide (t_Access t = hash)) d.
Definition GetOAuthAccessTokenByRefreshHash (hash : string) (d : odb) : option AccessToken :=
  find_token (fun t => bool_decide (t_Refresh t = Some hash)) d.

(** [UPDATE oauth_access_tokens SET f WHERE p]: the new table and the number of rows. *)
Definition update_tokens (p : AccessToken -> bool) (f : AccessToken -> AccessToken) (d : odb) : odb * nat :=
  (d <| o_tokens ::= fmap (fun t => if p t then f t else t) |>,
   length (List.filter p (snd <$> map_to_list (o_tokens d)))).

Definition RotateOAuthRefreshToken (now : Z) (oldRefreshHash : string) (replacement : AccessToken) (d : odb)
  : res oauth_error odb :=
  let '(d, n) := update_tokens (fun t => bool_decide (t_Refresh t = Some oldRefreshHash))
                   (fun t => t <| t_Refresh := None |> <| t_RevokedAt := stamp (t_RevokedAt t) now |>) d in
  match n with
  | O => Err ErrRefreshTokenAlreadyRotated
  | _ => InsertOAuthAccessToken replacement d
  end.

Definition RevokeOAuthAccessToken (now : Z) (hash : string) (d : odb) : odb :=
  (update_tokens (fun t => bool_decide (t_Access t = hash) || bool_decide (t_Refresh t = Some hash))
     (fun t => t <| t_RevokedAt := stamp (t_RevokedAt t) now |>) d).1.

Definition UpdateOAuthTokenLastUsed (now : Z) (accessHash : string) (d : odb) : odb :=
  (update_tokens (fun t => bool_decide (t_Access t = accessHash)) (fun t => t <| t_LastUsedAt := Some now |>) d).1.

Definition RevokeOAuthAccessTokenByID (now : Z) (id : string) (userID : Z) (d : odb) : res oauth_error odb :=
  let '(d, n) := update_tokens
    (fun t => bool_decide (t_ID t = id) && (t_UserID t =? userID) && bool_decide (t_RevokedAt t = None))
    (fun t => t <| t_RevokedAt := Some now |>) d in
  match n with O => Err ErrNoRows | _ => Ok d end.

Definition UserHasGrantForClient (userID : Z) (clientID : string) (d : odb) : bool :=
  existsb (fun t => (t_UserID t =? userID) && bool_decide (t_ClientID t = clientID)) (snd <$> map_to_list (o_tokens d)).

Definition RevokeOAuthClient (now : Z) (clientID : string) (d : odb) : res oauth_error odb :=
  match o_clients d !! clientID with
  | None => Err ErrNoRows
  | Some c =>
    let d := d <| o_clients ::= <[clientID := c <| c_RevokedAt := stamp (c_RevokedAt c) now |>]> |> in
    let '(d, _) := update_tokens (fun t => bool_decide (t_ClientID t = clientID) && bool_decide (t_RevokedAt t = None))
                     (fun t => t <| t_Refresh := None |> <| t_RevokedAt := stamp (t_RevokedAt t) now |>) d in
    Ok (d <| o_codes ::= filter (fun kc => ~ (a_ClientID kc.2 = clientID /\ a_UsedAt kc.2 = None)) |>)
  end.

Definition SweepExpiredOAuthTokens (now : Z) (d : odb) : odb :=
  let day := 24 * hour in
  d <| o_tokens ::= filter (fun kt =>
    sql_before (t_AccessExpiresAt kt.2) (now - day) &&
    match t_RefreshExpiresAt kt.2 with None => true | Some e => sql_before e (now - day) end = false) |>.

(** The grants the dashboard lists, newest first. *)
Definition active (now : Z) (userID : Z) (t : AccessToken) : bool :=
  (t_UserID t =? userID) && bool_decide (t_RevokedAt t = None) &&
  (sql_after (t_AccessExpiresAt t) now ||
   (bool_decide (is_Some (t_Refresh t)) &&
    match t_RefreshExpiresAt t with None => true | Some e => sql_after e now end)).

Definition newer (t t' : AccessToken) : Prop := t_IssuedAt t' / second <= t_IssuedAt t / second.
#[export] Instance newer_dec t t' : Decision (newer t t').
Proof. unfold newer. apply _. Defined.

Definition ListActiveOAuthAccessTokens (now : Z) (userID : Z) (d : odb) : list AccessToken :=
  merge_sort newer (List.filter (active now userID) (snd <$> map_to_list (o_tokens d))).

Definition IsExpired (now : Z) (t : AccessToken) : bool :=
  match t_RevokedAt t with Some _ => true | None => t_AccessExpiresAt t <? now end.

(* ------------------------------------------------------------------ *)
(** ** The handlers ([oauth/handlers.go], [server/handlers/oauth_apps.go]) *)

Definition accessTokenLifetime : Z := hour.
Definition refreshTokenLifetime : Z := 30 * 24 * hour.
Definition authCodeLifetime : Z := 10 * minute.

(** What a handler answers; [RPage] is an HTML error that does not redirect. *)
Inductive response :=
| RError (status : Z) (code : string)
| RPage (status : Z)
| RRedirectError (uri code : string)
| RCode (uri code : string)
| RTokens (access refresh : string) (expiresIn : Z) (scope : string)
| RRegistered (clientID clientSecret : string)
| RStatus (status : Z).

(** *** Registration *)

Record register_req := RegisterReq {
  q_ClientName : string; q_ClientURI : string; q_RedirectURIs : list string; q_GrantTypes : list string;
  q_ResponseTypes : list string; q_AuthMethod : string; q_Scope : string
}.

Definition or_default {A} (l d : list A) : list A := match l with [] => d | _ => l end.
Definition or_text (s d : string) : string := if bool_decide (s = EmptyString) then d else s.

(** The body of [Register] after the rate limit and the JSON decoder; [storageID],
    [clientID] and [secret] are drawn. *)
Definition Register (storageID clientID secret : string) (q : register_req) (d : odb) : odb * response :=
  match ValidateRedirectURIs (q_RedirectURIs q) with
  | Some _ => (d, RError 400 "invalid_redirect_uri")
  | None =>
    if bool_decide (is_Some (ValidateGrantTypes (q_GrantTypes q))) || bool_decide (is_Some (ValidateResponseTypes (q_ResponseTypes q)))
       || bool_decide (is_Some (ValidateAuthMethod (q_AuthMethod q)))
    then (d, RError 400 "invalid_client_metadata")
    else
      let authMethod := or_text (q_AuthMethod q) "none" in
      let clientName := or_text (trimSpace (q_ClientName q)) "Unnamed MCP client" in
      let scope := or_text (q_Scope q) DefaultGrantedScope in
      if negb (IsValidScope scope) then (d, RError 400 "invalid_client_metadata")
      else
        let public := bool_decide (authMethod = "none"%string) in
        let clientSecret := if public then EmptyString else secret in
        let rec := Client storageID clientID (if public then EmptyString else HashToken secret) clientName (q_ClientURI q)
                     (q_RedirectURIs q) (or_default (q_GrantTypes q) SupportedGrantTypes)
                     (or_default (q_ResponseTypes q) SupportedResponseTypes) authMethod scope None in
        match InsertOAuthClient rec d with
        | Err _ => (d, RError 500 "server_error")
        | Ok d => (d, RRegistered clientID clientSecret)
        end
  end.

(** *** Consent *)

Record authorize_req := AuthorizeReq {
  z_ClientID : string; z_RedirectURI : string; z_ResponseType : string; z_Scope : string; z_State : string;
  z_CodeChallenge : string; z_CodeChallengeMethod : string; z_Resource : string
}.

(** Steps of a request: it runs from one write of the database to the next. *)
Inductive proc :=
| PConsent (row : AuthorizationCode) (code : string)       (** about to insert the code *)
| PRedeem (client : OAuthClient) (code verifier redirectURI resource : string)
| PMint (client : OAuthClient) (row : AuthorizationCode)   (** about to insert the pair *)
| PRefresh (client : OAuthClient) (refresh : string)       (** about to look the token up *)
| PRotate (current : AccessToken) (refresh : string)
| PRemove (clientID : string)                              (** ownership established *)
| PDone (r : response).

(** The scope a consent grants: the registered scope is a ceiling. *)
Definition granted_scope (client : OAuthClient) (requested : string) : res string string :=
  let scope := or_text requested (c_Scope client) in
  let scope := if bool_decide (c_Scope client = EmptyString) then scope
               else NormaliseScope (IntersectScope (ParseScope scope) (ParseScope (c_Scope client))) in
  if negb (bool_decide (c_Scope client = EmptyString)) && bool_decide (trimSpace scope = EmptyString)
  then Err "invalid_scope"%string
  else if negb (IsValidScope scope) then Err "invalid_scope"%string else Ok scope.

(** [user] is the session's, [allow] whether the form said so, [code] is drawn. *)
Definition AuthorizePOST (now : Z) (req : authorize_req) (user : option Z) (allow : bool) (code : string) (d : odb) : proc :=
  let method := or_text (z_CodeChallengeMethod req) "S256" in
  if negb (bool_decide (z_ResponseType req = "code"%string)) || bool_decide (z_CodeChallenge req = EmptyString)
     || negb (bool_decide (method = "S256"%string))
  then PDone (RPage 400)
  else
    match GetOAuthClientByID (z_ClientID req) d with
    | None => PDone (RPage 400)
    | Some client =>
      if bool_decide (is_Some (c_RevokedAt client)) then PDone (RPage 400)
      else if negb (MatchRedirectURI (c_RedirectURIs client) (z_RedirectURI req)) then PDone (RPage 400)
      else
        match user with
        | None => PDone (RPage 401)
        | Some uid =>
          if negb allow then PDone (RRedirectError (z_RedirectURI req) "access_denied")
          else
            match granted_scope client (z_Scope req) with
            | Err e => PDone (RRedirectError (z_RedirectURI req) e)
            | Ok scope =>
              PConsent (Code (HashToken code) (c_ClientID client) uid (z_RedirectURI req)
                          (NormaliseScope (ParseScope scope)) (z_Resource req) (z_CodeChallenge req) method
                          (now + authCodeLifetime) None) code
            end
        end
    end.

(** *** Tokens *)

Record token_req := TokenReq {
  k_clientID : string; k_clientSecret : string; k_grant_type : string; k_code : string; k_code_verifier : string;
  k_redirect_uri : string; k_resource : string; k_refresh_token : string
}.

Definition Token_ (q : token_req) (d : odb) : proc :=
  match GetOAuthClientByID (k_clientID q) d with
  | None => PDone (RError 401 "invalid_client")
  | Some client =>
    if bool_decide (is_Some (c_RevokedAt client)) then PDone (RError 401 "invalid_client")
    else if negb (IsPublic client) &&
            (bool_decide (k_clientSecret q = EmptyString) || negb (bool_decide (HashToken (k_clientSecret q) = c_SecretHash client)))
    then PDone (RError 401 "invalid_client")
    else if bool_decide (k_grant_type q = "authorization_code"%string) then
      if bool_decide (k_code q = EmptyString) || bool_decide (k_code_verifier q = EmptyString) || bool_decide (k_redirect_uri q = EmptyString)
      then PDone (RError 400 "invalid_request")
      else PRedeem client (k_code q) (k_code_verifier q) (k_redirect_uri q) (k_resource q)
    else if bool_decide (k_grant_type q = "refresh_token"%string) then
      if bool_decide (k_refresh_token q = EmptyString) then PDone (RError 400 "invalid_request")
      else PRefresh client (k_refresh_token q)
    else PDone (RError 400 "unsupported_grant_type")
  end.

(** [handleAuthorizationCodeGrant] after the redemption: the code is spent
    whatever the checks say. *)
Definition check_code (client : OAuthClient) (verifier redirectURI resource : string) (row : AuthorizationCode) : proc :=
  if negb (bool_decide (a_ClientID row = c_ClientID client)) then PDone (RError 400 "invalid_grant")
  else if negb (bool_decide (a_RedirectURI row = redirectURI)) then PDone (RError 400 "invalid_grant")
  else if negb (VerifyPKCE verifier (a_CodeChallenge row) (a_CodeChallengeMethod row)) then PDone (RError 400 "invalid_grant")
  else if negb (bool_decide (resource = EmptyString)) && negb (bool_decide (resource = a_Resource row))
  then PDone (RError 400 "invalid_target")
  else PMint client row.

Definition check_refresh (now : Z) (client : OAuthClient) (refresh : string) (d : odb) : proc :=
  match GetOAuthAccessTokenByRefreshHash (HashToken refresh) d with
  | None => PDone (RError 400 "invalid_grant")
  | Some current =>
    if negb (bool_decide (t_ClientID current = c_ClientID client)) then PDone (RError 400 "invalid_grant")
    else if bool_decide (is_Some (t_RevokedAt current)) then PDone (RError 400 "invalid_grant")
    else if match t_RefreshExpiresAt current with Some e => e <? now | None => false end then PDone (RError 400 "invalid_grant")
    else PRotate current refresh
  end.

Definition new_token (now : Z) (id access refresh clientID : string) (userID : Z) (scope resource : string) : AccessToken :=
  Token id (HashToken access) (Some (HashToken refresh)) clientID userID scope resource now
    (now + accessTokenLifetime) (Some (now + refreshTokenLifetime)) None None.

Definition mintTokenPair (now : Z) (id access refresh : string) (client : OAuthClient) (row : AuthorizationCode) (d : odb)
  : res oauth_error odb :=
  InsertOAuthAccessToken
    (new_token now id access refresh (c_ClientID client) (a_UserID row) (a_Scope row) (a_Resource row)) d.

(** *** The token side of the tool endpoint ([mcp/auth.go]) *)

(** What the audience check reads of a request. *)
Record tool_request := ToolRequest { h_tls : bool; h_proto : string; h_host : string; h_path : string }.

Definition IsHTTPS (r : tool_request) : bool :=
  h_tls r || EqualFold (bytes (trimSpace (of_bytes (cut 44 (bytes (h_proto r))).1))) (bytes "https").

Definition audienceMatches (tokenResource : string) (r : tool_request) : bool :=
  match Parse tokenResource with
  | None => false
  | Some tu =>
    if negb (EqualFold (Scheme tu) (bytes (if IsHTTPS r then "https" else "http"))) then false
    else if negb (EqualFold (Host tu) (bytes (h_host r))) then false
    else
      let tokPath := of_bytes (Path_ tu) in
      if bool_decide (tokPath = EmptyString) || bool_decide (tokPath = "/"%string) then true
      else bool_decide (h_path r = tokPath) || hasPrefix (tokPath +:+ "/") (h_path r)
  end.

Record principal := Principal { p_ID : string; p_ClientID : string; p_Perms : list string; p_Expires : Z }.

(** [d] is read for the token and [d'] for its client, [None] when that read failed. *)
Definition resolveOAuthAccessToken (now : Z) (plaintext : string) (r : tool_request) (d : odb) (d' : option odb)
  : option principal :=
  match GetOAuthAccessTokenByAccessHash (HashToken plaintext) d with
  | None => None
  | Some row =>
    if IsExpired now row then None
    else if negb (bool_decide (t_Resource row = EmptyString)) && negb (audienceMatches (t_Resource row) r) then None
    else
      let p := Principal (t_ID row) (t_ClientID row) (ScopeToPermissions (t_Scope row)) (t_AccessExpiresAt row) in
      match d' ≫= GetOAuthClientByID (t_ClientID row) with
      | Some c => if bool_decide (is_Some (c_RevokedAt c)) then None else Some p
      | None => Some p
      end
  end.
