(* ===== verification/OAuthFlow.v ===== *)
(** * Interleaved OAuth requests ([oauth/handlers.go], [server/handlers/oauth_apps.go])

    The machine of the authorization server: requests in flight, each between
    two accesses to the database, with the revocations and the sweeps of the
    scheduler between them.  Its theorems say where tokens come from, that
    codes and refresh tokens are spent once, and what a removal guarantees. *)
From S2P Require Import Prelude GoText Sha256 Netip Url OAuth.
Open Scope Z_scope.

(* ------------------------------------------------------------------ *)
(** ** The machine *)

(** Values a step draws: a row id and two plaintexts. *)
Record drawn := Drawn { r_id : string; r_access : string; r_refresh : string }.

(** A request runs from its last access to the database to the next one;
    [fault] is a failure of that access. *)
Definition advance (now : Z) (r : drawn) (fault : bool) (p : proc) (d : odb) : odb * proc :=
  match p with
  | PConsent row code =>
    match (if fault then Err ErrNoRows else InsertOAuthAuthorizationCode row d) with
    | Err _ => (d, PDone (RRedirectError (a_RedirectURI row) "server_error"))
    | Ok d => (d, PDone (match Parse (a_RedirectURI row) with Some _ => RCode (a_RedirectURI row) code | None => RPage 400 end))
    end
  | PRedeem client code verifier redirectURI resource =>
    match (if fault then Err ErrNoRows else RedeemOAuthAuthorizationCode now (HashToken code) d) with
    | Err _ => (d, PDone (RError 400 "invalid_grant"))
    | Ok (d, row) => (d, check_code client verifier redirectURI resource row)
    end
  | PMint client row =>
    match (if fault then Err ErrNoRows else mintTokenPair now (r_id r) (r_access r) (r_refresh r) client row d) with
    | Err _ => (d, PDone (RError 500 "server_error"))
    | Ok d => (d, PDone (RTokens (r_access r) (r_refresh r) (accessTokenLifetime / second) (a_Scope row)))
    end
  | PRefresh client refresh =>
    (d, if fault then PDone (RError 400 "invalid_grant") else check_refresh now client refresh d)
  | PRotate current refresh =>
    let replacement := new_token now (r_id r) (r_access r) (r_refresh r) (t_ClientID current) (t_UserID current)
                         (t_Scope current) (t_Resource current) in
    match (if fault then Err ErrNoRows else RotateOAuthRefreshToken now (HashToken refresh) replacement d) with
    | Err ErrRefreshTokenAlreadyRotated => (d, PDone (RError 400 "invalid_grant"))
    | Err _ => (d, PDone (RError 500 "server_error"))
    | Ok d => (d, PDone (RTokens (r_access r) (r_refresh r) (accessTokenLifetime / second) (t_Scope current)))
    end
  | PRemove clientID =>
    if fault then (d, PDone (RStatus 500))
    else match RevokeOAuthClient now clientID d with
         | Err _ => (d, PDone (RStatus 404))
         | Ok d => (d, PDone (RStatus 200))
         end
  | PDone _ => (d, p)
  end.

Record world := World {
  db : odb;
  procs : gmap nat proc;
  now : Z;
  issued : gset string;                 (** history: hashes of the plaintexts drawn *)
  consents : list AuthorizationCode;    (** history: codes inserted *)
  exchanged : list string;              (** history: codes a pair was minted for *)
  rotated : list string                 (** history: refresh tokens exchanged *)
}.
#[export] Instance world_eta : Eta world := fun w =>
  World (db w) (procs w) (now w) (issued w) (consents w) (exchanged w) (rotated w).

Definition world_start (t : Z) : world := World (ODB ∅ ∅ ∅) ∅ t ∅ [] [] [].

Inductive event :=
| EvRegister (storageID clientID secret : string) (q : register_req)
| EvAuthorize (pid : nat) (req : authorize_req) (user : option Z) (allow : bool) (code : string)
| EvToken (pid : nat) (q : token_req)
| EvRun (pid : nat) (r : drawn) (fault : bool)
| EvRevoke (token : string)                                    (** POST /oauth/revoke *)
| EvRevokeGrant (id : string) (user : Z)                       (** the dashboard's button *)
| EvRemove (pid : nat) (user : Z) (clientID : string)
| EvSweepCodes
| EvSweepTokens
| EvTouch (accessHash : string).

(** What is remembered of a step of a request. *)
Definition log_consents (p p' : proc) (l : list AuthorizationCode) : list AuthorizationCode :=
  match p, p' with PConsent row _, PDone (RRedirectError _ _) => l | PConsent row _, _ => row :: l | _, _ => l end.
Definition log_exchanged (p p' : proc) (l : list string) : list string :=
  match p, p' with PMint _ row, PDone (RTokens _ _ _ _) => a_CodeHash row :: l | _, _ => l end.
Definition log_rotated (p p' : proc) (l : list string) : list string :=
  match p, p' with PRotate _ refresh, PDone (RTokens _ _ _ _) => HashToken refresh :: l | _, _ => l end.

(** Drawn plaintexts are new: [crypto/rand] does not repeat itself and their
    hashes do not collide. *)
Definition fresh (r : drawn) (w : world) : bool :=
  negb (bool_decide (HashToken (r_access r) ∈ issued w)) && negb (bool_decide (HashToken (r_refresh r) ∈ issued w)) &&
  negb (bool_decide (HashToken (r_access r) = HashToken (r_refresh r))).

Definition draws (p : proc) : bool := match p with PMint _ _ | PRotate _ _ => true | _ => false end.

Definition spawn (pid : nat) (p : proc) (w : world) : option world :=
  match procs w !! pid with Some _ => None | None => Some (w <| procs ::= <[pid := p]> |>) end.

Definition step (ev : event) (w : world) : option world :=
  match ev with
  | EvRegister storageID clientID secret q => Some (w <| db := (Register storageID clientID secret q (db w)).1 |>)
  | EvAuthorize pid req user allow code =>
    if bool_decide (HashToken code ∈ issued w) then None
    else spawn pid (AuthorizePOST (now w) req user allow code (db w)) (w <| issued ::= union {[HashToken code]} |>)
  | EvToken pid q => spawn pid (Token_ q (db w)) w
  | EvRun pid r fault =>
    match procs w !! pid with
    | None => None
    | Some p =>
      if draws p && negb (fresh r w) then None
      else
        let '(d, p') := advance (now w) r fault p (db w) in
        let hs := if draws p then {[HashToken (r_access r); HashToken (r_refresh r)]} else ∅ in
        Some (World d (<[pid := p']> (procs w)) (now w) (hs ∪ issued w) (log_consents p p' (consents w))
                (log_exchanged p p' (exchanged w)) (log_rotated p p' (rotated w)))
    end
  | EvRevoke token =>
    Some (if bool_decide (token = EmptyString) then w else w <| db := RevokeOAuthAccessToken (now w) (HashToken token) (db w) |>)
  | EvRevokeGrant id user =>
    Some (match RevokeOAuthAccessTokenByID (now w) id user (db w) with Ok d => w <| db := d |> | Err _ => w end)
  | EvRemove pid user clientID =>
    spawn pid (if bool_decide (clientID = EmptyString) then PDone (RStatus 400)
               else if UserHasGrantForClient user clientID (db w) then PRemove clientID else PDone (RStatus 404)) w
  | EvSweepCodes => Some (w <| db ::= SweepExpiredOAuthCodes (now w) |>)
  | EvSweepTokens => Some (w <| db ::= SweepExpiredOAuthTokens (now w) |>)
  | EvTouch h => Some (w <| db ::= UpdateOAuthTokenLastUsed (now w) h |>)
  end.

(** Each event at its own instant; time does not go back. *)
Fixpoint run (es : list (Z * event)) (w : world) : option world :=
  match es with
  | [] => Some w
  | (t, e) :: es => if t <? now w then None else w ← step e (w <| now := t |>); run es w
  end.

(* ------------------------------------------------------------------ *)
(** ** Scopes *)

Lemma ParseScope_words s : Forall scope_word (ParseScope s).
Proof.
  unfold ParseScope. destruct (bool_decide _); [done|]. apply Forall_forall. intros t Ht.
  apply list_elem_of_In, List.filter_In in Ht as [Ht _]. by eapply fields_scope_words, list_elem_of_In.
Qed.

Lemma uniq_in l : forall seen x, x ∈ uniq seen l <-> x ∈ l /\ x ∉ seen.
Proof.
  induction l as [|s l IH]; intros seen x; cbn [uniq]; [split; [by intros ?%elem_of_nil|by intros [?%elem_of_nil _]]|].
  case_bool_decide as Hs.
  - rewrite IH, elem_of_cons. split; [intros []; split; [by right|done]|]. intros [[->|?] ?]; [done|by split].
  - rewrite !elem_of_cons, IH, elem_of_cons. split.
    + intros [->|[? Hn]]; [split; [by left|done]|]. split; [by right|]. intros ?. apply Hn. by right.
    + intros [Hx Hn]. destruct (decide (x = s)) as [->|Hne]; [by left|]. right. destruct Hx as [->|Hx]; [done|]. split; [done|]. by intros [->|?].
Qed.

Lemma scope_word_nonempty s : scope_word s -> nonempty s = true.
Proof. intros [H _]. unfold nonempty. by destruct s. Qed.

(** Normalising keeps the set of words. *)
Lemma ParseScope_Normalise l x : Forall scope_word l -> x ∈ ParseScope (NormaliseScope l) <-> x ∈ l.
Proof.
  intros Hl. set (l' := merge_sort str_le (uniq [] l)).
  assert (forall y, y ∈ l' <-> y ∈ l) as Hin.
  { intros y. unfold l'. rewrite merge_sort_Permutation, uniq_in. split; [by intros [? _]|]. by intros ?; split; [|intros ?%elem_of_nil]. }
  assert (Forall scope_word l') as Hl'.
  { rewrite Forall_forall in Hl |- *. intros y Hy. by apply Hl, Hin. }
  unfold NormaliseScope, ParseScope. fold l'. rewrite <- (Hin x). case_bool_decide as He.
  - pose proof (fields_join_words l' Hl') as Hf. rewrite He in Hf. rewrite <- Hf. done.
  - rewrite fields_join_words by done. rewrite list_elem_of_In, List.filter_In, <- list_elem_of_In.
    split; [by intros [? _]|]. intros Hx. split; [done|]. apply scope_word_nonempty. rewrite Forall_forall in Hl'. by apply Hl'.
Qed.

Lemma granted_scope_ceiling client requested scope x :
  granted_scope client requested = Ok scope -> x ∈ ParseScope (NormaliseScope (ParseScope scope)) ->
  x ∈ SupportedScopes /\ (c_Scope client <> EmptyString -> x ∈ ParseScope (c_Scope client)) /\
  (requested <> EmptyString -> x ∈ ParseScope requested).
Proof.
  rewrite ParseScope_Normalise by apply ParseScope_words. unfold granted_scope.
  set (want := or_text requested (c_Scope client)). set (s := if bool_decide (c_Scope client = EmptyString) then _ else _).
  destruct (_ && _); [done|]. destruct (IsValidScope s) eqn:Hv; [|done]. cbn [negb]. intros [= <-] Hx. split.
  - unfold IsValidScope in Hv. rewrite forallb_forall in Hv. apply list_elem_of_In in Hx. apply Hv in Hx. by apply bool_decide_eq_true in Hx.
  - assert (x ∈ ParseScope want /\ (c_Scope client <> EmptyString -> x ∈ ParseScope (c_Scope client))) as [Hw Hc].
    { subst s. destruct (decide (c_Scope client = EmptyString)) as [He|He]; [by rewrite bool_decide_true in Hx|].
      rewrite bool_decide_false in Hx by done. rewrite ParseScope_Normalise in Hx.
      - unfold IntersectScope in Hx. apply list_elem_of_In, List.filter_In in Hx as [Hx Ha]. rewrite bool_decide_eq_true in Ha.
        by rewrite list_elem_of_In.
      - apply Forall_forall. intros y Hy. apply list_elem_of_In, List.filter_In in Hy as [Hy _].
        pose proof (ParseScope_words want) as Hall. rewrite Forall_forall in Hall. by apply Hall, list_elem_of_In. }
    split; [done|]. intros Hr. subst want. unfold or_text in Hw. by rewrite bool_decide_false in Hw.
Qed.

(* ------------------------------------------------------------------ *)
(** ** What one access to the database does *)

Definition client_le (c c' : OAuthClient) : Prop :=
  c' <| c_RevokedAt := c_RevokedAt c |> = c /\ (is_Some (c_RevokedAt c) -> is_Some (c_RevokedAt c')).

Definition clients_le (d d' : odb) : Prop :=
  forall k c, o_clients d !! k = Some c -> exists c', o_clients d' !! k = Some c' /\ client_le c c'.

Definition token_core (t : AccessToken) : string * string * string * Z * string * string * Z * Z :=
  (t_ID t, t_Access t, t_ClientID t, t_UserID t, t_Scope t, t_Resource t, t_IssuedAt t, t_AccessExpiresAt t).

Definition token_le (t t' : AccessToken) : Prop :=
  token_core t' = token_core t /\ (t_Refresh t' = t_Refresh t \/ t_Refresh t' = None) /\
  (is_Some (t_RevokedAt t) -> is_Some (t_RevokedAt t')).

(** An access that inserts nothing. *)
Record quiet (d d' : odb) : Prop := Quiet {
  q_clients : clients_le d d';
  q_clients' : forall k c', o_clients d' !! k = Some c' -> exists c, o_clients d !! k = Some c /\ client_le c c';
  q_tokens : forall k t', o_tokens d' !! k = Some t' -> exists t, o_tokens d !! k = Some t /\ token_le t t';
  q_codes : o_codes d' ⊆ o_codes d
}.

#[export] Instance client_le_refl : Reflexive client_le.
Proof. intros c. split; [by destruct c|done]. Qed.
#[export] Instance client_le_trans : Transitive client_le.
Proof.
  intros c1 c2 c3 [H1 R1] [H2 R2]. split; [|auto]. rewrite <- H1, <- H2. by destruct c3.
Qed.
#[export] Instance token_le_refl : Reflexive token_le.
Proof. intros t. split_and!; [done|by left|done]. Qed.
#[export] Instance token_le_trans : Transitive token_le.
Proof.
  intros t1 t2 t3 (H1 & R1 & S1) (H2 & R2 & S2). split_and!; [by rewrite H2| |auto]. destruct R2 as [->| ->]; auto.
Qed.
#[export] Instance clients_le_refl : Reflexive clients_le.
Proof. intros d k c Hc. by exists c. Qed.
#[export] Instance clients_le_trans : Transitive clients_le.
Proof.
  intros d1 d2 d3 H1 H2 k c Hc. destruct (H1 _ _ Hc) as (c2 & Hc2 & L). destruct (H2 _ _ Hc2) as (c3 & Hc3 & L').
  exists c3. split; [done|by etrans].
Qed.
#[export] Instance quiet_refl : Reflexive quiet.
Proof. intros d. split; [intros k c Hk; by exists c|intros k c; by exists c|intros k t; by exists t|done]. Qed.
#[export] Instance quiet_trans : Transitive quiet.
Proof.
  intros d1 d2 d3 [A1 B1 C1 D1] [A2 B2 C2 D2]. split; [by etrans| | |by etrans].
  - intros k c3 Hc. destruct (B2 _ _ Hc) as (c2 & Hc2 & ?). destruct (B1 _ _ Hc2) as (c1 & Hc1 & ?).
    exists c1. split; [done|by etrans].
  - intros k t3 Ht. destruct (C2 _ _ Ht) as (t2 & Ht2 & ?). destruct (C1 _ _ Ht2) as (t1 & Ht1 & ?).
    exists t1. split; [done|by etrans].
Qed.

Lemma update_quiet p f d : (forall t, p t = true -> token_le t (f t)) -> quiet d (update_tokens p f d).1.
Proof.
  intros Hf. split; [intros k c Hk; by exists c|intros k c; by exists c| |done].
  intros k t'. cbn. rewrite lookup_fmap. intros (t & Ht & Hk)%fmap_Some. exists t. split; [done|]. subst t'.
  destruct (p t) eqn:E; [by apply Hf|done].
Qed.

Lemma update_quiet' p f d d' n : update_tokens p f d = (d', n) -> (forall t, p t = true -> token_le t (f t)) -> quiet d d'.
Proof. intros E Hf. apply (update_quiet p f d) in Hf. by rewrite E in Hf. Qed.

Lemma filter_tokens_quiet (P : string * AccessToken -> Prop) `{forall x, Decision (P x)} d :
  quiet d (d <| o_tokens ::= filter P |>).
Proof.
  split; [intros k c Hk; by exists c|intros k c; by exists c| |done]. intros k t [Ht _]%map_lookup_filter_Some. by exists t.
Qed.

Lemma filter_codes_quiet (P : string * AuthorizationCode -> Prop) `{forall x, Decision (P x)} d :
  quiet d (d <| o_codes ::= filter P |>).
Proof. split; [intros k c Hk; by exists c|intros k c; by exists c|intros k t; by exists t|cbn; apply map_filter_subseteq]. Qed.

Lemma revoked_le t now : token_le t (t <| t_RevokedAt := stamp (t_RevokedAt t) now |>).
Proof. split_and!; [done|by left|]. cbn. intros [x ->]. by eexists. Qed.

Lemma rotated_le t now : token_le t (t <| t_Refresh := None |> <| t_RevokedAt := stamp (t_RevokedAt t) now |>).
Proof. split_and!; [done|by right|]. cbn. intros [x ->]. by eexists. Qed.

Lemma RevokeOAuthAccessToken_quiet now h d : quiet d (RevokeOAuthAccessToken now h d).
Proof. apply update_quiet. intros t _. apply revoked_le. Qed.

Lemma UpdateOAuthTokenLastUsed_quiet now h d : quiet d (UpdateOAuthTokenLastUsed now h d).
Proof. apply update_quiet. intros t _. split_and!; [done|by left|done]. Qed.

Lemma RevokeOAuthAccessTokenByID_quiet now id u d d' : RevokeOAuthAccessTokenByID now id u d = Ok d' -> quiet d d'.
Proof.
  unfold RevokeOAuthAccessTokenByID. destruct (update_tokens _ _ d) as [d1 n] eqn:E. destruct n; [done|]. intros [= <-].
  eapply update_quiet'; [exact E|]. intros t _. split_and!; [done|by left|]. intros _. by eexists.
Qed.

Lemma RevokeOAuthClient_quiet now cid d d' : RevokeOAuthClient now cid d = Ok d' -> quiet d d'.
Proof.
  unfold RevokeOAuthClient. destruct (o_clients d !! cid) as [c|] eqn:Ec; [|done].
  set (d1 := d <| o_clients ::= _ |>).
  assert (quiet d d1) as H1.
  { assert (client_le c (c <| c_RevokedAt := stamp (c_RevokedAt c) now |>)) as Hc.
    { split; [by destruct c|]. intros [x Hx]. cbn. rewrite Hx. by eexists. }
    split; [| |intros k t; by exists t|done].
    - intros k c0 Hk. cbn. destruct (decide (k = cid)) as [->|Hne].
      + rewrite Ec in Hk. injection Hk as <-. rewrite lookup_insert_eq. by eexists.
      + rewrite lookup_insert_ne by done. by exists c0.
    - intros k c'. cbn. intros [[<- <-]|[Hne ?]]%lookup_insert_Some; [by exists c|by exists c']. }
  destruct (update_tokens _ _ d1) as [d2 n] eqn:E. intros [= <-]. etrans; [exact H1|]. etrans; [|apply filter_codes_quiet].
  eapply update_quiet'; [exact E|]. intros t _. apply rotated_le.
Qed.

(** The insertion of a token, alone and after a rotation. *)
Lemma InsertOAuthAccessToken_spec t d d' : InsertOAuthAccessToken t d = Ok d' -> d' = d <| o_tokens ::= <[t_ID t := t]> |>.
Proof. unfold InsertOAuthAccessToken. destruct (existsb _ _); [done|]. by intros [= <-]. Qed.

Lemma RotateOAuthRefreshToken_spec now h t d d' : RotateOAuthRefreshToken now h t d = Ok d' ->
  exists d1, quiet d d1 /\ d' = d1 <| o_tokens ::= <[t_ID t := t]> |> /\
    (exists k t0, o_tokens d !! k = Some t0 /\ t_Refresh t0 = Some h) /\
    (forall k t1, o_tokens d1 !! k = Some t1 -> t_Refresh t1 <> Some h).
Proof.
  unfold RotateOAuthRefreshToken. destruct (update_tokens _ _ d) as [d1 n] eqn:E. destruct n; [done|].
  intros ->%InsertOAuthAccessToken_spec. exists d1. split_and!; [|done|..].
  - eapply update_quiet'; [exact E|]. intros t0 _. apply rotated_le.
  - unfold update_tokens in E. injection E as _ Hn. destruct (List.filter _ _) as [|t0 l] eqn:Ef; [done|].
    assert (In t0 (t0 :: l)) as Hin by by left. rewrite <- Ef in Hin. apply List.filter_In in Hin as [Hin Hp].
    apply list_elem_of_In, list_elem_of_fmap in Hin as ([k t1] & -> & Hk%elem_of_map_to_list). apply bool_decide_eq_true in Hp. eauto.
  - unfold update_tokens in E. injection E as <- _. intros k t1. cbn. rewrite lookup_fmap. intros (t0 & _ & ->)%fmap_Some.
    case_bool_decide; done.
Qed.

(* ------------------------------------------------------------------ *)
(** ** Where tokens come from *)

(** A consent stayed under the ceiling of a registered client. *)
Definition consent_ok (d : odb) (row : AuthorizationCode) : Prop :=
  a_UsedAt row = None /\ a_CodeChallengeMethod row = "S256"%string /\
  exists c, o_clients d !! a_ClientID row = Some c /\
    MatchRedirectURI (c_RedirectURIs c) (a_RedirectURI row) = true /\
    forall x, x ∈ ParseScope (a_Scope row) -> x ∈ SupportedScopes /\ x ∈ ParseScope (c_Scope c).

Definition unused (row : AuthorizationCode) : AuthorizationCode := row <| a_UsedAt := None |>.

(** The grant of a token is that of a consent. *)
Definition from_consent (l : list AuthorizationCode) (t : AccessToken) : Prop :=
  exists row, row ∈ l /\ t_ClientID t = a_ClientID row /\ t_UserID t = a_UserID row /\
    t_Scope t = a_Scope row /\ t_Resource t = a_Resource row.

Definition proc_ok (d : odb) (l : list AuthorizationCode) (p : proc) : Prop :=
  match p with
  | PConsent row _ => consent_ok d row
  | PMint client row => a_ClientID row = c_ClientID client /\ unused row ∈ l
  | PRotate current _ => from_consent l current
  | _ => True
  end.

Record grounded (w : world) : Prop := Grounded {
  g_clients : forall k c, o_clients (db w) !! k = Some c -> c_ClientID c = k /\ c_Scope c <> EmptyString;
  g_consents : forall row, row ∈ consents w -> consent_ok (db w) row;
  g_codes : forall h c, o_codes (db w) !! h = Some c -> unused c ∈ consents w;
  g_procs : forall pid p, procs w !! pid = Some p -> proc_ok (db w) (consents w) p;
  g_tokens : forall k t, o_tokens (db w) !! k = Some t ->
    from_consent (consents w) t /\ t_AccessExpiresAt t = t_IssuedAt t + accessTokenLifetime /\ t_IssuedAt t <= now w
}.

Lemma client_le_core c c' : client_le c c' ->
  c_ClientID c' = c_ClientID c /\ c_Scope c' = c_Scope c /\ c_RedirectURIs c' = c_RedirectURIs c.
Proof. intros [H _]. by rewrite <- H. Qed.

Lemma consent_ok_mono d d' row : clients_le d d' -> consent_ok d row -> consent_ok d' row.
Proof.
  intros Hle (Hu & Hm & c & Hc & Hr & Hs). destruct (Hle _ _ Hc) as (c' & Hc' & (_ & Es & Er)%client_le_core).
  split_and!; [done|done|]. exists c'. by rewrite Es, Er.
Qed.

Lemma from_consent_mono l l' t : l ⊆ l' -> from_consent l t -> from_consent l' t.
Proof. intros Hl (row & Hr & H). exists row. split; [by apply Hl|done]. Qed.

Lemma from_consent_le l t t' : token_le t t' -> from_consent l t -> from_consent l t'.
Proof.
  intros (E & _ & _) (row & Hr & H1 & H2 & H3 & H4). injection E as _ _ E1 E2 E3 E4 _ _. exists row.
  by rewrite E1, E2, E3, E4.
Qed.

Lemma proc_ok_mono d d' l l' p : clients_le d d' -> l ⊆ l' -> proc_ok d l p -> proc_ok d' l' p.
Proof.
  intros Hd Hl. destruct p; cbn; try done.
  - by apply consent_ok_mono.
  - intros [? ?]. split; [done|by apply Hl].
  - by apply from_consent_mono.
Qed.

Definition timely (t : AccessToken) (at_ : Z) : Prop :=
  t_AccessExpiresAt t = t_IssuedAt t + accessTokenLifetime /\ t_IssuedAt t <= at_.

(** How an access to the database keeps the invariant. *)
Lemma grounded_change w d' ps t iss l ex ro : grounded w -> clients_le (db w) d' ->
  (forall k c, o_clients d' !! k = Some c -> c_ClientID c = k /\ c_Scope c <> EmptyString) ->
  (forall h c, o_codes d' !! h = Some c -> unused c ∈ l) ->
  (forall k t', o_tokens d' !! k = Some t' ->
     (exists t0, o_tokens (db w) !! k = Some t0 /\ token_le t0 t') \/ from_consent l t' /\ timely t' t) ->
  now w <= t -> consents w ⊆ l -> (forall row, row ∈ l -> consent_ok (db w) row) ->
  (forall pid p, ps !! pid = Some p -> proc_ok (db w) l p) ->
  grounded (World d' ps t iss l ex ro).
Proof.
  intros [_ _ _ _ G5] Q1 Qc Q4 Q3 Ht Hl Hc Hp. split; cbn; try done.
  - intros row Hr. eapply consent_ok_mono; [done|by apply Hc].
  - intros pid p Hpid. apply (proc_ok_mono (db w) _ l); [done|done|by apply (Hp pid)].
  - intros k t' Hk. destruct (Q3 _ _ Hk) as [(t0 & Hk0 & Hle)|(F1 & F2 & F3)]; [|done].
    destruct (G5 _ _ Hk0) as (F1 & F2 & F3).
    split; [eapply from_consent_le; [done|by eapply from_consent_mono]|]. destruct Hle as (E & _). injection E as _ _ _ _ _ _ -> ->.
    split; [done|lia].
Qed.

(** Accesses that insert nothing. *)
Lemma grounded_quiet w d' ps t iss ex ro : grounded w -> quiet (db w) d' -> now w <= t ->
  (forall pid p, ps !! pid = Some p -> proc_ok (db w) (consents w) p) ->
  grounded (World d' ps t iss (consents w) ex ro).
Proof.
  intros Hg [Q1 Q2 Q3 Q4] Ht Hp. apply (grounded_change w); try done; [| | |by apply Hg].
  - intros k c' Hk. destruct (Q2 _ _ Hk) as (c & Hk' & (E1 & E2 & _)%client_le_core). rewrite E1, E2. by apply Hg.
  - intros h c Hh. eapply (g_codes _ Hg h). by eapply lookup_weaken.
  - intros k t' Hk. left. by apply Q3.
Qed.

Lemma procs_insert (P : proc -> Prop) (ps : gmap nat proc) pid p :
  (forall pid p, ps !! pid = Some p -> P p) -> P p -> forall pid' p', <[pid := p]> ps !! pid' = Some p' -> P p'.
Proof. intros Hps Hp pid' p' [[_ <-]|[_ H]]%lookup_insert_Some; [done|by eapply Hps]. Qed.

Lemma Register_spec sid cid sec q d : (Register sid cid sec q d).1 = d \/
  exists c, (Register sid cid sec q d).1 = d <| o_clients ::= <[cid := c]> |> /\ o_clients d !! cid = None /\
    c_ClientID c = cid /\ c_Scope c <> EmptyString /\ c_RevokedAt c = None /\
    ValidateRedirectURIs (c_RedirectURIs c) = None /\ IsValidScope (c_Scope c) = true.
Proof.
  unfold Register. destruct (ValidateRedirectURIs _) eqn:Er; [by left|]. destruct (_ || _ || _); [by left|].
  destruct (IsValidScope _) eqn:Es; [|by left]. cbn [negb]. set (c := Client _ _ _ _ _ _ _ _ _ _ _).
  destruct (InsertOAuthClient c d) as [d'|] eqn:E; [|by left]. right. exists c. unfold InsertOAuthClient in E.
  destruct (existsb _ _) eqn:Ex; [done|]. injection E as <-. split_and!; try done.
  - destruct (o_clients d !! cid) as [c'|] eqn:Ec; [|done]. exfalso. apply not_true_iff_false in Ex. apply Ex.
    apply existsb_exists. exists (cid, c'). split; [by apply list_elem_of_In, elem_of_map_to_list|]. by rewrite bool_decide_true.
  - cbn. unfold or_text. by case_bool_decide.
Qed.

Lemma AuthorizePOST_ok w req user allow code : grounded w ->
  proc_ok (db w) (consents w) (AuthorizePOST (now w) req user allow code (db w)).
Proof.
  intros Hg. unfold AuthorizePOST. set (method := or_text _ _). destruct (_ || _ || _) eqn:Ev; [done|].
  destruct (GetOAuthClientByID _ _) as [c|] eqn:Ec; [|done]. destruct (bool_decide (is_Some (c_RevokedAt c))); [done|].
  destruct (MatchRedirectURI _ _) eqn:Em; [|done]. destruct user as [uid|]; [|done]. destruct allow; [|done]. cbn [negb].
  destruct (granted_scope c _) as [scope|] eqn:Es; [|done]. cbn. destruct (g_clients _ Hg _ _ Ec) as [Hk Hs].
  split_and!; [done|by zbool|]. exists c. cbn. rewrite Hk. split_and!; [done|done|].
  intros x Hx. destruct (granted_scope_ceiling _ _ _ _ Es Hx) as (? & Hc & _). auto.
Qed.

Lemma Token_ok w l q : proc_ok (db w) l (Token_ q (db w)).
Proof. unfold Token_. destruct (GetOAuthClientByID _ _); [|done]. by repeat case_match. Qed.

Lemma check_refresh_ok w client refresh : grounded w ->
  proc_ok (db w) (consents w) (check_refresh (now w) client refresh (db w)).
Proof.
  intros Hg. unfold check_refresh. destruct (GetOAuthAccessTokenByRefreshHash _ _) as [t|] eqn:Et; [|done].
  assert (from_consent (consents w) t) as Ht.
  { apply List.find_some in Et as [Hin _].
    apply list_elem_of_In, list_elem_of_fmap in Hin as ([k t0] & -> & Hk%elem_of_map_to_list). by apply (g_tokens _ Hg k). }
  by repeat case_match.
Qed.

Lemma clients_le_same d d' : o_clients d = o_clients d' -> clients_le d d'.
Proof. intros E k c Hc. exists c. by rewrite <- E. Qed.

Lemma check_code_ok d l client v ruri res row : unused row ∈ l -> proc_ok d l (check_code client v ruri res row).
Proof.
  intros Hr. unfold check_code. destruct (bool_decide (a_ClientID row = c_ClientID client)) eqn:Ec; [|done]. cbn [negb].
  zbool. by repeat case_match.
Qed.

(** One access of a request. *)
Lemma advance_grounded w pid r fault p iss ex ro : grounded w -> procs w !! pid = Some p ->
  let '(d', p') := advance (now w) r fault p (db w) in
  grounded (World d' (<[pid := p']> (procs w)) (now w) iss (log_consents p p' (consents w)) ex ro).
Proof.
  intros Hg Hp. pose proof (g_procs _ Hg _ _ Hp) as Hok. pose proof (g_procs _ Hg) as Hps.
  assert (forall p' iss ex ro, proc_ok (db w) (consents w) p' ->
    grounded (World (db w) (<[pid := p']> (procs w)) (now w) iss (consents w) ex ro)) as Hsame.
  { intros p' ? ? ? Hp'. apply (grounded_quiet w); [done|done|lia|]. by apply procs_insert. }
  destruct p as [row code|client code v ruri res|client row|client refresh|current refresh|cid|resp]; cbn [advance log_consents].
  - destruct fault; [by apply Hsame|]. unfold InsertOAuthAuthorizationCode. destruct (o_codes (db w) !! _) eqn:Ec; [by apply Hsame|].
    set (resp := match Parse (a_RedirectURI row) with Some _ => _ | None => _ end).
    assert (match PDone resp with PDone (RRedirectError _ _) => consents w | _ => row :: consents w end = row :: consents w) as ->
      by (subst resp; by destruct (Parse _)).
    cbn in Hok. apply (grounded_change w); try done; try (by apply clients_le_same); cbn.
    + apply Hg.
    + intros h c [[<- <-]|[_ Hc]]%lookup_insert_Some; [|right; by apply (g_codes _ Hg h)].
      assert (unused row = row) as -> by (destruct Hok as (Hu & _), row; cbn in Hu; by subst). left.
    + intros k t Hk. left. by exists t.
    + intros x Hx. by right.
    + intros x [->|Hx]%elem_of_cons; [done|]. by apply Hg.
    + apply procs_insert; [|done]. intros pid' p' Hp'. eapply proc_ok_mono; [done| |by apply (Hps pid')]. intros x Hx. by right.
  - destruct fault; [by apply Hsame|]. unfold RedeemOAuthAuthorizationCode.
    destruct (o_codes (db w) !! HashToken code) as [c|] eqn:Ec; [|by apply Hsame]. destruct (_ && _); [|by apply Hsame].
    pose proof (g_codes _ Hg _ _ Ec) as Hc. cbn [fst snd].
    apply (grounded_change w); try done; try (by apply clients_le_same); cbn.
    + apply Hg.
    + intros h c' [[<- <-]|[_ Hc']]%lookup_insert_Some; [exact Hc|by apply (g_codes _ Hg h)].
    + intros k t Hk. left. by exists t.
    + apply Hg.
    + apply procs_insert; [done|]. by apply check_code_ok.
  - destruct fault; [by apply Hsame|].
    destruct (mintTokenPair _ _ _ _ _ _ _) as [d'|] eqn:Em; [|by apply Hsame].
    unfold mintTokenPair in Em. apply InsertOAuthAccessToken_spec in Em as ->. destruct Hok as [Hc Hr].
    apply (grounded_change w); try done; try (by apply clients_le_same); cbn.
    + apply Hg.
    + intros h c Hh. by apply (g_codes _ Hg h).
    + intros k t [[_ <-]|[_ Hk]]%lookup_insert_Some; [right|left; by exists t].
      split; [by exists (unused row)|]. split; cbn; [done|lia].
    + apply Hg.
    + by apply procs_insert.
  - apply Hsame. destruct fault; [done|]. by apply check_refresh_ok.
  - destruct fault; [by apply Hsame|].
    destruct (RotateOAuthRefreshToken _ _ _ _) as [d'|[]] eqn:Er; [|by apply Hsame..].
    apply RotateOAuthRefreshToken_spec in Er as (d1 & [Q1 Q2 Q3 Q4] & -> & _).
    apply (grounded_change w); try done; cbn.
    + intros k c' Hk. destruct (Q2 _ _ Hk) as (c & Hk' & (E1 & E2 & _)%client_le_core). rewrite E1, E2. by apply Hg.
    + intros h c Hh. eapply (g_codes _ Hg h). by eapply lookup_weaken.
    + intros k t [[_ <-]|[_ Hk]]%lookup_insert_Some; [right|left; by apply Q3]. split; [exact Hok|]. split; cbn; [done|lia].
    + apply Hg.
    + by apply procs_insert.
  - destruct fault; [by apply Hsame|].
    destruct (RevokeOAuthClient _ _ _) as [d'|] eqn:Er; [|by apply Hsame]. apply RevokeOAuthClient_quiet in Er.
    apply (grounded_quiet w); [done|done|lia|]. by apply procs_insert.
  - by apply Hsame.
Qed.

Lemma spawn_spec pid p w w' : spawn pid p w = Some w' ->
  procs w !! pid = None /\ w' = w <| procs ::= <[pid := p]> |>.
Proof. unfold spawn. destruct (procs w !! pid); [done|]. by intros [= <-]. Qed.

Lemma step_grounded ev w w' : grounded w -> step ev w = Some w' -> grounded w'.
Proof.
  intros Hg. assert (forall d', quiet (db w) d' -> grounded (w <| db := d' |>)) as Hq.
  { intros d' Hq. apply (grounded_quiet w); [done|done|lia|apply Hg]. }
  assert (forall pid p iss, proc_ok (db w) (consents w) p ->
    grounded (World (db w) (<[pid := p]> (procs w)) (now w) iss (consents w) (exchanged w) (rotated w))) as Hsp.
  { intros pid p iss Hp. apply (grounded_quiet w); [done|done|lia|]. by apply procs_insert, Hp; apply Hg. }
  destruct ev as [sid cid sec q|pid req user allow code|pid q|pid r fault|token|id user|pid user cid| | |h]; cbn [step].
  - intros [= <-]. destruct (Register_spec sid cid sec q (db w)) as [->|(c & -> & Hn & Hc & Hs & _)]; [by apply Hq|].
    apply (grounded_change w); try apply Hg; try done; cbn.
    + intros k c' Hk. exists c'. split; [|done]. cbn. rewrite lookup_insert_ne; [done|]. intros <-. by rewrite Hn in Hk.
    + intros k c' [[<- <-]|[_ Hk]]%lookup_insert_Some; [done|by apply Hg].
    + intros k t Hk. left. by exists t.
  - case_bool_decide; [done|]. intros [_ ->]%spawn_spec. apply Hsp. by apply AuthorizePOST_ok.
  - intros [_ ->]%spawn_spec. apply Hsp, Token_ok.
  - destruct (procs w !! pid) as [p|] eqn:Ep; [|done]. destruct (draws p && negb (fresh r w)); [done|].
    set (hs := if draws p then _ else _).
    pose proof (fun ex ro => advance_grounded w pid r fault p (hs ∪ issued w) ex ro Hg Ep) as H.
    destruct (advance _ _ _ _ _) as [d' p']. intros [= <-]. apply H.
  - intros [= <-]. case_bool_decide; [done|]. apply Hq, RevokeOAuthAccessToken_quiet.
  - intros [= <-]. destruct (RevokeOAuthAccessTokenByID _ _ _ _) eqn:E; [|done]. by eapply Hq, RevokeOAuthAccessTokenByID_quiet.
  - intros [_ ->]%spawn_spec. apply Hsp. by repeat case_match.
  - intros [= <-]. apply Hq, filter_codes_quiet.
  - intros [= <-]. apply Hq, filter_tokens_quiet.
  - intros [= <-]. apply Hq, UpdateOAuthTokenLastUsed_quiet.
Qed.

Lemma tick_grounded w t : now w <= t -> grounded w -> grounded (w <| now := t |>).
Proof. intros Ht Hg. apply (grounded_quiet w); [done|done|done|apply Hg]. Qed.

(** A property of worlds that ticks and steps keep holds after every run. *)
Lemma run_ind (P : world -> Prop) :
  (forall w t, now w <= t -> P w -> P (w <| now := t |>)) ->
  (forall ev w w', P w -> step ev w = Some w' -> P w') ->
  forall es w w', P w -> run es w = Some w' -> P w'.
Proof.
  intros Ht Hs. induction es as [|[t e] es IH]; cbn [run]; intros w w' Hp; [by intros [= <-]|].
  destruct (t <? now w) eqn:E; [done|]. zbool. intros (w1 & H1 & H2)%bind_Some. eapply IH; [|done]. eapply Hs; [|done]. by apply Ht.
Qed.

Lemma start_grounded t : grounded (world_start t).
Proof. split; cbn; [done|by intros ? ?%elem_of_nil|done|done|done]. Qed.

Lemma run_grounded es w w' : grounded w -> run es w = Some w' -> grounded w'.
Proof. apply run_ind; [intros; by apply tick_grounded|intros; by eapply step_grounded]. Qed.

(* ------------------------------------------------------------------ *)
(** ** What is spent once *)

(** The code a request in flight carries: to be inserted, or redeemed and to
    be exchanged. *)
Definition proc_code (p : proc) : option string :=
  match p with PConsent row _ | PMint _ row => Some (a_CodeHash row) | _ => None end.

Inductive place := InFlight (pid : nat) | InTable.

Definition holds (w : world) (h : string) (l : place) : Prop :=
  match l with
  | InFlight pid => procs w !! pid ≫= proc_code = Some h
  | InTable => exists c, o_codes (db w) !! h = Some c /\ a_UsedAt c = None
  end.

(** An unspent code is in one place and was never exchanged. *)
Record codes_once (w : world) : Prop := CodesOnce {
  n_one : forall h l l', holds w h l -> holds w h l' -> l = l';
  n_unspent : forall h l, holds w h l -> h ∈ issued w /\ h ∉ exchanged w;
  n_nodup : NoDup (exchanged w);
  n_issued : forall h, h ∈ exchanged w -> h ∈ issued w;
  n_key : forall h c, o_codes (db w) !! h = Some c -> a_CodeHash c = h
}.

Lemma codes_move w w' : codes_once w -> issued w ⊆ issued w' -> exchanged w' = exchanged w ->
  (forall h c, o_codes (db w') !! h = Some c -> a_CodeHash c = h) ->
  (forall h, exists f, (forall l l', f l = f l' -> l = l') /\ forall l, holds w' h l -> holds w h (f l)) ->
  codes_once w'.
Proof.
  intros [N1 N2 N3 N4 N5] Hi He Hk Hf. split; rewrite ?He; try done.
  - intros h l l' Hl Hl'. destruct (Hf h) as (f & Hinj & Hfl). apply Hinj. by eapply N1; apply Hfl.
  - intros h l Hl. destruct (Hf h) as (f & _ & Hfl). destruct (N2 h (f l)) as [? ?]; [by apply Hfl|]. split; [by apply Hi|done].
  - intros h Hh. by apply Hi, N4.
Qed.

Lemma codes_keep w w' : codes_once w -> issued w ⊆ issued w' -> exchanged w' = exchanged w ->
  o_codes (db w') ⊆ o_codes (db w) ->
  (forall pid h, procs w' !! pid ≫= proc_code = Some h -> procs w !! pid ≫= proc_code = Some h) ->
  codes_once w'.
Proof.
  intros Hn Hi He Hc Hp. apply (codes_move w); try done.
  - intros h c Hh. apply (n_key _ Hn). by eapply lookup_weaken.
  - intros h. exists id. split; [done|]. intros [pid|]; cbn; [apply Hp|]. intros (c & Hh & Hu). exists c. split; [by eapply lookup_weaken|done].
Qed.

Definition swap (pid : nat) (l : place) : place :=
  match l with InTable => InFlight pid | InFlight pid' => if decide (pid' = pid) then InTable else l end.

Lemma swap_inj pid l l' : swap pid l = swap pid l' -> l = l'.
Proof. destruct l, l'; cbn; repeat destruct (decide _); congruence. Qed.

Lemma code_after pid p' (ps : gmap nat proc) pid' h :
  <[pid := p']> ps !! pid' ≫= proc_code = Some h ->
  pid' = pid /\ proc_code p' = Some h \/ pid' <> pid /\ ps !! pid' ≫= proc_code = Some h.
Proof.
  destruct (decide (pid' = pid)) as [->|Hne]; [rewrite lookup_insert_eq; by left|]. rewrite lookup_insert_ne by done. by right.
Qed.

Lemma code_drop pid p p' (ps : gmap nat proc) pid' h : ps !! pid = Some p ->
  (proc_code p' = Some h -> proc_code p = Some h) ->
  <[pid := p']> ps !! pid' ≫= proc_code = Some h -> ps !! pid' ≫= proc_code = Some h.
Proof. intros Hp Hc [[-> H]|[_ H]]%code_after; [|done]. rewrite Hp. cbn. by apply Hc. Qed.

Lemma check_code_code client v ruri res row : let p := check_code client v ruri res row in
  proc_code p = None \/ proc_code p = Some (a_CodeHash row).
Proof. unfold check_code. repeat case_match; auto. Qed.

Lemma check_refresh_code now client refresh d : proc_code (check_refresh now client refresh d) = None.
Proof. unfold check_refresh. by repeat case_match. Qed.

Lemma advance_codes w pid r fault p iss ro : codes_once w -> procs w !! pid = Some p -> issued w ⊆ iss ->
  let '(d', p') := advance (now w) r fault p (db w) in
  codes_once (World d' (<[pid := p']> (procs w)) (now w) iss (log_consents p p' (consents w)) (log_exchanged p p' (exchanged w)) ro).
Proof.
  intros Hn Hp Hi.
  assert (forall d' p' l, o_codes d' ⊆ o_codes (db w) -> (forall h, proc_code p' = Some h -> proc_code p = Some h) ->
    codes_once (World d' (<[pid := p']> (procs w)) (now w) iss l (exchanged w) ro)) as Hkeep.
  { intros d' p' l Hd Hc. apply (codes_keep w); try done. cbn. intros pid' h. eapply code_drop; [done|apply Hc]. }
  destruct p as [row code|client code v ruri res|client row|client refresh|current refresh|cid|resp]; cbn [advance log_exchanged].
  - destruct fault; [by apply Hkeep|]. unfold InsertOAuthAuthorizationCode. destruct (o_codes (db w) !! _) eqn:Ec; [by apply Hkeep|].
    apply (codes_move w); try done; cbn.
    + intros h c [[<- <-]|[_ Hc]]%lookup_insert_Some; [done|by apply (n_key _ Hn)].
    + intros h. destruct (decide (h = a_CodeHash row)) as [->|Hne].
      * exists (swap pid). split; [apply swap_inj|]. intros [pid'|]; cbn.
        -- intros [[_ ?]|[? H]]%code_after; [done|]. by rewrite decide_False.
        -- intros _. by rewrite Hp.
      * exists id. split; [done|]. intros [pid'|]; cbn; [by intros [[_ ?]|[_ H]]%code_after|]. by rewrite lookup_insert_ne by done.
  - destruct fault; [by apply Hkeep|]. unfold RedeemOAuthAuthorizationCode.
    destruct (o_codes (db w) !! HashToken code) as [c|] eqn:Ec; [|by apply Hkeep]. destruct (_ && _) eqn:Eu; [|by apply Hkeep].
    apply andb_true_iff in Eu as [Eu%bool_decide_eq_true _]. pose proof (n_key _ Hn _ _ Ec) as Hk.
    apply (codes_move w); try done; cbn.
    + intros h c' [[<- <-]|[_ Hc']]%lookup_insert_Some; [exact Hk|by apply (n_key _ Hn)].
    + set (c' := c <| a_UsedAt := Some (now w) |>). destruct (check_code_code client v ruri res c') as [E|E]; cbn in E.
      * intros h. exists id. split; [done|]. intros [pid'|]; cbn.
        -- intros [[_ H]|[_ H]]%code_after; [discriminate (eq_trans (eq_sym E) H)|done].
        -- intros (c0 & [[_ <-]|[_ Hc0]]%lookup_insert_Some & Hu0); [done|by exists c0].
      * intros h. destruct (decide (h = HashToken code)) as [->|Hne].
        -- exists (swap pid). split; [apply swap_inj|]. intros [pid'|]; cbn.
           ++ intros [[-> _]|[? H]]%code_after; [rewrite decide_True by done; by exists c|by rewrite decide_False].
           ++ rewrite lookup_insert_eq. by intros (c0 & [= <-] & ?).
        -- exists id. split; [done|]. intros [pid'|]; cbn.
           ++ intros [[_ H]|[_ H]]%code_after; [|done]. pose proof (eq_trans (eq_sym E) H) as [= H']. congruence.
           ++ by rewrite lookup_insert_ne by done.
  - destruct fault; [by apply Hkeep|]. destruct (mintTokenPair _ _ _ _ _ _ _) as [d'|] eqn:Em; [|by apply Hkeep].
    unfold mintTokenPair in Em. apply InsertOAuthAccessToken_spec in Em as ->.
    assert (holds w (a_CodeHash row) (InFlight pid)) as Hh by (cbn; by rewrite Hp).
    destruct (n_unspent _ Hn _ _ Hh) as [Hiss Hnx].
    set (w' := World _ _ _ _ _ _ _).
    assert (forall h l, holds w' h l -> holds w h l /\ l <> InFlight pid) as Hw'.
    { intros h [pid'|]; cbn; [|by intros H; split]. intros [[_ ?]|[? H]]%code_after; [done|]. split; [done|congruence]. }
    split; cbn.
    + intros h l l' [Hl _]%Hw' [Hl' _]%Hw'. by eapply (n_one _ Hn).
    + intros h l [Hl Hne]%Hw'. destruct (n_unspent _ Hn _ _ Hl) as [? ?]. split; [by apply Hi|].
      intros [->|?]%elem_of_cons; [|done]. apply Hne. by eapply (n_one _ Hn).
    + constructor; [done|apply Hn].
    + intros h [->|Hx]%elem_of_cons; apply Hi; [done|by apply (n_issued _ Hn)].
    + apply (n_key _ Hn).
  - apply Hkeep; [done|]. intros h. destruct fault; [done|]. by rewrite check_refresh_code.
  - destruct fault; [by apply Hkeep|].
    destruct (RotateOAuthRefreshToken _ _ _ _) as [d'|[]] eqn:Er; [|by apply Hkeep..].
    apply RotateOAuthRefreshToken_spec in Er as (d1 & [_ _ _ Q4] & -> & _). by apply Hkeep.
  - destruct fault; [by apply Hkeep|]. destruct (RevokeOAuthClient _ _ _) as [d'|] eqn:Er; [|by apply Hkeep].
    apply RevokeOAuthClient_quiet in Er. apply Hkeep; [apply Er|done].
  - by apply Hkeep.
Qed.

Lemma spawn_codes w pid p : codes_once w -> procs w !! pid = None -> proc_code p = None ->
  codes_once (w <| procs ::= <[pid := p]> |>).
Proof.
  intros Hn Hp Hc. apply (codes_keep w); try done. cbn. intros pid' h [[_ H]|[_ H]]%code_after; [congruence|done].
Qed.

Lemma Token_code q d : proc_code (Token_ q d) = None.
Proof. unfold Token_. destruct (GetOAuthClientByID _ _); [|done]. by repeat case_match. Qed.

Lemma AuthorizePOST_code now req user allow code d : let p := AuthorizePOST now req user allow code d in
  proc_code p = None \/ proc_code p = Some (HashToken code).
Proof. unfold AuthorizePOST. repeat case_match; auto. Qed.

Lemma spawn_fresh_codes w pid p h : codes_once w -> h ∉ issued w -> procs w !! pid = None ->
  proc_code p = None \/ proc_code p = Some h ->
  codes_once (World (db w) (<[pid := p]> (procs w)) (now w) ({[h]} ∪ issued w) (consents w) (exchanged w) (rotated w)).
Proof.
  intros Hn Hh Hp Hc. set (w' := World _ _ _ _ _ _ _).
  assert (forall h' l, holds w' h' l -> h' = h /\ l = InFlight pid \/ h' <> h /\ holds w h' l) as Hw'.
  { assert (forall h' l, holds w h' l -> h' <> h) as Hne by (intros h' l Hl ->; by destruct (n_unspent _ Hn _ _ Hl)).
    intros h' [pid'|]; cbn; intros Hl; [|right; by split; [eapply (Hne _ InTable)|]].
    apply code_after in Hl as [[-> H]|[_ H]]; [left; destruct Hc; split; congruence|].
    right. split; [by eapply (Hne _ (InFlight pid'))|done]. }
  split; cbn.
  - intros h' l l' [[-> ->]|[? H]]%Hw' [[? ->]|[? H']]%Hw'; [done|done|done|]. by eapply (n_one _ Hn).
  - intros h' l [[-> ->]|[? H]]%Hw'.
    + split; [by apply elem_of_union_l, elem_of_singleton|]. intros Hx. by apply Hh, (n_issued _ Hn).
    + destruct (n_unspent _ Hn _ _ H). split; [by apply elem_of_union_r|done].
  - apply Hn.
  - intros h' Hx. apply (n_issued _ Hn) in Hx. by apply elem_of_union_r.
  - apply (n_key _ Hn).
Qed.

Lemma step_codes ev w w' : codes_once w -> step ev w = Some w' -> codes_once w'.
Proof.
  intros Hn. assert (forall d', o_codes d' ⊆ o_codes (db w) -> codes_once (w <| db := d' |>)) as Hq by (intros; by apply (codes_keep w)).
  destruct ev as [sid cid sec q|pid req user allow code|pid q|pid r fault|token|id user|pid user cid| | |h]; cbn [step].
  - intros [= <-]. destruct (Register_spec sid cid sec q (db w)) as [->|(c & -> & _)]; by apply Hq.
  - case_bool_decide as Hf; [done|]. intros [Hp ->]%spawn_spec. apply (spawn_fresh_codes w pid _ (HashToken code)); [done|done|done|]. apply AuthorizePOST_code.
  - intros [Hp ->]%spawn_spec. apply spawn_codes; [done|done|]. apply Token_code.
  - destruct (procs w !! pid) as [p|] eqn:Ep; [|done]. destruct (draws p && negb (fresh r w)); [done|].
    set (hs := if draws p then _ else _). assert (issued w ⊆ hs ∪ issued w) as Hi by set_solver.
    pose proof (fun ro => advance_codes w pid r fault p (hs ∪ issued w) ro Hn Ep Hi) as H.
    destruct (advance _ _ _ _ _) as [d' p']. intros [= <-]. apply H.
  - intros [= <-]. case_bool_decide; [done|]. by apply Hq.
  - intros [= <-]. destruct (RevokeOAuthAccessTokenByID _ _ _ _) eqn:E; [|done]. apply Hq.
    by eapply RevokeOAuthAccessTokenByID_quiet.
  - intros [Hp ->]%spawn_spec. apply spawn_codes; [done|done|]. by repeat case_match.
  - intros [= <-]. apply Hq. cbn. apply map_filter_subseteq.
  - intros [= <-]. by apply Hq.
  - intros [= <-]. by apply Hq.
Qed.

Lemma tick_codes w t : codes_once w -> codes_once (w <| now := t |>).
Proof. intros Hn. by apply (codes_keep w). Qed.

(** *** Refresh tokens *)

Record refresh_once (w : world) : Prop := RefreshOnce {
  f_live : forall k t h, o_tokens (db w) !! k = Some t -> t_Refresh t = Some h -> h ∈ issued w /\ h ∉ rotated w;
  f_nodup : NoDup (rotated w);
  f_issued : forall h, h ∈ rotated w -> h ∈ issued w
}.

Lemma refresh_change w w' : refresh_once w -> issued w ⊆ issued w' -> rotated w' = rotated w ->
  (forall k t h, o_tokens (db w') !! k = Some t -> t_Refresh t = Some h ->
     (exists k t0, o_tokens (db w) !! k = Some t0 /\ t_Refresh t0 = Some h) \/ h ∈ issued w' /\ h ∉ issued w) ->
  refresh_once w'.
Proof.
  intros [F1 F2 F3] Hi Hr Ht. split; rewrite ?Hr.
  - intros k t h Hk Hh. destruct (Ht k t h Hk Hh) as [(k' & t0 & Hk' & Hh')|[? Hn]].
    + destruct (F1 _ _ _ Hk' Hh'). split; [by apply Hi|done].
    + split; [done|]. intros Hx. by apply Hn, F3.
  - done.
  - intros h Hh. by apply Hi, F3.
Qed.

Lemma refresh_quiet w w' : refresh_once w -> quiet (db w) (db w') -> issued w ⊆ issued w' -> rotated w' = rotated w -> refresh_once w'.
Proof.
  intros Hf [_ _ Q3 _] Hi Hr. apply (refresh_change w); try done. intros k t h Hk Hh. left.
  destruct (Q3 _ _ Hk) as (t0 & Hk0 & _ & [E|E] & _); [exists k, t0; by rewrite <- E|congruence].
Qed.

Lemma fresh_spec r w : fresh r w = true -> HashToken (r_refresh r) ∉ issued w.
Proof. unfold fresh. intros. zbool. done. Qed.

Lemma advance_refresh w pid r fault p l ex : refresh_once w -> procs w !! pid = Some p -> (draws p = true -> fresh r w = true) ->
  let iss := (if draws p then {[HashToken (r_access r); HashToken (r_refresh r)]} else ∅) ∪ issued w in
  let '(d', p') := advance (now w) r fault p (db w) in
  refresh_once (World d' (<[pid := p']> (procs w)) (now w) iss l ex (log_rotated p p' (rotated w))).
Proof.
  intros Hf Hp Hfresh iss.
  assert (issued w ⊆ iss) as Hi by set_solver.
  assert (forall d' p', o_tokens d' = o_tokens (db w) -> refresh_once (World d' (<[pid := p']> (procs w)) (now w) iss l ex (rotated w))) as Hsame.
  { intros d' p' E. apply (refresh_change w); try done. cbn. rewrite E. intros k t h Hk Hh. left. eauto. }
  destruct p as [row code|client code v ruri res|client row|client refresh|current refresh|cid|resp]; cbn [advance log_rotated].
  - destruct fault; [by apply Hsame|]. unfold InsertOAuthAuthorizationCode. destruct (o_codes (db w) !! _); by apply Hsame.
  - destruct fault; [by apply Hsame|]. unfold RedeemOAuthAuthorizationCode.
    destruct (o_codes (db w) !! HashToken code); [|by apply Hsame]. destruct (_ && _); by apply Hsame.
  - destruct fault; [by apply Hsame|]. destruct (mintTokenPair _ _ _ _ _ _ _) as [d'|] eqn:Em; [|by apply Hsame].
    unfold mintTokenPair in Em. apply InsertOAuthAccessToken_spec in Em as ->.
    apply (refresh_change w); try done. cbn. intros k t h [[_ <-]|[_ Hk]]%lookup_insert_Some Hh; [right|left; eauto].
    cbn in Hh. injection Hh as <-. split; [set_solver|]. by apply fresh_spec, Hfresh.
  - by apply Hsame.
  - destruct fault; [by apply Hsame|].
    destruct (RotateOAuthRefreshToken _ _ _ _) as [d'|[]] eqn:Er; [|by apply Hsame..].
    apply RotateOAuthRefreshToken_spec in Er as (d1 & [_ _ Q3 _] & -> & (k0 & t0 & Hk0 & Hh0) & Hgone).
    destruct (f_live _ Hf _ _ _ Hk0 Hh0) as [Hin Hnin]. pose proof (fresh_spec _ _ (Hfresh eq_refl)) as Hnew.
    split; cbn.
    + intros k t h [[_ <-]|[_ Hk]]%lookup_insert_Some Hh.
      * cbn in Hh. injection Hh as <-. split; [set_solver|]. intros [E|Hx]%elem_of_cons; [by rewrite E in Hnew|].
        by apply Hnew, (f_issued _ Hf).
      * destruct (Q3 _ _ Hk) as (t1 & Hk1 & _ & [E|E] & _); [|congruence]. rewrite E in Hh.
        destruct (f_live _ Hf _ _ _ Hk1 Hh). split; [by apply Hi|]. intros [->|?]%elem_of_cons; [|done].
        rewrite <- E in Hh. by apply (Hgone _ _ Hk).
    + constructor; [done|apply Hf].
    + intros h [->|Hx]%elem_of_cons; apply Hi; [done|by apply (f_issued _ Hf)].
  - destruct fault; [by apply Hsame|]. destruct (RevokeOAuthClient _ _ _) as [d'|] eqn:Er; [|by apply Hsame].
    apply RevokeOAuthClient_quiet in Er. by apply (refresh_quiet w).
  - by apply Hsame.
Qed.

Lemma step_refresh ev w w' : refresh_once w -> step ev w = Some w' -> refresh_once w'.
Proof.
  intros Hf. assert (forall d', quiet (db w) d' -> refresh_once (w <| db := d' |>)) as Hq by (intros; by apply (refresh_quiet w)).
  assert (forall w', db w' = db w -> issued w ⊆ issued w' -> rotated w' = rotated w -> refresh_once w') as Hsp.
  { intros w1 E ? ?. apply (refresh_quiet w); try done. by rewrite E. }
  destruct ev as [sid cid sec q|pid req user allow code|pid q|pid r fault|token|id user|pid user cid| | |h]; cbn [step].
  - intros [= <-]. destruct (Register_spec sid cid sec q (db w)) as [->|(c & -> & _)]; [by apply Hq|].
    apply (refresh_change w); try done. cbn. intros k t h Hk Hh. left. eauto.
  - case_bool_decide as Hn; [done|]. intros [Hp ->]%spawn_spec. apply Hsp; [done|cbn; set_solver|done].
  - intros [Hp ->]%spawn_spec. by apply Hsp.
  - destruct (procs w !! pid) as [p|] eqn:Ep; [|done]. destruct (draws p && negb (fresh r w)) eqn:Ed; [done|].
    assert (draws p = true -> fresh r w = true) as Hfr.
    { intros E. rewrite E in Ed. by destruct (fresh r w). }
    pose proof (fun l ex => advance_refresh w pid r fault p l ex Hf Ep Hfr) as H. cbv zeta in H.
    destruct (advance _ _ _ _ _) as [d' p']. intros [= <-]. apply H.
  - intros [= <-]. case_bool_decide; [done|]. apply Hq, RevokeOAuthAccessToken_quiet.
  - intros [= <-]. destruct (RevokeOAuthAccessTokenByID _ _ _ _) eqn:E; [|done]. by eapply Hq, RevokeOAuthAccessTokenByID_quiet.
  - intros [Hp ->]%spawn_spec. by apply Hsp.
  - intros [= <-]. apply Hq, filter_codes_quiet.
  - intros [= <-]. apply Hq, filter_tokens_quiet.
  - intros [= <-]. apply Hq, UpdateOAuthTokenLastUsed_quiet.
Qed.

Lemma run_once es t w : run es (world_start t) = Some w -> codes_once w /\ refresh_once w.
Proof.
  apply (run_ind (fun w => codes_once w /\ refresh_once w)).
  - intros w0 t0 _ [Hn Hf]. split; [by apply tick_codes|by apply (refresh_quiet w0)].
  - intros ev w0 w1 [Hn Hf] Hs. split; [by eapply step_codes|by eapply step_refresh].
  - assert (forall h l, ~ holds (world_start t) h l) as Hno by (intros h [pid|]; cbn; [done|by intros (? & ? & _)]).
    split; split; cbn; try done; try (by intros ? ?%elem_of_nil); try apply NoDup_nil_2.
    + intros h l l' Hl. by apply Hno in Hl.
    + intros h l Hl. by apply Hno in Hl.
Qed.

(** *** Clients only ever get revoked *)

Lemma advance_clients now r fault p d : clients_le d (advance now r fault p d).1.
Proof.
  destruct p as [row code|client code v ruri res|client row|client refresh|current refresh|cid|resp]; cbn [advance]; try done;
    destruct fault; try done.
  - unfold InsertOAuthAuthorizationCode. destruct (o_codes d !! _); [done|by apply clients_le_same].
  - unfold RedeemOAuthAuthorizationCode. destruct (o_codes d !! _); [|done]. destruct (_ && _); [by apply clients_le_same|done].
  - destruct (mintTokenPair _ _ _ _ _ _ _) as [d'|] eqn:Em; [|done]. unfold mintTokenPair in Em.
    apply InsertOAuthAccessToken_spec in Em as ->. by apply clients_le_same.
  - destruct (RotateOAuthRefreshToken _ _ _ _) as [d'|[]] eqn:Er; [|done..].
    apply RotateOAuthRefreshToken_spec in Er as (d1 & [Q1 _ _ _] & -> & _). exact Q1.
  - destruct (RevokeOAuthClient _ _ _) as [d'|] eqn:Er; [|done]. apply RevokeOAuthClient_quiet in Er. apply Er.
Qed.

Lemma step_clients ev w w' : step ev w = Some w' -> clients_le (db w) (db w').
Proof.
  destruct ev as [sid cid sec q|pid req user allow code|pid q|pid r fault|token|id user|pid user cid| | |h]; cbn [step].
  - intros [= <-]. cbn [db]. destruct (Register_spec sid cid sec q (db w)) as [->|(c & -> & Hn & _)]; [done|].
    intros k c' Hk. exists c'. split; [|done]. cbn. rewrite lookup_insert_ne; [done|]. intros <-. by rewrite Hn in Hk.
  - case_bool_decide; [done|]. by intros [_ ->]%spawn_spec.
  - by intros [_ ->]%spawn_spec.
  - destruct (procs w !! pid) as [p|]; [|done]. destruct (_ && _); [done|].
    pose proof (advance_clients (now w) r fault p (db w)) as H. destruct (advance _ _ _ _ _) as [d' p']. by intros [= <-].
  - intros [= <-]. case_bool_decide; [done|]. apply RevokeOAuthAccessToken_quiet.
  - intros [= <-]. destruct (RevokeOAuthAccessTokenByID _ _ _ _) eqn:E; [|done]. by eapply RevokeOAuthAccessTokenByID_quiet.
  - by intros [_ ->]%spawn_spec.
  - intros [= <-]. by apply clients_le_same.
  - intros [= <-]. by apply clients_le_same.
  - intros [= <-]. apply UpdateOAuthTokenLastUsed_quiet.
Qed.

Lemma run_clients es w w' : run es w = Some w' -> clients_le (db w) (db w').
Proof. intros H. revert H. apply (run_ind (fun w' => clients_le (db w) (db w'))); [done| |done]. intros ev w1 w2 H1 H2%step_clients. by etrans. Qed.

Lemma find_token_in p d t : find_token p d = Some t -> exists k, o_tokens d !! k = Some t /\ p t = true.
Proof.
  unfold find_token. intros [Hin Hp]%List.find_some. apply list_elem_of_In, list_elem_of_fmap in Hin as ([k t0] & -> & Hk%elem_of_map_to_list).
  by exists k.
Qed.

Lemma find_token_none p d : (forall k t, o_tokens d !! k = Some t -> p t = false) -> find_token p d = None.
Proof. intros H. destruct (find_token p d) as [t|] eqn:E; [|done]. apply find_token_in in E as (k & Hk & Hp). by rewrite (H k t Hk) in Hp. Qed.

(** What a resolved token is. *)
Lemma resolve_spec now plaintext req d d' p : resolveOAuthAccessToken now plaintext req d (Some d') = Some p ->
  exists k t, o_tokens d !! k = Some t /\ t_Access t = HashToken plaintext /\ t_RevokedAt t = None /\ now <= t_AccessExpiresAt t /\
    p = Principal (t_ID t) (t_ClientID t) (ScopeToPermissions (t_Scope t)) (t_AccessExpiresAt t) /\
    (forall c, o_clients d' !! t_ClientID t = Some c -> c_RevokedAt c = None).
Proof.
  unfold resolveOAuthAccessToken. destruct (GetOAuthAccessTokenByAccessHash _ _) as [t|] eqn:Et; [|done].
  apply find_token_in in Et as (k & Hk & Ht%bool_decide_eq_true). unfold IsExpired.
  destruct (t_RevokedAt t) eqn:Er; [done|]. destruct (t_AccessExpiresAt t <? now) eqn:El; [done|]. zbool.
  destruct (_ && _); [done|]. cbn [mbind option_bind]. unfold GetOAuthClientByID.
  destruct (o_clients d' !! t_ClientID t) as [c|] eqn:Ec.
  - destruct (c_RevokedAt c) eqn:Ecr; [by rewrite bool_decide_true by eauto|].
    rewrite bool_decide_false by (by intros []). intros [= <-]. exists k, t. split_and!; try done. intros c0. rewrite Ec. by intros [= <-].
  - intros [= <-]. exists k, t. split_and!; try done. intros c0. by rewrite Ec.
Qed.

(* ------------------------------------------------------------------ *)
(** ** The properties *)


(** C40. Authorization codes and refresh tokens are spent once: in every
    interleaving of requests, concurrent redemptions included, no code mints
    two pairs of tokens and no refresh token is exchanged twice; a code that
    was exchanged cannot be redeemed again and a refresh token that was
    exchanged is found no more. *)
Theorem codes_and_refresh_tokens_are_spent_once es t w :
  run es (world_start t) = Some w ->
  NoDup (exchanged w) /\ NoDup (rotated w) /\
  (forall code when, HashToken code ∈ exchanged w ->
     RedeemOAuthAuthorizationCode when (HashToken code) (db w) = Err ErrAuthCodeAlreadyUsed) /\
  (forall refresh, HashToken refresh ∈ rotated w -> GetOAuthAccessTokenByRefreshHash (HashToken refresh) (db w) = None).
Proof.
  intros [Hn Hf]%run_once. split_and!; [apply Hn|apply Hf| |].
  - intros code when Hx. unfold RedeemOAuthAuthorizationCode. destruct (o_codes (db w) !! _) as [c|] eqn:Ec; [|done].
    destruct (a_UsedAt c) eqn:Eu; [by rewrite bool_decide_false|]. exfalso.
    destruct (n_unspent _ Hn (HashToken code) InTable) as [_ Hno]; [|by apply Hno]. by exists c.
  - intros refresh Hx. apply find_token_none. intros k tok Hk. apply bool_decide_eq_false. intros E.
    by destruct (f_live _ Hf _ _ _ Hk E).
Qed.

(** The exchange of a code: a token request goes on to mint a pair exactly
    when its code is stored, unused and unexpired, was issued to this client
    for this redirect URI, the verifier hashes to the challenge under S256, and
    the resource, if repeated, is the one consented to.  A code that could
    be redeemed is spent by the attempt whatever the other checks say, and
    nothing else in the database changes. *)
Theorem code_exchange_checks when r client code verifier ruri resource d :
  let (d', p) := advance when r false (PRedeem client code verifier ruri resource) d in
  let redeemable c := o_codes d !! HashToken code = Some c /\ a_UsedAt c = None /\ when / second <= a_ExpiresAt c / second in
  (draws p = true <->
   exists c, redeemable c /\ a_ClientID c = c_ClientID client /\ a_RedirectURI c = ruri /\
     a_CodeChallengeMethod c = "S256"%string /\ verifier <> EmptyString /\ a_CodeChallenge c <> EmptyString /\
     b64_encode (sha256 (bytes verifier)) = bytes (a_CodeChallenge c) /\
     (resource = EmptyString \/ resource = a_Resource c)) /\
  (forall c, redeemable c -> d' = d <| o_codes ::= <[HashToken code := c <| a_UsedAt := Some when |>]> |>) /\
  ((forall c, ~ redeemable c) -> d' = d /\ p = PDone (RError 400 "invalid_grant")).
Proof.
  cbn [advance]. unfold RedeemOAuthAuthorizationCode, sql_after.
  destruct (o_codes d !! HashToken code) as [c|]; cycle 1.
  { split_and!; [split; [done|by intros (c & (? & _) & _)]|by intros c [? _]|done]. }
  destruct (bool_decide (a_UsedAt c = None)) eqn:Eu; cycle 1; zbool.
  { split_and!; [split; [done|by intros (c' & ([= <-] & ? & _) & _)]|by intros c' ([= <-] & ? & _)|done]. }
  destruct (when / second <=? a_ExpiresAt c / second) eqn:Ee; cycle 1; zbool; cbn [andb].
  { split_and!; [split; [done|intros (c' & ([= <-] & _ & ?) & _); lia]|intros c' ([= <-] & _ & ?); lia|done]. }
  split_and!; [|by intros c' ([= <-] & _)|intros Hn; exfalso; by apply (Hn c)].
  unfold check_code, VerifyPKCE. cbn [a_ClientID a_RedirectURI a_CodeChallenge a_CodeChallengeMethod a_Resource set_field].
  split.
  - intros Hd. exists c. revert Hd. cbn. repeat (case_bool_decide; cbn; [|try done]); try done; intros _; split_and!; auto.
  - intros (c' & ([= <-] & _) & -> & -> & -> & Hv & Hcc & Hh & Hres). cbn.
    rewrite !(bool_decide_true _ eq_refl). cbn. rewrite (bool_decide_false (verifier = _)), (bool_decide_false (a_CodeChallenge c = _)) by done.
    cbn. rewrite (bool_decide_true (_ = bytes _)) by done. cbn. destruct Hres as [->| ->]; [done|].
    rewrite (bool_decide_true (a_Resource c = a_Resource c)) by done. by rewrite andb_false_r.
Qed.

(** Removing an application locks it out: once a client is revoked, after
    any further run -- its requests in flight at that moment included -- the
    tool endpoint accepts none of its access tokens, the token endpoint refuses
    its requests and no consent page grants it a code. *)
Theorem removed_application_is_locked_out w cid c es' w' :
  o_clients (db w) !! cid = Some c -> is_Some (c_RevokedAt c) -> run es' w = Some w' ->
  (forall plaintext req d p,
     resolveOAuthAccessToken (now w') plaintext req d (Some (db w')) = Some p -> p_ClientID p <> cid) /\
  (forall q, k_clientID q = cid -> Token_ q (db w') = PDone (RError 401 "invalid_client")) /\
  (forall req user allow code, z_ClientID req = cid ->
     AuthorizePOST (now w') req user allow code (db w') = PDone (RPage 400)).
Proof.
  intros Hc Hr Hrun. destruct (run_clients _ _ _ Hrun _ _ Hc) as (c' & Hc' & _ & Hr'). specialize (Hr' Hr).
  split_and!.
  - intros plaintext req d p Hp. apply resolve_spec in Hp as (k & tok & _ & _ & _ & _ & -> & Hcl). cbn. intros E.
    rewrite E in Hcl. destruct Hr' as [x Hx]. by rewrite (Hcl _ Hc') in Hx.
  - intros q <-. unfold Token_, GetOAuthClientByID. rewrite Hc'. by rewrite bool_decide_true.
  - intros req user allow code <-. unfold AuthorizePOST, GetOAuthClientByID. rewrite Hc'.
    destruct (_ || _ || _); [done|]. by rewrite bool_decide_true.
Qed.

(* ------------------------------------------------------------------ *)
(** ** Witnesses and what the code allows *)

Definition demo_register : register_req :=
  RegisterReq "App" "" ["https://app.example/cb"%string] [] [] "" "read invoke".
Definition demo_authorize : authorize_req :=
  AuthorizeReq "c1" "https://app.example/cb" "code" "admin read" "" (of_bytes (b64_encode (sha256 (bytes "verifier")))) "" "".
Definition demo_redeem : token_req :=
  TokenReq "c1" "" "authorization_code" "oac_1" "verifier" "https://app.example/cb" "" "".
Definition demo_refresh : token_req := TokenReq "c1" "" "refresh_token" "" "" "" "" "ort_1".

(** Registration, consent and the exchange of the code. *)
Definition demo_grant : list (Z * event) :=
  [(second, EvRegister "s1" "c1" "x" demo_register);
   (2 * second, EvAuthorize 0 demo_authorize (Some 7) true "oac_1");
   (3 * second, EvRun 0 (Drawn "" "" "") false);
   (4 * second, EvToken 1 demo_redeem);
   (5 * second, EvRun 1 (Drawn "" "" "") false);
   (6 * second, EvRun 1 (Drawn "t1" "oat_1" "ort_1") false)].

Definition demo_start : world := world_start 0.
Definition demo_tool : tool_request := ToolRequest true "" "orva.example" "/mcp".
Definition resolves (w : world) (token : string) : option principal :=
  resolveOAuthAccessToken (now w) token demo_tool (db w) (Some (db w)).

(** A refresh that has passed its checks when the user revokes the grant
    still mints a live pair: the rotation does not look at [revoked_at]. *)
Definition demo_race : list (Z * event) :=
  demo_grant ++
  [(7 * second, EvToken 2 demo_refresh);
   (8 * second, EvRun 2 (Drawn "" "" "") false);
   (9 * second, EvRevokeGrant "t1" 7);
   (10 * second, EvRun 2 (Drawn "t2" "oat_2" "ort_2") false)].

Lemma revoked_grant_is_revived :
  (fun w => (resolves w "oat_1", p_Perms <$> resolves w "oat_2", t_ID <$> ListActiveOAuthAccessTokens (now w) 7 (db w)))
    <$> run demo_race demo_start = Some (None, Some ["read"%string], ["t2"%string]).
Proof. vm_compute. reflexivity. Qed.

(** A code redeemed before its application is removed still becomes a live row:
    the tool endpoint refuses it, the dashboard lists it as connected. *)
Definition demo_removed : list (Z * event) :=
  demo_grant ++
  [(11 * second, EvAuthorize 3 demo_authorize (Some 7) true "oac_3");
   (12 * second, EvRun 3 (Drawn "" "" "") false);
   (13 * second, EvToken 4 (TokenReq "c1" "" "authorization_code" "oac_3" "verifier" "https://app.example/cb" "" ""));
   (14 * second, EvRun 4 (Drawn "" "" "") false);
   (15 * second, EvRemove 5 7 "c1");
   (16 * second, EvRun 5 (Drawn "" "" "") false);
   (17 * second, EvRun 4 (Drawn "t3" "oat_3" "ort_3") false)].

Lemma removed_application_is_listed :
  (fun w => (resolves w "oat_3", t_ID <$> ListActiveOAuthAccessTokens (now w) 7 (db w)))
    <$> run demo_removed demo_start = Some (None, ["t3"%string]).
Proof. vm_compute. reflexivity. Qed.

(** A method in capitals passes the validation and registers a client that
    needs a secret. *)
Lemma capital_none_is_confidential :
  ValidateAuthMethod "NONE" = None /\
  (let d := (Register "s" "c" "secret" (RegisterReq "" "" ["https://a/"%string] [] [] "NONE" "") (ODB ∅ ∅ ∅)).1 in
   IsPublic <$> GetOAuthClientByID "c" d = Some false).
Proof. split; vm_compute; reflexivity. Qed.


Lemma codes_and_refresh_tokens_are_spent_once_witness :
  exists w, run demo_race demo_start = Some w /\ NoDup (exchanged w) /\ exchanged w = [HashToken "oac_1"] /\
    RedeemOAuthAuthorizationCode (now w) (HashToken "oac_1") (db w) = Err ErrAuthCodeAlreadyUsed /\
    GetOAuthAccessTokenByRefreshHash (HashToken "ort_1") (db w) = None.
Proof.
  assert (match run demo_race demo_start with
          | Some w => exchanged w = [HashToken "oac_1"] /\ rotated w = [HashToken "ort_1"] | None => False end) as H
    by (vm_compute; split; reflexivity).
  destruct (run demo_race demo_start) as [w|] eqn:E; [|contradiction]. destruct H as [Hx Hr].
  destruct (codes_and_refresh_tokens_are_spent_once demo_race 0 w E) as (H1 & _ & H3 & H4).
  exists w. split_and!; auto; [apply H3; rewrite Hx; left|apply H4; rewrite Hr; left].
Defined.

Lemma removed_application_is_locked_out_witness :
  exists w, run demo_removed demo_start = Some w /\ Token_ demo_redeem (db w) = PDone (RError 401 "invalid_client").
Proof.
  assert (match run demo_removed demo_start with
          | Some w => match o_clients (db w) !! "c1"%string with Some c => bool_decide (is_Some (c_RevokedAt c)) | None => false end
          | None => false end = true) as H by (vm_compute; reflexivity).
  destruct (run demo_removed demo_start) as [w|] eqn:E; [|discriminate].
  destruct (o_clients (db w) !! "c1"%string) as [c|] eqn:Ec; [|discriminate]. apply bool_decide_eq_true in H.
  exists w. split; [reflexivity|].
  exact (proj1 (proj2 (removed_application_is_locked_out w "c1" c [] w Ec H eq_refl)) demo_redeem eq_refl).
Defined.
