(* ===== verification/Safepath.v ===== *)
(** * Path containment ([safepath/safepath.go], [builder/buildcache.go])

    [filepath.Clean] and [filepath.Join] on a Unix system, the write-side and
    the read-side gate for relative paths, and the per-function directories.
    A path is a list of names once its slashes are cut. *)
From S2P Require Import Prelude GoText Netip.
Open Scope Z_scope.

(* ------------------------------------------------------------------ *)
(** ** Package filepath *)

Definition slash : Z := 47.

Fixpoint split_path (s : list Z) : list (list Z) :=
  match s with
  | [] => [[]]
  | x :: s => if x =? slash then [] :: split_path s
              else match split_path s with l :: ls => (x :: l) :: ls | [] => [[x]] end
  end.

Definition dot1 : list Z := [46].
Definition dot2 : list Z := [46; 46].

(** One element against the names kept so far, innermost first. *)
Definition clean_step (rooted : bool) (kept : list (list Z)) (e : list Z) : list (list Z) :=
  if bool_decide (e = []) || bool_decide (e = dot1) then kept
  else if bool_decide (e = dot2) then
    match kept with
    | [] => if rooted then [] else [dot2]
    | k :: kept' => if bool_decide (k = dot2) then dot2 :: kept else kept'
    end
  else e :: kept.

Definition is_rooted (s : list Z) : bool := bool_decide (take 1 s = [slash]).

Definition clean_parts (s : list Z) : list (list Z) := rev (foldl (clean_step (is_rooted s)) [] (split_path s)).

Definition render_path (rooted : bool) (ps : list (list Z)) : list Z :=
  if rooted then slash :: join [slash] ps else match ps with [] => dot1 | _ => join [slash] ps end.

(** [filepath.Clean]. *)
Definition Clean (s : list Z) : list Z := render_path (is_rooted s) (clean_parts s).

(** [filepath.Join] of two elements. *)
Definition Join2 (a b : list Z) : list Z :=
  match a, b with
  | [], [] => []
  | [], _ => Clean b
  | _, _ => Clean (a ++ [slash] ++ b)
  end.

(* ------------------------------------------------------------------ *)
(** ** The gates *)

Inductive path_error := ErrEmpty | ErrAbsolute | ErrDrive | ErrEscapes | ErrDirectory | ErrNoBase.

Definition Validate (rel : string) : option path_error :=
  let r := bytes rel in
  if bool_decide (trimSpace rel = EmptyString) then Some ErrEmpty
  else if is_rooted r || starts_with [92] r then Some ErrAbsolute
  else if bool_decide (nth_error r 1 = Some 58) then Some ErrDrive
  else
    let clean := Clean r in
    if bool_decide (clean = dot2) || starts_with (dot2 ++ [slash]) clean then Some ErrEscapes
    else if bool_decide (clean = dot1) then Some ErrDirectory else None.

Definition Join_ (base rel : string) : res path_error string :=
  if bool_decide (base = EmptyString) then Err ErrNoBase
  else
    let base := Clean (bytes base) in
    let full := Join2 base (bytes rel) in
    if negb (bool_decide (full = base)) && negb (starts_with (base ++ [slash]) full) then Err ErrEscapes
    else Ok (of_bytes full).

(** [<dataDir>/<sub>/<fnID>], refusing an id that is not one plain element. *)
Definition fnScopedPath (dataDir sub fnID : string) : res path_error string :=
  let id := bytes fnID in
  if bool_decide (trimSpace dataDir = EmptyString) then Err ErrNoBase
  else if bool_decide (id = []) || existsb (fun c => (c =? 47) || (c =? 92) || (c =? 0)) id || starts_with [46] id
          || negb (bool_decide (Clean id = id))
  then Err ErrEscapes
  else Ok (of_bytes (Clean (bytes dataDir ++ [slash] ++ bytes sub ++ [slash] ++ id))).

Example clean_examples :
  map (fun s => of_bytes (Clean (bytes s)))
    ["a//b/./c/.."; "/../x/"; ""; "../../a/.."; "a/../.."; "./handler.js"; "/"; "/a/b/../../.."]%string =
  ["a/b"; "/x"; "."; "../.."; ".."; "handler.js"; "/"; "/"]%string.
Proof. vm_compute. reflexivity. Qed.

Example join_examples :
  Join_ "/data/functions/abc/current" "../../../.admin-key" = Err ErrEscapes /\
  Join_ "/data/functions" "../functions-evil/x" = Err ErrEscapes /\
  Join_ "/data/f/" "src/./index.ts" = Ok "/data/f/src/index.ts"%string.
Proof. vm_compute. auto. Qed.

(* ------------------------------------------------------------------ *)
(** ** Names and cleaning *)

(** A name that stands for itself in a directory. *)
Definition plain (e : list Z) : Prop := e <> [] /\ e <> dot1 /\ e <> dot2 /\ slash ∉ e.

#[export] Instance plain_dec e : Decision (plain e).
Proof. unfold plain. apply _. Defined.

Lemma split_path_ne s : split_path s <> [].
Proof. destruct s as [|x s]; cbn; [done|]. destruct (x =? slash); [done|]. by destruct (split_path s). Qed.

Lemma split_path_app a b : split_path (a ++ slash :: b) = split_path a ++ split_path b.
Proof.
  induction a as [|x a IH]; cbn [app split_path]; [reflexivity|].
  destruct (x =? slash); [cbn; by rewrite IH|].
  rewrite IH. destruct (split_path a) eqn:E; [by destruct (split_path_ne a) | reflexivity].
Qed.

Lemma split_path_slashless s : slash ∉ s -> split_path s = [s].
Proof.
  induction s as [|x s IH]; [reflexivity|]. rewrite not_elem_of_cons. intros [Hx Hs]. cbn [split_path].
  rewrite (proj2 (Z.eqb_neq x slash)) by congruence. by rewrite IH.
Qed.

Lemma split_path_no_slash s : Forall (fun e => slash ∉ e) (split_path s).
Proof.
  induction s as [|x s IH]; cbn [split_path].
  - apply Forall_singleton, not_elem_of_nil.
  - destruct (Z.eqb_spec x slash) as [->|Hx]; [constructor; [apply not_elem_of_nil | done]|].
    destruct (split_path s) as [|l ls] eqn:E; [by destruct (split_path_ne s)|].
    apply Forall_cons in IH as [Hl Hls]. constructor; [|done]. rewrite not_elem_of_cons. auto.
Qed.

Lemma split_path_join ps : ps <> [] -> Forall (fun e => slash ∉ e) ps -> split_path (join [slash] ps) = ps.
Proof.
  induction ps as [|p ps IH]; [done|]. intros _ [Hp Hps]%Forall_cons. destruct ps as [|q ps].
  - by apply split_path_slashless.
  - change (join [slash] (p :: q :: ps)) with (p ++ slash :: join [slash] (q :: ps)).
    rewrite split_path_app, split_path_slashless, IH by done. reflexivity.
Qed.

Lemma plain_forall_no_slash ps : Forall plain ps -> Forall (fun e => slash ∉ e) ps.
Proof. intros H. eapply Forall_impl; [exact H|]. unfold plain. tauto. Qed.

Lemma clean_step_plain r kept e : plain e -> clean_step r kept e = e :: kept.
Proof. intros (H0 & H1 & H2 & _). unfold clean_step. by rewrite !bool_decide_eq_false_2. Qed.

Lemma clean_steps_plain r kept ps : Forall plain ps -> foldl (clean_step r) kept ps = rev ps ++ kept.
Proof.
  intros H. revert kept. induction H as [|p ps Hp _ IH]; intros kept; cbn [foldl rev]; [reflexivity|].
  rewrite clean_step_plain, IH by done. by rewrite <- app_assoc.
Qed.

(** Cleaning [rel] alone and cleaning it below the names [K]: what the first
    one leaves as [n] leading [..] removes [n] names of [K] in the second. *)
Lemma clean_steps_below es K : Forall (fun e => slash ∉ e) es -> Forall plain K ->
  forall pl n, Forall plain pl ->
  exists pl' n', Forall plain pl' /\ (n <= n')%nat /\
    foldl (clean_step false) (pl ++ replicate n dot2) es = pl' ++ replicate n' dot2 /\
    foldl (clean_step true) (pl ++ drop n K) es = pl' ++ drop n' K.
Proof.
  intros Hes HK. induction Hes as [|e es He _ IH]; intros pl n Hpl; [exists pl, n; auto with lia|].
  cbn [foldl]. unfold clean_step at 2 4.
  destruct (bool_decide (e = []) || bool_decide (e = dot1)) eqn:E1; [by apply IH|].
  apply orb_false_iff in E1 as [E0%bool_decide_eq_false E1%bool_decide_eq_false].
  destruct (bool_decide_reflect (e = dot2)) as [->|E2].
  - destruct pl as [|p pl].
    + destruct (IH [] (S n)) as (pl' & n' & Hpl' & Hn & Hf & Ht); [constructor|].
      exists pl', n'. repeat split; [done | lia | |].
      * rewrite <- Hf. f_equal. cbn [app]. destruct n; cbn; [reflexivity|]. by rewrite bool_decide_eq_true_2.
      * rewrite <- Ht. f_equal. cbn [app]. change (S n) with (1 + n)%nat. rewrite <- skipn_skipn.
        destruct (drop n K) as [|k K'] eqn:EK; [reflexivity|]. cbn.
        assert (Forall plain (k :: K')) as [(_ & _ & Hk & _) _]%Forall_cons by (rewrite <- EK; by apply Forall_drop).
        by rewrite bool_decide_eq_false_2.
    + apply Forall_cons in Hpl as [(_ & _ & Hp & _) Hpl]. cbn [app]. rewrite !bool_decide_eq_false_2 by done. by apply IH.
  - apply (IH (e :: pl) n). constructor; [|done]. unfold plain. auto.
Qed.

Lemma clean_steps_rooted es K : Forall (fun e => slash ∉ e) es -> Forall plain K ->
  Forall plain (foldl (clean_step true) K es).
Proof.
  intros He HK. destruct (clean_steps_below es K He HK [] 0) as (pl & n & Hpl & _ & _ & Ht); [constructor|].
  change ([] ++ drop 0 K) with K in Ht. rewrite Ht.
  apply Forall_app. split; [done|]. by apply Forall_drop.
Qed.

Lemma clean_parts_rooted s : is_rooted s = true -> Forall plain (clean_parts s).
Proof.
  intros H. unfold clean_parts. rewrite H. apply Forall_rev, clean_steps_rooted; [apply split_path_no_slash | constructor].
Qed.

Lemma is_rooted_render ps : is_rooted (render_path true ps) = true.
Proof. unfold is_rooted. by rewrite bool_decide_eq_true_2. Qed.

Lemma split_path_render ps : ps <> [] -> Forall (fun e => slash ∉ e) ps -> split_path (render_path true ps) = [] :: ps.
Proof. intros Hne H. cbn. by rewrite split_path_join. Qed.

(** A cleaned absolute path below which [b] is put. *)
Lemma clean_parts_below ps b : Forall plain ps ->
  clean_parts (render_path true ps ++ slash :: b) = rev (foldl (clean_step true) (rev ps) (split_path b)).
Proof.
  intros H. unfold clean_parts. rewrite split_path_app, foldl_app.
  change (is_rooted (render_path true ps ++ slash :: b)) with true.
  do 2 f_equal. destruct ps as [|p ps]; [reflexivity|].
  rewrite split_path_render by (done || by apply plain_forall_no_slash).
  change (foldl (clean_step true) [] ([] :: p :: ps)) with (foldl (clean_step true) [] (p :: ps)).
  rewrite clean_steps_plain by done. apply app_nil_r.
Qed.

Lemma Join2_below ps b : Forall plain ps ->
  Join2 (render_path true ps) b = render_path true (rev (foldl (clean_step true) (rev ps) (split_path b))).
Proof.
  intros H. change (Join2 (render_path true ps) b) with (Clean (render_path true ps ++ slash :: b)).
  unfold Clean. by rewrite clean_parts_below by done.
Qed.

(** Cleaning twice is cleaning once, for an absolute path. *)
Lemma Clean_idempotent s : is_rooted s = true -> Clean (Clean s) = Clean s.
Proof.
  intros H. pose proof (clean_parts_rooted s H) as Hp. unfold Clean. rewrite H, is_rooted_render. f_equal.
  unfold clean_parts at 1. rewrite is_rooted_render. destruct (clean_parts s) as [|p ps] eqn:E; [reflexivity|].
  rewrite split_path_render by (done || by apply plain_forall_no_slash).
  change (foldl (clean_step true) [] ([] :: p :: ps)) with (foldl (clean_step true) [] (p :: ps)).
  rewrite clean_steps_plain by done. by rewrite app_nil_r, rev_involutive.
Qed.

(** A textual prefix up to a slash is a prefix of the names. *)
Lemma render_prefix ps qs : ps <> [] -> Forall plain ps -> Forall plain qs ->
  starts_with (render_path true ps ++ [slash]) (render_path true qs) = true -> exists rest, qs = ps ++ rest.
Proof.
  intros Hne Hp Hq Hs. unfold starts_with in Hs. apply bool_decide_eq_true in Hs.
  destruct (decide (qs = [])) as [->|Hqne]; [destruct ps as [|[|] ps]; done || (cbn in Hs; destruct ps; discriminate)|].
  pose proof (take_drop (length (render_path true ps ++ [slash])) (render_path true qs)) as Heq.
  rewrite Hs, <- app_assoc in Heq. apply (f_equal split_path) in Heq. cbn [app] in Heq.
  rewrite split_path_app, !split_path_render in Heq by (done || by apply plain_forall_no_slash).
  inversion Heq. eauto.
Qed.

Lemma join_is_nil_plain ps : Forall plain ps -> join [slash] ps = [] -> ps = [].
Proof. intros H. destruct H as [|p ps (Hp & _) _]; [done|]. destruct p; [done|]. by destruct ps. Qed.

(* ------------------------------------------------------------------ *)
(** ** The gates contain what they accept *)

Lemma render_starts ps rest : ps <> [] ->
  starts_with (render_path true ps ++ [slash]) (render_path true (ps ++ rest)) = negb (bool_decide (rest = [])).
Proof.
  intros Hne. assert (Hj : forall ps, ps <> [] -> rest <> [] -> join [slash] (ps ++ rest) = join [slash] ps ++ slash :: join [slash] rest).
  { clear ps Hne. intros ps Hne Hr. induction ps as [|p ps IH]; [done|]. destruct ps as [|q ps].
    - destruct rest; [done | reflexivity].
    - change (join [slash] ((p :: q :: ps) ++ rest)) with (p ++ slash :: join [slash] ((q :: ps) ++ rest)).
      change (join [slash] (p :: q :: ps)) with (p ++ slash :: join [slash] (q :: ps)).
      rewrite IH by done. by rewrite <- app_assoc. }
  unfold starts_with. destruct (bool_decide_reflect (rest = [])) as [->|Hr].
  - rewrite app_nil_r. apply bool_decide_eq_false_2. intros Heq%(f_equal length).
    rewrite length_take, length_app in Heq. cbn [length] in Heq. lia.
  - apply bool_decide_eq_true_2. cbn [render_path]. rewrite Hj by done.
    change (slash :: join [slash] ps ++ slash :: join [slash] rest)
      with ((slash :: join [slash] ps) ++ [slash] ++ join [slash] rest).
    rewrite app_assoc. by rewrite take_app_length.
Qed.

(** A name list without [..] in front cleans below any directory to itself. *)
Lemma clean_parts_relative r : is_rooted r = false ->
  exists n pl, Forall plain pl /\ clean_parts r = replicate n dot2 ++ rev pl /\
    forall K, Forall plain K -> n = 0%nat -> foldl (clean_step true) K (split_path r) = pl ++ K.
Proof.
  intros H. unfold clean_parts. rewrite H.
  destruct (clean_steps_below (split_path r) [] (split_path_no_slash r) (Forall_nil_2 _) [] 0) as (pl & n & Hpl & _ & Hf & _); [constructor|].
  cbn [app replicate] in Hf. exists n, pl. rewrite Hf. split; [done|]. split.
  - rewrite rev_app_distr. f_equal. rewrite rev_alt. apply reverse_replicate.
  - intros K HK ->. destruct (clean_steps_below (split_path r) K (split_path_no_slash r) HK [] 0) as (pl' & n' & _ & _ & Hf' & Ht); [constructor|].
    cbn [app replicate] in Hf'. rewrite Hf, app_nil_r in Hf'. destruct n' as [|n'].
    + cbn in Hf'. rewrite app_nil_r in Hf'. subst pl'. exact Ht.
    + exfalso. assert (Hin : dot2 ∈ pl) by (rewrite Hf'; apply elem_of_app; right; cbn; left).
      rewrite Forall_forall in Hpl. by destruct (Hpl _ Hin) as (_ & _ & Hd & _).
Qed.

Lemma Validate_names rel : Validate rel = None ->
  exists pl, Forall plain pl /\ pl <> [] /\ clean_parts (bytes rel) = rev pl /\
    forall K, Forall plain K -> foldl (clean_step true) K (split_path (bytes rel)) = pl ++ K.
Proof.
  unfold Validate. case_bool_decide; [done|]. destruct (is_rooted _) eqn:Hr; [done|]. cbn [orb].
  destruct (starts_with [92] _); [done|]. case_bool_decide; [done|].
  destruct (clean_parts_relative _ Hr) as (n & pl & Hpl & Hparts & Hall).
  unfold Clean. rewrite Hr, Hparts. intros HV. destruct n as [|n].
  - exists pl. split_and!; [done | | done | auto]. intros ->. vm_compute in HV. discriminate.
  - exfalso. revert HV. cbn [replicate app render_path]. destruct (replicate n dot2 ++ rev pl) as [|q qs]; [by vm_compute|].
    change (join [slash] (dot2 :: q :: qs)) with (dot2 ++ slash :: join [slash] (q :: qs)).
    change (starts_with (dot2 ++ [slash]) (dot2 ++ slash :: join [slash] (q :: qs)))
      with (bool_decide (take 3 (46 :: 46 :: slash :: join [slash] (q :: qs)) = dot2 ++ [slash])).
    rewrite (bool_decide_eq_true_2 (take 3 _ = _)) by reflexivity. by rewrite orb_true_r.
Qed.

(** For an absolute base directory, whatever [Join] hands back is the
    cleaned base followed by plain names, none of them empty, [.] or [..]; a
    path that [Validate] accepted is always joined, below every base but the
    root directory, and the names added are those of the path itself. *)
Theorem validated_paths_stay_inside base rel :
  is_rooted (bytes base) = true ->
  let below names := of_bytes (render_path true (clean_parts (bytes base) ++ names)) in
  (forall p, Join_ base rel = Ok p -> exists names, Forall plain names /\ p = below names) /\
  (Validate rel = None -> clean_parts (bytes base) <> [] ->
     clean_parts (bytes rel) <> [] /\ Forall plain (clean_parts (bytes rel)) /\
     Join_ base rel = Ok (below (clean_parts (bytes rel)))).
Proof.
  intros Hb below. pose proof (clean_parts_rooted _ Hb) as Hp.
  assert (Hbe : base <> EmptyString) by (by intros ->).
  assert (HC : Clean (bytes base) = render_path true (clean_parts (bytes base))) by (unfold Clean; by rewrite Hb).
  unfold Join_. rewrite bool_decide_eq_false_2 by done. cbv zeta. rewrite HC.
  set (ps := clean_parts (bytes base)) in *. rewrite Join2_below by done. split.
  - intros p. pose proof (clean_steps_rooted (split_path (bytes rel)) (rev ps) (split_path_no_slash _) (Forall_rev Hp)) as Hq%Forall_rev.
    set (qs := rev (foldl _ _ _)) in *. destruct (decide (render_path true qs = render_path true ps)) as [He|He].
    + rewrite bool_decide_eq_true_2 by done. cbn [negb andb]. intros [= <-]. exists []. split; [constructor|].
      unfold below. rewrite app_nil_r, <- He. reflexivity.
    + rewrite (bool_decide_eq_false_2 (render_path true qs = _)) by done. cbn [negb andb].
      destruct (starts_with _ _) eqn:Hs; [|done]. cbn [negb]. intros [= <-].
      destruct (decide (ps = [])) as [Hnil|Hne].
      * exists qs. split; [done|]. unfold below. by rewrite Hnil.
      * destruct (render_prefix ps qs Hne Hp Hq Hs) as [rest Hrest]. exists rest. unfold below. rewrite <- Hrest.
        split; [|done]. rewrite Hrest in Hq. by apply Forall_app in Hq as [_ ?].
  - intros HV Hne. destruct (Validate_names rel HV) as (pl & Hpl & Hplne & Hparts & Hall).
    rewrite Hparts, (Hall _ (Forall_rev Hp)), rev_app_distr, rev_involutive.
    assert (Hrne : rev pl <> []) by (intros Hnil; apply Hplne; rewrite <- (rev_involutive pl), Hnil; reflexivity).
    rewrite render_starts by done. rewrite (bool_decide_eq_false_2 (rev pl = [])) by done. cbn [negb andb].
    rewrite andb_false_r. auto using Forall_rev.
Qed.

Lemma validated_paths_stay_inside_witness :
  (exists names, Forall plain names /\
     "/data/functions/f1/src/main.py"%string = of_bytes (render_path true (clean_parts (bytes "/data/functions//f1/") ++ names))) /\
  Join_ "/data/functions//f1/" "lib/../src/main.py" =
    Ok (of_bytes (render_path true (clean_parts (bytes "/data/functions//f1/") ++ clean_parts (bytes "lib/../src/main.py")))).
Proof.
  split.
  - apply (proj1 (validated_paths_stay_inside "/data/functions//f1/" "lib/../src/main.py" eq_refl)). vm_compute. reflexivity.
  - refine (proj2 (proj2 (proj2 (validated_paths_stay_inside "/data/functions//f1/" "lib/../src/main.py" eq_refl) _ _))).
    + vm_compute. reflexivity.
    + by vm_compute.
Defined.

(** An accepted function id names one directory of its own below the data
    directory: the path ends in the id as a single plain name. *)
Lemma fnScopedPath_is_own_directory dataDir sub fnID p :
  fnScopedPath dataDir sub fnID = Ok p ->
  plain (bytes fnID) /\ starts_with [46] (bytes fnID) = false /\
  exists kept, p = of_bytes (render_path (is_rooted (bytes dataDir ++ slash :: bytes sub ++ slash :: bytes fnID)) (kept ++ [bytes fnID])).
Proof.
  unfold fnScopedPath. case_bool_decide; [done|]. destruct (_ || _) eqn:E; [done|]. intros [= <-].
  rewrite !orb_false_iff in E. destruct E as [[[H0%bool_decide_eq_false Hx] H46] _].
  assert (Hpl : plain (bytes fnID)).
  { split_and!; [done | intros He | intros He |]; [by rewrite He in H46 | by rewrite He in H46 |].
    intros Hin%list_elem_of_In. assert (Ht : existsb (fun c => (c =? 47) || (c =? 92) || (c =? 0)) (bytes fnID) = true); [|congruence].
    apply existsb_exists. exists slash. split; [done | reflexivity]. }
  split_and!; [done | done |].
  unfold Clean. cbn [app]. unfold clean_parts.
  set (r := is_rooted _). rewrite !split_path_app, !foldl_app, (split_path_slashless (bytes fnID)) by apply Hpl.
  cbn [foldl]. rewrite clean_step_plain by done. cbn [rev]. eauto.
Qed.
