(* ===== verification/Registry.v ===== *)
(** * Functions, deployments and the function registry
    ([database/functions.go], [database/deployments.go],
     [registry/registry.go])

    The rows of the two tables, the statements on them as operations on a
    [db], and the cache-first registry in front of the functions table.  A
    write takes a flag [io]: [true] when the statement fails for a reason of
    the disk and not of the data. *)
From S2P Require Import Prelude GoText Float64.
Open Scope Z_scope.

(* ------------------------------------------------------------------ *)
(** ** Rows *)

Record Function_ := MkFunction {
  fn_ID : string; fn_Name : string; fn_Description : string; fn_Runtime : string; fn_Entrypoint : string;
  fn_Image : string; fn_TimeoutMS : Z; fn_MemoryMB : Z; fn_CPUs : float64; fn_EnvVars : gmap string string;
  fn_NetworkMode : string; fn_MaxConcurrency : Z; fn_ConcurrencyPolicy : string; fn_AuthMode : string;
  fn_RateLimitPerMin : Z; fn_Version : Z; fn_Status : string; fn_CodeHash : string; fn_RunEntrypoint : string;
  fn_ActiveDeploymentID : string; fn_ImageSize : Z; fn_CreatedAt : Z; fn_UpdatedAt : Z }.
#[export] Instance eta_Function : Eta Function_ := fun r =>
  MkFunction (fn_ID r) (fn_Name r) (fn_Description r) (fn_Runtime r) (fn_Entrypoint r) (fn_Image r) (fn_TimeoutMS r)
    (fn_MemoryMB r) (fn_CPUs r) (fn_EnvVars r) (fn_NetworkMode r) (fn_MaxConcurrency r) (fn_ConcurrencyPolicy r)
    (fn_AuthMode r) (fn_RateLimitPerMin r) (fn_Version r) (fn_Status r) (fn_CodeHash r) (fn_RunEntrypoint r)
    (fn_ActiveDeploymentID r) (fn_ImageSize r) (fn_CreatedAt r) (fn_UpdatedAt r).

Record DeploymentSnapshot := MkSnapshot {
  s_EnvVars : gmap string string; s_RunEntrypoint : string; s_MemoryMB : Z; s_CPUs : float64; s_TimeoutMS : Z;
  s_NetworkMode : string; s_AuthMode : string; s_RateLimitPerMin : Z; s_MaxConcurrency : Z; s_ConcurrencyPolicy : string }.

Record Deployment := MkDeployment {
  d_ID : string; d_FunctionID : string; d_Version : Z; d_Status : string; d_Phase : string; d_ErrorMessage : string;
  d_SubmittedAt : Z; d_StartedAt : option Z; d_FinishedAt : option Z; d_DurationMS : option Z;
  d_CodeHash : string; d_Source : string; d_ParentDeploymentID : option string; d_Snapshot : option DeploymentSnapshot }.
#[export] Instance eta_Deployment : Eta Deployment := fun r =>
  MkDeployment (d_ID r) (d_FunctionID r) (d_Version r) (d_Status r) (d_Phase r) (d_ErrorMessage r) (d_SubmittedAt r)
    (d_StartedAt r) (d_FinishedAt r) (d_DurationMS r) (d_CodeHash r) (d_Source r) (d_ParentDeploymentID r) (d_Snapshot r).

(** [deployments] is in insertion order. *)
Record db := MkDb { functions : gmap string Function_; deployments : list Deployment }.
#[export] Instance eta_db : Eta db := fun r => MkDb (functions r) (deployments r).

Inductive dberr := EUnique | EForeignKey | ENoRows | EDisk.
#[export] Instance dberr_eq_dec : EqDecision dberr.
Proof. solve_decision. Defined.

(** [CURRENT_TIMESTAMP]: whole seconds. *)
Definition timestamp (now : Z) : Z := now / second * second.

(* ------------------------------------------------------------------ *)
(** ** [database/functions.go] *)

Definition ConcurrencyPolicyQueue : string := "queue".
Definition ConcurrencyPolicyReject : string := "reject".
Definition NetworkModeNone : string := "none".
Definition NetworkModeEgress : string := "egress".
Definition AuthModeNone : string := "none".
Definition AuthModePlatformKey : string := "platform_key".
Definition AuthModeSigned : string := "signed".

Definition ValidConcurrencyPolicy (s : string) : bool :=
  bool_decide (s ∈ [EmptyString; ConcurrencyPolicyQueue; ConcurrencyPolicyReject]).
Definition ValidNetworkMode (s : string) : bool := bool_decide (s ∈ [EmptyString; NetworkModeNone; NetworkModeEgress]).
Definition ValidAuthMode (s : string) : bool :=
  bool_decide (s ∈ [EmptyString; AuthModeNone; AuthModePlatformKey; AuthModeSigned]).

(** The name is taken by a row other than [id]. *)
Definition name_taken (id name : string) (fs : gmap string Function_) : bool :=
  existsb (fun kf => negb (bool_decide (kf.1 = id)) && bool_decide (fn_Name kf.2 = name)) (map_to_list fs).

Definition InsertFunction (io : bool) (now : Z) (fn : Function_) (d : db) : res dberr (db * Function_) :=
  if io then Err EDisk
  else if bool_decide (is_Some (functions d !! fn_ID fn)) || name_taken (fn_ID fn) (fn_Name fn) (functions d) then Err EUnique
  else let fn := fn <| fn_CreatedAt := timestamp now |> <| fn_UpdatedAt := timestamp now |> in
       Ok (d <| functions ::= <[fn_ID fn := fn]> |>, fn).

Definition UpdateFunction (io : bool) (now : Z) (fn : Function_) (d : db) : res dberr (db * Function_) :=
  if io then Err EDisk
  else match functions d !! fn_ID fn with
  | None => Err ENoRows
  | Some old =>
    if name_taken (fn_ID fn) (fn_Name fn) (functions d) then Err EUnique
    else let fn := fn <| fn_CreatedAt := fn_CreatedAt old |> <| fn_UpdatedAt := timestamp now |> in
         Ok (d <| functions ::= <[fn_ID fn := fn]> |>, fn)
  end.

Definition GetFunction (id : string) (d : db) : option Function_ := functions d !! id.

(** Names are unique, so at most one row answers. *)
Definition GetFunctionByName (name : string) (d : db) : option Function_ :=
  snd <$> List.find (fun kf : string * Function_ => bool_decide (fn_Name kf.2 = name)) (map_to_list (functions d)).

(** The row goes and [ON DELETE CASCADE] takes its deployments; deleting a
    row that is not there succeeds. *)
Definition DeleteFunction (io : bool) (id : string) (d : db) : res dberr db :=
  if io then Err EDisk
  else Ok (d <| functions ::= delete id |> <| deployments ::= filter (fun dep => d_FunctionID dep <> id) |>).

Record ListFunctionsParams := MkParams { p_Status : string; p_Runtime : string; p_Limit : Z; p_Offset : Z }.

Definition clamp_limit (limit : Z) : Z :=
  let limit := if limit <=? 0 then 20 else limit in if 1000 <? limit then 1000 else limit.

(** The page and the total; [order] is the order in which SQLite returns the
    rows of [ORDER BY created_at DESC] (rows of one second in any order). *)
Definition ListFunctions (order : list Function_ -> list Function_) (p : ListFunctionsParams) (d : db) : list Function_ * Z :=
  let rows := List.filter (fun f => (bool_decide (p_Status p = EmptyString) || bool_decide (fn_Status f = p_Status p)) &&
                                    (bool_decide (p_Runtime p = EmptyString) || bool_decide (fn_Runtime f = p_Runtime p)))
                (snd <$> map_to_list (functions d)) in
  (take (Z.to_nat (clamp_limit (p_Limit p))) (drop (Z.to_nat (p_Offset p)) (order rows)), Z.of_nat (length rows)).

(* ------------------------------------------------------------------ *)
(** ** [database/deployments.go] *)

Definition SnapshotFromFunction (fn : Function_) : DeploymentSnapshot :=
  MkSnapshot (fn_EnvVars fn) (fn_RunEntrypoint fn) (fn_MemoryMB fn) (fn_CPUs fn) (fn_TimeoutMS fn) (fn_NetworkMode fn)
    (fn_AuthMode fn) (fn_RateLimitPerMin fn) (fn_MaxConcurrency fn) (fn_ConcurrencyPolicy fn).

(** [DeploymentSnapshot.Equal]: the compiled entry point is not compared. *)
Definition Equal (s o : option DeploymentSnapshot) : bool :=
  match s, o with
  | Some s, Some o =>
    bool_decide (s_MemoryMB s = s_MemoryMB o) && feq (s_CPUs s) (s_CPUs o) && bool_decide (s_TimeoutMS s = s_TimeoutMS o) &&
    bool_decide (s_NetworkMode s = s_NetworkMode o) && bool_decide (s_AuthMode s = s_AuthMode o) &&
    bool_decide (s_RateLimitPerMin s = s_RateLimitPerMin o) && bool_decide (s_MaxConcurrency s = s_MaxConcurrency o) &&
    bool_decide (s_ConcurrencyPolicy s = s_ConcurrencyPolicy o) && bool_decide (s_EnvVars s = s_EnvVars o)
  | None, None => true
  | _, _ => false
  end.

Definition of_function (fnID : string) (d : db) : list Deployment :=
  List.filter (fun dep => bool_decide (d_FunctionID dep = fnID)) (deployments d).

(** [MAX(version)] with [COALESCE(_, 0)]. *)
Definition max_version (ds : list Deployment) : Z :=
  match d_Version <$> ds with [] => 0 | v :: vs => foldl Z.max v vs end.
Definition NextDeploymentVersion (fnID : string) (d : db) : Z := max_version (of_function fnID d) + 1.

(** The id is the primary key and the function must exist. *)
Definition InsertDeployment (io : bool) (now : Z) (dep : Deployment) (d : db) : res dberr db :=
  if io then Err EDisk
  else if existsb (fun x => bool_decide (d_ID x = d_ID dep)) (deployments d) then Err EUnique
  else if negb (bool_decide (is_Some (functions d !! d_FunctionID dep))) then Err EForeignKey
  else
    let source := if bool_decide (d_Source dep = EmptyString) then "deploy"%string else d_Source dep in
    Ok (d <| deployments ::= fun l => l ++
      [MkDeployment (d_ID dep) (d_FunctionID dep) (d_Version dep) (d_Status dep) (d_Phase dep) EmptyString (timestamp now)
         None None None (d_CodeHash dep) source (d_ParentDeploymentID dep) None] |>).

(** [UPDATE deployments SET ... WHERE id = ?]; no row is no error. *)
Definition update_deployment (io : bool) (id : string) (f : Deployment -> Deployment) (d : db) : db :=
  if io then d else d <| deployments ::= map (fun dep => if bool_decide (d_ID dep = id) then f dep else dep) |>.

Definition coalesce {A} (o : option A) (a : A) : option A := Some (default a o).

Definition SetDeploymentCodeHash (io : bool) (id codeHash : string) : db -> db :=
  update_deployment io id (fun dep => dep <| d_CodeHash := codeHash |>).
Definition SetDeploymentSnapshot (io : bool) (id : string) (snap : option DeploymentSnapshot) : db -> db :=
  update_deployment io id (fun dep => dep <| d_Snapshot := snap |>).
Definition UpdateDeploymentPhase (io : bool) (now : Z) (id phase : string) : db -> db :=
  update_deployment io id (fun dep => dep <| d_Phase := phase |> <| d_StartedAt ::= fun s => coalesce s (timestamp now) |>).
Definition FinishDeployment (io : bool) (now : Z) (id status errMsg : string) (durationMS : Z) : db -> db :=
  update_deployment io id (fun dep =>
    dep <| d_Status := status |> <| d_ErrorMessage := errMsg |> <| d_DurationMS := Some durationMS |>
        <| d_FinishedAt := Some (timestamp now) |> <| d_Phase := "done"%string |>).
Definition FinishRollbackDeployment (io : bool) (now : Z) (id : string) (durationMS : Z) : db -> db :=
  update_deployment io id (fun dep =>
    dep <| d_Status := "succeeded"%string |> <| d_Phase := "done"%string |> <| d_DurationMS := Some durationMS |>
        <| d_StartedAt ::= fun s => coalesce s (timestamp now) |> <| d_FinishedAt := Some (timestamp now) |>).

Definition GetDeployment (id : string) (d : db) : option Deployment :=
  List.find (fun dep => bool_decide (d_ID dep = id)) (deployments d).

(** The first row of a maximal [key]: the row SQLite returns for
    [ORDER BY key DESC LIMIT 1] when no two rows tie, one of them when they do. *)
Fixpoint latest {A} (key : A -> Z) (l : list A) : option A :=
  match l with
  | [] => None
  | x :: l => match latest key l with Some y => Some (if key x <? key y then y else x) | None => Some x end
  end.

Definition FindLatestSucceededByHash (fnID codeHash : string) (d : db) : option Deployment :=
  latest d_SubmittedAt
    (List.filter (fun dep => bool_decide (d_CodeHash dep = codeHash) && bool_decide (d_Status dep = "succeeded"%string))
       (of_function fnID d)).

Definition abandoned : string := "abandoned: the server restarted while this build was in progress".
Definition unfinished (dep : Deployment) : bool := bool_decide (d_Status dep ∈ ["queued"%string; "building"%string]).

Definition RequeueStuckDeployments (now : Z) (d : db) : db * Z :=
  (d <| deployments ::= map (fun dep =>
          if unfinished dep then
            dep <| d_Status := "failed"%string |> <| d_FinishedAt := Some (timestamp now) |>
                <| d_ErrorMessage ::= fun e => if bool_decide (e = EmptyString) then abandoned else e |>
          else dep) |>,
   Z.of_nat (length (List.filter unfinished (deployments d)))).

(** One-time: a function without a pointer gets the succeeded deployment that
    carries its version number, or else one that carries its code hash. *)
Definition backfill_target (fn : Function_) (d : db) : string :=
  let ok := List.filter (fun dep => bool_decide (d_Status dep = "succeeded"%string)) (of_function (fn_ID fn) d) in
  match latest d_SubmittedAt (List.filter (fun dep => bool_decide (d_Version dep = fn_Version fn)) ok) with
  | Some dep => d_ID dep
  | None =>
    let same := List.filter (fun dep => bool_decide (d_CodeHash dep = fn_CodeHash fn) &&
                                        negb (bool_decide (fn_CodeHash fn = EmptyString))) ok in
    match latest d_SubmittedAt (List.filter (fun dep => d_Version dep =? max_version same) same) with
    | Some dep => d_ID dep
    | None => EmptyString
    end
  end.

Definition backfillActiveDeployment (d : db) : db :=
  d <| functions ::= fmap (fun fn =>
         if bool_decide (fn_ActiveDeploymentID fn = EmptyString)
         then fn <| fn_ActiveDeploymentID := backfill_target fn d |> else fn) |>.

(* ------------------------------------------------------------------ *)
(** ** [registry/registry.go] *)

Inductive fn_event := EvCreated (fn : Function_) | EvUpdated (fn : Function_) | EvDeleted (id : string).

Record registry := MkRegistry { r_db : db; r_cache : gmap string Function_; r_events : list fn_event }.
#[export] Instance eta_registry : Eta registry := fun r => MkRegistry (r_db r) (r_cache r) (r_events r).

(** A hit is a copy of the cached row; a miss reads the table and caches what
    it found.  [Get_read] and [Get_store] are the two halves of a miss. *)
Definition Get_read (id : string) (r : registry) : option Function_ :=
  match r_cache r !! id with Some fn => Some fn | None => GetFunction id (r_db r) end.
Definition Get_store (fn : Function_) (r : registry) : registry := r <| r_cache ::= <[fn_ID fn := fn]> |>.
Definition Get (id : string) (r : registry) : registry * option Function_ :=
  match r_cache r !! id with
  | Some fn => (r, Some fn)
  | None => match GetFunction id (r_db r) with
            | Some fn => (Get_store fn r, Some fn)
            | None => (r, None)
            end
  end.
Definition Exists (id : string) (r : registry) : registry * bool :=
  let '(r, fn) := Get id r in (r, bool_decide (is_Some fn)).

(** Which statements of a [set] fail for a reason of the disk. *)
Record set_io := MkSetIo { io_insert : bool; io_update : bool }.
Definition io_fine : set_io := MkSetIo false false.

(** What [set] returns: the insert's error, or both when the update that
    followed it failed too. *)
Inductive set_error := SetInsert (e : dberr) | SetBoth (e e2 : dberr).
(** [strings.Contains(err.Error(), "UNIQUE constraint")]. *)
Definition mentions_unique (e : set_error) : bool :=
  match e with
  | SetInsert e => bool_decide (e = EUnique)
  | SetBoth e e2 => bool_decide (e = EUnique) || bool_decide (e2 = EUnique)
  end.

Definition publish_if (publish : bool) (e : fn_event) (r : registry) : registry :=
  if publish then r <| r_events ::= fun l => l ++ [e] |> else r.

(** [newID] is the identifier [GenerateID] draws for a row that has none. *)
Definition set (newID : string) (io : set_io) (now : Z) (fn : Function_) (publish : bool) (r : registry)
  : registry * res set_error Function_ :=
  let fn := if bool_decide (fn_ID fn = EmptyString) then fn <| fn_ID := newID |> else fn in
  match InsertFunction (io_insert io) now fn (r_db r) with
  | Ok (d, fn) =>
    (publish_if publish (EvCreated fn) (r <| r_db := d |> <| r_cache ::= <[fn_ID fn := fn]> |>), Ok fn)
  | Err e =>
    match GetFunction (fn_ID fn) (r_db r) with
    | None => (r, Err (SetInsert e))
    | Some _ =>
      match UpdateFunction (io_update io) now fn (r_db r) with
      | Ok (d, fn) => (publish_if publish (EvUpdated fn) (r <| r_db := d |> <| r_cache ::= <[fn_ID fn := fn]> |>), Ok fn)
      | Err e2 => (r, Err (SetBoth e e2))
      end
    end
  end.
Definition Set_ (newID : string) (io : set_io) (now : Z) (fn : Function_) (r : registry) := set newID io now fn true r.
Definition SetSilent (newID : string) (io : set_io) (now : Z) (fn : Function_) (r : registry) := set newID io now fn false r.

Definition Delete (io : bool) (id : string) (r : registry) : registry * option dberr :=
  match DeleteFunction io id (r_db r) with
  | Err e => (r, Some e)
  | Ok d => (r <| r_db := d |> <| r_cache ::= delete id |> <| r_events ::= fun l => l ++ [EvDeleted id] |>, None)
  end.

Definition List_ (order : list Function_ -> list Function_) (p : ListFunctionsParams) (r : registry) := ListFunctions order p (r_db r).

Definition LoadAll (order : list Function_ -> list Function_) (r : registry) : registry :=
  let fs := fst (ListFunctions order (MkParams EmptyString EmptyString 100000 0) (r_db r)) in
  r <| r_cache ::= fun c => foldl (fun c fn => <[fn_ID fn := fn]> c) c fs |>.

Definition ListActive (order : list Function_ -> list Function_) (r : registry) : list Function_ :=
  fst (ListFunctions order (MkParams "active" EmptyString 100000 0) (r_db r)).

(* ------------------------------------------------------------------ *)
(** ** What the tables keep *)

Definition names_unique (fs : gmap string Function_) : Prop :=
  forall i j f g, fs !! i = Some f -> fs !! j = Some g -> fn_Name f = fn_Name g -> i = j.

(** Rows sit under their own key, names are unique, deployment ids are unique
    and every deployment belongs to a function of the table. *)
Record db_ok (d : db) : Prop := {
  ok_keys : forall id fn, functions d !! id = Some fn -> fn_ID fn = id;
  ok_names : names_unique (functions d);
  ok_ids : NoDup (d_ID <$> deployments d);
  ok_parent : Forall (fun dep => is_Some (functions d !! d_FunctionID dep)) (deployments d) }.

Lemma name_taken_false id name fs :
  name_taken id name fs = false <-> forall j g, fs !! j = Some g -> fn_Name g = name -> j = id.
Proof.
  unfold name_taken. rewrite <- not_true_iff_false, existsb_exists. split.
  - intros H j g Hj Hn. destruct (decide (j = id)) as [|Hne]; [done|]. exfalso. apply H. exists (j, g).
    split; [by apply list_elem_of_In, elem_of_map_to_list|]. cbn. by rewrite bool_decide_eq_false_2, bool_decide_eq_true_2.
  - intros H ((j & g) & Hin & Hb). apply list_elem_of_In, elem_of_map_to_list in Hin. cbn in Hb.
    apply andb_true_iff in Hb as [Hne%negb_true_iff%bool_decide_eq_false Hn%bool_decide_eq_true]. eauto.
Qed.

Lemma names_unique_insert id fn fs :
  names_unique fs -> name_taken id (fn_Name fn) fs = false -> names_unique (<[id := fn]> fs).
Proof.
  intros Hu Hn i j f g. rewrite name_taken_false in Hn. rewrite !lookup_insert_Some.
  intros [[<- <-]|[Hi Hf]] [[<- <-]|[Hj Hg]] He; [done | | |].
  - symmetry. eauto.
  - eauto.
  - eauto.
Qed.

Lemma db_ok_put fn d :
  db_ok d -> name_taken (fn_ID fn) (fn_Name fn) (functions d) = false ->
  db_ok (d <| functions ::= <[fn_ID fn := fn]> |>).
Proof.
  intros [Hk Hn Hi Hp] Ht. split; cbn.
  - intros id f [[<- <-]|[_ ?]]%lookup_insert_Some; eauto.
  - by apply names_unique_insert.
  - done.
  - eapply Forall_impl; [exact Hp|]. intros dep Hd. destruct (decide (fn_ID fn = d_FunctionID dep)) as [He|Hne].
    + rewrite He, lookup_insert_eq. eauto.
    + by rewrite lookup_insert_ne.
Qed.

Lemma InsertFunction_ok io now fn d d' fn' :
  InsertFunction io now fn d = Ok (d', fn') ->
  io = false /\ functions d !! fn_ID fn = None /\ name_taken (fn_ID fn) (fn_Name fn) (functions d) = false /\
  fn' = (fn <| fn_CreatedAt := timestamp now |> <| fn_UpdatedAt := timestamp now |>) /\
  d' = (d <| functions ::= <[fn_ID fn := fn']> |>).
Proof.
  unfold InsertFunction. destruct io; [done|]. case_bool_decide as Hs; [done|]. cbn [orb].
  destruct (name_taken _ _ _); [done|]. intros [= <- <-].
  assert (Hnone : functions d !! fn_ID fn = None) by (destruct (functions d !! fn_ID fn) eqn:E; [exfalso; eauto | done]).
  auto 10.
Qed.

Lemma UpdateFunction_ok io now fn d d' fn' :
  UpdateFunction io now fn d = Ok (d', fn') ->
  io = false /\ name_taken (fn_ID fn) (fn_Name fn) (functions d) = false /\
  exists old, functions d !! fn_ID fn = Some old /\
    fn' = (fn <| fn_CreatedAt := fn_CreatedAt old |> <| fn_UpdatedAt := timestamp now |>) /\
    d' = (d <| functions ::= <[fn_ID fn := fn']> |>).
Proof.
  unfold UpdateFunction. destruct io; [done|]. destruct (functions d !! fn_ID fn) as [old|]; [|done].
  destruct (name_taken _ _ _); [done|]. intros [= <- <-]. eauto 10.
Qed.

Lemma GetDeployment_Some id d dep : GetDeployment id d = Some dep -> dep ∈ deployments d /\ d_ID dep = id.
Proof.
  unfold GetDeployment. intros [Hin Hid%bool_decide_eq_true]%List.find_some. split; [by apply list_elem_of_In | done].
Qed.

Lemma GetDeployment_in d dep : NoDup (d_ID <$> deployments d) -> dep ∈ deployments d -> GetDeployment (d_ID dep) d = Some dep.
Proof.
  unfold GetDeployment. induction (deployments d) as [|x l IH]; [by intros _ ?%elem_of_nil|].
  rewrite fmap_cons. intros [Hx Hl]%NoDup_cons [->|Hin]%elem_of_cons; cbn.
  - by rewrite bool_decide_eq_true_2.
  - rewrite bool_decide_eq_false_2; [auto|]. intros He. apply Hx. rewrite He. by apply list_elem_of_fmap_2.
Qed.

Lemma latest_in {A} (key : A -> Z) l x : latest key l = Some x -> x ∈ l.
Proof.
  revert x. induction l as [|y l IH]; intros x; [done|]. cbn. destruct (latest key l) as [z|].
  - intros [= <-]. destruct (key y <? key z); [right; auto | left].
  - intros [= <-]. left.
Qed.

Lemma FindLatest_in fnID hash d dep : FindLatestSucceededByHash fnID hash d = Some dep ->
  dep ∈ deployments d /\ d_FunctionID dep = fnID /\ d_CodeHash dep = hash /\ d_Status dep = "succeeded"%string.
Proof.
  intros [[Hin Ho%bool_decide_eq_true]%List.filter_In Hb]%latest_in%list_elem_of_In%List.filter_In.
  apply andb_true_iff in Hb as [Hh%bool_decide_eq_true Hs%bool_decide_eq_true]. by rewrite list_elem_of_In.
Qed.

(** An update of deployments that leaves ids and owners alone keeps the tables. *)
Lemma db_ok_deployments_map (f : Deployment -> Deployment) d :
  (forall dep, d_ID (f dep) = d_ID dep /\ d_FunctionID (f dep) = d_FunctionID dep) ->
  db_ok d -> db_ok (d <| deployments ::= map f |>).
Proof.
  intros Hf [Hk Hn Hi Hp]. split; cbn; [done | done | |].
  - replace (d_ID <$> map f (deployments d)) with (d_ID <$> deployments d); [done|].
    induction (deployments d) as [|x l IH]; [done|]. cbn. destruct (Hf x) as [-> _]. f_equal. apply IH.
    + by apply NoDup_cons in Hi as [_ ?].
    + by apply Forall_cons in Hp as [_ ?].
  - apply Forall_map. eapply Forall_impl; [exact Hp|]. intros dep Hd. cbn. by destruct (Hf dep) as [_ ->].
Qed.

Lemma db_ok_update io id f d :
  (forall dep, d_ID (f dep) = d_ID dep /\ d_FunctionID (f dep) = d_FunctionID dep) ->
  db_ok d -> db_ok (update_deployment io id f d).
Proof.
  intros Hf Hd. unfold update_deployment. destruct io; [done|]. apply db_ok_deployments_map; [|done].
  intros dep. by case_bool_decide.
Qed.

Lemma db_ok_insert_deployment io now dep d d' : InsertDeployment io now dep d = Ok d' -> db_ok d -> db_ok d'.
Proof.
  unfold InsertDeployment. destruct io; [done|]. destruct (existsb _ _) eqn:Ex; [done|].
  case_bool_decide as Hf; [|done]. cbn [negb]. intros [= <-] [Hk Hn Hi Hp]. split; cbn; [done | done | |].
  - rewrite fmap_app. apply NoDup_app. split; [done|]. split; [|apply NoDup_singleton].
    intros x (y & -> & Hy)%list_elem_of_fmap He%list_elem_of_singleton. cbn in He.
    rewrite <- not_true_iff_false in Ex. apply Ex, existsb_exists. exists y. split; [by apply list_elem_of_In|].
    by apply bool_decide_eq_true_2.
  - apply Forall_app. split; [done|]. by apply Forall_singleton.
Qed.

Lemma NoDup_fmap_filter {A B} (f : A -> B) (P : A -> Prop) `{!forall x, Decision (P x)} (l : list A) :
  NoDup (f <$> l) -> NoDup (f <$> filter P l).
Proof.
  induction l as [|x l IH]; [done|]. rewrite fmap_cons. intros [Hx Hl]%NoDup_cons. rewrite filter_cons. destruct (decide (P x)); [|auto].
  rewrite fmap_cons. constructor; [|auto]. intros (y & He & [_ Hy]%list_elem_of_filter)%list_elem_of_fmap.
  apply Hx. rewrite He. by apply list_elem_of_fmap_2.
Qed.

Lemma db_ok_delete io id d d' : DeleteFunction io id d = Ok d' -> db_ok d -> db_ok d'.
Proof.
  unfold DeleteFunction. destruct io; [done|]. intros [= <-] [Hk Hn Hi Hp]. split; cbn.
  - intros i f [_ ?]%lookup_delete_Some. eauto.
  - intros i j f g [_ ?]%lookup_delete_Some [_ ?]%lookup_delete_Some. eauto.
  - by apply NoDup_fmap_filter.
  - apply Forall_forall. intros dep [Hne Hin]%list_elem_of_filter. rewrite Forall_forall in Hp. by rewrite lookup_delete_ne by done; apply Hp.
Qed.

(* ------------------------------------------------------------------ *)
(** ** The registry as a table

    What a caller sees of the registry is the functions table: the cache never
    answers differently, for operations that do not overlap. *)

Definition coherent (r : registry) : Prop := forall id fn, r_cache r !! id = Some fn -> functions (r_db r) !! id = Some fn.

Inductive reg_op :=
| OpGet (id : string)
| OpExists (id : string)
| OpSet (newID : string) (io : set_io) (now : Z) (fn : Function_) (publish : bool)
| OpDelete (io : bool) (id : string)
| OpLoadAll.

Inductive reg_out := OutFn (fn : option Function_) | OutBool (b : bool) | OutSet (x : res set_error Function_) | OutErr (e : option dberr) | OutUnit.

Definition reg_step (order : list Function_ -> list Function_) (op : reg_op) (r : registry) : registry * reg_out :=
  match op with
  | OpGet id => let '(r, fn) := Get id r in (r, OutFn fn)
  | OpExists id => let '(r, b) := Exists id r in (r, OutBool b)
  | OpSet newID io now fn publish => let '(r, x) := set newID io now fn publish r in (r, OutSet x)
  | OpDelete io id => let '(r, e) := Delete io id r in (r, OutErr e)
  | OpLoadAll => (LoadAll order r, OutUnit)
  end.

(** The abstract registry: one map of rows under unique names. *)
Definition spec_set (newID : string) (io : set_io) (now : Z) (fn : Function_) (d : db) : db * res set_error Function_ :=
  let fn := if bool_decide (fn_ID fn = EmptyString) then fn <| fn_ID := newID |> else fn in
  let taken := name_taken (fn_ID fn) (fn_Name fn) (functions d) in
  let put created := let fn := fn <| fn_CreatedAt := created |> <| fn_UpdatedAt := timestamp now |> in
                     (d <| functions ::= <[fn_ID fn := fn]> |>, Ok fn) in
  match functions d !! fn_ID fn with
  | None => if io_insert io then (d, Err (SetInsert EDisk)) else if taken then (d, Err (SetInsert EUnique)) else put (timestamp now)
  | Some old =>
    let e := if io_insert io then EDisk else EUnique in
    if io_update io then (d, Err (SetBoth e EDisk)) else if taken then (d, Err (SetBoth e EUnique)) else put (fn_CreatedAt old)
  end.

Definition spec_step (op : reg_op) (d : db) : db * reg_out :=
  match op with
  | OpGet id => (d, OutFn (functions d !! id))
  | OpExists id => (d, OutBool (bool_decide (is_Some (functions d !! id))))
  | OpSet newID io now fn _ => let '(d, x) := spec_set newID io now fn d in (d, OutSet x)
  | OpDelete io id =>
    if io then (d, OutErr (Some EDisk))
    else (d <| functions ::= delete id |> <| deployments ::= filter (fun dep => d_FunctionID dep <> id) |>, OutErr None)
  | OpLoadAll => (d, OutUnit)
  end.

Fixpoint run_ops {S O I : Type} (f : I -> S -> S * O) (l : list I) (s : S) : S * list O :=
  match l with
  | [] => (s, [])
  | i :: l => let '(s, o) := f i s in let '(s, os) := run_ops f l s in (s, o :: os)
  end.

Lemma coherent_put r d k fn es :
  coherent r -> functions d = <[k := fn]> (functions (r_db r)) ->
  coherent (MkRegistry d (<[k := fn]> (r_cache r)) es).
Proof.
  intros Hc Hd i f. cbn. rewrite Hd, !lookup_insert_Some. intros [?|[? ?]]; [by left | right; auto].
Qed.

Lemma Get_coherent id r : coherent r -> db_ok (r_db r) ->
  coherent (fst (Get id r)) /\ r_db (fst (Get id r)) = r_db r /\ snd (Get id r) = functions (r_db r) !! id.
Proof.
  intros Hc Hok. unfold Get, GetFunction. destruct (r_cache r !! id) as [fn|] eqn:E; cbn; [auto using eq_sym|].
  destruct (functions (r_db r) !! id) as [fn|] eqn:Ef; cbn; [|auto]. split; [|auto].
  intros i f. cbn. rewrite lookup_insert_Some. pose proof (ok_keys _ Hok _ _ Ef) as Hid. intros [[<- <-]|[_ Hi]]; [by rewrite Hid | auto].
Qed.

Lemma set_publish_db b e r : r_db (publish_if b e r) = r_db r /\ r_cache (publish_if b e r) = r_cache r.
Proof. by destruct b. Qed.

Lemma coherent_publish b e r : coherent r -> coherent (publish_if b e r).
Proof. by destruct b. Qed.

Lemma set_coherent newID io now fn publish r : coherent r ->
  let '(r', x) := set newID io now fn publish r in
  coherent r' /\ (r_db r', x) = spec_set newID io now fn (r_db r).
Proof.
  intros Hc. unfold set, spec_set, GetFunction. cbv zeta. set (f := if bool_decide _ then _ else _).
  destruct (functions (r_db r) !! fn_ID f) as [old|] eqn:Ef.
  - assert (Hins : InsertFunction (io_insert io) now f (r_db r) = Err (if io_insert io then EDisk else EUnique)).
    { unfold InsertFunction. rewrite Ef. destruct (io_insert io); [done|]. by rewrite bool_decide_eq_true_2 by eauto. }
    rewrite Hins. unfold UpdateFunction. rewrite Ef.
    destruct (io_update io); [auto|]. destruct (name_taken _ _ _); [auto|]. cbn. split; [|by destruct publish].
    eapply coherent_publish, coherent_put; [exact Hc | reflexivity].
  - unfold InsertFunction. rewrite Ef. destruct (io_insert io); [auto|].
    rewrite bool_decide_eq_false_2 by (by intros [? ?]). cbn [orb].
    destruct (name_taken _ _ _); [auto|]. cbn. split; [|by destruct publish].
    eapply coherent_publish, coherent_put; [exact Hc | reflexivity].
Qed.

Lemma spec_set_ok newID io now fn d : db_ok d -> db_ok (fst (spec_set newID io now fn d)).
Proof.
  intros Hd. unfold spec_set. cbv zeta. set (f := if bool_decide _ then _ else _).
  destruct (functions d !! fn_ID f) as [old|] eqn:Ef.
  - destruct (io_update io); [done|]. destruct (name_taken _ _ _) eqn:Ht; [done|].
    apply (db_ok_put (f <| fn_CreatedAt := fn_CreatedAt old |> <| fn_UpdatedAt := timestamp now |>)); done.
  - destruct (io_insert io); [done|]. destruct (name_taken _ _ _) eqn:Ht; [done|].
    apply (db_ok_put (f <| fn_CreatedAt := timestamp now |> <| fn_UpdatedAt := timestamp now |>)); done.
Qed.

(** A page of rows is a set of rows. *)
Definition returns_rows (order : list Function_ -> list Function_) : Prop := forall l, order l ≡ₚ l.

Lemma ListFunctions_in order p d fn : returns_rows order ->
  fn ∈ fst (ListFunctions order p d) -> exists id, functions d !! id = Some fn.
Proof.
  intros Hr (i & Hin & _)%elem_of_take. rewrite lookup_drop in Hin. apply list_elem_of_lookup_2, list_elem_of_In in Hin.
  apply (Permutation_in _ (Hr _)), List.filter_In in Hin as [Hin _]. apply list_elem_of_In, list_elem_of_fmap in Hin as ((id & f) & -> & Hin).
  exists id. by apply elem_of_map_to_list.
Qed.

Lemma LoadAll_coherent order r : returns_rows order -> coherent r -> db_ok (r_db r) -> coherent (LoadAll order r).
Proof.
  intros Hr Hc Hok. unfold LoadAll. set (fs := fst _).
  assert (Hfs : Forall (fun fn => functions (r_db r) !! fn_ID fn = Some fn) fs).
  { apply Forall_forall. intros fn (id & Hid)%ListFunctions_in; [|done]. by rewrite (ok_keys _ Hok _ _ Hid). }
  clearbody fs. destruct r as [d c es]. unfold coherent in *. cbn in *. revert c Hc.
  induction Hfs as [|fn fs Hf _ IH]; intros c Hc; cbn; [done|]. apply IH.
  intros id f [[<- <-]|[_ ?]]%lookup_insert_Some; auto.
Qed.

Lemma reg_step_refines order op r : returns_rows order -> coherent r -> db_ok (r_db r) ->
  let '(r', o) := reg_step order op r in
  coherent r' /\ db_ok (r_db r') /\ (r_db r', o) = spec_step op (r_db r).
Proof.
  intros Hr Hc Hok. destruct op as [id|id|newID io now fn publish|io id|]; cbn.
  - destruct (Get_coherent id r Hc Hok) as (H1 & H2 & H3). destruct (Get id r) as [r' f]. cbn in *. subst. rewrite H2. auto.
  - unfold Exists. destruct (Get_coherent id r Hc Hok) as (H1 & H2 & H3). destruct (Get id r) as [r' f]. cbn in *. subst. rewrite H2. auto.
  - pose proof (set_coherent newID io now fn publish r Hc) as H. pose proof (spec_set_ok newID io now fn (r_db r) Hok) as H'.
    destruct (set _ _ _ _ _ _) as [r' x]. destruct H as [H1 H2]. rewrite <- H2 in *. auto.
  - unfold Delete. destruct (DeleteFunction io id (r_db r)) as [d|e] eqn:E.
    + cbn. pose proof (db_ok_delete _ _ _ _ E Hok). unfold DeleteFunction in E. destruct io; [done|]. injection E as <-.
      split_and!; [|done|done]. intros i f Hi. cbn in *. apply lookup_delete_Some in Hi as [Hne Hi]. rewrite lookup_delete_ne by done. auto.
    + unfold DeleteFunction in E. destruct io; [|done]. injection E as <-. auto.
  - split_and!; [by apply LoadAll_coherent | done | done].
Qed.

(** For any sequence of lookups, existence checks, writes, deletions and
    reloads, started from a cache that agrees with the table, the registry
    answers exactly as the functions table alone would: the cache is never
    visible, errors of failed writes included, and the tables stay well
    formed (unique names and ids, no deployment without its function). *)
Theorem registry_is_the_table order ops r :
  returns_rows order -> coherent r -> db_ok (r_db r) ->
  let '(r', outs) := run_ops (reg_step order) ops r in
  (r_db r', outs) = run_ops spec_step ops (r_db r) /\ coherent r' /\ db_ok (r_db r').
Proof.
  intros Hr. revert r. induction ops as [|op ops IH]; intros r Hc Hok; cbn; [auto|].
  pose proof (reg_step_refines order op r Hr Hc Hok) as H. destruct (reg_step order op r) as [r' o]. destruct H as (H1 & H2 & <-).
  specialize (IH r' H1 H2). destruct (run_ops (reg_step order) ops r') as [r'' os]. destruct IH as (<- & H3 & H4). auto.
Qed.

(** A concrete row: the defaults of the create handler. *)
Definition sample_function (id name : string) : Function_ :=
  MkFunction id name "" "node" "handler.js" "" 30000 64 (fconst 1 2) ∅ "none" 0 "queue" "none" 0 1 "created" "" "" "" 0 0 0.

Lemma db_ok_empty : db_ok (MkDb ∅ []).
Proof. split; cbn; [by intros ? ? ?%lookup_empty_Some | by intros ? ? ? ? ?%lookup_empty_Some | constructor | constructor]. Qed.

Lemma registry_is_the_table_witness :
  let ops := [OpSet "f1" io_fine second (sample_function "" "a") true; OpGet "f1"; OpSet "f2" io_fine second (sample_function "" "a") true;
              OpLoadAll; OpDelete false "f1"; OpGet "f1"] in
  let r := MkRegistry (MkDb ∅ []) ∅ [] in
  let '(r', outs) := run_ops (reg_step id) ops r in
  ((r_db r', outs) = run_ops spec_step ops (r_db r) /\ coherent r' /\ db_ok (r_db r')) /\
  nth_error outs 2 = Some (OutSet (Err (SetInsert EUnique))).
Proof.
  intros ops r. pose proof (registry_is_the_table id ops r) as H.
  destruct (run_ops (reg_step id) ops r) as [r' outs] eqn:E. split.
  - apply H; [by intros l | intros ? ? Hl; cbn in Hl; by apply lookup_empty_Some in Hl | apply db_ok_empty].
  - revert E. vm_compute. by intros [= _ <-].
Defined.

(** A page never has more than a thousand rows, whatever limit was asked for. *)
Lemma ListFunctions_length order p d : (length (fst (ListFunctions order p d)) <= 1000)%nat.
Proof.
  cbn. rewrite length_take. unfold clamp_limit. split_ifs; zbool; lia.
Qed.

(** Without a filter the page of a full listing is complete exactly up to a
    thousand functions: [LoadAll] and [ListActive] ask for 100000 and the
    version collector for 10000, and get at most this. *)
Lemma full_listing_stops_at_1000 order limit d : returns_rows order -> 1000 <= limit ->
  Z.of_nat (length (fst (ListFunctions order (MkParams EmptyString EmptyString limit 0) d))) =
  Z.min 1000 (snd (ListFunctions order (MkParams EmptyString EmptyString limit 0) d)).
Proof.
  intros Hr Hl. cbn. rewrite length_take, drop_0. rewrite (Permutation_length (Hr _)).
  replace (clamp_limit limit) with 1000; [lia|]. unfold clamp_limit. split_ifs; zbool; lia.
Qed.

(** A lookup that misses the cache reads the table and stores what it read in
    two moves.  A deletion between them leaves a cached row with no row behind
    it, and from then on the function exists for every caller of the registry. *)
Lemma lookup_racing_delete_caches_a_ghost fn r :
  r_cache r !! fn_ID fn = None -> functions (r_db r) !! fn_ID fn = Some fn ->
  exists got, Get_read (fn_ID fn) r = Some got /\
  let r' := Get_store got (fst (Delete false (fn_ID fn) r)) in
  functions (r_db r') !! fn_ID fn = None /\ snd (Exists (fn_ID fn) r') = true /\ snd (Get (fn_ID fn) r') = Some fn.
Proof.
  intros Hc Hf. exists fn. unfold Get_read. rewrite Hc. split; [done|]. cbn.
  assert (Hhit : r_cache (Get_store fn (fst (Delete false (fn_ID fn) r))) !! fn_ID fn = Some fn) by (cbn; apply lookup_insert_eq).
  split; [apply lookup_delete_eq|]. unfold Exists, Get. cbn in Hhit |- *. rewrite Hhit. cbn. auto.
Qed.
