(* ===== verification/Builder.v ===== *)
(** * The builder ([builder/builder.go], [builder/validator.go],
    [builder/syntax.go], [builder/activate.go], [builder/gc.go])

    A function's directory on disk, archive extraction and validation, the
    build pipeline with its jailed steps, activation of a version and the
    pruning of old ones.  A tree maps a path, as its list of names below the
    tree's root, to a directory or a file; it has no links, because the
    extractor makes none and the pipeline looks at files by name only. *)
From S2P Require Import Prelude GoText Netip Url Sha256 Safepath Registry.
Open Scope Z_scope.

(* ------------------------------------------------------------------ *)
(** ** Trees *)

Inductive node := Dir | File (content : list Z).
#[export] Instance node_eq_dec : EqDecision node.
Proof. solve_decision. Defined.

Abbreviation path := (list (list Z)).
Abbreviation tree := (gmap (list (list Z)) node).
Definition empty_dir : tree := {[ [] := Dir ]}.

Definition parents (p : path) : list path := map (fun n => take n p) (seq 0 (length p)).

(** [os.MkdirAll]. *)
Definition mkdir_one (acc : option tree) (q : path) : option tree :=
  t ← acc; match t !! q with Some (File _) => None | Some Dir => Some t | None => Some (<[q := Dir]> t) end.
Definition mkdir_all (p : path) (t : tree) : option tree := foldl mkdir_one (Some t) (parents p ++ [p]).

(** [os.Create], write: the parent must be a directory and the file none. *)
Definition write_file (p : path) (content : list Z) (t : tree) : option tree :=
  match p with
  | [] => None
  | _ => match t !! take (length p - 1) p, t !! p with
         | Some Dir, Some (File _) | Some Dir, None => Some (<[p := File content]> t)
         | _, _ => None
         end
  end.

Inductive stat_result := StFile | StDir | StNotExist | StNotDir.
Definition stat (t : tree) (p : path) : stat_result :=
  if existsb (fun q => match t !! q with Some (File _) => true | _ => false end) (parents p) then StNotDir
  else match t !! p with Some (File _) => StFile | Some Dir => StDir | None => StNotExist end.
Definition found (r : stat_result) : bool := match r with StFile | StDir => true | _ => false end.
Definition not_exist (r : stat_result) : bool := match r with StNotExist => true | _ => false end.

(** [os.Root.Stat] and [os.Root.ReadFile] of a cleaned path: a path that is
    rooted or starts with [..] leaves the root and fails. *)
Definition root_path (name : list Z) : option path :=
  if is_rooted name then None
  else match clean_parts name with k :: ps => if bool_decide (k = dot2) then None else Some (k :: ps) | [] => Some [] end.
Definition root_found (t : tree) (name : list Z) : bool :=
  match root_path name with Some p => found (stat t p) | None => false end.
Definition read_file (t : tree) (p : path) : option (list Z) :=
  match stat t p, t !! p with StFile, Some (File c) => Some c | _, _ => None end.

(* ------------------------------------------------------------------ *)
(** ** Package filepath on names *)

Definition has_suffix (suf l : list Z) : bool := starts_with (rev suf) (rev l).
Definition trim_suffix (suf l : list Z) : list Z := if has_suffix suf l then take (length l - length suf) l else l.
Definition trim_prefix (p l : list Z) : list Z := if starts_with p l then drop (length p) l else l.

(** [filepath.Ext]: from the last dot of the last element. *)
Fixpoint ext_rev (acc r : list Z) : list Z :=
  match r with
  | [] => []
  | c :: r => if c =? slash then [] else if c =? 46 then c :: acc else ext_rev (c :: acc) r
  end.
Definition Ext (p : list Z) : list Z := ext_rev [] (rev p).

Fixpoint strip_slashes (r : list Z) : list Z :=
  match r with c :: r' => if c =? slash then strip_slashes r' else r | [] => [] end.
Fixpoint until_slash (r : list Z) : list Z :=
  match r with c :: r => if c =? slash then [] else c :: until_slash r | [] => [] end.
(** [filepath.Base]. *)
Definition Base (p : list Z) : list Z :=
  match p with
  | [] => dot1
  | _ => match rev (until_slash (strip_slashes (rev p))) with [] => [slash] | b => b end
  end.

(* ------------------------------------------------------------------ *)
(** ** Extraction ([extractTarGz]) *)

Inductive typeflag := TypeDir | TypeReg | TypeSymlink | TypeLink | TypeOther.
(** One header with the bytes of its file, and whether they could be read. *)
Record header := MkHeader { h_Name : list Z; h_Typeflag : typeflag; h_Data : list Z; h_Readable : bool }.
(** What the tar reader yields: headers, or the error that ends the archive. *)
Inductive tar_item := Entry (h : header) | TarError.

Inductive extract_error := XTar | XTraversal | XLink | XIO.

Definition extract_entry (destDir : list Z) (h : header) (t : tree) : res extract_error tree :=
  let cleanName := Clean (h_Name h) in
  if starts_with dot2 cleanName || starts_with [slash] cleanName then Err XTraversal
  else
    let target := Join2 destDir cleanName in
    if negb (bool_decide (target = Clean destDir)) && negb (starts_with (Clean destDir ++ [slash]) target) then Err XTraversal
    else
      let p := clean_parts (h_Name h) in
      match h_Typeflag h with
      | TypeDir => match mkdir_all p t with Some t => Ok t | None => Err XIO end
      | TypeReg =>
        match (t ← mkdir_all (take (length p - 1) p) t; write_file p (h_Data h) t) with
        | Some t => if h_Readable h then Ok t else Err XIO
        | None => Err XIO
        end
      | TypeSymlink | TypeLink => Err XLink
      | TypeOther => Ok t
      end.

Fixpoint extract (destDir : list Z) (items : list tar_item) (t : tree) : res extract_error tree :=
  match items with
  | [] => Ok t
  | TarError :: _ => Err XTar
  | Entry h :: items => match extract_entry destDir h t with Ok t => extract destDir items t | Err e => Err e end
  end.

(* ------------------------------------------------------------------ *)
(** ** Validation ([ValidateArchive], [resolveSourceEntrypoint]) *)

Definition isNodeRuntime (r : string) : bool := bool_decide (r = "node"%string).
Definition isPythonRuntime (r : string) : bool := bool_decide (r = "python"%string).

Definition tsconfig : list Z := bytes "tsconfig.json".
Definition package_json : list Z := bytes "package.json".
Definition requirements_txt : list Z := bytes "requirements.txt".
Definition ready_marker : list Z := bytes ".orva-ready".

(** [os.Stat(filepath.Join(dir, rel))]: below the directory the tree answers,
    outside of it the rest of the host does, [outside]. *)
Definition stat_join (outside : list Z -> stat_result) (dir : list Z) (t : tree) (rel : list Z) : stat_result :=
  let full := Join2 dir rel in
  if bool_decide (full = Clean dir) then stat t []
  else if starts_with (Clean dir ++ [slash]) full
  then stat t (drop (length (clean_parts dir)) (clean_parts full))
  else outside full.

(** The files at the top of a tree, in the order [os.ReadDir] lists them. *)
Definition top_files (t : tree) : list (list Z) :=
  bytes <$> merge_sort str_le
    (omap (fun '(p, n) => match p, n with [x], File _ => Some (of_bytes x) | _, _ => None end) (map_to_list t)).

Definition DefaultMaxCodeSize : Z := 50 * 1024 * 1024.

Definition file_bytes (n : node) : list Z := match n with File c => c | Dir => [] end.
Definition is_elf (n : node) : bool := bool_decide (take 4 (file_bytes n) = [127; 69; 76; 70]).

Inductive validate_error := VEntrypoint | VTraversal | VELF | VSize.

(* ------------------------------------------------------------------ *)
(** ** Jailed steps *)

(** The egress policy a step runs under: file and generation. *)
Definition policy := (string * string)%type.

Record build_config := MkConfig { c_Argv : list string; c_Stream : string; c_Egress : bool; c_Policy : option policy }.

Inductive build_error :=
| BDisk | BHash | BExtract (e : extract_error) | BValidate (e : validate_error) | BSyntax | BNoTsconfig
| BEgressPolicyMissing | BEgressPolicy | BJail | BNoTypeScript | BNotCompiled | BRuntime | BAdapter | BMarker | BHook | BPublish.

(** What the pipeline takes from outside the repository: the archive reader,
    the JSON decoder's answers for [tsconfig.json] ([compilerOptions.outDir])
    and [package.json] (whether [typescript] is a dependency), [%q] quoting,
    the rest of the host's file system, the sandbox that runs one command on
    the code directory, and the firewall's policy accessor when it is wired. *)
Record host := MkHost {
  untar : list Z -> list tar_item;
  json_outDir : list Z -> option (list Z);
  json_declares_ts : list Z -> option bool;
  quote : list Z -> list Z;
  cwd : list Z;
  outside : list Z -> stat_result;
  jail : build_config -> tree -> res unit tree;
  EgressPolicy : option (res unit policy) }.

(** [<dataDir>/functions/<id>]: the version directories, scratch ones too, and
    the target of the [current] link. *)
Record version_dir := MkVersionDir { v_tree : tree; v_mtime : Z }.
Record fn_dir := MkFnDir { versions : gmap string version_dir; current : option string }.
#[export] Instance eta_fn_dir : Eta fn_dir := fun r => MkFnDir (versions r) (current r).
Abbreviation disk := (gmap string fn_dir).
Definition dir_of (fnID : string) (d : disk) : fn_dir := default (MkFnDir ∅ None) (d !! fnID).

(** [filepath.Abs]. *)
Definition Abs (cwd p : list Z) : list Z := if is_rooted p then Clean p else Join2 cwd p.

Section Pipeline.
Context (H : host).

Definition resolveSourceEntrypoint (dir : list Z) (t : tree) (entrypoint : list Z) : list Z :=
  if negb (found (stat t [tsconfig])) then entrypoint
  else if found (stat_join (outside H) dir t entrypoint) then entrypoint
  else
    let base := Base entrypoint in
    let stem := trim_suffix (Ext base) base in
    let candidate := stem ++ bytes ".ts" in
    if negb (bool_decide (stem = [])) && found (stat_join (outside H) dir t candidate) then candidate
    else if found (stat t [bytes "handler.ts"]) then bytes "handler.ts"
    else default entrypoint (List.find (fun n => negb (has_suffix (bytes ".d.ts") n) && has_suffix (bytes ".ts") n) (top_files t)).

Definition ValidateArchive (dir : list Z) (t : tree) (entrypoint : list Z) : res validate_error unit :=
  let dir := Abs (cwd H) dir in
  let files := snd <$> map_to_list t in
  if not_exist (stat_join (outside H) dir t (resolveSourceEntrypoint dir t entrypoint)) then Err VEntrypoint
  else if existsb (fun pn : path * node => match pn.1 with e :: _ => starts_with dot2 e | [] => false end) (map_to_list t) then Err VTraversal
  else if existsb is_elf files then Err VELF
  else if DefaultMaxCodeSize <? zsum (fun n => Z.of_nat (length (file_bytes n))) files then Err VSize
  else Ok tt.

(** A step's result, with the configurations handed to the sandbox so far. *)
Definition step_result (A : Type) := (list build_config * res build_error A)%type.

Definition resolveEgressPolicy : res build_error policy :=
  match EgressPolicy H with
  | None => Err BEgressPolicyMissing
  | Some (Err _) => Err BEgressPolicy
  | Some (Ok p) => Ok p
  end.

Definition runBuildStep (argv : list string) (stream : string) (egress : bool) (t : tree) : step_result tree :=
  match (if egress then match resolveEgressPolicy with Ok p => Ok (Some p) | Err e => Err e end else Ok None) with
  | Err e => ([], Err e)
  | Ok p =>
    let cfg := MkConfig argv stream egress p in
    ([cfg], match jail H cfg t with Ok t => Ok t | Err _ => Err BJail end)
  end.

Definition to_lower (l : list Z) : list Z := map lower_byte l.

Definition checkSyntax (t : tree) (runtime : string) (entrypoint : list Z) : step_result unit :=
  let ext := to_lower (Ext entrypoint) in
  let path := of_bytes (bytes "/code/" ++ entrypoint) in
  let check argv := let '(cfgs, r) := runBuildStep argv "syntax" false t in
                    (cfgs, match r with Ok _ => Ok tt | Err _ => Err BSyntax end) in
  if isNodeRuntime runtime && bool_decide (ext = bytes ".ts") then
    ([], if found (stat t [tsconfig]) then Ok tt else Err BNoTsconfig)
  else if isNodeRuntime runtime && bool_decide (ext ∈ [bytes ".js"; bytes ".mjs"; bytes ".cjs"]) then
    check ["/usr/local/bin/node"; "--check"; path]%string
  else if isPythonRuntime runtime && bool_decide (ext = bytes ".py") then
    check ["/usr/local/bin/python3"; "-I"; "-c";
           "import sys, tokenize; path = sys.argv[1]; source = tokenize.open(path).read(); compile(source, path, 'exec')"; path]%string
  else ([], Ok tt).

Definition readTSConfigOutDir (t : tree) : list Z :=
  let fallback := bytes "dist" in
  match read_file t [tsconfig] with
  | None => fallback
  | Some raw =>
    match json_outDir H raw with
    | None => fallback
    | Some o =>
      let out := bytes (trimSpace (of_bytes o)) in
      let clean := Clean out in
      if bool_decide (out = []) then fallback
      else if is_rooted clean || (bool_decide (clean = dot2) || starts_with (dot2 ++ [slash]) clean) || bool_decide (nth_error out 1 = Some 58)
      then fallback else clean
    end
  end.

Definition tsSourceStem (entrypoint outDir : list Z) : list Z :=
  trim_prefix (outDir ++ [slash]) (trim_suffix (Ext entrypoint) entrypoint).

Definition compiled_candidate (outDir entrypoint : list Z) : list Z := Join2 outDir (tsSourceStem entrypoint outDir ++ bytes ".js").

Definition resolveCachedEntrypoint (t : tree) (original : list Z) : list Z :=
  if negb (root_found t tsconfig) then original
  else
    let candidate := compiled_candidate (readTSConfigOutDir t) original in
    if root_found t candidate then candidate else original.

Definition verifyTypeScriptDeclared (t : tree) : res build_error unit :=
  match read_file t [package_json] with
  | None => Err BNoTypeScript
  | Some raw => match json_declares_ts H raw with Some true => Ok tt | _ => Err BNoTypeScript end
  end.

Definition maybeCompileTypeScript (t : tree) (entrypoint : list Z) : step_result (tree * list Z) :=
  if not_exist (stat t [tsconfig]) then ([], Ok (t, entrypoint))
  else match verifyTypeScriptDeclared t with
  | Err e => ([], Err e)
  | Ok _ =>
    let '(cfgs, r) := runBuildStep ["/usr/local/bin/npx"; "--no-install"; "tsc"; "--project"; "tsconfig.json"]%string "tsc" false t in
    (cfgs, match r with
           | Err e => Err e
           | Ok t =>
             let resolved := compiled_candidate (readTSConfigOutDir t) entrypoint in
             if root_found t resolved then Ok (t, resolved) else Err BNotCompiled
           end)
  end.

Definition npm_install : list string := ["/usr/local/bin/npm"; "install"; "--prefix"; "/code"; "--no-audit"; "--no-fund"]%string.
Definition pipInstallArgv : list string :=
  ["/usr/local/bin/pip"; "install"; "-r"; "/code/requirements.txt"; "-t"; "/code"; "--only-binary=:all:"; "--quiet"; "--root-user-action=ignore"]%string.

Definition installDependencies (t : tree) (runtime : string) (entrypoint : list Z) : step_result (tree * list Z) :=
  if isNodeRuntime runtime then
    if not_exist (stat t [package_json]) then maybeCompileTypeScript t entrypoint
    else
      let '(cfgs, r) := runBuildStep npm_install "npm" true t in
      match r with
      | Err e => (cfgs, Err e)
      | Ok t => let '(cfgs', r) := maybeCompileTypeScript t entrypoint in (cfgs ++ cfgs', r)
      end
  else if isPythonRuntime runtime then
    if not_exist (stat t [requirements_txt]) then ([], Ok (t, entrypoint))
    else
      let '(cfgs, r) := runBuildStep pipInstallArgv "pip" true t in
      (cfgs, match r with Err e => Err e | Ok t => Ok (t, entrypoint) end)
  else ([], Ok (t, entrypoint)).

Definition nl : list Z := [10].
Definition node_wrapper (entrypoint : list Z) : list Z :=
  bytes "// Auto-generated Orva adapter wrapper" ++ nl ++ bytes "process.env.ORVA_ENTRYPOINT = " ++ quote H entrypoint ++
  bytes ";" ++ nl ++ bytes "require('/opt/orva/adapter.js');" ++ nl.
Definition python_wrapper (entrypoint : list Z) : list Z :=
  bytes "# Auto-generated Orva adapter wrapper" ++ nl ++ bytes "import os" ++ nl ++
  bytes "os.environ[" ++ [34] ++ bytes "ORVA_ENTRYPOINT" ++ [34] ++ bytes "] = " ++ quote H entrypoint ++ nl ++
  bytes "exec(open(" ++ [34] ++ bytes "/opt/orva/adapter.py" ++ [34] ++ bytes ").read())" ++ nl.

Definition main_js : list Z := bytes "main.js".
Definition main_py : list Z := bytes "main.py".

Definition installAdapter (t : tree) (runtime : string) (entrypoint : list Z) : res build_error tree :=
  let put name c := match write_file [name] c t with Some t => Ok t | None => Err BAdapter end in
  if isNodeRuntime runtime then put main_js (node_wrapper entrypoint)
  else if isPythonRuntime runtime then put main_py (python_wrapper entrypoint)
  else Err BRuntime.

(* ------------------------------------------------------------------ *)
(** ** Build *)

Definition sha256_hex (l : list Z) : string := of_bytes (hex_encode (sha256 l)).

(** [runtimeIdentity]: the runtime's stamp file, when it has one. *)
Definition runtimeIdentity (stamp : option (list Z)) (runtime : string) : string :=
  let unstamped := (runtime ++ " unstamped")%string in
  match stamp with
  | Some raw => let s := trimSpace (of_bytes raw) in if bool_decide (s = EmptyString) then unstamped else s
  | None => unstamped
  end.

Definition versionHash (archiveHash identity : string) : string := sha256_hex (bytes archiveHash ++ [0] ++ bytes identity).

(** [checkFreeDisk]: free space before, what eviction of idle caches freed,
    and free space after it; [None] when the file system cannot be asked. *)
Definition checkFreeDisk (floorMB : Z) (before : option Z) (freed : Z) (after : option Z) : bool :=
  if floorMB <=? 0 then true
  else match before with
  | None => true
  | Some free =>
    if floorMB <=? free then true
    else let free := if 0 <? freed then default free after else free in negb (free <? floorMB)
  end.

Definition is_ready (v : version_dir) : bool := found (stat (v_tree v) [ready_marker]).
Definition version_ready (fnID hash : string) (d : disk) : bool :=
  match versions (dir_of fnID d) !! hash with Some v => is_ready v | None => false end.

Record BuildResult := MkResult { b_ImageTag : string; b_CodeHash : string; b_Cached : bool; b_Entrypoint : string }.

(** One attempt's circumstances: free space, the uploaded archive (unreadable
    when [None]), the runtime's stamp, a random suffix, the clock, whether the
    last rename works, and the optional hook. *)
Record attempt := MkAttempt {
  at_space : bool; at_archive : option (list Z); at_stamp : option (list Z); at_rand : string; at_now : Z;
  at_rename : bool; at_hook : option (tree -> bool) }.

Definition versions_path (dataDir fnID : string) : list Z := Join2 (bytes dataDir) (bytes "functions/" ++ bytes fnID ++ bytes "/versions").

(** Everything between the scratch directory's creation and its rename. *)
Definition build_tree (scratch : list Z) (a : attempt) (archive : list Z) (codeHash : string) (fn : Function_)
  : step_result (tree * list Z) :=
  match extract scratch (untar H archive) empty_dir with
  | Err e => ([], Err (BExtract e))
  | Ok t =>
    match ValidateArchive scratch t (bytes (fn_Entrypoint fn)) with
    | Err e => ([], Err (BValidate e))
    | Ok _ =>
      let '(c1, r) := checkSyntax t (fn_Runtime fn) (resolveSourceEntrypoint scratch t (bytes (fn_Entrypoint fn))) in
      match r with
      | Err e => (c1, Err e)
      | Ok _ =>
        let '(c2, r) := installDependencies t (fn_Runtime fn) (bytes (fn_Entrypoint fn)) in
        (c1 ++ c2,
         match r with
         | Err e => Err e
         | Ok (t, entry) =>
           match installAdapter t (fn_Runtime fn) entry with
           | Err e => Err e
           | Ok t =>
             match write_file [ready_marker] (bytes codeHash) t with
             | None => Err BMarker
             | Some t => if match at_hook a with Some h => h t | None => true end then Ok (t, entry) else Err BHook
             end
           end
         end)
      end
    end
  end.

Definition image_tag (fn : Function_) (codeHash : string) : string :=
  ("nsjail/" ++ fn_Name fn ++ ":" ++ str_take 12 codeHash)%string.

(** The version a build of this archive makes on this runtime. *)
Definition build_hash (a : attempt) (fn : Function_) (archive : list Z) : string :=
  versionHash (sha256_hex archive) (runtimeIdentity (at_stamp a) (fn_Runtime fn)).

(** Build in the scratch directory, clear what is at the final place, rename;
    the scratch directory is removed on every way out. *)
Definition build_fresh (dataDir : string) (a : attempt) (fn : Function_) (archive : list Z) (codeHash : string) (d : disk)
  : list build_config * disk * res build_error BuildResult :=
  let dir := dir_of (fn_ID fn) d in
  let scratch := Join2 (versions_path dataDir (fn_ID fn)) (bytes codeHash ++ bytes ".tmp." ++ bytes (at_rand a)) in
  let '(cfgs, r) := build_tree scratch a archive codeHash fn in
  match r with
  | Err e => (cfgs, <[fn_ID fn := dir]> d, Err e)
  | Ok (t, entry) =>
    let cleared := dir <| versions ::= delete codeHash |> in
    if at_rename a then
      (cfgs, <[fn_ID fn := cleared <| versions ::= <[codeHash := MkVersionDir t (at_now a)]> |>]> d,
       Ok (MkResult (image_tag fn codeHash) codeHash false (of_bytes entry)))
    else (cfgs, <[fn_ID fn := cleared]> d, Err BPublish)
  end.

(** [Builder.Build]. *)
Definition Build (dataDir : string) (a : attempt) (fn : Function_) (d : disk) : list build_config * disk * res build_error BuildResult :=
  if negb (at_space a) then ([], d, Err BDisk)
  else match at_archive a with
  | None => ([], d, Err BHash)
  | Some archive =>
    let codeHash := build_hash a fn archive in
    let dir := dir_of (fn_ID fn) d in
    match versions dir !! codeHash with
    | Some v =>
      if is_ready v then
        ([], d, Ok (MkResult (image_tag fn codeHash) codeHash true
                      (of_bytes (resolveCachedEntrypoint (v_tree v) (bytes (fn_Entrypoint fn))))))
      else build_fresh dataDir a fn archive codeHash d
    | None => build_fresh dataDir a fn archive codeHash d
    end
  end.

End Pipeline.

(* ------------------------------------------------------------------ *)
(** ** Activation ([builder/activate.go]) *)

(** A digest as [isHexHash] and [isValidCodeHash] accept it. *)
Definition isHexHash (s : string) : bool :=
  (len s =? 64) && forallb is_hex_lower (bytes s).

Inductive activate_error := AEmpty | AInvalid | ASymlink | ARename.

(** [io]: whether making the link and renaming it over [current] work. *)
Definition ActivateVersion (io : bool * bool) (fnID codeHash : string) (d : disk) : disk * option activate_error :=
  if bool_decide (codeHash = EmptyString) then (d, Some AEmpty)
  else if negb (isHexHash codeHash) then (d, Some AInvalid)
  else match d !! fnID with
  | None => (d, Some ASymlink)
  | Some dir =>
    if negb (fst io) then (d, Some ASymlink)
    else if negb (snd io) then (d, Some ARename)
    else (<[fnID := dir <| current := Some ("versions/" ++ codeHash)%string |>]> d, None)
  end.

(** [filepath.Split]: the text up to and with the last slash, and the rest. *)
Fixpoint split_last (l : list Z) : list Z * list Z :=
  match l with
  | [] => ([], [])
  | c :: l => let '(dir, file) := split_last l in
              match dir with
              | [] => if c =? slash then ([c], file) else ([], c :: file)
              | _ => (c :: dir, file)
              end
  end.

Definition link_hash (link : string) : string :=
  let '(dir, hash) := split_last (bytes link) in
  if bool_decide (Clean dir = bytes "versions") then of_bytes hash else EmptyString.
Definition ResolveActiveHash (fnID : string) (d : disk) : string :=
  match current (dir_of fnID d) with Some link => link_hash link | None => EmptyString end.

Definition RunEntrypointFor (H : host) (dataDir fnID codeHash authored : string) (d : disk) : string :=
  if bool_decide (authored = EmptyString) || bool_decide (codeHash = EmptyString) then EmptyString
  else if negb (isHexHash codeHash) then EmptyString
  else match fnScopedPath dataDir "functions" fnID with
  | Err _ => EmptyString
  | Ok _ =>
    match versions (dir_of fnID d) !! codeHash with
    | None => EmptyString
    | Some v => let resolved := of_bytes (resolveCachedEntrypoint H (v_tree v) (bytes authored)) in
                if bool_decide (resolved = authored) then EmptyString else resolved
    end
  end.

(* ------------------------------------------------------------------ *)
(** ** Extraction stays inside *)

Definition tree_ok (t : tree) : Prop := forall p n, t !! p = Some n -> Forall plain p.

Lemma tree_ok_insert p n t : Forall plain p -> tree_ok t -> tree_ok (<[p := n]> t).
Proof. intros Hp Ht q m [[<- _]|[_ ?]]%lookup_insert_Some; eauto. Qed.

Lemma mkdir_none qs : foldl mkdir_one None qs = None.
Proof. induction qs as [|q qs IH]; [reflexivity | exact IH]. Qed.

Lemma mkdir_steps_ok (qs : list path) t t' :
  Forall (Forall plain) qs -> tree_ok t -> foldl mkdir_one (Some t) qs = Some t' -> tree_ok t'.
Proof.
  intros Hqs. revert t. induction Hqs as [|q qs Hq _ IH]; intros t Ht; cbn [foldl]; [by intros [= <-]|].
  unfold mkdir_one at 2. cbn.
  destruct (t !! q) as [[|c]|] eqn:E; [by apply IH | by rewrite mkdir_none | by apply IH, tree_ok_insert].
Qed.

Lemma mkdir_all_ok p t t' : Forall plain p -> tree_ok t -> mkdir_all p t = Some t' -> tree_ok t'.
Proof.
  intros Hp. apply mkdir_steps_ok, Forall_app. split; [|by apply Forall_singleton].
  unfold parents. apply Forall_map, Forall_true. intros n. by apply Forall_take.
Qed.

Lemma write_file_ok p c t t' : Forall plain p -> tree_ok t -> write_file p c t = Some t' -> tree_ok t'.
Proof.
  intros Hp Ht. unfold write_file. destruct p as [|x p]; [done|].
  destruct (t !! _) as [[|]|]; [|done|done]. destruct (t !! _) as [[|]|]; [done| |]; intros [= <-]; by apply tree_ok_insert.
Qed.

(** A name that passes the extractor's first test is a list of plain names. *)
Lemma clean_inside_plain name :
  starts_with dot2 (Clean name) = false -> starts_with [slash] (Clean name) = false -> Forall plain (clean_parts name).
Proof.
  intros Hd Hs. destruct (is_rooted name) eqn:Hr.
  - exfalso. revert Hs. unfold Clean. rewrite Hr. unfold render_path, starts_with. cbn. by rewrite bool_decide_eq_true_2.
  - destruct (clean_parts_relative _ Hr) as (n & pl & Hpl & Hp & _). rewrite Hp. destruct n as [|n].
    + by apply Forall_rev.
    + exfalso. revert Hd. unfold Clean. rewrite Hr, Hp. cbn [replicate app render_path].
      destruct (replicate n dot2 ++ rev pl); unfold starts_with; cbn; by rewrite bool_decide_eq_true_2.
Qed.

Lemma extract_entry_ok dest h t t' : tree_ok t -> extract_entry dest h t = Ok t' -> tree_ok t'.
Proof.
  intros Ht. unfold extract_entry. destruct (starts_with dot2 _ || _) eqn:E; [done|].
  apply orb_false_iff in E as [Hd Hs]. pose proof (clean_inside_plain _ Hd Hs) as Hp.
  destruct (negb _ && negb _); [done|]. destruct (h_Typeflag h); [| | done | done | by intros [= <-]].
  - destruct (mkdir_all _ t) eqn:E; [|done]. intros [= <-]. by eapply mkdir_all_ok.
  - destruct (mkdir_all _ t) as [t1|] eqn:E; cbn; [|done]. destruct (write_file _ _ t1) as [t2|] eqn:E2; [|done].
    destruct (h_Readable h); [|done]. intros [= <-]. eapply write_file_ok; [exact Hp | | exact E2].
    eapply mkdir_all_ok; [|exact Ht|exact E]. by apply Forall_take.
Qed.

Lemma extract_ok dest items t t' : tree_ok t -> extract dest items t = Ok t' -> tree_ok t'.
Proof.
  revert t. induction items as [|[h|] items IH]; intros t Ht; cbn; [by intros [= <-] | | done].
  destruct (extract_entry dest h t) eqn:E; [|done]. apply IH. by eapply extract_entry_ok.
Qed.

Lemma tree_ok_empty : tree_ok empty_dir.
Proof. unfold tree_ok, empty_dir. intros p n [<- _]%lookup_singleton_Some. constructor. Qed.

(** What links an archive holds makes its extraction fail. *)
Definition is_link (i : tar_item) : bool :=
  match i with Entry h => match h_Typeflag h with TypeSymlink | TypeLink => true | _ => false end | TarError => false end.

Lemma extract_no_links dest items t t' : extract dest items t = Ok t' -> existsb is_link items = false.
Proof.
  revert t. induction items as [|[h|] items IH]; intros t; cbn; [done | | done].
  destruct (extract_entry dest h t) as [t1|] eqn:E; [|done]. intros Ht. rewrite (IH _ Ht), orb_false_r.
  revert E. unfold extract_entry. destruct (_ || _); [done|]. destruct (negb _ && _); [done|]. by destruct (h_Typeflag h).
Qed.


Definition file_entry (name content : string) : tar_item := Entry (MkHeader (bytes name) TypeReg (bytes content) true).

Definition sample_items : list tar_item :=
  [file_entry "src/../lib//handler.js" "x"; Entry (MkHeader (bytes "./d/") TypeDir [] true)].
Definition sample_tree : tree := Eval vm_compute in
  match extract (bytes "/data/f/versions/s") sample_items empty_dir with Ok t => t | Err _ => empty_dir end.
Lemma sample_extracts : extract (bytes "/data/f/versions/s") sample_items empty_dir = Ok sample_tree.
Proof. vm_compute. reflexivity. Qed.


(* ------------------------------------------------------------------ *)
(** ** What a build publishes *)

Lemma root_path_plain name ps : root_path name = Some ps -> Forall plain ps.
Proof.
  unfold root_path. destruct (is_rooted name) eqn:Hr; [done|].
  destruct (clean_parts_relative _ Hr) as (n & pl & Hpl & -> & _). destruct n as [|n]; cbn [replicate app].
  - apply Forall_rev in Hpl. destruct (rev pl) as [|k qs]; [by intros [= <-]|]. case_bool_decide; [done|]. by intros [= <-].
  - by rewrite bool_decide_eq_true_2.
Qed.

(** An entry point the builder hands back: the operator's own, or a path that
    stays below the code directory. *)
Definition contained_entry (original entry : list Z) : Prop :=
  entry = original \/ exists ps, root_path entry = Some ps /\ Forall plain ps.

Lemma root_found_contained original t name : root_found t name = true -> contained_entry original name.
Proof.
  unfold root_found. destruct (root_path name) as [ps|] eqn:E; [|done]. intros _. right. eauto using root_path_plain.
Qed.

Lemma cached_entry_contained H t original : contained_entry original (resolveCachedEntrypoint H t original).
Proof.
  unfold resolveCachedEntrypoint. destruct (negb _); [by left|]. destruct (root_found t (compiled_candidate _ _)) eqn:E; [|by left].
  by eapply root_found_contained.
Qed.

Lemma compile_contained H t original cfgs t' entry :
  maybeCompileTypeScript H t original = (cfgs, Ok (t', entry)) -> contained_entry original entry.
Proof.
  unfold maybeCompileTypeScript. destruct (not_exist _); [intros [= _ _ <-]; by left|].
  destruct (verifyTypeScriptDeclared H t); [|done]. destruct (runBuildStep _ _ _ _ _) as [c r]. destruct r as [t1|]; [|done].
  destruct (root_found t1 _) eqn:E; [|done]. intros [= _ _ <-]. by eapply root_found_contained.
Qed.

Lemma install_contained H t runtime original cfgs t' entry :
  installDependencies H t runtime original = (cfgs, Ok (t', entry)) -> contained_entry original entry.
Proof.
  unfold installDependencies. destruct (isNodeRuntime runtime).
  - destruct (not_exist _); [apply compile_contained|]. destruct (runBuildStep _ _ _ _ _) as [c r]. destruct r as [t1|]; [|done].
    destruct (maybeCompileTypeScript H t1 original) as [c' r'] eqn:E. intros [= _ ->]. by eapply compile_contained.
  - destruct (isPythonRuntime runtime); [|intros [= _ _ <-]; by left].
    destruct (not_exist _); [intros [= _ _ <-]; by left|]. destruct (runBuildStep _ _ _ _ _) as [c r].
    destruct r as [t1|]; [|done]. intros [= _ _ <-]. by left.
Qed.

Lemma write_top_found name c t t' : write_file [name] c t = Some t' -> stat t' [name] = StFile /\ t' !! [name] = Some (File c).
Proof.
  unfold write_file. cbn. destruct (t !! []) as [[|]|] eqn:E; [|done|done].
  assert (Hr : stat (<[[name] := File c]> t) [name] = StFile).
  { unfold stat. change (parents [name]) with [@nil (list Z)]. cbn [existsb].
    rewrite lookup_insert_ne, E, lookup_insert_eq by done. reflexivity. }
  destruct (t !! [name]) as [[|]|]; [done| |]; intros [= <-]; by rewrite lookup_insert_eq.
Qed.

Lemma write_top_other name c t t' q : write_file [name] c t = Some t' -> q <> [name] -> t' !! q = t !! q.
Proof.
  unfold write_file. cbn. destruct (t !! []) as [[|]|]; [|done|done].
  destruct (t !! [name]) as [[|]|]; [done| |]; intros [= <-] Hq; by rewrite lookup_insert_ne.
Qed.

Lemma build_tree_complete H scratch a archive hash fn cfgs t entry :
  build_tree H scratch a archive hash fn = (cfgs, Ok (t, entry)) ->
  stat t [ready_marker] = StFile /\ contained_entry (bytes (fn_Entrypoint fn)) entry.
Proof.
  unfold build_tree. destruct (extract _ _ _); [|done]. destruct (ValidateArchive H _ _ _); [|done].
  destruct (checkSyntax _ _ _ _) as [c1 r1]. destruct r1; [|done].
  destruct (installDependencies H _ _ _) as [c2 r2] eqn:E. destruct r2 as [[t1 e1]|]; [|done].
  destruct (installAdapter H t1 _ _) as [t2|]; [|done]. destruct (write_file _ _ t2) as [t3|] eqn:Ew; [|done].
  destruct (match at_hook a with Some h => h t3 | None => true end); [|done]. intros [= _ <- <-].
  split; [by eapply write_top_found | by eapply install_contained].
Qed.

Lemma dir_of_insert f g x (d : disk) : dir_of f (<[g := x]> d) = if bool_decide (f = g) then x else dir_of f d.
Proof. unfold dir_of. case_bool_decide as Hfg; [subst; by rewrite lookup_insert_eq | by rewrite lookup_insert_ne]. Qed.

(** Reading back the link that [ActivateVersion] wrote. *)
Lemma split_last_slashless l : slash ∉ l -> split_last l = ([], l).
Proof.
  induction l as [|c l IH]; [done|]. rewrite not_elem_of_cons. intros [Hc Hl]. cbn [split_last]. rewrite IH by done.
  by rewrite (proj2 (Z.eqb_neq c slash)) by congruence.
Qed.

Lemma hex_no_slash s : isHexHash s = true -> slash ∉ bytes s.
Proof.
  unfold isHexHash. intros [_ Hf]%andb_true_iff Hin%list_elem_of_In. rewrite forallb_forall in Hf. by apply Hf in Hin.
Qed.

Lemma sha256_hex_is_hash l : isHexHash (sha256_hex l) = true.
Proof.
  destruct (hex_encode_digits _ (sha256_are_bytes l)) as [Hlen Hhex]. rewrite length_sha256 in Hlen.
  assert (Hb : bytes (sha256_hex l) = hex_encode (sha256 l)).
  { apply bytes_of_bytes. apply Forall_forall. intros c Hc%list_elem_of_In. rewrite forallb_forall in Hhex. apply Hhex in Hc.
    unfold is_hex_lower in Hc. zbool; lia. }
  unfold isHexHash, len. by rewrite <- length_bytes, Hb, Hlen, Hhex.
Qed.

Lemma build_hash_is_hash a fn archive : isHexHash (build_hash a fn archive) = true.
Proof. apply sha256_hex_is_hash. Qed.

Lemma link_hash_versions h : isHexHash h = true -> link_hash ("versions/" ++ h) = h.
Proof.
  intros Hh%hex_no_slash. unfold link_hash. rewrite bytes_app.
  assert (Hs : split_last (bytes "versions/" ++ bytes h) = (bytes "versions/", bytes h)).
  { cbn [bytes app split_last]. rewrite (split_last_slashless _ Hh). reflexivity. }
  rewrite Hs. rewrite bool_decide_eq_true_2 by (vm_compute; reflexivity). apply of_bytes_bytes.
Qed.

Section BuildFacts.
Context (H : host) (dataDir : string) (a : attempt) (fn : Function_) (d : disk).

(** What every way out of a build leaves on disk. *)
Definition build_spec (x : list build_config * disk * res build_error BuildResult) : Prop :=
  let '(cfgs, d', r) := x in
  (forall f h v, versions (dir_of f d) !! h = Some v -> is_ready v = true -> versions (dir_of f d') !! h = Some v) /\
  (forall f, current (dir_of f d') = current (dir_of f d)) /\
  match r with
  | Ok b =>
    exists archive entry, at_archive a = Some archive /\ b_CodeHash b = build_hash a fn archive /\
      version_ready (fn_ID fn) (b_CodeHash b) d' = true /\ b_Cached b = version_ready (fn_ID fn) (b_CodeHash b) d /\
      (b_Cached b = true -> cfgs = [] /\ d' = d) /\
      (forall f h, (f, h) <> (fn_ID fn, b_CodeHash b) -> versions (dir_of f d') !! h = versions (dir_of f d) !! h) /\
      b_Entrypoint b = of_bytes entry /\ contained_entry (bytes (fn_Entrypoint fn)) entry
  | Err _ => forall f h, version_ready f h d' = version_ready f h d
  end.

Lemma build_fresh_spec archive :
  at_archive a = Some archive -> version_ready (fn_ID fn) (build_hash a fn archive) d = false ->
  build_spec (build_fresh H dataDir a fn archive (build_hash a fn archive) d).
Proof.
  intros Ha Hnot. unfold build_fresh. set (hash := build_hash a fn archive) in *.
  destruct (build_tree H _ a archive hash fn) as [cfgs r] eqn:E.
  assert (Hkeep : forall f h v, versions (dir_of f d) !! h = Some v -> is_ready v = true -> ~ (f = fn_ID fn /\ h = hash)).
  { intros f h v Hv Hr [-> ->]. unfold version_ready in Hnot. by rewrite Hv, Hr in Hnot. }
  destruct r as [[t entry]|e].
  - apply build_tree_complete in E as [Hready Hentry]. destruct (at_rename a).
    + split_and!.
      * intros f h v Hv Hr. rewrite dir_of_insert. case_bool_decide as Hf; [|done]. cbn.
        rewrite lookup_insert_ne, lookup_delete_ne; [by rewrite <- Hf | |]; intros <-; by eapply Hkeep.
      * intros f. rewrite dir_of_insert. case_bool_decide as Hf; [by subst | done].
      * exists archive, entry. cbn. split_and!; auto.
        -- unfold version_ready. rewrite dir_of_insert, bool_decide_eq_true_2 by done. cbn. rewrite lookup_insert_eq.
           unfold is_ready. cbn [v_tree]. by rewrite Hready.
        -- done.
        -- intros f h Hne. rewrite dir_of_insert. case_bool_decide as Hf; [|done]. subst f. cbn.
           assert (hash <> h) by congruence. by rewrite lookup_insert_ne, lookup_delete_ne.
    + split_and!.
      * intros f h v Hv Hr. rewrite dir_of_insert. case_bool_decide as Hf; [|done]. cbn.
        rewrite lookup_delete_ne; [by rewrite <- Hf | intros <-; by eapply Hkeep].
      * intros f. rewrite dir_of_insert. case_bool_decide as Hf; [by subst | done].
      * intros f h. unfold version_ready at 1. rewrite dir_of_insert. case_bool_decide as Hf; [|done]. cbn. subst f.
        destruct (decide (h = hash)) as [->|Hne]; [by rewrite lookup_delete_eq, Hnot | by rewrite lookup_delete_ne].
  - split_and!.
    + intros f h v Hv _. rewrite dir_of_insert. case_bool_decide as Hf; [by rewrite <- Hf | done].
    + intros f. rewrite dir_of_insert. case_bool_decide as Hf; [by subst | done].
    + intros f h. unfold version_ready. rewrite dir_of_insert. case_bool_decide as Hf; [by subst | done].
Qed.

Lemma Build_spec : build_spec (Build H dataDir a fn d).
Proof.
  unfold Build. destruct (at_space a); [|cbn; auto]. cbn [negb]. destruct (at_archive a) as [archive|] eqn:Ha; [|cbn; auto].
  cbv zeta. set (hash := build_hash a fn archive).
  destruct (versions (dir_of (fn_ID fn) d) !! hash) as [v|] eqn:Ev.
  - destruct (is_ready v) eqn:Er.
    + cbn. split_and!; [done | done |]. exists archive. eexists. split_and!; [done | done | | | done | done | reflexivity |].
      * unfold version_ready. fold hash. by rewrite Ev.
      * unfold version_ready. fold hash. by rewrite Ev.
      * apply cached_entry_contained.
    + apply build_fresh_spec; [done|]. unfold version_ready. fold hash. by rewrite Ev.
  - apply build_fresh_spec; [done|]. unfold version_ready. fold hash. by rewrite Ev.
Qed.

(** Only the function's directory is ever made. *)
Lemma Build_dom f : let '(_, d', _) := Build H dataDir a fn d in is_Some (d' !! f) -> is_Some (d !! f) \/ f = fn_ID fn.
Proof.
  assert (Hins : forall x, is_Some (<[fn_ID fn := x]> d !! f) -> is_Some (d !! f) \/ f = fn_ID fn).
  { intros x. destruct (decide (f = fn_ID fn)) as [->|Hne]; [by right|]. rewrite lookup_insert_ne by done. by left. }
  assert (Hf : forall archive hash, let '(_, d', _) := build_fresh H dataDir a fn archive hash d in is_Some (d' !! f) -> is_Some (d !! f) \/ f = fn_ID fn).
  { intros archive hash. unfold build_fresh. destruct (build_tree _ _ _ _ _ _) as [cfgs [[t entry]|e]]; [|apply Hins].
    destruct (at_rename a); apply Hins. }
  unfold Build. destruct (negb (at_space a)); [by left|]. destruct (at_archive a); [|by left].
  destruct (versions _ !! _) as [v|]; [|apply Hf]. destruct (is_ready v); [by left | apply Hf].
Qed.


End BuildFacts.

(* ------------------------------------------------------------------ *)
(** ** Network in builds *)

(** A command ran with the network exactly when it was given the policy in
    force, and without a policy otherwise. *)
Definition config_ok (H : host) (c : build_config) : Prop :=
  match c_Policy c with Some p => c_Egress c = true /\ EgressPolicy H = Some (Ok p) | None => c_Egress c = false end.

(** The file that makes a build install dependencies. *)
Definition has_manifest (runtime : string) (t : tree) : bool :=
  if isNodeRuntime runtime then negb (not_exist (stat t [package_json]))
  else isPythonRuntime runtime && negb (not_exist (stat t [requirements_txt])).

Definition quiet_config (c : build_config) : Prop := c_Egress c = false.

Lemma step_configs H argv stream egress t cfgs r :
  runBuildStep H argv stream egress t = (cfgs, r) ->
  Forall (config_ok H) cfgs /\ (egress = false -> Forall quiet_config cfgs) /\
  (egress = true -> forall t', r = Ok t' -> exists p, EgressPolicy H = Some (Ok p)).
Proof.
  unfold runBuildStep, resolveEgressPolicy. destruct egress.
  - destruct (EgressPolicy H) as [[p|]|] eqn:E; intros [= <- <-]; split_and!; try done; try constructor; eauto.
    split; [reflexivity | exact E].
  - intros [= <- <-]. split_and!; [by constructor | by constructor | done].
Qed.

Lemma syntax_configs H t runtime entry cfgs r :
  checkSyntax H t runtime entry = (cfgs, r) -> Forall (config_ok H) cfgs /\ Forall quiet_config cfgs.
Proof.
  unfold checkSyntax. cbv zeta.
  assert (Hc : forall argv cfgs r, (let '(c, r) := runBuildStep H argv "syntax" false t in
      (c, match r with Ok _ => Ok tt | Err _ => Err BSyntax end)) = (cfgs, r) -> Forall (config_ok H) cfgs /\ Forall quiet_config cfgs).
  { intros argv c1 r1. destruct (runBuildStep _ _ _ _ _) as [c2 r2] eqn:E. apply step_configs in E as (H1 & H2 & _). intros [= <- _]. auto. }
  destruct (isNodeRuntime runtime && _); [intros [= <- _]; by split|].
  destruct (isNodeRuntime runtime && _); [apply Hc|]. destruct (isPythonRuntime runtime && _); [apply Hc|].
  intros [= <- _]. by split.
Qed.

Lemma compile_configs H t entry cfgs r :
  maybeCompileTypeScript H t entry = (cfgs, r) -> Forall (config_ok H) cfgs /\ Forall quiet_config cfgs.
Proof.
  unfold maybeCompileTypeScript. destruct (not_exist _); [intros [= <- _]; by split|].
  destruct (verifyTypeScriptDeclared H t); [|intros [= <- _]; by split].
  destruct (runBuildStep _ _ _ _ _) as [c1 r1] eqn:E. apply step_configs in E as (H1 & H2 & _). intros [= <- _]. auto.
Qed.

Lemma install_configs H t runtime entry cfgs r :
  installDependencies H t runtime entry = (cfgs, r) ->
  Forall (config_ok H) cfgs /\ (has_manifest runtime t = false -> Forall quiet_config cfgs) /\
  (has_manifest runtime t = true -> forall x, r = Ok x -> exists p, EgressPolicy H = Some (Ok p)).
Proof.
  unfold installDependencies, has_manifest. destruct (isNodeRuntime runtime).
  - destruct (not_exist _); cbn [negb].
    + intros [H1 H2]%compile_configs. split_and!; done.
    + destruct (runBuildStep _ _ _ _ _) as [c1 r1] eqn:E. apply step_configs in E as (H1 & _ & H3).
      destruct r1 as [t1|]; [|intros [= <- <-]; split_and!; done].
      destruct (maybeCompileTypeScript H t1 entry) as [c2 r2] eqn:E2. apply compile_configs in E2 as [H4 _]. intros [= <- <-].
      split_and!; [by apply Forall_app | done | intros _ x _; by eapply H3].
  - destruct (isPythonRuntime runtime); cbn [andb]; [|intros [= <- <-]; split_and!; done].
    destruct (not_exist _); cbn [negb]; [intros [= <- <-]; split_and!; done|].
    destruct (runBuildStep _ _ _ _ _) as [c1 r1] eqn:E. apply step_configs in E as (H1 & _ & H3). intros [= <- <-].
    split_and!; [done | done |]. intros _ x. destruct r1 as [t1|]; [|done]. intros _. by eapply H3.
Qed.

Lemma build_tree_configs H scratch a archive hash fn cfgs r :
  build_tree H scratch a archive hash fn = (cfgs, r) ->
  Forall (config_ok H) cfgs /\
  forall t, extract scratch (untar H archive) empty_dir = Ok t ->
    (has_manifest (fn_Runtime fn) t = false -> Forall quiet_config cfgs) /\
    (has_manifest (fn_Runtime fn) t = true -> forall x, r = Ok x -> exists p, EgressPolicy H = Some (Ok p)).
Proof.
  unfold build_tree. destruct (extract _ _ _) as [t|]; [|intros [= <- <-]; split; [done | by intros]].
  destruct (ValidateArchive H _ _ _); [|intros [= <- <-]; split; [done | intros ? [= <-]; by split]].
  destruct (checkSyntax _ _ _ _) as [c1 r1] eqn:E1. apply syntax_configs in E1 as [H1 H2].
  destruct r1; [|intros [= <- <-]; split; [done | intros ? [= <-]; by split]].
  destruct (installDependencies H _ _ _) as [c2 r2] eqn:E2. apply install_configs in E2 as (H3 & H4 & H5). intros [= <- <-].
  split; [by apply Forall_app|]. intros ? [= <-]. split; [intros Hm; apply Forall_app; auto|].
  intros Hm x Hx. destruct r2 as [y|]; [by eapply H5 | done].
Qed.

(** The archive unpacks to [t] in the scratch directory of this attempt. *)
Definition unpacks_to (H : host) (dataDir : string) (a : attempt) (fn : Function_) (t : tree) : Prop :=
  exists archive, at_archive a = Some archive /\
  extract (Join2 (versions_path dataDir (fn_ID fn)) (bytes (build_hash a fn archive) ++ bytes ".tmp." ++ bytes (at_rand a)))
    (untar H archive) empty_dir = Ok t.

(** Every command of every build ran either without the network and
    without a policy, or with exactly the egress policy the firewall has in
    force; a build whose archive has a dependency manifest succeeds only with
    such a policy, unless the version was cached, and one without a manifest
    never uses the network. *)
Theorem installs_fail_closed H dataDir a fn d :
  let '(cfgs, _, r) := Build H dataDir a fn d in
  Forall (config_ok H) cfgs /\
  forall t, unpacks_to H dataDir a fn t ->
    (has_manifest (fn_Runtime fn) t = false -> Forall quiet_config cfgs) /\
    (has_manifest (fn_Runtime fn) t = true -> forall b, r = Ok b -> b_Cached b = false -> exists p, EgressPolicy H = Some (Ok p)).
Proof.
  unfold Build, unpacks_to. destruct (at_space a); [|split; [done | by intros]]. cbn [negb].
  destruct (at_archive a) as [archive|] eqn:Ha; [|split; [done | by intros]]. cbv zeta.
  assert (Hfresh : let '(cfgs, _, r) := build_fresh H dataDir a fn archive (build_hash a fn archive) d in
    Forall (config_ok H) cfgs /\
    forall t, unpacks_to H dataDir a fn t ->
      (has_manifest (fn_Runtime fn) t = false -> Forall quiet_config cfgs) /\
      (has_manifest (fn_Runtime fn) t = true -> forall b, r = Ok b -> b_Cached b = false -> exists p, EgressPolicy H = Some (Ok p))).
  { unfold build_fresh, unpacks_to. destruct (build_tree _ _ _ _ _ _) as [cfgs r] eqn:E.
    apply build_tree_configs in E as [H1 H2]. rewrite Ha.
    destruct r as [[t1 e1]|]; [destruct (at_rename a)|]; (split; [done|]; intros t (? & [= <-] & Hx);
      destruct (H2 t Hx) as [K1 K2]; split; [exact K1|]; intros Hm b Hb _; first [exact (K2 Hm _ eq_refl) | discriminate Hb]). }
  unfold unpacks_to in Hfresh. rewrite Ha in Hfresh.
  destruct (versions _ !! _) as [v|]; [|exact Hfresh]. destruct (is_ready v); [|exact Hfresh].
  split; [constructor|]. intros t _. split; [constructor|]. by intros _ b [= <-].
Qed.

(* ------------------------------------------------------------------ *)
(** ** Two things the pipeline does not keep *)

(** The wrapper is written over [main.js], whatever the archive had there: a
    function whose own entry point is [main.js] is published with the wrapper,
    which loads the entry point named to it, in place of its handler. *)
Lemma main_js_is_overwritten H scratch a archive hash fn cfgs t entry :
  fn_Runtime fn = "node"%string ->
  build_tree H scratch a archive hash fn = (cfgs, Ok (t, entry)) ->
  t !! [main_js] = Some (File (node_wrapper H entry)).
Proof.
  intros Hrt. unfold build_tree. rewrite Hrt. destruct (extract _ _ _); [|done]. destruct (ValidateArchive H _ _ _); [|done].
  destruct (checkSyntax _ _ _ _) as [c1 r1]. destruct r1; [|done].
  destruct (installDependencies H _ _ _) as [c2 r2]. destruct r2 as [[t1 e1]|]; [|done].
  unfold installAdapter. cbn [isNodeRuntime]. unfold isNodeRuntime. rewrite bool_decide_eq_true_2 by done.
  destruct (write_file [main_js] _ t1) as [t2|] eqn:E2; [|done]. destruct (write_file [ready_marker] _ t2) as [t3|] eqn:E3; [|done].
  destruct (match at_hook a with Some h => h t3 | None => true end); [|done]. intros [= _ <- <-].
  apply write_top_found in E2 as [_ Hm]. rewrite (write_top_other _ _ _ _ _ E3) by (by vm_compute). exact Hm.
Qed.

(** A cached version is taken without looking at the entry point: after the
    entry point was changed to a file that no version has, deploying the same
    archive again succeeds and that file is what the function will run. *)
Lemma cached_build_skips_validation H dataDir a fn d archive v :
  at_space a = true -> at_archive a = Some archive ->
  versions (dir_of (fn_ID fn) d) !! build_hash a fn archive = Some v -> is_ready v = true -> stat (v_tree v) [tsconfig] = StNotExist ->
  forall entry, let fn' := fn <| fn_Entrypoint := entry |> in
  Build H dataDir a fn' d =
    ([], d, Ok (MkResult (image_tag fn (build_hash a fn archive)) (build_hash a fn archive) true entry)).
Proof.
  intros Hs Ha Hv Hr Ht entry. unfold Build. rewrite Hs, Ha. cbn [negb]. cbv zeta.
  change (build_hash a (fn <| fn_Entrypoint := entry |>) archive) with (build_hash a fn archive).
  change (fn_ID (fn <| fn_Entrypoint := entry |>)) with (fn_ID fn). rewrite Hv, Hr.
  unfold resolveCachedEntrypoint, root_found.
  assert (Hp : root_path tsconfig = Some [tsconfig]) by (vm_compute; reflexivity). rewrite Hp, Ht. cbn [found negb].
  change (fn_Entrypoint (fn <| fn_Entrypoint := entry |>)) with entry. by rewrite of_bytes_bytes.
Qed.

(** A host that unpacks one archive, has no dependencies to install and no
    firewall. *)
Definition plain_host (items : list tar_item) : host :=
  MkHost (fun _ => items) (fun _ => None) (fun _ => None) (fun l => [34] ++ l ++ [34]) (bytes "/") (fun _ => StNotExist)
    (fun _ t => Ok t) None.
Definition plain_attempt (archive : string) (now : Z) : attempt := MkAttempt true (Some (bytes archive)) None "ab" now true None.

(** The whole of it on one archive: [main.js] builds and is replaced. *)
Example main_js_example :
  let H := plain_host [file_entry "main.js" "module.exports = 1"] in
  let fn := sample_function "f1" "a" <| fn_Entrypoint := "main.js"%string |> in
  match Build H "/data" (plain_attempt "A" 7) fn ∅ with
  | (_, d, Ok b) => b_Entrypoint b = "main.js"%string /\
                    (v_tree <$> versions (dir_of "f1" d) !! b_CodeHash b) ≫= (fun t => t !! [main_js]) = Some (File (node_wrapper H main_js))
  | _ => False
  end.
Proof. vm_compute. auto. Qed.
