(* ===== verification/Gc.v ===== *)
(** * The version collector ([builder/gc.go], [builder/buildcache.go])

    Pruning of old versions, the sweep of the dependency caches under its
    three bounds, and the sweep of directories whose function is gone. *)
From S2P Require Import Prelude GoText Netip Url Safepath Registry Builder.
Open Scope Z_scope.

(* ------------------------------------------------------------------ *)
(** ** Versions ([pruneFunction]) *)

Record candidate := MkCandidate { cand_name : string; cand_mtime : Z }.

(** The name of a directory a build is still writing. *)
Definition scratch_name (name : string) : bool := bool_decide (is_Some (cut_text (bytes ".tmp.") (bytes name))).

Definition candidates (fnID : string) (d : disk) : list candidate :=
  omap (fun '(name, v) => if scratch_name name then None else if is_ready v then Some (MkCandidate name (v_mtime v)) else None)
    (map_to_list (versions (dir_of fnID d))).

(** [sort.Slice] newest first; versions of one time in any order. *)
Definition newest_first (order : list candidate -> list candidate) : Prop :=
  forall l, order l ≡ₚ l /\ StronglySorted (fun a b => cand_mtime b <= cand_mtime a) (order l).

(** The versions of one pass to remove, chosen before the first is removed. *)
Definition doomed (order : list candidate -> list candidate) (keep : nat) (fnID : string) (d : disk) : list string :=
  let cands := candidates fnID d in
  if (length cands <=? keep)%nat then []
  else
    let activeHash := ResolveActiveHash fnID d in
    List.filter (fun h => negb (bool_decide (h = activeHash))) (cand_name <$> drop keep (order cands)).

Definition remove_version (removable : string -> bool) (fnID : string) (acc : disk * Z) (h : string) : disk * Z :=
  let '(d, n) := acc in
  if removable h then (alter (fun dir => dir <| versions ::= delete h |>) fnID d, n + 1) else (d, n).

Definition pruneFunction (order : list candidate -> list candidate) (removable : string -> bool) (keep : nat) (fnID : string) (d : disk)
  : disk * Z :=
  foldl (remove_version removable fnID) (d, 0) (doomed order keep fnID d).

(* ------------------------------------------------------------------ *)
(** ** Dependency caches ([sweepBuildCaches]) *)

Record cacheEntry := MkCache { ce_fnID : string; ce_mtime : Z; ce_bytes : Z }.
#[export] Instance cacheEntry_eq_dec : EqDecision cacheEntry.
Proof. solve_decision. Defined.

(** [evictBuildCache] succeeds for the caches whose function lock is free and
    whose directory can be removed, [evict]. *)
Fixpoint first_pass (live : gset string) (maxAgeDays ageCutoff graceCutoff : Z) (evict : cacheEntry -> bool) (l : list cacheEntry)
  : list cacheEntry :=
  match l with
  | [] => []
  | e :: l =>
    let orphan := negb (bool_decide (ce_fnID e ∈ live)) in
    let stale := (0 <? maxAgeDays) && (ce_mtime e <? ageCutoff) in
    let kept := first_pass live maxAgeDays ageCutoff graceCutoff evict l in
    if negb orphan && negb stale then e :: kept
    else if graceCutoff <? ce_mtime e then e :: kept
    else if evict e then kept else e :: kept
  end.

Fixpoint size_pass (capBytes graceCutoff total : Z) (evict : cacheEntry -> bool) (l : list cacheEntry) : list cacheEntry :=
  match l with
  | [] => []
  | e :: l =>
    if total <=? capBytes then e :: l
    else if graceCutoff <? ce_mtime e then e :: size_pass capBytes graceCutoff total evict l
    else if evict e then size_pass capBytes graceCutoff (total - ce_bytes e) evict l
    else e :: size_pass capBytes graceCutoff total evict l
  end.

Definition oldest_first (order : list cacheEntry -> list cacheEntry) : Prop :=
  forall l, order l ≡ₚ l /\ StronglySorted (fun a b => ce_mtime a <= ce_mtime b) (order l).

Record cache_config := MkCacheConfig { maxAgeDays : Z; maxMB : Z; ageCutoff : Z; graceCutoff : Z }.
Definition capBytes (c : cache_config) : Z := maxMB c * 1024 * 1024.

(** The caches left; [evict1] and [evict2] are the outcomes of the two passes. *)
Definition sweepBuildCaches (order : list cacheEntry -> list cacheEntry) (c : cache_config) (live : gset string)
  (evict1 evict2 : cacheEntry -> bool) (caches : list cacheEntry) : list cacheEntry :=
  let kept := first_pass live (maxAgeDays c) (ageCutoff c) (graceCutoff c) evict1 caches in
  if 0 <? maxMB c then
    let total := zsum ce_bytes kept in
    if capBytes c <? total then size_pass (capBytes c) (graceCutoff c) total evict2 (order kept) else kept
  else kept.

(** [EvictIdleBuildCaches]: what is left, and the bytes freed. *)
Fixpoint EvictIdleBuildCaches (cutoff : Z) (evict : cacheEntry -> bool) (l : list cacheEntry) : list cacheEntry * Z :=
  match l with
  | [] => ([], 0)
  | e :: l => let '(kept, freed) := EvictIdleBuildCaches cutoff evict l in
              if cutoff <? ce_mtime e then (e :: kept, freed)
              else if evict e then (kept, freed + ce_bytes e) else (e :: kept, freed)
  end.

(* ------------------------------------------------------------------ *)
(** ** Directories without a function, and the tick *)

(** Outcomes of a sweep of the function directories: the newest write below a
    directory, and whether its lock was free and its removal worked. *)
Definition sweepOrphanFunctionDirs (live : gset string) (cutoff : Z) (lastWrite : string -> Z) (removable : string -> bool) (d : disk) : disk :=
  if bool_decide (live = ∅) then d
  else filter (fun kv : string * fn_dir =>
         (bool_decide (kv.1 ∈ live) || (cutoff <? lastWrite kv.1) || negb (removable kv.1)) = true) d.

Record tick_io := MkTick {
  ti_rows : list Function_ -> list Function_;          (* row order of the listing *)
  ti_order : list candidate -> list candidate;
  ti_removable : string -> string -> bool;             (* function, version *)
  ti_pending_renames : bool;
  ti_cutoff : Z; ti_lastWrite : string -> Z; ti_dir_removable : string -> bool }.

Definition keep_count (versions_to_keep : Z) : nat := Z.to_nat (if versions_to_keep <? 1 then 1 else versions_to_keep).

(** One tick on the function directories ([listLimit] is 10000). *)
Definition tick (io : tick_io) (versions_to_keep : Z) (d : db) (k : disk) : disk * Z :=
  let '(page, total) := ListFunctions (ti_rows io) (MkParams EmptyString EmptyString 10000 0) d in
  let '(k, pruned) :=
    foldl (fun '(k, n) fn => let '(k, m) := pruneFunction (ti_order io) (ti_removable io (fn_ID fn)) (keep_count versions_to_keep) (fn_ID fn) k in
                             (k, n + m)) (k, 0) page in
  let live : gset string := list_to_set (fn_ID <$> page) in
  if negb (total <=? Z.of_nat (length page)) then (k, pruned)
  else if bool_decide (live = ∅) then (k, pruned)
  else if ti_pending_renames io then (k, pruned)
  else (sweepOrphanFunctionDirs live (ti_cutoff io) (ti_lastWrite io) (ti_dir_removable io) k, pruned).

(* ------------------------------------------------------------------ *)
(** ** Pruning *)

Lemma ResolveActiveHash_dir f d d' : current (dir_of f d) = current (dir_of f d') -> ResolveActiveHash f d = ResolveActiveHash f d'.
Proof. unfold ResolveActiveHash. by intros ->. Qed.

Lemma dir_of_alter f g h (d : disk) :
  dir_of f (alter (fun dir => dir <| versions ::= delete h |>) g d) =
  if bool_decide (f = g) then dir_of f d <| versions ::= delete h |> else dir_of f d.
Proof.
  unfold dir_of. case_bool_decide as Hfg; [|by rewrite lookup_alter_ne]. subst. rewrite lookup_alter_eq. destruct (d !! g); [done|].
  cbn. by rewrite delete_empty.
Qed.

(** What removing a list of versions leaves. *)
Record removed (removable : string -> bool) (fnID : string) (l : list string) (d d' : disk) : Prop := {
  rm_other : forall f, f <> fnID -> dir_of f d' = dir_of f d;
  rm_current : forall f, current (dir_of f d') = current (dir_of f d);
  rm_versions : forall h, versions (dir_of fnID d') !! h =
                if bool_decide (h ∈ l) && removable h then None else versions (dir_of fnID d) !! h }.

Lemma remove_versions_spec removable fnID l d n :
  removed removable fnID l d (fst (foldl (remove_version removable fnID) (d, n) l)).
Proof.
  revert d n. induction l as [|h l IH]; intros d n; cbn [foldl].
  - split; [done | done |]. intros h. by rewrite bool_decide_eq_false_2 by apply not_elem_of_nil.
  - unfold remove_version at 2. destruct (removable h) eqn:Er.
    + destruct (IH (alter (fun dir => dir <| versions ::= delete h |>) fnID d) (n + 1)) as [H1 H2 H3]. split.
      * intros f Hf. rewrite H1, dir_of_alter by done. by rewrite bool_decide_eq_false_2.
      * intros f. rewrite H2, dir_of_alter. by case_bool_decide.
      * intros g. rewrite H3, dir_of_alter, (bool_decide_eq_true_2 (fnID = fnID)) by done. cbn. destruct (decide (g = h)) as [->|Hne].
        -- rewrite lookup_delete_eq, (bool_decide_eq_true_2 (h ∈ h :: l)), Er by (apply elem_of_cons; by left). by destruct (bool_decide (h ∈ l)).
        -- rewrite lookup_delete_ne by done. by rewrite (bool_decide_ext (g ∈ h :: l) (g ∈ l)) by (rewrite elem_of_cons; tauto).
    + destruct (IH d n) as [H1 H2 H3]. split; [done | done |]. intros g. rewrite H3.
      destruct (decide (g = h)) as [->|Hne]; [by rewrite Er, !andb_false_r|].
      by rewrite (bool_decide_ext (g ∈ h :: l) (g ∈ l)) by (rewrite elem_of_cons; tauto).
Qed.

Lemma remove_versions_count removable fnID l d n :
  NoDup l -> Forall (fun h => is_Some (versions (dir_of fnID d) !! h)) l ->
  let '(d', m) := foldl (remove_version removable fnID) (d, n) l in
  m = n + Z.of_nat (size (versions (dir_of fnID d))) - Z.of_nat (size (versions (dir_of fnID d'))).
Proof.
  intros Hnd Hin. revert d n Hin. induction Hnd as [|h l Hh Hnd IH]; intros d n Hall; cbn [foldl]; [lia|].
  apply Forall_cons in Hall as [Hs Hin].
  unfold remove_version at 2. destruct (removable h) eqn:Er; [|by apply IH].
  specialize (IH (alter (fun dir => dir <| versions ::= delete h |>) fnID d) (n + 1)).
  rewrite dir_of_alter, bool_decide_eq_true_2 in IH by done. cbn in IH.
  destruct (foldl _ _ l) as [d' m]. rewrite IH; [|].
  - rewrite map_size_delete. destruct Hs as [v Hv]. rewrite Hv. cbn.
    assert (size (versions (dir_of fnID d)) <> 0%nat) by (apply map_size_ne_0_lookup_2 with (i := h); eauto). lia.
  - apply Forall_forall. intros g Hg. rewrite Forall_forall in Hin. rewrite lookup_delete_ne by congruence. auto.
Qed.

Lemma candidates_in fnID d c :
  c ∈ candidates fnID d <-> scratch_name (cand_name c) = false /\
    exists v, versions (dir_of fnID d) !! cand_name c = Some v /\ is_ready v = true /\ cand_mtime c = v_mtime v.
Proof.
  unfold candidates. rewrite list_elem_of_omap. split.
  - intros ((name & v) & Hin%elem_of_map_to_list & Hc). destruct (scratch_name name) eqn:Es; [done|].
    destruct (is_ready v) eqn:Er; [|done]. injection Hc as <-. cbn. eauto.
  - destruct c as [name mt]. cbn. intros (Hs & v & Hv & Hr & ->). exists (name, v). split; [by apply elem_of_map_to_list|].
    by rewrite Hs, Hr.
Qed.

Lemma candidates_nodup fnID d : NoDup (cand_name <$> candidates fnID d).
Proof.
  unfold candidates. pose proof (NoDup_fst_map_to_list (versions (dir_of fnID d))) as Hnd.
  induction (map_to_list _) as [|[name v] l IH]; cbn; [constructor|]. rewrite fmap_cons in Hnd. apply NoDup_cons in Hnd as [Hn Hnd].
  destruct (scratch_name name); [auto|]. destruct (is_ready v); [|auto]. rewrite fmap_cons. constructor; [|auto].
  cbn. intros (c & He & (x & Hx & Hc)%list_elem_of_omap)%list_elem_of_fmap. apply Hn. apply list_elem_of_fmap.
  exists x. split; [|done]. destruct x as [n2 v2]. destruct (scratch_name n2); [done|]. destruct (is_ready v2); [|done]. injection Hc as <-. done.
Qed.

Section Prune.
Context (order : list candidate -> list candidate) (Horder : newest_first order) (removable : string -> bool) (keep : nat)
  (fnID : string) (d : disk).

Let sorted := order (candidates fnID d).

Lemma sorted_names_nodup : NoDup (cand_name <$> sorted).
Proof. unfold sorted. rewrite (fmap_Permutation cand_name _ _ (proj1 (Horder _))). apply candidates_nodup. Qed.

Lemma sorted_in c : c ∈ sorted <-> c ∈ candidates fnID d.
Proof. unfold sorted. by rewrite (proj1 (Horder _)). Qed.

(** The kept ones and the dropped ones have no name in common. *)
Lemma kept_not_dropped h : h ∈ cand_name <$> take keep sorted -> h ∉ cand_name <$> drop keep sorted.
Proof.
  pose proof sorted_names_nodup as Hnd. rewrite <- (take_drop keep sorted), fmap_app in Hnd.
  apply NoDup_app in Hnd as (_ & Hnd & _). auto.
Qed.

Lemma doomed_inv h : h ∈ doomed order keep fnID d ->
  h <> ResolveActiveHash fnID d /\ h ∈ cand_name <$> drop keep sorted /\ (keep < length sorted)%nat.
Proof.
  unfold doomed. destruct (Nat.leb_spec (length (candidates fnID d)) keep) as [|Hlt]; [by intros ?%elem_of_nil|].
  intros [Hin Hb]%list_elem_of_In%List.filter_In. apply negb_true_iff, bool_decide_eq_false in Hb.
  apply list_elem_of_In in Hin. split_and!; [done | done |]. unfold sorted. by rewrite (Permutation_length (proj1 (Horder _))).
Qed.

Lemma dropped_sorted c : c ∈ drop keep sorted -> c ∈ sorted.
Proof. intros Hc. rewrite <- (take_drop keep sorted). apply elem_of_app. auto. Qed.
Lemma taken_sorted c : c ∈ take keep sorted -> c ∈ sorted.
Proof. intros Hc. rewrite <- (take_drop keep sorted). apply elem_of_app. auto. Qed.

Lemma doomed_present : Forall (fun h => is_Some (versions (dir_of fnID d) !! h)) (doomed order keep fnID d).
Proof.
  apply Forall_forall. intros h (_ & Hin & _)%doomed_inv. apply list_elem_of_fmap in Hin as (c & -> & Hc).
  apply dropped_sorted, sorted_in, candidates_in in Hc as (_ & v & Hv & _). eauto.
Qed.

Lemma doomed_nodup : NoDup (doomed order keep fnID d).
Proof.
  unfold doomed. destruct (_ <=? _)%nat; [constructor|]. apply NoDup_ListNoDup, List.NoDup_filter, NoDup_ListNoDup.
  pose proof sorted_names_nodup as Hn. rewrite <- (take_drop keep sorted), fmap_app in Hn. by apply NoDup_app in Hn as (_ & _ & ?).
Qed.

(** A version that is not chosen is active or among the newest [keep]. *)
Lemma spared_is_kept c : c ∈ candidates fnID d -> cand_name c ∉ doomed order keep fnID d ->
  cand_name c ∈ ResolveActiveHash fnID d :: (cand_name <$> take keep sorted).
Proof.
  intros Hin Hn. apply sorted_in in Hin.
  destruct (decide (cand_name c = ResolveActiveHash fnID d)) as [->|Hne]; apply elem_of_cons; [by left | right].
  rewrite <- (take_drop keep sorted) in Hin. apply elem_of_app in Hin as [Hin|Hin]; [by apply list_elem_of_fmap_2|].
  exfalso. apply Hn. unfold doomed. destruct (Nat.leb_spec (length (candidates fnID d)) keep) as [Hle|_].
  - rewrite <- (Permutation_length (proj1 (Horder _))) in Hle. fold sorted in Hle. rewrite drop_ge in Hin by lia. by apply elem_of_nil in Hin.
  - apply list_elem_of_In, List.filter_In. split; [by apply list_elem_of_In, list_elem_of_fmap_2|]. by rewrite bool_decide_eq_false_2.
Qed.

(** Pruning a function's versions touches nothing of another function and
    no [current] link.  A version it removes was complete, not a directory
    under construction and not the one [current] points at, and [keep] other
    complete versions, none older than it, are still there; with nothing in
    the way of removal at most [keep] complete versions and the active one are
    left, and the number returned is the number removed. *)
Theorem prune_keeps_active_and_newest :
  let '(d', n) := pruneFunction order removable keep fnID d in
  (forall f, f <> fnID -> dir_of f d' = dir_of f d) /\ (forall f, current (dir_of f d') = current (dir_of f d)) /\
  (forall h v, versions (dir_of fnID d) !! h = Some v ->
     versions (dir_of fnID d') !! h = Some v \/
     versions (dir_of fnID d') !! h = None /\ scratch_name h = false /\ is_ready v = true /\ h <> ResolveActiveHash fnID d /\
     exists newer, length newer = keep /\ NoDup newer /\
       Forall (fun h' => exists v', versions (dir_of fnID d') !! h' = Some v' /\ is_ready v' = true /\ v_mtime v <= v_mtime v') newer) /\
  ((forall h, removable h = true) -> (length (candidates fnID d') <= S keep)%nat) /\
  n = Z.of_nat (size (versions (dir_of fnID d))) - Z.of_nat (size (versions (dir_of fnID d'))).
Proof.
  pose proof (remove_versions_spec removable fnID (doomed order keep fnID d) d 0) as Hrm.
  pose proof (remove_versions_count removable fnID _ d 0 doomed_nodup doomed_present) as Hcount.
  unfold pruneFunction. destruct (foldl _ _ _) as [d' n]. cbn [fst] in Hrm. destruct Hrm as [H1 H2 H3].
  split_and!; [done | done | | | lia].
  - intros h v Hv. rewrite H3. destruct (bool_decide_reflect (h ∈ doomed order keep fnID d)) as [Hd|]; [|by left].
    destruct (removable h); [|by left]. right. apply doomed_inv in Hd as (Hact & Hin & Hlen).
    apply list_elem_of_fmap in Hin as (c & -> & Hc). pose proof (dropped_sorted _ Hc) as Hs.
    apply sorted_in, candidates_in in Hs as (Hscr & v1 & Hv1 & Hr1 & Hm1). rewrite Hv in Hv1. injection Hv1 as <-.
    split_and!; [done | done | done | done |]. exists (cand_name <$> take keep sorted). split_and!.
    + rewrite length_fmap, length_take. lia.
    + pose proof sorted_names_nodup as Hn. rewrite <- (take_drop keep sorted), fmap_app in Hn. by apply NoDup_app in Hn as (? & _ & _).
    + apply Forall_forall. intros h' Hh'. assert (Hnot : h' ∉ doomed order keep fnID d).
      { intros (_ & Hx & _)%doomed_inv. by eapply kept_not_dropped. }
      apply list_elem_of_fmap in Hh' as (c' & -> & Hc'). pose proof (taken_sorted _ Hc') as Hs'.
      apply sorted_in, candidates_in in Hs' as (_ & v' & Hv' & Hr' & Hm').
      exists v'. rewrite H3, bool_decide_eq_false_2 by done. split_and!; [done | done |]. rewrite <- Hm1, <- Hm'.
      pose proof (proj2 (Horder (candidates fnID d))) as Hss. fold sorted in Hss. rewrite <- (take_drop keep sorted) in Hss.
      exact (StronglySorted_app_1_elem_of _ _ _ _ _ Hss Hc' Hc).
  - intros Hall. assert (Hincl : incl (cand_name <$> candidates fnID d') (ResolveActiveHash fnID d :: (cand_name <$> take keep sorted))).
    { intros h (c & -> & Hc)%list_elem_of_In%list_elem_of_fmap. apply candidates_in in Hc as (Hscr & v & Hv & Hr & Hm).
      rewrite H3, Hall, andb_true_r in Hv. destruct (bool_decide_reflect (cand_name c ∈ doomed order keep fnID d)) as [|Hn]; [done|].
      apply list_elem_of_In, spared_is_kept; [|done]. apply candidates_in. eauto. }
    pose proof (candidates_nodup fnID d') as Hn. apply NoDup_ListNoDup in Hn. pose proof (List.NoDup_incl_length Hn Hincl) as Hl.
    rewrite length_fmap in Hl. cbn [length] in Hl. rewrite length_fmap, length_take in Hl. lia.
Qed.

End Prune.

(** Sorting by time with a merge sort is such an order. *)
Definition newer_cand (a b : candidate) : Prop := cand_mtime b <= cand_mtime a.
#[export] Instance newer_cand_dec a b : Decision (newer_cand a b).
Proof. unfold newer_cand. apply _. Defined.
#[export] Instance newer_cand_trans : Transitive newer_cand.
Proof. intros a b c Hab Hbc. unfold newer_cand in *. lia. Qed.
#[export] Instance newer_cand_total : Total newer_cand.
Proof. intros a b. unfold newer_cand. lia. Qed.
Lemma merge_newest_first : newest_first (merge_sort newer_cand).
Proof. intros l. split; [apply merge_sort_Permutation | apply (StronglySorted_merge_sort newer_cand)]. Qed.

Definition ready_tree : tree := <[[ready_marker] := File []]> empty_dir.
Definition sample_fn_dir : fn_dir :=
  MkFnDir (list_to_map [("h1", MkVersionDir ready_tree 1); ("h2", MkVersionDir ready_tree 2); ("h3", MkVersionDir ready_tree 3);
                        ("h0.tmp.ab", MkVersionDir ready_tree 0)]%string) (Some "versions/h1"%string).

Lemma prune_keeps_active_and_newest_witness :
  let d : disk := {[ "f"%string := sample_fn_dir ]} in
  newest_first (merge_sort newer_cand) /\
  let '(d', n) := pruneFunction (merge_sort newer_cand) (fun _ => true) 1 "f" d in
  (n = 1 /\ map (fun h => bool_decide (is_Some (versions (dir_of "f" d') !! h))) ["h1"; "h2"; "h3"; "h0.tmp.ab"]%string = [true; false; true; true]) /\
  (length (candidates "f" d') <= 2)%nat.
Proof.
  intros d. split; [exact merge_newest_first|].
  pose proof (prune_keeps_active_and_newest (merge_sort newer_cand) merge_newest_first (fun _ => true) 1 "f" d) as H.
  assert (Hc : (let '(d', n) := pruneFunction (merge_sort newer_cand) (fun _ => true) 1 "f" d in
    (n, map (fun h => bool_decide (is_Some (versions (dir_of "f" d') !! h))) ["h1"; "h2"; "h3"; "h0.tmp.ab"]%string)) = (1, [true; false; true; true]))
    by (vm_compute; reflexivity).
  revert H Hc. destruct (pruneFunction _ _ _ _ _) as [d' n]. intros H Hc. split; [|apply H; reflexivity].
  split; [exact (f_equal fst Hc) | exact (f_equal snd Hc)].
Defined.

(* ------------------------------------------------------------------ *)
(** ** Cache bounds *)

Lemma first_pass_spec live days age grace evict l :
  (forall e, e ∈ first_pass live days age grace evict l -> e ∈ l) /\
  (forall e, e ∈ l -> e ∉ first_pass live days age grace evict l ->
     evict e = true /\ ce_mtime e <= grace /\ (ce_fnID e ∉ live \/ 0 < days /\ ce_mtime e < age)) /\
  (forall e, e ∈ first_pass live days age grace evict l ->
     (ce_fnID e ∈ live /\ ~ (0 < days /\ ce_mtime e < age)) \/ grace < ce_mtime e \/ evict e = false).
Proof.
  induction l as [|e l (H1 & H2 & H3)]; cbn [first_pass]; [split_and!; intros e ?%elem_of_nil; done|].
  assert (Hkeep : ((ce_fnID e ∈ live /\ ~ (0 < days /\ ce_mtime e < age)) \/ grace < ce_mtime e \/ evict e = false) ->
    (forall e', e' ∈ e :: first_pass live days age grace evict l -> e' ∈ e :: l) /\
    (forall e', e' ∈ e :: l -> e' ∉ e :: first_pass live days age grace evict l ->
      evict e' = true /\ ce_mtime e' <= grace /\ (ce_fnID e' ∉ live \/ 0 < days /\ ce_mtime e' < age)) /\
    (forall e', e' ∈ e :: first_pass live days age grace evict l ->
      (ce_fnID e' ∈ live /\ ~ (0 < days /\ ce_mtime e' < age)) \/ grace < ce_mtime e' \/ evict e' = false)).
  { intros He. split_and!.
    - intros e'. rewrite !elem_of_cons. intros [->|?]; auto.
    - intros e'. rewrite !elem_of_cons. intros [->|?] Hn; [tauto | apply H2; tauto].
    - intros e'. rewrite elem_of_cons. intros [->|?]; auto. }
  destruct (negb (negb _) && negb _) eqn:E1.
  - apply Hkeep. left. rewrite negb_involutive in E1. apply andb_true_iff in E1 as [Hl%bool_decide_eq_true Hs]. split; [done|].
    zbool; lia.
  - destruct (Z.ltb_spec grace (ce_mtime e)) as [|Hg]; [apply Hkeep; auto|]. destruct (evict e) eqn:Ee; [|apply Hkeep; auto].
    split_and!; [intros e' ?; apply elem_of_cons; auto | | done].
    intros e' [->|Hin]%elem_of_cons Hn; [|auto]. split_and!; [done | lia |].
    rewrite negb_involutive in E1. destruct (bool_decide_reflect (ce_fnID e ∈ live)) as [Hl|]; [right | by left].
    cbn [andb] in E1. apply negb_false_iff in E1. zbool; lia.
Qed.

Lemma size_pass_spec cap grace evict l total : StronglySorted (fun a b => ce_mtime a <= ce_mtime b) l ->
  let left := size_pass cap grace total evict l in
  (forall e, e ∈ left -> e ∈ l) /\
  (forall e, e ∈ l -> e ∉ left -> evict e = true /\ ce_mtime e <= grace /\
     forall e', e' ∈ left -> ce_mtime e' < ce_mtime e -> evict e' = false \/ grace < ce_mtime e') /\
  (total - zsum ce_bytes l + zsum ce_bytes left <= cap \/ forall e, e ∈ left -> grace < ce_mtime e \/ evict e = false).
Proof.
  intros Hs. cbv zeta. revert total. induction Hs as [|e l Hs IH He]; intros total; cbn [size_pass].
  - split_and!; [done | by intros e ?%elem_of_nil | right; by intros e ?%elem_of_nil].
  - destruct (Z.leb_spec total cap) as [Hle|Hgt].
    { split_and!; [done | done | left; lia]. }
    assert (Hkeep : (grace < ce_mtime e \/ evict e = false) ->
      let left := e :: size_pass cap grace total evict l in
      (forall e0, e0 ∈ left -> e0 ∈ e :: l) /\
      (forall e0, e0 ∈ e :: l -> e0 ∉ left -> evict e0 = true /\ ce_mtime e0 <= grace /\
         forall e', e' ∈ left -> ce_mtime e' < ce_mtime e0 -> evict e' = false \/ grace < ce_mtime e') /\
      (total - zsum ce_bytes (e :: l) + zsum ce_bytes left <= cap \/ forall e0, e0 ∈ left -> grace < ce_mtime e0 \/ evict e0 = false)).
    { intros Hx. destruct (IH total) as (H1 & H2 & H3). cbv zeta. split_and!.
      - intros e0. rewrite !elem_of_cons. intros [->|?]; auto.
      - intros e0. rewrite !elem_of_cons. intros [->|Hin] Hn; [tauto|]. destruct (H2 e0) as (K1 & K2 & K3); [done | tauto|].
        split_and!; [done | done |]. intros e'. rewrite elem_of_cons. intros [->|?]; [tauto | by apply K3].
      - rewrite !zsum_cons. destruct H3 as [H3|H3]; [left; lia | right]. intros e0. rewrite elem_of_cons. intros [->|?]; auto. }
    destruct (Z.ltb_spec grace (ce_mtime e)) as [Hg|Hg]; [apply Hkeep; auto|]. destruct (evict e) eqn:Ee; [|apply Hkeep; auto].
    destruct (IH (total - ce_bytes e)) as (H1 & H2 & H3). split_and!.
    + intros e0 ?. apply elem_of_cons. auto.
    + intros e0. rewrite elem_of_cons. intros [->|Hin] Hn; [|auto]. split_and!; [done | lia |]. intros e' He' Hlt.
      rewrite Forall_forall in He. pose proof (He e' (H1 e' He')). lia.
    + rewrite zsum_cons. destruct H3; [left; lia | by right].
Qed.

(** The two reasons a cache goes whatever the space used. *)
Definition expired (c : cache_config) (live : gset string) (e : cacheEntry) : Prop :=
  ce_fnID e ∉ live \/ 0 < maxAgeDays c /\ ce_mtime e < ageCutoff c.

(** The cache sweep only drops caches whose last build is older than the
    grace period and whose lock and removal worked.  Every cache that is left
    although its function is gone or its age is over the limit was young or
    could not be removed.  With a cap set, what is left fits under it, unless
    everything left is young or could not be removed; and a cache is dropped
    for space only when no older one that could go is left. *)
Theorem cache_sweep_is_bounded order c live evict1 evict2 caches :
  oldest_first order ->
  let left := sweepBuildCaches order c live evict1 evict2 caches in
  (forall e, e ∈ left -> e ∈ caches) /\
  (forall e, e ∈ caches -> e ∉ left -> ce_mtime e <= graceCutoff c /\ (evict1 e = true /\ expired c live e \/ evict2 e = true /\ 0 < maxMB c)) /\
  (forall e, e ∈ left -> expired c live e -> graceCutoff c < ce_mtime e \/ evict1 e = false) /\
  (0 < maxMB c -> zsum ce_bytes left <= capBytes c \/ forall e, e ∈ left -> graceCutoff c < ce_mtime e \/ evict2 e = false) /\
  (forall e e', e ∈ caches -> e ∉ left -> ~ expired c live e -> e' ∈ left -> ce_mtime e' < ce_mtime e ->
     evict2 e' = false \/ graceCutoff c < ce_mtime e').
Proof.
  intros Ho left.
  destruct (first_pass_spec live (maxAgeDays c) (ageCutoff c) (graceCutoff c) evict1 caches) as (F1 & F2 & F3).
  set (kept := first_pass live (maxAgeDays c) (ageCutoff c) (graceCutoff c) evict1 caches) in *.
  destruct (Ho kept) as [Hperm Hsorted].
  destruct (size_pass_spec (capBytes c) (graceCutoff c) evict2 (order kept) (zsum ce_bytes kept) Hsorted) as (S1 & S2 & S3).
  rewrite (zsum_perm ce_bytes _ _ Hperm) in S3.
  assert (Hin : forall e, e ∈ order kept <-> e ∈ kept) by (intros e; by rewrite Hperm).
  set (swept := size_pass (capBytes c) (graceCutoff c) (zsum ce_bytes kept) evict2 (order kept)) in *.
  assert (Hleft : left = kept /\ (0 < maxMB c -> zsum ce_bytes kept <= capBytes c) \/ left = swept /\ 0 < maxMB c).
  { unfold left, sweepBuildCaches. cbv zeta. fold kept swept. destruct (Z.ltb_spec 0 (maxMB c)); [|left; split; [done | lia]].
    destruct (Z.ltb_spec (capBytes c) (zsum ce_bytes kept)); [by right | by left]. }
  assert (Hexp : forall e, e ∈ kept -> expired c live e -> graceCutoff c < ce_mtime e \/ evict1 e = false).
  { intros e He Hx. destruct (F3 e He) as [[Hl Hs]|?]; [|done]. destruct Hx; [done | tauto]. }
  destruct Hleft as [[-> Hcap]|[-> Hmax]]; split_and!.
  - exact F1.
  - intros e He Hn. destruct (F2 e He Hn) as (K1 & K2 & K3). auto.
  - exact Hexp.
  - auto.
  - intros e e' He Hn Hx. exfalso. apply Hx. by destruct (F2 e He Hn) as (_ & _ & ?).
  - intros e He. by apply F1, Hin, S1.
  - intros e He Hn. destruct (decide (e ∈ kept)) as [Hk|Hk]; [|destruct (F2 e He Hk) as (K1 & K2 & K3); auto].
    destruct (S2 e (proj2 (Hin e) Hk) Hn) as (K1 & K2 & _). auto.
  - intros e He. by apply Hexp, Hin, S1.
  - intros _. destruct S3; [left; lia | by right].
  - intros e e' He Hn Hx He' Hlt. destruct (decide (e ∈ kept)) as [Hk|Hk].
    + destruct (S2 e (proj2 (Hin e) Hk) Hn) as (_ & _ & K3). eauto.
    + exfalso. apply Hx. by destruct (F2 e He Hk) as (_ & _ & ?).
Qed.

Definition older_cache (a b : cacheEntry) : Prop := ce_mtime a <= ce_mtime b.
#[export] Instance older_cache_dec a b : Decision (older_cache a b).
Proof. unfold older_cache. apply _. Defined.
#[export] Instance older_cache_trans : Transitive older_cache.
Proof. intros a b c. unfold older_cache. lia. Qed.
#[export] Instance older_cache_total : Total older_cache.
Proof. intros a b. unfold older_cache. lia. Qed.
Lemma cache_sweep_is_bounded_witness :
  let c := MkCacheConfig 30 1 100 900 in
  let caches := [MkCache "gone" 200 5; MkCache "new" 950 700000; MkCache "b" 500 700000; MkCache "a" 400 900000; MkCache "old" 50 1] in
  let live := {["new"; "a"; "b"; "old"]}%string in
  let left := sweepBuildCaches (merge_sort older_cache) c live (fun _ => true) (fun _ => true) caches in
  (0 < maxMB c -> zsum ce_bytes left <= capBytes c \/ forall e, e ∈ left -> graceCutoff c < ce_mtime e \/ true = false) /\
  left = [MkCache "new" 950 700000].
Proof.
  intros c caches live left. split; [|vm_compute; reflexivity].
  apply (cache_sweep_is_bounded (merge_sort older_cache) c live (fun _ => true) (fun _ => true) caches).
  intros l. split; [apply merge_sort_Permutation | apply (StronglySorted_merge_sort older_cache)].
Defined.

(* ------------------------------------------------------------------ *)
(** ** A whole tick *)

(** What every pass over the directories keeps: links, the version behind each
    link, and the directories themselves. *)
Record spares (k k' : disk) : Prop := {
  sp_current : forall f, current (dir_of f k') = current (dir_of f k);
  sp_active : forall f v, versions (dir_of f k) !! ResolveActiveHash f k = Some v -> versions (dir_of f k') !! ResolveActiveHash f k = Some v;
  sp_dom : forall f, k' !! f = None <-> k !! f = None }.

#[export] Instance spares_refl : Reflexive spares.
Proof. intros k. by split. Qed.
#[export] Instance spares_trans : Transitive spares.
Proof.
  intros k1 k2 k3 [H1 H2 H3] [H4 H5 H6]. split.
  - intros f. by rewrite H4.
  - intros f v Hv. rewrite (ResolveActiveHash_dir f k1 k2) by by rewrite H1. apply H5.
    rewrite (ResolveActiveHash_dir f k2 k1) by by rewrite H1. by apply H2.
  - intros f. by rewrite H6.
Qed.

Lemma remove_versions_dom removable fnID l k n f :
  fst (foldl (remove_version removable fnID) (k, n) l) !! f = None <-> k !! f = None.
Proof.
  revert k n. induction l as [|h l IH]; intros k n; cbn [foldl]; [done|].
  unfold remove_version at 2. destruct (removable h); [|apply IH]. rewrite IH. apply lookup_alter_None.
Qed.

Lemma prune_spares order removable keep fnID k : newest_first order -> spares k (fst (pruneFunction order removable keep fnID k)).
Proof.
  intros Ho. unfold pruneFunction.
  destruct (remove_versions_spec removable fnID (doomed order keep fnID k) k 0) as [H1 H2 H3]. split; [done | |].
  - intros f v Hv. destruct (decide (f = fnID)) as [->|Hf]; [|by rewrite H1]. rewrite H3, bool_decide_eq_false_2; [done|].
    intros Hd. by destruct (doomed_inv order Ho keep fnID k _ Hd).
  - intros f. apply remove_versions_dom.
Qed.

Lemma prune_all_spares order removable keep (page : list Function_) k n : newest_first order ->
  spares k (fst (foldl (fun '(k, n) fn => let '(k, m) := pruneFunction order (removable (fn_ID fn)) keep (fn_ID fn) k in (k, n + m)) (k, n) page)).
Proof.
  intros Ho. revert k n. induction page as [|fn page IH]; intros k n; cbn [foldl]; [reflexivity|].
  pose proof (prune_spares order (removable (fn_ID fn)) keep (fn_ID fn) k Ho) as Hs. destruct (pruneFunction _ _ _ _ _) as [k1 m].
  etrans; [exact Hs | apply IH].
Qed.

Lemma full_page order d : returns_rows order ->
  let '(page, total) := ListFunctions order (MkParams EmptyString EmptyString 10000 0) d in
  (forall fn, fn ∈ page -> exists id, functions d !! id = Some fn) /\
  (total <= Z.of_nat (length page) ->
     (forall id fn, functions d !! id = Some fn -> fn ∈ page) /\ Z.of_nat (size (functions d)) <= 1000).
Proof.
  intros Hr. pose proof (ListFunctions_in order (MkParams EmptyString EmptyString 10000 0) d) as Hin.
  unfold ListFunctions in *. cbn [p_Status p_Runtime p_Limit p_Offset] in *.
  change (Z.to_nat 0) with 0%nat in *. rewrite drop_0 in *. change (Z.to_nat (clamp_limit 10000)) with 1000%nat in *.
  assert (Hf : forall l : list Function_, List.filter (fun f => (bool_decide (EmptyString = EmptyString) || bool_decide (fn_Status f = EmptyString)) &&
                  (bool_decide (EmptyString = EmptyString) || bool_decide (fn_Runtime f = EmptyString))) l = l).
  { induction l as [|x l IH]; [done|]. cbn. by f_equal. }
  rewrite Hf in *. split; [intros fn; by apply Hin|]. rewrite length_take, (Permutation_length (Hr _)), length_fmap, length_map_to_list.
  intros Hle. split; [|lia]. intros id fn Hfn. rewrite take_ge by (rewrite (Permutation_length (Hr _)), length_fmap, length_map_to_list; lia).
  apply list_elem_of_In, (Permutation_in _ (Permutation_sym (Hr _))), list_elem_of_In, list_elem_of_fmap.
  exists (id, fn). split; [done|]. by apply elem_of_map_to_list.
Qed.

Lemma sweep_keeps live cutoff lastWrite removable k f :
  f ∈ live -> dir_of f (sweepOrphanFunctionDirs live cutoff lastWrite removable k) = dir_of f k.
Proof.
  intros Hf. unfold sweepOrphanFunctionDirs, dir_of. case_bool_decide; [done|].
  destruct (k !! f) as [dir|] eqn:E.
  - rewrite (map_lookup_filter_Some_2 _ _ _ _ E); [done|]. cbn. by rewrite bool_decide_eq_true_2.
  - rewrite map_lookup_filter_None_2; [done | by left].
Qed.

(** A tick that does not overlap another operation: for every function in
    the table the [current] link and the version behind it are what they were.
    A function directory disappears only when the table has no such function,
    the table was listed completely and is not empty, no renaming of
    directories is outstanding, and the directory is old and unlocked. *)
Theorem tick_spares_serving_code io versions_to_keep d k :
  db_ok d -> returns_rows (ti_rows io) -> newest_first (ti_order io) ->
  let '(k', _) := tick io versions_to_keep d k in
  (forall id fn, functions d !! id = Some fn ->
     current (dir_of id k') = current (dir_of id k) /\
     forall v, versions (dir_of id k) !! ResolveActiveHash id k = Some v -> versions (dir_of id k') !! ResolveActiveHash id k = Some v) /\
  (forall f, is_Some (k !! f) -> k' !! f = None ->
     functions d !! f = None /\ functions d <> ∅ /\ Z.of_nat (size (functions d)) <= 1000 /\
     ti_pending_renames io = false /\ ti_lastWrite io f <= ti_cutoff io /\ ti_dir_removable io f = true).
Proof.
  intros Hok Hrows Horder. unfold tick. pose proof (full_page (ti_rows io) d Hrows) as Hpage.
  destruct (ListFunctions _ _ _) as [page total]. destruct Hpage as [Hin Hfull].
  pose proof (prune_all_spares (ti_order io) (ti_removable io) (keep_count versions_to_keep) page k 0 Horder) as Hsp.
  destruct (foldl _ _ page) as [k1 n]. cbn [fst] in Hsp. destruct Hsp as [H1 H2 H3].
  assert (Hbase : (forall id fn, functions d !! id = Some fn -> current (dir_of id k1) = current (dir_of id k) /\
      forall v, versions (dir_of id k) !! ResolveActiveHash id k = Some v -> versions (dir_of id k1) !! ResolveActiveHash id k = Some v) /\
    (forall f, is_Some (k !! f) -> k1 !! f <> None)).
  { split; [intros id fn _; split; [done | intros v; apply H2]|]. intros f Hs Hn. apply H3 in Hn. rewrite Hn in Hs. by destruct Hs. }
  destruct Hbase as [Hb1 Hb2]. cbv zeta. set (live := list_to_set _).
  destruct (Z.leb_spec total (Z.of_nat (length page))) as [Hle|]; cbn [negb]; [|split; [done | by intros f Hs Hn; destruct (Hb2 f Hs)]].
  destruct (Hfull Hle) as [Hall Hsize].
  destruct (bool_decide_reflect (live = ∅)) as [|Hlive]; [split; [done | by intros f Hs Hn; destruct (Hb2 f Hs)]|].
  destruct (ti_pending_renames io); [split; [done | by intros f Hs Hn; destruct (Hb2 f Hs)]|].
  assert (Hlv : forall id, is_Some (functions d !! id) <-> id ∈ live).
  { intros id. unfold live. rewrite elem_of_list_to_set, list_elem_of_fmap. split.
    - intros [fn Hfn]. exists fn. split; [symmetry; by eapply ok_keys | by eapply Hall].
    - intros (fn & -> & (i & Hi)%Hin). rewrite (ok_keys _ Hok _ _ Hi). eauto. }
  split.
  - intros id fn Hfn. rewrite sweep_keeps by (apply Hlv; eauto). by apply (Hb1 id fn).
  - intros f Hs Hn. pose proof (Hb2 f Hs) as Hk1. destruct (k1 !! f) as [dir|] eqn:E; [clear Hk1 | by destruct Hk1].
    unfold sweepOrphanFunctionDirs in Hn. rewrite bool_decide_eq_false_2 in Hn by done.
    apply map_lookup_filter_None in Hn as [?|Hn]; [congruence|]. specialize (Hn dir E). cbn in Hn.
    apply not_true_iff_false in Hn. rewrite !orb_false_iff in Hn. destruct Hn as [[Hl%bool_decide_eq_false Hw%Z.ltb_ge] Hr%negb_false_iff].
    split_and!; [| | done | done | done | done].
    + destruct (functions d !! f) eqn:Ef; [|done]. destruct Hl. apply Hlv. eauto.
    + intros He. apply Hlive, set_eq. intros id. rewrite <- Hlv, He, lookup_empty. split; [by intros [? ?] | by intros ?%elem_of_empty].
Qed.

Lemma tick_spares_serving_code_witness :
  let d := MkDb {[ "f"%string := sample_function "f" "a" ]} [] in
  let k : disk := <["ghost"%string := MkFnDir ∅ None]> {[ "f"%string := sample_fn_dir ]} in
  let io := MkTick id (merge_sort newer_cand) (fun _ _ => true) false 100 (fun _ => 7) (fun _ => true) in
  db_ok d /\
  let '(k', n) := tick io 1 d k in
  (forall f, is_Some (k !! f) -> k' !! f = None -> functions d !! f = None /\ functions d <> ∅ /\ Z.of_nat (size (functions d)) <= 1000 /\
     ti_pending_renames io = false /\ ti_lastWrite io f <= ti_cutoff io /\ ti_dir_removable io f = true) /\
  n = 1 /\ k' !! "ghost"%string = None /\ ResolveActiveHash "f" k' = "h1"%string.
Proof.
  intros d k io.
  assert (Hd : db_ok d).
  { split; cbn.
    - intros id fn [<- <-]%lookup_singleton_Some. reflexivity.
    - intros i j f g [<- _]%lookup_singleton_Some [<- _]%lookup_singleton_Some _. reflexivity.
    - constructor.
    - constructor. }
  split; [exact Hd|].
  pose proof (tick_spares_serving_code io 1 d k Hd (fun l => Permutation_refl l) merge_newest_first) as H.
  assert (Hc : (let '(k', n) := tick io 1 d k in (n, k' !! "ghost"%string, ResolveActiveHash "f" k')) = (1, None, "h1"%string))
    by (vm_compute; reflexivity).
  revert H Hc. destruct (tick io 1 d k) as [k' n]. intros H Hc. split; [apply H|].
  split; [exact (f_equal (fun x => fst (fst x)) Hc)|]. split; [exact (f_equal (fun x => snd (fst x)) Hc) | exact (f_equal snd Hc)].
Defined.
