(* ===== verification/Deploy.v ===== *)
(** * Deploying, updating and rolling back
    ([server/handlers/functions.go], [builder/queue.go], [builder/buildcache.go])

    The handlers and the build queue on one [world]: the registry with the
    tables behind it, the disk, the queue's channel and what was told to the
    pools, the event hub and the metrics.  A handler that reads before it
    writes, or before it takes the function's lock, is given in the parts
    between which other operations can run; the whole handler composes them. *)
From S2P Require Import Prelude GoText Float64 Netip Url Safepath Registry Builder.
Open Scope Z_scope.

(* ------------------------------------------------------------------ *)
(** ** State *)

Record BuildJob := MkJob { j_DeploymentID : string; j_FunctionID : string; j_Archive : option (list Z) }.

Inductive pool_call := PoolRefresh (fnID : string) | PoolDrain (fnID : string).
Record status_event := MkStatus { se_deployment : string; se_function : string; se_status : string; se_phase : string }.

Record world := MkWorld {
  w_reg : registry; w_disk : disk; w_jobs : list BuildJob; w_stopping : bool;
  w_pool : list pool_call; w_events : list status_event; w_builds : list bool }.
#[export] Instance eta_world : Eta world := fun r =>
  MkWorld (w_reg r) (w_disk r) (w_jobs r) (w_stopping r) (w_pool r) (w_events r) (w_builds r).

Definition w_db (w : world) : db := r_db (w_reg w).
Definition on_db (f : db -> db) (w : world) : world := w <| w_reg ::= fun r => r <| r_db ::= f |> |>.

(** A handler's answer: a result, or a status with the error code. *)
Inductive reply (A : Type) := Reply (a : A) | Refuse (status : Z) (code : string).
Arguments Reply {A} a. Arguments Refuse {A} status code.

Definition not_found {A} : reply A := Refuse 404 "NOT_FOUND".
Definition validation {A} : reply A := Refuse 400 "VALIDATION".
Definition internal {A} : reply A := Refuse 500 "INTERNAL".
Definition conflict {A} : reply A := Refuse 409 "CONFLICT".

(* ------------------------------------------------------------------ *)
(** ** Lookup *)

(** [uuid.Parse] succeeds on [isUUID] texts. *)
Definition resolveFnID (isUUID : string -> bool) (idOrName : string) (w : world) : world * option string :=
  let s := trimSpace idOrName in
  if bool_decide (s = EmptyString) then (w, None)
  else
    let '(r, hit) := if isUUID s then Get s (w_reg w) else (w_reg w, None) in
    let w := w <| w_reg := r |> in
    match hit with
    | Some _ => (w, Some s)
    | None => (w, fn_ID <$> GetFunctionByName s (w_db w))
    end.

(** The lookup with which every handler starts. *)
Definition find_function (isUUID : string -> bool) (rawID : string) (w : world) : world * reply Function_ :=
  if bool_decide (rawID = EmptyString) then (w, Refuse 400 "INVALID_REQUEST")
  else
    let '(w, id) := resolveFnID isUUID rawID w in
    match id with
    | None => (w, not_found)
    | Some id => let '(r, fn) := Get id (w_reg w) in
                 (w <| w_reg := r |>, match fn with Some fn => Reply fn | None => not_found end)
    end.

(* ------------------------------------------------------------------ *)
(** ** Create *)

Record createFunctionRequest := MkCreate {
  cr_Name : string; cr_Description : string; cr_Runtime : string; cr_Entrypoint : string; cr_TimeoutMS : Z; cr_MemoryMB : Z;
  cr_CPUs : float64; cr_EnvVars : gmap string string; cr_NetworkMode : string; cr_MaxConcurrency : Z;
  cr_ConcurrencyPolicy : string; cr_AuthMode : string; cr_RateLimitPerMin : Z }.

Definition validRuntimes (r : string) : bool := bool_decide (r ∈ ["node"; "python"]%string).
Definition or_default (s d : string) : string := if bool_decide (s = EmptyString) then d else s.
Definition zero_f : float64 := f_of_int 0.

Definition create_valid (req : createFunctionRequest) : bool :=
  negb (bool_decide (cr_Name req = EmptyString)) && negb (bool_decide (cr_Runtime req = EmptyString)) && validRuntimes (cr_Runtime req) &&
  ValidNetworkMode (cr_NetworkMode req) && ValidConcurrencyPolicy (cr_ConcurrencyPolicy req) && (0 <=? cr_MaxConcurrency req) &&
  ValidAuthMode (cr_AuthMode req) && (0 <=? cr_RateLimitPerMin req) &&
  (bool_decide (cr_Entrypoint req = EmptyString) || bool_decide (Validate (cr_Entrypoint req) = None)).

Definition default_entrypoint (runtime : string) : string := if isNodeRuntime runtime then "handler.js" else "handler.py".

Definition new_function (fnID : string) (req : createFunctionRequest) : Function_ :=
  MkFunction fnID (cr_Name req) (cr_Description req) (cr_Runtime req)
    (or_default (cr_Entrypoint req) (default_entrypoint (cr_Runtime req))) EmptyString
    (if cr_TimeoutMS req <=? 0 then 30000 else cr_TimeoutMS req) (if cr_MemoryMB req <=? 0 then 64 else cr_MemoryMB req)
    (if fle (cr_CPUs req) zero_f then fconst 1 2 else cr_CPUs req) (cr_EnvVars req)
    (or_default (cr_NetworkMode req) NetworkModeNone) (cr_MaxConcurrency req)
    (or_default (cr_ConcurrencyPolicy req) ConcurrencyPolicyQueue) (or_default (cr_AuthMode req) AuthModeNone)
    (cr_RateLimitPerMin req) 1 "created" EmptyString EmptyString EmptyString 0 0 0.

(** What a failed [Registry.Set] is reported as. *)
Definition set_refusal {A} (e : set_error) : reply A := if mentions_unique e then conflict else internal.

Definition Create (newID : string) (io : set_io) (now : Z) (req : createFunctionRequest) (w : world) : world * reply Function_ :=
  if negb (create_valid req) then (w, validation)
  else
    let '(r, x) := Set_ newID io now (new_function newID req) (w_reg w) in
    (w <| w_reg := r |>, match x with Ok fn => Reply fn | Err e => set_refusal e end).

(* ------------------------------------------------------------------ *)
(** ** Update *)

Record updateFunctionRequest := MkUpdate {
  up_Name : option string; up_Description : option string; up_Entrypoint : option string; up_TimeoutMS : option Z;
  up_MemoryMB : option Z; up_CPUs : option float64; up_EnvVars : option (gmap string string); up_NetworkMode : option string;
  up_MaxConcurrency : option Z; up_ConcurrencyPolicy : option string; up_AuthMode : option string;
  up_RateLimitPerMin : option Z; up_Status : option string }.

Definition opt_all {A} (p : A -> bool) (o : option A) : bool := match o with Some a => p a | None => true end.
Definition userSettableStatus (s : string) : bool := bool_decide (s ∈ ["active"; "inactive"]%string).

Definition update_valid (req : updateFunctionRequest) : bool :=
  opt_all ValidNetworkMode (up_NetworkMode req) && opt_all ValidConcurrencyPolicy (up_ConcurrencyPolicy req) &&
  opt_all (Z.leb 0) (up_MaxConcurrency req) && opt_all ValidAuthMode (up_AuthMode req) && opt_all (Z.leb 0) (up_RateLimitPerMin req) &&
  opt_all userSettableStatus (up_Status req) && opt_all (fun n => negb (bool_decide (trimSpace n = EmptyString))) (up_Name req) &&
  opt_all (fun e => bool_decide (Validate e = None)) (up_Entrypoint req) && opt_all (Z.ltb 0) (up_TimeoutMS req) &&
  opt_all (Z.ltb 0) (up_MemoryMB req) && opt_all (fun c => negb (fle c zero_f)) (up_CPUs req).

(** The row with the request applied; whether warm workers must be refreshed,
    and whether they must be drained. *)
Definition apply_update (req : updateFunctionRequest) (fn : Function_) : Function_ * bool * bool :=
  let mode := (fun m => or_default m NetworkModeNone) <$> up_NetworkMode req in
  let policy := (fun p => or_default p ConcurrencyPolicyQueue) <$> up_ConcurrencyPolicy req in
  let netChanged := match mode with Some m => negb (bool_decide (m = fn_NetworkMode fn)) | None => false end in
  let spawnChanged :=
    bool_decide (is_Some (up_Entrypoint req)) || bool_decide (is_Some (up_TimeoutMS req)) || bool_decide (is_Some (up_MemoryMB req)) ||
    bool_decide (is_Some (up_CPUs req)) || bool_decide (is_Some (up_EnvVars req)) || netChanged ||
    match up_MaxConcurrency req with Some m => negb (m =? fn_MaxConcurrency fn) | None => false end ||
    match policy with Some p => negb (bool_decide (p = fn_ConcurrencyPolicy fn)) | None => false end in
  (fn <| fn_Name := default (fn_Name fn) (up_Name req) |> <| fn_Description := default (fn_Description fn) (up_Description req) |>
      <| fn_Entrypoint := default (fn_Entrypoint fn) (up_Entrypoint req) |> <| fn_TimeoutMS := default (fn_TimeoutMS fn) (up_TimeoutMS req) |>
      <| fn_MemoryMB := default (fn_MemoryMB fn) (up_MemoryMB req) |> <| fn_CPUs := default (fn_CPUs fn) (up_CPUs req) |>
      <| fn_EnvVars := default (fn_EnvVars fn) (up_EnvVars req) |> <| fn_NetworkMode := default (fn_NetworkMode fn) mode |>
      <| fn_MaxConcurrency := default (fn_MaxConcurrency fn) (up_MaxConcurrency req) |>
      <| fn_ConcurrencyPolicy := default (fn_ConcurrencyPolicy fn) policy |>
      <| fn_AuthMode := default (fn_AuthMode fn) ((fun m => or_default m AuthModeNone) <$> up_AuthMode req) |>
      <| fn_RateLimitPerMin := default (fn_RateLimitPerMin fn) (up_RateLimitPerMin req) |>
      <| fn_Status := default (fn_Status fn) (up_Status req) |> <| fn_Version ::= fun v => wrap64 (v + 1) |>,
   spawnChanged, netChanged).

(** The write half: [fn] is the copy the handler read. *)
Definition update_write (io : set_io) (now : Z) (req : updateFunctionRequest) (fn : Function_) (w : world) : world * reply Function_ :=
  if negb (update_valid req) then (w, validation)
  else
    let '(fn, spawnChanged, netChanged) := apply_update req fn in
    let '(r, x) := Set_ EmptyString io now fn (w_reg w) in
    match x with
    | Err e => (w <| w_reg := r |>, set_refusal e)
    | Ok fn =>
      (w <| w_reg := r |>
         <| w_pool ::= fun l => l ++ (if netChanged then [PoolDrain (fn_ID fn)] else if spawnChanged then [PoolRefresh (fn_ID fn)] else []) |>,
       Reply fn)
    end.

Definition Update (isUUID : string -> bool) (rawID : string) (io : set_io) (now : Z) (req : option updateFunctionRequest) (w : world)
  : world * reply Function_ :=
  let '(w, f) := find_function isUUID rawID w in
  match f, req with
  | Refuse s c, _ => (w, Refuse s c)
  | Reply _, None => (w, Refuse 400 "INVALID_JSON")
  | Reply fn, Some req => update_write io now req fn w
  end.

(* ------------------------------------------------------------------ *)
(** ** Delete *)

(** [PurgeFunctionFiles]: the code tree goes when [rm] works. *)
Definition PurgeFunctionFiles (dataDir fnID : string) (rm : bool) (k : disk) : disk :=
  match fnScopedPath dataDir "functions" fnID with
  | Ok _ => if rm then delete fnID k else k
  | Err _ => k
  end.

(** Under the function's lock. *)
Definition delete_locked (dataDir fnID : string) (io rm : bool) (w : world) : world * reply string :=
  let '(r, e) := Delete io fnID (w_reg w) in
  match e with
  | Some _ => (w <| w_reg := r |>, internal)
  | None => (w <| w_reg := r |> <| w_pool ::= fun l => l ++ [PoolDrain fnID] |> <| w_disk ::= PurgeFunctionFiles dataDir fnID rm |>, Reply fnID)
  end.

Definition Delete_ (isUUID : string -> bool) (dataDir rawID : string) (io rm : bool) (w : world) : world * reply string :=
  if bool_decide (rawID = EmptyString) then (w, Refuse 400 "INVALID_REQUEST")
  else
    let '(w, id) := resolveFnID isUUID rawID w in
    match id with None => (w, not_found) | Some id => delete_locked dataDir id io rm w end.

(* ------------------------------------------------------------------ *)
(** ** The queue's channel and a deployment's submission *)

Definition queue_cap : nat := 64.
Inductive queue_error := ErrQueueFull | ErrQueueStopping.
Definition Submit (job : BuildJob) (w : world) : world * option queue_error :=
  if w_stopping w then (w, Some ErrQueueStopping)
  else if (length (w_jobs w) <? queue_cap)%nat then (w <| w_jobs ::= fun l => l ++ [job] |>, None)
  else (w, Some ErrQueueFull).

(** [deployError]: status, code and the Retry-After of a full queue. *)
Definition retry_after (queueDepth : Z) : Z :=
  let retry := queueDepth * 30 in
  let retry := if retry <? 5 then 5 else retry in if 300 <? retry then 300 else retry.
Definition deployError (e : queue_error) (queueDepth : Z) : Z * string * Z :=
  match e with
  | ErrQueueFull => (503, "BUILD_QUEUE_FULL"%string, retry_after queueDepth)
  | ErrQueueStopping => (503, "SHUTTING_DOWN"%string, 30)
  end.

(** The asynchronous path of [enqueueOrBuildSync] after the number is drawn. *)
Definition enqueue (deploymentID fnID : string) (version : Z) (archive : option (list Z)) (io io_finish : bool) (now : Z) (w : world)
  : world * reply string :=
  let dep := MkDeployment deploymentID fnID version "queued" "queued" EmptyString 0 None None None EmptyString EmptyString None None in
  match InsertDeployment io now dep (w_db w) with
  | Err _ => (w, internal)
  | Ok d =>
    let w := on_db (fun _ => d) w in
    let '(w', e) := Submit (MkJob deploymentID fnID archive) w in
    match e with
    | None => (w', Reply deploymentID)
    | Some e =>
      let '(status, code, _) := deployError e (Z.of_nat (length (w_jobs w))) in
      (on_db (FinishDeployment io_finish now deploymentID "failed"
                (match e with ErrQueueFull => "build queue full" | ErrQueueStopping => "build queue stopping" end) 0) w, Refuse status code)
    end
  end.

Definition enqueueOrBuildSync (deploymentID : string) (fn : Function_) (archive : option (list Z)) (io io_finish : bool) (now : Z) (w : world)
  : world * reply string :=
  enqueue deploymentID (fn_ID fn) (NextDeploymentVersion (fn_ID fn) (w_db w)) archive io io_finish now w.

(** [Deploy]: the multipart archive is [archive], or the form was bad. *)
Definition Deploy (isUUID : string -> bool) (rawID deploymentID : string) (archive : option (list Z)) (io io_finish : bool) (now : Z) (w : world)
  : world * reply string :=
  let '(w, f) := find_function isUUID rawID w in
  match f, archive with
  | Refuse s c, _ => (w, Refuse s c)
  | Reply _, None => (w, Refuse 400 "INVALID_REQUEST")
  | Reply fn, Some _ => enqueueOrBuildSync deploymentID fn archive io io_finish now w
  end.

(* ------------------------------------------------------------------ *)
(** ** A build job ([Queue.runJob]) *)

Definition publishStatusChange (depID fnID status phase : string) (w : world) : world :=
  w <| w_events ::= fun l => l ++ [MkStatus depID fnID status phase] |>.
Definition on_complete (fnID : string) (success : bool) (w : world) : world :=
  w <| w_pool ::= fun l => l ++ (if success then [PoolRefresh fnID] else []) |> <| w_builds ::= fun l => l ++ [success] |>.

(** Which of a job's writes, whose errors it drops, fail. *)
Record job_io := MkJobIo { ji_phase : bool; ji_finish : bool; ji_hash : bool; ji_snapshot : bool; ji_set : set_io; ji_link : bool * bool }.

Definition fail (io : job_io) (now dur : Z) (job : BuildJob) (phase msg : string) (w : world) : world :=
  let w := on_db (UpdateDeploymentPhase (ji_phase io) now (j_DeploymentID job) phase) w in
  let w := on_db (FinishDeployment (ji_finish io) now (j_DeploymentID job) "failed" msg dur) w in
  on_complete (j_FunctionID job) false (publishStatusChange (j_DeploymentID job) (j_FunctionID job) "failed" phase w).

(** With the lock just taken: the row the job goes on with, or the end. *)
Definition job_start (io : job_io) (now : Z) (job : BuildJob) (w : world) : world * option Function_ :=
  let '(r, fn) := Get (j_FunctionID job) (w_reg w) in
  let w := w <| w_reg := r |> in
  match fn with
  | None => (fail io now 0 job "load_function" "function lookup failed" w, None)
  | Some fn =>
    let w := on_db (UpdateDeploymentPhase (ji_phase io) now (j_DeploymentID job) "extract") w in
    if bool_decide (fn_Status fn ∈ ["created"; "error"]%string) then
      let fn := fn <| fn_Status := "building"%string |> in
      let '(r, x) := SetSilent EmptyString (ji_set io) now fn (w_reg w) in
      (w <| w_reg := r |>, Some (match x with Ok fn => fn | Err _ => fn end))
    else (w, Some fn)
  end.

Definition attempt_of (job : BuildJob) (a : attempt) : attempt :=
  MkAttempt (at_space a) (j_Archive job) (at_stamp a) (at_rand a) (at_now a) (at_rename a) (at_hook a).

(** The build itself; a failure ends the job. *)
Definition job_build (H : host) (dataDir : string) (a : attempt) (io : job_io) (now dur : Z) (job : BuildJob) (fn : Function_) (w : world)
  : world * option BuildResult :=
  let w := on_db (UpdateDeploymentPhase (ji_phase io) now (j_DeploymentID job) "deps") w in
  let '(_, k, r) := Build H dataDir (attempt_of job a) fn (w_disk w) in
  let w := w <| w_disk := k |> in
  match r with
  | Ok b => (w, Some b)
  | Err _ =>
    let w := fail io now dur job "build" "build failed" w in
    if bool_decide (fn_Status fn = "building"%string) then
      let '(r, _) := SetSilent EmptyString (ji_set io) now (fn <| fn_Status := "error"%string |>) (w_reg w) in
      (w <| w_reg := r |>, None)
    else (w, None)
  end.

Definition built_function (job : BuildJob) (b : BuildResult) (fn : Function_) : Function_ :=
  fn <| fn_Image := b_ImageTag b |> <| fn_ImageSize := 0 |> <| fn_CodeHash := b_CodeHash b |>
     <| fn_RunEntrypoint := if negb (bool_decide (b_Entrypoint b = EmptyString)) && negb (bool_decide (b_Entrypoint b = fn_Entrypoint fn))
                            then b_Entrypoint b else EmptyString |>
     <| fn_Status := "active"%string |> <| fn_Version ::= fun v => wrap64 (v + 1) |> <| fn_ActiveDeploymentID := j_DeploymentID job |>.

(** The row is written, then the deployment's hash and snapshot. *)
Definition job_persist (io : job_io) (now dur : Z) (job : BuildJob) (b : BuildResult) (fn : Function_) (w : world) : world * option Function_ :=
  let '(r, x) := SetSilent EmptyString (ji_set io) now (built_function job b fn) (w_reg w) in
  let w := w <| w_reg := r |> in
  match x with
  | Err _ => (fail io now dur job "persist" "set function" w, None)
  | Ok fn =>
    let w := on_db (SetDeploymentCodeHash (ji_hash io) (j_DeploymentID job) (b_CodeHash b)) w in
    let w := on_db (SetDeploymentSnapshot (ji_snapshot io) (j_DeploymentID job) (Some (SnapshotFromFunction fn))) w in
    (w, Some fn)
  end.

Definition job_activate (io : job_io) (now dur : Z) (job : BuildJob) (hash : string) (fn : Function_) (w : world) : world :=
  let '(k, e) := ActivateVersion (ji_link io) (fn_ID fn) hash (w_disk w) in
  let w := w <| w_disk := k |> in
  match e with
  | Some _ => fail io now dur job "activate" "activate" w
  | None =>
    let w := on_db (FinishDeployment (ji_finish io) now (j_DeploymentID job) "succeeded" EmptyString dur) w in
    on_complete (j_FunctionID job) true (publishStatusChange (j_DeploymentID job) (j_FunctionID job) "succeeded" "done" w)
  end.

(** The whole job, alone. *)
Definition runJob (H : host) (dataDir : string) (a : attempt) (io : job_io) (now dur : Z) (job : BuildJob) (w : world) : world :=
  let '(w, fn) := job_start io now job w in
  match fn with
  | None => w
  | Some fn =>
    let '(w, b) := job_build H dataDir a io now dur job fn w in
    match b with
    | None => w
    | Some b =>
      let '(w, fn) := job_persist io now dur job b fn w in
      match fn with None => w | Some fn => job_activate io now dur job (b_CodeHash b) fn w end
    end
  end.

(* ------------------------------------------------------------------ *)
(** ** Rollback *)

Record rollbackRequest := MkRollback { rb_DeploymentID : string; rb_CodeHash : string }.

(** [isValidCodeHash] is the same test as [isHexHash]. *)
Definition isValidCodeHash : string -> bool := isHexHash.

Definition rollbackIsNoOp (targetHash : string) (target : option DeploymentSnapshot) (fn : Function_) : bool :=
  if negb (bool_decide (targetHash = fn_CodeHash fn)) then false
  else match target with None => true | Some _ => Equal target (Some (SnapshotFromFunction fn)) end.

(** Before the lock: the row and the request. *)
Definition rollback_read (isUUID : string -> bool) (rawID : string) (req : option rollbackRequest) (w : world)
  : world * reply (Function_ * rollbackRequest) :=
  let '(w, f) := find_function isUUID rawID w in
  match f, req with
  | Refuse s c, _ => (w, Refuse s c)
  | Reply _, None => (w, Refuse 400 "INVALID_JSON")
  | Reply fn, Some req =>
    if bool_decide (rb_DeploymentID req = EmptyString) && bool_decide (rb_CodeHash req = EmptyString) then (w, validation)
    else if negb (bool_decide (rb_CodeHash req = EmptyString)) && negb (isValidCodeHash (rb_CodeHash req)) then (w, validation)
    else (w, Reply (fn, req))
  end.

Record rollback_target := MkTarget { tg_hash : string; tg_deployment : string; tg_snapshot : option DeploymentSnapshot }.

(** The deployment named by its id, or nothing when a hash is given. *)
Definition named_target (fnID : string) (req : rollbackRequest) (d : db) : reply rollback_target :=
  if bool_decide (rb_DeploymentID req = EmptyString) then Reply (MkTarget (rb_CodeHash req) EmptyString None)
  else match GetDeployment (rb_DeploymentID req) d with
  | None => not_found
  | Some dep =>
    if negb (bool_decide (d_FunctionID dep = fnID)) then validation
    else if negb (bool_decide (d_Status dep = "succeeded"%string)) then validation
    else Reply (MkTarget (d_CodeHash dep) (d_ID dep) (d_Snapshot dep))
  end.

(** What is still unknown comes from the latest deployment of that hash. *)
Definition complete_target (fnID : string) (t : rollback_target) (d : db) : rollback_target :=
  if bool_decide (tg_deployment t = EmptyString) || bool_decide (tg_snapshot t = None) then
    match FindLatestSucceededByHash fnID (tg_hash t) d with
    | Some dep =>
      MkTarget (tg_hash t) (or_default (tg_deployment t) (d_ID dep))
        (match tg_snapshot t with Some s => Some s | None => d_Snapshot dep end)
    | None => t
    end
  else t.

(** Under the lock, up to the promotion. *)
Definition rollback_check (fn : Function_) (req : rollbackRequest) (w : world) : reply rollback_target :=
  match named_target (fn_ID fn) req (w_db w) with
  | Refuse s c => Refuse s c
  | Reply t =>
    if bool_decide (tg_hash t = EmptyString) then validation
    else
      let t := complete_target (fn_ID fn) t (w_db w) in
      if rollbackIsNoOp (tg_hash t) (tg_snapshot t) fn then validation
      else if negb (version_ready (fn_ID fn) (tg_hash t) (w_disk w)) then Refuse 410 "VERSION_GCD"
      else if bool_decide (tg_deployment t = EmptyString) then validation
      else Reply t
  end.

Definition restore_snapshot (s : option DeploymentSnapshot) (fn : Function_) : Function_ :=
  match s with
  | None => fn
  | Some s =>
    fn <| fn_EnvVars := s_EnvVars s |> <| fn_MemoryMB := s_MemoryMB s |> <| fn_CPUs := s_CPUs s |> <| fn_TimeoutMS := s_TimeoutMS s |>
       <| fn_NetworkMode := s_NetworkMode s |> <| fn_AuthMode := s_AuthMode s |> <| fn_RateLimitPerMin := s_RateLimitPerMin s |>
       <| fn_MaxConcurrency := s_MaxConcurrency s |> <| fn_ConcurrencyPolicy := s_ConcurrencyPolicy s |>
  end.

Definition promoted_function (H : host) (dataDir : string) (fn : Function_) (t : rollback_target) (k : disk) : Function_ :=
  restore_snapshot (tg_snapshot t)
    (fn <| fn_CodeHash := tg_hash t |> <| fn_Status := "active"%string |> <| fn_ActiveDeploymentID := tg_deployment t |>
        <| fn_RunEntrypoint := RunEntrypointFor H dataDir (fn_ID fn) (tg_hash t) (fn_Entrypoint fn) k |>).

(** The link, the row, the pool; the answer names the deployment. *)
Definition rollback_promote (H : host) (dataDir : string) (link : bool * bool) (io : set_io) (now : Z) (fn : Function_) (t : rollback_target) (w : world)
  : world * reply string :=
  let '(k, e) := ActivateVersion link (fn_ID fn) (tg_hash t) (w_disk w) in
  let w := w <| w_disk := k |> in
  match e with
  | Some _ => (w, internal)
  | None =>
    let '(r, x) := Set_ EmptyString io now (promoted_function H dataDir fn t k) (w_reg w) in
    let w := w <| w_reg := r |> in
    match x with
    | Err _ => (w, internal)
    | Ok _ => (w <| w_pool ::= fun l => l ++ [PoolRefresh (fn_ID fn)] |>, Reply (tg_deployment t))
    end
  end.

Definition Rollback (H : host) (dataDir : string) (isUUID : string -> bool) (rawID : string) (req : option rollbackRequest)
  (link : bool * bool) (io : set_io) (now : Z) (w : world) : world * reply string :=
  let '(w, x) := rollback_read isUUID rawID req w in
  match x with
  | Refuse s c => (w, Refuse s c)
  | Reply (fn, req) =>
    match rollback_check fn req w with
    | Refuse s c => (w, Refuse s c)
    | Reply t => rollback_promote H dataDir link io now fn t w
    end
  end.

(* ------------------------------------------------------------------ *)
(** ** Rolling back restores what was deployed *)

Lemma feq_refl x : x <> SpecFloat.S754_nan -> feq x x = true.
Proof.
  intros Hx. unfold feq. destruct x as [s|s| |s m e]; cbn; [done | by destruct s | done |].
  destruct s; rewrite Z.compare_refl; cbn; rewrite Pos.compare_cont_refl; reflexivity.
Qed.

Lemma Equal_refl s : s_CPUs s <> SpecFloat.S754_nan -> Equal (Some s) (Some s) = true.
Proof. intros Hs. cbn. rewrite feq_refl by done. by rewrite !bool_decide_eq_true_2. Qed.

(** Equality of snapshots does not look at the compiled entry point. *)
Lemma Equal_restore s fn created updated : s_CPUs s <> SpecFloat.S754_nan ->
  Equal (Some s) (Some (SnapshotFromFunction (restore_snapshot (Some s) fn <| fn_CreatedAt := created |> <| fn_UpdatedAt := updated |>))) = true.
Proof. intros Hs. cbn. rewrite feq_refl by done. by rewrite !bool_decide_eq_true_2. Qed.

(** Writing a row that is in the table, under its name. *)
Lemma set_existing newID now fn old publish r :
  db_ok (r_db r) -> functions (r_db r) !! fn_ID fn = Some old -> fn_ID fn <> EmptyString -> fn_Name fn = fn_Name old ->
  let fn' := fn <| fn_CreatedAt := fn_CreatedAt old |> <| fn_UpdatedAt := timestamp now |> in
  set newID io_fine now fn publish r =
    (publish_if publish (EvUpdated fn') (r <| r_db := r_db r <| functions ::= <[fn_ID fn := fn']> |> |> <| r_cache ::= <[fn_ID fn := fn']> |>), Ok fn').
Proof.
  intros Hok Hold Hne Hname. cbv zeta. unfold set. rewrite bool_decide_eq_false_2 by done.
  unfold InsertFunction, UpdateFunction, GetFunction. cbn [io_insert io_update io_fine]. rewrite Hold, bool_decide_eq_true_2 by eauto. cbn [orb].
  assert (Hn : name_taken (fn_ID fn) (fn_Name fn) (functions (r_db r)) = false).
  { apply name_taken_false. intros j g Hj Hg. eapply (ok_names _ Hok); [exact Hj | exact Hold | congruence]. }
  by rewrite Hn.
Qed.

Lemma restore_keeps s fn :
  fn_ID (restore_snapshot s fn) = fn_ID fn /\ fn_Name (restore_snapshot s fn) = fn_Name fn /\ fn_Version (restore_snapshot s fn) = fn_Version fn /\
  fn_CodeHash (restore_snapshot s fn) = fn_CodeHash fn /\ fn_ActiveDeploymentID (restore_snapshot s fn) = fn_ActiveDeploymentID fn /\
  fn_Status (restore_snapshot s fn) = fn_Status fn /\ fn_Entrypoint (restore_snapshot s fn) = fn_Entrypoint fn /\
  fn_RunEntrypoint (restore_snapshot s fn) = fn_RunEntrypoint fn /\ fn_Runtime (restore_snapshot s fn) = fn_Runtime fn.
Proof. by destruct s. Qed.

Lemma activate_fine fnID hash k dir : isHexHash hash = true -> k !! fnID = Some dir ->
  ActivateVersion (true, true) fnID hash k = (<[fnID := dir <| current := Some ("versions/" ++ hash)%string |>]> k, None).
Proof.
  intros Hh Hk. unfold ActivateVersion. rewrite Hk, Hh.
  rewrite bool_decide_eq_false_2 by (by intros ->). reflexivity.
Qed.

Lemma version_ready_dir f h k : version_ready f h k = true -> is_Some (k !! f).
Proof. unfold version_ready, dir_of. destruct (k !! f); [eauto|]. cbn. by rewrite lookup_empty. Qed.

(** Naming a succeeded deployment of the function that has a snapshot. *)
Lemma check_deployment fn dep s w :
  GetDeployment (d_ID dep) (w_db w) = Some dep -> d_FunctionID dep = fn_ID fn -> d_Status dep = "succeeded"%string -> d_ID dep <> EmptyString ->
  d_Snapshot dep = Some s -> d_CodeHash dep <> EmptyString ->
  rollback_check fn (MkRollback (d_ID dep) EmptyString) w =
    if rollbackIsNoOp (d_CodeHash dep) (Some s) fn then validation
    else if negb (version_ready (fn_ID fn) (d_CodeHash dep) (w_disk w)) then Refuse 410 "VERSION_GCD"
    else Reply (MkTarget (d_CodeHash dep) (d_ID dep) (Some s)).
Proof.
  intros Hget Hown Hst Hid Hsnap Hh. unfold rollback_check, named_target. cbn [rb_DeploymentID]. rewrite (bool_decide_eq_false_2 _ Hid).
  rewrite Hget, Hown, Hst, !bool_decide_eq_true_2 by reflexivity. cbn [negb tg_hash]. rewrite (bool_decide_eq_false_2 _ Hh), Hsnap.
  unfold complete_target. cbn [tg_deployment tg_snapshot]. rewrite !(bool_decide_eq_false_2 (d_ID dep = EmptyString)) by exact Hid.
  rewrite (bool_decide_eq_false_2 (Some s = None)) by discriminate. cbn [orb tg_hash tg_snapshot tg_deployment].
  by rewrite ?(bool_decide_eq_false_2 _ Hid).
Qed.


(** A function with two versions on disk, the second one serving, and its
    memory raised in between. *)
Definition hash_a : string := "aaaaaaaaaaaaaaaaaaaaaaaaaaaaaaaaaaaaaaaaaaaaaaaaaaaaaaaaaaaaaaaa".
Definition hash_b : string := "bbbbbbbbbbbbbbbbbbbbbbbbbbbbbbbbbbbbbbbbbbbbbbbbbbbbbbbbbbbbbbbb".
Definition served_function : Function_ :=
  sample_function "f1" "a" <| fn_Status := "active"%string |> <| fn_CodeHash := hash_b |> <| fn_ActiveDeploymentID := "d2"%string |>
    <| fn_MemoryMB := 128 |> <| fn_Version := 4 |>.
Definition old_snapshot : DeploymentSnapshot := SnapshotFromFunction (sample_function "f1" "a").
Definition old_deployment : Deployment :=
  MkDeployment "d1" "f1" 1 "succeeded" "done" "" 0 None (Some 0) (Some 5) hash_a "deploy" None (Some old_snapshot).
Definition new_deployment : Deployment :=
  MkDeployment "d2" "f1" 2 "succeeded" "done" "" second None (Some second) (Some 5) hash_b "deploy" None (Some (SnapshotFromFunction served_function)).
Definition two_versions : fn_dir :=
  let v := MkVersionDir (<[[ready_marker] := File []]> empty_dir) 0 in
  MkFnDir (list_to_map [(hash_a, v); (hash_b, v)]) (Some ("versions/" ++ hash_b)%string).
Definition served_world : world :=
  MkWorld (MkRegistry (MkDb {[ "f1"%string := served_function ]} [old_deployment; new_deployment]) ∅ []) {[ "f1"%string := two_versions ]} [] false [] [] [].

Lemma served_db_ok : db_ok (w_db served_world).
Proof.
  split; cbn.
  - intros id fn [<- <-]%lookup_singleton_Some. reflexivity.
  - intros i j f g [<- _]%lookup_singleton_Some [<- _]%lookup_singleton_Some _. reflexivity.
  - refine (bool_decide_unpack _ _). vm_compute. exact I.
  - refine (bool_decide_unpack _ _). vm_compute. exact I.
Qed.

