(* ===== verification/DeployFlow.v ===== *)
(** * Deploys, settings, rollbacks, deletions and the collector together

    The operations of Deploy.v as the daemon runs them: requests, build
    workers and the version collector interleave, and each is cut where it
    reads before it writes or where it waits for the function's lock
    ([pool.Manager.FunctionLock], shared by the build queue, the rollback and
    the delete handlers).  [exec] makes one move; what a move finds in its
    environment (which write fails, what the build sandbox answers, which
    identifier is drawn) is part of the move.  A daemon may also be killed and
    started again at any point. *)
From S2P Require Import Prelude GoText Float64 Netip Url Safepath Registry Builder Gc Deploy.
Open Scope Z_scope.

(* ------------------------------------------------------------------ *)
(** ** Threads *)

Inductive thread :=
| TUpdate (fn : Function_)
| TDeploy (depID fnID : string) (version : Z) (archive : option (list Z))
| TTaken (job : BuildJob)
| TBuild (job : BuildJob) (fn : Function_)
| TPersist (job : BuildJob) (b : BuildResult) (fn : Function_)
| TActivate (job : BuildJob) (hash : string) (fn : Function_)
| TRollback (fn : Function_) (req : rollbackRequest)
| TPromote (fn : Function_) (t : rollback_target)
| TCollect (fnID : string) (l : list string).

(** The function whose lock a thread has. *)
Definition holds (t : thread) : option string :=
  match t with
  | TBuild job _ | TPersist job _ _ | TActivate job _ _ => Some (j_FunctionID job)
  | TPromote fn _ => Some (fn_ID fn)
  | TUpdate _ | TDeploy _ _ _ _ | TTaken _ | TRollback _ _ | TCollect _ _ => None
  end.

(** The deployment a thread is to insert or to settle. *)
Definition owns (t : thread) : option string :=
  match t with
  | TDeploy depID _ _ _ => Some depID
  | TTaken job | TBuild job _ | TPersist job _ _ | TActivate job _ _ => Some (j_DeploymentID job)
  | TUpdate _ | TRollback _ _ | TPromote _ _ | TCollect _ _ => None
  end.

(** [m_used]: the identifiers drawn so far, which are never drawn again. *)
Record machine := MkMachine { m_world : world; m_threads : gmap nat thread; m_used : gset string }.
#[export] Instance eta_machine : Eta machine := fun r => MkMachine (m_world r) (m_threads r) (m_used r).

Definition locked (f : string) (m : machine) : bool :=
  existsb (fun kt => bool_decide (holds kt.2 = Some f)) (map_to_list (m_threads m)).

(* ------------------------------------------------------------------ *)
(** ** Moves *)

Inductive opening :=
| BUpdate (rawID : string)
| BDeploy (rawID depID : string) (archive : option (list Z))
| BTake
| BRollback (rawID : string) (req : option rollbackRequest)
| BCollect (order : list candidate -> list candidate) (keep : nat) (fnID : string).

Inductive move :=
| MWrite (io : set_io) (now : Z) (req : updateFunctionRequest)
| MSubmit (io io_finish : bool) (now : Z)
| MStart (io : job_io) (now : Z)
| MBuild (a : attempt) (io : job_io) (now dur : Z)
| MPersist (io : job_io) (now dur : Z)
| MActivate (io : job_io) (now dur : Z)
| MLock
| MPromote (link : bool * bool) (io : set_io) (now : Z)
| MRemove (removable : string -> bool).

Inductive action :=
| ACreate (newID : string) (io : set_io) (now : Z) (req : createFunctionRequest)
| AGet (id : string)
| ADelete (rawID : string) (io rm : bool)
| AOpen (tid : nat) (b : opening)
| AMove (tid : nat) (mv : move)
| AStop
| ARestart (now : Z) (order : list Function_ -> list Function_).

(** The listing a restart loads the cache from has rows of the table. *)
Definition lists_rows (a : action) : Prop := match a with ARestart _ order => returns_rows order | _ => True end.

Section Flow.
Context (H : host) (dataDir : string) (isUUID : string -> bool).

Definition open_thread (b : opening) (w : world) : option (world * option thread) :=
  match b with
  | BUpdate rawID =>
    let '(w, x) := find_function isUUID rawID w in
    Some (w, match x with Reply fn => Some (TUpdate fn) | Refuse _ _ => None end)
  | BDeploy rawID depID archive =>
    let '(w, x) := find_function isUUID rawID w in
    Some (w, match x, archive with
             | Reply fn, Some _ => Some (TDeploy depID (fn_ID fn) (NextDeploymentVersion (fn_ID fn) (w_db w)) archive)
             | _, _ => None
             end)
  | BTake => match w_jobs w with [] => None | job :: l => Some (w <| w_jobs := l |>, Some (TTaken job)) end
  | BRollback rawID req =>
    let '(w, x) := rollback_read isUUID rawID req w in
    Some (w, match x with Reply (fn, req) => Some (TRollback fn req) | Refuse _ _ => None end)
  | BCollect order keep fnID => Some (w, Some (TCollect fnID (doomed order keep fnID (w_disk w))))
  end.

(** [busy f]: another thread has the lock of [f]. *)
Definition move_thread (busy : string -> bool) (mv : move) (t : thread) (w : world) : option (world * option thread) :=
  match mv, t with
  | MWrite io now req, TUpdate fn => Some (fst (update_write io now req fn w), None)
  | MSubmit io io_finish now, TDeploy depID fnID version archive =>
    Some (fst (enqueue depID fnID version archive io io_finish now w), None)
  | MStart io now, TTaken job =>
    if busy (j_FunctionID job) then None
    else let '(w, fn) := job_start io now job w in Some (w, TBuild job <$> fn)
  | MBuild a io now dur, TBuild job fn =>
    let '(w, b) := job_build H dataDir a io now dur job fn w in Some (w, (fun b => TPersist job b fn) <$> b)
  | MPersist io now dur, TPersist job b fn =>
    let '(w, fn) := job_persist io now dur job b fn w in Some (w, TActivate job (b_CodeHash b) <$> fn)
  | MActivate io now dur, TActivate job hash fn => Some (job_activate io now dur job hash fn w, None)
  | MLock, TRollback fn req =>
    if busy (fn_ID fn) then None
    else Some (w, match rollback_check fn req w with Reply t => Some (TPromote fn t) | Refuse _ _ => None end)
  | MPromote link io now, TPromote fn t => Some (fst (rollback_promote H dataDir link io now fn t w), None)
  | MRemove removable, TCollect fnID l => Some (w <| w_disk ::= fun k => fst (foldl (remove_version removable fnID) (k, 0) l) |>, None)
  | _, _ => None
  end.

(** The identifier a move draws. *)
Definition draws (a : action) : option string :=
  match a with
  | ACreate newID _ _ _ => Some newID
  | AOpen _ (BDeploy _ depID _) => Some depID
  | _ => None
  end.

(** The daemon dies and starts again: threads, queue and cache are gone, the
    unfinished deployments are failed, and the cache is loaded. *)
Definition restart (now : Z) (order : list Function_ -> list Function_) (w : world) : world :=
  w <| w_reg ::= fun r => LoadAll order (r <| r_db ::= fun d => fst (RequeueStuckDeployments now d) |> <| r_cache := ∅ |>) |>
    <| w_jobs := [] |> <| w_stopping := false |>.

Definition put_thread (tid : nat) (t : option thread) (ts : gmap nat thread) : gmap nat thread :=
  match t with Some t => <[tid := t]> ts | None => delete tid ts end.

Definition exec_world (a : action) (m : machine) : option (world * gmap nat thread) :=
  let w := m_world m in
  match a with
  | ACreate newID io now req => Some (fst (Create newID io now req w), m_threads m)
  | AGet id => Some (w <| w_reg ::= fun r => fst (Get id r) |>, m_threads m)
  | ADelete rawID io rm =>
    if match snd (resolveFnID isUUID rawID w) with Some id => locked id m | None => false end then None
    else Some (fst (Delete_ isUUID dataDir rawID io rm w), m_threads m)
  | AOpen tid b =>
    match m_threads m !! tid with
    | Some _ => None
    | None => '(w, t) ← open_thread b w; Some (w, put_thread tid t (m_threads m))
    end
  | AMove tid mv =>
    t ← m_threads m !! tid;
    '(w, t) ← move_thread (fun f => locked f m) mv t w; Some (w, put_thread tid t (m_threads m))
  | AStop => Some (w <| w_stopping := true |>, m_threads m)
  | ARestart now order => Some (restart now order w, ∅)
  end.

Definition exec (a : action) (m : machine) : option machine :=
  if match draws a with Some id => bool_decide (id ∈ m_used m) || bool_decide (id = EmptyString) | None => false end then None
  else '(w, ts) ← exec_world a m; Some (MkMachine w ts (match draws a with Some id => {[id]} ∪ m_used m | None => m_used m end)).

Fixpoint run (l : list action) (m : machine) : option machine :=
  match l with [] => Some m | a :: l => m ← exec a m; run l m end.

End Flow.

(** A new installation. *)
Definition boot : machine := MkMachine (MkWorld (MkRegistry (MkDb ∅ []) ∅ []) ∅ [] false [] [] []) ∅ ∅.

(* ------------------------------------------------------------------ *)
(** ** What the threads hold and owe, as lists *)

Definition marks (f : thread -> option string) (ts : gmap nat thread) : list string :=
  omap (fun kt => f kt.2) (map_to_list ts).

Lemma marks_insert f tid t ts : ts !! tid = None -> marks f (<[tid := t]> ts) ≡ₚ option_list (f t) ++ marks f ts.
Proof.
  intros Hn. unfold marks. rewrite (map_to_list_insert ts tid t Hn). cbn. by destruct (f t).
Qed.

Lemma marks_delete f tid t ts : ts !! tid = Some t -> marks f ts ≡ₚ option_list (f t) ++ marks f (delete tid ts).
Proof.
  intros Ht. rewrite <- (insert_delete_id ts tid t Ht) at 1. apply marks_insert, lookup_delete_eq.
Qed.

Lemma marks_put f tid t t' ts : ts !! tid = Some t ->
  marks f (put_thread tid t' ts) ≡ₚ option_list (t' ≫= f) ++ marks f (delete tid ts).
Proof.
  intros Ht. destruct t' as [t'|]; cbn; [|done]. rewrite <- insert_delete_eq. apply marks_insert, lookup_delete_eq.
Qed.

Lemma marks_open f tid t ts : ts !! tid = None -> marks f (put_thread tid t ts) ≡ₚ option_list (t ≫= f) ++ marks f ts.
Proof.
  intros Hn. destruct t as [t|]; cbn; [by apply marks_insert|]. by rewrite delete_id.
Qed.

Lemma elem_of_marks f ts x : x ∈ marks f ts <-> exists tid t, ts !! tid = Some t /\ f t = Some x.
Proof.
  unfold marks. rewrite list_elem_of_omap. split.
  - intros ((tid & t) & Hin%elem_of_map_to_list & Hf). eauto.
  - intros (tid & t & Ht & Hf). exists (tid, t). by rewrite elem_of_map_to_list.
Qed.

Lemma locked_marks f m : locked f m = bool_decide (f ∈ marks holds (m_threads m)).
Proof.
  apply eq_true_iff_eq. rewrite bool_decide_eq_true, elem_of_marks. unfold locked. rewrite existsb_exists. split.
  - intros ((tid & t) & Hin & Hh%bool_decide_eq_true). apply list_elem_of_In, elem_of_map_to_list in Hin. eauto.
  - intros (tid & t & Ht & Hh). exists (tid, t). rewrite <- list_elem_of_In, elem_of_map_to_list. split; [done|].
    by apply bool_decide_eq_true_2.
Qed.

(* ------------------------------------------------------------------ *)
(** ** The ledger of deployments

    What the table of deployments does, with the owners of rows reduced to the
    list of the deployments still to be settled. *)

Record ledger := MkLedger { l_rows : list Deployment; l_pending : list string; l_used : gset string }.

(** The deployments owed by the queue and by the threads. *)
Definition pending_in (w : world) (ts : gmap nat thread) : list string := (j_DeploymentID <$> w_jobs w) ++ marks owns ts.
Definition ledger_in (w : world) (ts : gmap nat thread) (used : gset string) : ledger := MkLedger (deployments (w_db w)) (pending_in w ts) used.
Definition ledger_of (m : machine) : ledger := ledger_in (m_world m) (m_threads m) (m_used m).

Definition map_row (id : string) (g : Deployment -> Deployment) (rows : list Deployment) : list Deployment :=
  map (fun dep => if bool_decide (d_ID dep = id) then g dep else dep) rows.
Definition keeps (g : Deployment -> Deployment) : Prop := forall dep, d_ID (g dep) = d_ID dep /\ d_FunctionID (g dep) = d_FunctionID dep.
Definition statuses : list string := ["queued"; "succeeded"; "failed"]%string.

Inductive ledger_step : ledger -> ledger -> Prop :=
| LSame rows p p' u : p' ≡ₚ p -> ledger_step (MkLedger rows p u) (MkLedger rows p' u)
| LTouch id g rows p p' u :
    id ∈ p -> keeps g -> (forall dep, d_Status (g dep) = d_Status dep) -> p' ≡ₚ p ->
    ledger_step (MkLedger rows p u) (MkLedger (map_row id g rows) p' u)
| LDraw id rows p p' u : id ∉ u -> p' ≡ₚ id :: p -> ledger_step (MkLedger rows p u) (MkLedger rows p' ({[id]} ∪ u))
| LInsert dep rows p p' u :
    d_ID dep ∈ p -> d_ID dep ∉ d_ID <$> rows -> d_Status dep = "queued"%string -> p' ≡ₚ p ->
    ledger_step (MkLedger rows p u) (MkLedger (rows ++ [dep]) p' u)
| LSettle id g rows p p' u :
    p ≡ₚ id :: p' -> keeps g -> (forall dep, d_Status dep ∈ statuses -> d_Status (g dep) ∈ statuses) ->
    ledger_step (MkLedger rows p u) (MkLedger (map_row id g rows) p' u)
| LDrawOther id rows p u : id ∉ u -> ledger_step (MkLedger rows p u) (MkLedger rows p ({[id]} ∪ u))
| LDelete f rows p u : ledger_step (MkLedger rows p u) (MkLedger (filter (fun dep => d_FunctionID dep <> f) rows) p u)
| LRestart now rows p u :
    ledger_step (MkLedger rows p u) (MkLedger (deployments (fst (RequeueStuckDeployments now (MkDb ∅ rows)))) [] u).

Record ledger_ok (l : ledger) : Prop := {
  lo_pending : NoDup (l_pending l);
  lo_used : Forall (fun id => id ∈ l_used l) (l_pending l);
  lo_rows : NoDup (d_ID <$> l_rows l);
  lo_rows_used : Forall (fun dep => d_ID dep ∈ l_used l) (l_rows l);
  lo_queued : Forall (fun dep => d_ID dep ∈ l_pending l -> d_Status dep = "queued"%string) (l_rows l);
  lo_status : Forall (fun dep => d_Status dep ∈ statuses) (l_rows l) }.

Lemma map_row_ids id g rows : keeps g -> d_ID <$> map_row id g rows = d_ID <$> rows.
Proof.
  intros Hg. unfold map_row. induction rows as [|x l IH]; [done|]. cbn. rewrite <- IH. f_equal. case_bool_decide; [apply Hg | done].
Qed.

(** A property of rows that the changed row keeps. *)
Lemma map_row_Forall (P Q : Deployment -> Prop) id g rows :
  Forall P rows -> (forall dep, d_ID dep = id -> P dep -> Q (g dep)) -> (forall dep, d_ID dep <> id -> P dep -> Q dep) ->
  Forall Q (map_row id g rows).
Proof.
  intros Hr Hg Ho. unfold map_row. apply Forall_map. eapply Forall_impl; [exact Hr|]. intros dep Hd. cbn. case_bool_decide; auto.
Qed.

Lemma Forall_perm_mono {A} (P : A -> Prop) (l l' : list A) : l' ≡ₚ l -> Forall P l -> Forall P l'.
Proof. by intros ->. Qed.

Lemma ledger_step_ok l l' : ledger_step l l' -> ledger_ok l -> ledger_ok l'.
Proof.
  intros Hs [Hp Hu Hr Hru Hq Hst]. destruct Hs; cbn in *.
  - split; cbn; [by rewrite H | by rewrite H | done | done | | done]. eapply Forall_impl; [exact Hq|]. cbn. intros dep. by rewrite H.
  - split; cbn; [by rewrite H2 | by rewrite H2 | by rewrite map_row_ids | | |].
    + eapply map_row_Forall; [exact Hru | | auto]. intros dep _. by destruct (H0 dep) as [-> _].
    + eapply map_row_Forall; [exact Hq | | ]; cbn; intros dep _; rewrite H2; [|done]. rewrite H1. by destruct (H0 dep) as [-> _].
    + eapply map_row_Forall; [exact Hst | | auto]. intros dep _. by rewrite H1.
  - split; cbn.
    + rewrite H0. constructor; [|done]. rewrite Forall_forall in Hu. eauto.
    + rewrite H0. constructor; [set_solver|]. eapply Forall_impl; [exact Hu|]. set_solver.
    + done.
    + eapply Forall_impl; [exact Hru|]. set_solver.
    + apply Forall_forall. intros dep Hd. rewrite Forall_forall in Hq, Hru. rewrite H0, elem_of_cons. intros [He|Hin]; [|by apply Hq].
      exfalso. apply H. rewrite <- He. by apply Hru.
    + done.
  - split; cbn; [by rewrite H2 | by rewrite H2 | | | |].
    + rewrite fmap_app. apply NoDup_app. split; [done|]. split; [|apply NoDup_singleton]. cbn. intros x Hx ->%list_elem_of_singleton. done.
    + apply Forall_app. split; [done|]. apply Forall_singleton. rewrite Forall_forall in Hu. by apply Hu.
    + apply Forall_app. split; [|by apply Forall_singleton]. eapply Forall_impl; [exact Hq|]. cbn. intros dep'. by rewrite H2.
    + apply Forall_app. split; [done|]. apply Forall_singleton. rewrite H1. by left.
  - pose proof (Forall_perm_mono _ _ _ (symmetry H) Hu) as Hu'. apply Forall_cons in Hu' as [_ Hu'].
    assert (Hp' : NoDup (id :: p')) by (by rewrite <- H). apply NoDup_cons in Hp' as [Hid Hp'].
    split; cbn; [done | done | by rewrite map_row_ids | | |].
    + eapply map_row_Forall; [exact Hru | | auto]. intros dep _. by destruct (H0 dep) as [-> _].
    + eapply map_row_Forall; [exact Hq | |]; cbn; intros dep Hd Hdep Hin; [|by apply Hdep; rewrite H; right].
      destruct (H0 dep) as [He _]. rewrite He, Hd in Hin. done.
    + eapply map_row_Forall; [exact Hst | | auto]. intros dep _. apply H1.
  - split; cbn; [done | | done | | done | done]; [eapply Forall_impl; [exact Hu|] | eapply Forall_impl; [exact Hru|]]; set_solver.
  - assert (Hf : forall P, Forall P rows -> Forall P (filter (fun dep => d_FunctionID dep <> f) rows)).
    { intros P HP. apply Forall_forall. intros dep [_ Hd]%list_elem_of_filter. rewrite Forall_forall in HP. auto. }
    split; cbn; auto. by apply NoDup_fmap_filter.
  - split; cbn; [constructor | constructor | | | |].
    + replace (d_ID <$> map _ rows) with (d_ID <$> rows); [done|]. clear. induction rows as [|x l IH]; [done|]. cbn. rewrite IH.
      by destruct (unfinished x).
    + apply Forall_map. eapply Forall_impl; [exact Hru|]. intros dep. cbn. by destruct (unfinished dep).
    + apply Forall_map. eapply Forall_impl; [exact Hq|]. intros dep _ []%elem_of_nil.
    + apply Forall_map. eapply Forall_impl; [exact Hst|]. intros dep. cbn. destruct (unfinished dep); [|done]. intros _. cbn.
      right. right. left.
Qed.

(** A settled deployment, present or gone. *)
Record final (dep : Deployment) (l : ledger) : Prop := {
  fl_used : d_ID dep ∈ l_used l;
  fl_free : d_ID dep ∉ l_pending l;
  fl_row : Forall (fun x => d_ID x = d_ID dep -> x = dep) (l_rows l) }.

Lemma final_step dep l l' : ledger_step l l' -> unfinished dep = false -> final dep l -> final dep l'.
Proof.
  intros Hs Hset [Hu Hf Hr]. destruct Hs; cbn in *.
  - split; cbn; [done | by rewrite H | done].
  - assert (id <> d_ID dep) by congruence. split; cbn; [done | by rewrite H2 |].
    eapply map_row_Forall; [exact Hr | | auto]. intros x Hx _ He. destruct (H0 x) as [Hid _]. congruence.
  - split; cbn; [set_solver | | done]. rewrite H0, not_elem_of_cons. split; [|done]. intros Heq. congruence.
  - split; cbn; [done | by rewrite H2 |]. apply Forall_app. split; [done|]. apply Forall_singleton. intros He. exfalso. congruence.
  - assert (id <> d_ID dep) by (intros Heq; apply Hf; rewrite H, <- Heq; left). split; cbn; [done | |].
    + intros Hin. apply Hf. rewrite H. by right.
    + eapply map_row_Forall; [exact Hr | | auto]. intros x Hx _ He. destruct (H0 x) as [Hid _]. congruence.
  - split; cbn; [set_solver | done | done].
  - split; cbn; [done | done |]. apply Forall_forall. intros x [_ Hx]%list_elem_of_filter. rewrite Forall_forall in Hr. auto.
  - split; cbn; [done | apply not_elem_of_nil |]. apply Forall_map. eapply Forall_impl; [exact Hr|]. intros x Hx. cbn.
    destruct (unfinished x) eqn:E; cbn; [|auto]. intros He. rewrite (Hx He) in E. congruence.
Qed.

(* ------------------------------------------------------------------ *)
(** ** What each operation does to the deployments *)

Definition quiet (w w' : world) : Prop := deployments (w_db w') = deployments (w_db w) /\ w_jobs w' = w_jobs w.

(** Only the row [id] changed; [settles]: its status may have. *)
Definition row_change (settles : bool) (g : Deployment -> Deployment) : Prop :=
  keeps g /\ if settles then forall dep, d_Status dep ∈ statuses -> d_Status (g dep) ∈ statuses
             else forall dep, d_Status (g dep) = d_Status dep.
Definition effect (settles : bool) (id : string) (w w' : world) : Prop :=
  w_jobs w' = w_jobs w /\
  exists g, row_change settles g /\ deployments (w_db w') = map_row id g (deployments (w_db w)).

Lemma map_row_id id rows : map_row id (fun dep => dep) rows = rows.
Proof. unfold map_row. induction rows as [|x l IH]; [done|]. cbn. rewrite IH. by case_bool_decide. Qed.

Lemma map_row_map id g h rows : keeps g -> map_row id h (map_row id g rows) = map_row id (fun dep => h (g dep)) rows.
Proof.
  intros Hg. unfold map_row. rewrite map_map. apply map_ext. intros dep. destruct (decide (d_ID dep = id)) as [Hd|Hd].
  - destruct (Hg dep) as [He _]. rewrite (bool_decide_eq_true_2 _ Hd), He. by rewrite (bool_decide_eq_true_2 _ Hd).
  - rewrite (bool_decide_eq_false_2 _ Hd). by rewrite (bool_decide_eq_false_2 _ Hd).
Qed.

Lemma effect_quiet b id w w' : quiet w w' -> effect b id w w'.
Proof.
  intros [Hd Hj]. split; [done|]. exists (fun dep => dep). rewrite map_row_id. split; [|done]. by split; [|destruct b].
Qed.

Lemma effect_trans b id w1 w2 w3 : effect b id w1 w2 -> effect b id w2 w3 -> effect b id w1 w3.
Proof.
  intros [J1 (g & [Kg Sg] & Hg)] [J2 (h & [Kh Sh] & Hh)]. split; [congruence|]. exists (fun dep => h (g dep)). split.
  - split; [intros dep; cbn; by destruct (Kh (g dep)) as [-> ->]|]. destruct b; intros dep; cbn; [auto | by rewrite Sh].
  - by rewrite Hh, Hg, map_row_map.
Qed.

Lemma effect_weaken b id w w' : effect false id w w' -> effect b id w w'.
Proof.
  intros [J (g & [Kg Sg] & Hg)]. split; [done|]. exists g. split; [|done]. split; [done|]. destruct b; [|done]. intros dep. by rewrite Sg.
Qed.

Lemma effect_update b io id f w : row_change b f -> effect b id w (on_db (update_deployment io id f) w).
Proof.
  intros Hf. destruct io.
  - by apply effect_quiet.
  - split; [done|]. by exists f.
Qed.

Lemma Get_rows id r : r_db (fst (Get id r)) = r_db r.
Proof. unfold Get. by destruct (r_cache r !! id), (GetFunction id (r_db r)). Qed.

Lemma set_rows newID io now fn publish r : deployments (r_db (fst (set newID io now fn publish r))) = deployments (r_db r).
Proof.
  unfold set. cbv zeta. set (f := if bool_decide _ then _ else _).
  destruct (InsertFunction _ _ _ _) as [[d g]|e] eqn:E.
  - apply InsertFunction_ok in E as (_ & _ & _ & _ & ->). by destruct publish.
  - destruct (GetFunction _ _); [|done]. destruct (UpdateFunction _ _ _ _) as [[d g]|e2] eqn:E2; [|done].
    apply UpdateFunction_ok in E2 as (_ & _ & old & _ & _ & ->). by destruct publish.
Qed.

Lemma resolve_quiet isUUID s w : quiet w (fst (resolveFnID isUUID s w)).
Proof.
  unfold resolveFnID. case_bool_decide; [done|]. destruct (isUUID _).
  - pose proof (Get_rows (trimSpace s) (w_reg w)) as Hg. destruct (Get _ _) as [r [fn|]]; cbn in *; by split; [unfold w_db; cbn; rewrite Hg|].
  - done.
Qed.

Lemma quiet_trans w1 w2 w3 : quiet w1 w2 -> quiet w2 w3 -> quiet w1 w3.
Proof. intros [H1 H2] [H3 H4]. split; congruence. Qed.

Lemma find_quiet isUUID s w : quiet w (fst (find_function isUUID s w)).
Proof.
  unfold find_function. case_bool_decide; [done|]. pose proof (resolve_quiet isUUID s w) as Hq.
  destruct (resolveFnID isUUID s w) as [w' [id|]]; [|done]. cbn in Hq. eapply quiet_trans; [exact Hq|].
  pose proof (Get_rows id (w_reg w')) as Hg. destruct (Get id (w_reg w')) as [r fn]. cbn in *. split; [|done]. unfold w_db. cbn. by rewrite Hg.
Qed.

Lemma set_quiet newID io now fn publish w : quiet w (w <| w_reg := fst (set newID io now fn publish (w_reg w)) |>).
Proof. split; [|done]. unfold w_db. cbn. apply set_rows. Qed.

Lemma Create_quiet newID io now req w : quiet w (fst (Create newID io now req w)).
Proof.
  unfold Create, Set_. destruct (negb _); [done|]. pose proof (set_quiet newID io now (new_function newID req) true w) as Hs.
  by destruct (set _ _ _ _ _ _).
Qed.

Lemma update_write_quiet io now req fn w : quiet w (fst (update_write io now req fn w)).
Proof.
  unfold update_write, Set_. destruct (negb _); [done|]. destruct (apply_update req fn) as [[fn' sc] nc].
  pose proof (set_quiet EmptyString io now fn' true w) as Hs. destruct (set _ _ _ _ _ _) as [r [x|e]]; exact Hs.
Qed.

Lemma promote_quiet H dataDir link io now fn t w : quiet w (fst (rollback_promote H dataDir link io now fn t w)).
Proof.
  unfold rollback_promote, Set_. destruct (ActivateVersion _ _ _ _) as [k [e|]]; [done|].
  pose proof (set_quiet EmptyString io now (promoted_function H dataDir fn t k) true w) as Hs.
  cbn [w_reg] in *. change (w_reg (w <| w_disk := k |>)) with (w_reg w).
  destruct (set _ _ _ _ _ _) as [r [x|x]]; exact Hs.
Qed.

Lemma rollback_read_quiet isUUID s req w : quiet w (fst (rollback_read isUUID s req w)).
Proof.
  unfold rollback_read. pose proof (find_quiet isUUID s w) as Hq. destruct (find_function isUUID s w) as [w' [fn|s' c]]; [|done].
  destruct req; [|done]. destruct (_ && _); [done|]. by destruct (_ && _).
Qed.

(* ------------------------------------------------------------------ *)
(** ** The job's parts *)

Lemma phase_change now phase : row_change false (fun dep => dep <| d_Phase := phase |> <| d_StartedAt ::= fun s => coalesce s (timestamp now) |>).
Proof. by split. Qed.

Lemma hash_change hash : row_change false (fun dep => dep <| d_CodeHash := hash |>).
Proof. by split. Qed.

Lemma snapshot_change s : row_change false (fun dep => dep <| d_Snapshot := s |>).
Proof. by split. Qed.

Lemma finish_change now status msg dur : status ∈ statuses ->
  row_change true (fun dep => dep <| d_Status := status |> <| d_ErrorMessage := msg |> <| d_DurationMS := Some dur |>
                                  <| d_FinishedAt := Some (timestamp now) |> <| d_Phase := "done"%string |>).
Proof. intros Hs. by split. Qed.

Lemma fail_effect io now dur job phase msg w : effect true (j_DeploymentID job) w (fail io now dur job phase msg w).
Proof.
  unfold fail. eapply effect_trans; [apply effect_weaken, effect_update, phase_change|].
  eapply effect_trans; [apply effect_update, finish_change; right; right; left|]. by apply effect_quiet.
Qed.

Lemma start_effect io now job w :
  let '(w', fn) := job_start io now job w in effect (negb (bool_decide (is_Some fn))) (j_DeploymentID job) w w'.
Proof.
  unfold job_start. pose proof (Get_rows (j_FunctionID job) (w_reg w)) as Hg. destruct (Get _ _) as [r [fn|]]; cbn in Hg.
  - assert (Hw : effect false (j_DeploymentID job) w (on_db (UpdateDeploymentPhase (ji_phase io) now (j_DeploymentID job) "extract") (w <| w_reg := r |>))).
    { eapply effect_trans; [|apply effect_update, phase_change]. apply effect_quiet. split; [|done]. unfold w_db. cbn. by rewrite Hg. }
    case_bool_decide; [|by rewrite bool_decide_eq_true_2 by eauto].
    set (w1 := on_db _ _) in *. unfold SetSilent. pose proof (set_quiet EmptyString (ji_set io) now (fn <| fn_Status := "building"%string |>) false w1) as Hs.
    destruct (set _ _ _ _ _ _) as [r' x]. rewrite bool_decide_eq_true_2 by eauto. eapply effect_trans; [exact Hw|]. by apply effect_quiet.
  - rewrite bool_decide_eq_false_2 by (by intros [? ?]). eapply effect_trans; [|apply fail_effect]. apply effect_quiet. split; [|done].
    unfold w_db. cbn. by rewrite Hg.
Qed.

Lemma build_effect H dataDir a io now dur job fn w :
  let '(w', b) := job_build H dataDir a io now dur job fn w in effect (negb (bool_decide (is_Some b))) (j_DeploymentID job) w w'.
Proof.
  unfold job_build. set (w1 := on_db _ w).
  assert (Hw : effect false (j_DeploymentID job) w w1) by apply effect_update, phase_change.
  change (w_disk w1) with (w_disk w). destruct (Build _ _ _ _ _) as [[c k] [b|e]].
  - rewrite bool_decide_eq_true_2 by eauto. eapply effect_trans; [exact Hw|]. by apply effect_quiet.
  - cbv zeta. set (w2 := fail _ _ _ _ _ _ _).
    assert (Hw2 : effect true (j_DeploymentID job) w w2).
    { eapply effect_trans; [apply effect_weaken, Hw|]. eapply effect_trans; [|apply fail_effect]. by apply effect_quiet. }
    case_bool_decide; [|exact Hw2]. unfold SetSilent. pose proof (set_quiet EmptyString (ji_set io) now (fn <| fn_Status := "error"%string |>) false w2) as Hs.
    destruct (set _ _ _ _ _ _) as [r' x]. eapply effect_trans; [exact Hw2|]. by apply effect_quiet.
Qed.

Lemma persist_effect io now dur job b fn w :
  let '(w', x) := job_persist io now dur job b fn w in effect (negb (bool_decide (is_Some x))) (j_DeploymentID job) w w'.
Proof.
  unfold job_persist, SetSilent. pose proof (set_quiet EmptyString (ji_set io) now (built_function job b fn) false w) as Hs.
  destruct (set _ _ _ _ _ _) as [r [fn'|e]]; cbn [fst] in Hs.
  - rewrite bool_decide_eq_true_2 by eauto. eapply effect_trans; [by apply effect_quiet|].
    eapply effect_trans; [apply effect_update, hash_change | apply effect_update, snapshot_change].
  - rewrite bool_decide_eq_false_2 by (by intros [? ?]). eapply effect_trans; [by apply effect_quiet | apply fail_effect].
Qed.

Lemma activate_effect io now dur job hash fn w : effect true (j_DeploymentID job) w (job_activate io now dur job hash fn w).
Proof.
  unfold job_activate. destruct (ActivateVersion _ _ _ _) as [k [e|]].
  - eapply effect_trans; [|apply fail_effect]. by apply effect_quiet.
  - apply (effect_trans _ _ _ (w <| w_disk := k |>)); [by apply effect_quiet|].
    eapply effect_trans; [apply effect_update, finish_change; right; left|]. by apply effect_quiet.
Qed.

(* ------------------------------------------------------------------ *)
(** ** Every move is a sequence of ledger steps *)

Lemma effect_touch id w w' rest p p' u : effect false id w w' -> id ∈ p -> p = (j_DeploymentID <$> w_jobs w) ++ rest ->
  p' ≡ₚ p -> ledger_step (MkLedger (deployments (w_db w)) p u) (MkLedger (deployments (w_db w')) p' u).
Proof. intros [_ (g & [Kg Sg] & ->)] Hin _ Hp. by apply LTouch. Qed.

Lemma effect_settle id w w' p p' u : effect true id w w' -> p ≡ₚ id :: p' ->
  ledger_step (MkLedger (deployments (w_db w)) p u) (MkLedger (deployments (w_db w')) p' u).
Proof. intros [_ (g & [Kg Sg] & ->)] Hp. by apply LSettle. Qed.

Lemma quiet_same w w' p p' u : quiet w w' -> p' ≡ₚ p -> ledger_step (MkLedger (deployments (w_db w)) p u) (MkLedger (deployments (w_db w')) p' u).
Proof. intros [-> _] Hp. by apply LSame. Qed.

Lemma InsertDeployment_rows io now dep d d' : InsertDeployment io now dep d = Ok d' ->
  (d_ID dep ∉ d_ID <$> deployments d) /\
  exists dep', deployments d' = deployments d ++ [dep'] /\ d_ID dep' = d_ID dep /\ d_Status dep' = d_Status dep.
Proof.
  unfold InsertDeployment. destruct io; [done|]. destruct (existsb _ _) eqn:Ex; [done|]. destruct (negb _); [done|]. intros [= <-]. split.
  - intros (x & He & Hx)%list_elem_of_fmap. rewrite <- not_true_iff_false in Ex. apply Ex, existsb_exists. exists x.
    split; [by apply list_elem_of_In | by apply bool_decide_eq_true_2].
  - by eexists.
Qed.

(** A submission owed by a thread is inserted and queued, or settled. *)
Lemma enqueue_ledger depID fnID version archive io io_finish now w rest u :
  let w' := fst (enqueue depID fnID version archive io io_finish now w) in
  rtc ledger_step (MkLedger (deployments (w_db w)) ((j_DeploymentID <$> w_jobs w) ++ depID :: rest) u)
                  (MkLedger (deployments (w_db w')) ((j_DeploymentID <$> w_jobs w') ++ rest) u).
Proof.
  assert (Hmid : forall l : list string, l ++ (depID :: rest) ≡ₚ depID :: (l ++ rest)) by (intros l; symmetry; apply Permutation_middle).
  unfold enqueue. destruct (InsertDeployment _ _ _ _) as [d|e] eqn:E.
  - apply InsertDeployment_rows in E as (Hnew & dep & Hrows & Hid & Hst). cbn in Hid, Hst, Hnew.
    assert (Hins : forall p', p' ≡ₚ (j_DeploymentID <$> w_jobs w) ++ depID :: rest -> ledger_step
      (MkLedger (deployments (w_db w)) ((j_DeploymentID <$> w_jobs w) ++ depID :: rest) u) (MkLedger (deployments d) p' u)).
    { intros p' Hp'. rewrite Hrows. apply LInsert; [rewrite Hid; set_solver | by rewrite Hid | done | done]. }
    cbv zeta. set (w1 := on_db _ w). unfold Submit. change (w_jobs w1) with (w_jobs w). change (w_stopping w1) with (w_stopping w).
    destruct (w_stopping w); [|destruct (_ <? _)%nat].
    + eapply rtc_l; [by apply Hins|]. apply rtc_once.
      change (deployments d) with (deployments (w_db w1)). eapply effect_settle; [|apply Hmid].
      apply effect_update, finish_change. right; right; left.
    + apply rtc_once, Hins. cbn. rewrite fmap_app, <- app_assoc. done.
    + eapply rtc_l; [by apply Hins|]. apply rtc_once.
      change (deployments d) with (deployments (w_db w1)). eapply effect_settle; [|apply Hmid].
      apply effect_update, finish_change. right; right; left.
  - apply rtc_once. apply effect_settle with (id := depID); [by apply effect_quiet | apply Hmid].
Qed.

Lemma ledger_perm rows rows' p p1 p2 p' u u' : p1 ≡ₚ p -> p' ≡ₚ p2 ->
  rtc ledger_step (MkLedger rows p1 u) (MkLedger rows' p2 u') -> rtc ledger_step (MkLedger rows p u) (MkLedger rows' p' u').
Proof.
  intros H1 H2 Hr. eapply rtc_l; [by apply LSame|]. eapply rtc_r; [exact Hr|]. by apply LSame.
Qed.

Section FlowFacts.
Context (H : host) (dataDir : string) (isUUID : string -> bool).

(** A move's new thread owes what the old one did, or what it owed is settled. *)
Lemma move_ledger busy mv t w w' t' rest u : move_thread H dataDir busy mv t w = Some (w', t') ->
  rtc ledger_step (MkLedger (deployments (w_db w)) ((j_DeploymentID <$> w_jobs w) ++ option_list (owns t) ++ rest) u)
                  (MkLedger (deployments (w_db w')) ((j_DeploymentID <$> w_jobs w') ++ option_list (t' ≫= owns) ++ rest) u).
Proof.
  assert (Hpart : forall (b : bool) id o, effect b id w w' -> o = (if b then [] else [id]) ->
    rtc ledger_step (MkLedger (deployments (w_db w)) ((j_DeploymentID <$> w_jobs w) ++ [id] ++ rest) u)
                    (MkLedger (deployments (w_db w')) ((j_DeploymentID <$> w_jobs w') ++ o ++ rest) u)).
  { intros b id o He ->. pose proof He as [Hj _]. apply rtc_once. rewrite Hj. destruct b.
    - eapply effect_settle; [exact He|]. cbn. symmetry. apply Permutation_middle.
    - eapply effect_touch; [exact He | set_solver | reflexivity | done]. }
  assert (Hsame : forall o, quiet w w' -> rtc ledger_step (MkLedger (deployments (w_db w)) ((j_DeploymentID <$> w_jobs w) ++ o) u)
    (MkLedger (deployments (w_db w')) ((j_DeploymentID <$> w_jobs w') ++ o) u)).
  { intros o Hq. pose proof Hq as [_ Hj]. apply rtc_once. rewrite Hj. by apply quiet_same. }
  destruct mv, t; cbn [move_thread]; try discriminate.
  - intros [= <- <-]. apply Hsame, update_write_quiet.
  - intros [= <- <-]. apply enqueue_ledger.
  - destruct (busy _); [discriminate|]. pose proof (start_effect io now job w) as He. destruct (job_start _ _ _ _) as [w1 fn].
    intros [= <- <-]. eapply Hpart; [exact He|]. by destruct fn.
  - pose proof (build_effect H dataDir a io now dur job fn w) as He. destruct (job_build _ _ _ _ _ _ _ _ _) as [w1 b].
    intros [= <- <-]. eapply Hpart; [exact He|]. by destruct b.
  - pose proof (persist_effect io now dur job b fn w) as He. destruct (job_persist _ _ _ _ _ _ _) as [w1 x].
    intros [= <- <-]. eapply Hpart; [exact He|]. by destruct x.
  - intros [= <- <-]. eapply (Hpart true); [apply activate_effect | done].
  - destruct (busy _); [discriminate|]. intros [= <- <-].
    destruct (rollback_check fn req w); exact (Hsame _ (conj eq_refl eq_refl)).
  - intros [= <- <-]. apply Hsame, promote_quiet.
  - intros [= <- <-]. by apply Hsame.
Qed.

Lemma open_ledger b w w' t : open_thread isUUID b w = Some (w', t) ->
  (exists rawID depID archive, b = BDeploy rawID depID archive /\ quiet w w' /\ t ≫= owns ∈ [None; Some depID]) \/
  (t ≫= owns = None /\ quiet w w') \/
  (b = BTake /\ deployments (w_db w') = deployments (w_db w) /\
   j_DeploymentID <$> w_jobs w = option_list (t ≫= owns) ++ (j_DeploymentID <$> w_jobs w')).
Proof.
  destruct b; cbn [open_thread].
  - pose proof (find_quiet isUUID rawID w) as Hq. destruct (find_function _ _ _) as [w1 [fn|s c]]; intros [= <- <-]; by right; left.
  - pose proof (find_quiet isUUID rawID w) as Hq. destruct (find_function _ _ _) as [w1 x]. intros [= <- <-]. left.
    do 3 eexists. split; [done|]. split; [done|]. destruct x; [|left]. destruct archive; [right; left | left].
  - destruct (w_jobs w) as [|job l] eqn:E; [discriminate|]. intros [= <- <-]. by right; right.
  - pose proof (rollback_read_quiet isUUID rawID req w) as Hq. destruct (rollback_read _ _ _ _) as [w1 [[fn r]|s c]]; intros [= <- <-]; by right; left.
  - intros [= <- <-]. by right; left.
Qed.

Lemma delete_ledger dataDir' rawID io rm w p u :
  let w' := fst (Delete_ isUUID dataDir' rawID io rm w) in
  w_jobs w' = w_jobs w /\ rtc ledger_step (MkLedger (deployments (w_db w)) p u) (MkLedger (deployments (w_db w')) p u).
Proof.
  unfold Delete_. case_bool_decide; [by split|]. pose proof (resolve_quiet isUUID rawID w) as [Hd Hj].
  destruct (resolveFnID isUUID rawID w) as [w1 [id|]]; cbn [fst] in Hd, Hj.
  - unfold delete_locked, Delete, DeleteFunction. destruct io; cbn.
    + split; [done|]. by rewrite <- Hd.
    + split; [done|]. apply rtc_once. unfold w_db in *. cbn. rewrite Hd. apply LDelete.
  - cbn. split; [done|]. by rewrite Hd.
Qed.

(** The daemon refines the ledger. *)
Lemma exec_ledger a m m' : exec H dataDir isUUID a m = Some m' -> rtc ledger_step (ledger_of m) (ledger_of m').
Proof.
  unfold exec. destruct (match draws a with Some id => _ | None => false end) eqn:Eg; [discriminate|].
  destruct (exec_world _ _ _ a m) as [[w ts]|] eqn:E; [|discriminate]. intros [= <-]. destruct m as [w0 ts0 u0].
  unfold ledger_of, ledger_in, pending_in. cbn [m_world m_threads m_used] in *.
  destruct a as [newID io now req|id|rawID io rm|tid b|tid mv| |now order]; cbn [exec_world m_world m_threads draws] in *.
  - injection E as <- <-. apply orb_false_iff in Eg as [Eg%bool_decide_eq_false _]. pose proof (Create_quiet newID io now req w0) as [-> ->].
    by apply rtc_once, LDrawOther.
  - injection E as <- <-. apply rtc_once. apply quiet_same; [|done]. split; [|done]. unfold w_db. cbn. by rewrite Get_rows.
  - destruct (match _ with Some _ => _ | None => _ end); [discriminate|]. injection E as <- <-.
    destruct (delete_ledger dataDir rawID io rm w0 ((j_DeploymentID <$> w_jobs w0) ++ marks owns ts0) u0) as [-> Hl]. exact Hl.
  - destruct (ts0 !! tid) as [t|] eqn:Et; [discriminate|]. destruct (open_thread isUUID b w0) as [[w1 t]|] eqn:Eo; [|discriminate].
    injection E as <- <-. eapply ledger_perm; [reflexivity | by rewrite (marks_open owns tid t ts0 Et)|].
    destruct (open_ledger _ _ _ _ Eo) as [(rawID & depID & archive & -> & [Hd Hj] & Ht)|[[Hn [Hd Hj]]|(-> & Hd & Hj)]]; cbn [draws] in *.
    + apply orb_false_iff in Eg as [Eg%bool_decide_eq_false _]. rewrite Hd, Hj. apply rtc_once.
      rewrite elem_of_cons, list_elem_of_singleton in Ht. destruct Ht as [->| ->]; cbn.
      * by apply LDrawOther.
      * apply LDraw; [done|]. symmetry. apply Permutation_middle.
    + rewrite Hn, Hd, Hj. destruct b; cbn [draws] in *; try apply rtc_refl. apply orb_false_iff in Eg as [Eg%bool_decide_eq_false _].
      by apply rtc_once, LDrawOther.
    + rewrite Hd, Hj. apply rtc_once, LSame. rewrite !app_assoc. by rewrite (Permutation_app_comm (option_list _)).
  - destruct (ts0 !! tid) as [t|] eqn:Et; [|discriminate]. cbn in E.
    destruct (move_thread _ _ _ _ _ _) as [[w1 t']|] eqn:Em; [|discriminate]. injection E as <- <-.
    eapply ledger_perm; [by rewrite (marks_delete owns tid t ts0 Et) | by rewrite (marks_put owns tid t t' ts0 Et)|].
    by eapply move_ledger.
  - injection E as <- <-. by apply rtc_once, quiet_same.
  - injection E as <- <-. apply rtc_once. apply LRestart with (now := now).
Qed.

Lemma run_ledger l m m' : run H dataDir isUUID l m = Some m' -> rtc ledger_step (ledger_of m) (ledger_of m').
Proof.
  revert m. induction l as [|a l IH]; intros m; cbn [run].
  - intros [= ->]. apply rtc_refl.
  - destruct (exec H dataDir isUUID a m) as [m1|] eqn:E; [|discriminate]. intros Hr.
    etransitivity; [by eapply exec_ledger | by apply IH].
Qed.

(* ------------------------------------------------------------------ *)
(** ** Locks *)

Definition exclusive (m : machine) : Prop := NoDup (marks holds (m_threads m)).

Lemma move_holds busy mv t w w' t' : move_thread H dataDir busy mv t w = Some (w', t') ->
  t' ≫= holds = None \/ t' ≫= holds = holds t \/ exists f, t' ≫= holds = Some f /\ busy f = false.
Proof.
  destruct mv, t; cbn [move_thread]; try discriminate.
  - intros [= _ <-]. by left.
  - intros [= _ <-]. by left.
  - destruct (busy _) eqn:Eb; [discriminate|]. destruct (job_start _ _ _ _) as [w1 [fn|]]; intros [= _ <-]; [right; right; by eexists | by left].
  - destruct (job_build _ _ _ _ _ _ _ _ _) as [w1 [b|]]; intros [= _ <-]; [by right; left | by left].
  - destruct (job_persist _ _ _ _ _ _ _) as [w1 [x|]]; intros [= _ <-]; [by right; left | by left].
  - intros [= _ <-]. by left.
  - destruct (busy _) eqn:Eb; [discriminate|]. destruct (rollback_check _ _ _); intros [= _ <-]; [right; right; by eexists | by left].
  - intros [= _ <-]. by left.
  - intros [= _ <-]. by left.
Qed.

Lemma open_holds b w w' t : open_thread isUUID b w = Some (w', t) -> t ≫= holds = None.
Proof.
  destruct b; cbn [open_thread].
  - destruct (find_function _ _ _) as [w1 [fn|s c]]; by intros [= _ <-].
  - destruct (find_function _ _ _) as [w1 [fn|s c]]; destruct archive; by intros [= _ <-].
  - destruct (w_jobs w); [discriminate|]. by intros [= _ <-].
  - destruct (rollback_read _ _ _ _) as [w1 [[fn r]|s c]]; by intros [= _ <-].
  - by intros [= _ <-].
Qed.

Lemma exec_exclusive a m m' : exec H dataDir isUUID a m = Some m' -> exclusive m -> exclusive m'.
Proof.
  unfold exec, exclusive. destruct (match draws a with Some id => _ | None => false end); [discriminate|].
  destruct (exec_world _ _ _ a m) as [[w ts]|] eqn:E; [|discriminate]. intros [= <-]. cbn [m_threads].
  destruct a as [newID io now req|id|rawID io rm|tid b|tid mv| |now order]; cbn [exec_world] in E.
  - by injection E as <- <-.
  - by injection E as <- <-.
  - destruct (match _ with Some _ => _ | None => _ end); [discriminate|]. by injection E as <- <-.
  - destruct (m_threads m !! tid) as [t|] eqn:Et; [discriminate|]. destruct (open_thread isUUID b _) as [[w1 t]|] eqn:Eo; [|discriminate].
    injection E as <- <-. rewrite (marks_open holds tid t _ Et). by rewrite (open_holds _ _ _ _ Eo).
  - destruct (m_threads m !! tid) as [t|] eqn:Et; [|discriminate]. cbn in E.
    destruct (move_thread _ _ _ _ _ _) as [[w1 t']|] eqn:Em; [|discriminate]. injection E as <- <-.
    rewrite (marks_put holds tid t t' _ Et), (marks_delete holds tid t _ Et). intros Hn.
    pose proof (proj2 (proj2 (proj1 (NoDup_app _ _) Hn))) as Hrest.
    destruct (move_holds _ _ _ _ _ _ Em) as [->|[->|(f & -> & Hf)]]; [exact Hrest | exact Hn |].
    cbn. constructor; [|exact Hrest]. rewrite locked_marks in Hf. apply bool_decide_eq_false in Hf. intros Hin. apply Hf.
    rewrite (marks_delete holds tid t _ Et). by apply elem_of_app; right.
  - by injection E as <- <-.
  - injection E as <- <-. intros _. constructor.
Qed.

Lemma run_exclusive l m m' : run H dataDir isUUID l m = Some m' -> exclusive m -> exclusive m'.
Proof.
  revert m. induction l as [|a l IH]; intros m; cbn [run]; [by intros [= ->]|].
  destruct (exec H dataDir isUUID a m) as [m1|] eqn:E; [|discriminate]. intros Hr Hm. eapply IH; [exact Hr|]. by eapply exec_exclusive.
Qed.

Lemma ledger_run_ok l l' : rtc ledger_step l l' -> ledger_ok l -> ledger_ok l'.
Proof. induction 1; [done|]. intros Hl. by eauto using ledger_step_ok. Qed.

Lemma final_run dep l l' : rtc ledger_step l l' -> unfinished dep = false -> final dep l -> final dep l'.
Proof. induction 1; [done|]. intros Hd Hl. by eauto using final_step. Qed.

Lemma boot_ok : ledger_ok (ledger_of boot).
Proof. split; cbn; constructor. Qed.

Lemma settled_is_final l dep : ledger_ok l -> dep ∈ l_rows l -> d_Status dep <> "queued"%string -> unfinished dep = false /\ final dep l.
Proof.
  intros [Hp Hu Hr Hru Hq Hst] Hin Hd. rewrite Forall_forall in Hru, Hq, Hst. split.
  - specialize (Hst _ Hin). unfold statuses in Hst. unfold unfinished. apply bool_decide_eq_false_2. rewrite !elem_of_cons, elem_of_nil in *.
    intros [He|[He|[]]]; [done|]. rewrite He in Hst. by destruct Hst as [?|[?|[?|[]]]].
  - split; [by apply Hru | by intros Hp'%(Hq _ Hin) |]. apply Forall_forall. intros x Hx He.
    apply list_elem_of_lookup in Hin as [i Hi]. apply list_elem_of_lookup in Hx as [j Hj].
    assert (i = j) as ->.
    { eapply NoDup_lookup; [exact Hr | rewrite list_lookup_fmap, Hi; reflexivity | rewrite list_lookup_fmap, Hj; cbn; by rewrite He]. }
    congruence.
Qed.

(** C9.  From a new installation, through any interleaving of creations,
    updates, deployments, builds, rollbacks, deletions, collections and
    restarts, with any of their writes failing: every deployment is queued,
    succeeded or failed; no two threads have the lock of one function, and no
    deployment is owed by two threads or queue entries; and a deployment that
    succeeded or failed never changes again in any field: whatever happens
    next, no row of its id differs from it. *)
Theorem deployments_settle_once l l' m m' dep :
  run H dataDir isUUID l boot = Some m -> run H dataDir isUUID l' m = Some m' ->
  exclusive m /\ NoDup (pending_in (m_world m) (m_threads m)) /\
  Forall (fun x => d_Status x ∈ statuses) (deployments (w_db (m_world m))) /\
  (dep ∈ deployments (w_db (m_world m)) -> d_Status dep <> "queued"%string ->
   Forall (fun x => d_ID x = d_ID dep -> x = dep) (deployments (w_db (m_world m')))).
Proof.
  intros Hl Hl'. pose proof (ledger_run_ok _ _ (run_ledger _ _ _ Hl) boot_ok) as Hok.
  split; [eapply run_exclusive; [exact Hl | constructor]|]. split; [exact (lo_pending _ Hok)|]. split; [exact (lo_status _ Hok)|].
  intros Hin Hst. destruct (settled_is_final _ _ Hok Hin Hst) as [Hu Hf]. exact (fl_row _ _ (final_run _ _ _ (run_ledger _ _ _ Hl') Hu Hf)).
Qed.
End FlowFacts.

(* ------------------------------------------------------------------ *)
(** ** Concrete runs *)

Definition sample_create (name : string) : createFunctionRequest := MkCreate name "" "node" "" 0 0 zero_f ∅ "" 0 "" "" 0.
Definition job_fine : job_io := MkJobIo false false false false io_fine (true, true).
Definition sample_host : host := plain_host [file_entry "handler.js" "exports.handler = 1"].
Definition is_id (s : string) : bool := bool_decide (s ∈ ["f1"; "f2"]%string).
Definition sample_run (l : list action) (m : machine) : option machine := run sample_host "/data" is_id l m.

Definition build_steps (tid : nat) (archive : string) (now : Z) : list action :=
  [AOpen tid BTake; AMove tid (MStart job_fine now); AMove tid (MBuild (plain_attempt archive now) job_fine now 1);
   AMove tid (MPersist job_fine now 1); AMove tid (MActivate job_fine now 1)].
Definition deploy_steps (tid : nat) (fid did archive : string) (now : Z) : list action :=
  [AOpen tid (BDeploy fid did (Some (bytes archive))); AMove tid (MSubmit false false now)] ++ build_steps tid archive now.

Definition rows_of (m : option machine) : list (string * string) :=
  match m with Some m => (fun dep => (d_ID dep, d_Status dep)) <$> deployments (w_db (m_world m)) | None => [] end.

Definition one_deployed : list action := ACreate "f1" io_fine second (sample_create "a") :: deploy_steps 1 "f1" "d1" "v1" (2 * second).

Example one_deployed_rows : rows_of (sample_run one_deployed boot) = [("d1", "succeeded")]%string.
Proof. vm_compute. reflexivity. Qed.

(** A second deployment is built while the daemon is restarted, the first one
    is rolled back to, and a third is refused its row. *)
Definition busy_day : list action :=
  deploy_steps 1 "f1" "d2" "v2" (3 * second) ++
  [AOpen 3 (BDeploy "f1" "d3" (Some (bytes "v3"))); AMove 3 (MSubmit false false (4 * second)); AOpen 4 BTake; AMove 4 (MStart job_fine (4 * second));
   ARestart (5 * second) id;
   AOpen 5 (BRollback "f1" (Some (MkRollback "d1" EmptyString))); AMove 5 MLock; AMove 5 (MPromote (true, true) io_fine (6 * second));
   AOpen 6 (BDeploy "f1" "d4" (Some (bytes "v4"))); AMove 6 (MSubmit true false (7 * second))].

Example busy_day_rows : rows_of (l ← sample_run one_deployed boot; sample_run busy_day l) = [("d1", "succeeded"); ("d2", "succeeded"); ("d3", "failed")]%string.
Proof. vm_compute. reflexivity. Qed.

Lemma deployments_settle_once_witness :
  exists m m' dep, sample_run one_deployed boot = Some m /\ sample_run busy_day m = Some m' /\
    dep ∈ deployments (w_db (m_world m)) /\ d_Status dep = "succeeded"%string /\ d_ID dep = "d1"%string /\
    Forall (fun x => d_ID x = "d1"%string -> x = dep) (deployments (w_db (m_world m'))) /\ dep ∈ deployments (w_db (m_world m')).
Proof.
  pose proof one_deployed_rows as H1. pose proof busy_day_rows as H2.
  destruct (sample_run one_deployed boot) as [m|] eqn:E1; [|discriminate H1]. cbn [mbind option_bind] in H2.
  destruct (sample_run busy_day m) as [m'|] eqn:E2; [|discriminate H2]. cbn in H1, H2.
  destruct (deployments (w_db (m_world m))) as [|dep [|]] eqn:Ed; cbn in H1; [discriminate H1 | | discriminate H1]. injection H1 as Hid Hst.
  unfold sample_run in E1, E2. destruct (deployments_settle_once _ _ _ _ _ _ _ dep E1 E2) as (_ & _ & _ & Hf).
  rewrite Ed, Hst, Hid in Hf. specialize (Hf (list_elem_of_here _ _) ltac:(clear; discriminate)).
  exists m, m', dep. split; [reflexivity|]. split; [unfold sample_run; assumption|]. split; [rewrite Ed; left|]. do 3 (split; [assumption|]).
  destruct (deployments (w_db (m_world m'))) as [|x l] eqn:Ed'; [discriminate H2|]. cbn in H2. injection H2 as Hx _ _.
  apply Forall_cons in Hf as [Hf _]. rewrite (Hf Hx). left.
Defined.
