(* ===== verification/DeployTypes.v ===== *)
(** * Every stored configuration is one the handlers accept

    The settings that Create checks and Update checks, and that a rollback
    restores from a snapshot, written once; and that every row, cached copy,
    snapshot and copy in flight satisfies them, in every state the daemon of
    DeployFlow.v reaches. *)
From S2P Require Import Prelude GoText Float64 Netip Url Safepath Registry Builder Gc Deploy DeployFlow.
Open Scope Z_scope.

Definition stored_network (s : string) : bool := bool_decide (s ∈ [NetworkModeNone; NetworkModeEgress]).
Definition stored_policy (s : string) : bool := bool_decide (s ∈ [ConcurrencyPolicyQueue; ConcurrencyPolicyReject]).
Definition stored_auth (s : string) : bool := bool_decide (s ∈ [AuthModeNone; AuthModePlatformKey; AuthModeSigned]).
Definition stored_status (s : string) : bool := bool_decide (s ∈ ["created"; "building"; "error"; "active"; "inactive"]%string).
Definition stored_name (n : string) : bool := negb (bool_decide (n = EmptyString)).
Definition stored_entrypoint (e : string) : bool := bool_decide (Validate e = None).
Definition positive_cpus (c : float64) : bool := negb (fle c zero_f).

(** The settings a snapshot carries. *)
Definition snap_valid (s : DeploymentSnapshot) : bool :=
  stored_network (s_NetworkMode s) && stored_policy (s_ConcurrencyPolicy s) && stored_auth (s_AuthMode s) &&
  (0 <=? s_MaxConcurrency s) && (0 <=? s_RateLimitPerMin s) && (0 <? s_TimeoutMS s) && (0 <? s_MemoryMB s) && positive_cpus (s_CPUs s).

Definition fn_valid (fn : Function_) : bool :=
  snap_valid (SnapshotFromFunction fn) && validRuntimes (fn_Runtime fn) && stored_status (fn_Status fn) &&
  stored_name (fn_Name fn) && stored_entrypoint (fn_Entrypoint fn).

Definition rows_valid (fs : gmap string Function_) : Prop := forall id fn, fs !! id = Some fn -> fn_valid fn = true.
Definition snaps_valid (rows : list Deployment) : Prop := Forall (fun dep => opt_all snap_valid (d_Snapshot dep) = true) rows.

Record reg_valid (r : registry) : Prop := {
  rv_rows : rows_valid (functions (r_db r));
  rv_cache : rows_valid (r_cache r);
  rv_snaps : snaps_valid (deployments (r_db r)) }.
Definition world_valid (w : world) : Prop := reg_valid (w_reg w).

Definition thread_valid (t : thread) : bool :=
  match t with
  | TUpdate fn | TBuild _ fn | TPersist _ _ fn | TActivate _ _ fn | TRollback fn _ => fn_valid fn
  | TPromote fn t => fn_valid fn && opt_all snap_valid (tg_snapshot t)
  | TDeploy _ _ _ _ | TTaken _ | TCollect _ _ => true
  end.

Record machine_valid (m : machine) : Prop := {
  mv_world : world_valid (m_world m);
  mv_threads : map_Forall (fun _ t => thread_valid t = true) (m_threads m) }.

(* ------------------------------------------------------------------ *)
(** ** Requests make valid rows *)

Lemma ValidNetworkMode_default s : ValidNetworkMode s = true -> stored_network (or_default s NetworkModeNone) = true.
Proof. unfold ValidNetworkMode. rewrite bool_decide_eq_true, !elem_of_cons, elem_of_nil. by intros [->|[->|[->|[]]]]. Qed.

Lemma ValidConcurrencyPolicy_default s : ValidConcurrencyPolicy s = true -> stored_policy (or_default s ConcurrencyPolicyQueue) = true.
Proof. unfold ValidConcurrencyPolicy. rewrite bool_decide_eq_true, !elem_of_cons, elem_of_nil. by intros [->|[->|[->|[]]]]. Qed.

Lemma ValidAuthMode_default s : ValidAuthMode s = true -> stored_auth (or_default s AuthModeNone) = true.
Proof. unfold ValidAuthMode. rewrite bool_decide_eq_true, !elem_of_cons, elem_of_nil. by intros [->|[->|[->|[->|[]]]]]. Qed.

Lemma userSettable_stored s : userSettableStatus s = true -> stored_status s = true.
Proof. unfold userSettableStatus. rewrite bool_decide_eq_true, !elem_of_cons, elem_of_nil. by intros [->|[->|[]]]. Qed.

Lemma trimmed_stored n : negb (bool_decide (trimSpace n = EmptyString)) = true -> stored_name n = true.
Proof. intros Hn. apply negb_true_iff, bool_decide_eq_false. intros ->. by vm_compute in Hn. Qed.

Ltac keep_stored := cbn -[stored_network stored_policy stored_auth stored_status stored_name stored_entrypoint positive_cpus
  fle fconst zero_f validRuntimes or_default Z.leb Z.ltb].

Lemma new_function_valid id req : create_valid req = true -> fn_valid (new_function id req) = true.
Proof.
  unfold create_valid. rewrite !andb_true_iff, orb_true_iff. intros [[[[[[[[Hn _] Hr] Hnet] Hpol] Hmax] Hauth] Hrate] Hent].
  unfold fn_valid, snap_valid, new_function. keep_stored. rewrite !andb_true_iff. repeat split; auto using ValidNetworkMode_default, ValidConcurrencyPolicy_default, ValidAuthMode_default.
  - split_ifs; zbool; lia.
  - split_ifs; zbool; lia.
  - destruct (fle (cr_CPUs req) zero_f) eqn:E; [by vm_compute | unfold positive_cpus; by rewrite E].
  - unfold or_default. destruct (bool_decide (cr_Entrypoint req = EmptyString)); [|by destruct Hent].
    unfold default_entrypoint. by destruct (isNodeRuntime _); vm_compute.
Qed.

Lemma opt_all_default {A} (p q : A -> bool) (o : option A) d :
  opt_all p o = true -> (forall a, p a = true -> q a = true) -> q d = true -> q (default d o) = true.
Proof. intros Hp Hpq Hd. destruct o; cbn in *; auto. Qed.

Lemma opt_all_map {A B} (p : A -> bool) (q : B -> bool) (f : A -> B) (o : option A) :
  opt_all p o = true -> (forall a, p a = true -> q (f a) = true) -> opt_all q (f <$> o) = true.
Proof. intros Hp Hpq. destruct o; cbn in *; auto. Qed.

Lemma apply_update_valid req fn : update_valid req = true -> fn_valid fn = true -> fn_valid (fst (fst (apply_update req fn))) = true.
Proof.
  unfold update_valid. rewrite !andb_true_iff. intros [[[[[[[[[[Hnet Hpol] Hmax] Hauth] Hrate] Hst] Hname] Hent] Hto] Hmem] Hcpu].
  unfold fn_valid, snap_valid. rewrite !andb_true_iff. intros [[[[[[[[[[[Gnet Gpol] Gauth] Gmax] Grate] Gto] Gmem] Gcpu] Grt] Gst] Gname] Gent].
  unfold apply_update. keep_stored. repeat split; auto.
  - eapply (opt_all_default stored_network); [eapply opt_all_map; [exact Hnet | apply ValidNetworkMode_default] | auto | exact Gnet].
  - eapply (opt_all_default stored_policy); [eapply opt_all_map; [exact Hpol | apply ValidConcurrencyPolicy_default] | auto | exact Gpol].
  - eapply (opt_all_default stored_auth); [eapply opt_all_map; [exact Hauth | apply ValidAuthMode_default] | auto | exact Gauth].
  - eapply (opt_all_default _ (Z.leb 0)); eauto.
  - eapply (opt_all_default _ (Z.leb 0)); eauto.
  - eapply (opt_all_default _ (Z.ltb 0)); eauto.
  - eapply (opt_all_default _ (Z.ltb 0)); eauto.
  - eapply (opt_all_default _ positive_cpus); eauto.
  - eapply opt_all_default; [exact Hst | apply userSettable_stored | exact Gst].
  - eapply opt_all_default; [exact Hname | apply trimmed_stored | exact Gname].
  - eapply (opt_all_default _ stored_entrypoint); eauto.
Qed.

Lemma status_valid s fn : stored_status s = true -> fn_valid fn = true -> fn_valid (fn <| fn_Status := s |>) = true.
Proof.
  unfold fn_valid. rewrite !andb_true_iff. intros Hs [[[[? ?] _] ?] ?]. by repeat split.
Qed.

Lemma built_valid job b fn : fn_valid fn = true -> fn_valid (built_function job b fn) = true.
Proof. by apply (status_valid "active"). Qed.

Lemma promoted_valid H dataDir fn t k : fn_valid fn = true -> opt_all snap_valid (tg_snapshot t) = true ->
  fn_valid (promoted_function H dataDir fn t k) = true.
Proof.
  intros Hf Hs. unfold promoted_function. destruct (tg_snapshot t) as [s|]; cbn in Hs |- *.
  - unfold fn_valid in *. rewrite !andb_true_iff in *. destruct Hf as [[[[_ ?] _] ?] ?]. by repeat split.
  - revert Hf. by apply status_valid.
Qed.

(* ------------------------------------------------------------------ *)
(** ** The registry and the tables *)

Lemma rows_valid_insert id fn fs : fn_valid fn = true -> rows_valid fs -> rows_valid (<[id := fn]> fs).
Proof. intros Hf Hs i g [[_ <-]|[_ Hi]]%lookup_insert_Some; eauto. Qed.

Lemma rows_valid_delete id fs : rows_valid fs -> rows_valid (delete id fs).
Proof. intros Hs i g [_ Hi]%lookup_delete_Some; eauto. Qed.

#[local] Hint Resolve rows_valid_insert rows_valid_delete : core.

Lemma publish_valid b e r : reg_valid r -> reg_valid (publish_if b e r).
Proof. destruct b; [|done]. intros [H1 H2 H3]. by split. Qed.

Lemma set_valid newID io now fn publish r : reg_valid r -> fn_valid fn = true ->
  let '(r', x) := set newID io now fn publish r in reg_valid r' /\ match x with Ok g => fn_valid g = true | Err _ => True end.
Proof.
  intros Hr Hf. unfold set. cbv zeta. set (f := if bool_decide _ then _ else _).
  assert (Hf' : fn_valid f = true) by (subst f; by case_bool_decide).
  assert (Hput : forall g, fn_valid g = true -> reg_valid (r <| r_db := r_db r <| functions ::= <[fn_ID f := g]> |> |> <| r_cache ::= <[fn_ID f := g]> |>)).
  { intros g Hg. destruct Hr as [H1 H2 H3]. split; cbn; auto. }
  destruct (InsertFunction _ _ _ _) as [[d g]|e] eqn:E.
  - apply InsertFunction_ok in E as (_ & _ & _ & -> & ->). cbn [fn_ID]. split; [|done]. apply publish_valid, Hput. done.
  - destruct (GetFunction _ _); [|done]. destruct (UpdateFunction _ _ _ _) as [[d g]|e2] eqn:E2; [|done].
    apply UpdateFunction_ok in E2 as (_ & _ & old & _ & -> & ->). split; [|done]. apply publish_valid, Hput. done.
Qed.

Lemma Get_valid id r : reg_valid r -> let '(r', x) := Get id r in reg_valid r' /\ opt_all fn_valid x = true.
Proof.
  intros Hr. pose proof Hr as [H1 H2 H3]. unfold Get, GetFunction. destruct (r_cache r !! id) as [fn|] eqn:E; [eauto|].
  destruct (functions (r_db r) !! id) as [fn|] eqn:Ef; [|done]. split; [|by cbn; eauto]. split; cbn; eauto.
Qed.

Lemma Delete_valid io id r : reg_valid r -> reg_valid (fst (Delete io id r)).
Proof.
  intros [H1 H2 H3]. unfold Delete, DeleteFunction. destruct io; [done|]. split; cbn; auto.
  apply Forall_forall. intros dep [_ Hd]%list_elem_of_filter. unfold snaps_valid in H3. rewrite Forall_forall in H3. auto.
Qed.

Lemma LoadAll_valid order r : returns_rows order -> reg_valid r -> reg_valid (LoadAll order r).
Proof.
  intros Ho [H1 H2 H3]. unfold LoadAll. set (fs := fst _).
  assert (Hfs : Forall (fun fn => fn_valid fn = true) fs).
  { apply Forall_forall. intros fn (id & Hid)%ListFunctions_in; eauto. }
  clearbody fs. split; cbn; [done | | done]. revert H2. generalize (r_cache r). induction Hfs as [|fn fs Hf _ IH]; intros c Hc; cbn; eauto.
Qed.

(** A change of one row that stores only valid snapshots. *)
Lemma update_valid_rows io id f w : (forall dep, opt_all snap_valid (d_Snapshot dep) = true -> opt_all snap_valid (d_Snapshot (f dep)) = true) ->
  world_valid w -> world_valid (on_db (update_deployment io id f) w).
Proof.
  intros Hf [H1 H2 H3]. destruct io; [done|]. split; cbn; [done | done |]. apply Forall_map. eapply Forall_impl; [exact H3|].
  intros dep Hd. cbn. case_bool_decide; auto.
Qed.

Lemma set_world newID io now fn publish w : world_valid w -> fn_valid fn = true ->
  let '(r, x) := set newID io now fn publish (w_reg w) in
  world_valid (w <| w_reg := r |>) /\ match x with Ok g => fn_valid g = true | Err _ => True end.
Proof. apply set_valid. Qed.

Lemma find_valid isUUID s w : world_valid w ->
  let '(w', x) := find_function isUUID s w in world_valid w' /\ match x with Reply fn => fn_valid fn = true | Refuse _ _ => True end.
Proof.
  intros Hw. unfold find_function. case_bool_decide; [done|].
  assert (Hres : world_valid (fst (resolveFnID isUUID s w))).
  { unfold resolveFnID. case_bool_decide; [done|]. destruct (isUUID _); [|done].
    pose proof (Get_valid (trimSpace s) (w_reg w) Hw) as Hg. by destruct (Get _ _) as [r [fn|]], Hg. }
  destruct (resolveFnID isUUID s w) as [w' [id|]]; [|done]. cbn [fst] in Hres. pose proof (Get_valid id (w_reg w') Hres) as Hg.
  destruct (Get id (w_reg w')) as [r [fn|]]; by destruct Hg.
Qed.

Lemma fail_valid io now dur job phase msg w : world_valid w -> world_valid (fail io now dur job phase msg w).
Proof.
  intros Hw. unfold fail, UpdateDeploymentPhase, FinishDeployment. cbv zeta.
  set (w1 := on_db _ w). assert (Hw1 : world_valid w1) by (by apply update_valid_rows). set (w2 := on_db _ w1).
  assert (Hw2 : world_valid w2) by (by apply update_valid_rows). exact Hw2.
Qed.

(* ------------------------------------------------------------------ *)
(** ** The handlers and the job's parts *)

Definition opt_fn_valid (x : option Function_) : Prop := match x with Some fn => fn_valid fn = true | None => True end.

Lemma Create_valid newID io now req w : world_valid w -> world_valid (fst (Create newID io now req w)).
Proof.
  intros Hw. unfold Create, Set_. destruct (create_valid req) eqn:Ev; [|done]. cbn [negb].
  pose proof (set_world newID io now _ true w Hw (new_function_valid newID req Ev)) as Hs. destruct (set _ _ _ _ _ _) as [r x]. apply Hs.
Qed.

Lemma update_write_valid io now req fn w : world_valid w -> fn_valid fn = true -> world_valid (fst (update_write io now req fn w)).
Proof.
  intros Hw Hf. unfold update_write, Set_. destruct (update_valid req) eqn:Ev; [|done]. cbn [negb].
  pose proof (apply_update_valid req fn Ev Hf) as Hv. destruct (apply_update req fn) as [[fn' sc] nc]. cbn [fst] in Hv.
  pose proof (set_world EmptyString io now fn' true w Hw Hv) as Hs. destruct (set _ _ _ _ _ _) as [r [x|e]]; apply Hs.
Qed.

Lemma Delete__valid isUUID dataDir rawID io rm w : world_valid w -> world_valid (fst (Delete_ isUUID dataDir rawID io rm w)).
Proof.
  intros Hw. unfold Delete_. case_bool_decide; [done|].
  assert (Hres : world_valid (fst (resolveFnID isUUID rawID w))).
  { unfold resolveFnID. case_bool_decide; [done|]. destruct (isUUID _); [|done].
    pose proof (Get_valid (trimSpace rawID) (w_reg w) Hw) as Hg. by destruct (Get _ _) as [r [fn|]], Hg. }
  destruct (resolveFnID isUUID rawID w) as [w' [id|]]; [|done]. cbn [fst] in Hres. unfold delete_locked.
  pose proof (Delete_valid io id (w_reg w') Hres) as Hd. by destruct (Delete io id (w_reg w')) as [r [e|]].
Qed.

Lemma enqueue_valid depID fnID version archive io io_finish now w : world_valid w ->
  world_valid (fst (enqueue depID fnID version archive io io_finish now w)).
Proof.
  intros Hw. unfold enqueue. destruct (InsertDeployment _ _ _ _) as [d|e] eqn:E; [|done]. cbv zeta. set (w1 := on_db _ w).
  assert (Hw1 : world_valid w1).
  { revert E. unfold InsertDeployment. destruct io; [done|]. destruct (existsb _ _); [done|]. destruct (negb _); [done|]. intros [= <-].
    destruct Hw as [H1 H2 H3]. split; cbn; [done | done |]. apply Forall_app. split; [done|]. by apply Forall_singleton. }
  unfold Submit. destruct (w_stopping w1); [by apply update_valid_rows|]. destruct (_ <? _)%nat; [done|]. by apply update_valid_rows.
Qed.

Lemma start_valid io now job w : world_valid w -> let '(w', x) := job_start io now job w in world_valid w' /\ opt_fn_valid x.
Proof.
  intros Hw. unfold job_start. pose proof (Get_valid (j_FunctionID job) (w_reg w) Hw) as Hg. destruct (Get _ _) as [r [fn|]], Hg as [Hr Hfn].
  - set (w1 := on_db _ _). assert (Hw1 : world_valid w1) by (by apply update_valid_rows). case_bool_decide; [|done]. unfold SetSilent.
    assert (Hb : fn_valid (fn <| fn_Status := "building"%string |>) = true) by (by apply status_valid).
    pose proof (set_world EmptyString (ji_set io) now _ false w1 Hw1 Hb) as Hs. destruct (set _ _ _ _ _ _) as [r' [x|e]]; [exact Hs|].
    split; [apply Hs | exact Hb].
  - split; [|done]. by apply fail_valid.
Qed.

Lemma build_valid H dataDir a io now dur job fn w : world_valid w -> fn_valid fn = true ->
  world_valid (fst (job_build H dataDir a io now dur job fn w)).
Proof.
  intros Hw Hf. unfold job_build. cbv zeta. set (w1 := on_db _ w). assert (Hw1 : world_valid w1) by (by apply update_valid_rows).
  destruct (Build _ _ _ _ _) as [[c k] [b|e]]; [exact Hw1|]. set (w2 := fail _ _ _ _ _ _ _).
  assert (Hw2 : world_valid w2) by (by apply fail_valid). case_bool_decide; [|exact Hw2]. unfold SetSilent.
  pose proof (set_world EmptyString (ji_set io) now (fn <| fn_Status := "error"%string |>) false w2 Hw2 ltac:(by apply status_valid)) as Hs.
  destruct (set _ _ _ _ _ _) as [r x]. apply Hs.
Qed.

Lemma fn_valid_snapshot fn : fn_valid fn = true -> snap_valid (SnapshotFromFunction fn) = true.
Proof. unfold fn_valid. rewrite !andb_true_iff. tauto. Qed.

Lemma persist_valid io now dur job b fn w : world_valid w -> fn_valid fn = true ->
  let '(w', x) := job_persist io now dur job b fn w in world_valid w' /\ opt_fn_valid x.
Proof.
  intros Hw Hf. unfold job_persist, SetSilent.
  pose proof (set_world EmptyString (ji_set io) now _ false w Hw (built_valid job b fn Hf)) as Hs. destruct (set _ _ _ _ _ _) as [r [x|e]].
  - destruct Hs as [Hs Hx]. split; [|exact Hx]. apply update_valid_rows; [|by apply update_valid_rows].
    intros dep _. cbn. by apply fn_valid_snapshot.
  - split; [|done]. apply fail_valid, Hs.
Qed.

Lemma activate_valid io now dur job hash fn w : world_valid w -> world_valid (job_activate io now dur job hash fn w).
Proof.
  intros Hw. unfold job_activate. destruct (ActivateVersion _ _ _ _) as [k [e|]]; [by apply fail_valid|].
  set (w1 := w <| w_disk := k |>). set (w2 := on_db _ _). assert (Hw2 : world_valid w2) by (by apply update_valid_rows). exact Hw2.
Qed.

Lemma check_valid fn req w t : world_valid w -> rollback_check fn req w = Reply t -> opt_all snap_valid (tg_snapshot t) = true.
Proof.
  intros [_ _ Hs]. unfold rollback_check. destruct (named_target _ _ _) as [t0|s c] eqn:En; [|done].
  assert (H0 : opt_all snap_valid (tg_snapshot t0) = true).
  { revert En. unfold named_target. case_bool_decide; [by intros [= <-]|]. destruct (GetDeployment _ _) as [dep|] eqn:Eg; [|done].
    apply GetDeployment_Some in Eg as [Hin _]. unfold snaps_valid in Hs. rewrite Forall_forall in Hs. apply Hs in Hin.
    destruct (negb _); [done|]. destruct (negb _); [done|]. by intros [= <-]. }
  case_bool_decide; [done|]. cbv zeta. destruct (rollbackIsNoOp _ _ _); [done|]. destruct (negb _); [done|]. case_bool_decide; [done|].
  intros [= <-]. unfold complete_target. destruct (_ || _); [|done]. destruct (FindLatestSucceededByHash _ _ _) as [dep|] eqn:Ef; [|done].
  cbn. destruct (tg_snapshot t0); [done|]. apply FindLatest_in in Ef as [Hin _]. unfold snaps_valid in Hs. rewrite Forall_forall in Hs. auto.
Qed.

Lemma promote_valid H dataDir link io now fn t w : world_valid w -> fn_valid fn = true -> opt_all snap_valid (tg_snapshot t) = true ->
  world_valid (fst (rollback_promote H dataDir link io now fn t w)).
Proof.
  intros Hw Hf Ht. unfold rollback_promote, Set_. destruct (ActivateVersion _ _ _ _) as [k [e|]]; [done|].
  pose proof (set_world EmptyString io now _ true (w <| w_disk := k |>) Hw (promoted_valid H dataDir fn t k Hf Ht)) as Hs.
  destruct (set _ _ _ _ _ _) as [r [x|e]]; apply Hs.
Qed.

Lemma rollback_read_valid isUUID s req w : world_valid w ->
  let '(w', x) := rollback_read isUUID s req w in world_valid w' /\ match x with Reply (fn, _) => fn_valid fn = true | Refuse _ _ => True end.
Proof.
  intros Hw. unfold rollback_read. pose proof (find_valid isUUID s w Hw) as Hq. destruct (find_function isUUID s w) as [w' [fn|s' c]]; [|by destruct Hq].
  destruct Hq as [Hq Hf]. destruct req; [|done]. destruct (_ && _); [done|]. by destruct (_ && _).
Qed.

(* ------------------------------------------------------------------ *)
(** ** Every move *)

Section Moves.
Context (H : host) (dataDir : string) (isUUID : string -> bool).

Definition opt_thread_valid (t : option thread) : Prop := match t with Some t => thread_valid t = true | None => True end.

Lemma put_valid tid t (ts : gmap nat thread) : opt_thread_valid t -> map_Forall (fun _ t => thread_valid t = true) ts ->
  map_Forall (fun _ t => thread_valid t = true) (put_thread tid t ts).
Proof. intros Ht Hts. destruct t as [t|]; [by apply map_Forall_insert_2 | by apply map_Forall_delete]. Qed.

Lemma open_valid b w w' t : world_valid w -> open_thread isUUID b w = Some (w', t) -> world_valid w' /\ opt_thread_valid t.
Proof.
  intros Hw. destruct b; cbn [open_thread].
  - pose proof (find_valid isUUID rawID w Hw) as Hf. destruct (find_function _ _ _) as [w1 [fn|s c]]; intros [= <- <-]; exact Hf.
  - pose proof (find_valid isUUID rawID w Hw) as Hf. destruct (find_function _ _ _) as [w1 [fn|s c]]; intros [= <- <-]; (split; [apply Hf|]); [by destruct archive | done].
  - destruct (w_jobs w) as [|job l]; [discriminate|]. by intros [= <- <-].
  - pose proof (rollback_read_valid isUUID rawID req w Hw) as Hf. destruct (rollback_read _ _ _ _) as [w1 [[fn r]|s c]]; intros [= <- <-]; exact Hf.
  - by intros [= <- <-].
Qed.

Lemma move_valid busy mv t w w' t' : world_valid w -> thread_valid t = true -> move_thread H dataDir busy mv t w = Some (w', t') ->
  world_valid w' /\ opt_thread_valid t'.
Proof.
  intros Hw Ht. destruct mv, t; cbn [move_thread]; try discriminate; cbn in Ht.
  - intros [= <- <-]. split; [by apply update_write_valid | done].
  - intros [= <- <-]. split; [by apply enqueue_valid | done].
  - destruct (busy _); [discriminate|]. pose proof (start_valid io now job w Hw) as Hs. destruct (job_start _ _ _ _) as [w1 [fn|]];
      intros [= <- <-]; exact Hs.
  - pose proof (build_valid H dataDir a io now dur job fn w Hw Ht) as Hb. destruct (job_build _ _ _ _ _ _ _ _ _) as [w1 [b|]];
      intros [= <- <-]; by split.
  - pose proof (persist_valid io now dur job b fn w Hw Ht) as Hs. destruct (job_persist _ _ _ _ _ _ _) as [w1 [x|]];
      intros [= <- <-]; exact Hs.
  - intros [= <- <-]. split; [by apply activate_valid | done].
  - destruct (busy _); [discriminate|]. destruct (rollback_check fn req w) as [t|s c] eqn:Ec; intros [= <- <-]; split; try done.
    cbn. by rewrite Ht, (check_valid _ _ _ _ Hw Ec).
  - apply andb_true_iff in Ht as [Hf Hs]. intros [= <- <-]. split; [by apply promote_valid | done].
  - by intros [= <- <-].
Qed.

Lemma restart_valid now order w : returns_rows order -> world_valid w -> world_valid (restart now order w).
Proof.
  intros Ho [H1 H2 H3]. unfold restart, world_valid. cbn [w_reg]. apply LoadAll_valid; [done|]. split; cbn.
  - done.
  - by intros ? ? ?%lookup_empty_Some.
  - apply Forall_map. eapply Forall_impl; [exact H3|]. intros dep Hd. cbn. by destruct (unfinished dep).
Qed.

Lemma exec_valid a m m' : lists_rows a -> machine_valid m -> exec H dataDir isUUID a m = Some m' -> machine_valid m'.
Proof.
  intros Ha [Hw Hts]. unfold exec. destruct (match draws a with Some id => _ | None => false end); [discriminate|].
  destruct (exec_world _ _ _ a m) as [[w ts]|] eqn:E; [|discriminate]. intros [= <-].
  enough (He : world_valid w /\ map_Forall (fun _ t => thread_valid t = true) ts) by (by destruct He).
  destruct a as [newID io now req|id|rawID io rm|tid b|tid mv| |now order]; cbn [exec_world] in E.
  - injection E as <- <-. split; [by apply Create_valid | done].
  - injection E as <- <-. split; [|done]. pose proof (Get_valid id _ Hw) as Hg. by destruct (Get _ _), Hg.
  - destruct (match _ with Some _ => _ | None => _ end); [discriminate|]. injection E as <- <-. split; [by apply Delete__valid | done].
  - destruct (m_threads m !! tid) as [t|] eqn:Et; [discriminate|]. destruct (open_thread isUUID b _) as [[w1 t]|] eqn:Eo; [|discriminate].
    injection E as <- <-. destruct (open_valid _ _ _ _ Hw Eo). split; [done | by apply put_valid].
  - destruct (m_threads m !! tid) as [t|] eqn:Et; [|discriminate]. cbn in E.
    destruct (move_thread _ _ _ _ _ _) as [[w1 t']|] eqn:Em; [|discriminate]. injection E as <- <-.
    destruct (move_valid _ _ _ _ _ _ Hw (Hts _ _ Et) Em). split; [done | by apply put_valid].
  - by injection E as <- <-.
  - injection E as <- <-. split; [by apply restart_valid | apply map_Forall_empty].
Qed.

Lemma boot_valid : machine_valid boot.
Proof. split; [split; cbn; [by intros ? ? ?%lookup_empty_Some | by intros ? ? ?%lookup_empty_Some | constructor] | apply map_Forall_empty]. Qed.

(** C36.  In every state the daemon reaches, by any interleaving of its
    handlers, build jobs, rollbacks and restarts and with any of their writes
    failing, every function row, every copy in the registry's cache, every
    copy a thread is about to write back and every deployment's snapshot holds
    a configuration that Create and Update accept: a known runtime, a network
    mode, concurrency policy and authentication mode of the stored alphabets
    (never the empty default), limits that are not negative, a positive
    timeout, memory and CPU share, a name, a legal entry point and one of the
    five statuses. *)
Theorem configuration_stays_valid l m :
  Forall lists_rows l -> run H dataDir isUUID l boot = Some m ->
  (forall id fn, functions (w_db (m_world m)) !! id = Some fn \/ r_cache (w_reg (m_world m)) !! id = Some fn -> fn_valid fn = true) /\
  (forall dep s, dep ∈ deployments (w_db (m_world m)) -> d_Snapshot dep = Some s -> snap_valid s = true) /\
  (forall tid t, m_threads m !! tid = Some t -> thread_valid t = true).
Proof.
  intros Hl Hr. assert (Hm : machine_valid m).
  { revert Hl Hr. pose proof boot_valid as Hb. revert Hb. generalize boot. induction l as [|a l IH]; intros m0 Hm0; cbn [run].
    - by intros _ [= ->].
    - intros [Ha Hl]%Forall_cons. destruct (exec H dataDir isUUID a m0) as [m1|] eqn:E; [|discriminate]. intros Hr.
      eapply IH; [by eapply exec_valid | exact Hl | exact Hr]. }
  destruct Hm as [[H1 H2 H3] Ht]. split; [|split].
  - intros id fn [Hf|Hf]; eauto.
  - intros dep s Hd Hs. unfold snaps_valid in H3. rewrite Forall_forall in H3. specialize (H3 _ Hd). by rewrite Hs in H3.
  - apply Ht.
Qed.

End Moves.

Definition sample_settings : updateFunctionRequest :=
  MkUpdate None None None None (Some 256) None None (Some EmptyString) None None (Some "signed"%string) None None.
Definition configured : list action :=
  one_deployed ++ [AOpen 7 (BUpdate "f1"); AMove 7 (MWrite io_fine (3 * second) sample_settings)] ++ busy_day.
Definition settings_of (m : option machine) : option (Z * string * string) :=
  m ← m; fn ← functions (w_db (m_world m)) !! "f1"%string; Some (fn_MemoryMB fn, fn_NetworkMode fn, fn_AuthMode fn).

(** The last rollback took the memory back to the default of the creation. *)
Example configured_settings : settings_of (sample_run configured boot) = Some (64, "none", "none")%string.
Proof. vm_compute. reflexivity. Qed.

Lemma configured_lists : Forall lists_rows configured.
Proof. repeat (apply Forall_cons; split; [first [exact I | intros l; reflexivity]|]). constructor. Qed.

Lemma configuration_stays_valid_witness :
  exists m fn, sample_run configured boot = Some m /\ functions (w_db (m_world m)) !! "f1"%string = Some fn /\
    fn_valid fn = true /\ fn_MemoryMB fn = 64.
Proof.
  pose proof configured_settings as Hs. destruct (sample_run configured boot) as [m|] eqn:E; [|discriminate Hs].
  unfold settings_of in Hs. cbn [mbind option_bind] in Hs.
  destruct (functions (w_db (m_world m)) !! "f1"%string) as [fn|] eqn:Ef; [|discriminate Hs]. cbn in Hs. injection Hs as Hm _ _.
  exists m, fn. split; [reflexivity|]. split; [exact Ef|]. split; [|exact Hm]. unfold sample_run in E.
  exact (proj1 (configuration_stays_valid _ _ _ _ _ configured_lists E) _ _ (or_introl Ef)).
Defined.
