(* ===== verification/DeployServing.v ===== *)
(** * What the tables record is what serves

    The function row names a code hash and a deployment; the [current] link on
    disk decides what workers run.  They are written one after the other, and
    the collector and the settings handler take no lock.  [calm] says exactly
    which moves keep the two in step, and four examples show what happens
    without it. *)
From S2P Require Import Prelude GoText Float64 Netip Url Safepath Registry Builder Gc Deploy DeployFlow.
Open Scope Z_scope.

(* ------------------------------------------------------------------ *)
(** ** Tables and cache in every state *)

Definition tables_ok (w : world) : Prop := db_ok (w_db w) /\ coherent (w_reg w).

(** What [set] does to the table. *)
Lemma set_spec newID io now fn publish r : fn_ID fn <> EmptyString ->
  let '(r', x) := set newID io now fn publish r in
  match x with
  | Err _ => r' = r
  | Ok g => exists created updated, g = (fn <| fn_CreatedAt := created |> <| fn_UpdatedAt := updated |>) /\
      r_db r' = (r_db r <| functions ::= <[fn_ID fn := g]> |>)
  end.
Proof.
  intros Hne. unfold set. rewrite bool_decide_eq_false_2 by done. cbv zeta.
  destruct (InsertFunction _ _ _ _) as [[d g]|e] eqn:E.
  - apply InsertFunction_ok in E as (_ & _ & _ & Hg & ->). exists (timestamp now), (timestamp now). split; [exact Hg|]. rewrite Hg. by destruct publish.
  - destruct (GetFunction _ _); [|done]. destruct (UpdateFunction _ _ _ _) as [[d g]|e2] eqn:E2; [|done].
    apply UpdateFunction_ok in E2 as (_ & _ & old & _ & Hg & ->). exists (fn_CreatedAt old), (timestamp now). split; [exact Hg|]. rewrite Hg. by destruct publish.
Qed.

Lemma set_tables newID io now fn publish w : tables_ok w -> tables_ok (w <| w_reg := fst (set newID io now fn publish (w_reg w)) |>).
Proof.
  intros [Hd Hc]. pose proof (set_coherent newID io now fn publish (w_reg w) Hc) as Hs.
  pose proof (spec_set_ok newID io now fn _ Hd) as Hok. destruct (set _ _ _ _ _ _) as [r x]. destruct Hs as [Hc' He].
  split; [|exact Hc']. unfold w_db in *. cbn. rewrite <- He in Hok. exact Hok.
Qed.

Lemma update_tables io id f w : keeps f -> tables_ok w -> tables_ok (on_db (update_deployment io id f) w).
Proof.
  intros Hf [Hd Hc]. split.
  - by apply (db_ok_update io id f).
  - intros i fn Hi. apply Hc in Hi. by destruct io.
Qed.

Lemma Get_tables id w : tables_ok w ->
  let '(r, x) := Get id (w_reg w) in tables_ok (w <| w_reg := r |>) /\ r_db r = w_db w /\ x = functions (w_db w) !! id.
Proof.
  intros [Hd Hc]. destruct (Get_coherent id (w_reg w) Hc Hd) as (H1 & H2 & H3). destruct (Get id (w_reg w)) as [r x]. cbn in *.
  split; [|done]. split; [unfold w_db; cbn; by rewrite H2 | exact H1].
Qed.

Lemma resolve_tables isUUID s w : tables_ok w ->
  tables_ok (fst (resolveFnID isUUID s w)) /\ w_db (fst (resolveFnID isUUID s w)) = w_db w /\ w_disk (fst (resolveFnID isUUID s w)) = w_disk w.
Proof.
  intros Hw. unfold resolveFnID. case_bool_decide; [done|]. destruct (isUUID _).
  - pose proof (Get_tables (trimSpace s) w Hw) as Hg. destruct (Get _ _) as [r x]. destruct Hg as (H1 & H2 & _). by destruct x.
  - by destruct w.
Qed.

Lemma find_tables isUUID s w : tables_ok w ->
  let '(w', x) := find_function isUUID s w in
  tables_ok w' /\ w_db w' = w_db w /\ w_disk w' = w_disk w /\ w_jobs w' = w_jobs w /\
  match x with Reply fn => functions (w_db w) !! fn_ID fn = Some fn | Refuse _ _ => True end.
Proof.
  intros Hw. unfold find_function. case_bool_decide; [done|]. destruct (resolve_tables isUUID s w Hw) as (H1 & H2 & H3).
  pose proof (resolve_quiet isUUID s w) as [_ Hj].
  destruct (resolveFnID isUUID s w) as [w' [id|]]; [|done]. cbn [fst] in *.
  pose proof (Get_tables id w' H1) as Hg. destruct (Get id (w_reg w')) as [r x]. destruct Hg as (G1 & G2 & G3). split; [exact G1|].
  split; [unfold w_db at 1; cbn; by rewrite G2|]. split; [done|]. split; [done|]. destruct x as [fn|]; [|done].
  rewrite <- H2. symmetry in G3. pose proof (ok_keys _ (proj1 H1) _ _ G3) as ->. exact G3.
Qed.

Lemma fail_tables io now dur job phase msg w : tables_ok w -> tables_ok (fail io now dur job phase msg w).
Proof.
  intros Hw. unfold fail, UpdateDeploymentPhase, FinishDeployment. cbv zeta.
  set (w1 := on_db _ w). assert (Hw1 : tables_ok w1) by (by apply update_tables). set (w2 := on_db _ w1).
  assert (Hw2 : tables_ok w2) by (by apply update_tables). exact Hw2.
Qed.

(* ------------------------------------------------------------------ *)
(** ** What serves a function *)

(** What the table says of each function: its code hash and its deployment. *)
Definition record_of (fn : Function_) : string * string := (fn_CodeHash fn, fn_ActiveDeploymentID fn).
Definition recorded (w : world) : gmap string (string * string) := record_of <$> functions (w_db w).

(** Nothing was ever deployed, or: the link points at the recorded version,
    which is complete on disk, and the recorded deployment is one of this
    function's, succeeded, with that hash. *)
Definition serving (f : string) (x : string * string) (w : world) : Prop :=
  (x = (EmptyString, EmptyString) /\ current (dir_of f (w_disk w)) = None) \/
  (isHexHash x.1 = true /\ current (dir_of f (w_disk w)) = Some ("versions/" ++ x.1)%string /\
   version_ready f x.1 (w_disk w) = true /\
   exists dep, dep ∈ deployments (w_db w) /\ d_ID dep = x.2 /\ d_FunctionID dep = f /\ d_Status dep = "succeeded"%string /\ d_CodeHash dep = x.1).

(** A move that works on the function [g] and the deployment [d] leaves the
    others as they are. *)
Record frame (g d : option string) (w w' : world) : Prop := {
  fr_rec : forall f, Some f <> g -> recorded w' !! f = recorded w !! f;
  fr_cur : forall f, Some f <> g -> current (dir_of f (w_disk w')) = current (dir_of f (w_disk w));
  fr_ready : forall f h, Some f <> g -> version_ready f h (w_disk w) = true -> version_ready f h (w_disk w') = true;
  fr_rows : forall dep, dep ∈ deployments (w_db w) -> Some (d_ID dep) <> d -> Some (d_FunctionID dep) <> g -> dep ∈ deployments (w_db w');
  fr_ids : forall dep, dep ∈ deployments (w_db w) -> is_Some (recorded w' !! d_FunctionID dep) ->
           exists dep', dep' ∈ deployments (w_db w') /\ d_ID dep' = d_ID dep /\ d_FunctionID dep' = d_FunctionID dep;
  fr_own : forall dep, dep ∈ deployments (w_db w) -> Some (d_ID dep) = d -> d_Status dep = "queued"%string;
  fr_new : forall f, is_Some (recorded w' !! f) -> is_Some (recorded w !! f);
  fr_disk : forall f, is_Some (w_disk w' !! f) -> is_Some (w_disk w !! f) \/ is_Some (recorded w !! f);
  fr_succ : forall dep, dep ∈ deployments (w_db w') -> d_Status dep = "succeeded"%string -> isHexHash (d_CodeHash dep) = true \/ dep ∈ deployments (w_db w) }.

(** A queued build's row is in the table as long as its function is. *)
Definition job_row (job : BuildJob) (w : world) (used : gset string) : Prop :=
  j_FunctionID job ∈ used /\
  (is_Some (recorded w !! j_FunctionID job) ->
   exists dep, dep ∈ deployments (w_db w) /\ d_ID dep = j_DeploymentID job /\ d_FunctionID dep = j_FunctionID job).

Definition thread_fact (t : thread) (w : world) (used : gset string) : Prop :=
  match t with
  | TUpdate _ | TCollect _ _ | TRollback _ _ => True
  | TDeploy _ f _ _ => f ∈ used
  | TTaken job => job_row job w used
  | TBuild job fn => job_row job w used /\ fn_ID fn = j_FunctionID job /\ recorded w !! j_FunctionID job = Some (record_of fn)
  | TPersist job b fn =>
    job_row job w used /\ fn_ID fn = j_FunctionID job /\ is_Some (recorded w !! j_FunctionID job) /\
    isHexHash (b_CodeHash b) = true /\ version_ready (j_FunctionID job) (b_CodeHash b) (w_disk w) = true
  | TActivate job hash fn =>
    fn_ID fn = j_FunctionID job /\ isHexHash hash = true /\ version_ready (j_FunctionID job) hash (w_disk w) = true /\
    recorded w !! j_FunctionID job = Some (hash, j_DeploymentID job) /\
    exists dep, dep ∈ deployments (w_db w) /\ d_ID dep = j_DeploymentID job /\ d_FunctionID dep = j_FunctionID job /\ d_CodeHash dep = hash
  | TPromote fn t =>
    isHexHash (tg_hash t) = true /\ version_ready (fn_ID fn) (tg_hash t) (w_disk w) = true /\ is_Some (recorded w !! fn_ID fn) /\
    exists dep, dep ∈ deployments (w_db w) /\ d_ID dep = tg_deployment t /\ d_FunctionID dep = fn_ID fn /\
      d_Status dep = "succeeded"%string /\ d_CodeHash dep = tg_hash t
  end.

(** Between a build's row and its link. *)
Definition activates (t : thread) : option string := match t with TActivate job _ _ => Some (j_FunctionID job) | _ => None end.

Record site_ok (m : machine) : Prop := {
  so_tables : tables_ok (m_world m);
  so_ledger : ledger_ok (ledger_of m);
  so_locks : exclusive m;
  so_ids : forall f, is_Some (recorded (m_world m) !! f) -> f ∈ m_used m /\ f <> EmptyString;
  so_disk : forall f, is_Some (w_disk (m_world m) !! f) -> f ∈ m_used m;
  so_succ : forall dep, dep ∈ deployments (w_db (m_world m)) -> d_Status dep = "succeeded"%string -> isHexHash (d_CodeHash dep) = true;
  so_jobs : Forall (fun job => job_row job (m_world m) (m_used m)) (w_jobs (m_world m));
  so_threads : forall tid t, m_threads m !! tid = Some t -> thread_fact t (m_world m) (m_used m);
  so_serving : forall f x, recorded (m_world m) !! f = Some x -> f ∉ marks activates (m_threads m) -> serving f x (m_world m) }.

(* ------------------------------------------------------------------ *)
(** ** Frames keep the facts about the rest *)

Lemma job_row_frame g d w w' job used used' : frame g d w w' -> used ⊆ used' -> job_row job w used -> job_row job w' used'.
Proof.
  intros Hf Hu [Hin Hr]. split; [set_solver|]. intros Hs. destruct (Hr (fr_new _ _ _ _ Hf _ Hs)) as (dep & Hdep & Hid & Hfn).
  destruct (fr_ids _ _ _ _ Hf dep Hdep) as (dep' & H1 & H2 & H3); [by rewrite Hfn|]. exists dep'. split; [done|]. split; congruence.
Qed.

Lemma fact_frame g d w w' t used used' :
  frame g d w w' -> used ⊆ used' -> (forall f, holds t = Some f -> g <> Some f) -> (forall id, owns t = Some id -> d <> Some id) ->
  thread_fact t w used -> thread_fact t w' used'.
Proof.
  intros Hf Hu Hg Hd. destruct t as [fn|depID f v ar|job|job fn|job b fn|job hash fn|fn rq|fn tg|f l]; cbn in *; try done.
  - set_solver.
  - by eapply job_row_frame.
  - intros (H1 & H2 & H3). split; [by eapply job_row_frame|]. split; [done|]. rewrite (fr_rec _ _ _ _ Hf); [done | by apply not_eq_sym, Hg].
  - intros (H1 & H2 & H3 & H4 & H5). split; [by eapply job_row_frame|]. split; [done|].
    rewrite (fr_rec _ _ _ _ Hf) by (by apply not_eq_sym, Hg). split; [done|]. split; [done|]. apply (fr_ready _ _ _ _ Hf); [by apply not_eq_sym, Hg | done].
  - intros (H1 & H2 & H3 & H4 & dep & H5 & H6 & H7 & H8). split; [done|]. split; [done|].
    split; [apply (fr_ready _ _ _ _ Hf); [by apply not_eq_sym, Hg | done]|]. rewrite (fr_rec _ _ _ _ Hf) by (by apply not_eq_sym, Hg). split; [done|].
    exists dep. split; [|done]. apply (fr_rows _ _ _ _ Hf); [done | rewrite H6; by apply not_eq_sym, Hd | rewrite H7; by apply not_eq_sym, Hg].
  - intros (H1 & H2 & H3 & dep & H4 & H5 & H6 & H7 & H8). split; [done|]. split; [apply (fr_ready _ _ _ _ Hf); [by apply not_eq_sym, Hg | done]|].
    rewrite (fr_rec _ _ _ _ Hf) by (by apply not_eq_sym, Hg). split; [done|]. exists dep. split; [|done]. apply (fr_rows _ _ _ _ Hf); [done | | rewrite H6; by apply not_eq_sym, Hg].
    intros He. pose proof (fr_own _ _ _ _ Hf _ H4 He). congruence.
Qed.

Lemma serving_frame g d w w' f x : frame g d w w' -> Some f <> g -> serving f x w -> serving f x w'.
Proof.
  intros Hf Hg [[-> Hc]|(H1 & H2 & H3 & dep & H4 & H5 & H6 & H7 & H8)].
  - left. by rewrite (fr_cur _ _ _ _ Hf).
  - right. rewrite (fr_cur _ _ _ _ Hf) by done. split; [done|]. split; [done|]. split; [by apply (fr_ready _ _ _ _ Hf)|].
    exists dep. split; [|done]. apply (fr_rows _ _ _ _ Hf); [done | | congruence].
    intros He. pose proof (fr_own _ _ _ _ Hf _ H4 He). congruence.
Qed.

Lemma frame_jobs g d w w' used used' : frame g d w w' -> used ⊆ used' ->
  Forall (fun job => job_row job w used) (w_jobs w) -> Forall (fun job => job_row job w' used') (w_jobs w).
Proof. intros Hf Hu Hj. eapply Forall_impl; [exact Hj|]. intros job. by eapply job_row_frame. Qed.

(** A move that touches one deployment's row. *)
Lemma frame_of_effect g b id w w' : effect b id w w' ->
  (forall f, Some f <> g -> recorded w' !! f = recorded w !! f) -> (forall f, is_Some (recorded w' !! f) -> is_Some (recorded w !! f)) ->
  (forall f, Some f <> g -> current (dir_of f (w_disk w')) = current (dir_of f (w_disk w))) ->
  (forall f h, version_ready f h (w_disk w) = true -> version_ready f h (w_disk w') = true) ->
  (forall f, is_Some (w_disk w' !! f) -> is_Some (w_disk w !! f) \/ is_Some (recorded w !! f)) ->
  (forall dep, dep ∈ deployments (w_db w) -> d_ID dep = id -> d_Status dep = "queued"%string) ->
  (forall dep, dep ∈ deployments (w_db w') -> d_ID dep = id -> d_Status dep = "succeeded"%string -> isHexHash (d_CodeHash dep) = true) ->
  frame g (Some id) w w'.
Proof.
  intros [Hj (r & [Kg Sg] & Hrows)] Hrec Hnew Hcur Hready Hdisk Hq Hhex.
  assert (Hin : forall dep, dep ∈ deployments (w_db w') <-> exists x, x ∈ deployments (w_db w) /\ dep = if bool_decide (d_ID x = id) then r x else x).
  { intros dep. rewrite Hrows. unfold map_row. rewrite list_elem_of_fmap. split; intros (x & H1 & H2); eauto. }
  split; auto.
  - intros dep Hdep Hne _. apply Hin. exists dep. split; [done|]. rewrite bool_decide_eq_false_2; [done|]. congruence.
  - intros dep Hdep _. exists (if bool_decide (d_ID dep = id) then r dep else dep). split; [apply Hin; eauto|].
    case_bool_decide; [apply Kg | done].
  - intros dep Hdep [= He]. eauto.
  - intros dep Hdep Hs. destruct (decide (d_ID dep = id)) as [He|He]; [left; eauto|]. right. apply Hin in Hdep as (x & Hx & ->).
    revert He Hs. case_bool_decide as Hx'; [|done]. intros He. destruct He. by destruct (Kg x) as [-> _].
Qed.

Lemma frame_same w w' : recorded w' = recorded w -> w_disk w' = w_disk w -> deployments (w_db w') = deployments (w_db w) -> frame None None w w'.
Proof.
  intros Hrec Hdisk Hrows. split; rewrite ?Hrec, ?Hdisk, ?Hrows; auto.
  - intros dep Hd _. eauto.
  - intros dep _ [=].
Qed.

(* ------------------------------------------------------------------ *)
(** ** One step of one thread *)

Lemma marks_delete_ne f tid ts x : x ∉ marks f (delete tid ts) -> forall tid2 t2, ts !! tid2 = Some t2 -> tid2 <> tid -> f t2 <> Some x.
Proof.
  intros Hn tid2 t2 Ht Hne Hf. apply Hn, elem_of_marks. exists tid2, t2. by rewrite lookup_delete_ne.
Qed.

Lemma owner_alone m tid t id : NoDup (pending_in (m_world m) (m_threads m)) -> m_threads m !! tid = Some t -> owns t = Some id ->
  id ∉ marks owns (delete tid (m_threads m)).
Proof.
  unfold pending_in. rewrite NoDup_app. intros (_ & _ & Hn) Ht Ho. rewrite (marks_delete owns tid t _ Ht), Ho in Hn. cbn in Hn. by apply NoDup_cons in Hn as [? _].
Qed.

Lemma holder_alone m tid t f : exclusive m -> m_threads m !! tid = Some t -> holds t = Some f -> f ∉ marks holds (delete tid (m_threads m)).
Proof.
  unfold exclusive. intros Hn Ht Ho. rewrite (marks_delete holds tid t _ Ht), Ho in Hn. cbn in Hn. by apply NoDup_cons in Hn as [? _].
Qed.

Definition opt_fact (t : option thread) (w : world) (used : gset string) : Prop := match t with Some t => thread_fact t w used | None => True end.

Lemma site_step m tid t w' t' g d :
  site_ok m -> m_threads m !! tid = Some t -> frame g d (m_world m) w' ->
  tables_ok w' -> ledger_ok (ledger_of (MkMachine w' (put_thread tid t' (m_threads m)) (m_used m))) ->
  exclusive (MkMachine w' (put_thread tid t' (m_threads m)) (m_used m)) ->
  (forall f, g = Some f -> f ∉ marks holds (delete tid (m_threads m))) -> (forall id, d = Some id -> owns t = Some id) ->
  (forall f, activates t = Some f -> g = Some f) ->
  opt_fact t' w' (m_used m) -> Forall (fun job => job_row job w' (m_used m)) (w_jobs w') ->
  (forall f x, g = Some f -> recorded w' !! f = Some x -> t' ≫= activates <> Some f -> serving f x w') ->
  site_ok (MkMachine w' (put_thread tid t' (m_threads m)) (m_used m)).
Proof.
  intros Hm Ht Hf Htab Hled Hex Hg Hd Hact Hfact Hjobs Hserve. split; cbn; [done | done | done | | | | done | |].
  - intros f Hs. apply (so_ids _ Hm). by apply (fr_new _ _ _ _ Hf).
  - intros f [Hs|Hs]%(fr_disk _ _ _ _ Hf); [by apply (so_disk _ Hm) | by apply (so_ids _ Hm)].
  - intros dep Hdep Hs. destruct (fr_succ _ _ _ _ Hf dep Hdep Hs); [done | by apply (so_succ _ Hm)].
  - assert (Hother : forall tid2 t2, delete tid (m_threads m) !! tid2 = Some t2 -> thread_fact t2 w' (m_used m)).
    { intros tid2 t2 [Hne Ht2]%lookup_delete_Some. eapply fact_frame; [exact Hf | done | | | by apply (so_threads _ Hm tid2)].
      - intros f Hh ->. by eapply (marks_delete_ne holds tid (m_threads m) f (Hg f eq_refl) tid2 t2).
      - intros id Ho ->. eapply (marks_delete_ne owns tid (m_threads m) id); [|exact Ht2 | done | exact Ho].
        eapply owner_alone; [apply (so_ledger _ Hm) | exact Ht | by apply Hd]. }
    intros tid2 t2. destruct t' as [t'|]; cbn; [|apply Hother]. rewrite <- insert_delete_eq. intros [[_ <-]|[_ Ht2]]%lookup_insert_Some; [done | eauto].
  - intros f x Hx Hna. rewrite (marks_put activates tid t t' _ Ht) in Hna. apply not_elem_of_app in Hna as [Hna1 Hna2].
    destruct (decide (g = Some f)) as [Hgf|Hgf].
    + apply Hserve; [done | done |]. intros He. apply Hna1. rewrite He. left.
    + eapply serving_frame; [exact Hf | congruence |]. apply (so_serving _ Hm); [rewrite <- (fr_rec _ _ _ _ Hf) by congruence; done|].
      rewrite (marks_delete activates tid t _ Ht). apply not_elem_of_app. split; [|done]. destruct (activates t) as [f'|] eqn:Ea; [|apply not_elem_of_nil].
      cbn. intros ->%list_elem_of_singleton. apply Hgf. by apply Hact.
Qed.

(* ------------------------------------------------------------------ *)
(** ** What the moves write *)

Lemma recorded_insert id fn w r : r_db r = (w_db w <| functions ::= <[id := fn]> |>) ->
  recorded (w <| w_reg := r |>) = <[id := record_of fn]> (recorded w).
Proof. intros Hr. unfold recorded, w_db in *. cbn. rewrite Hr. cbn. apply fmap_insert. Qed.

(** A write leaves the records alone, or replaces the function's. *)
Lemma set_recorded newID io now fn publish w : fn_ID fn <> EmptyString ->
  let '(r, x) := set newID io now fn publish (w_reg w) in
  deployments (r_db r) = deployments (w_db w) /\
  match x with
  | Err _ => recorded (w <| w_reg := r |>) = recorded w
  | Ok g => recorded (w <| w_reg := r |>) = <[fn_ID fn := record_of fn]> (recorded w) /\ record_of g = record_of fn /\ fn_ID g = fn_ID fn
  end.
Proof.
  intros Hne. pose proof (set_rows newID io now fn publish (w_reg w)) as Hrows. pose proof (set_spec newID io now fn publish (w_reg w) Hne) as Hs.
  destruct (set _ _ _ _ _ _) as [r [g|e]]; (split; [exact Hrows|]).
  - destruct Hs as (c & u & Hg & Hdb). rewrite (recorded_insert _ _ _ _ Hdb). by rewrite Hg.
  - by subst.
Qed.

(** Writing back what is recorded changes no record. *)
Lemma set_same newID io now fn publish w : fn_ID fn <> EmptyString -> recorded w !! fn_ID fn = Some (record_of fn) ->
  let '(r, x) := set newID io now fn publish (w_reg w) in
  recorded (w <| w_reg := r |>) = recorded w /\ match x with Ok g => record_of g = record_of fn /\ fn_ID g = fn_ID fn | Err _ => True end.
Proof.
  intros Hne Hrec. pose proof (set_recorded newID io now fn publish w Hne) as Hs. destruct (set _ _ _ _ _ _) as [r [g|e]].
  - destruct Hs as (_ & -> & Hg). split; [by apply insert_id | exact Hg].
  - by destruct Hs.
Qed.

Lemma recorded_on_db f w : (forall d, functions (f d) = functions d) -> recorded (on_db f w) = recorded w.
Proof. intros Hf. unfold recorded, w_db. cbn. by rewrite Hf. Qed.

Lemma functions_update io id f d : functions (update_deployment io id f d) = functions d.
Proof. by destruct io. Qed.

Lemma recorded_fail io now dur job phase msg w : recorded (fail io now dur job phase msg w) = recorded w /\ w_disk (fail io now dur job phase msg w) = w_disk w.
Proof.
  split; [|done]. unfold fail. cbv zeta. unfold recorded, w_db. cbn. unfold FinishDeployment, UpdateDeploymentPhase. by rewrite !functions_update.
Qed.

Lemma recorded_lookup w f fn : functions (w_db w) !! f = Some fn -> recorded w !! f = Some (record_of fn).
Proof. intros Hf. unfold recorded. by rewrite lookup_fmap, Hf. Qed.

(* ------------------------------------------------------------------ *)
(** ** The parts of a job that record nothing *)

Definition unsucceeded (id : string) (w : world) : Prop :=
  forall dep, dep ∈ deployments (w_db w) -> d_ID dep = id -> d_Status dep <> "succeeded"%string.

Record recordless (id : string) (w w' : world) : Prop := {
  rl_tables : tables_ok w -> tables_ok w';
  rl_rec : recorded w' = recorded w;
  rl_status : unsucceeded id w -> unsucceeded id w';
  rl_effect : effect true id w w' }.

Lemma recordless_trans id w1 w2 w3 : recordless id w1 w2 -> recordless id w2 w3 -> recordless id w1 w3.
Proof. intros [A1 A2 A3 A4] [B1 B2 B3 B4]. split; [auto | congruence | auto | by eapply effect_trans]. Qed.

Lemma unsucceeded_update io id f w : keeps f -> (forall x, d_Status x <> "succeeded"%string -> d_Status (f x) <> "succeeded"%string) ->
  unsucceeded id w -> unsucceeded id (on_db (update_deployment io id f) w).
Proof.
  intros Kf Hs Hu. destruct io; [exact Hu|]. intros dep (x & -> & Hx)%list_elem_of_fmap. case_bool_decide as He; [|by apply Hu].
  intros _. apply Hs. by apply Hu.
Qed.

(** What an update makes of the row itself. *)
Lemma updated_row (io : bool) id f w dep : dep ∈ deployments (w_db w) -> d_ID dep = id ->
  (if io then dep else f dep) ∈ deployments (w_db (on_db (update_deployment io id f) w)).
Proof.
  intros Hdep Hid. destruct io; [done|]. apply list_elem_of_fmap. exists dep. by rewrite (bool_decide_eq_true_2 _ Hid).
Qed.

Lemma recordless_update io id f w : row_change true f -> (forall x, d_Status x <> "succeeded"%string -> d_Status (f x) <> "succeeded"%string) ->
  recordless id w (on_db (update_deployment io id f) w).
Proof.
  intros Hf Hs. split.
  - apply update_tables, Hf.
  - apply recorded_on_db. intros d. apply functions_update.
  - apply unsucceeded_update; [apply Hf | done].
  - by apply effect_update.
Qed.

Lemma recordless_same id w w' : (tables_ok w -> tables_ok w') -> recorded w' = recorded w -> quiet w w' -> recordless id w w'.
Proof. intros Ht Hr Hq. split; [done | done | | by apply effect_quiet]. intros Hu dep. destruct Hq as [-> _]. apply Hu. Qed.

Lemma weaken_change f : row_change false f -> row_change true f.
Proof. intros [Kf Sf]. split; [done|]. intros dep. by rewrite Sf. Qed.

Lemma recordless_phase io now id phase w : recordless id w (on_db (UpdateDeploymentPhase io now id phase) w).
Proof. by apply recordless_update; [apply weaken_change, phase_change|]. Qed.

Lemma recordless_fail io now dur job phase msg w : recordless (j_DeploymentID job) w (fail io now dur job phase msg w).
Proof.
  unfold fail. cbv zeta. set (w1 := on_db _ w). apply (recordless_trans _ _ w1); [apply recordless_phase|].
  set (w2 := on_db _ w1). apply (recordless_trans _ _ w2).
  - apply recordless_update; [apply finish_change; right; right; left | done].
  - by apply recordless_same.
Qed.

Lemma recordless_set id newID io now fn publish w : fn_ID fn <> EmptyString -> recorded w !! fn_ID fn = Some (record_of fn) ->
  recordless id w (w <| w_reg := fst (set newID io now fn publish (w_reg w)) |>).
Proof.
  intros Hne Hrec. apply recordless_same; [by apply set_tables | | apply set_quiet].
  pose proof (set_same newID io now fn publish w Hne Hrec) as Hs. destruct (set _ _ _ _ _ _) as [r x]. apply Hs.
Qed.

Lemma recordless_frame id w w' : recordless id w w' -> w_disk w' = w_disk w -> unsucceeded id w ->
  (forall dep, dep ∈ deployments (w_db w) -> d_ID dep = id -> d_Status dep = "queued"%string) -> frame None (Some id) w w'.
Proof.
  intros [H1 H2 H3 H4] Hdisk Hu Hq. eapply frame_of_effect; [exact H4 | | | | | | done |]; rewrite ?H2, ?Hdisk; auto.
  intros dep Hdep Hid Hs. by destruct (H3 Hu dep Hdep Hid).
Qed.

Lemma start_recordless io now job w : tables_ok w -> (is_Some (recorded w !! j_FunctionID job) -> j_FunctionID job <> EmptyString) ->
  let '(w', x) := job_start io now job w in
  recordless (j_DeploymentID job) w w' /\ w_disk w' = w_disk w /\
  match x with Some fn => fn_ID fn = j_FunctionID job /\ recorded w !! j_FunctionID job = Some (record_of fn) | None => True end.
Proof.
  intros Hw Hne. unfold job_start. pose proof (Get_tables (j_FunctionID job) w Hw) as Hg. destruct (Get _ _) as [r [fn|]]; destruct Hg as (G1 & G2 & G3).
  - symmetry in G3. pose proof (ok_keys _ (proj1 Hw) _ _ G3) as Hid. pose proof (recorded_lookup _ _ _ G3) as Hrec.
    assert (H0 : recordless (j_DeploymentID job) w (w <| w_reg := r |>)).
    { apply recordless_same; [done | |]; [unfold recorded, w_db in *; cbn; by rewrite G2 | split; [unfold w_db in *; cbn; by rewrite G2 | done]]. }
    cbv zeta. set (w0 := w <| w_reg := r |>) in *. set (w1 := on_db _ w0).
    assert (H1 : recordless (j_DeploymentID job) w w1) by (eapply recordless_trans; [exact H0 | apply recordless_phase]).
    case_bool_decide; [|done]. unfold SetSilent. set (fn' := fn <| fn_Status := "building"%string |>).
    assert (Hrec' : recorded w1 !! fn_ID fn' = Some (record_of fn')).
    { rewrite (rl_rec _ _ _ H1). change (fn_ID fn') with (fn_ID fn). by rewrite Hid. }
    assert (Hne' : fn_ID fn' <> EmptyString) by (change (fn_ID fn') with (fn_ID fn); rewrite Hid; apply Hne; by rewrite Hrec).
    pose proof (recordless_set (j_DeploymentID job) EmptyString (ji_set io) now fn' false w1 Hne' Hrec') as H2.
    pose proof (set_same EmptyString (ji_set io) now fn' false w1 Hne' Hrec') as H3.
    destruct (set _ _ _ _ _ _) as [r' [g|e]]; cbn [fst] in H2; (split; [by eapply recordless_trans|]); (split; [done|]).
    + destruct H3 as (_ & H3 & H4). rewrite H3, H4. done.
    + done.
  - split; [|done]. eapply recordless_trans; [|apply recordless_fail].
    apply recordless_same; [done | |]; [unfold recorded, w_db in *; cbn; by rewrite G2 | split; [unfold w_db in *; cbn; by rewrite G2 | done]].
Qed.

(** A build grows the disk and moves no link. *)
Lemma job_build_spec H dataDir a io now dur job fn w : fn_ID fn = j_FunctionID job -> fn_ID fn <> EmptyString ->
  recorded w !! j_FunctionID job = Some (record_of fn) ->
  let '(w', x) := job_build H dataDir a io now dur job fn w in
  recordless (j_DeploymentID job) w w' /\
  (forall f h, version_ready f h (w_disk w) = true -> version_ready f h (w_disk w') = true) /\
  (forall f, current (dir_of f (w_disk w')) = current (dir_of f (w_disk w))) /\
  (forall f, is_Some (w_disk w' !! f) -> is_Some (w_disk w !! f) \/ f = j_FunctionID job) /\
  match x with Some b => isHexHash (b_CodeHash b) = true /\ version_ready (j_FunctionID job) (b_CodeHash b) (w_disk w') = true | None => True end.
Proof.
  intros Hid Hne Hrec. unfold job_build. cbv zeta. set (w1 := on_db _ w).
  assert (H1 : recordless (j_DeploymentID job) w w1) by apply recordless_phase.
  change (w_disk w1) with (w_disk w). set (a' := attempt_of job a).
  pose proof (Build_spec H dataDir a' fn (w_disk w)) as Hs. pose proof (fun f => Build_dom H dataDir a' fn (w_disk w) f) as Hdom. rewrite <- Hid.
  destruct (Build _ _ _ _ _) as [[c k] r]. destruct Hs as (Hkeep & Hcur & Hr).
  assert (Hready : forall f h, version_ready f h (w_disk w) = true -> version_ready f h k = true).
  { intros f h Hv. unfold version_ready in *. destruct (versions (dir_of f (w_disk w)) !! h) as [v|] eqn:Ev; [|done]. by rewrite (Hkeep _ _ _ Ev Hv). }
  assert (H2 : recordless (j_DeploymentID job) w (w1 <| w_disk := k |>)).
  { eapply recordless_trans; [exact H1|]. by apply recordless_same. }
  destruct r as [b|e].
  - destruct Hr as (archive & entry & _ & Hh & Hv & _). rewrite Hh in *.
    exact (conj H2 (conj Hready (conj Hcur (conj Hdom (conj (build_hash_is_hash _ _ _) Hv))))).
  - set (w3 := fail _ _ _ _ _ _ _). assert (H3 : recordless (j_DeploymentID job) w w3) by (eapply recordless_trans; [exact H2 | apply recordless_fail]).
    case_bool_decide; [|exact (conj H3 (conj Hready (conj Hcur (conj Hdom I))))]. unfold SetSilent. set (fn' := fn <| fn_Status := "error"%string |>).
    assert (Hrec' : recorded w3 !! fn_ID fn' = Some (record_of fn')) by (rewrite (rl_rec _ _ _ H3); change (fn_ID fn') with (fn_ID fn); by rewrite Hid).
    pose proof (recordless_set (j_DeploymentID job) EmptyString (ji_set io) now fn' false w3 Hne Hrec') as H4.
    destruct (set _ _ _ _ _ _) as [r' g]. cbn [fst] in H4. exact (conj (recordless_trans _ _ _ _ H3 H4) (conj Hready (conj Hcur (conj Hdom I)))).
Qed.

(** The row is written and the deployment stamped, or nothing is recorded. *)
Lemma job_persist_spec io now dur job b fn w : ji_hash io = false -> fn_ID fn = j_FunctionID job -> fn_ID fn <> EmptyString ->
  let '(w', x) := job_persist io now dur job b fn w in
  (tables_ok w -> tables_ok w') /\ w_disk w' = w_disk w /\
  match x with
  | None => recordless (j_DeploymentID job) w w'
  | Some g =>
    fn_ID g = fn_ID fn /\ recorded w' = <[j_FunctionID job := (b_CodeHash b, j_DeploymentID job)]> (recorded w) /\
    (unsucceeded (j_DeploymentID job) w -> unsucceeded (j_DeploymentID job) w') /\
    (forall dep, dep ∈ deployments (w_db w) -> d_ID dep = j_DeploymentID job ->
       exists dep', dep' ∈ deployments (w_db w') /\ d_ID dep' = d_ID dep /\ d_FunctionID dep' = d_FunctionID dep /\ d_CodeHash dep' = b_CodeHash b)
  end.
Proof.
  intros Hio Hid Hne. unfold job_persist, SetSilent. set (p := built_function job b fn).
  pose proof (set_tables EmptyString (ji_set io) now p false w) as Ht. pose proof (set_recorded EmptyString (ji_set io) now p false w Hne) as Hs.
  pose proof (set_quiet EmptyString (ji_set io) now p false w) as Hq. destruct (set _ _ _ _ _ _) as [r [g|e]]; cbn [fst] in Ht, Hq; destruct Hs as [Hrows Hs].
  - destruct Hs as (Hrec & _ & Hg). rewrite Hio. set (w1 := w <| w_reg := r |>) in *. set (w2 := on_db _ w1). set (w3 := on_db _ w2).
    assert (Hrec3 : recorded w3 = recorded w1).
    { unfold w3, w2. rewrite !recorded_on_db; [done | |]; intros d; apply functions_update. }
    split. { intros Hw. unfold w3. apply update_tables; [apply snapshot_change|]. unfold w2. apply update_tables; [apply hash_change|]. auto. }
    split; [done|]. split; [exact Hg|]. split; [rewrite Hrec3, Hrec, <- Hid; reflexivity|]. split.
    + intros Hu. apply unsucceeded_update; [apply snapshot_change | done |]. apply unsucceeded_update; [apply hash_change | done |].
      intros dep. unfold w_db in *. cbn. rewrite Hrows. apply Hu.
    + intros dep Hdep Hd. assert (H1 : dep ∈ deployments (w_db w1)) by (unfold w_db in *; cbn; by rewrite Hrows).
      pose proof (updated_row false _ (fun x => x <| d_CodeHash := b_CodeHash b |>) w1 dep H1 Hd) as H2. cbn [negb] in H2.
      pose proof (updated_row (ji_snapshot io) _ (fun x => x <| d_Snapshot := Some (SnapshotFromFunction g) |>) w2 _ H2 Hd) as H3.
      eexists. split; [exact H3|]. by destruct (ji_snapshot io).
  - split; [intros Hw; by apply fail_tables, Ht|]. split; [done|]. eapply recordless_trans; [|apply recordless_fail]. by apply recordless_same.
Qed.

(* ------------------------------------------------------------------ *)
(** ** Submission, activation, rollback, collection *)

Lemma map_row_fresh id g rows : id ∉ d_ID <$> rows -> map_row id g rows = rows.
Proof.
  induction rows as [|x l IH]; [done|]. rewrite fmap_cons, not_elem_of_cons. intros [Hx Hl]. unfold map_row in *. cbn. rewrite IH by done.
  by rewrite bool_decide_eq_false_2.
Qed.

Lemma update_last (io : bool) id f rows dep d : deployments d = rows ++ [dep] -> d_ID dep = id -> id ∉ d_ID <$> rows ->
  deployments (update_deployment io id f d) = rows ++ [if io then dep else f dep].
Proof.
  intros Hd Hid Hn. destruct io; [done|]. cbn. rewrite Hd, map_app. change (map _ rows) with (map_row id f rows).
  rewrite map_row_fresh by done. cbn. by rewrite bool_decide_eq_true_2.
Qed.

(** The new row, if any, belongs to the function and has not succeeded. *)
Lemma enqueue_spec depID fnID version archive io io_finish now w : tables_ok w ->
  let w' := fst (enqueue depID fnID version archive io io_finish now w) in
  tables_ok w' /\ recorded w' = recorded w /\ w_disk w' = w_disk w /\
  (deployments (w_db w') = deployments (w_db w) /\ w_jobs w' = w_jobs w \/
   exists dep, deployments (w_db w') = deployments (w_db w) ++ [dep] /\ d_ID dep = depID /\ d_FunctionID dep = fnID /\
     d_Status dep <> "succeeded"%string /\ (w_jobs w' = w_jobs w \/ w_jobs w' = w_jobs w ++ [MkJob depID fnID archive])).
Proof.
  intros Hw. unfold enqueue. destruct (InsertDeployment _ _ _ _) as [d|e] eqn:E; [|split; [done|]; split; [done|]; split; [done|]; by left].
  pose proof (db_ok_insert_deployment _ _ _ _ _ E (proj1 Hw)) as Hdb.
  assert (Hd : exists dep, d_ID dep = depID /\ d_FunctionID dep = fnID /\ d_Status dep = "queued"%string /\ (depID ∉ d_ID <$> deployments (w_db w)) /\
                deployments d = deployments (w_db w) ++ [dep] /\ functions d = functions (w_db w)).
  { pose proof (InsertDeployment_rows _ _ _ _ _ E) as [Hnew _]. revert E. unfold InsertDeployment. destruct io; [done|].
    destruct (existsb _ _); [done|]. destruct (negb _); [done|]. intros [= <-].
    exists (MkDeployment depID fnID version "queued" "queued" EmptyString (timestamp now) None None None EmptyString "deploy" None None).
    do 3 (split; [reflexivity|]). split; [exact Hnew|]. by split. }
  destruct Hd as (dep & H1 & H2 & H3 & H4 & H5 & H6). cbv zeta. set (w1 := on_db _ w).
  assert (Hw1 : tables_ok w1). { split; [exact Hdb|]. intros i fn Hi. cbn. rewrite H6. by apply (proj2 Hw). }
  assert (Hrec : recorded w1 = recorded w) by (unfold recorded, w_db; cbn; by rewrite H6).
  assert (Hfin : forall msg, let w' := on_db (FinishDeployment io_finish now depID "failed" msg 0) w1 in
    tables_ok w' /\ recorded w' = recorded w /\ w_disk w' = w_disk w /\
    (deployments (w_db w') = deployments (w_db w) /\ w_jobs w' = w_jobs w \/
     exists dep, deployments (w_db w') = deployments (w_db w) ++ [dep] /\ d_ID dep = depID /\ d_FunctionID dep = fnID /\
       d_Status dep <> "succeeded"%string /\ (w_jobs w' = w_jobs w \/ w_jobs w' = w_jobs w ++ [MkJob depID fnID archive]))).
  { intros msg w'. pose proof (recordless_update io_finish depID _ w1 (finish_change now "failed" msg 0 ltac:(right; right; left)) ltac:(done)) as [R1 R2 R3 R4].
    split; [by apply R1|]. split; [by etransitivity|]. split; [done|]. right.
    set (fin := fun dep => dep <| d_Status := "failed"%string |> <| d_ErrorMessage := msg |> <| d_DurationMS := Some 0 |>
        <| d_FinishedAt := Some (timestamp now) |> <| d_Phase := "done"%string |>).
    exists (if io_finish then dep else fin dep).
    split; [exact (update_last io_finish depID fin _ dep d H5 H1 H4)|]. destruct io_finish; cbn; rewrite ?H3; auto. }
  unfold Submit. change (w_stopping w1) with (w_stopping w). change (w_jobs w1) with (w_jobs w).
  destruct (w_stopping w); [apply Hfin|]. destruct (_ <? _)%nat; [|apply Hfin].
  split; [exact Hw1|]. split; [exact Hrec|]. split; [done|]. right. exists dep. rewrite <- H5. rewrite H3. repeat split; auto.
Qed.

Lemma activate_cases io fnID hash k :
  (exists e, ActivateVersion io fnID hash k = (k, Some e)) \/
  exists dir, k !! fnID = Some dir /\ ActivateVersion io fnID hash k = (<[fnID := dir <| current := Some ("versions/" ++ hash)%string |>]> k, None).
Proof.
  unfold ActivateVersion. case_bool_decide; [by left; eexists|]. destruct (negb (isHexHash hash)); [by left; eexists|].
  destruct (k !! fnID) as [dir|]; [|by left; eexists]. destruct (negb io.1); [by left; eexists|]. destruct (negb io.2); [by left; eexists|]. right. eauto.
Qed.

(** Retargeting a link keeps versions, directories and other links. *)
Lemma link_moves f dir link (k : disk) : k !! f = Some dir ->
  let k' := <[f := dir <| current := Some link |>]> k in
  (forall g, g <> f -> current (dir_of g k') = current (dir_of g k)) /\ (forall g h, version_ready g h k' = version_ready g h k) /\
  (forall g, is_Some (k' !! g) -> is_Some (k !! g)) /\ current (dir_of f k') = Some link.
Proof.
  intros Hk k'. subst k'. split; [|split; [|split]].
  - intros g Hg. by rewrite dir_of_insert, bool_decide_eq_false_2.
  - intros g h. unfold version_ready. rewrite dir_of_insert. case_bool_decide; [|done]. subst. unfold dir_of. by rewrite Hk.
  - intros g. rewrite lookup_insert_is_Some. intros [<-|[_ Hg]]; [by eexists | done].
  - by rewrite dir_of_insert, bool_decide_eq_true_2.
Qed.

Lemma check_target fn req w t : tables_ok w -> rollback_check fn req w = Reply t ->
  version_ready (fn_ID fn) (tg_hash t) (w_disk w) = true /\
  exists dep, dep ∈ deployments (w_db w) /\ d_ID dep = tg_deployment t /\ d_FunctionID dep = fn_ID fn /\
    d_Status dep = "succeeded"%string /\ d_CodeHash dep = tg_hash t.
Proof.
  intros Hw. unfold rollback_check. destruct (named_target _ _ _) as [t0|s c] eqn:En; [|done]. case_bool_decide; [done|].
  cbv zeta. destruct (rollbackIsNoOp _ _ _); [done|]. set (t1 := complete_target _ _ _).
  assert (Ht1 : tg_hash t1 = tg_hash t0).
  { unfold t1, complete_target. destruct (_ || _); [|done]. by destruct (FindLatestSucceededByHash _ _ _). }
  destruct (version_ready _ _ _) eqn:Ev; [|done]. cbn [negb]. case_bool_decide as Hne; [done|]. intros [= <-]. split; [exact Ev|].
  rewrite Ht1. destruct (decide (tg_deployment t0 = EmptyString)) as [He|He].
  - unfold t1, complete_target in *. rewrite (bool_decide_eq_true_2 _ He) in *. cbn [orb] in *.
    destruct (FindLatestSucceededByHash _ _ _) as [dep|] eqn:Ef; [|by destruct Hne]. cbn. exists dep.
    apply FindLatest_in in Ef as (Hin & Hf & Hh & Hs).
    unfold or_default. rewrite (bool_decide_eq_true_2 _ He). done.
  - assert (Hd : tg_deployment t1 = tg_deployment t0).
    { unfold t1, complete_target, or_default. destruct (_ || _); [|done]. destruct (FindLatestSucceededByHash _ _ _); [|done]. cbn. by rewrite (bool_decide_eq_false_2 _ He). }
    rewrite Hd. revert En. unfold named_target. case_bool_decide; [by intros [= <-]|]. destruct (GetDeployment _ _) as [dep|] eqn:Eg; [|done].
    apply GetDeployment_Some in Eg as [Hin _]. case_bool_decide as Hf; [|done]. cbn [negb]. case_bool_decide as Hs; [|done]. intros [= <-]. cbn. eauto 10.
Qed.

(* ------------------------------------------------------------------ *)
(** ** Calm moves *)

(** A settings write puts back the records it finds; the writes that stamp and
    finish a deployment, and the link, work; a rollback's row can be written,
    its name being the function's; what the collector removes is neither
    recorded nor about to be; and the daemon is not killed between a build's
    row and its link. *)
Definition calm (a : action) (m : machine) : bool :=
  match a with
  | AMove tid mv =>
    match m_threads m !! tid, mv with
    | Some (TUpdate fn), MWrite _ _ _ => bool_decide (recorded (m_world m) !! fn_ID fn = Some (record_of fn))
    | Some (TPersist _ _ _), MPersist io _ _ => negb (ji_hash io)
    | Some (TActivate _ _ _), MActivate io _ _ => negb (ji_finish io) && bool_decide (ji_link io = (true, true))
    | Some (TPromote fn _), MPromote _ io _ =>
      negb (io_update io) && bool_decide (fn_Name <$> functions (w_db (m_world m)) !! fn_ID fn = Some (fn_Name fn))
    | Some (TCollect f l), MRemove _ =>
      negb (locked f m) && match recorded (m_world m) !! f with Some x => negb (bool_decide (x.1 ∈ l)) | None => true end
    | _, _ => true
    end
  | ARestart _ _ => bool_decide (marks activates (m_threads m) = [])
  | _ => true
  end.

Section Site.
Context (H : host) (dataDir : string) (isUUID : string -> bool).

Fixpoint calm_run (l : list action) (m : machine) : bool :=
  match l with
  | [] => true
  | a :: l => calm a m && match exec H dataDir isUUID a m with Some m' => calm_run l m' | None => true end
  end.

(** The facts every thread's move starts from. *)
Record at_step (m : machine) (tid : nat) (t : thread) : Prop := {
  as_site : site_ok m;
  as_thread : m_threads m !! tid = Some t }.

Lemma at_fact m tid t : at_step m tid t -> thread_fact t (m_world m) (m_used m).
Proof. intros [Hm Ht]. exact (so_threads _ Hm _ _ Ht). Qed.

Lemma at_queued m tid t id : at_step m tid t -> owns t = Some id ->
  forall dep, dep ∈ deployments (w_db (m_world m)) -> d_ID dep = id -> d_Status dep = "queued"%string.
Proof.
  intros [Hm Ht] Ho dep Hdep Hid. pose proof (lo_queued _ (so_ledger _ Hm)) as Hq. rewrite Forall_forall in Hq. apply (Hq dep Hdep).
  cbn. unfold pending_in. apply elem_of_app. right. rewrite Hid. apply elem_of_marks. eauto.
Qed.

Lemma at_unsucceeded m tid t id : at_step m tid t -> owns t = Some id -> unsucceeded id (m_world m).
Proof. intros Hs Ho dep Hdep Hid. by rewrite (at_queued m tid t id Hs Ho dep Hdep Hid). Qed.

Lemma at_alone m tid t f : at_step m tid t -> holds t = Some f -> f ∉ marks holds (delete tid (m_threads m)).
Proof. intros [Hm Ht]. apply holder_alone; [apply (so_locks _ Hm) | done]. Qed.

Lemma at_id m tid t f : at_step m tid t -> is_Some (recorded (m_world m) !! f) -> f <> EmptyString /\ f ∈ m_used m.
Proof. intros [Hm Ht] Hs. by destruct (so_ids _ Hm f Hs). Qed.

(** A thread's move whose records stay. *)
Lemma recordless_step m tid t t' w' id :
  at_step m tid t -> owns t = Some id -> activates t = None -> recordless id (m_world m) w' -> w_disk w' = w_disk (m_world m) ->
  ledger_ok (ledger_of (MkMachine w' (put_thread tid t' (m_threads m)) (m_used m))) ->
  exclusive (MkMachine w' (put_thread tid t' (m_threads m)) (m_used m)) ->
  opt_fact t' w' (m_used m) ->
  site_ok (MkMachine w' (put_thread tid t' (m_threads m)) (m_used m)).
Proof.
  intros Hs Ho Ha Hr Hdisk Hl He Hf. pose proof Hs as [Hm Ht].
  assert (Hfr : frame None (Some id) (m_world m) w').
  { apply recordless_frame; [done | done | by eapply at_unsucceeded | by eapply at_queued]. }
  eapply site_step; [exact Hm | exact Ht | exact Hfr | apply (rl_tables _ _ _ Hr), Hm | done | done | done | | | done | |].
  - by intros id' [= <-].
  - by rewrite Ha.
  - destruct (rl_effect _ _ _ Hr) as [Hj _]. rewrite Hj. eapply frame_jobs; [exact Hfr | done | apply Hm].
  - done.
Qed.

(** A thread's move that touches no row. *)
Lemma quiet_step m tid t t' w' g :
  at_step m tid t -> frame g None (m_world m) w' -> tables_ok w' -> w_jobs w' = w_jobs (m_world m) ->
  (forall f, g = Some f -> f ∉ marks holds (delete tid (m_threads m))) -> activates t = None ->
  ledger_ok (ledger_of (MkMachine w' (put_thread tid t' (m_threads m)) (m_used m))) ->
  exclusive (MkMachine w' (put_thread tid t' (m_threads m)) (m_used m)) ->
  opt_fact t' w' (m_used m) ->
  (forall f x, g = Some f -> recorded w' !! f = Some x -> serving f x w') ->
  site_ok (MkMachine w' (put_thread tid t' (m_threads m)) (m_used m)).
Proof.
  intros Hs Hfr Htab Hj Hg Ha Hl He Hf Hserve. pose proof Hs as [Hm Ht].
  eapply site_step; [exact Hm | exact Ht | exact Hfr | done | done | done | done | done | by rewrite Ha | done | | eauto].
  rewrite Hj. eapply frame_jobs; [exact Hfr | done | apply Hm].
Qed.

Section Step.
Context (m : machine) (tid : nat) (w' : world) (t' : option thread).
Let m' := MkMachine w' (put_thread tid t' (m_threads m)) (m_used m).
Context (Hled : ledger_ok (ledger_of m')) (Hexc : exclusive m').

Lemma write_step io now req fn : at_step m tid (TUpdate fn) -> recorded (m_world m) !! fn_ID fn = Some (record_of fn) ->
  w' = fst (update_write io now req fn (m_world m)) -> t' = None -> site_ok m'.
Proof.
  intros Hs Hrec -> ->. pose proof Hs as [Hm Ht]. destruct (at_id _ _ _ (fn_ID fn) Hs) as [Hne _]; [by rewrite Hrec|].
  pose proof (update_write_quiet io now req fn (m_world m)) as [Hrows Hjobs].
  assert (Hw : recorded (fst (update_write io now req fn (m_world m))) = recorded (m_world m) /\ tables_ok (fst (update_write io now req fn (m_world m))) /\
    w_disk (fst (update_write io now req fn (m_world m))) = w_disk (m_world m)).
  { unfold update_write, Set_. destruct (negb _); [destruct Hm; auto|].
    assert (Hrec' : recorded (m_world m) !! fn_ID (fst (fst (apply_update req fn))) = Some (record_of (fst (fst (apply_update req fn))))) by exact Hrec.
    assert (Hne' : fn_ID (fst (fst (apply_update req fn))) <> EmptyString) by exact Hne.
    destruct (apply_update req fn) as [[fn' sc] nc]. cbn [fst] in Hrec', Hne'.
    pose proof (set_same EmptyString io now fn' true (m_world m) Hne' Hrec') as H1.
    pose proof (set_tables EmptyString io now fn' true (m_world m) (so_tables _ Hm)) as H2.
    destruct (set _ _ _ _ _ _) as [r [x|e]]; cbn [fst] in *; destruct H1 as [H1 _]; auto. }
  destruct Hw as (Hr & Ht' & Hd). eapply quiet_step; [exact Hs | by apply frame_same | done | done | done | done | exact Hled | exact Hexc | done | done].
Qed.

Lemma submit_step io io_finish now depID fnID version archive : at_step m tid (TDeploy depID fnID version archive) ->
  w' = fst (enqueue depID fnID version archive io io_finish now (m_world m)) -> t' = None -> site_ok m'.
Proof.
  intros Hs -> ->. pose proof Hs as [Hm Ht]. pose proof (at_fact _ _ _ Hs) as Hu. cbn in Hu.
  destruct (enqueue_spec depID fnID version archive io io_finish now (m_world m) (so_tables _ Hm)) as (H1 & H2 & H3 & H4).
  set (w1 := fst (enqueue _ _ _ _ _ _ _ _)) in *.
  destruct H4 as [[Hrows Hjobs]|(dep & Hrows & Hid & Hfn & Hst & Hjobs)].
  - eapply quiet_step; [exact Hs | by apply frame_same | done | done | done | done | exact Hled | exact Hexc | done | done].
  - assert (Hfr : frame None (Some depID) (m_world m) w1).
    { split; rewrite ?H2, ?H3; auto.
      - intros x Hx _ _. rewrite Hrows. by apply elem_of_app; left.
      - intros x Hx _. exists x. rewrite Hrows. split; [by apply elem_of_app; left | done].
      - intros x Hx [= He]. by eapply at_queued.
      - intros x. rewrite Hrows, elem_of_app, list_elem_of_singleton. intros [Hx| ->] Hs'; [by right | done]. }
    eapply site_step; [exact Hm | exact Ht | exact Hfr | done | exact Hled | exact Hexc | done | by intros id [= <-] | done | done | | done].
    pose proof (frame_jobs _ _ _ _ _ _ Hfr (reflexivity (m_used m)) (so_jobs _ Hm)) as Hj. destruct Hjobs as [->| ->]; [exact Hj|].
    apply Forall_app. split; [exact Hj|]. apply Forall_singleton. split; [exact Hu|]. intros _. exists dep. rewrite Hrows.
    split; [by apply elem_of_app; right; left | done].
Qed.

Lemma start_step io now job : at_step m tid (TTaken job) ->
  (let '(w1, fn) := job_start io now job (m_world m) in (w1, TBuild job <$> fn)) = (w', t') -> site_ok m'.
Proof.
  intros Hs E. pose proof Hs as [Hm Ht]. pose proof (at_fact _ _ _ Hs) as Hu. cbn in Hu.
  pose proof (start_recordless io now job (m_world m) (so_tables _ Hm) (fun Hin => proj1 (at_id _ _ _ _ Hs Hin))) as Hst.
  destruct (job_start _ _ _ _) as [w1 fn]. injection E as -> <-. destruct Hst as (H1 & H2 & H3).
  eapply recordless_step; [exact Hs | reflexivity | done | exact H1 | exact H2 | exact Hled | exact Hexc |].
  destruct fn as [fn|]; [|done]. cbn. destruct H3 as [H3 H4]. split; [|split; [done | by rewrite (rl_rec _ _ _ H1)]].
  eapply job_row_frame; [|done | exact Hu]. eapply recordless_frame; [exact H1 | exact H2 | by eapply at_unsucceeded | by eapply at_queued].
Qed.

Lemma build_step a io now dur job fn : at_step m tid (TBuild job fn) ->
  (let '(w1, b) := job_build H dataDir a io now dur job fn (m_world m) in (w1, (fun b => TPersist job b fn) <$> b)) = (w', t') -> site_ok m'.
Proof.
  intros Hs E. pose proof Hs as [Hm Ht]. pose proof (at_fact _ _ _ Hs) as (Hu & Hid & Hrec). cbn in Hu, Hid, Hrec.
  destruct (at_id _ _ _ (j_FunctionID job) Hs) as [Hne _]; [by rewrite Hrec|].
  pose proof (job_build_spec H dataDir a io now dur job fn (m_world m) Hid ltac:(congruence) Hrec) as Hb.
  destruct (job_build _ _ _ _ _ _ _ _ _) as [w1 b]. injection E as -> <-. destruct Hb as (H1 & H2 & H3 & H4 & H5).
  assert (Hfr : frame None (Some (j_DeploymentID job)) (m_world m) w').
  { eapply frame_of_effect; [exact (rl_effect _ _ _ H1) | | | auto | auto | | by eapply at_queued |].
    - by rewrite (rl_rec _ _ _ H1).
    - by rewrite (rl_rec _ _ _ H1).
    - intros f [Hf| ->]%H4; [by left | right; by rewrite Hrec].
    - intros dep Hdep Hd Hst. by destruct (rl_status _ _ _ H1 (at_unsucceeded _ _ _ _ Hs eq_refl) dep Hdep Hd). }
  eapply site_step; [exact Hm | exact Ht | exact Hfr | apply (rl_tables _ _ _ H1), Hm | exact Hled | exact Hexc | done | by intros id [= <-] | done | | | done].
  - destruct b as [b|]; [|done]. cbn. split; [by eapply job_row_frame|]. split; [done|]. rewrite (rl_rec _ _ _ H1), Hrec. by destruct H5.
  - destruct (rl_effect _ _ _ H1) as [Hj _]. rewrite Hj. eapply frame_jobs; [exact Hfr | done | apply Hm].
Qed.

Lemma persist_step io now dur job b fn : ji_hash io = false -> at_step m tid (TPersist job b fn) ->
  (let '(w1, x) := job_persist io now dur job b fn (m_world m) in (w1, TActivate job (b_CodeHash b) <$> x)) = (w', t') -> site_ok m'.
Proof.
  intros Hio Hs E. pose proof Hs as [Hm Ht]. pose proof (at_fact _ _ _ Hs) as (Hu & Hid & Hin & Hhex & Hready). cbn in Hu, Hid.
  destruct (at_id _ _ _ (j_FunctionID job) Hs Hin) as [Hne _].
  pose proof (job_persist_spec io now dur job b fn (m_world m) Hio Hid ltac:(congruence)) as Hp.
  pose proof (persist_effect io now dur job b fn (m_world m)) as He.
  destruct (job_persist _ _ _ _ _ _ _) as [w1 x]. injection E as -> <-. destruct Hp as (H1 & H2 & H3).
  destruct x as [g|]; [|eapply recordless_step; [exact Hs | reflexivity | done | exact H3 | exact H2 | exact Hled | exact Hexc | done]].
  destruct H3 as (Hg & Hrec & Hst & Hrow). rewrite bool_decide_eq_true_2 in He by eauto. cbn [negb] in He.
  assert (Hfr : frame (Some (j_FunctionID job)) (Some (j_DeploymentID job)) (m_world m) w').
  { eapply frame_of_effect; [exact He | | | by rewrite H2 | by rewrite H2 | rewrite H2; auto | by eapply at_queued |].
    - intros f Hf. rewrite Hrec, lookup_insert_ne by congruence. done.
    - intros f. rewrite Hrec, lookup_insert_is_Some. by intros [<-|[_ ?]].
    - intros dep Hdep Hd Hs'. by destruct (Hst (at_unsucceeded _ _ _ _ Hs eq_refl) dep Hdep Hd). }
  eapply site_step; [exact Hm | exact Ht | exact Hfr | apply H1, Hm | exact Hled | exact Hexc | | by intros id [= <-] | done | | |].
  - intros f [= <-]. by eapply at_alone.
  - cbn. rewrite H2, Hrec, lookup_insert_eq. split; [congruence|]. split; [done|]. split; [done|]. split; [done|].
    destruct Hu as [_ Hu]. destruct (Hu Hin) as (dep & D1 & D2 & D3). destruct (Hrow dep D1 D2) as (dep' & E1 & E2 & E3 & E4).
    exists dep'. split; [done|]. split; [congruence|]. by split; [congruence|].
  - destruct He as [Hj _]. rewrite Hj. eapply frame_jobs; [exact Hfr | done | apply Hm].
  - intros f x [= <-] _ Hna. by destruct Hna.
Qed.

Lemma activate_step io now dur job hash fn : ji_finish io = false -> ji_link io = (true, true) -> at_step m tid (TActivate job hash fn) ->
  w' = job_activate io now dur job hash fn (m_world m) -> t' = None -> site_ok m'.
Proof.
  intros Hio Hlink Hs Hw' ->. pose proof Hs as [Hm Ht]. pose proof (at_fact _ _ _ Hs) as (Hid & Hhex & Hready & Hrec & dep & D1 & D2 & D3 & D4).
  destruct (version_ready_dir _ _ _ Hready) as [dir Hdir]. pose proof (activate_effect io now dur job hash fn (m_world m)) as He. rewrite <- Hw' in He.
  unfold job_activate in Hw'. rewrite Hlink, Hid, (activate_fine _ _ _ _ Hhex Hdir), Hio in Hw'.
  destruct (link_moves (j_FunctionID job) dir ("versions/" ++ hash)%string (w_disk (m_world m)) Hdir) as (L1 & L2 & L3 & L4).
  set (k' := <[j_FunctionID job := _]> _) in *. set (w1 := m_world m <| w_disk := k' |>) in *.
  set (fin := fun dep => dep <| d_Status := "succeeded"%string |> <| d_ErrorMessage := EmptyString |> <| d_DurationMS := Some dur |>
        <| d_FinishedAt := Some (timestamp now) |> <| d_Phase := "done"%string |>).
  assert (Hk : w_disk w' = k') by by rewrite Hw'.
  assert (Hdb : w_db w' = w_db (on_db (update_deployment false (j_DeploymentID job) fin) w1)) by by rewrite Hw'.
  assert (Hr' : recorded w' = recorded (m_world m)) by (unfold recorded; by rewrite Hdb).
  assert (Hrow : fin dep ∈ deployments (w_db w')) by (rewrite Hdb; exact (updated_row false _ fin w1 dep D1 D2)).
  assert (Htab : tables_ok w').
  { destruct (update_tables false (j_DeploymentID job) fin w1 (proj1 (finish_change now "succeeded" EmptyString dur ltac:(right; left))) (so_tables _ Hm)) as [T1 T2].
    rewrite Hw'. split; [exact T1 | exact T2]. }
  assert (Hfr : frame (Some (j_FunctionID job)) (Some (j_DeploymentID job)) (m_world m) w').
  { eapply frame_of_effect; [exact He | by rewrite Hr' | by rewrite Hr' | | | | by eapply at_queued |]; rewrite ?Hk.
    - intros f Hf. apply L1. congruence.
    - intros f h. by rewrite L2.
    - intros f Hf%L3. by left.
    - intros x Hx Hxid _. rewrite Hdb in Hx. apply list_elem_of_fmap in Hx as (y & -> & Hy). revert Hxid. case_bool_decide as Hy'; [|done].
      intros _. change (isHexHash (d_CodeHash y) = true). replace y with dep; [by rewrite D4|].
      pose proof (GetDeployment_in _ _ (ok_ids _ (proj1 (so_tables _ Hm))) D1) as G1. pose proof (GetDeployment_in _ _ (ok_ids _ (proj1 (so_tables _ Hm))) Hy) as G2.
      rewrite D2 in G1. rewrite Hy' in G2. congruence. }
  eapply site_step; [exact Hm | exact Ht | exact Hfr | exact Htab | exact Hled | exact Hexc | | by intros id [= <-] | done | done | |].
  - intros f [= <-]. by eapply at_alone.
  - destruct He as [Hj _]. rewrite Hj. eapply frame_jobs; [exact Hfr | done | apply Hm].
  - intros f x [= <-] Hx _. rewrite Hr', Hrec in Hx. injection Hx as <-. right. rewrite Hk, L2. split; [done|]. split; [done|]. split; [done|].
    by exists (fin dep).
Qed.

Lemma lock_step fn req : at_step m tid (TRollback fn req) -> w' = m_world m ->
  t' = match rollback_check fn req (m_world m) with Reply t => Some (TPromote fn t) | Refuse _ _ => None end -> site_ok m'.
Proof.
  intros Hs -> ->. pose proof Hs as [Hm Ht].
  eapply quiet_step; [exact Hs | by apply frame_same | apply Hm | done | done | done | exact Hled | exact Hexc | | done].
  destruct (rollback_check _ _ _) as [t|s c] eqn:E; [|done]. cbn. destruct (check_target _ _ _ _ (so_tables _ Hm) E) as (Hv & dep & D1 & D2 & D3 & D4 & D5).
  split; [rewrite <- D5; by apply (so_succ _ Hm)|]. split; [done|]. split; [|by exists dep].
  pose proof (ok_parent _ (proj1 (so_tables _ Hm))) as Hp. rewrite Forall_forall in Hp. specialize (Hp dep D1). rewrite D3 in Hp.
  unfold recorded. by rewrite lookup_fmap, fmap_is_Some.
Qed.

(** A function whose name is its own can be written. *)
Lemma set_succeeds io now fn old w : tables_ok w -> io_update io = false -> functions (w_db w) !! fn_ID fn = Some old -> fn_Name old = fn_Name fn ->
  fn_ID fn <> EmptyString -> exists r g, set EmptyString io now fn true (w_reg w) = (r, Ok g).
Proof.
  intros [Hd Hc] Hio Hold Hname Hne. pose proof (set_coherent EmptyString io now fn true (w_reg w) Hc) as Hs.
  assert (Hn : name_taken (fn_ID fn) (fn_Name fn) (functions (w_db w)) = false).
  { apply name_taken_false. intros j g Hj Hg. eapply (ok_names _ Hd); [exact Hj | exact Hold | congruence]. }
  unfold spec_set, w_db in *. rewrite (bool_decide_eq_false_2 _ Hne) in Hs. rewrite Hold, Hio, Hn in Hs.
  destruct (set _ _ _ _ _ _) as [r [g|e]]; destruct Hs as [_ Hs]; [eauto | discriminate Hs].
Qed.

Lemma promote_step link io now fn t : io_update io = false -> fn_Name <$> functions (w_db (m_world m)) !! fn_ID fn = Some (fn_Name fn) ->
  at_step m tid (TPromote fn t) -> w' = fst (rollback_promote H dataDir link io now fn t (m_world m)) -> t' = None -> site_ok m'.
Proof.
  intros Hio Hname Hs Hw' ->. pose proof Hs as [Hm Ht]. pose proof (at_fact _ _ _ Hs) as (Hhex & Hready & Hin & dep & D1 & D2 & D3 & D4 & D5).
  destruct (at_id _ _ _ (fn_ID fn) Hs Hin) as [Hne _]. unfold rollback_promote in Hw'.
  destruct (activate_cases link (fn_ID fn) (tg_hash t) (w_disk (m_world m))) as [[e He]|(dir & Hdir & He)]; rewrite He in Hw'.
  { assert (Hsame : w' = m_world m) by (rewrite Hw'; cbn; by destruct (m_world m)). clear Hw'. subst w'.
    eapply quiet_step with (g := None); [exact Hs | by apply frame_same | apply Hm | done | done | done | exact Hled | exact Hexc | done | done]. }
  destruct (link_moves (fn_ID fn) dir ("versions/" ++ tg_hash t)%string (w_disk (m_world m)) Hdir) as (L1 & L2 & L3 & L4).
  set (k' := <[fn_ID fn := _]> _) in *. set (w1 := m_world m <| w_disk := k' |>) in *. set (p := promoted_function H dataDir fn t k') in *.
  destruct (restore_keeps (tg_snapshot t) (fn <| fn_CodeHash := tg_hash t |> <| fn_Status := "active"%string |> <| fn_ActiveDeploymentID := tg_deployment t |>
      <| fn_RunEntrypoint := RunEntrypointFor H dataDir (fn_ID fn) (tg_hash t) (fn_Entrypoint fn) k' |>)) as (K1 & K2 & _ & K4 & K5 & _).
  change (fn_ID p = fn_ID fn) in K1. change (fn_Name p = fn_Name fn) in K2. change (fn_CodeHash p = tg_hash t) in K4.
  change (fn_ActiveDeploymentID p = tg_deployment t) in K5.
  destruct (functions (w_db (m_world m)) !! fn_ID fn) as [old|] eqn:Eo; [|discriminate Hname]. cbn in Hname. injection Hname as Hname.
  destruct (set_succeeds io now p old w1 (so_tables _ Hm) Hio ltac:(by rewrite K1) ltac:(congruence) ltac:(congruence)) as (r & g & Hset).
  pose proof (set_recorded EmptyString io now p true w1 ltac:(congruence)) as Hrec. pose proof (set_tables EmptyString io now p true w1 (so_tables _ Hm)) as Htab.
  unfold Set_ in Hw'. rewrite Hset in Hw', Hrec, Htab. cbn [fst] in Hw', Htab. destruct Hrec as (Hrows & Hrec & _ & _).
  rewrite K1 in Hrec. unfold record_of in Hrec. rewrite K4, K5 in Hrec.
  assert (Hr' : recorded w' = <[fn_ID fn := (tg_hash t, tg_deployment t)]> (recorded (m_world m))) by (rewrite Hw'; exact Hrec).
  assert (Hk : w_disk w' = k') by by rewrite Hw'. assert (Hrows' : deployments (w_db w') = deployments (w_db (m_world m))) by (rewrite Hw'; exact Hrows).
  assert (Hfr : frame (Some (fn_ID fn)) None (m_world m) w').
  { split; rewrite ?Hr', ?Hk, ?Hrows'; auto.
    - intros f Hf. by rewrite lookup_insert_ne by congruence.
    - intros f Hf. apply L1. congruence.
    - intros f h _. by rewrite L2.
    - intros x Hx _. eauto.
    - intros x _ [=].
    - intros f. rewrite lookup_insert_is_Some. by intros [<-|[_ ?]]. }
  eapply quiet_step; [exact Hs | exact Hfr | by rewrite Hw' | by rewrite Hw' | | done | exact Hled | exact Hexc | done |].
  - intros f [= <-]. by eapply at_alone.
  - intros f x [= <-] Hx. rewrite Hr', lookup_insert_eq in Hx. injection Hx as <-. right. rewrite Hk, L2, Hrows'.
    split; [done|]. split; [done|]. split; [done|]. by exists dep.
Qed.

Lemma remove_step removable f l : locked f m = false -> match recorded (m_world m) !! f with Some x => x.1 ∉ l | None => True end ->
  at_step m tid (TCollect f l) -> w' = m_world m <| w_disk ::= fun k => fst (foldl (remove_version removable f) (k, 0) l) |> -> t' = None -> site_ok m'.
Proof.
  intros Hfree Hl Hs -> ->. pose proof Hs as [Hm Ht]. set (k := w_disk (m_world m)).
  destruct (remove_versions_spec removable f l k 0) as [R1 R2 R3]. set (k' := fst (foldl _ _ _)) in *.
  assert (Hdom : forall g, is_Some (k' !! g) -> is_Some (k !! g)).
  { intros g [d Hd]. destruct (k !! g) eqn:E; [by eexists|]. exfalso. apply (remove_versions_dom removable f l k 0) in E. fold k' in E. congruence. }
  rewrite locked_marks in Hfree. apply bool_decide_eq_false in Hfree.
  eapply quiet_step with (g := Some f); [exact Hs | | apply Hm | done | | done | exact Hled | exact Hexc | done |].
  - split; auto; cbn.
    + intros g h Hg. unfold version_ready. fold k k'. by rewrite R1 by congruence.
    + intros x Hx _. eauto.
    + intros x _ [=].
  - intros f' [= <-] Hin. apply Hfree. rewrite (marks_delete holds tid _ _ Ht). apply elem_of_app. by right.
  - intros f' x [= <-] Hx. change (recorded (m_world m) !! f = Some x) in Hx. rewrite Hx in Hl.
    assert (Hact : f ∉ marks activates (m_threads m)).
    { intros (tid2 & t2 & Ht2 & Ha)%elem_of_marks. apply Hfree, elem_of_marks. exists tid2, t2. split; [done|]. by destruct t2. }
    destruct (so_serving _ Hm f x Hx Hact) as [[-> Hc]|(S1 & S2 & S3 & S4)]; [left | right]; cbn; fold k k'.
    + by rewrite R2.
    + rewrite R2. split; [done|]. split; [done|]. split; [|done]. unfold version_ready. rewrite R3, bool_decide_eq_false_2 by done. exact S3.
Qed.
End Step.

(* ------------------------------------------------------------------ *)
(** ** Moves of the whole daemon *)

(** A move after which every thread's facts hold, on functions that are free. *)
Lemma world_step m w' ts' u' g :
  site_ok m -> frame g None (m_world m) w' -> m_used m ⊆ u' -> tables_ok w' -> ledger_ok (ledger_of (MkMachine w' ts' u')) ->
  exclusive (MkMachine w' ts' u') -> (forall f, g = Some f -> locked f m = false) ->
  (forall tid t, ts' !! tid = Some t -> m_threads m !! tid = Some t \/ thread_fact t w' u') ->
  (forall f, f ∈ marks activates (m_threads m) -> f ∈ marks activates ts') ->
  Forall (fun job => job_row job w' u') (w_jobs w') ->
  (forall f x, g = Some f -> recorded w' !! f = Some x -> serving f x w') ->
  site_ok (MkMachine w' ts' u').
Proof.
  intros Hm Hf Hu Htab Hled Hex Hg Hts Hact Hjobs Hserve. split; cbn; [done | done | done | | | | | |].
  - intros f Hs. destruct (so_ids _ Hm f (fr_new _ _ _ _ Hf f Hs)). split; [set_solver | done].
  - intros f [Hs|Hs]%(fr_disk _ _ _ _ Hf); apply Hu; [by apply (so_disk _ Hm) | by apply (so_ids _ Hm)].
  - intros dep Hdep Hs. destruct (fr_succ _ _ _ _ Hf dep Hdep Hs); [done | by apply (so_succ _ Hm)].
  - done.
  - intros tid t [Ht|Ht]%Hts; [|done]. eapply fact_frame; [exact Hf | done | | done | by apply (so_threads _ Hm tid)].
    intros f Hh ->. specialize (Hg f eq_refl). rewrite locked_marks in Hg. apply bool_decide_eq_false in Hg. apply Hg, elem_of_marks. eauto.
  - intros f x Hx Hna. destruct (decide (g = Some f)) as [Hgf|Hgf]; [by apply Hserve|].
    eapply serving_frame; [exact Hf | congruence |]. apply (so_serving _ Hm); [rewrite <- (fr_rec _ _ _ _ Hf) by congruence; done | auto].
Qed.

Lemma same_world_step m w' u' : site_ok m -> recorded w' = recorded (m_world m) -> w_disk w' = w_disk (m_world m) ->
  quiet (m_world m) w' -> m_used m ⊆ u' -> tables_ok w' -> ledger_ok (ledger_of (MkMachine w' (m_threads m) u')) ->
  exclusive (MkMachine w' (m_threads m) u') -> site_ok (MkMachine w' (m_threads m) u').
Proof.
  intros Hm Hr Hd [Hrows Hj] Hu Htab Hl He.
  assert (Hfr : frame None None (m_world m) w') by by apply frame_same.
  eapply world_step; [exact Hm | exact Hfr | done | done | done | done | done | auto | auto | | done].
  rewrite Hj. eapply frame_jobs; [exact Hfr | done | apply Hm].
Qed.

Lemma open_step m tid b w' t u' : site_ok m -> m_threads m !! tid = None -> open_thread isUUID b (m_world m) = Some (w', t) ->
  m_used m ⊆ u' -> ledger_ok (ledger_of (MkMachine w' (put_thread tid t (m_threads m)) u')) ->
  exclusive (MkMachine w' (put_thread tid t (m_threads m)) u') -> site_ok (MkMachine w' (put_thread tid t (m_threads m)) u').
Proof.
  intros Hm Hn E Hu Hl He.
  assert (Hw : tables_ok w' /\ recorded w' = recorded (m_world m) /\ w_disk w' = w_disk (m_world m) /\
    deployments (w_db w') = deployments (w_db (m_world m)) /\ Forall (fun job => job ∈ w_jobs (m_world m)) (w_jobs w') /\
    opt_fact t w' u' /\ t ≫= activates = None).
  { assert (Hall : forall l : list BuildJob, Forall (fun job => job ∈ l) l) by (intros l; by apply Forall_forall).
    destruct b; cbn [open_thread] in E.
    - pose proof (find_tables isUUID rawID _ (so_tables _ Hm)) as Hf. destruct (find_function _ _ _) as [w1 x]. injection E as <- <-.
      destruct Hf as (H1 & H2 & H3 & H4 & _). unfold recorded. rewrite H2, H3, H4. split_and!; auto; by destruct x.
    - pose proof (find_tables isUUID rawID _ (so_tables _ Hm)) as Hf. destruct (find_function _ _ _) as [w1 x]. injection E as <- <-.
      destruct Hf as (H1 & H2 & H3 & H4 & H5). unfold recorded. rewrite H2, H3, H4. split_and!; auto; destruct x as [fn|]; try done; destruct archive; try done.
      cbn. apply Hu. apply (so_ids _ Hm). by rewrite (recorded_lookup _ _ _ H5).
    - destruct (w_jobs (m_world m)) as [|job l] eqn:Ej; [discriminate|]. injection E as <- <-. split_and!; try done.
      + apply Hm.
      + eapply Forall_impl; [apply (Hall l)|]. cbn. intros j Hin. by right.
      + cbn. pose proof (so_jobs _ Hm) as Hj. rewrite Ej in Hj. apply Forall_cons in Hj as [[Hj1 Hj2] _]. split; [set_solver | exact Hj2].
    - pose proof (find_tables isUUID rawID _ (so_tables _ Hm)) as Hf. unfold rollback_read in E. destruct (find_function _ _ _) as [w1 x].
      destruct Hf as (H1 & H2 & H3 & H4 & _). unfold recorded.
      assert (Hw1 : w' = w1 /\ opt_fact t w' u' /\ t ≫= activates = None).
      { destruct x as [fn|]; [|by injection E as <- <-]. destruct req; [|by injection E as <- <-]. destruct (_ && _); [by injection E as <- <-|].
        destruct (_ && _); by injection E as <- <-. }
      destruct Hw1 as (-> & ? & ?). rewrite H2, H3, H4. split_and!; auto.
    - injection E as <- <-. split_and!; [apply Hm | done | done | done | apply Hall | done | done]. }
  destruct Hw as (H1 & H2 & H3 & H4 & H5 & H6 & H7). assert (Hfr : frame None None (m_world m) w') by by apply frame_same.
  eapply world_step; [exact Hm | exact Hfr | done | done | done | done | done | | | | done].
  - intros tid2 t2. destruct t as [t|]; cbn; [|rewrite lookup_delete_Some; by intros [_ ?]; left].
    intros [[_ <-]|[_ ?]]%lookup_insert_Some; [by right | by left].
  - intros f Hf. rewrite (marks_open activates tid t _ Hn). apply elem_of_app. by right.
  - pose proof (frame_jobs _ _ _ _ _ _ Hfr Hu (so_jobs _ Hm)) as Hj. rewrite Forall_forall in Hj. eapply Forall_impl; [exact H5|]. cbn. auto.
Qed.

Lemma create_step m newID io now req : site_ok m -> newID ∉ m_used m -> newID <> EmptyString ->
  let m' := MkMachine (fst (Create newID io now req (m_world m))) (m_threads m) ({[newID]} ∪ m_used m) in
  ledger_ok (ledger_of m') -> exclusive m' -> site_ok m'.
Proof.
  intros Hm Hnew Hne. cbv zeta. unfold Create, Set_.
  assert (Hsub : m_used m ⊆ {[newID]} ∪ m_used m) by set_solver.
  destruct (negb (create_valid req)); [intros Hl He; apply same_world_step; auto; [done | apply Hm]|].
  pose proof (set_recorded newID io now (new_function newID req) true (m_world m) Hne) as Hs.
  pose proof (set_tables newID io now (new_function newID req) true (m_world m) (so_tables _ Hm)) as Ht.
  pose proof (set_quiet newID io now (new_function newID req) true (m_world m)) as Hq.
  destruct (set _ _ _ _ _ _) as [r [g|e]]; cbn [fst] in *; destruct Hs as [Hrows Hs]; intros Hl He; [|by apply same_world_step].
  destruct Hs as (Hrec & _ & _). change (record_of _) with (EmptyString, EmptyString) in Hrec. change (fn_ID _) with newID in Hrec.
  set (w' := m_world m <| w_reg := r |>) in *.
  assert (Hrec' : forall f, f ∈ m_used m -> recorded w' !! f = recorded (m_world m) !! f).
  { intros f Hf. rewrite Hrec, lookup_insert_ne; [done|]. intros <-. done. }
  assert (Hjr : forall job, job_row job (m_world m) (m_used m) -> job_row job w' ({[newID]} ∪ m_used m)).
  { intros job [J1 J2]. split; [set_solver|]. rewrite Hrec' by done. intros (dep & Hdep)%J2. exists dep. by rewrite (proj1 Hq). }
  split; cbn; [done | done | done | | | | | |].
  - intros f. rewrite Hrec, lookup_insert_is_Some. intros [<-|[_ Hf]]; [set_solver|]. destruct (so_ids _ Hm f Hf). set_solver.
  - intros f Hf. apply Hsub. by apply (so_disk _ Hm).
  - intros dep. rewrite (proj1 Hq). apply (so_succ _ Hm).
  - eapply Forall_impl; [apply (so_jobs _ Hm)|]. apply Hjr.
  - intros tid t Hth. pose proof (so_threads _ Hm tid t Hth) as Hf. destruct t; cbn in *; try done.
    + set_solver.
    + by apply Hjr.
    + destruct Hf as (H1 & H2 & H3). split; [by apply Hjr|]. by rewrite (Hrec' _ (proj1 H1)).
    + destruct Hf as (H1 & H2 & H3). split; [by apply Hjr|]. by rewrite (Hrec' _ (proj1 H1)).
    + destruct Hf as (H1 & H2 & H3 & H4 & H5). rewrite (proj1 Hq), Hrec'; [done|]. apply (so_ids _ Hm). by rewrite H4.
    + destruct Hf as (H1 & H2 & H3 & H4). rewrite (proj1 Hq), Hrec'; [done|]. by apply (so_ids _ Hm).
  - intros f x. rewrite Hrec, lookup_insert_Some. intros [[<- <-]|[_ Hx]] Hna.
    + left. split; [done|]. cbn. unfold dir_of. destruct (w_disk (m_world m) !! newID) as [d|] eqn:Ed; [|done].
      exfalso. apply Hnew, (so_disk _ Hm). by rewrite Ed.
    + pose proof (so_serving _ Hm f x Hx Hna) as [Hs|Hs]; [by left | right]. by rewrite (proj1 Hq).
Qed.

Lemma delete_step m rawID io rm : site_ok m ->
  match snd (resolveFnID isUUID rawID (m_world m)) with Some id => locked id m | None => false end = false ->
  let m' := MkMachine (fst (Delete_ isUUID dataDir rawID io rm (m_world m))) (m_threads m) (m_used m) in
  ledger_ok (ledger_of m') -> exclusive m' -> site_ok m'.
Proof.
  intros Hm Hfree. cbv zeta. unfold Delete_. case_bool_decide; [by destruct m|].
  destruct (resolve_tables isUUID rawID (m_world m) (so_tables _ Hm)) as (H1 & H2 & H3). pose proof (resolve_quiet isUUID rawID (m_world m)) as Hq.
  destruct (resolveFnID isUUID rawID (m_world m)) as [w1 [id|]]; cbn [fst snd] in *.
  2:{ intros Hl He. apply same_world_step; auto. unfold recorded. by rewrite H2. }
  unfold delete_locked, Delete. destruct (DeleteFunction io id (r_db (w_reg w1))) as [d|e] eqn:Ed; cbn [fst].
  2:{ assert (Hw1 : w1 <| w_reg := w_reg w1 |> = w1) by by destruct w1. rewrite Hw1. intros Hl He.
      apply same_world_step; auto. unfold recorded. by rewrite H2. }
  pose proof (db_ok_delete _ _ _ _ Ed (proj1 H1)) as Hdb. unfold DeleteFunction in Ed. destruct io; [done|]. injection Ed as <-.
  intros Hl He. set (w' := _ <| w_disk ::= _ |>) in *. change (r_db (w_reg w1)) with (w_db w1) in *.
  assert (Hrec : recorded w' = delete id (recorded (m_world m))).
  { unfold recorded. rewrite <- H2. unfold w', w_db. cbn. apply fmap_delete. }
  assert (Hrows : forall dep, dep ∈ deployments (w_db w') <-> d_FunctionID dep <> id /\ dep ∈ deployments (w_db (m_world m))).
  { intros dep. rewrite <- H2. unfold w', w_db. cbn. by rewrite list_elem_of_filter. }
  assert (Hdisk : forall f, f <> id -> w_disk w' !! f = w_disk (m_world m) !! f).
  { intros f Hf. rewrite <- H3. unfold w'. cbn. unfold PurgeFunctionFiles. destruct (fnScopedPath _ _ _); [|done]. destruct rm; [|done]. by rewrite lookup_delete_ne. }
  assert (Hdom : forall f, is_Some (w_disk w' !! f) -> is_Some (w_disk (m_world m) !! f)).
  { intros f. rewrite <- H3. unfold w'. cbn. unfold PurgeFunctionFiles. destruct (fnScopedPath _ _ _); [|done]. destruct rm; [|done].
    rewrite lookup_delete_is_Some. by intros [_ ?]. }
  assert (Hfr : frame (Some id) None (m_world m) w').
  { split.
    - intros f Hf. rewrite Hrec, lookup_delete_ne; [done | congruence].
    - intros f Hf. unfold dir_of. rewrite Hdisk; [done | congruence].
    - intros f h Hf. unfold version_ready, dir_of. rewrite Hdisk; [done | congruence].
    - intros dep Hdep _ Hf. apply Hrows. split; [congruence | done].
    - intros dep Hdep. rewrite Hrec, lookup_delete_is_Some. intros [Hne _]. exists dep. split; [|done]. apply Hrows. by split; [apply not_eq_sym|].
    - intros dep _ [=].
    - intros f. rewrite Hrec, lookup_delete_is_Some. by intros [_ ?].
    - intros f Hf. left. by apply Hdom.
    - intros dep Hdep _. right. by apply Hrows in Hdep as [_ ?]. }
  eapply world_step; [exact Hm | exact Hfr | done | | done | done | by intros f [= <-] | auto | auto | |].
  - split; [exact Hdb|]. intros i fn. unfold w'. cbn. rewrite lookup_delete_Some. intros [Hne Hi]. rewrite lookup_delete_ne by done. by apply (proj2 H1).
  - change (w_jobs w') with (w_jobs w1). rewrite (proj2 Hq). eapply frame_jobs; [exact Hfr | done | apply Hm].
  - intros f x [= <-]. by rewrite Hrec, lookup_delete_eq.
Qed.

Lemma restart_step m now order : site_ok m -> returns_rows order -> marks activates (m_threads m) = [] ->
  let m' := MkMachine (restart now order (m_world m)) ∅ (m_used m) in ledger_ok (ledger_of m') -> exclusive m' -> site_ok m'.
Proof.
  intros Hm Ho Hna. cbv zeta. intros Hl He. set (w' := restart now order (m_world m)) in *.
  assert (Hin : forall dep, dep ∈ deployments (w_db (m_world m)) -> d_Status dep = "succeeded"%string -> dep ∈ deployments (w_db w')).
  { intros dep Hdep Hs. apply list_elem_of_fmap. exists dep. split; [|done]. unfold unfinished. by rewrite Hs. }
  assert (Hrec : recorded w' = recorded (m_world m)) by reflexivity.
  split; cbn; [ | done | done | | | | constructor | done |].
  - assert (Hdb : db_ok (fst (RequeueStuckDeployments now (w_db (m_world m))))).
    { apply db_ok_deployments_map; [|apply Hm]. intros dep. by destruct (unfinished dep). }
    split; [exact Hdb|]. apply LoadAll_coherent; [done | | exact Hdb]. intros i fn Hi. cbn in Hi. by apply lookup_empty_Some in Hi.
  - apply (so_ids _ Hm).
  - apply (so_disk _ Hm).
  - intros dep (x & -> & Hx)%list_elem_of_fmap. destruct (unfinished x); [done|]. by apply (so_succ _ Hm).
  - intros f x Hx _. destruct (so_serving _ Hm f x Hx ltac:(rewrite Hna; apply not_elem_of_nil)) as [Hs|(S1 & S2 & S3 & dep & S4 & S5 & S6 & S7 & S8)]; [by left | right].
    split; [done|]. split; [done|]. split; [done|]. exists dep. split; [by apply Hin | done].
Qed.

Lemma Get_world id w : tables_ok w -> let w' := w <| w_reg ::= fun r => fst (Get id r) |> in
  tables_ok w' /\ recorded w' = recorded w /\ quiet w w'.
Proof.
  intros Hw. pose proof (Get_tables id w Hw) as Hg. cbn. destruct (Get id (w_reg w)) as [r x]. destruct Hg as (G1 & G2 & _).
  split; [exact G1|]. split; [unfold recorded, w_db in *; cbn; by rewrite G2 | split; [unfold w_db in *; cbn; by rewrite G2 | done]].
Qed.

Lemma move_step m tid mv t w' t' : at_step m tid t -> calm (AMove tid mv) m = true ->
  move_thread H dataDir (fun f => locked f m) mv t (m_world m) = Some (w', t') ->
  let m' := MkMachine w' (put_thread tid t' (m_threads m)) (m_used m) in ledger_ok (ledger_of m') -> exclusive m' -> site_ok m'.
Proof.
  intros Hs Hc E. pose proof Hs as [_ Ht]. cbn in Hc. rewrite Ht in Hc. intros m' Hl He. subst m'.
  destruct mv, t; cbn [move_thread] in E; try discriminate E.
  - injection E as <- <-. apply bool_decide_eq_true in Hc. by eapply write_step.
  - injection E as <- <-. by eapply submit_step.
  - destruct (locked _ m); [discriminate E|]. destruct (job_start _ _ _ _) as [w1 fn] eqn:Ej. injection E as <- <-. eapply start_step; [done | done | exact Hs | by rewrite Ej].
  - destruct (job_build _ _ _ _ _ _ _ _ _) as [w1 b] eqn:Ej. injection E as <- <-. eapply build_step; [done | done | exact Hs | by rewrite Ej].
  - destruct (job_persist _ _ _ _ _ _ _) as [w1 x] eqn:Ej. injection E as <- <-. apply negb_true_iff in Hc.
    eapply persist_step; [done | done | exact Hc | exact Hs | by rewrite Ej].
  - injection E as <- <-. apply andb_true_iff in Hc as [Hc1%negb_true_iff Hc2%bool_decide_eq_true]. by eapply activate_step.
  - destruct (locked _ m); [discriminate E|]. injection E as <- <-. by eapply lock_step.
  - injection E as <- <-. apply andb_true_iff in Hc as [Hc1%negb_true_iff Hc2%bool_decide_eq_true]. by eapply promote_step.
  - injection E as <- <-. apply andb_true_iff in Hc as [Hc1%negb_true_iff Hc2]. eapply remove_step; [done | done | exact Hc1 | | exact Hs | done | done].
    destruct (recorded _ !! _); [|done]. by apply negb_true_iff, bool_decide_eq_false in Hc2.
Qed.

Lemma exec_site a m m' : site_ok m -> lists_rows a -> calm a m = true -> exec H dataDir isUUID a m = Some m' -> site_ok m'.
Proof.
  intros Hm Ha Hc E. pose proof (ledger_run_ok _ _ (exec_ledger _ _ _ _ _ _ E) (so_ledger _ Hm)) as Hl.
  pose proof (exec_exclusive _ _ _ _ _ _ E (so_locks _ Hm)) as He. revert E Hl He. unfold exec.
  destruct (match draws a with Some id => _ | None => false end) eqn:Eg; [discriminate|].
  destruct (exec_world _ _ _ a m) as [[w ts]|] eqn:E; [|discriminate]. intros [= <-].
  destruct a as [newID io now req|id|rawID io rm|tid b|tid mv| |now order]; cbn [exec_world draws] in *.
  - injection E as <- <-. apply orb_false_iff in Eg as [Eg1%bool_decide_eq_false Eg2%bool_decide_eq_false]. by apply create_step.
  - injection E as <- <-. destruct (Get_world id _ (so_tables _ Hm)) as (G1 & G2 & G3). intros Hl He. by apply same_world_step.
  - destruct (match _ with Some _ => _ | None => _ end) eqn:Ef; [discriminate|]. injection E as <- <-. by apply delete_step.
  - destruct (m_threads m !! tid) as [t|] eqn:Et; [discriminate|]. destruct (open_thread isUUID b _) as [[w1 t]|] eqn:Eo; [|discriminate].
    injection E as <- <-. apply (open_step m tid b w1 t); [done | done | done |]. destruct (match b with BDeploy _ _ _ => _ | _ => None end); set_solver.
  - destruct (m_threads m !! tid) as [t|] eqn:Et; [|discriminate]. cbn in E.
    destruct (move_thread _ _ _ _ _ _) as [[w1 t']|] eqn:Em; [|discriminate]. injection E as <- <-. by apply (move_step m tid mv t w1 t').
  - injection E as <- <-. intros Hl He. apply same_world_step; auto; [done|]. apply Hm.
  - injection E as <- <-. apply bool_decide_eq_true in Hc. by apply restart_step.
Qed.

Lemma boot_site : site_ok boot.
Proof.
  split; cbn; [split; [apply db_ok_empty | by intros i fn Hi; cbn in Hi; apply lookup_empty_Some in Hi] | apply boot_ok | constructor | | | | constructor | |].
  - intros f [x Hx]. discriminate Hx.
  - intros f [x Hx]. discriminate Hx.
  - by intros dep []%elem_of_nil.
  - intros tid t Ht. discriminate Ht.
  - intros f x Hx. discriminate Hx.
Qed.


End Site.

(* ------------------------------------------------------------------ *)
(** ** Concrete runs, calm and not *)

(** What a run leaves of [f1]: the recorded hash, the hash the link points at,
    whether that version is complete, and the recorded deployment. *)
Definition site_of (l : list action) : option (string * string * bool * string) :=
  m ← sample_run l boot; fn ← functions (w_db (m_world m)) !! "f1"%string;
  let h := ResolveActiveHash "f1" (w_disk (m_world m)) in
  Some (str_take 4 (fn_CodeHash fn), str_take 4 h, version_ready "f1" h (w_disk (m_world m)), fn_ActiveDeploymentID fn).

Definition two_deployed : list action := one_deployed ++ deploy_steps 1 "f1" "d2" "v2" (3 * second).
Definition rollback_steps (tid : nat) (did : string) (now : Z) : list action :=
  [AOpen tid (BRollback "f1" (Some (MkRollback did EmptyString))); AMove tid MLock; AMove tid (MPromote (true, true) io_fine now)].
Definition calm_day : list action := two_deployed ++ rollback_steps 5 "d1" (6 * second).

Example calm_day_calm : calm_run sample_host "/data" is_id calm_day boot = true.
Proof. vm_compute. reflexivity. Qed.

Lemma calm_day_lists : Forall lists_rows calm_day.
Proof. repeat (apply Forall_cons; split; [exact I|]). constructor. Qed.

Example calm_day_site : site_of calm_day = Some ("65d1", "65d1", true, "d1")%string.
Proof. vm_compute. reflexivity. Qed.


Definition new_memory : updateFunctionRequest := MkUpdate None None None None (Some 256) None None None None None None None None.
Definition new_name : updateFunctionRequest := MkUpdate (Some "z"%string) None None None None None None None None None None None None.

(** A settings write that read before a deployment and writes after it: the
    row goes back to the old hash and deployment, the link does not. *)
Example stale_settings_undo_a_deployment :
  site_of (one_deployed ++ [AOpen 9 (BUpdate "f1")] ++ deploy_steps 1 "f1" "d2" "v2" (3 * second) ++
           [AMove 9 (MWrite io_fine (4 * second) new_memory)]) = Some ("65d1", "b391", true, "d1")%string.
Proof. vm_compute. reflexivity. Qed.

(** One that writes after the function's deletion brings the row back, active,
    without its code and with a deployment that is gone. *)
Example stale_settings_revive_a_function :
  site_of (one_deployed ++ [AOpen 9 (BUpdate "f1"); ADelete "f1" false true; AMove 9 (MWrite io_fine (4 * second) new_memory)])
  = Some ("65d1", "", false, "d1")%string.
Proof. vm_compute. reflexivity. Qed.

(** A rollback that read a name which another function has since taken moves
    the link and then cannot write the row. *)
Example rename_during_rollback :
  site_of (two_deployed ++ [AOpen 9 (BRollback "f1" (Some (MkRollback "d1" EmptyString)));
           AOpen 8 (BUpdate "f1"); AMove 8 (MWrite io_fine (4 * second) new_name); ACreate "f2" io_fine (4 * second) (sample_create "a");
           AMove 9 MLock; AMove 9 (MPromote (true, true) io_fine (5 * second))]) = Some ("b391", "65d1", true, "d2")%string.
Proof. vm_compute. reflexivity. Qed.

(** The collector chose the old version, a rollback made it serve, and the
    collector removed it: the link dangles. *)
Example collector_removes_what_serves :
  site_of (two_deployed ++ [AOpen 9 (BCollect (merge_sort newer_cand) 1 "f1")] ++ rollback_steps 5 "d1" (6 * second) ++
           [AMove 9 (MRemove (fun _ => true))]) = Some ("65d1", "65d1", false, "d1")%string.
Proof. vm_compute. reflexivity. Qed.

(** Killed between a build's row and its link, the row names the new version
    and its failed deployment, the link the old version. *)
Example killed_before_the_link :
  site_of (one_deployed ++ take 6 (deploy_steps 1 "f1" "d2" "v2" (3 * second)) ++ [ARestart (5 * second) id])
  = Some ("b391", "65d1", true, "d2")%string.
Proof. vm_compute. reflexivity. Qed.

(** Two deployments submitted at once draw the same version number. *)
Example version_number_drawn_twice :
  (fun m => (fun dep => (d_ID dep, d_Version dep)) <$> deployments (w_db (m_world m))) <$>
  sample_run (one_deployed ++ [AOpen 8 (BDeploy "f1" "d2" (Some (bytes "v2"))); AOpen 9 (BDeploy "f1" "d3" (Some (bytes "v3")));
    AMove 8 (MSubmit false false (3 * second)); AMove 9 (MSubmit false false (3 * second))]) boot
  = Some [("d1", 1); ("d2", 2); ("d3", 2)]%string.
Proof. vm_compute. reflexivity. Qed.
