(* ===== verification/Routes.v ===== *)
(** * Custom routes ([database/routes.go], [server/handlers/routes.go])

    The table of user-chosen paths, what may enter it, how a request path is
    resolved against it, and the catch-all of the router in front of it
    ([server/router.go]). *)
From S2P Require Import Prelude GoText Netip Url Headers Registry.
Open Scope Z_scope.

(* ------------------------------------------------------------------ *)
(** ** The table *)

Record Route := MkRoute { r_Path : string; r_FunctionID : string; r_Methods : string; r_CreatedAt : Z }.
#[export] Instance eta_Route : Eta Route := fun r => MkRoute (r_Path r) (r_FunctionID r) (r_Methods r) (r_CreatedAt r).

(** Keyed by path, its primary key. *)
Definition table := gmap string Route.

Definition ReservedRoutePrefixes : list string :=
  ["/api/"; "/auth/"; "/web/"; "/_orva/"; "/fn/"; "/mcp/"; "/webhook/"]%string.

Inductive route_error := NoSlash | Reserved (p : string) | Wildcard.

Definition contains_star (s : string) : bool := existsb (Z.eqb 42) (bytes s).

(** [None]: the path is fine. *)
Definition ValidateRoutePath (path : string) : option route_error :=
  if negb (hasPrefix "/" path) then Some NoSlash
  else match List.find (fun p => hasPrefix p path) ReservedRoutePrefixes with
  | Some p => Some (Reserved p)
  | None => if contains_star path && negb (hasSuffix "/*" path) then Some Wildcard else None
  end.

(** [known]: the function is a row of its table, which the foreign key wants. *)
Definition UpsertRoute (io known : bool) (now : Z) (path functionID methods : string) (t : table) : res dberr table :=
  let methods := if bool_decide (methods = ""%string) then "*"%string else methods in
  if io then Err EDisk
  else if negb known then Err EForeignKey
  else Ok match t !! path with
          | Some old => <[path := MkRoute path functionID methods (r_CreatedAt old)]> t
          | None => <[path := MkRoute path functionID methods (timestamp now)]> t
          end.

Definition DeleteRoute (io : bool) (path : string) (t : table) : res dberr table :=
  if io then Err EDisk else Ok (delete path t).

Definition GetRoute (io : bool) (path : string) (t : table) : option Route := if io then None else t !! path.

(** [ON DELETE CASCADE] of [function_id]. *)
Definition function_deleted (fnID : string) (t : table) : table := filter (fun kr => r_FunctionID (snd kr) <> fnID) t.

(* ------------------------------------------------------------------ *)
(** ** Matching *)

(** SQLite's [LIKE] and [length] read a text up to its first NUL. *)
Fixpoint upto_nul (l : list Z) : list Z :=
  match l with [] => [] | c :: l => if c =? 0 then [] else c :: upto_nul l end.

(** A byte above 192 takes the continuation bytes behind it. *)
Fixpoint sql_chars (seq : bool) (l : list Z) : Z :=
  match l with
  | [] => 0
  | c :: l => if seq && (128 <=? c) && (c <? 192) then sql_chars true l else 1 + sql_chars (192 <=? c) l
  end.
Definition sql_length (s : string) : Z := sql_chars false (upto_nul (bytes s)).

(** [path LIKE '%/*']. *)
Definition like_wildcard (r : Route) : bool := hasSuffix "/*" (of_bytes (upto_nul (bytes (r_Path r)))).

(** "/shop/*" is asked for as "/shop/". *)
Definition route_prefix (r : Route) : string := str_take (String.length (r_Path r) - 1) (r_Path r).

(** How the walk over the rows of the query goes. *)
Inductive rows_fate := RowsFine | QueryFails | ScanFailsAt (n : nat) | StopsAt (n : nat).

Definition first_prefix (reqPath : string) (rows : list Route) : option Route :=
  List.find (fun r => hasPrefix (route_prefix r) reqPath) rows.

(** [order] sorts by decreasing length, rows of one length in any order.
    [None] is an error, [Some None] no route. *)
Definition MatchRoute (order : list Route -> list Route) (io : bool) (fate : rows_fate) (reqPath : string) (t : table) :
    option (option (Route * string)) :=
  match GetRoute io reqPath t with
  | Some r => Some (Some (r, r_Path r))
  | None =>
    let rows := order (List.filter like_wildcard (snd <$> map_to_list t)) in
    let answer r := (r, route_prefix r) in
    match fate with
    | QueryFails => None
    | RowsFine => Some (answer <$> first_prefix reqPath rows)
    | StopsAt n => Some (answer <$> first_prefix reqPath (take n rows))
    | ScanFailsAt n =>
      match first_prefix reqPath (take n rows) with
      | Some r => Some (Some (answer r))
      | None => if (n <? length rows)%nat then None else Some None
      end
    end
  end.

(* ------------------------------------------------------------------ *)
(** ** The handlers *)

Record routeDTO := MkDTO { t_Path : string; t_FunctionID : string; t_Methods : string }.

(** [body]: what the decoder made of it; [exists_fn]: the registry has the
    function. *)
Definition RouteHandler_Upsert (body : option routeDTO) (exists_fn : string -> bool) (io known : bool) (now : Z) (t : table) :
    table * (Z * string) :=
  match body with
  | None => (t, (400, "INVALID_JSON"%string))
  | Some req =>
    let path := trimSpace (t_Path req) in
    let functionID := trimSpace (t_FunctionID req) in
    if bool_decide (is_Some (ValidateRoutePath path)) then (t, (400, "VALIDATION"%string))
    else if bool_decide (functionID = ""%string) then (t, (400, "VALIDATION"%string))
    else if negb (exists_fn functionID) then (t, (404, "NOT_FOUND"%string))
    else match UpsertRoute io known now path functionID (t_Methods req) t with
         | Ok t' => (t', (201, "saved"%string))
         | Err _ => (t, (500, "INTERNAL"%string))
         end
  end.

Definition RouteHandler_Delete (path : string) (io : bool) (t : table) : table * (Z * string) :=
  if bool_decide (path = ""%string) then (t, (400, "INVALID_REQUEST"%string))
  else match DeleteRoute io path t with
       | Ok t' => (t', (200, "deleted"%string))
       | Err _ => (t, (500, "INTERNAL"%string))
       end.

Inductive route_op :=
| OpUpsert (body : option routeDTO) (exists_fn : string -> bool) (io known : bool) (now : Z)
| OpDelete (path : string) (io : bool)
| OpFunctionDeleted (fnID : string).

Definition route_step (t : table) (op : route_op) : table :=
  match op with
  | OpUpsert body exists_fn io known now => (RouteHandler_Upsert body exists_fn io known now t).1
  | OpDelete path io => (RouteHandler_Delete path io t).1
  | OpFunctionDeleted fnID => function_deleted fnID t
  end.

(* ------------------------------------------------------------------ *)
(** ** From a path to a function *)

(** [extractFnID] of [server/handlers/invoke.go]. *)
Definition extractFnID (path : string) : string :=
  if hasPrefix "/fn/" path then of_bytes (cut 47 (bytes (trimPrefix "/fn/" path))).1 else "".

Definition method_allowed (methods method : string) : bool :=
  if bool_decide (methods = "*"%string) || bool_decide (methods = ""%string) then true
  else existsb (fun m => fold_is (trimSpace (of_bytes m)) method) (split 44 (bytes methods)).

(** The first part of [ServeHTTP]: the function and the prefix to strip, both
    empty for a path that is nobody's. *)
Definition resolve (found : option (option (Route * string))) (method path : string) : res (Z * string) (string * string) :=
  if hasPrefix "/fn/" path then Ok (extractFnID path, ""%string)
  else match found with
       | Some (Some (r, matched)) =>
         if method_allowed (r_Methods r) method then Ok (r_FunctionID r, matched)
         else Err (405, "METHOD_NOT_ALLOWED"%string)
       | _ => Ok (""%string, ""%string)
       end.

(** [isReservedPath] and the handler of "/" in [server/router.go]: whether the
    request goes on to [ServeHTTP]. *)
Definition isReservedPath (path : string) : bool :=
  bool_decide (path = "/"%string) || bool_decide (path = "/mcp"%string) ||
  existsb (fun p => hasPrefix p path) ["/api/"; "/fn/"; "/mcp/"; "/web/"; "/_orva/"; "/webhook/"]%string.

Definition catch_all (found : option (option (Route * string))) (path : string) : bool :=
  negb (isReservedPath path) && match found with Some (Some _) => true | _ => false end.

Definition no_shorter (a b : Route) : Prop := sql_length (r_Path b) <= sql_length (r_Path a).
#[export] Instance no_shorter_dec : RelDecision no_shorter.
Proof. intros a b. unfold no_shorter. apply _. Defined.
#[export] Instance no_shorter_total : Total no_shorter.
Proof. intros a b. unfold no_shorter. lia. Qed.
#[export] Instance no_shorter_trans : Transitive no_shorter.
Proof. intros a b c. unfold no_shorter. lia. Qed.
Definition by_length (l : list Route) : list Route := merge_sort no_shorter l.

Definition sample_table : table :=
  foldl route_step ∅
    [OpUpsert (Some (MkDTO " /shop/* " "shop" "GET, post")) (fun _ => true) false true 1;
     OpUpsert (Some (MkDTO "/shop/cart/*" "cart" "")) (fun _ => true) false true 2;
     OpUpsert (Some (MkDTO "/shop/cart/pay" "pay" "*")) (fun _ => true) false true 3;
     OpUpsert (Some (MkDTO "/*" "rest" "")) (fun _ => true) false true 4;
     OpUpsert (Some (MkDTO "/api/x" "evil" "")) (fun _ => true) false true 5]%string.

Definition asked (path : string) : res (Z * string) (string * string) :=
  resolve (MatchRoute by_length false RowsFine path sample_table) "POST" path.

Example sample_routes :
  map asked ["/shop/x"; "/shop/cart/1"; "/shop/cart/pay"; "/hello"; "/fn/f/sub"; "/fn/f"]%string
  = [Ok ("shop", "/shop/"); Ok ("cart", "/shop/cart/"); Ok ("pay", "/shop/cart/pay"); Ok ("rest", "/"); Ok ("f", ""); Ok ("f", "")]%string.
Proof. vm_compute. reflexivity. Qed.

(** "/auth/" is on one list of reserved prefixes and not on the other. *)
Example auth_reaches_a_wildcard :
  catch_all (MatchRoute by_length false RowsFine "/auth/login" sample_table) "/auth/login" = true /\
  catch_all (MatchRoute by_length false RowsFine "/web/x" sample_table) "/web/x" = false.
Proof. vm_compute. auto. Qed.

(* ------------------------------------------------------------------ *)
(** ** The route that answers *)

(** What SQLite promises of the query's order. *)
Definition longest_first (order : list Route -> list Route) : Prop :=
  forall l, Permutation (order l) l /\ StronglySorted no_shorter (order l).

Lemma by_length_sorts : longest_first by_length.
Proof.
  intros l. split; [apply merge_sort_Permutation|apply StronglySorted_merge_sort; tc_solve].
Qed.

Definition plain_path (s : string) : Prop := Forall (fun c => c <> 0) (bytes s).

#[export] Instance plain_path_dec s : Decision (plain_path s).
Proof. unfold plain_path. apply _. Defined.

Definition wildcard (r : Route) : bool := hasSuffix "/*" (r_Path r).

(** The route is for this path: its own, or one below its prefix. *)
Definition covers (reqPath : string) (r : Route) : Prop :=
  r_Path r = reqPath \/ (wildcard r = true /\ hasPrefix (route_prefix r) reqPath = true).

Lemma upto_nul_plain l : Forall (fun c => c <> 0) l -> upto_nul l = l.
Proof. induction 1 as [|c l Hc _ IH]; [done|]. cbn [upto_nul]. rewrite (proj2 (Z.eqb_neq c 0)) by done. by f_equal. Qed.

Lemma like_wildcard_plain r : plain_path (r_Path r) -> like_wildcard r = wildcard r.
Proof. intros H. unfold like_wildcard, wildcard. by rewrite upto_nul_plain, of_bytes_bytes. Qed.

Lemma str_take_drop n s : (str_take n s ++ str_drop n s)%string = s.
Proof. revert s. induction n as [|n IH]; intros [|c s]; try done. simpl. change (String c (str_take n s ++ str_drop n s) = String c s). by rewrite IH. Qed.

Lemma str_length_app s t : String.length (s ++ t) = (String.length s + String.length t)%nat.
Proof. rewrite <- !length_bytes, bytes_app. apply length_app. Qed.

Lemma str_app_assoc (s t u : string) : ((s ++ t) ++ u)%string = (s ++ (t ++ u))%string.
Proof. apply bytes_inj. rewrite !bytes_app. by rewrite app_assoc. Qed.

(** A wildcard route is its prefix, which ends in a slash, and a star. *)
Lemma wildcard_shape r :
  wildcard r = true -> exists p, route_prefix r = (p ++ "/")%string /\ r_Path r = (p ++ "/*")%string.
Proof.
  unfold wildcard, hasSuffix, route_prefix. set (s := r_Path r). change (String.length "/*") with 2%nat.
  intros [H1%Nat.leb_le H2%bool_decide_eq_true]%andb_true_iff.
  exists (str_take (String.length s - 2) s). pose proof (str_take_drop (String.length s - 2) s) as Hs. rewrite H2 in Hs.
  split; [|by symmetry]. set (p := str_take (String.length s - 2) s) in *. rewrite <- Hs.
  rewrite str_length_app. change (String.length "/*") with 2%nat.
  replace (String.length p + 2 - 1)%nat with (String.length (p ++ "/")) by (rewrite str_length_app; simpl; lia).
  change (p ++ "/*")%string with (p ++ ("/" ++ "*"))%string. rewrite <- str_app_assoc. apply str_take_app.
Qed.

Lemma sql_chars_nonneg l : forall seq, 0 <= sql_chars seq l.
Proof. induction l as [|c l IH]; intros seq; simpl; [lia|]. destruct (_ && _); [apply IH|]. pose proof (IH (192 <=? c)). lia. Qed.

(** An ASCII byte is one character whatever is before it. *)
Lemma sql_chars_slash a b : forall seq, sql_chars seq (a ++ 47 :: b) = sql_chars seq a + 1 + sql_chars false b.
Proof.
  induction a as [|c a IH]; intros seq; cbn [app sql_chars].
  - change (128 <=? 47) with false. change (192 <=? 47) with false. rewrite andb_false_r. cbn [andb]. lia.
  - destruct (_ && _); rewrite IH; lia.
Qed.

Lemma hasPrefix_iff p s : hasPrefix p s = true <-> exists r, s = (p ++ r)%string.
Proof.
  split.
  - intros [r Hr]%hasPrefix_bytes. exists (of_bytes r). apply bytes_inj. rewrite bytes_app, bytes_of_bytes; [done|].
    pose proof (bytes_are_bytes s) as H. rewrite Hr in H. by apply Forall_app in H as [_ H].
  - intros [r ->]. induction p as [|c p IH]; [done|]. simpl. by rewrite bool_decide_eq_true_2.
Qed.

Lemma sql_length_wildcard r p :
  plain_path (r_Path r) -> r_Path r = (p ++ "/*")%string -> sql_length (r_Path r) = sql_chars false (bytes p) + 2.
Proof.
  intros Hp E. unfold sql_length. rewrite upto_nul_plain by done. rewrite E, bytes_app.
  change (bytes "/*") with (47 :: [42]). rewrite sql_chars_slash. simpl. lia.
Qed.

(** Of two wildcards for one path, SQLite's length orders them as their bytes do. *)
Lemma longer_prefix r r' reqPath :
  plain_path (r_Path r) -> plain_path (r_Path r') -> wildcard r = true -> wildcard r' = true ->
  hasPrefix (route_prefix r) reqPath = true -> hasPrefix (route_prefix r') reqPath = true ->
  r_Path r = r_Path r' \/ ((String.length (r_Path r) < String.length (r_Path r'))%nat /\ sql_length (r_Path r) < sql_length (r_Path r')) \/
  ((String.length (r_Path r') < String.length (r_Path r))%nat /\ sql_length (r_Path r') < sql_length (r_Path r)).
Proof.
  intros Hp Hp' Hw Hw'. destruct (wildcard_shape r Hw) as (p & -> & E). destruct (wildcard_shape r' Hw') as (p' & -> & E').
  intros H H'. apply hasPrefix_bytes in H as [a Ha]. apply hasPrefix_bytes in H' as [a' Ha'].
  rewrite (sql_length_wildcard r p Hp E), (sql_length_wildcard r' p' Hp' E'), E, E'. rewrite !str_length_app.
  rewrite Ha in Ha'. rewrite !bytes_app, <- !app_assoc in Ha'. change (bytes "/") with [47] in Ha'. cbn [app] in Ha'.
  rewrite <- !length_bytes.
  destruct (Nat.lt_trichotomy (length (bytes p)) (length (bytes p'))) as [Hlt|[Heq|Hlt]].
  - right; left. split; [lia|]. pose proof (f_equal (take (length (bytes p'))) Ha') as Ht.
    rewrite (take_app_length (bytes p')) in Ht. rewrite take_app_ge in Ht by lia.
    destruct (length (bytes p') - length (bytes p))%nat as [|k] eqn:Ek; [lia|]. cbn [take] in Ht. rewrite <- Ht.
    rewrite sql_chars_slash. pose proof (sql_chars_nonneg (take k a) false). lia.
  - left. f_equal. apply bytes_inj. pose proof (f_equal (take (length (bytes p))) Ha') as Ht.
    rewrite take_app_length in Ht. rewrite Heq, take_app_length in Ht. done.
  - right; right. split; [lia|]. pose proof (f_equal (take (length (bytes p))) Ha') as Ht.
    rewrite (take_app_length (bytes p)) in Ht. rewrite take_app_ge in Ht by lia.
    destruct (length (bytes p) - length (bytes p'))%nat as [|k] eqn:Ek; [lia|]. cbn [take] in Ht. rewrite Ht.
    rewrite sql_chars_slash. pose proof (sql_chars_nonneg (take k a') false). lia.
Qed.

Lemma find_first {A} (R : relation A) f l x :
  StronglySorted R l -> List.find f l = Some x -> x ∈ l /\ f x = true /\ forall y, y ∈ l -> f y = true -> y = x \/ R x y.
Proof.
  induction 1 as [|z l Hs IH Hz]; [done|]. simpl. destruct (f z) eqn:Ez.
  - intros [= ->]. split; [left|]. split; [done|]. intros y [->|Hy]%elem_of_cons _; [by left|right].
    rewrite Forall_forall in Hz. by apply Hz.
  - intros H. destruct (IH H) as (H1 & H2 & H3). split; [by right|]. split; [done|].
    intros y [->|Hy]%elem_of_cons Hf; [congruence|by apply H3].
Qed.

(** A table built by its operations holds valid paths under themselves. *)
Definition routes_ok (t : table) : Prop := map_Forall (fun k r => r_Path r = k /\ ValidateRoutePath k = None) t.

Lemma route_step_ok t op : routes_ok t -> routes_ok (route_step t op).
Proof.
  intros Ht. destruct op as [[req|] exists_fn io known now|path io|fnID]; cbn [route_step]; [| |..].
  - unfold RouteHandler_Upsert. case_bool_decide as Hv; [done|]. case_bool_decide; [done|].
    destruct (negb _); [done|]. unfold UpsertRoute. destruct io; [done|]. destruct (negb known); [done|]. cbn [fst].
    assert (ValidateRoutePath (trimSpace (t_Path req)) = None) as Hnone by (destruct (ValidateRoutePath _); [by destruct Hv|done]).
    destruct (t !! _); apply map_Forall_insert_2; done.
  - done.
  - unfold RouteHandler_Delete. case_bool_decide; [done|]. unfold DeleteRoute. destruct io; [done|]. by apply map_Forall_delete.
  - intros k r [H _]%map_lookup_filter_Some. by apply Ht.
Qed.

Lemma routes_reachable_ok ops : routes_ok (foldl route_step ∅ ops).
Proof.
  assert (forall t, routes_ok t -> routes_ok (foldl route_step t ops)) as H; [|apply H, map_Forall_empty].
  induction ops as [|op ops IH]; intros t Ht; [done|]. apply IH. by apply route_step_ok.
Qed.

Lemma routes_of t r : routes_ok t -> r ∈ (snd <$> map_to_list t) -> t !! r_Path r = Some r.
Proof. intros Ht ([k r'] & -> & H%elem_of_map_to_list)%list_elem_of_fmap. destruct (Ht _ _ H) as [E _]. simpl in *. by rewrite E. Qed.

Lemma routes_in (t : table) k r : t !! k = Some r -> r ∈ (snd <$> map_to_list t).
Proof. intros H. apply list_elem_of_fmap. exists (k, r). split; [done|]. by apply elem_of_map_to_list. Qed.

Lemma hasPrefix_refl s : hasPrefix s s = true.
Proof. apply hasPrefix_iff. exists ""%string. apply bytes_inj. by rewrite bytes_app, app_nil_r. Qed.

(** The rows of the query that are for the path. *)
Lemma first_prefix_spec order t :
  longest_first order -> routes_ok t -> map_Forall (fun _ r => plain_path (r_Path r)) t ->
  let rows := order (List.filter like_wildcard (snd <$> map_to_list t)) in
  StronglySorted no_shorter rows /\
  forall r, r ∈ rows <-> t !! r_Path r = Some r /\ wildcard r = true.
Proof.
  intros Ho Ht Hp rows. destruct (Ho (List.filter like_wildcard (snd <$> map_to_list t))) as [Hperm Hs]. split; [done|].
  intros r. unfold rows. rewrite Hperm, list_elem_of_In, List.filter_In, <- list_elem_of_In. split.
  - intros [Hin Hl]. pose proof (routes_of t r Ht Hin) as E. split; [done|]. by rewrite <- like_wildcard_plain by apply (Hp _ _ E).
  - intros [E Hw]. split; [by eapply routes_in|]. by rewrite like_wildcard_plain by apply (Hp _ _ E).
Qed.

(** In a table built by its operations the most specific route answers: the
    route of the very path if there is one, else the wildcard with the
    longest prefix of it, and no route only when none is for the path --
    however SQLite orders rows of one length. *)
Theorem the_most_specific_route_answers order ops reqPath :
  let t := foldl route_step ∅ ops in
  longest_first order -> map_Forall (fun _ r => plain_path (r_Path r)) t ->
  match MatchRoute order false RowsFine reqPath t with
  | None => False
  | Some None => forall r, t !! r_Path r = Some r -> ~ covers reqPath r
  | Some (Some (r, matched)) =>
    t !! r_Path r = Some r /\ covers reqPath r /\ hasPrefix matched reqPath = true /\
    (r_Path r <> reqPath -> forall r', t !! r_Path r' = Some r' -> covers reqPath r' ->
       r' = r \/ (String.length (r_Path r') < String.length (r_Path r))%nat)
  end.
Proof.
  intros t Ho Hp. pose proof (routes_reachable_ok ops) as Ht. fold t in Ht. unfold MatchRoute, GetRoute.
  destruct (t !! reqPath) as [r|] eqn:E.
  { destruct (Ht _ _ E) as [<- _]. split_and!; [done|by left|apply hasPrefix_refl|done]. }
  destruct (first_prefix_spec order t Ho Ht Hp) as [Hs Hrows]. set (rows := order _) in *.
  destruct (first_prefix reqPath rows) as [r|] eqn:Ef; cbn [fmap option_fmap option_map].
  - destruct (find_first _ _ _ _ Hs Ef) as (Hin & Hf & Hbest). apply Hrows in Hin as [Hr Hw].
    split_and!; [done|by right|done|]. intros _ r' Hr' [Hc|[Hw' Hf']]; [congruence|].
    assert (r' ∈ rows) as Hin' by by apply Hrows.
    destruct (Hbest r' Hin' Hf') as [->|Hle]; [by left|]. unfold no_shorter in Hle.
    destruct (longer_prefix r r' reqPath) as [H|[[_ H]|[H _]]]; [by apply (Hp _ _ Hr)|by apply (Hp _ _ Hr')|done..| | |].
    + left. rewrite <- H in Hr'. congruence.
    + lia.
    + by right.
  - intros r Hr [Hc|[Hw Hf]]; [congruence|]. assert (r ∈ rows) as Hin by by apply Hrows.
    apply list_elem_of_In in Hin. pose proof (List.find_none _ _ Ef r Hin). simpl in *. congruence.
Qed.

Lemma the_most_specific_route_answers_witness :
  exists r, MatchRoute by_length false RowsFine "/shop/cart/1" sample_table = Some (Some (r, "/shop/cart/"%string)) /\
    covers "/shop/cart/1" r.
Proof.
  assert (map_Forall (fun _ r => plain_path (r_Path r)) sample_table) as Hp.
  { apply (bool_decide_unpack _). vm_compute. exact I. }
  pose proof (the_most_specific_route_answers by_length _ "/shop/cart/1" by_length_sorts Hp) as H.
  fold sample_table in H. destruct (MatchRoute by_length false RowsFine "/shop/cart/1" sample_table) as [[[r m]|]|] eqn:E; vm_compute in E.
  - injection E as Er Em. exists r. split; [by rewrite Em|]. apply H.
  - discriminate E.
  - discriminate E.
Defined.

(* ------------------------------------------------------------------ *)
(** ** The platform's own paths *)

Lemma reserved_none p path : ValidateRoutePath path = None -> p ∈ ReservedRoutePrefixes -> hasPrefix p path = false.
Proof.
  unfold ValidateRoutePath. destruct (negb _); [done|]. destruct (List.find _ _) eqn:E; [done|]. intros _ Hp%list_elem_of_In.
  exact (List.find_none _ _ E p Hp).
Qed.

Lemma valid_star path : ValidateRoutePath path = None -> contains_star path = true -> hasSuffix "/*" path = true.
Proof.
  unfold ValidateRoutePath. destruct (negb (hasPrefix _ _)); [done|]. destruct (List.find _ _); [done|]. intros H Hs. rewrite Hs in H.
  by destruct (hasSuffix "/*" path).
Qed.

Lemma upto_nul_in c l : c ∈ upto_nul l -> c ∈ l.
Proof.
  induction l as [|x l IH]; [done|]. simpl. destruct (x =? 0); [by intros ?%elem_of_nil|].
  intros [->|H]%elem_of_cons; [left|right; auto].
Qed.

Lemma like_wildcard_star r : like_wildcard r = true -> contains_star (r_Path r) = true.
Proof.
  unfold like_wildcard, hasSuffix. intros [_ H%bool_decide_eq_true]%andb_true_iff. unfold contains_star.
  apply existsb_exists. exists 42. split; [|done]. apply list_elem_of_In, upto_nul_in.
  assert (Forall (fun b => 0 <= b < 256) (upto_nul (bytes (r_Path r)))) as Hb.
  { apply Forall_forall. intros c Hc%upto_nul_in. pose proof (bytes_are_bytes (r_Path r)) as Hr. rewrite Forall_forall in Hr. by apply Hr. }
  rewrite <- (bytes_of_bytes _ Hb). set (s := of_bytes _) in *.
  rewrite <- (str_take_drop (String.length s - String.length "/*") s), H, bytes_app. apply elem_of_app. right. right. left.
Qed.

(** A route whose prefix is one of a reserved path is the root's wildcard. *)
Lemma under_reserved p r reqPath :
  p ∈ ReservedRoutePrefixes -> hasPrefix p reqPath = true -> ValidateRoutePath (r_Path r) = None ->
  like_wildcard r = true -> hasPrefix (route_prefix r) reqPath = true -> r_Path r = "/*"%string.
Proof.
  intros Hp Hreq Hv Hl Hf. pose proof (reserved_none p _ Hv Hp) as Hn.
  destruct (wildcard_shape r (valid_star _ Hv (like_wildcard_star r Hl))) as (q & Eq & E). rewrite Eq in Hf. rewrite E in *.
  apply hasPrefix_iff in Hreq as [a ->]. apply hasPrefix_bytes in Hf as [b Hb].
  rewrite !bytes_app in Hb. change (bytes "/") with [47] in Hb.
  destruct (decide (length (bytes p) <= length (bytes q ++ [47%Z]))%nat) as [Hle|Hlt].
  - exfalso. enough (hasPrefix p (q ++ "/*") = true) by congruence.
    apply hasPrefix_iff. exists (of_bytes (drop (length (bytes p)) (bytes q ++ [47]) ++ [42])).
    apply bytes_inj. rewrite !bytes_app.
    assert (Forall (fun b => 0 <= b < 256) (bytes q ++ [47])) as Hq.
    { apply Forall_app. split; [apply bytes_are_bytes|by repeat constructor]. }
    rewrite bytes_of_bytes by (apply Forall_app; split; [by apply Forall_drop|by repeat constructor]).
    rewrite app_assoc. change (bytes "/*") with ([47] ++ [42]). rewrite app_assoc. f_equal.
    rewrite <- (take_drop (length (bytes p)) (bytes q ++ [47])) at 1. f_equal.
    pose proof (f_equal (take (length (bytes p))) Hb) as Ht. rewrite take_app_length in Ht. by rewrite take_app_le in Ht by done.
  - assert (bytes q ++ [47] = take (length (bytes q) + 1) (bytes p)) as Ht.
    { pose proof (f_equal (take (length (bytes q) + 1)) Hb) as Ht. rewrite length_app in Hlt. simpl in Hlt.
      rewrite take_app_le in Ht by lia. rewrite Ht. rewrite take_app_ge by (rewrite length_app; simpl; lia).
      replace (_ - _)%nat with 0%nat by (rewrite length_app; simpl; lia). by rewrite take_0, app_nil_r. }
    rewrite length_app in Hlt. simpl in Hlt. enough (bytes q = []) as H0 by (by rewrite (bytes_inj q "" H0)).
    apply length_zero_iff_nil. apply (f_equal last) in Ht. rewrite last_snoc in Ht.
    revert Ht Hlt. generalize (length (bytes q)) as n. clear -Hp. intros n Ht Hlt.
    repeat (apply elem_of_cons in Hp as [->|Hp];
      [do 9 (destruct n as [|n]; [first [reflexivity|exfalso; simpl in Hlt; lia|exfalso; vm_compute in Ht; discriminate Ht]|]); simpl in Hlt; lia|]).
    by apply elem_of_nil in Hp.
Qed.

(** No custom route, whatever was registered, stands before the platform: a
    path under a reserved prefix is reached by the root's wildcard at most,
    the router lets it through to a function under "/auth/" only, and a call
    of "/fn/" runs the function it names. *)
Theorem custom_routes_never_shadow_the_platform order ops io fate p reqPath :
  longest_first order -> p ∈ ReservedRoutePrefixes -> hasPrefix p reqPath = true ->
  let found := MatchRoute order io fate reqPath (foldl route_step ∅ ops) in
  (forall r matched, found = Some (Some (r, matched)) -> r_Path r = "/*"%string) /\
  (catch_all found reqPath = true -> p = "/auth/"%string) /\
  (p = "/fn/"%string -> forall method, resolve found method reqPath = Ok (extractFnID reqPath, ""%string)).
Proof.
  intros Ho Hp Hreq found. pose proof (routes_reachable_ok ops) as Ht. split; [|split].
  - intros r matched. unfold found, MatchRoute, GetRoute. set (t := foldl route_step ∅ ops) in *.
    assert (Hexact : forall r', t !! reqPath = Some r' -> False).
    { intros r' E. destruct (Ht _ _ E) as [_ Hv]. pose proof (reserved_none p _ Hv Hp). congruence. }
    assert ((if io then None else t !! reqPath) = None) as -> by (destruct io; [done|]; destruct (t !! reqPath); [by exfalso; eapply Hexact|done]).
    set (rows := order _).
    assert (Hrow : forall r', r' ∈ rows -> hasPrefix (route_prefix r') reqPath = true -> r_Path r' = "/*"%string).
    { intros r' Hin Hf. unfold rows in Hin. destruct (Ho (List.filter like_wildcard (snd <$> map_to_list t))) as [Hperm _].
      rewrite Hperm, list_elem_of_In, List.filter_In, <- list_elem_of_In in Hin. destruct Hin as [Hin Hl].
      pose proof (routes_of t r' Ht Hin) as E. destruct (Ht _ _ E) as [_ Hv]. by apply (under_reserved p r' reqPath). }
    assert (Hfind : forall n r', first_prefix reqPath (take n rows) = Some r' -> r_Path r' = "/*"%string).
    { intros n r' [Hin Hf]%List.find_some. apply Hrow; [|done]. apply list_elem_of_In, elem_of_take in Hin as (i & Hi & _). by eapply list_elem_of_lookup_2. }
    destruct fate as [| |n|n].
    + destruct (first_prefix reqPath rows) as [r'|] eqn:E; [|done]. intros [= <- _]. apply (Hfind (length rows)). by rewrite firstn_all.
    + done.
    + destruct (first_prefix reqPath (take n rows)) as [r'|] eqn:E; [intros [= <- _]; by eapply Hfind|by destruct (_ <? _)%nat].
    + destruct (first_prefix reqPath (take n rows)) as [r'|] eqn:E; [intros [= <- _]; by eapply Hfind|done].
  - unfold catch_all, isReservedPath. intros [H _]%andb_true_iff. apply negb_true_iff, orb_false_iff in H as [_ H].
    repeat (apply elem_of_cons in Hp as [->|Hp]; [try done; exfalso; revert H; cbn [existsb]; rewrite Hreq, ?orb_true_r; done|]).
    by apply elem_of_nil in Hp.
  - intros -> method. unfold resolve. by rewrite Hreq.
Qed.

Lemma custom_routes_never_shadow_the_platform_witness :
  catch_all (MatchRoute by_length false RowsFine "/api/v1/keys" sample_table) "/api/v1/keys" = false.
Proof.
  destruct (custom_routes_never_shadow_the_platform by_length
    [OpUpsert (Some (MkDTO " /shop/* " "shop" "GET, post")) (fun _ => true) false true 1;
     OpUpsert (Some (MkDTO "/shop/cart/*" "cart" "")) (fun _ => true) false true 2;
     OpUpsert (Some (MkDTO "/shop/cart/pay" "pay" "*")) (fun _ => true) false true 3;
     OpUpsert (Some (MkDTO "/*" "rest" "")) (fun _ => true) false true 4;
     OpUpsert (Some (MkDTO "/api/x" "evil" "")) (fun _ => true) false true 5]%string false RowsFine "/api/" "/api/v1/keys")
    as (_ & H & _); [exact by_length_sorts|left|reflexivity|].
  fold sample_table in H. destruct (catch_all _ _); [|reflexivity]. discriminate (H eq_refl).
Defined.
