(* ===== verification/Baseline.v ===== *)
(** * Latency baselines and outliers ([metrics/baseline.go])

    Per function the last hundred durations of warm successes in a ring with
    cached percentiles, and the classification of an execution against them. *)
From S2P Require Import Prelude Float64.
Open Scope Z_scope.

Definition baselineSamples : nat := 100.
Definition baselineMinForOutlier : nat := 20.
Definition outlierMultiplier : float64 := f_of_int 2.

Record snap := MkSnap { sn_p95 : float64; sn_p99 : float64; sn_mean : float64; sn_n : nat }.
Definition no_snap : snap := MkSnap (f_of_int 0) (f_of_int 0) (f_of_int 0) 0.

(** [cached]: the snapshot the cache holds, [None] when it is stale. *)
Record ringBuf := MkRingBuf { samples : list float64; count : nat; idx : nat; total : Z; cached : option snap }.
#[export] Instance eta_ringBuf : Eta ringBuf := fun r => MkRingBuf (samples r) (count r) (idx r) (total r) (cached r).

Definition new_ring : ringBuf := MkRingBuf (replicate baselineSamples (f_of_int 0)) 0 0 0 None.

Definition record (durationMS : float64) (r : ringBuf) : ringBuf :=
  MkRingBuf (<[idx r := durationMS]> (samples r)) (if (count r <? baselineSamples)%nat then S (count r) else count r)
    ((idx r + 1) mod baselineSamples) (wrap64 (total r + 1)) None.

Definition percentileIndex (n : nat) (p : float64) : nat :=
  let i := f_to_int (fmul (f_of_int (Z.of_nat n - 1)) p) in
  if i <? 0 then O else if Z.of_nat n <=? i then (n - 1)%nat else Z.to_nat i.

(** [sort.Float64s] on durations, none of which is NaN. *)
Fixpoint insert_by {A} (le : A -> A -> bool) (x : A) (l : list A) : list A :=
  match l with [] => [x] | y :: l' => if le x y then x :: l else y :: insert_by le x l' end.
Definition sort_by {A} (le : A -> A -> bool) (l : list A) : list A := foldr (insert_by le) [] l.
Definition Float64s (l : list float64) : list float64 := sort_by fle l.

Definition percentile (cp : list float64) (p : float64) : float64 := nth (percentileIndex (length cp) p) cp (f_of_int 0).

(** The percentiles of what is in the buffer. *)
Definition compute (r : ringBuf) : snap :=
  let cp := Float64s (take (count r) (samples r)) in
  MkSnap (percentile cp (fconst 95 100)) (percentile cp (fconst 99 100))
    (fdiv (foldl fadd (f_of_int 0) cp) (f_of_int (Z.of_nat (count r)))) (count r).

Definition snapshot (r : ringBuf) : ringBuf * snap :=
  match cached r with
  | Some s => (r, s)
  | None => if (count r =? 0)%nat then (r, no_snap) else (r <| cached := Some (compute r) |>, compute r)
  end.

(** A buffer for each function. *)

Definition bufFor (fnID : string) (b : gmap string ringBuf) : ringBuf := default new_ring (b !! fnID).

Definition Record_ (fnID : string) (durationMS : Z) (b : gmap string ringBuf) : gmap string ringBuf :=
  if bool_decide (fnID = ""%string) then b else <[fnID := record (f_of_int durationMS) (bufFor fnID b)]> b.

Definition Snapshot (fnID : string) (b : gmap string ringBuf) : (gmap string ringBuf) * snap :=
  match b !! fnID with
  | Some r => let '(r, s) := snapshot r in (<[fnID := r]> b, s)
  | None => (b, no_snap)
  end.

Definition Classify (fnID : string) (durationMS : Z) (b : gmap string ringBuf) : (gmap string ringBuf) * (bool * Z) :=
  let '(b, s) := Snapshot fnID b in
  if (sn_n s <? baselineMinForOutlier)%nat then (b, (false, f_to_int (sn_p95 s)))
  else (b, (flt (fmul (sn_p95 s) outlierMultiplier) (f_of_int durationMS), f_to_int (sn_p95 s))).

Definition ObserveExecution (fnID status : string) (coldStart : bool) (durationMS : Z) (b : gmap string ringBuf) : (gmap string ringBuf) * (bool * Z) :=
  if bool_decide (fnID = ""%string) then (b, (false, 0))
  else
    let b := if bool_decide (status = "success"%string) && negb coldStart then Record_ fnID durationMS b else b in
    Classify fnID durationMS b.

(** The row update it asks for, if any. *)
Definition FinalizeExecution (db : bool) (execID fnID status : string) (coldStart : bool) (durationMS : Z) (b : gmap string ringBuf) :
    (gmap string ringBuf) * option (string * bool * Z) :=
  if negb db || bool_decide (execID = ""%string) || bool_decide (fnID = ""%string) then (b, None)
  else
    let '(b, (isOutlier, p95)) := ObserveExecution fnID status coldStart durationMS b in
    (b, if (0 <? p95) || isOutlier then Some (execID, isOutlier, p95) else None).

Definition Warm (entries : list (string * Z)) (b : gmap string ringBuf) : gmap string ringBuf :=
  foldl (fun b e => Record_ (fst e) (snd e) b) b entries.

Record BaselineSummary := MkSummary { bs_P95MS : Z; bs_P99MS : Z; bs_MeanMS : Z; bs_SampleCount : nat; bs_LastUpdatedAt : Z }.

(** [now]: unix milliseconds. *)
Definition Summary (now : Z) (fnID : string) (b : gmap string ringBuf) : (gmap string ringBuf) * BaselineSummary :=
  let '(b, s) := Snapshot fnID b in
  (b, MkSummary (f_to_int (sn_p95 s)) (f_to_int (sn_p99 s)) (f_to_int (sn_mean s)) (sn_n s)
        (if (0 <? sn_n s)%nat then now else 0)).

(* ------------------------------------------------------------------ *)
(** ** The specification, in milliseconds *)

(** The last hundred. *)
Definition window (hist : list Z) : list Z := drop (length hist - baselineSamples) hist.

(** The sample of rank [1 + 95 (n - 1) / 100]. *)
Definition rank95 (w : list Z) : Z := nth ((length w - 1) * 95 / 100) (merge_sort Z.le w) 0.

Definition spec_outlier (hist : list Z) (d : Z) : bool :=
  let w := window hist in (baselineMinForOutlier <=? length w)%nat && (2 * rank95 w <? d).

Inductive op :=
| Observed (fnID status : string) (coldStart : bool) (durationMS : Z)
| Finalized (db : bool) (execID fnID status : string) (coldStart : bool) (durationMS : Z)
| Warmed (entries : list (string * Z))
| Read (now : Z) (fnID : string).

Definition step (b : gmap string ringBuf) (o : op) : gmap string ringBuf :=
  match o with
  | Observed fnID status cold d => (ObserveExecution fnID status cold d b).1
  | Finalized db execID fnID status cold d => (FinalizeExecution db execID fnID status cold d b).1
  | Warmed es => Warm es b
  | Read now fnID => (Summary now fnID b).1
  end.

(** The durations an operation adds to a function's history. *)
Definition counts (fnID : string) (o : op) : list Z :=
  match o with
  | Observed f status cold d =>
    if bool_decide (f = fnID) && bool_decide (status = "success"%string) && negb cold then [d] else []
  | Finalized db execID f status cold d =>
    if db && negb (bool_decide (execID = ""%string)) && bool_decide (f = fnID) && bool_decide (status = "success"%string) && negb cold then [d] else []
  | Warmed es => snd <$> List.filter (fun e => bool_decide (fst e = fnID)) es
  | Read _ _ => []
  end.

Definition history (fnID : string) (ops : list op) : list Z := concat (map (counts fnID) ops).

(** Twenty runs of ten milliseconds make one of 21 an outlier, not one of 20;
    errors and cold starts change nothing. *)
Definition twenty : list op :=
  map (fun _ => Observed "f" "success" false 10) (seq 0 19) ++ [Observed "f" "error" false 900; Observed "f" "success" true 900].
Example twenty_one_is_an_outlier :
  let b := foldl step ∅ twenty in
  (ObserveExecution "f" "success" false 21 b).2 = (true, 10) /\ (ObserveExecution "f" "success" false 20 b).2 = (false, 10) /\
  (ObserveExecution "f" "error" false 900 b).2 = (false, 10).
Proof. vm_compute. auto. Qed.

(* ------------------------------------------------------------------ *)
(** ** The ring refines its window *)

Lemma sort_by_perm {A} (le : A -> A -> bool) l : Permutation (sort_by le l) l.
Proof.
  induction l as [|x l IH]; [done|]. simpl. rewrite <- IH at 2. generalize (sort_by le l) as k. clear.
  induction k as [|y k IH]; [done|]. simpl. destruct (le x y); [done|]. rewrite IH. apply perm_swap.
Qed.

Lemma sort_by_sorted l : StronglySorted Z.le (sort_by Z.leb l).
Proof.
  induction l as [|x l IH]; [constructor|]. simpl. induction IH as [|y k Hk IHk Hy]; [repeat constructor|]. simpl.
  destruct (Z.leb_spec x y) as [H|H].
  - constructor; [by constructor|]. constructor; [done|]. eapply Forall_impl; [exact Hy|]. simpl. lia.
  - constructor; [done|]. apply Forall_forall. intros z Hz.
    assert (z ∈ x :: k) as Hin.
    { clear -Hz. induction k as [|u k IH]; [done|]. simpl in Hz. destruct (Z.leb x u); [done|].
      apply elem_of_cons in Hz as [->|Hz]; [right; left|]. apply IH in Hz. apply elem_of_cons in Hz as [->|Hz]; [left|by right; right]. }
    apply elem_of_cons in Hin as [->|Hin]; [lia|]. rewrite Forall_forall in Hy. by apply Hy.
Qed.

Lemma sort_by_merge l : sort_by Z.leb l = merge_sort Z.le l.
Proof.
  apply (StronglySorted_unique Z.le); [apply sort_by_sorted|apply StronglySorted_merge_sort; tc_solve|].
  by rewrite sort_by_perm, merge_sort_Permutation.
Qed.

Definition duration_ok (d : Z) : Prop := 0 <= d < 2 ^ 52.
Lemma duration_small d : duration_ok d -> small_int d.
Proof. unfold duration_ok, small_int. lia. Qed.

Lemma sort_by_map l : Forall duration_ok l -> sort_by fle (map f_of_int l) = map f_of_int (sort_by Z.leb l).
Proof.
  induction 1 as [|x l Hx Hl IH]; [done|]. simpl. rewrite IH.
  assert (Forall duration_ok (sort_by Z.leb l)) as Hs by by rewrite sort_by_perm. revert Hs. generalize (sort_by Z.leb l) as k.
  induction 1 as [|y k Hy Hk IHk]; [done|]. simpl. rewrite fle_int by by apply duration_small. destruct (x <=? y); [done|].
  simpl. by rewrite IHk.
Qed.

(** [w] is what the ring holds, oldest first. *)
Record holds (w : list Z) (r : ringBuf) : Prop := {
  h_size : length (samples r) = baselineSamples;
  h_count : count r = length w;
  h_place : (length w < baselineSamples /\ idx r = length w /\ take (length w) (samples r) = map f_of_int w)%nat \/
            (length w = baselineSamples /\ idx r < baselineSamples /\ drop (idx r) (samples r) ++ take (idx r) (samples r) = map f_of_int w)%nat;
  h_cached : forall s, cached r = Some s -> s = compute r /\ w <> [] }.

Definition push (d : Z) (w : list Z) : list Z := if (length w <? baselineSamples)%nat then w ++ [d] else tail w ++ [d].

Lemma window_push hist d : window (hist ++ [d]) = push d (window hist).
Proof.
  unfold push, window. rewrite length_app, length_drop. cbn [length].
  destruct (Nat.ltb_spec (length hist - (length hist - baselineSamples)) baselineSamples) as [H|H].
  - replace (length hist + 1 - baselineSamples)%nat with O by lia. replace (length hist - baselineSamples)%nat with O by lia. by rewrite !drop_0.
  - replace (length hist + 1 - baselineSamples)%nat with (S (length hist - baselineSamples)) by lia.
    rewrite drop_app_le by (unfold baselineSamples in *; lia). assert (forall l : list Z, tail l = drop 1 l) as -> by (by intros [|x l]). by rewrite drop_drop, Nat.add_comm.
Qed.

Lemma record_holds d w r : holds w r -> holds (push d w) (record (f_of_int d) r).
Proof.
  intros [Hsize Hcount Hplace _]. unfold push, record. rewrite Hcount.
  assert (length (<[idx r := f_of_int d]> (samples r)) = baselineSamples) as Hs by by rewrite length_insert.
  destruct Hplace as [(Hlt & Hi & Ht)|(Hfull & Hi & Hrot)].
  - rewrite (proj2 (Nat.ltb_lt (length w) baselineSamples)) by done. rewrite Hi in *.
    assert (take (S (length w)) (<[length w := f_of_int d]> (samples r)) = map f_of_int (w ++ [d])) as Htake.
    { rewrite (take_S_r _ _ (f_of_int d)) by (apply list_lookup_insert_eq; lia).
      rewrite take_insert_ge by lia. by rewrite Ht, map_app. }
    split; cbn [samples count idx cached]; [done|by rewrite length_app, Nat.add_comm| |done].
    rewrite length_app. cbn [length]. destruct (decide (length w + 1 = baselineSamples)%nat) as [E|E].
    + right. split; [done|]. rewrite E, Nat.Div0.mod_same. split; [unfold baselineSamples; lia|].
      rewrite drop_0, take_0, app_nil_r. rewrite <- Htake. symmetry. apply take_ge. lia.
    + left. split; [lia|]. rewrite Nat.mod_small by lia. split; [lia|]. rewrite Nat.add_1_r. exact Htake.
  - rewrite Hfull. rewrite (proj2 (Nat.ltb_ge baselineSamples baselineSamples)) by done.
    destruct (drop (idx r) (samples r)) as [|x rest] eqn:Ed.
    { exfalso. apply (f_equal length) in Ed. rewrite length_drop in Ed. simpl in Ed. lia. }
    destruct w as [|y w]; [discriminate Hfull|]. cbn [app map] in Hrot. injection Hrot as Hx Hrest. cbn [tail].
    assert (drop (S (idx r)) (samples r) = rest) as Ed'.
    { rewrite <- (Nat.add_1_l (idx r)), Nat.add_comm, <- drop_drop, Ed || (rewrite <- Nat.add_1_r, <- drop_drop, Ed). done. }
    assert (length (w ++ [d]) = baselineSamples) as Hlen by (rewrite length_app; cbn in *; lia).
    split; cbn [samples count idx cached]; [done|by rewrite Hlen| |done]. right. split; [done|].
    assert (drop (S (idx r)) (<[idx r := f_of_int d]> (samples r)) = rest) as Hd by (rewrite drop_insert_lt by lia; done).
    assert (take (S (idx r)) (<[idx r := f_of_int d]> (samples r)) = take (idx r) (samples r) ++ [f_of_int d]) as Ht.
    { rewrite (take_S_r _ _ (f_of_int d)) by (apply list_lookup_insert_eq; lia). by rewrite take_insert_ge. }
    rewrite map_app. cbn [map]. rewrite <- Hrest. destruct (decide (idx r + 1 = baselineSamples)%nat) as [E|E].
    + rewrite E, Nat.Div0.mod_same. split; [unfold baselineSamples; lia|]. rewrite drop_0, take_0, app_nil_r.
      rewrite <- (take_drop (S (idx r)) (<[idx r := _]> _)), Ht, Hd.
      assert (rest = []) as -> by (apply nil_length_inv; rewrite <- Ed', length_drop; lia). by rewrite app_nil_r.
    + rewrite Nat.mod_small by lia. split; [lia|]. by rewrite Nat.add_1_r, Hd, Ht, app_assoc.
Qed.

Lemma holds_perm w r : holds w r -> Permutation (take (count r) (samples r)) (map f_of_int w).
Proof.
  intros [Hsize Hcount Hplace _]. rewrite Hcount. destruct Hplace as [(_ & _ & ->)|(Hfull & Hi & <-)]; [done|].
  rewrite Hfull, take_ge by lia. rewrite <- (take_drop (idx r) (samples r)) at 1. apply Permutation_app_comm.
Qed.

Lemma holds_bound w r : holds w r -> (length w <= baselineSamples)%nat.
Proof. intros [_ _ [(H & _)|(H & _)] _]; lia. Qed.

Lemma rank_index n : (1 <= n <= baselineSamples)%nat -> percentileIndex n (fconst 95 100) = ((n - 1) * 95 / 100)%nat.
Proof.
  intros Hn. assert (forallb (fun n => (percentileIndex n (fconst 95 100) =? (n - 1) * 95 / 100)%nat) (seq 1 100) = true) as H
    by (vm_compute; reflexivity).
  rewrite List.forallb_forall in H. apply Nat.eqb_eq, H. apply List.in_seq. unfold baselineSamples in Hn. lia.
Qed.

Lemma rank95_duration w : Forall duration_ok w -> duration_ok (rank95 w).
Proof.
  intros Hw. unfold rank95. rewrite <- (merge_sort_Permutation Z.le) in Hw. rewrite <- (Permutation_length (merge_sort_Permutation Z.le w)).
  destruct (nth_in_or_default ((length (merge_sort Z.le w) - 1) * 95 / 100) (merge_sort Z.le w) 0) as [Hin| ->].
  - rewrite Forall_forall in Hw. apply Hw. by apply list_elem_of_In.
  - unfold duration_ok. lia.
Qed.

Lemma compute_p95 w r : holds w r -> Forall duration_ok w -> w <> [] -> sn_p95 (compute r) = f_of_int (rank95 w) /\ sn_n (compute r) = length w.
Proof.
  intros Hh Hw Hne. pose proof (holds_bound w r Hh) as Hb. destruct (Permutation_map_inv _ _ (holds_perm w r Hh)) as (l & El & Hl).
  unfold compute. cbn [sn_p95 sn_n]. rewrite El. unfold Float64s. rewrite sort_by_map by by rewrite <- Hl.
  rewrite sort_by_merge. split; [|by apply Hh].
  assert (merge_sort Z.le l = merge_sort Z.le w) as ->.
  { apply (StronglySorted_unique Z.le); [apply StronglySorted_merge_sort; tc_solve..|]. by rewrite !merge_sort_Permutation. }
  unfold percentile, rank95. pose proof (Permutation_length (merge_sort_Permutation Z.le w)) as Hlen.
  rewrite length_map, Hlen, rank_index by (destruct w; [done|cbn in *; lia]). apply map_nth.
Qed.

Lemma snapshot_holds w r :
  holds w r -> Forall duration_ok w ->
  let '(r', s) := snapshot r in holds w r' /\ sn_p95 s = f_of_int (rank95 w) /\ sn_n s = length w.
Proof.
  intros Hh Hw. unfold snapshot. pose proof Hh as [Hsize Hcount Hplace Hcached]. destruct (cached r) as [s|] eqn:Ec.
  - split; [done|]. destruct (Hcached s eq_refl) as [-> Hne]. by apply compute_p95.
  - rewrite Hcount. destruct w as [|x w]; [done|]. split; [|by apply compute_p95].
    split; cbn; [done..|]. by intros s [= <-].
Qed.

Lemma new_ring_holds : holds [] new_ring.
Proof. split; [done..| |done]. left. split; [unfold baselineSamples; simpl; lia|done]. Qed.

(* ------------------------------------------------------------------ *)
(** ** Every function's buffer *)

Definition refines (hist : string -> list Z) (b : gmap string ringBuf) : Prop :=
  forall fnID, holds (window (hist fnID)) (bufFor fnID b) /\ Forall duration_ok (hist fnID).

Lemma window_ok hist : Forall duration_ok hist -> Forall duration_ok (window hist).
Proof. intros H. by apply Forall_drop. Qed.

Definition also (fnID : string) (ds : list Z) (hist : string -> list Z) : string -> list Z :=
  fun f => hist f ++ (if bool_decide (f = fnID) then ds else []).

Lemma Record_refines fnID d hist b :
  fnID <> ""%string -> duration_ok d -> refines hist b -> refines (also fnID [d] hist) (Record_ fnID d b).
Proof.
  intros Hne Hd Hr f. unfold Record_, also. rewrite (bool_decide_eq_false_2 (fnID = _)) by done. unfold bufFor.
  destruct (Hr f) as [Hh Hf]. destruct (Hr fnID) as [Hh' Hf']. case_bool_decide as E.
  - subst f. rewrite lookup_insert_eq. cbn [from_option id]. rewrite window_push. split; [by apply record_holds|].
    apply Forall_app. split; [done|by constructor].
  - rewrite lookup_insert_ne by done. by rewrite app_nil_r.
Qed.

Lemma Snapshot_refines fnID hist b :
  refines hist b ->
  let '(b', s) := Snapshot fnID b in
  refines hist b' /\ sn_p95 s = f_of_int (rank95 (window (hist fnID))) /\ sn_n s = length (window (hist fnID)).
Proof.
  intros Hr. unfold Snapshot. destruct (Hr fnID) as [Hh Hf]. unfold bufFor in Hh. destruct (b !! fnID) as [r|] eqn:E; cbn [from_option id] in Hh.
  - pose proof (snapshot_holds _ _ Hh (window_ok _ Hf)) as H. destruct (snapshot r) as [r' s].
    destruct H as (H & Hp & Hn).
    split; [|done]. intros f. destruct (Hr f) as [Hfh Hff]. split; [|done]. unfold bufFor.
    destruct (decide (f = fnID)) as [->|]; [by rewrite lookup_insert_eq|by rewrite lookup_insert_ne].
  - split; [done|]. pose proof (h_count _ _ Hh) as Hc. destruct (window (hist fnID)); [done|discriminate Hc].
Qed.

Lemma Classify_refines fnID d hist b :
  refines hist b -> duration_ok d ->
  let '(b', (out, p95)) := Classify fnID d b in
  refines hist b' /\ out = spec_outlier (hist fnID) d /\ p95 = rank95 (window (hist fnID)).
Proof.
  intros Hr Hd. unfold Classify. pose proof (Snapshot_refines fnID hist b Hr) as H. destruct (Snapshot fnID b) as [b' s].
  destruct H as (H & Hp & Hn). pose proof (rank95_duration _ (window_ok _ (proj2 (Hr fnID)))) as Hrank.
  rewrite Hp, Hn. unfold spec_outlier. destruct (Nat.ltb_spec (length (window (hist fnID))) baselineMinForOutlier) as [Hlt|Hge].
  - rewrite (proj2 (Nat.leb_gt baselineMinForOutlier _)) by done. by rewrite f_to_int_int by by apply duration_small.
  - rewrite (proj2 (Nat.leb_le baselineMinForOutlier _)) by done. unfold outlierMultiplier.
    rewrite fmul_two by exact Hrank. rewrite flt_int, f_to_int_int; [done|by apply duration_small| |by apply duration_small].
    unfold duration_ok, small_int in *. lia.
Qed.

Lemma refines_ext hist hist' b : (forall f, hist f = hist' f) -> refines hist b -> refines hist' b.
Proof. intros He Hr f. rewrite <- He. apply Hr. Qed.

Lemma also_nil fnID hist f : also fnID [] hist f = hist f.
Proof. unfold also. by destruct (bool_decide _); rewrite app_nil_r. Qed.

Lemma Observe_refines fnID status cold d hist b :
  fnID <> ""%string -> refines hist b -> duration_ok d ->
  let ds := if bool_decide (status = "success"%string) && negb cold then [d] else [] in
  let '(b', (out, p95)) := ObserveExecution fnID status cold d b in
  refines (also fnID ds hist) b' /\ out = spec_outlier (hist fnID ++ ds) d /\ p95 = rank95 (window (hist fnID ++ ds)).
Proof.
  intros Hne Hr Hd ds. unfold ObserveExecution. rewrite bool_decide_eq_false_2 by done.
  assert (refines (also fnID ds hist) (if bool_decide (status = "success"%string) && negb cold then Record_ fnID d b else b)) as Hr'.
  { unfold ds. destruct (_ && _); [by apply Record_refines|]. eapply refines_ext; [|exact Hr]. intros f. by rewrite also_nil. }
  pose proof (Classify_refines fnID d _ _ Hr' Hd) as H. destruct (Classify fnID d _) as [b' [out p95]].
  unfold also in H at 2 3. by rewrite bool_decide_eq_true_2 in H by done.
Qed.

Definition op_durations (o : op) : list Z :=
  match o with
  | Observed _ _ _ d | Finalized _ _ _ _ _ d => [d]
  | Warmed es => snd <$> es
  | Read _ _ => []
  end.

Lemma Warm_refines es : forall hist b,
  refines hist b -> Forall duration_ok (snd <$> es) ->
  refines (fun f => hist f ++ (if bool_decide (f = ""%string) then [] else snd <$> List.filter (fun e => bool_decide (fst e = f)) es)) (Warm es b).
Proof.
  induction es as [|[k d] es IH]; intros hist b Hr Hd.
  { eapply refines_ext; [|exact Hr]. intros f. simpl. by destruct (bool_decide _); rewrite app_nil_r. }
  apply Forall_cons in Hd as [Hd Hds]. cbn [Warm foldl fst snd]. fold (Warm es (Record_ k d b)).
  destruct (decide (k = ""%string)) as [->|Hk].
  - unfold Record_. rewrite bool_decide_eq_true_2 by done. eapply refines_ext; [|apply (IH hist b Hr Hds)]. intros f. f_equal.
    destruct (decide (f = ""%string)) as [->|Hf]; [done|]. rewrite !(bool_decide_eq_false_2 (f = _)) by done. cbn [List.filter fst].
    by rewrite bool_decide_eq_false_2 by congruence.
  - eapply refines_ext; [|apply (IH _ _ (Record_refines k d hist b Hk Hd Hr) Hds)]. intros f. unfold also. rewrite <- app_assoc. f_equal.
    destruct (decide (f = k)) as [->|E].
    + cbn [List.filter fst]. by rewrite (bool_decide_eq_false_2 (k = ""%string)), !(bool_decide_eq_true_2 (k = k)) by done.
    + cbn [List.filter fst]. rewrite (bool_decide_eq_false_2 (f = k)), (bool_decide_eq_false_2 (k = f)) by congruence. by destruct (bool_decide (f = _)).
Qed.

(** The empty name has no history. *)
Definition named (fnID : string) (l : list Z) : list Z := if bool_decide (fnID = ""%string) then [] else l.

Lemma step_refines o hist b :
  refines hist b -> Forall duration_ok (op_durations o) -> refines (fun f => hist f ++ named f (counts f o)) (step b o).
Proof.
  intros Hr Hd. unfold named.
  assert (Hobs : forall fnID status cold d, duration_ok d ->
    refines (fun f => hist f ++ (if bool_decide (f = ""%string) then [] else counts f (Observed fnID status cold d)))
      (ObserveExecution fnID status cold d b).1).
  { intros fnID status cold d Hd'. destruct (decide (fnID = ""%string)) as [->|Hne].
    - unfold ObserveExecution. rewrite bool_decide_eq_true_2 by done. eapply refines_ext; [|exact Hr]. intros f. cbn [counts].
      case_bool_decide as E; [by rewrite app_nil_r|]. by rewrite (bool_decide_eq_false_2 (_ = f)), app_nil_r by congruence.
    - pose proof (Observe_refines fnID status cold d hist b Hne Hr Hd') as H.
      destruct (ObserveExecution fnID status cold d b) as [b' [out p95]]. destruct H as (H & _). eapply refines_ext; [|exact H].
      intros f. unfold also. f_equal. cbn [counts]. destruct (decide (f = fnID)) as [->|E].
      + by rewrite (bool_decide_eq_false_2 (fnID = ""%string)), !(bool_decide_eq_true_2 (fnID = fnID)) by done.
      + rewrite (bool_decide_eq_false_2 (f = fnID)), (bool_decide_eq_false_2 (fnID = f)) by congruence. by destruct (bool_decide (f = _)). }
  destruct o as [fnID status cold d|db execID fnID status cold d|es|now fnID]; cbn [step op_durations] in *.
  - apply Hobs. by apply Forall_cons in Hd as [? _].
  - apply Forall_cons in Hd as [Hd _]. unfold FinalizeExecution.
    destruct (negb db || bool_decide (execID = ""%string) || bool_decide (fnID = ""%string)) eqn:E.
    + eapply refines_ext; [|exact Hr]. intros f. cbn [counts].
      destruct (decide (f = ""%string)) as [->|Ef]; [by rewrite app_nil_r|]. rewrite (bool_decide_eq_false_2 (f = _)) by done.
      destruct db; [|by rewrite app_nil_r]. destruct (bool_decide (execID = ""%string)); [by rewrite app_nil_r|].
      apply bool_decide_eq_true in E as ->. by rewrite (bool_decide_eq_false_2 (_ = f)), app_nil_r by congruence.
    + zbool. subst. specialize (Hobs fnID status cold d Hd). destruct (ObserveExecution fnID status cold d b) as [b' [out p95]].
      eapply refines_ext; [|exact Hobs]. intros f. cbn [counts]. by rewrite (bool_decide_eq_false_2 (execID = _)) by done.
  - by apply Warm_refines.
  - unfold Summary. pose proof (Snapshot_refines fnID hist b Hr) as H. destruct (Snapshot fnID b) as [b' s]. destruct H as (H & _).
    eapply refines_ext; [|exact H]. intros f. cbn [counts]. by destruct (bool_decide _); rewrite app_nil_r.
Qed.

Lemma ops_refine ops : forall hist b,
  refines hist b -> Forall (fun o => Forall duration_ok (op_durations o)) ops ->
  refines (fun f => hist f ++ named f (history f ops)) (foldl step b ops).
Proof.
  induction ops as [|o ops IH]; intros hist b Hr Hd.
  { eapply refines_ext; [|exact Hr]. intros f. unfold named. cbn. by destruct (bool_decide _); rewrite app_nil_r. }
  apply Forall_cons in Hd as [Hd Hds]. cbn [foldl].
  eapply refines_ext; [|apply (IH _ _ (step_refines o hist b Hr Hd) Hds)]. intros f. cbn beta. rewrite <- app_assoc. f_equal.
  unfold named, history. cbn [map concat]. by destruct (bool_decide _).
Qed.


