(* ===== verification/Invoke.v ===== *)
(** * The invocation endpoint
    ([server/handlers/invoke.go], [server/handlers/errmap.go],
     [server/handlers/respond])

    [ServeHTTP] from the path of a request to its answer and its record: the
    route, the registry, the status gate, the function's own check, the rate
    limit, the reserved place in the writer, the run, and what is recorded and
    published of it.  The state is what outlives a request; [invoke_env] holds
    what its surroundings answer. *)
From S2P Require Import Prelude GoText Float64 FunctionPool Budget AuthGate Json Netip Url Worker Headers Stderr Proxy Limiter Registry Routes Baseline.
Open Scope Z_scope.

(* ------------------------------------------------------------------ *)
(** ** Error answers *)

Record ErrorOpts := MkOpts {
  o_Code : string; o_Message : string; o_RequestID : string; o_Hint : string; o_RetryAfterS : Z; o_Details : list (string * json) }.
#[export] Instance eta_ErrorOpts : Eta ErrorOpts := fun r =>
  MkOpts (o_Code r) (o_Message r) (o_RequestID r) (o_Hint r) (o_RetryAfterS r) (o_Details r).

Definition optional (present : bool) (k : string) (v : json) : list (string * json) := if present then [(k, v)] else [].

(** The body of the answer; the encoder sorts the keys. *)
Definition error_body (o : ErrorOpts) : json :=
  let fields :=
    [("code"%string, JString (o_Code o))] ++
    optional (negb (bool_decide (o_Details o = []))) "details" (JObject (o_Details o)) ++
    optional (negb (bool_decide (o_Hint o = ""%string))) "hint" (JString (o_Hint o)) ++
    [("message"%string, JString (o_Message o))] ++
    optional (negb (bool_decide (o_RequestID o = ""%string))) "request_id" (JString (o_RequestID o)) ++
    optional (0 <? o_RetryAfterS o) "retry_after_s" (JNumber (formatInt (o_RetryAfterS o))) in
  JObject [("error"%string, JObject fields)].

(** [respond.ErrorWithDetail]; that the client may be gone is ignored. *)
Definition ErrorWithDetail (status : Z) (o : ErrorOpts) (wr : writer) : writer :=
  let wr := set_response "Content-Type" "application/json" wr in
  let wr := if 0 <? o_RetryAfterS o then set_response "Retry-After" (formatInt (o_RetryAfterS o)) wr else wr in
  match WriteHeader status wr with
  | Some wr => (Write (marshal (error_body o) ++ [10]) None wr).1.1
  | None => wr
  end.

(** [respond.Error]. *)
Definition Error_ (status : Z) (code message requestID : string) : writer -> writer :=
  ErrorWithDetail status (MkOpts code message requestID "" 0 []).

(* ------------------------------------------------------------------ *)
(** ** The taxonomy of failures *)

(** The sentinel a failure wraps, for [errors.Is]. *)
Inductive sentinel :=
| SBodyTooLarge | SManagerClosed | SFunctionBusy | SInvocationQueueFull | SPoolAtCapacity | SMemoryExhausted | STooManyRequests
| SEgressPolicy | SWorkerExited | SDeadlineExceeded | SCanceled.

Definition of_ctx (e : ctx_error) : sentinel := match e with DeadlineExceeded => SDeadlineExceeded | Canceled => SCanceled end.

Definition of_werror (e : werror) : option sentinel :=
  match e with Worker.ErrWorkerExited _ => Some SWorkerExited | ErrCtx e => Some (of_ctx e) | ErrAdapter _ | ErrStreamTooLarge => None end.

Definition of_pool (e : pool_error) : option sentinel :=
  match e with
  | FunctionPool.ErrInvocationQueueFull => Some SInvocationQueueFull
  | FunctionPool.ErrManagerClosed => Some SManagerClosed
  | ErrPoolAtCapacity => Some SPoolAtCapacity
  | ErrMemoryExhausted => Some SMemoryExhausted
  | ErrFunctionBusy => Some SFunctionBusy
  | ErrContext e => Some (of_ctx e)
  | ErrNoFunction | errPoolRetired | ErrSpawn _ => None
  end.

(** An error while the body is read wraps none of them. *)
Definition wraps (f : failure) : option sentinel :=
  match f with
  | FIngress Budget.ErrManagerClosed => Some SManagerClosed
  | FIngress Budget.ErrInvocationQueueFull => Some SInvocationQueueFull
  | FBodyTooLarge => Some SBodyTooLarge
  | FAcquire (AcqPool e) => of_pool e
  | FAcquire AcqTooManyRequests => Some STooManyRequests
  | FAcquire AcqPolicyUnavailable | FAcquire AcqEgressPolicyMissing => Some SEgressPolicy
  | FAcquire AcqWorkerExited => Some SWorkerExited
  | FTimeout => Some SDeadlineExceeded
  | FDispatch e | FStream e => of_werror e
  | FBody | FNoPool | FWrite | FStreamWrite => None
  end.

Definition funcLabel (fn : Function_) : string := if bool_decide (fn_Name fn = ""%string) then fn_ID fn else fn_Name fn.

Definition fn_details (fn : Function_) : list (string * json) :=
  [("function_id", JString (fn_ID fn)); ("function_name", JString (fn_Name fn))]%string.

(** [text]: the text of the error. *)
Definition invokeError (f : failure) (text : string) (fn : Function_) (requestID : string) : Z * ErrorOpts :=
  let opts (code message hint : string) retry details := MkOpts code message requestID hint retry details in
  match wraps f with
  | Some SBodyTooLarge =>
    (413, opts "PAYLOAD_TOO_LARGE" text "send Content-Length, split the upload, or raise the body cap" 0 [])
  | Some SManagerClosed =>
    (503, opts "SHUTTING_DOWN" "server is shutting down"
            "redirect traffic to a replacement instance; redeploy after upgrade" 30 [])
  | Some SFunctionBusy =>
    (429, opts "FUNCTION_BUSY" ("function " ++ funcLabel fn ++ " is at its concurrency cap")%string
            "raise functions.max_concurrency or switch the policy to 'queue' to wait for a slot" 1
            (fn_details fn ++ optional (0 <? fn_MaxConcurrency fn) "max_concurrency" (JNumber (formatInt (fn_MaxConcurrency fn)))))
  | Some SInvocationQueueFull =>
    (429, opts "INVOCATION_QUEUE_FULL" "invocation queue is full or its wait budget expired"
            "back off briefly and retry; sustained overload requires more host capacity or a faster handler" 1 [])
  | Some SPoolAtCapacity =>
    (503, opts "POOL_AT_CAPACITY" ("function pool at capacity for " ++ funcLabel fn)%string
            "inspect pool limiting_reason; raise max_warm only for operator_max, otherwise add host capacity or reduce worker limits"
            5 (fn_details fn))
  | Some SMemoryExhausted =>
    (503, opts "MEMORY_EXHAUSTED" "host memory budget exhausted"
            "deploy fewer concurrent functions or increase host RAM; see /api/v1/system/metrics.json host.mem_*" 30 [])
  | Some STooManyRequests =>
    (429, opts "TOO_MANY_REQUESTS" "host concurrency cap reached"
            "back off briefly and retry; raise cfg.Sandbox.MaxConcurrent if persistent" 1 [])
  | Some SEgressPolicy =>
    (503, opts "EGRESS_POLICY_UNAVAILABLE" "no sandbox egress policy is in force; refusing to start an unfiltered egress worker"
            "see GET /api/v1/firewall/status (last_compile_error) — fix the offending rule, then POST /api/v1/firewall/resolve" 10 [])
  | Some SWorkerExited =>
    (502, opts "WORKER_CRASHED" "function worker exited unexpectedly"
            "check stderr in the latest execution log; common causes: process.exit, OOM, syntax error in handler" 0 [])
  | Some SDeadlineExceeded =>
    (504, opts "TIMEOUT" "function exceeded configured timeout" "raise functions.timeout_ms or optimize the handler" 0
            (optional (0 <? fn_TimeoutMS fn) "timeout_ms" (JNumber (formatInt (fn_TimeoutMS fn)))))
  | Some SCanceled => (499, opts "CLIENT_DISCONNECTED" "client closed the connection" "" 0 [])
  | None =>
    (503, opts "SANDBOX_ERROR" text "see request_id in server logs; contact operator if this persists" 0 [])
  end.

(* ------------------------------------------------------------------ *)
(** ** State, surroundings, effects *)

(** The limiter is made when it is first needed. *)
Record invoke_state := MkState { i_registry : registry; i_limiter : option rateLimiter; i_baselines : gmap string ringBuf }.
#[export] Instance eta_invoke_state : Eta invoke_state := fun r => MkState (i_registry r) (i_limiter r) (i_baselines r).

Record invoke_env := MkInvokeEnv {
  v_order : list Route -> list Route; v_routes_io : bool; v_rows : rows_fate; v_routes : table;   (** [MatchRoute] *)
  v_dataDir : string; v_current : bool;                   (** [current] leads to a directory *)
  v_gate : AuthGate.env; v_secrets : option (gmap string string); v_session : option string; v_authdb : authdb;
  v_auth_message : Z * string -> string;                  (** the wording of a refusal *)
  v_read : list Z;                                        (** the body as far as it could be read *)
  v_sweeping : bool; v_now : Z; v_trust : bool; v_remote : string;   (** the rate limit *)
  v_lease : bool;                                         (** [ReserveExecution] found a place in five seconds *)
  v_execID : string; v_traceID : string; v_parentSpan : string; v_spanID : string;
  v_start : Z; v_durationMS : Z;
  v_text : failure -> string;                             (** [Error] of what [Forward] returned *)
  v_baselined : bool; v_publishes : bool;
  v_forward : forward_env }.

(** The row [AsyncInsertExecutionFinal] queues. *)
Record ExecutionRow := MkRow {
  x_ID : string; x_FunctionID : string; x_Status : string; x_ColdStart : bool; x_DurationMS : Z; x_StatusCode : Z;
  x_Error : string; x_ResponseSize : Z; x_StartedAt : Z; x_TraceID : option string; x_SpanID : option string;
  x_ParentSpanID : option string; x_Trigger : option string; x_ParentFunctionID : option string; x_IsOutlier : bool; x_BaselineP95MS : option Z }.

Record execution_event := MkEvent {
  ev_ID : string; ev_FunctionID : string; ev_Name : string; ev_Status : string; ev_StatusCode : Z; ev_DurationMS : Z;
  ev_ResponseSize : Z; ev_ColdStart : bool }.

Inductive handler_effect :=
| TookLease | CancelledLease | ActiveUp | ActiveDown
| Ran (es : list effect)                        (** the call of [Forward] *)
| CountedInvocation (coldStart : bool) | CountedDuration (ms : Z)
| Recorded (row : ExecutionRow) | StoredLog (execID fnID : string) (stderr : list Z)
| Published (ev : execution_event)
| CountedResponse.

(** [r_refused]: the status of the handler's own error answer. *)
Record invoked := MkInvoked { r_state : invoke_state; r_writer : writer; r_effects : list handler_effect; r_refused : option Z }.

(** [nullableString]. *)
Definition nullableString (s : string) : option string := if bool_decide (s = ""%string) then None else Some s.

Definition header_get (k : string) (h : header) : string := match header_values k h with v :: _ => v | [] => ""%string end.

(** [%q] of a status, which is a plain word. *)
Definition quoted (s : string) : string := of_bytes ([34] ++ bytes s ++ [34]).

(** [jsonEscape]. *)
Definition jsonEscape (s : string) : string :=
  of_bytes (flat_map (fun c => if (c =? 92) || (c =? 34) then [92; c] else if c =? 10 then [92; 110]
                               else if c =? 13 then [92; 114] else [c]) (bytes s)).

(** [writeInvokeAuthError]. *)
Definition writeInvokeAuthError (status : Z) (code message : string) (wr : writer) : writer :=
  let wr := set_response "Content-Type" "application/json" wr in
  match WriteHeader status wr with
  | Some wr =>
    (Write (text "{`error`:{`code`:`" ++ bytes code ++ text "`,`message`:`" ++ bytes (jsonEscape message) ++ text "`}}") None wr).1.1
  | None => wr
  end.

Definition hasPriorCode (dataDir : string) (current : bool) : bool := negb (bool_decide (dataDir = ""%string)) && current.

(** The first kilobyte of an error's text. *)
Definition truncated (s : string) : string :=
  if 1024 <? len s then (str_take 1024 s ++ "…(truncated)")%string else s.

(* ------------------------------------------------------------------ *)
(** ** [ServeHTTP] *)

Section ServeHTTP.
Context (q : http_request) (v : invoke_env).

Definition reqID : string := header_get "X-Request-ID" (q_Header q).

Definition found : option (option (Route * string)) :=
  MatchRoute (v_order v) (v_routes_io v) (v_rows v) (q_Path q) (v_routes v).

(** The call as the function's own check reads it. *)
Definition call_request : request :=
  Request (q_Method q) (q_Path q) (header_get "X-Orva-Internal-Token" (q_Header q)) (header_get "X-Orva-API-Key" (q_Header q))
    (header_get "Authorization" (q_Header q)) (v_session v).

Definition authorised (fn : Function_) : res (Z * string) unit :=
  authorizeInvoke (v_gate v) (fn_AuthMode fn) (v_secrets v)
    (Invocation call_request (header_get "X-Orva-Signature" (q_Header q)) (header_get "X-Orva-Timestamp" (q_Header q)) (v_read v))
    (v_authdb v).

Definition serving (fn : Function_) : bool :=
  bool_decide (fn_Status fn = "active"%string) ||
  (bool_decide (fn_Status fn = "building"%string) && hasPriorCode (v_dataDir v) (v_current v)).

(** The gate on the status: the answer to a function that does not serve. *)
Definition not_serving (fn : Function_) (wr : writer) : Z * writer :=
  if bool_decide (fn_Status fn = "building"%string)
  then (503, Error_ 503 "BUILDING" "deployment in progress" reqID (set_response "Retry-After" "5" wr))
  else (409, Error_ 409 "NOT_ACTIVE" ("function status is " ++ quoted (fn_Status fn) ++ ", must be active") reqID wr).

Definition client : string := ClientIP (v_trust v) (v_remote v) (q_Header q).

(** The rate limit, in front of functions that have one. *)
Definition limited (fn : Function_) (rl : option rateLimiter) : option rateLimiter * bool :=
  if 0 <? fn_RateLimitPerMin fn then
    let '(rl, ok) := Allow (v_sweeping v) (v_now v) (fn_ID fn) client (fn_RateLimitPerMin fn) (default newRateLimiter rl) in
    (Some rl, ok)
  else (rl, true).

(** What stands before the run: the function and the prefix to strip, or the
    refusal. *)
Definition admission (st : invoke_state) (wr : writer) : invoke_state * res (Z * writer) (string * string * Function_) :=
  match resolve found (q_Method q) (q_Path q) with
  | Err (status, code) => (st, Err (status, Error_ status code "method not allowed for this route" reqID wr))
  | Ok (fnID, strip) =>
    if bool_decide (fnID = ""%string) then (st, Err (404, Error_ 404 "NOT_FOUND" "no function for this path" reqID wr))
    else
      let '(reg, fn) := Get fnID (i_registry st) in
      let st := st <| i_registry := reg |> in
      match fn with
      | None => (st, Err (404, Error_ 404 "NOT_FOUND" "function not found" reqID wr))
      | Some fn =>
        if negb (serving fn) then (st, Err (not_serving fn wr))
        else
          match authorised fn with
          | Err (status, code) => (st, Err (status, writeInvokeAuthError status code (v_auth_message v (status, code)) wr))
          | Ok _ =>
            let '(rl, ok) := limited fn (i_limiter st) in
            let st := st <| i_limiter := rl |> in
            if negb ok then
              (st, Err (429, Error_ 429 "RATE_LIMITED"
                               ("rate limit exceeded (" ++ formatInt (fn_RateLimitPerMin fn) ++ " req/min per IP)") reqID
                               (set_response "Retry-After" "60" wr)))
            else if negb (v_lease v) then
              (st, Err (429, ErrorWithDetail 429 (MkOpts "STORAGE_BACKPRESSURE" "execution storage is catching up" reqID
                                                    "back off briefly and retry; no function code ran" 1 []) wr))
            else (st, Ok (fnID, strip, fn))
          end
      end
  end.

Definition timeout_of (fn : Function_) : Z := if fn_TimeoutMS fn <=? 0 then 30000 else fn_TimeoutMS fn.

(** The request as it is forwarded: with its span, and in signed mode with the
    body that was read for the signature. *)
Definition forwarded_request : http_request :=
  MkHttp (q_Method q) (q_Path q) (q_RawQuery q) (q_Header q) (v_traceID v) (v_spanID v).
Definition forwarded_env (fn : Function_) : forward_env :=
  if bool_decide (fn_AuthMode fn = AuthGate.AuthModeSigned) then v_forward v <| e_body := BodyRead (v_read v) |> else v_forward v.

Definition row_of (fn : Function_) (status errMsg : string) (cold : bool) (sc size : Z) (outlier : bool * Z) : ExecutionRow :=
  MkRow (v_execID v) (fn_ID fn) status cold (v_durationMS v) sc errMsg size (v_start v) (nullableString (v_traceID v))
    (nullableString (v_spanID v)) (nullableString (v_parentSpan v)) (nullableString "http") (nullableString "") (fst outlier)
    (if 0 <? snd outlier then Some (snd outlier) else None).

(** [observeExecutionBaseline]. *)
Definition observe (fn : Function_) (status : string) (cold : bool) (b : gmap string ringBuf) : gmap string ringBuf * (bool * Z) :=
  if v_baselined v then ObserveExecution (fn_ID fn) status cold (v_durationMS v) b else (b, (false, 0)).

(** The row, the log, the event. *)
Definition record_run (fn : Function_) (status errMsg : string) (cold : bool) (sc size : Z) (stderr : list Z) (st : invoke_state) :
    invoke_state * list handler_effect :=
  let '(b, outlier) := observe fn status cold (i_baselines st) in
  (st <| i_baselines := b |>,
   [Recorded (row_of fn status errMsg cold sc size outlier)] ++
   (if bool_decide (stderr = []) then [] else [StoredLog (v_execID v) (fn_ID fn) stderr]) ++
   (if v_publishes v
    then [Published (MkEvent (v_execID v) (fn_ID fn) (fn_Name fn) status sc (v_durationMS v) size cold)] else [])).

(** After the call of [Forward]. *)
Definition settle_run (fn : Function_) (f : forwarded) (st : invoke_state) : invoke_state * list handler_effect * writer * option Z :=
  let cold := match f_result f with Some r => res_ColdStart r | None => false end in
  let counted := [CountedDuration (v_durationMS v);
                  CountedInvocation (match f_result f with Some r => res_ColdStart r | None => true end)] in
  match f_err f, f_result f with
  | None, None => (st, counted, f_writer f, None)
  | Some err, result =>
    let errMsg := truncated (v_text v err) in
    let sc := match result with Some r => res_StatusCode r | None => 0 end in
    let stderr := match result with Some r => res_Stderr r | None => [] end in
    let '(st, recorded) := record_run fn "error" errMsg cold sc 0 stderr st in
    if match result with Some r => negb (res_Wrote r) | None => true end then
      let '(status, opts) := invokeError err (v_text v err) fn reqID in
      let opts := if bool_decide (o_Message opts = ""%string) || bool_decide (o_Code opts = "SANDBOX_ERROR"%string)
                  then opts <| o_Message := errMsg |> else opts in
      (st, counted ++ recorded, ErrorWithDetail status opts (f_writer f), Some status)
    else (st, counted ++ recorded, f_writer f, None)
  | None, Some r =>
    let status := if 500 <=? res_StatusCode r then "error"%string else "success"%string in
    let '(st, recorded) := record_run fn status "" (res_ColdStart r) (res_StatusCode r) (res_ResponseSize r) (res_Stderr r) st in
    (st, counted ++ recorded, f_writer f, None)
  end.

(** [None]: the call never returns. *)
Definition ServeHTTP (st : invoke_state) (wr : writer) : option invoked :=
  match admission st wr with
  | (st, Err (status, wr)) => Some (MkInvoked st wr [CountedResponse] (Some status))
  | (st, Ok (fnID, strip, fn)) =>
    let wr := set_response "X-Orva-Execution-ID" (v_execID v) wr in
    match Forward forwarded_request fnID (v_execID v) strip (timeout_of fn) (forwarded_env fn) wr with
    | None => None
    | Some f =>
      let around mid := [TookLease; ActiveUp; Ran (f_effects f)] ++ mid ++ [ActiveDown; CancelledLease; CountedResponse] in
      if f_panicked f then Some (MkInvoked st (f_writer f) (around []) None)
      else
        let '(st, recorded, wr, refused) := settle_run fn f st in
        Some (MkInvoked st wr (around recorded) refused)
    end
  end.
End ServeHTTP.

(* ------------------------------------------------------------------ *)
(** ** How [Forward] ends *)

(** Failures before a worker is held. *)
Definition before_run (f : failure) : bool :=
  match f with FIngress _ | FBodyTooLarge | FBody | FNoPool | FAcquire _ => true | _ => false end.

Definition exec_header : string := "X-Orva-Execution-Id".

Lemma Write_header data fate wr : wr_header (Write data fate wr).1.1 = wr_header wr.
Proof. done. Qed.

Lemma WriteHeader_header sc wr wr' : WriteHeader sc wr = Some wr' -> wr_header wr' = wr_header wr.
Proof.
  unfold WriteHeader. destruct (_ || _); [done|]. destruct (_ && _); [by intros [= <-]|].
  destruct (wr_status wr); by intros [= <-].
Qed.

Lemma stream_header waits : forall dres w wr total writes,
  wr_header (stream dres w wr total waits writes).1.1.2 = wr_header wr.
Proof.
  induction waits as [|a waits IH]; intros dres w wr total writes; cbn [stream].
  - by destruct (NextFrame dres w gone) as [[? ?] []].
  - destruct (NextFrame dres w a) as [[dres' w'] [data| |e]]; [|done|done]. destruct data as [|b data]; [apply IH|].
    destruct (Write (b :: data) (default None (head writes)) wr) as [[wr1 n] failed] eqn:E.
    pose proof (Write_header (b :: data) (default None (head writes)) wr) as H. rewrite E in H. cbn [fst] in H.
    destruct failed; [exact H|]. by rewrite IH.
Qed.

Lemma answer_headers_exec hs execID cold m : answer_headers hs execID cold m !! exec_header = Some execID.
Proof.
  unfold answer_headers, setHeader. rewrite lookup_insert_ne by (vm_compute; discriminate).
  change exec_header with (canonicalKey "X-Orva-Execution-ID"). apply lookup_insert_eq.
Qed.

(** What an exchange that did not panic leaves. *)
Record ends (wr : writer) (execID : string) (result : option Result) (err : option failure) (held : bool) (wr' : writer) : Prop := {
  en_result : err = None -> exists r, result = Some r /\ res_Wrote r = true;
  en_held : match err with Some e => held = negb (before_run e) | None => held = true end;
  en_unwritten : match result with Some r => res_Wrote r = false | None => True end -> err <> None -> wr' = wr;
  en_header : match result with Some r => res_Wrote r = true | None => False end -> wr_header wr' !! exec_header = Some execID }.

Lemma stream_before waits : forall dres w wr total writes e,
  (stream dres w wr total waits writes).2 = Some e -> before_run e = false.
Proof.
  induction waits as [|a waits IH]; intros dres w wr total writes e; cbn [stream].
  - destruct (NextFrame dres w gone) as [[? ?] []]; cbn; try done; by intros [= <-].
  - destruct (NextFrame dres w a) as [[dres' w'] [data| |e']]; [|done|cbn; by intros [= <-]]. destruct data as [|b data]; [apply IH|].
    destruct (Write _ _ _) as [[wr1 n] []]; [cbn; by intros [= <-]|apply IH].
Qed.

Lemma respond_ends q fnID execID e dres w result wr :
  let '(r, f, p, _, _, wr', _) := respond q fnID execID e dres w result wr in
  p = false -> ends wr execID r f true wr'.
Proof.
  unfold respond. set (wr0 := wr <| wr_header ::= _ |>).
  assert (wr_header wr0 !! exec_header = Some execID) as H0 by apply answer_headers_exec.
  destruct (negb (Streaming dres)).
  - set (wr1 := set_response _ _ wr0).
    assert (wr_header wr1 !! exec_header = Some execID) as H1
      by (unfold wr1, set_response, setHeader; cbn; rewrite lookup_insert_ne by (vm_compute; discriminate); exact H0).
    destruct (WriteHeader _ wr1) as [wr2|] eqn:E; [|done]. apply WriteHeader_header in E.
    destruct (Write (bytes (Body dres)) _ wr2) as [[wr3 n] failed] eqn:Ew. intros _.
    pose proof (Write_header (bytes (Body dres)) (default None (head (e_writes e))) wr2) as Hw. rewrite Ew in Hw. cbn [fst] in Hw.
    split; [intros _; by eexists|by destruct failed|done|]. intros _. by rewrite Hw, E.
  - set (wr1 := set_response _ _ (set_response _ _ (set_response _ _ wr0))).
    assert (wr_header wr1 !! exec_header = Some execID) as H1.
    { unfold wr1, set_response, setHeader. cbn. rewrite !lookup_insert_ne by (vm_compute; discriminate). exact H0. }
    destruct (WriteHeader _ wr1) as [wr2|] eqn:E; [|done]. apply WriteHeader_header in E.
    pose proof (stream_header (e_waits e) dres w wr2 0 (e_writes e)) as Hh.
    pose proof (fun x => stream_before (e_waits e) dres w wr2 0 (e_writes e) x) as Hb.
    destruct (stream _ _ _ _ _ _) as [[[[d2 w2] wr3] total] err]. destruct (finalized _ _ _ _ _) as [s l]. cbn [fst snd] in *. intros _.
    split; [intros _; by eexists| |done|intros _; by rewrite Hh, E]. destruct err as [err|]; [|done]. by rewrite (Hb err eq_refl).
Qed.

Lemma with_worker_ends q fnID execID strip timeoutMS e cold w body wr r f p effects wr' w' :
  with_worker q fnID execID strip timeoutMS e cold w body wr = Some (r, f, p, effects, wr', w') -> p = false ->
  ends wr execID r f true wr'.
Proof.
  unfold with_worker. destruct (DispatchEx _ _ _ _) as [[[dres w1] err]|]; [|done]. destruct (finalized _ _ _ _ _) as [s l].
  destruct err as [err|].
  - destruct (dispatch_failure err (e_deadline e)) as [t f'] eqn:Ed. intros [= <- <- <- <- <- <-] _. split; [done| |done|done].
    unfold dispatch_failure in Ed. destruct err as [|[]| |]; try destruct (e_deadline e); by injection Ed as <- <-.
  - pose proof (respond_ends q fnID execID e dres w1 (no_result <| res_Stderr := s |> <| res_ColdStart := cold |>) wr) as H.
    destruct (respond _ _ _ _ _ _ _ _) as [[[[[[r1 f1] p1] e1] es] wr1] w2]. intros [= <- <- <- <- <- <-] Hp. by apply H.
Qed.

Lemma Forward_ends q fnID execID strip timeoutMS e wr f :
  Forward q fnID execID strip timeoutMS e wr = Some f -> f_panicked f = false ->
  ends wr execID (f_result f) (f_err f) (existsb acquires (f_effects f)) (f_writer f).
Proof.
  unfold Forward. destruct (if e_pool e then e_ingress e else Ok tt) as [u|err]; [|intros [= <-] _; by split].
  assert (Hunused : forall r err, match r with Some r => res_Wrote r = false | None => True end -> before_run err = true ->
    let effects := if e_pool e then [ReservedIngress] ++ ([BoundExecution] ++ [] ++ [UnboundExecution]) ++ [ReleasedIngress] else [BoundExecution] ++ [] ++ [UnboundExecution] in
    ends wr execID r (Some err) (existsb acquires effects) wr).
  { intros r err Hr Hb. split; [done| |done|destruct r as [r|]; [congruence|done]]. rewrite Hb. by destruct (e_pool e). }
  unfold bound. destruct (e_body e) as [body|limit|]; [|intros [= <-] _; by apply Hunused..].
  destruct (e_pool e) eqn:Ep; cbn [negb]; [|intros [= <-] _; by apply Hunused].
  destruct (e_acquire e) as [[cold w]|err]; [|intros [= <-] _; by apply Hunused].
  destruct (with_worker _ _ _ _ _ _ _ _ _ _) as [[[[[[r f1] p] effects] wr'] w']|] eqn:Ew; [|done].
  intros [= <-] Hp. exact (with_worker_ends _ _ _ _ _ _ _ _ _ _ _ _ _ _ _ _ Ew Hp).
Qed.

(* ------------------------------------------------------------------ *)
(** ** The handler's own answers *)

Lemma ErrorWithDetail_status status o wr :
  200 <= status <= 999 -> wr_status wr = None ->
  wr_status (ErrorWithDetail status o wr) = Some status /\
  wr_header (ErrorWithDetail status o wr) =
    (if 0 <? o_RetryAfterS o then <["Retry-After"%string := formatInt (o_RetryAfterS o)]> else id)
      (<["Content-Type"%string := "application/json"%string]> (wr_header wr)).
Proof.
  intros Hs Hn. unfold ErrorWithDetail.
  set (wr1 := if 0 <? o_RetryAfterS o then _ else _).
  assert (wr_status wr1 = None) as H1 by (unfold wr1; by destruct (0 <? o_RetryAfterS o)).
  assert (wr_header wr1 = (if 0 <? o_RetryAfterS o then <["Retry-After"%string := formatInt (o_RetryAfterS o)]> else id)
            (<["Content-Type"%string := "application/json"%string]> (wr_header wr))) as H2.
  { unfold wr1, set_response, setHeader. change (canonicalKey "Retry-After") with "Retry-After"%string.
    change (canonicalKey "Content-Type") with "Content-Type"%string. by destruct (0 <? o_RetryAfterS o). }
  pose proof (WriteHeader_final status wr1 (or_intror (or_intror Hs)) H1) as H. rewrite (proj2 (Z.eqb_neq status 0)) in H by lia.
  rewrite H. unfold sent_status. rewrite (proj2 (Z.eqb_neq status 0)) by lia. done.
Qed.

Lemma Error_status status code message rid wr :
  200 <= status <= 999 -> wr_status wr = None ->
  wr_status (Error_ status code message rid wr) = Some status.
Proof. intros Hs Hn. by apply ErrorWithDetail_status. Qed.

Lemma writeInvokeAuthError_status status code message wr :
  200 <= status <= 999 -> wr_status wr = None -> wr_status (writeInvokeAuthError status code message wr) = Some status.
Proof.
  intros Hs Hn. unfold writeInvokeAuthError. set (wr1 := set_response _ _ wr).
  pose proof (WriteHeader_final status wr1 (or_intror (or_intror Hs)) Hn) as H. rewrite (proj2 (Z.eqb_neq status 0)) in H by lia.
  rewrite H. unfold sent_status. by rewrite (proj2 (Z.eqb_neq status 0)) by lia.
Qed.

Lemma authorise_statuses e mode secrets i d status code :
  authorizeInvoke e mode secrets i d = Err (status, code) -> status ∈ [401; 403; 500].
Proof.
  assert (forall s c, (Err (s, c) : res (Z * string) unit) = Err (status, code) -> bool_decide (s ∈ [401; 403; 500]) = true -> status ∈ [401; 403; 500]) as Hin
    by (intros s c [= <- _] H; by apply bool_decide_eq_true in H).
  unfold authorizeInvoke, invoke_platform, invoke_signed. intros H.
  repeat case_match; try discriminate H; (eapply Hin; [exact H|reflexivity]).
Qed.

(** The statuses a request is refused with. *)
Definition refusals : list Z := [401; 403; 404; 405; 409; 429; 500; 503].

Definition guarded q v st fnID strip fn : Prop :=
  resolve (found q v) (q_Method q) (q_Path q) = Ok (fnID, strip) /\ fnID <> ""%string /\ (Get fnID (i_registry st)).2 = Some fn /\
  serving v fn = true /\ authorised q v fn = Ok tt /\ (limited q v fn (i_limiter st)).2 = true /\ v_lease v = true.

Lemma admit_spec q v st wr :
  wr_status wr = None ->
  match admission q v st wr with
  | (st', Ok (fnID, strip, fn)) => guarded q v st fnID strip fn /\ i_baselines st' = i_baselines st
  | (st', Err (status, wr')) => status ∈ refusals /\ wr_status wr' = Some status /\ i_baselines st' = i_baselines st
  end.
Proof.
  intros Hw. unfold admission. destruct (resolve _ _ _) as [[fnID strip]|[status code]] eqn:Er.
  2: { assert (status = 405) as ->.
       { unfold resolve in Er. destruct (hasPrefix _ _); [done|]. destruct (found q v) as [[[r m]|]|]; [|done..].
         destruct (method_allowed _ _); [done|]. by injection Er as <- _. }
       split; [by apply (bool_decide_unpack _)|]. by rewrite Error_status. }
  case_bool_decide as Hne; [split; [by apply (bool_decide_unpack _)|]; by rewrite Error_status|].
  destruct (Get fnID (i_registry st)) as [reg [fn|]] eqn:Eg; [|split; [by apply (bool_decide_unpack _)|]; by rewrite Error_status].
  destruct (serving v fn) eqn:Es; cbn [negb].
  2: { unfold not_serving. case_bool_decide; (split; [by apply (bool_decide_unpack _)|]); by rewrite Error_status. }
  destruct (authorised q v fn) as [[]|[status code]] eqn:Ea.
  2: { pose proof (authorise_statuses _ _ _ _ _ _ _ Ea) as Hin.
       assert (status ∈ refusals /\ 200 <= status <= 999) as [H1 H2].
       { repeat (apply elem_of_cons in Hin as [->|Hin]; [split; [by apply (bool_decide_unpack _)|lia]|]). by apply elem_of_nil in Hin. }
       split; [done|]. by rewrite writeInvokeAuthError_status. }
  destruct (limited q v fn _) as [rl ok] eqn:El. cbn [i_limiter set_field] in El.
  destruct ok; cbn [negb]; [|split; [by apply (bool_decide_unpack _)|]; by rewrite Error_status].
  destruct (v_lease v) eqn:Ev; cbn [negb].
  - split; [|done]. unfold guarded. rewrite Eg. split_and!; [done..| |done].
    by rewrite El.
  - split; [by apply (bool_decide_unpack _)|]. split; [|done]. by apply ErrorWithDetail_status.
Qed.

Definition is_run (x : handler_effect) : bool := match x with Ran _ => true | _ => false end.

(** C5. Code of a function runs for a request only when the request resolved
    to that very function, the registry has it, it serves, its own check and
    its rate limit let the caller through and a place for the record is
    reserved; in every other case the caller is told so with an error status,
    and nothing is run, recorded, logged, published or learnt. *)
Theorem code_runs_only_past_every_guard q v st wr o :
  wr_status wr = None -> ServeHTTP q v st wr = Some o ->
  if existsb is_run (r_effects o) then exists fnID strip fn, guarded q v st fnID strip fn
  else r_effects o = [CountedResponse] /\ i_baselines (r_state o) = i_baselines st /\
       exists status, r_refused o = Some status /\ status ∈ refusals /\ wr_status (r_writer o) = Some status.
Proof.
  intros Hw. unfold ServeHTTP. pose proof (admit_spec q v st wr Hw) as H.
  destruct (admission q v st wr) as [st' [[[fnID strip] fn]|[status wr']]].
  - destruct H as [H _]. destruct (Forward _ _ _ _ _ _ _) as [f|]; [|done].
    destruct (f_panicked f); [intros [= <-]; by exists fnID, strip, fn|].
    destruct (settle_run _ _ _ _ _) as [[[? ?] ?] ?]. intros [= <-]. by exists fnID, strip, fn.
  - destruct H as (H1 & H2 & H3). intros [= <-]. cbn. split; [done|]. split; [done|]. by exists status.
Qed.

(** A request for [f], whose worker answers as given. *)
Definition invoke_with (io : wait) : invoke_env :=
  MkInvokeEnv by_length false RowsFine sample_table "/data" true (Env 0 0 0 true true) None None (AuthDB ∅ ∅) (fun _ => "denied"%string)
    (bytes "hi") false 0 false "10.0.0.1:1" true "ex_1" "tr_1" "" "sp_1" 0 12 (fun _ => "boom"%string) true true
    (sample_env io [] small_worker).
Definition sample_invoke : invoke_env := invoke_with (MkWait (framed answer_one) [] Delivered).

Definition sample_state : invoke_state :=
  MkState (MkRegistry (MkDb ∅ []) {[ "f" := sample_function "f" "f" <| fn_Status := "active" |> ]} [])%string None ∅.

Lemma code_runs_only_past_every_guard_witness :
  exists fnID strip fn, guarded sample_http sample_invoke sample_state fnID strip fn.
Proof.
  assert (exists o, ServeHTTP sample_http sample_invoke sample_state fresh_writer = Some o /\ existsb is_run (r_effects o) = true) as (o & Eo & Hr).
  { eexists. split; [vm_compute; reflexivity|reflexivity]. }
  pose proof (code_runs_only_past_every_guard sample_http sample_invoke sample_state fresh_writer o eq_refl Eo) as H.
  rewrite Hr in H. exact H.
Defined.

(* ------------------------------------------------------------------ *)
(** ** The record of a run *)

Definition recorded (x : handler_effect) : option ExecutionRow := match x with Recorded row => Some row | _ => None end.

Lemma invokeError_status f text fn rid : 200 <= fst (invokeError f text fn rid) <= 999.
Proof. unfold invokeError. destruct (wraps f) as [[]|]; cbn [fst]; lia. Qed.

(** What the taxonomy makes of a failure of a worker that was held. *)
Lemma invokeError_after f text fn rid :
  before_run f = false ->
  fst (invokeError f text fn rid) ∈ [499; 502; 503; 504] /\ o_RetryAfterS (snd (invokeError f text fn rid)) = 0.
Proof.
  intros Hb. destruct f as [| | | | | |e| |e|]; try discriminate Hb; try destruct e as [|[]| |];
    (split; [apply (bool_decide_unpack _); vm_compute; exact I|reflexivity]).
Qed.

Lemma str_take_len n : forall s, len (str_take n s) <= Z.of_nat n.
Proof. induction n as [|n IH]; intros [|c s]; cbn; try done. specialize (IH s). unfold len in *. cbn. lia. Qed.

Lemma truncated_len s : len (truncated s) <= 1038.
Proof.
  unfold truncated. destruct (1024 <? len s) eqn:E; [|apply Z.ltb_ge in E; lia].
  unfold len. rewrite str_length_app. pose proof (str_take_len 1024 s) as H. unfold len in H.
  change (String.length "…(truncated)") with 14%nat. lia.
Qed.

Lemma error_keeps_exec status o wr x :
  200 <= status <= 999 -> wr_status wr = None -> wr_header wr !! exec_header = Some x ->
  wr_header (ErrorWithDetail status o wr) !! exec_header = Some x.
Proof.
  intros Hs Hn Hx. destruct (ErrorWithDetail_status status o wr Hs Hn) as [_ ->].
  destruct (0 <? o_RetryAfterS o); cbn; rewrite ?lookup_insert_ne by (vm_compute; discriminate); exact Hx.
Qed.

(** What is recorded of a run, and how it is answered. *)
Definition told (v : invoke_env) (fn : Function_) (f : forwarded) (o : invoked) : Prop :=
  exists row, omap recorded (r_effects o) = [row] /\
    x_ID row = v_execID v /\ wr_header (r_writer o) !! exec_header = Some (v_execID v) /\ x_FunctionID row = fn_ID fn /\
    (x_Status row = "success"%string <-> f_err f = None /\ x_StatusCode row < 500) /\
    (x_Error row = ""%string \/ exists e, f_err f = Some e /\ x_Error row = truncated (v_text v e)) /\ len (x_Error row) <= 1038.

Lemma record_run_told v fn f status errMsg cold sc size stderr st wr' counted l r refused :
  wr_header wr' !! exec_header = Some (v_execID v) -> (status = "success"%string <-> f_err f = None /\ sc < 500) ->
  (errMsg = ""%string \/ exists e, f_err f = Some e /\ errMsg = truncated (v_text v e)) -> len errMsg <= 1038 ->
  omap recorded counted = [] -> omap recorded l = [] -> omap recorded r = [] ->
  let '(st', es) := record_run v fn status errMsg cold sc size stderr st in
  told v fn f (MkInvoked st' wr' (l ++ (counted ++ es) ++ r) refused).
Proof.
  intros Hw Hst Herr Hlen Hc Hl Hr. unfold record_run. destruct (observe _ _ _ _ _) as [b outlier].
  exists (row_of v fn status errMsg cold sc size outlier). cbn [r_effects r_writer]. split; [|done].
  rewrite !omap_app, Hl, Hr, Hc. cbn. by case_bool_decide; destruct (v_publishes v).
Qed.

Lemma settle_run_told q v fn f st wr :
  ends wr (v_execID v) (f_result f) (f_err f) (existsb acquires (f_effects f)) (f_writer f) ->
  wr_status wr = None -> wr_header wr !! exec_header = Some (v_execID v) ->
  let '(st', mid, wr', refused) := settle_run q v fn f st in
  forall l r, omap recorded l = [] -> omap recorded r = [] -> told v fn f (MkInvoked st' wr' (l ++ mid ++ r) refused).
Proof.
  intros [Hres Hheld Hun Hhd] Hn Hx. unfold settle_run. set (counted := [CountedDuration _; _]).
  destruct (f_err f) as [err|] eqn:Ef.
  - set (sc := match f_result f with Some r => res_StatusCode r | None => 0 end).
    set (stderr := match f_result f with Some r => res_Stderr r | None => [] end).
    set (cold := match f_result f with Some r => res_ColdStart r | None => false end).
    assert (Hst : "error"%string = "success"%string <-> f_err f = None /\ sc < 500) by (rewrite Ef; by split; [|intros []]).
    pose proof (fun wr' l r refused Hw => record_run_told v fn f "error" (truncated (v_text v err)) cold sc 0 stderr st wr' counted l r refused
      Hw Hst (or_intror (ex_intro _ err (conj Ef eq_refl))) (truncated_len _) eq_refl) as H.
    destruct (record_run _ _ _ _ _ _ _ _ _) as [st' es].
    pose proof (invokeError_status err (v_text v err) fn (reqID q)) as Hs.
    destruct (invokeError _ _ _ _) as [status opts]. cbn [fst] in Hs.
    destruct (f_result f) as [res|]; [destruct (res_Wrote res) eqn:Ew|]; cbn [negb]; intros l r Hl Hr; apply H; try done.
    + by apply Hhd.
    + rewrite Hun by done. by apply error_keeps_exec.
    + rewrite Hun by done. by apply error_keeps_exec.
  - destruct (Hres eq_refl) as (res & Er & Ew). rewrite Er, Ew in *.
    pose proof (fun l r refused => record_run_told v fn f (if 500 <=? res_StatusCode res then "error" else "success") ""
      (res_ColdStart res) (res_StatusCode res) (res_ResponseSize res) (res_Stderr res) st (f_writer f) counted l r refused (Hhd eq_refl)) as H.
    destruct (record_run _ _ _ _ _ _ _ _ _) as [st' es]. intros l r Hl Hr. apply H; try done; [|by left].
    rewrite Ef. destruct (500 <=? res_StatusCode res) eqn:E; [apply Z.leb_le in E|apply Z.leb_gt in E]; split; try done; lia.
Qed.

(** C10. A run that comes back is recorded exactly once, under the execution
    id the caller reads in its answer, as a success exactly when it was
    delivered with a status below 500 and else with at most a kilobyte of the
    error's text, and its reserved place is handed back in the same call; a
    run that panics is recorded nowhere. *)
Theorem every_run_is_recorded_once q v st wr st' fnID strip fn f :
  wr_status wr = None -> admission q v st wr = (st', Ok (fnID, strip, fn)) ->
  Forward (forwarded_request q v) fnID (v_execID v) strip (timeout_of fn) (forwarded_env v fn)
    (set_response "X-Orva-Execution-ID" (v_execID v) wr) = Some f ->
  exists o mid, ServeHTTP q v st wr = Some o /\
    r_effects o = [TookLease; ActiveUp; Ran (f_effects f)] ++ mid ++ [ActiveDown; CancelledLease; CountedResponse] /\
    if f_panicked f then omap recorded (r_effects o) = [] else told v fn f o.
Proof.
  intros Hn Ha Hf. unfold ServeHTTP. rewrite Ha, Hf. pose proof (Forward_ends _ _ _ _ _ _ _ _ Hf) as H.
  destruct (f_panicked f); [by eexists _, []|]. specialize (H eq_refl).
  pose proof (settle_run_told q v fn f st' _ H Hn) as Ht. destruct (settle_run _ _ _ _ _) as [[[st'' mid] wr'] refused].
  eexists _, mid. split; [done|]. split; [done|]. apply Ht; [|done..]. apply lookup_insert_eq.
Qed.

Definition sample_run : option (string * string * string * forwarded) :=
  match admission sample_http sample_invoke sample_state fresh_writer with
  | (_, Ok (fnID, strip, fn)) =>
    pair (fnID, strip, fn_ID fn) <$>
      Forward (forwarded_request sample_http sample_invoke) fnID "ex_1" strip (timeout_of fn) (forwarded_env sample_invoke fn)
        (set_response "X-Orva-Execution-ID" "ex_1" fresh_writer)
  | _ => None
  end.

Lemma every_run_is_recorded_once_witness :
  exists o row, ServeHTTP sample_http sample_invoke sample_state fresh_writer = Some o /\ omap recorded (r_effects o) = [row] /\
    x_ID row = "ex_1"%string.
Proof.
  destruct (admission sample_http sample_invoke sample_state fresh_writer) as [st' [[[fnID strip] fn]|[]]] eqn:Ea.
  2: { exfalso. assert (match (admission sample_http sample_invoke sample_state fresh_writer).2 with Ok _ => true | Err _ => false end = true) as H
         by (vm_compute; reflexivity). rewrite Ea in H. discriminate H. }
  assert (f_panicked <$> (snd <$> sample_run) = Some false) as H by (vm_compute; reflexivity).
  unfold sample_run in H. rewrite Ea in H.
  destruct (Forward _ _ _ _ _ _ _) as [f|] eqn:Ef; [|discriminate H]. injection H as H.
  destruct (every_run_is_recorded_once sample_http sample_invoke sample_state fresh_writer st' fnID strip fn f eq_refl Ea Ef)
    as (o & mid & Eo & _ & Ht). rewrite H in Ht. destruct Ht as (row & Hr & Hid & _).
  exists o, row. split; [exact Eo|]. split; [exact Hr|exact Hid].
Defined.

(* ------------------------------------------------------------------ *)
(** ** Retrying *)

Lemma record_run_quiet v fn status errMsg cold sc size stderr st :
  Forall (fun x => is_run x = false) (record_run v fn status errMsg cold sc size stderr st).2.
Proof.
  unfold record_run. destruct (observe _ _ _ _ _) as [b outlier]. cbn.
  by case_bool_decide; destruct (v_publishes v); repeat constructor.
Qed.

(** C30. When the handler refuses a request itself, an invitation to retry
    ([Retry-After]) means that no worker had been taken for it; once a worker
    was taken the refusal is 499, 502, 503 or 504 and invites nobody. *)
Theorem retry_after_means_not_run q v st wr o status :
  wr_status wr = None -> wr_header wr !! "Retry-After"%string = None ->
  ServeHTTP q v st wr = Some o -> r_refused o = Some status ->
  forall es, Ran es ∈ r_effects o -> existsb acquires es = true ->
  wr_header (r_writer o) !! "Retry-After"%string = None /\ status ∈ [499; 502; 503; 504] /\ wr_status (r_writer o) = Some status.
Proof.
  intros Hn Hra. unfold ServeHTTP. destruct (admission q v st wr) as [st' [[[fnID strip] fn]|[status' wr']]].
  2: { intros [= <-] _ es [H|H]%elem_of_cons; [done|by apply elem_of_nil in H]. }
  destruct (Forward _ _ _ _ _ _ _) as [f|] eqn:Ef; [|done]. pose proof (Forward_ends _ _ _ _ _ _ _ _ Ef) as Hends.
  destruct (f_panicked f); [by intros [= <-]|]. destruct (Hends eq_refl) as [_ Hheld Hun _]. unfold settle_run.
  destruct (f_err f) as [err|]; [|by destruct (f_result f); try destruct (record_run _ _ _ _ _ _ _ _ _); intros [= <-]].
  destruct (record_run _ _ _ _ _ _ _ _ _) as [st'' rec] eqn:Er.
  destruct (match f_result f with Some r => negb (res_Wrote r) | None => true end) eqn:Ew; [|by intros [= <-]].
  pose proof (invokeError_after err (v_text v err) fn (reqID q)) as Hafter.
  pose proof (invokeError_status err (v_text v err) fn (reqID q)) as Hs.
  destruct (invokeError _ _ _ _) as [status' opts]. cbn [fst snd] in Hafter, Hs.
  intros [= <-] [= <-] es Hin Hacq. cbn [r_effects r_writer] in *.
  assert (es = f_effects f) as ->.
  { cbn in Hin. rewrite !elem_of_cons, elem_of_app, !elem_of_cons in Hin.
    destruct Hin as [?|[?|[[= ->]|[?|[?|[Hin|[?|[?|[?|?%elem_of_nil]]]]]]]]]; try done.
    pose proof (record_run_quiet v fn "error" (truncated (v_text v err)) (match f_result f with Some r => res_ColdStart r | None => false end)
      (match f_result f with Some r => res_StatusCode r | None => 0 end) 0 (match f_result f with Some r => res_Stderr r | None => [] end) st') as Hq.
    rewrite Er in Hq. by rewrite Forall_forall in Hq; apply Hq in Hin. }
  rewrite Hheld in Hacq. apply negb_true_iff in Hacq. destruct (Hafter Hacq) as [Hst Hretry].
  rewrite Hun; [|destruct (f_result f) as [r|]; [by apply negb_true_iff|done]|done].
  set (opts' := if _ : bool then _ else _). assert (o_RetryAfterS opts' = 0) as H0 by (unfold opts'; by destruct (_ || _)).
  destruct (ErrorWithDetail_status status' opts' (set_response "X-Orva-Execution-ID" (v_execID v) wr) Hs Hn) as [-> ->].
  rewrite H0. split; [|done]. cbn. unfold setHeader. by rewrite !lookup_insert_ne by (vm_compute; discriminate).
Qed.

(** A worker that stays silent until the deadline. *)
Definition silent_invoke : invoke_env := invoke_with (MkWait [] [] (Expired DeadlineExceeded)).

Lemma retry_after_means_not_run_witness :
  exists o status, ServeHTTP sample_http silent_invoke sample_state fresh_writer = Some o /\ r_refused o = Some status /\
    wr_header (r_writer o) !! "Retry-After"%string = None /\ status ∈ [499; 502; 503; 504].
Proof.
  assert (exists o es, ServeHTTP sample_http silent_invoke sample_state fresh_writer = Some o /\ r_refused o = Some 504 /\
    Ran es ∈ r_effects o /\ existsb acquires es = true) as (o & es & Eo & Hr & Hin & Hacq).
  { eexists _, _. split; [vm_compute; reflexivity|]. split; [reflexivity|].
    split; [cbn [r_effects]; do 2 apply list_elem_of_further; apply list_elem_of_here|vm_compute; reflexivity]. }
  destruct (retry_after_means_not_run sample_http silent_invoke sample_state fresh_writer o 504 eq_refl eq_refl Eo Hr es Hin Hacq)
    as (H1 & H2 & _).
  exists o, 504. auto.
Defined.
