(* ===== verification/Runs.v ===== *)
(** * Runs the platform starts itself
    ([scheduler/scheduler.go], [server/handlers/inbound_webhook_trigger.go],
     [server/handlers/internal_invoke.go])

    What schedules, inbound webhooks and calls from function to function share:
    the synthetic event, the exchange in one piece and what is read of its
    answer, the record.  [Invoke] has the run a caller asked for over HTTP. *)
From S2P Require Import Prelude GoText Float64 FunctionPool Json Netip Worker Headers Proxy Registry Baseline Invoke.
Open Scope Z_scope.

(** The event of a [POST /], as [json.Marshal] orders a map. *)
Definition synthetic_event (headers : gmap string string) (body : string) : json :=
  JObject [("body", JString body); ("headers", json_headers (Some headers)); ("method", JString "POST");
           ("path", JString "/")]%string.

(** What the worker's pool, its process and the clock answer during a run. *)
Record run_env := MkRun {
  n_acquire : res acquire_error (bool * Worker);
  n_execID : string; n_spanID : string; n_start : Z; n_durationMS : Z;
  n_write : write_fate; n_wait : wait; n_waits : list wait;
  n_text : failure -> string;                     (** [Error] *)
  n_metrics : bool; n_publishes : bool }.

Inductive run_effect :=
| Leased | LeaseBack | Taken | GivenBack (failed : bool)
| BoundRun (execID fnID traceID spanID : string) (start : Z) | UnboundRun
| Sent (event : json)
| RowQueued (row : ExecutionRow) | OutlierUpdate (execID : string) (isOutlier : bool) (p95 : Z)
| RunCounted (cold : bool) (ms : Z) | LogQueued (execID fnID : string) (stderr : list Z)
| RunPublished (trigger : string) (ev : execution_event)
| Audited (summary : string).

(** [errMsg] of a failed exchange. *)
Definition exchange_error (e : werror) (env : run_env) : string :=
  match of_werror e with Some SDeadlineExceeded => "function timed out"%string | _ => n_text env (FDispatch e) end.

(** [json.Unmarshal] of what [Dispatch] gave back into the fields the caller
    reads; an envelope always decodes ([answer_of_envelope]). *)
Definition answer_of (payload : list Z) : Z * option (gmap string string) * string :=
  let fr := default zero_frame (frame_of payload) in (f_StatusCode fr, f_Headers fr, f_Body fr).

(** The row, the counters and the baseline; [cold] is what the baseline is
    told. *)
Definition finalized_row (row : ExecutionRow) (counted cold : bool) (env : run_env) (b : gmap string ringBuf) :
    gmap string ringBuf * list run_effect :=
  if n_metrics env then
    let '(b, upd) := FinalizeExecution true (x_ID row) (x_FunctionID row) (x_Status row) cold (x_DurationMS row) b in
    (b, [RowQueued row; RunCounted counted (x_DurationMS row)] ++
        match upd with Some (id, out, p95) => [OutlierUpdate id out p95] | None => [] end)
  else (b, [RowQueued row]).

Definition stored_log (execID fnID : string) (stderr : list Z) : list run_effect :=
  if bool_decide (stderr = []) then [] else [LogQueued execID fnID stderr].

Definition is_sent (x : run_effect) : bool := match x with Sent _ => true | _ => false end.
Definition row_queued (x : run_effect) : option ExecutionRow := match x with RowQueued row => Some row | _ => None end.

Lemma finalized_row_rows row counted cold env b :
  let '(_, es) := finalized_row row counted cold env b in omap row_queued es = [row] /\ existsb is_sent es = false.
Proof.
  unfold finalized_row. destruct (n_metrics env); [|done]. destruct (FinalizeExecution _ _ _ _ _ _ _) as [b' [[[? ?] ?]|]]; done.
Qed.

Lemma stored_log_rows execID fnID stderr : omap row_queued (stored_log execID fnID stderr) = [].
Proof. unfold stored_log. by case_bool_decide. Qed.

(* ------------------------------------------------------------------ *)
(** ** Numbers in texts *)

Lemma of_bytes_app l r : of_bytes (l ++ r) = (of_bytes l ++ of_bytes r)%string.
Proof. induction l as [|c l IH]; [done|]. cbn. by rewrite IH. Qed.

Lemma parse_digits_app s : forall t n, parse_digits n (s ++ t)%string = parse_digits n s ≫= fun m => parse_digits m t.
Proof.
  induction s as [|c s IH]; intros t n; [done|]. simpl. destruct (_ && _); [apply IH|done].
Qed.

(** The digits of a number: how they read, and that only zero starts with a
    zero. *)
Lemma digits_of fuel : forall n acc, 0 <= n < 10 ^ Z.of_nat fuel -> (0 < fuel)%nat ->
  exists d ds, fmt_base 10 fuel n acc = (d :: ds) ++ acc /\ Forall (fun c => 48 <= c <= 57) (d :: ds) /\
    (d = 48 -> n = 0 /\ ds = []) /\ parse_digits 0 (of_bytes (d :: ds)) = Some n.
Proof.
  assert (Hparse : forall d m, 0 <= d < 10 -> parse_digits m (of_bytes [48 + d]) = Some (m * 10 + d)).
  { intros d m Hd. cbn [of_bytes parse_digits]. pose proof (ord_chr (48 + d) ltac:(lia)) as Ho. unfold ord in Ho. rewrite Ho.
    replace ((48 <=? 48 + d) && (48 + d <=? 57)) with true; [f_equal; lia|].
    symmetry. apply andb_true_iff. split; apply Z.leb_le; lia. }
  induction fuel as [|fuel IH]; intros n acc Hn Hf; [lia|]. cbn [fmt_base].
  pose proof (Z.mod_pos_bound n 10 ltac:(lia)) as Hm. pose proof (Z.div_mod n 10 ltac:(lia)) as Hdm.
  rewrite (proj2 (Z.ltb_lt (n mod 10) 10)) by lia. destruct (n <? 10) eqn:E; [apply Z.ltb_lt in E|apply Z.ltb_ge in E].
  - rewrite Z.mod_small by lia. exists (48 + n), []. split; [done|]. split; [repeat constructor; lia|]. split; [intros; split; [lia|done]|].
    by rewrite Hparse by lia.
  - rewrite Nat2Z.inj_succ, Z.pow_succ_r in Hn by lia.
    assert (0 < fuel)%nat as Hf' by (destruct fuel; [cbn in Hn; lia|lia]).
    destruct (IH (n / 10) ((48 + n mod 10) :: acc) ltac:(lia) Hf') as (d & ds & -> & Hall & H0 & Hp).
    exists d, (ds ++ [48 + n mod 10]). split; [cbn; by rewrite <- app_assoc|]. split.
    { rewrite app_comm_cons. apply Forall_app. split; [done|repeat constructor; lia]. }
    split; [intros H; destruct (H0 H); lia|].
    rewrite app_comm_cons, of_bytes_app, parse_digits_app, Hp. cbn [mbind option_bind].
    rewrite Hparse by lia. f_equal. lia.
Qed.

Lemma digits_all l : Forall (fun c => 48 <= c <= 57) l -> digits l = [].
Proof.
  induction 1 as [|c l Hc _ IH]; [done|]. cbn. unfold is_digit.
  replace ((48 <=? c) && (c <=? 57)) with true; [done|]. symmetry. apply andb_true_iff. split; apply Z.leb_le; lia.
Qed.

Lemma itoa_digits n : in_int64 (- n) \/ in_int64 n -> 0 <= n -> exists d ds, itoa n = d :: ds /\
  Forall (fun c => 48 <= c <= 57) (d :: ds) /\ (d = 48 -> n = 0 /\ ds = []) /\ parse_digits 0 (of_bytes (d :: ds)) = Some n.
Proof.
  intros Hn H0. destruct (digits_of 20 n [] ltac:(unfold in_int64, int64_min, int64_max in Hn; lia) ltac:(lia)) as (d & ds & E & H).
  exists d, ds. unfold itoa. rewrite E, app_nil_r. done.
Qed.

Lemma digit_head d l : 48 <= d <= 57 -> hasPrefix "-" (of_bytes (d :: l)) = false /\ hasPrefix "+" (of_bytes (d :: l)) = false.
Proof.
  intros Hd. assert (bytes_ok : ord (chr d) = d) by (apply ord_chr; lia).
  split; cbn [of_bytes hasPrefix]; rewrite andb_true_r; apply bool_decide_eq_false_2; intros E; rewrite <- E in bytes_ok;
    vm_compute in bytes_ok; lia.
Qed.

Lemma parseInt64_formatInt n : in_int64 n -> parseInt64 (formatInt n) = Some n.
Proof.
  intros Hn. unfold formatInt. destruct (n <? 0) eqn:E; [apply Z.ltb_lt in E|apply Z.ltb_ge in E].
  - destruct (itoa_digits (- n)) as (d & ds & Ei & Hall & _ & Hp); [left; by rewrite Z.opp_involutive|lia|]. rewrite Ei.
    unfold parseInt64. change (hasPrefix "-" (of_bytes (45 :: d :: ds))) with true.
    change (str_drop 1 (of_bytes (45 :: d :: ds))) with (of_bytes (d :: ds)). cbn [of_bytes] in *. rewrite Hp.
    rewrite Z.opp_involutive. unfold in_int64 in Hn. by rewrite !(proj2 (Z.leb_le _ _)) by lia.
  - destruct (itoa_digits n) as (d & ds & Ei & Hall & _ & Hp); [by right|lia|]. rewrite Ei.
    apply Forall_cons in Hall as [Hd _]. destruct (digit_head d ds Hd) as [H1 H2].
    unfold parseInt64. rewrite H1, H2. cbn [of_bytes] in *. rewrite Hp.
    unfold in_int64 in Hn. by rewrite !(proj2 (Z.leb_le _ _)) by lia.
Qed.

Lemma number_ok_formatInt n : in_int64 n -> number_ok (formatInt n) = true.
Proof.
  intros Hn. unfold formatInt, number_ok.
  assert (Hdigits : forall d ds, Forall (fun c => 48 <= c <= 57) (d :: ds) -> (d = 48 -> ds = []) -> number_int (d :: ds) = Some []).
  { intros d ds Hall H0. apply Forall_cons in Hall as [Hd Hds]. cbn. destruct (d =? 48) eqn:E48.
    - apply Z.eqb_eq in E48. by rewrite H0.
    - unfold is_digit. rewrite !(proj2 (Z.leb_le _ _)) by lia. cbn. by rewrite digits_all. }
  rewrite bytes_of_bytes.
  2: { destruct (n <? 0) eqn:E; [apply Z.ltb_lt in E|apply Z.ltb_ge in E].
       - destruct (itoa_digits (- n)) as (d & ds & -> & Hall & _); [left; by rewrite Z.opp_involutive|lia|].
         constructor; [lia|]. eapply Forall_impl; [exact Hall|]. cbn. lia.
       - destruct (itoa_digits n) as (d & ds & -> & Hall & _); [by right|lia|]. eapply Forall_impl; [exact Hall|]. cbn. lia. }
  rewrite json_number_stages. destruct (n <? 0) eqn:E; [apply Z.ltb_lt in E|apply Z.ltb_ge in E].
  - destruct (itoa_digits (- n)) as (d & ds & -> & Hall & H0 & _); [left; by rewrite Z.opp_involutive|lia|].
    cbn [number_sign]. change (45 =? 45) with true. cbv iota. rewrite Hdigits; [done|done|]. intros H. by destruct (H0 H).
  - destruct (itoa_digits n) as (d & ds & -> & Hall & H0 & _); [by right|lia|]. cbn [number_sign].
    rewrite (proj2 (Z.eqb_neq d 45)) by (apply Forall_cons in Hall as [Hd _]; lia).
    rewrite Hdigits; [done|done|]. intros H. by destruct (H0 H).
Qed.

Lemma as_map_strings (l : list (string * string)) : forall m : gmap string string,
  exists m', foldl (fun m kv => m ← m; s ← as_string "" (snd kv); Some (<[fst kv := s]> m))
    (Some m) (map (fun kv => (fst kv, JString (snd kv))) l) = Some m'.
Proof. induction l as [|kv l IH]; intros m; [by exists m|]. cbn. apply IH. Qed.

(** What [Dispatch] gave back decodes without an error. *)
Lemma answer_of_envelope status headers body :
  in_int64 status -> exists h, answer_of (envelope status headers body) = (status, h, repair body) /\
    (h = None <-> headers = None).
Proof.
  intros Hs. unfold answer_of, frame_of, envelope.
  rewrite unmarshal_marshal.
  2: { cbn [json_ok]. replace (Z.to_nat 10000) with (S (Z.to_nat 9999)) by lia. cbn [forallb snd json_ok].
       rewrite number_ok_formatInt by done. rewrite json_headers_ok by lia. done. }
  assert (exists h, as_map None (repair_json (json_headers headers)) = Some h /\ (h = None <-> headers = None)) as (h & Hh & Hi).
  { destruct headers as [m|]; [|by exists None]. unfold json_headers. cbn [repair_json]. rewrite map_map. cbn [fst snd repair_json].
    destruct (as_map_strings (map (fun kv => (repair (fst kv), repair (snd kv))) (merge_sort (fun a b => str_le (fst a) (fst b)) (map_to_list m))) ∅) as [m' Hm].
    rewrite map_map in Hm. cbn [fst snd] in Hm. exists (Some m'). cbn [as_map default]. by rewrite Hm. }
  exists h. split; [|done]. cbn [repair_json map fst snd foldl].
  change (repair "body") with "body"%string. change (repair "headers") with "headers"%string.
  change (repair "statusCode") with "statusCode"%string. unfold assign.
  change (field_of "body") with (Some Worker.FBody). change (field_of "headers") with (Some FHeaders).
  change (field_of "statusCode") with (Some FStatusCode). cbn [as_string mbind option_bind].
  change (f_Headers (zero_frame <| f_Body := repair body |>)) with (@None (gmap string string)). rewrite Hh.
  cbn [as_int mbind option_bind repair_json]. rewrite parseInt64_formatInt by done. done.
Qed.

(** A map of strings reads back from its members. *)
Lemma as_map_strings_lookup l : forall m : gmap string string, NoDup (map fst l) ->
  exists m', foldl (fun m kv => m ← m; s ← as_string "" (snd kv); Some (<[fst kv := s]> m))
    (Some m) (map (fun kv => (fst kv, JString (snd kv))) l) = Some m' /\
    forall k s, m' !! k = Some s <-> (k, s) ∈ l \/ (k ∉ map fst l /\ m !! k = Some s).
Proof.
  induction l as [|[k0 s0] l IH]; intros m Hnd.
  - exists m. split; [done|]. intros k s. cbn. rewrite elem_of_nil. split; [intros; right; split; [apply not_elem_of_nil|done]|by intros [[]|[]]].
  - cbn in Hnd. apply NoDup_cons in Hnd as [Hk0 Hnd]. destruct (IH (<[k0 := s0]> m) Hnd) as (m' & Hm' & Hl). exists m'. split; [exact Hm'|].
    intros k s. rewrite Hl. cbn [map fst]. rewrite elem_of_cons, not_elem_of_cons, lookup_insert_Some. split.
    + intros [H|[Hn [[<- <-]|[Hk Hs]]]]; [by left; right|by left; left|right; done].
    + intros [[[= -> ->]|H]|[[Hk Hn] Hs]]; [right; split; [done|by left]|by left|right; split; [done|right; done]].
Qed.

Lemma as_map_json_headers m : as_map None (json_headers (Some m)) = Some (Some m).
Proof.
  unfold json_headers, as_map. cbn [default]. set (l := merge_sort _ _).
  assert (Permutation l (map_to_list m)) as Hp by apply merge_sort_Permutation.
  destruct (as_map_strings_lookup l ∅) as (m' & -> & Hl).
  { rewrite Hp. apply NoDup_fst_map_to_list. }
  cbn. do 2 f_equal. apply map_eq. intros k. destruct (m !! k) as [s|] eqn:E.
  - apply Hl. left. rewrite Hp. by apply elem_of_map_to_list.
  - apply eq_None_not_Some. intros [s Hs]. apply Hl in Hs as [Hs|[_ Hs]]; [|by rewrite lookup_empty in Hs].
    rewrite Hp, elem_of_map_to_list, E in Hs. done.
Qed.
