(* ===== verification/Inbound.v ===== *)
(** * Inbound webhooks
    ([database/inbound_webhooks.go], [server/handlers/inbound_webhook.go],
     [server/handlers/inbound_webhook_trigger.go])

    The table of triggers and its handlers, the five signature formats with
    their verifiers and the signer behind the dashboard's test, and the public
    endpoint that runs a function for a signed request. *)
From S2P Require Import Prelude GoText Float64 FunctionPool Sha256 AuthGate Json Netip Worker Headers Proxy Limiter Registry Baseline Invoke Runs.
Open Scope Z_scope.

(* ------------------------------------------------------------------ *)
(** ** The table *)

(** The preview of the secret is made on the way out ([SecretPreview]). *)
Record InboundWebhook := MkHook {
  h_ID : string; h_FunctionID : string; h_Name : string; h_Secret : string; h_SignatureHeader : string;
  h_SignatureFormat : string; h_Active : bool; h_CreatedAt : Z }.
#[export] Instance eta_InboundWebhook : Eta InboundWebhook := fun r =>
  MkHook (h_ID r) (h_FunctionID r) (h_Name r) (h_Secret r) (h_SignatureHeader r) (h_SignatureFormat r) (h_Active r) (h_CreatedAt r).

Definition AllowedInboundFormats : list string := ["hmac_sha256_hex"; "hmac_sha256_base64"; "github"; "stripe"; "slack"]%string.
Definition allowed_format (f : string) : bool := bool_decide (f ∈ AllowedInboundFormats).

Definition DefaultSignatureHeader (format : string) : string :=
  if bool_decide (format = "github"%string) then "X-Hub-Signature-256"
  else if bool_decide (format = "stripe"%string) then "Stripe-Signature"
  else if bool_decide (format = "slack"%string) then "X-Slack-Signature"
  else "X-Orva-Signature".

Notation hooks := (gmap string InboundWebhook).

(** [id]: a fresh identifier; [known]: the function is a row of its table. *)
Definition InsertInboundWebhook (io known : bool) (id : string) (nowMS : Z) (w : InboundWebhook) (t : hooks) : option (hooks * InboundWebhook) :=
  let w := if bool_decide (h_ID w = ""%string) then w <| h_ID := id |> else w in
  let w := if bool_decide (h_SignatureFormat w = ""%string) then w <| h_SignatureFormat := "hmac_sha256_hex"%string |> else w in
  if negb (allowed_format (h_SignatureFormat w)) then None
  else
    let w := if bool_decide (h_SignatureHeader w = ""%string)
             then w <| h_SignatureHeader := DefaultSignatureHeader (h_SignatureFormat w) |> else w in
    let w := w <| h_CreatedAt := nowMS |> in
    if io || negb known || bool_decide (is_Some (t !! h_ID w)) then None else Some (<[h_ID w := w]> t, w).

Definition GetInboundWebhook (io : bool) (id : string) (t : hooks) : option InboundWebhook := if io then None else t !! id.

Definition SecretPreview (secret : string) : string :=
  if 8 <=? len secret then (str_take 8 secret ++ "…")%string else ""%string.

(** Writes name, header, format and activity; never the secret. *)
Definition UpdateInboundWebhook (io : bool) (w : InboundWebhook) (t : hooks) : option hooks :=
  if negb (allowed_format (h_SignatureFormat w)) then None
  else if io then None
  else Some (alter (fun old => old <| h_Name := h_Name w |> <| h_SignatureHeader := h_SignatureHeader w |>
                                   <| h_SignatureFormat := h_SignatureFormat w |> <| h_Active := h_Active w |>) (h_ID w) t).

Definition DeleteInboundWebhook (io : bool) (id : string) (t : hooks) : option hooks := if io then None else Some (delete id t).

(** The cascade of a function's row. *)
Definition function_gone (fnID : string) (t : hooks) : hooks := filter (fun kv => h_FunctionID (snd kv) <> fnID) t.

(* ------------------------------------------------------------------ *)
(** ** The handlers of the table *)

Record inboundCreateRequest := MkInboundCreate { ic_Name : string; ic_Format : string; ic_Header : string; ic_Active : option bool }.
Record inboundUpdateRequest := MkInboundUpdate {
  iu_Name : option string; iu_Format : option string; iu_Header : option string; iu_Active : option bool }.

(** [fnID]: the function of the path, when it resolves.  The status and what
    the answer shows of the row; [secret]: sixty-four random hex digits. *)
Definition Create (fnID : option string) (req : option inboundCreateRequest) (io known : bool) (id secret : string) (nowMS : Z) (t : hooks) :
    hooks * (Z * option (InboundWebhook * string)) :=
  match fnID with
  | None => (t, (404, None))
  | Some fnID =>
    match req with
    | None => (t, (400, None))
    | Some req =>
      let name := trimSpace (ic_Name req) in
      if bool_decide (name = ""%string) then (t, (400, None))
      else
        let format := trimSpace (ic_Format req) in
        let format := if bool_decide (format = ""%string) then "hmac_sha256_hex"%string else format in
        if negb (allowed_format format) then (t, (400, None))
        else
          let header := trimSpace (ic_Header req) in
          let header := if bool_decide (header = ""%string) then DefaultSignatureHeader format else header in
          let row := MkHook "" fnID name secret header format (default true (ic_Active req)) 0 in
          match InsertInboundWebhook io known id nowMS row t with
          | None => (t, (500, None))
          | Some (t, row) => (t, (201, Some (row, secret)))
          end
    end
  end.

(** The row of the path, if it belongs to the function of the path. *)
Definition own_hook (io : bool) (fnID : option string) (id : string) (t : hooks) : option InboundWebhook :=
  match fnID, GetInboundWebhook io id t with
  | Some fnID, Some row => if bool_decide (h_FunctionID row = fnID) then Some row else None
  | _, _ => None
  end.

Definition updated_hook (req : inboundUpdateRequest) (row : InboundWebhook) : option InboundWebhook :=
  row ← match iu_Name req with
        | Some n => let name := trimSpace n in if bool_decide (name = ""%string) then None else Some (row <| h_Name := name |>)
        | None => Some row
        end;
  row ← match iu_Format req with
        | Some f =>
          let f := trimSpace f in
          if negb (allowed_format f) then None
          else
            let row := if bool_decide (h_SignatureHeader row = DefaultSignatureHeader (h_SignatureFormat row))
                       then row <| h_SignatureHeader := DefaultSignatureHeader f |> else row in
            Some (row <| h_SignatureFormat := f |>)
        | None => Some row
        end;
  row ← match iu_Header req with
        | Some h => let h := trimSpace h in if bool_decide (h = ""%string) then None else Some (row <| h_SignatureHeader := h |>)
        | None => Some row
        end;
  Some (match iu_Active req with Some a => row <| h_Active := a |> | None => row end).

Definition Update (io_read io_write : bool) (fnID : option string) (id : string) (req : option inboundUpdateRequest) (t : hooks) : hooks * Z :=
  match own_hook io_read fnID id t with
  | None => (t, 404)
  | Some row =>
    match req with
    | None => (t, 400)
    | Some req =>
      match updated_hook req row with
      | None => (t, 400)
      | Some row => match UpdateInboundWebhook io_write row t with None => (t, 500) | Some t => (t, 200) end
      end
    end
  end.

Definition Delete (io_read io_write : bool) (fnID : option string) (id : string) (t : hooks) : hooks * Z :=
  match own_hook io_read fnID id t with
  | None => (t, 404)
  | Some _ => match DeleteInboundWebhook io_write id t with None => (t, 500) | Some t => (t, 200) end
  end.

(* ------------------------------------------------------------------ *)
(** ** Signatures *)

(** [base64.StdEncoding.EncodeToString]. *)
Definition std_char (v : Z) : Z := if v =? 62 then 43 else if v =? 63 then 47 else b64_char v.
Fixpoint std_encode (l : list Z) : list Z :=
  match l with
  | [] => []
  | [a] => [std_char (a / 4); std_char (a mod 4 * 16); 61; 61]
  | [a; b] => [std_char (a / 4); std_char (a mod 4 * 16 + b / 16); std_char (b mod 16 * 4); 61]
  | a :: b :: c :: l =>
    std_char (a / 4) :: std_char (a mod 4 * 16 + b / 16) :: std_char (b mod 16 * 4 + c / 64) :: std_char (c mod 64) :: std_encode l
  end.

Definition mac (secret : string) (msg : list Z) : list Z := hmac_sha256 (bytes secret) msg.

(** What Stripe and Slack sign. *)
Definition stripe_payload (ts : string) (body : list Z) : list Z := bytes ts ++ bytes "." ++ body.
Definition slack_payload (ts : string) (body : list Z) : list Z := bytes "v0:" ++ bytes ts ++ bytes ":" ++ body.

Definition hex_mac (secret : string) (msg : list Z) : string := of_bytes (hex_encode (mac secret msg)).
Definition computeHMACHex (secret : string) (body : list Z) : string := hex_mac secret body.

(** [now]: seconds. *)
Definition withinReplayWindow (now ts : Z) : bool :=
  let delta := wrap64 (now - ts) in
  let delta := if delta <? 0 then wrap64 (- delta) else delta in
  delta <=? 5 * 60.

Definition verifyHMACHex (provided : string) (body : list Z) (secret : string) : res string unit :=
  let provided := trimSpace provided in
  if bool_decide (provided = ""%string) then Err "missing signature header"%string
  else if bool_decide (provided = computeHMACHex secret body) then Ok tt else Err "hex digest mismatch"%string.

Definition verifyHMACBase64 (provided : string) (body : list Z) (secret : string) : res string unit :=
  let provided := trimSpace provided in
  if bool_decide (provided = ""%string) then Err "missing signature header"%string
  else if bool_decide (provided = of_bytes (std_encode (mac secret body))) then Ok tt else Err "base64 digest mismatch"%string.

Definition verifyGitHub (provided : string) (body : list Z) (secret : string) : res string unit :=
  let provided := trimSpace provided in
  if bool_decide (provided = ""%string) then Err "missing signature header"%string
  else if negb (hasPrefix "sha256=" provided) then Err "expected sha256=<hex>"%string
  else if bool_decide (trimPrefix "sha256=" provided = computeHMACHex secret body) then Ok tt else Err "github digest mismatch"%string.

(** The loop over the parts: the last timestamp, every [v1]. *)
Definition stripe_part (acc : string * list string) (part : list Z) : string * list string :=
  match cut 61 part with
  | (_, None) => acc
  | (k, Some v) =>
    let k := trimSpace (of_bytes k) in
    if bool_decide (k = "t"%string) then (trimSpace (of_bytes v), snd acc)
    else if bool_decide (k = "v1"%string) then (fst acc, snd acc ++ [trimSpace (of_bytes v)])
    else acc
  end.

Definition verifyStripe (now : Z) (provided : string) (body : list Z) (secret : string) : res string unit :=
  let provided := trimSpace provided in
  if bool_decide (provided = ""%string) then Err "missing signature header"%string
  else
    let '(ts, v1s) := foldl stripe_part (""%string, []) (split 44 (bytes provided)) in
    if bool_decide (ts = ""%string) || bool_decide (v1s = []) then Err "malformed Stripe-Signature"%string
    else
      match parseInt64 ts with
      | None => Err "invalid timestamp"%string
      | Some t =>
        if negb (withinReplayWindow now t) then Err "timestamp outside replay window"%string
        else if existsb (fun v => bool_decide (v = hex_mac secret (stripe_payload ts body))) v1s then Ok tt
        else Err "stripe v1 mismatch"%string
      end.

Definition verifySlack (now : Z) (provided ts : string) (body : list Z) (secret : string) : res string unit :=
  let provided := trimSpace provided in
  if bool_decide (provided = ""%string) then Err "missing signature header"%string
  else if bool_decide (ts = ""%string) then Err "missing X-Slack-Request-Timestamp"%string
  else
    match parseInt64 (trimSpace ts) with
    | None => Err "invalid timestamp"%string
    | Some t =>
      if negb (withinReplayWindow now t) then Err "timestamp outside replay window"%string
      else if negb (hasPrefix "v0=" provided) then Err "expected v0=<hex>"%string
      else if bool_decide (trimPrefix "v0=" provided = hex_mac secret (slack_payload ts body)) then Ok tt
      else Err "slack v0 mismatch"%string
    end.

Definition slack_ts_header : string := "X-Slack-Request-Timestamp".

Definition verifyInboundSignature (now : Z) (h : header) (body : list Z) (hook : InboundWebhook) : res string unit :=
  let f := h_SignatureFormat hook in
  let provided := header_get (h_SignatureHeader hook) h in
  if bool_decide (f = "hmac_sha256_hex"%string) then verifyHMACHex provided body (h_Secret hook)
  else if bool_decide (f = "hmac_sha256_base64"%string) then verifyHMACBase64 provided body (h_Secret hook)
  else if bool_decide (f = "github"%string) then verifyGitHub provided body (h_Secret hook)
  else if bool_decide (f = "stripe"%string) then verifyStripe now provided body (h_Secret hook)
  else if bool_decide (f = "slack"%string) then verifySlack now provided (header_get slack_ts_header h) body (h_Secret hook)
  else Err "unknown signature_format"%string.

Definition signInboundTest (hook : InboundWebhook) (body : list Z) (now : Z) : option (gmap string string) :=
  let f := h_SignatureFormat hook in
  let header := if bool_decide (h_SignatureHeader hook = ""%string) then DefaultSignatureHeader f else h_SignatureHeader hook in
  let ts := formatInt now in
  if bool_decide (f = "hmac_sha256_hex"%string) then Some {[ header := computeHMACHex (h_Secret hook) body ]}
  else if bool_decide (f = "hmac_sha256_base64"%string) then Some {[ header := of_bytes (std_encode (mac (h_Secret hook) body)) ]}
  else if bool_decide (f = "github"%string) then Some {[ header := ("sha256=" ++ computeHMACHex (h_Secret hook) body)%string ]}
  else if bool_decide (f = "stripe"%string) then
    Some {[ header := ("t=" ++ ts ++ ",v1=" ++ hex_mac (h_Secret hook) (stripe_payload ts body))%string ]}
  else if bool_decide (f = "slack"%string) then
    Some (<[slack_ts_header := ts]> {[ header := ("v0=" ++ hex_mac (h_Secret hook) (slack_payload ts body))%string ]})
  else None.

(** [Sign]. *)
Definition Sign (io : bool) (fnID : option string) (id : string) (body : option string) (now : Z) (t : hooks) : Z * option (gmap string string) :=
  match own_hook io fnID id t with
  | None => (404, None)
  | Some row =>
    match body with
    | None => (400, None)
    | Some body => match signInboundTest row (bytes body) now with None => (400, None) | Some h => (200, Some h) end
    end
  end.

(** GitHub's documented example, and a Stripe header with two signatures. *)
Example github_example :
  hex_mac "It's a Secret to Everybody" (bytes "Hello, World!") = "757107ea0eb2509fc211221cce984b8a37570b6d7586c22c46f4379c8b043e17"%string.
Proof. vm_compute. reflexivity. Qed.

Definition stripe_hook : InboundWebhook := MkHook "i" "f" "n" "s" "Stripe-Signature" "stripe" true 0.
Example stripe_rotates :
  verifyInboundSignature 1010 [("Stripe-Signature", ["t=1000, v1=00 ,v1=" ++ hex_mac "s" (stripe_payload "1000" (bytes "{}"))])]%string
    (bytes "{}") stripe_hook = Ok tt.
Proof. vm_compute. reflexivity. Qed.

(* ------------------------------------------------------------------ *)
(** ** The texts of signatures *)

Lemma all_printable_trim s : Forall printable (bytes s) -> trimSpace s = s.
Proof.
  intros H. apply trimSpace_id. destruct spaces_heads as [H1 H2]. split.
  - destruct (bytes s) as [|c l]; [done|]. apply Forall_cons in H as [Hc _]. by apply no_space_printable.
  - assert (Forall printable (rev (bytes s))) as Hr by (by apply Forall_rev).
    destruct (rev (bytes s)) as [|c l]; [done|]. apply Forall_cons in Hr as [Hc _]. by apply no_space_printable.
Qed.

(** A byte of a digit: printable, neither a comma nor an equals sign. *)
Definition digit_byte (c : Z) : Prop := 48 <= c <= 57 \/ 97 <= c <= 102.

Lemma mac_bytes secret msg : Forall is_byte (mac secret msg) /\ length (mac secret msg) = 32%nat.
Proof. unfold mac, hmac_sha256. split; [apply sha256_are_bytes|apply length_sha256]. Qed.

Lemma hex_mac_bytes secret msg : bytes (hex_mac secret msg) <> [] /\ Forall digit_byte (bytes (hex_mac secret msg)).
Proof.
  destruct (mac_bytes secret msg) as [Hb Hl]. unfold hex_mac. destruct (hex_encode_digits _ Hb) as [Hlen Hhex]. rewrite Hl in Hlen.
  assert (Forall digit_byte (hex_encode (mac secret msg))) as Hd.
  { apply Forall_forall. intros c Hc%list_elem_of_In. rewrite forallb_forall in Hhex. apply Hhex in Hc.
    unfold is_hex_lower in Hc. unfold digit_byte. zbool; lia. }
  rewrite bytes_of_bytes by (eapply Forall_impl; [exact Hd|]; unfold digit_byte; lia).
  split; [|done]. by destruct (hex_encode (mac secret msg)).
Qed.

Lemma digit_printable c : digit_byte c -> printable c.
Proof. unfold digit_byte, printable. lia. Qed.

Lemma std_char_printable v : 0 <= v < 64 -> printable (std_char v).
Proof.
  intros Hv. apply (below_forallb (fun v => (33 <=? std_char v) && (std_char v <=? 126)) 64) in Hv; [|vm_compute; reflexivity].
  unfold printable. zbool; lia.
Qed.

Lemma std_encode_printable l : Forall is_byte l -> Forall printable (std_encode l) /\ (l <> [] -> std_encode l <> []).
Proof.
  assert (printable 61) as He by (unfold printable; lia).
  induction l as [|a|a b|a b c l IH] using list_ind3; intros Hl; cbn [std_encode]; rewrite ?Forall_cons in Hl; unfold is_byte in Hl;
    (split; [|done]); [apply Forall_nil_2|..|destruct Hl as (? & ? & ? & Hl)];
    repeat (apply Forall_cons_2; [first [exact He|apply std_char_printable; Z.to_euclidean_division_equations; lia]|]);
    [apply Forall_nil_2..|by apply IH].
Qed.

Lemma formatInt_digits n : 0 <= n -> in_int64 n -> bytes (formatInt n) <> [] /\ Forall digit_byte (bytes (formatInt n)).
Proof.
  intros H0 Hn. unfold formatInt. rewrite (proj2 (Z.ltb_ge n 0)) by done.
  destruct (itoa_digits n ltac:(by right) H0) as (d & ds & -> & Hall & _).
  rewrite bytes_of_bytes by (eapply Forall_impl; [exact Hall|]; cbn; lia). split; [done|].
  eapply Forall_impl; [exact Hall|]. unfold digit_byte. lia.
Qed.

(** *** What the verifiers accept *)

Definition recent (now t : Z) : Prop := now - 300 <= t <= now + 300 \/ t = now + int64_min.

Lemma withinReplayWindow_spec now t :
  0 <= now <= 4611686018427387904 -> in_int64 t -> withinReplayWindow now t = true <-> recent now t.
Proof.
  intros Hn Ht. unfold recent. rewrite <- (skew_window now t Hn Ht). unfold withinReplayWindow, abs64. rewrite Z.ltb_ge, Z.leb_le. done.
Qed.

(** The last timestamp and the signatures of a Stripe header. *)
Definition stripe_parts (p : string) : string * list string := foldl stripe_part (""%string, []) (split 44 (bytes p)).

(** A header by which the holder of the secret vouches for this very body. *)
Definition authentic (now : Z) (h : header) (body : list Z) (hook : InboundWebhook) : Prop :=
  let s := h_Secret hook in
  let p := trimSpace (header_get (h_SignatureHeader hook) h) in
  let ts := header_get slack_ts_header h in
  (h_SignatureFormat hook = "hmac_sha256_hex"%string /\ p = hex_mac s body) \/
  (h_SignatureFormat hook = "hmac_sha256_base64"%string /\ p = of_bytes (std_encode (mac s body))) \/
  (h_SignatureFormat hook = "github"%string /\ p = ("sha256=" ++ hex_mac s body)%string) \/
  (h_SignatureFormat hook = "stripe"%string /\ exists t, parseInt64 (fst (stripe_parts p)) = Some t /\ recent now t /\
     hex_mac s (stripe_payload (fst (stripe_parts p)) body) ∈ snd (stripe_parts p)) \/
  (h_SignatureFormat hook = "slack"%string /\ exists t, parseInt64 (trimSpace ts) = Some t /\ recent now t /\
     p = ("v0=" ++ hex_mac s (slack_payload ts body))%string).

Lemma hex_mac_ne secret msg : hex_mac secret msg <> ""%string.
Proof. destruct (hex_mac_bytes secret msg) as [H _]. by intros E; rewrite E in H. Qed.

Lemma prefixed p s t : hasPrefix p s = true -> trimPrefix p s = t <-> s = (p ++ t)%string.
Proof.
  intros H. unfold trimPrefix. rewrite H. apply hasPrefix_bytes in H as [r Hr]. assert (s = (p ++ of_bytes r)%string) as ->.
  { apply bytes_inj. rewrite bytes_app, bytes_of_bytes; [done|]. pose proof (bytes_are_bytes s) as Hs. rewrite Hr in Hs. apply Forall_app in Hs as [_ Hs]. exact Hs. }
  rewrite str_drop_app. split; [by intros ->|]. intros E. apply bytes_inj. apply (f_equal bytes) in E. rewrite !bytes_app in E.
  by apply app_inv_head in E.
Qed.

Lemma hasPrefix_self p t : hasPrefix p (p ++ t)%string = true.
Proof. induction p as [|c p IH]; [done|]. simpl. by rewrite bool_decide_eq_true_2, IH. Qed.

Lemma verifyHMACHex_spec p body s : verifyHMACHex p body s = Ok tt <-> trimSpace p = hex_mac s body.
Proof.
  unfold verifyHMACHex, computeHMACHex. destruct (decide (trimSpace p = ""%string)) as [E|E].
  - rewrite bool_decide_eq_true_2 by done. split; [done|]. rewrite E. intros H. by destruct (hex_mac_ne s body).
  - rewrite bool_decide_eq_false_2 by done. by case_bool_decide.
Qed.

Lemma verifyHMACBase64_spec p body s : verifyHMACBase64 p body s = Ok tt <-> trimSpace p = of_bytes (std_encode (mac s body)).
Proof.
  unfold verifyHMACBase64. destruct (decide (trimSpace p = ""%string)) as [E|E].
  - rewrite bool_decide_eq_true_2 by done. split; [done|]. rewrite E. intros H. exfalso. destruct (mac_bytes s body) as [Hb Hl].
    destruct (std_encode_printable _ Hb) as [_ Hne]. destruct (std_encode (mac s body)); [|done]. apply Hne; [|done].
    by destruct (mac s body).
  - rewrite bool_decide_eq_false_2 by done. by case_bool_decide.
Qed.

Lemma verifyGitHub_spec p body s : verifyGitHub p body s = Ok tt <-> trimSpace p = ("sha256=" ++ hex_mac s body)%string.
Proof.
  unfold verifyGitHub, computeHMACHex. destruct (decide (trimSpace p = ""%string)) as [E|E].
  - rewrite bool_decide_eq_true_2 by done. split; [done|]. by rewrite E.
  - rewrite bool_decide_eq_false_2 by done. destruct (hasPrefix "sha256=" (trimSpace p)) eqn:Ep; cbn [negb].
    + rewrite <- prefixed by done. by case_bool_decide.
    + split; [done|]. intros H. by rewrite H, hasPrefix_self in Ep.
Qed.

Lemma verifyStripe_spec now p body s :
  0 <= now <= 4611686018427387904 ->
  verifyStripe now p body s = Ok tt <->
  exists t, parseInt64 (fst (stripe_parts (trimSpace p))) = Some t /\ recent now t /\
    hex_mac s (stripe_payload (fst (stripe_parts (trimSpace p))) body) ∈ snd (stripe_parts (trimSpace p)).
Proof.
  intros Hn. unfold verifyStripe, stripe_parts. destruct (decide (trimSpace p = ""%string)) as [E|E].
  - rewrite bool_decide_eq_true_2 by done. split; [done|]. rewrite E. by intros (t & H & _).
  - rewrite bool_decide_eq_false_2 by done. destruct (foldl stripe_part _ _) as [ts v1s]. cbn [fst snd].
    destruct (decide (ts = ""%string)) as [->|Ht]; [split; [done|by intros (t & H & _)]|].
    rewrite (bool_decide_eq_false_2 (ts = _)) by done. cbn [orb].
    destruct (decide (v1s = [])) as [->|Hv]; [split; [done|by intros (t & _ & _ & H%elem_of_nil)]|].
    rewrite (bool_decide_eq_false_2 (v1s = [])) by done.
    destruct (parseInt64 ts) as [t|] eqn:Et; [|split; [done|by intros (t & H & _)]].
    pose proof (withinReplayWindow_spec now t Hn (parseInt64_range _ _ Et)) as Hw.
    destruct (withinReplayWindow now t); cbn [negb]; [|split; [done|intros (t' & [= <-] & H & _); by apply Hw in H]].
    destruct (existsb _ v1s) eqn:Ex; split; try done.
    + intros _. exists t. split; [done|]. split; [by apply Hw|]. apply existsb_exists in Ex as (v & Hin & ->%bool_decide_eq_true).
      by apply list_elem_of_In.
    + intros (t' & _ & _ & Hin). rewrite <- not_true_iff_false in Ex. destruct Ex. apply existsb_exists. eexists.
      split; [by apply list_elem_of_In|by apply bool_decide_eq_true].
Qed.

Lemma verifySlack_spec now p ts body s :
  0 <= now <= 4611686018427387904 ->
  verifySlack now p ts body s = Ok tt <->
  exists t, parseInt64 (trimSpace ts) = Some t /\ recent now t /\ trimSpace p = ("v0=" ++ hex_mac s (slack_payload ts body))%string.
Proof.
  intros Hn. unfold verifySlack. destruct (decide (trimSpace p = ""%string)) as [E|E].
  - rewrite bool_decide_eq_true_2 by done. split; [done|]. rewrite E. by intros (t & _ & _ & H).
  - rewrite bool_decide_eq_false_2 by done. destruct (decide (ts = ""%string)) as [->|Ht]; [split; [done|by intros (t & H & _)]|].
    rewrite bool_decide_eq_false_2 by done.
    destruct (parseInt64 (trimSpace ts)) as [t|] eqn:Et; [|split; [done|by intros (t & H & _)]].
    pose proof (withinReplayWindow_spec now t Hn (parseInt64_range _ _ Et)) as Hw.
    destruct (withinReplayWindow now t); cbn [negb]; [|split; [done|intros (t' & [= <-] & H & _); by apply Hw in H]].
    destruct (hasPrefix "v0=" (trimSpace p)) eqn:Ep; cbn [negb].
    + case_bool_decide as Eq; split; try done.
      * intros _. exists t. split; [done|]. split; [by apply Hw|by apply prefixed].
      * intros (_ & _ & _ & H). by apply prefixed in H.
    + split; [done|]. intros (_ & _ & _ & H). by rewrite H, hasPrefix_self in Ep.
Qed.

Ltac the_format :=
  split; [intros; auto 10|intros [[E ?]|[[E ?]|[[E ?]|[[E ?]|[E ?]]]]]; first [assumption|discriminate E]].

Lemma verify_spec now h body hook :
  0 <= now <= 4611686018427387904 -> verifyInboundSignature now h body hook = Ok tt <-> authentic now h body hook.
Proof.
  intros Hn. unfold verifyInboundSignature, authentic.
  destruct (decide (h_SignatureFormat hook = "hmac_sha256_hex"%string)) as [E1|E1];
    [rewrite bool_decide_eq_true_2, verifyHMACHex_spec, E1 by done; the_format|rewrite bool_decide_eq_false_2 by done].
  destruct (decide (h_SignatureFormat hook = "hmac_sha256_base64"%string)) as [E2|E2];
    [rewrite bool_decide_eq_true_2, verifyHMACBase64_spec, E2 by done; the_format|rewrite bool_decide_eq_false_2 by done].
  destruct (decide (h_SignatureFormat hook = "github"%string)) as [E3|E3];
    [rewrite bool_decide_eq_true_2, verifyGitHub_spec, E3 by done; the_format|rewrite bool_decide_eq_false_2 by done].
  destruct (decide (h_SignatureFormat hook = "stripe"%string)) as [E4|E4];
    [rewrite bool_decide_eq_true_2, verifyStripe_spec, E4 by done; the_format|rewrite bool_decide_eq_false_2 by done].
  destruct (decide (h_SignatureFormat hook = "slack"%string)) as [E5|E5];
    [rewrite bool_decide_eq_true_2, verifySlack_spec, E5 by done; the_format|rewrite bool_decide_eq_false_2 by done].
  split; [done|]. by intros [[]|[[]|[[]|[[]|[]]]]].
Qed.

Lemma digits_avoid c l : c = 44 \/ c = 61 -> Forall digit_byte l -> Forall (fun x => x <> c) l.
Proof. intros Hc H. eapply Forall_impl; [exact H|]. unfold digit_byte. lia. Qed.

Lemma digits_trim s : Forall digit_byte (bytes s) -> trimSpace s = s.
Proof. intros H. apply all_printable_trim. eapply Forall_impl; [exact H|]. exact digit_printable. Qed.

Lemma printable_text l : forallb (fun c => (33 <=? c) && (c <=? 126)) l = true -> Forall printable l.
Proof.
  intros H. apply Forall_forall. intros c Hc%list_elem_of_In. rewrite forallb_forall in H. apply H in Hc. unfold printable. zbool; lia.
Qed.

Lemma stripe_parts_signed ts v :
  Forall digit_byte (bytes ts) -> Forall digit_byte (bytes v) ->
  let p := ("t=" ++ ts ++ ",v1=" ++ v)%string in trimSpace p = p /\ stripe_parts p = (ts, [v]).
Proof.
  intros Ht Hv p. assert (bytes p = (bytes "t=" ++ bytes ts) ++ 44 :: (bytes "v1=" ++ bytes v)) as Hp
    by (unfold p; by rewrite !bytes_app).
  split.
  - apply all_printable_trim. rewrite Hp. rewrite !Forall_app, Forall_cons, !Forall_app.
    assert (forall l, Forall digit_byte l -> Forall printable l) as Himp by (intros l H; eapply Forall_impl; [exact H|]; exact digit_printable).
    split_and!; try (by apply Himp); try (by apply printable_text). unfold printable. lia.
  - unfold stripe_parts. rewrite Hp, split_app.
    2: { apply Forall_app. split; [repeat constructor; discriminate|apply digits_avoid; [by left|done]]. }
    rewrite split_one by (apply Forall_app; split; [repeat constructor; discriminate|apply digits_avoid; [by left|done]]).
    cbn [foldl]. unfold stripe_part at 2. change (bytes "t=" ++ bytes ts) with ([116] ++ 61 :: bytes ts).
    rewrite cut_app by (repeat constructor; discriminate). change (trimSpace (of_bytes [116])) with "t"%string.
    rewrite of_bytes_bytes, digits_trim by done. change (bool_decide ("t"%string = "t"%string)) with true. cbv iota.
    unfold stripe_part. change (bytes "v1=" ++ bytes v) with ([118; 49] ++ 61 :: bytes v).
    rewrite cut_app by (repeat constructor; discriminate). change (trimSpace (of_bytes [118; 49])) with "v1"%string.
    by rewrite of_bytes_bytes, digits_trim by done.
Qed.

(** A row for which the signer makes a header the verifier looks at. *)
Definition signable (hook : InboundWebhook) : Prop :=
  allowed_format (h_SignatureFormat hook) = true /\ h_SignatureHeader hook <> ""%string /\
  (h_SignatureFormat hook = "slack"%string -> h_SignatureHeader hook <> slack_ts_header).

Definition carried (hs : gmap string string) (h : header) : Prop := forall k v, hs !! k = Some v -> header_get k h = v.

Lemma sign_authentic hook body now now' :
  0 <= now <= 4611686018427387904 -> now' - 300 <= now <= now' + 300 -> signable hook ->
  exists hs, signInboundTest hook body now = Some hs /\ forall h, carried hs h -> authentic now' h body hook.
Proof.
  intros Hn Hw (Hf & Hh & Hslack). unfold allowed_format in Hf. apply bool_decide_eq_true in Hf. unfold signInboundTest, authentic.
  assert (in_int64 now) as Hi by (unfold in_int64, int64_min, int64_max; lia).
  destruct (formatInt_digits now ltac:(lia) Hi) as [Hne Hd]. pose proof (parseInt64_formatInt now Hi) as Hp.
  rewrite (bool_decide_eq_false_2 (h_SignatureHeader hook = _)) by done.
  repeat (apply elem_of_cons in Hf as [Hf|Hf]); [..|by apply elem_of_nil in Hf]; rewrite Hf; eexists; (split; [reflexivity|]); intros h Hc.
  - left. split; [done|]. rewrite (Hc _ _ (lookup_singleton_eq _ _)). apply digits_trim, hex_mac_bytes.
  - right; left. split; [done|]. rewrite (Hc _ _ (lookup_singleton_eq _ _)). apply all_printable_trim.
    destruct (mac_bytes (h_Secret hook) body) as [Hb _]. destruct (std_encode_printable _ Hb) as [Hpr _].
    rewrite bytes_of_bytes; [done|]. eapply Forall_impl; [exact Hpr|]. unfold printable. lia.
  - right; right; left. split; [done|]. rewrite (Hc _ _ (lookup_singleton_eq _ _)). apply all_printable_trim. rewrite bytes_app.
    apply Forall_app. split; [by apply printable_text|]. destruct (hex_mac_bytes (h_Secret hook) body) as [_ Hx].
    eapply Forall_impl; [exact Hx|]. exact digit_printable.
  - do 3 right; left. split; [done|]. rewrite (Hc _ _ (lookup_singleton_eq _ _)).
    destruct (stripe_parts_signed (formatInt now) (hex_mac (h_Secret hook) (stripe_payload (formatInt now) body)) Hd (proj2 (hex_mac_bytes _ _))) as [E1 E2].
    rewrite E1, E2. exists now. split; [done|]. split; [left; lia|]. apply list_elem_of_here.
  - do 4 right. split; [done|]. assert (header_get slack_ts_header h = formatInt now) as Hts by (apply Hc, lookup_insert_eq).
    rewrite Hts. exists now. split; [by rewrite digits_trim|]. split; [left; lia|].
    rewrite (Hc (h_SignatureHeader hook) ("v0=" ++ hex_mac (h_Secret hook) (slack_payload (formatInt now) body))%string).
    2: { rewrite lookup_insert_ne by (intros E; by apply Hslack). apply lookup_singleton_eq. }
    apply all_printable_trim. rewrite bytes_app. apply Forall_app. split; [by apply printable_text|].
    destruct (hex_mac_bytes (h_Secret hook) (slack_payload (formatInt now) body)) as [_ Hx]. eapply Forall_impl; [exact Hx|]. exact digit_printable.
Qed.

(* ------------------------------------------------------------------ *)
(** ** Every trigger can be tested *)

Inductive hook_op :=
| OpCreate (fnID : option string) (req : option inboundCreateRequest) (io known : bool) (id secret : string) (nowMS : Z)
| OpUpdate (io_read io_write : bool) (fnID : option string) (id : string) (req : option inboundUpdateRequest)
| OpDelete (io_read io_write : bool) (fnID : option string) (id : string)
| OpFunctionGone (fnID : string).

Definition hook_step (t : hooks) (op : hook_op) : hooks :=
  match op with
  | OpCreate fnID req io known id secret now => (Create fnID req io known id secret now t).1
  | OpUpdate ior iow fnID id req => (Update ior iow fnID id req t).1
  | OpDelete ior iow fnID id => (Delete ior iow fnID id t).1
  | OpFunctionGone fnID => function_gone fnID t
  end.

Definition hook_ok (id : string) (hook : InboundWebhook) : Prop :=
  h_ID hook = id /\ allowed_format (h_SignatureFormat hook) = true /\ h_SignatureHeader hook <> ""%string.

(** Same identity, same secret. *)
Definition same_trigger (a b : InboundWebhook) : Prop :=
  h_ID a = h_ID b /\ h_Secret a = h_Secret b /\ h_FunctionID a = h_FunctionID b /\ h_CreatedAt a = h_CreatedAt b.

Lemma default_header_ne f : DefaultSignatureHeader f <> ""%string.
Proof. unfold DefaultSignatureHeader. by repeat case_bool_decide. Qed.

Lemma updated_hook_ok req row row' id : hook_ok id row -> updated_hook req row = Some row' -> hook_ok id row' /\ same_trigger row row'.
Proof.
  intros (Hid & Hf & Hh). unfold updated_hook. destruct (match iu_Name req with Some n => _ | None => Some row end) as [r1|] eqn:E1; [|done].
  cbn [mbind option_bind]. assert (hook_ok id r1 /\ same_trigger row r1) as [(H1 & H2 & H3) S1].
  { destruct (iu_Name req) as [n|]; [case_bool_decide; [done|]|]; injection E1 as <-; done. }
  destruct (match iu_Format req with Some f => _ | None => Some r1 end) as [r2|] eqn:E2; [|done]. cbn [mbind option_bind].
  assert (hook_ok id r2 /\ same_trigger row r2) as [(G1 & G2 & G3) S2].
  { destruct (iu_Format req) as [f|]; [|injection E2 as <-; done]. destruct (allowed_format (trimSpace f)) eqn:Ef; [|done]. cbn [negb] in E2.
    injection E2 as <-. case_bool_decide; (split; [split_and!; try done; apply default_header_ne|done]). }
  destruct (match iu_Header req with Some h => _ | None => Some r2 end) as [r3|] eqn:E3; [|done]. cbn [mbind option_bind].
  assert (hook_ok id r3 /\ same_trigger row r3) as [(K1 & K2 & K3) S3].
  { destruct (iu_Header req) as [h|]; [case_bool_decide; [done|]|]; injection E3 as <-; done. }
  intros [= <-]. by destruct (iu_Active req).
Qed.

Lemma insert_fresh io known id now fnID name secret header format active t :
  format <> ""%string -> allowed_format format = true -> header <> ""%string ->
  InsertInboundWebhook io known id now (MkHook "" fnID name secret header format active 0) t =
  if io || negb known || bool_decide (is_Some (t !! id)) then None
  else Some (<[id := MkHook id fnID name secret header format active now]> t, MkHook id fnID name secret header format active now).
Proof.
  intros H1 H2 H3. unfold InsertInboundWebhook. simpl. rewrite (bool_decide_eq_false_2 (format = _)) by done. simpl. rewrite H2. simpl.
  by rewrite (bool_decide_eq_false_2 (header = _)) by done.
Qed.

Lemma hook_step_ok t op :
  map_Forall hook_ok t -> map_Forall hook_ok (hook_step t op) /\
  forall id a b, t !! id = Some a -> hook_step t op !! id = Some b -> same_trigger a b.
Proof.
  intros Ht. assert (Hsame : forall id a b, t !! id = Some a -> t !! id = Some b -> same_trigger a b) by (intros id a b E1 E2; rewrite E1 in E2; by injection E2 as <-).
  destruct op as [fnID req io known id secret now|ior iow fnID id req|ior iow fnID id|fnID]; cbn [hook_step].
  - unfold Create. destruct fnID as [fnID|]; [|done]. destruct req as [req|]; [|done]. case_bool_decide; [done|].
    set (format := if bool_decide (trimSpace (ic_Format req) = _) then _ else _). destruct (allowed_format format) eqn:Ef; [|done]. cbn [negb].
    set (header := if bool_decide (trimSpace (ic_Header req) = _) then _ else _).
    assert (header <> ""%string) as Hh by (unfold header; case_bool_decide; [apply default_header_ne|done]).
    assert (format <> ""%string) as Hne by (intros E; by rewrite E in Ef). rewrite insert_fresh by done.
    destruct (io || negb known || bool_decide (is_Some (t !! id))) eqn:Eio; [done|]. cbn [fst].
    apply orb_false_iff in Eio as [_ Eid]. apply bool_decide_eq_false in Eid. apply eq_None_not_Some in Eid. split.
    + by apply map_Forall_insert_2.
    + intros id' a b Ha. rewrite lookup_insert_Some. intros [[<- _]|[_ Hb]]; [congruence|by apply (Hsame id')].
  - unfold Update, own_hook, GetInboundWebhook. destruct fnID as [fnID|]; [|done]. destruct (if ior then None else t !! id) as [row|] eqn:Er; [|done].
    destruct ior; [done|]. case_bool_decide; [|done]. destruct req as [req|]; [|done]. destruct (updated_hook req row) as [row'|] eqn:Eu; [|done].
    destruct (updated_hook_ok req row row' id (Ht _ _ Er) Eu) as [(Hid & Hf & Hh) Hst]. unfold UpdateInboundWebhook. rewrite Hf. cbn [negb].
    destruct iow; [done|]. cbn [fst]. rewrite Hid. split.
    + intros id' x. rewrite lookup_alter_Some. intros [(<- & y & Hy & ->)|[_ Hx]]; [|by apply Ht]. destruct (Ht _ _ Hy) as (? & _). done.
    + intros id' a b Ha. rewrite lookup_alter_Some. intros [(<- & y & Hy & ->)|[_ Hb]]; [|by apply (Hsame id')]. rewrite Ha in Hy. by injection Hy as <-.
  - unfold Delete, own_hook, GetInboundWebhook. destruct fnID as [fnID|]; [|done]. destruct (if ior then None else t !! id) as [row|]; [|done].
    case_bool_decide; [|done]. unfold DeleteInboundWebhook. destruct iow; [done|]. cbn [fst]. split.
    + by apply map_Forall_delete.
    + intros id' a b Ha [_ Hb]%lookup_delete_Some. by apply (Hsame id').
  - unfold function_gone. split.
    + intros id x [Hx _]%map_lookup_filter_Some. by apply Ht.
    + intros id a b Ha [Hb _]%map_lookup_filter_Some. by apply (Hsame id).
Qed.

Lemma hook_run_ok ops : forall t, map_Forall hook_ok t -> map_Forall hook_ok (foldl hook_step t ops).
Proof. induction ops as [|op ops IH]; intros t Ht; [done|]. cbn. apply IH. by apply hook_step_ok. Qed.

(** C20. Whatever history the table has, a trigger keeps its secret and its
    function, and the headers the signer makes for a body let that very body
    in for the next five minutes, in all five formats, as long as Slack's
    signature is not asked for in Slack's timestamp header. *)
Theorem signed_bodies_come_in ops op id hook body now now' :
  foldl hook_step ∅ ops !! id = Some hook ->
  (h_SignatureFormat hook = "slack"%string -> h_SignatureHeader hook <> slack_ts_header) ->
  0 <= now <= now' -> now' <= now + 300 -> now' <= 4611686018427387904 ->
  (exists hs, Sign false (Some (h_FunctionID hook)) id (Some body) now (foldl hook_step ∅ ops) = (200, Some hs) /\
     forall h, carried hs h -> verifyInboundSignature now' h (bytes body) hook = Ok tt) /\
  forall hook', foldl hook_step ∅ (ops ++ [op]) !! id = Some hook' -> same_trigger hook hook'.
Proof.
  intros Hid Hslack Hn Hn' Hmax. pose proof (hook_run_ok ops ∅ (map_Forall_empty _)) as Ht. destruct (Ht _ _ Hid) as (_ & Hf & Hh). split.
  - destruct (sign_authentic hook (bytes body) now now' ltac:(lia) ltac:(lia) (conj Hf (conj Hh Hslack))) as (hs & Es & Ha).
    exists hs. unfold Sign, own_hook, GetInboundWebhook. rewrite Hid, bool_decide_eq_true_2, Es by done. split; [done|].
    intros h Hc. apply verify_spec; [lia|]. by apply Ha.
  - intros hook'. rewrite foldl_app. cbn [foldl]. destruct (hook_step_ok _ op Ht) as [_ H]. by apply H.
Qed.

Definition slack_ops : list hook_op :=
  [OpCreate (Some "f") (Some (MkInboundCreate " pushes " "github" "" None)) false true "i" "s3cret" 0;
   OpUpdate false false (Some "f") "i" (Some (MkInboundUpdate None (Some "slack") None (Some true)))]%string.
Definition slack_hook : InboundWebhook := MkHook "i" "f" "pushes" "s3cret" "X-Slack-Signature" "slack" true 0.

Lemma signed_bodies_come_in_witness :
  exists hs, Sign false (Some "f"%string) "i" (Some "{}"%string) 1000 (foldl hook_step ∅ slack_ops) = (200, Some hs) /\
    forall h, carried hs h -> verifyInboundSignature 1300 h (bytes "{}") slack_hook = Ok tt.
Proof.
  destruct (signed_bodies_come_in slack_ops (OpFunctionGone "f") "i" slack_hook "{}" 1000 1300) as [H _].
  - vm_compute. reflexivity.
  - intros _ H. discriminate H.
  - split; discriminate.
  - discriminate.
  - discriminate.
  - exact H.
Defined.

(* ------------------------------------------------------------------ *)
(** ** The public endpoint *)

Definition maxInboundBody : Z := 6 * 1024 * 1024.

Record trigger_state := MkTriggerState { g_registry : registry; g_hooks : hooks; g_baselines : gmap string ringBuf }.
#[export] Instance eta_trigger_state : Eta trigger_state := fun r => MkTriggerState (g_registry r) (g_hooks r) (g_baselines r).

Record trigger_env := MkTrigger {
  t_io : bool;                       (** the row cannot be read *)
  t_body : option (list Z);          (** what the client sends; [None]: reading fails *)
  t_now : Z;                         (** seconds *)
  t_lease : bool; t_freshTrace : string; t_write : option nat; t_run : run_env }.

Record triggered := MkTriggered {
  tr_state : trigger_state; tr_writer : writer; tr_effects : list run_effect; tr_refused : option Z; tr_panicked : bool }.

Section Trigger.
Context (q : http_request) (v : trigger_env).

Definition hook_id : string := trimPrefix "/webhook/" (q_Path q).

(** What stands before the run: the trigger, the body and the function, or the
    refusal and what it leaves behind. *)
Definition entry (st : trigger_state) (wr : writer) :
    trigger_state * res (Z * writer * list run_effect) (InboundWebhook * list Z * Function_) :=
  let refuse status code message wr := Err (status, Error_ status code message (reqID q) wr, []) in
  if negb (bool_decide (q_Method q = "POST"%string)) then
    (st, refuse 405 "METHOD_NOT_ALLOWED" "inbound webhook accepts POST only" (set_response "Allow" "POST" wr))%string
  else if bool_decide (hook_id = ""%string) || bool_decide (47 ∈ bytes hook_id) then
    (st, refuse 404 "NOT_FOUND" "inbound webhook not found" wr)%string
  else
    match GetInboundWebhook (t_io v) hook_id (g_hooks st) with
    | None => (st, refuse 404 "NOT_FOUND" "inbound webhook not found" wr)%string
    | Some hook =>
      if negb (h_Active hook) then (st, refuse 410 "INACTIVE" "inbound webhook is disabled" wr)%string
      else
        match t_body v with
        | None => (st, refuse 400 "INVALID_BODY" "failed to read body" wr)%string
        | Some sent =>
          let body := take (Z.to_nat (maxInboundBody + 1)) sent in
          if maxInboundBody <? Z.of_nat (length body) then
            (st, refuse 413 "PAYLOAD_TOO_LARGE" "inbound webhook body exceeds cap" wr)%string
          else
            match verifyInboundSignature (t_now v) (q_Header q) body hook with
            | Err reason =>
              (st, Err (401, Error_ 401 "SIGNATURE_INVALID" "signature verification failed" (reqID q) wr,
                        [Audited ("inbound webhook signature mismatch: " ++ reason)]))%string
            | Ok _ =>
              let '(reg, fn) := Get (h_FunctionID hook) (g_registry st) in
              let st := st <| g_registry := reg |> in
              match fn with
              | None => (st, refuse 503 "FUNCTION_UNAVAILABLE" "target function not available" wr)%string
              | Some fn =>
                if negb (bool_decide (fn_Status fn = "active"%string)) then
                  (st, refuse 503 "NOT_ACTIVE" "target function is not active" wr)%string
                else if negb (t_lease v) then
                  (st, Err (429, ErrorWithDetail 429 (MkOpts "STORAGE_BACKPRESSURE" "execution storage is catching up" (reqID q)
                                                       "back off briefly and retry; no function code ran" 1 []) wr, []))
                else (st, Ok (hook, body, fn))
              end
            end
        end
    end.

Definition trigger_trace : string := if bool_decide (q_TraceID q = ""%string) then t_freshTrace v else q_TraceID q.

Definition trigger_headers (hook : InboundWebhook) (fn : Function_) : gmap string string :=
  let h := SanitizeForwardedHeaders (q_Header q) in
  let h := <["x-orva-trigger" := "inbound_webhook"]> h in
  let h := <["x-orva-inbound-webhook-id" := h_ID hook]> h in
  let h := <["x-orva-execution-id" := n_execID (t_run v)]> h in
  let h := <["x-orva-function-id" := fn_ID fn]> h in
  let h := <["x-orva-trace-id" := trigger_trace]> h in
  <["x-orva-span-id" := n_spanID (t_run v)]> h.

Definition trigger_row (fn : Function_) (status errMsg : string) (sc size : Z) : ExecutionRow :=
  MkRow (n_execID (t_run v)) (fn_ID fn) status false (n_durationMS (t_run v)) sc errMsg size (n_start (t_run v))
    (nullableString trigger_trace) (nullableString (n_spanID (t_run v))) None (Some "inbound"%string) None false None.

(** [publish]; the event has no size and no cold start. *)
Definition trigger_event (fn : Function_) (status : string) (sc : Z) : list run_effect :=
  if n_publishes (t_run v)
  then [RunPublished "inbound_webhook" (MkEvent (n_execID (t_run v)) (fn_ID fn) (fn_Name fn) status sc (n_durationMS (t_run v)) 0 false)]
  else [].

(** The exchange with the worker and what follows: the answer, the error
    [Release] is given, the refusal. *)
Definition trigger_exchange (hook : InboundWebhook) (body : list Z) (fn : Function_) (cold : bool) (w : Worker) (st : trigger_state)
    (wr : writer) : option (trigger_state * writer * list run_effect * bool * option Z * bool) :=
  let env := t_run v in
  let event := synthetic_event (trigger_headers hook fn) (of_bytes body) in
  match Dispatch w event (n_write env) (n_wait env) (n_waits env) with
  | None => None
  | Some (_, inr err, stderr) =>
    let errMsg := exchange_error err env in
    let '(b, rec) := finalized_row (trigger_row fn "error" errMsg 0 0) cold false env (g_baselines st) in
    Some (st <| g_baselines := b |>, Error_ 502 "INVOKE_FAILED" errMsg (reqID q) wr,
          Sent event :: rec ++ stored_log (n_execID env) (fn_ID fn) stderr ++ trigger_event fn "error" 0, true, Some 502, false)
  | Some (_, inl payload, stderr) =>
    let '(sc, headers, answer) := answer_of payload in
    let sc := if sc =? 0 then 200 else sc in
    let status := if 500 <=? sc then "error"%string else "success"%string in
    let '(b, rec) := finalized_row (trigger_row fn status "" sc (len answer)) cold false env (g_baselines st) in
    let effects := Sent event :: rec ++ stored_log (n_execID env) (fn_ID fn) stderr ++ trigger_event fn status sc in
    let ct := default ""%string (default ∅ headers !! "content-type"%string) in
    let wr := if bool_decide (ct = ""%string) then wr else set_response "Content-Type" ct wr in
    let wr := set_response "X-Orva-Execution-ID" (n_execID env) wr in
    Some match WriteHeader sc wr with
         | None => (st <| g_baselines := b |>, wr, effects, false, None, true)
         | Some wr => (st <| g_baselines := b |>, (Write (bytes answer) (t_write v) wr).1.1, effects, false, None, false)
         end
  end.

(** [None]: the exchange never returns. *)
Definition ServeHTTP (st : trigger_state) (wr : writer) : option triggered :=
  match entry st wr with
  | (st, Err (status, wr, effects)) => Some (MkTriggered st wr effects (Some status) false)
  | (st, Ok (hook, body, fn)) =>
    match n_acquire (t_run v) with
    | Err err =>
      let '(status, opts) := invokeError (FAcquire err) (n_text (t_run v) (FAcquire err)) fn (reqID q) in
      Some (MkTriggered st (ErrorWithDetail status opts wr) [Leased; LeaseBack] (Some status) false)
    | Ok (cold, w) =>
      match trigger_exchange hook body fn cold w st wr with
      | None => None
      | Some (st, wr, effects, failed, refused, panicked) =>
        let env := t_run v in
        Some (MkTriggered st wr
                ([Leased; Taken; BoundRun (n_execID env) (fn_ID fn) trigger_trace (n_spanID env) (n_start env)] ++ effects ++
                 [UnboundRun; GivenBack failed; LeaseBack]) refused panicked)
      end
    end
  end.
End Trigger.

(** What an admitted request has shown. *)
Record cleared (q : http_request) (v : trigger_env) (st : trigger_state) (hook : InboundWebhook) (body : list Z) (fn : Function_) : Prop := {
  cl_method : q_Method q = "POST"%string;
  cl_hook : g_hooks st !! hook_id q = Some hook;
  cl_active : h_Active hook = true;
  cl_body : t_body v = Some body /\ Z.of_nat (length body) <= maxInboundBody;
  cl_signed : authentic (t_now v) (q_Header q) body hook;
  cl_function : (Get (h_FunctionID hook) (g_registry st)).2 = Some fn /\ fn_Status fn = "active"%string;
  cl_lease : t_lease v = true }.

Lemma entry_spec q v st wr :
  0 <= t_now v <= 4611686018427387904 -> wr_status wr = None ->
  match entry q v st wr with
  | (st', Ok (hook, body, fn)) => cleared q v st hook body fn /\ g_baselines st' = g_baselines st
  | (st', Err (status, wr', effects)) =>
      existsb is_sent effects = false /\ omap row_queued effects = [] /\ wr_status wr' = Some status /\ g_baselines st' = g_baselines st
  end.
Proof.
  intros Hn Hw. unfold entry.
  assert (Hr : forall status code message wr0, wr_status wr0 = None -> 200 <= status <= 999 ->
    existsb is_sent [] = false /\ omap row_queued [] = [] /\ wr_status (Error_ status code message (reqID q) wr0) = Some status /\
    g_baselines st = g_baselines st) by (intros; split_and!; try done; by apply Error_status).
  destruct (decide (q_Method q = "POST"%string)) as [Hm|Hm];
    [rewrite bool_decide_eq_true_2 by done|rewrite bool_decide_eq_false_2 by done]; cbn [negb]; [|by apply Hr].
  destruct (_ || _); [by apply Hr|]. unfold GetInboundWebhook. destruct (t_io v); [by apply Hr|].
  destruct (g_hooks st !! hook_id q) as [hook|] eqn:Eh; [|by apply Hr]. destruct (h_Active hook) eqn:Ea; cbn [negb]; [|by apply Hr].
  destruct (t_body v) as [sent|] eqn:Eb; [|by apply Hr]. set (body := take _ sent).
  destruct (maxInboundBody <? Z.of_nat (length body)) eqn:El; [by apply Hr|apply Z.ltb_ge in El].
  assert (body = sent) as Hbody.
  { apply take_ge. unfold body in El. rewrite length_take in El. unfold maxInboundBody in *. lia. }
  destruct (verifyInboundSignature (t_now v) (q_Header q) body hook) as [[]|reason] eqn:Ev.
  2: { split_and!; try done. by apply Error_status. }
  apply verify_spec in Ev; [|done]. destruct (Get (h_FunctionID hook) (g_registry st)) as [reg [fn|]] eqn:Eg; [|by apply Hr].
  destruct (decide (fn_Status fn = "active"%string)) as [Hs|Hs];
    [rewrite bool_decide_eq_true_2 by done|rewrite bool_decide_eq_false_2 by done]; cbn [negb]; [|by apply Hr].
  destruct (t_lease v) eqn:Elease; cbn [negb].
  - split; [|done]. rewrite Hbody in *. split; try done. rewrite Eg. done.
  - split_and!; try done. apply ErrorWithDetail_status; [lia|done].
Qed.

Lemma trigger_event_rows v fn status sc : omap row_queued (trigger_event v fn status sc) = [].
Proof. unfold trigger_event. by destruct (n_publishes (t_run v)). Qed.

Lemma trigger_exchange_rows q v hook body fn cold w st wr st' wr' effects failed refused panicked :
  trigger_exchange q v hook body fn cold w st wr = Some (st', wr', effects, failed, refused, panicked) ->
  exists event rest row, effects = Sent event :: rest /\ omap row_queued rest = [row] /\
    x_ID row = n_execID (t_run v) /\ x_FunctionID row = fn_ID fn /\ (x_Status row = "success"%string -> failed = false).
Proof.
  unfold trigger_exchange. set (event := synthetic_event _ _). destruct (Dispatch _ _ _ _ _) as [[[w' [payload|err]] stderr]|]; [| |done].
  - destruct (answer_of payload) as [[sc headers] answer]. set (sc' := if sc =? 0 then 200 else sc). set (status := if 500 <=? sc' then _ else _).
    set (row := trigger_row _ _ _ _ _ _ _). pose proof (finalized_row_rows row cold false (t_run v) (g_baselines st)) as H.
    destruct (finalized_row _ _ _ _ _) as [b rec]. destruct H as [H _]. intros E.
    assert (effects = Sent event :: rec ++ stored_log (n_execID (t_run v)) (fn_ID fn) stderr ++ trigger_event v fn status sc' /\ failed = false) as [-> ->]
      by (destruct (WriteHeader _ _); by injection E as <- <- <- <- <- <-).
    exists event. eexists _, row. split; [done|]. split; [|done]. by rewrite !omap_app, H, stored_log_rows, trigger_event_rows.
  - set (row := trigger_row _ _ _ _ _ _ _). pose proof (finalized_row_rows row cold false (t_run v) (g_baselines st)) as H.
    destruct (finalized_row _ _ _ _ _) as [b rec]. destruct H as [H _]. intros [= <- <- <- <- <- <-].
    exists event. eexists _, row. split; [done|]. split; [|done]. by rewrite !omap_app, H, stored_log_rows, trigger_event_rows.
Qed.

(** C11. A body reaches a worker only as a [POST] to an active trigger that is
    signed with the trigger's secret, whole and within the cap, for a function
    that is active; then it is recorded exactly once, under the execution id of
    the run, and everything taken is given back.  Otherwise the sender is told
    so and nothing is recorded or learnt. *)
Theorem only_signed_bodies_run q v st wr o :
  0 <= t_now v <= 4611686018427387904 -> wr_status wr = None -> ServeHTTP q v st wr = Some o ->
  if existsb is_sent (tr_effects o) then
    exists hook body fn row mid failed, cleared q v st hook body fn /\
      tr_effects o = [Leased; Taken; BoundRun (n_execID (t_run v)) (fn_ID fn) (trigger_trace q v) (n_spanID (t_run v)) (n_start (t_run v))] ++
                     mid ++ [UnboundRun; GivenBack failed; LeaseBack] /\
      omap row_queued mid = [row] /\ x_ID row = n_execID (t_run v) /\ x_FunctionID row = fn_ID fn
  else omap row_queued (tr_effects o) = [] /\ g_baselines (tr_state o) = g_baselines st /\
       exists status, tr_refused o = Some status /\ wr_status (tr_writer o) = Some status.
Proof.
  intros Hn Hw. unfold ServeHTTP. pose proof (entry_spec q v st wr Hn Hw) as H.
  destruct (entry q v st wr) as [st' [[[hook body] fn]|[[status wr'] effects]]].
  2: { destruct H as (H1 & H2 & H3 & H4). intros [= <-]. cbn [tr_effects tr_state tr_refused tr_writer]. rewrite H1. eauto. }
  destruct H as [Hc Hb]. destruct (n_acquire (t_run v)) as [[cold w]|err].
  - destruct (trigger_exchange _ _ _ _ _ _ _ _ _) as [[[[[[st'' wr'] effects] failed] refused] panicked]|] eqn:Ex; [|done].
    intros [= <-]. cbn [tr_effects].
    destruct (trigger_exchange_rows _ _ _ _ _ _ _ _ _ _ _ _ _ _ _ Ex) as (event & rest & row & -> & Hrow & Hid & Hfn & _).
    cbn [app existsb is_sent orb]. exists hook, body, fn, row, (Sent event :: rest), failed. done.
  - pose proof (invokeError_status (FAcquire err) (n_text (t_run v) (FAcquire err)) fn (reqID q)) as Hs.
    destruct (invokeError _ _ _ _) as [status opts]. intros [= <-]. cbn. split; [done|]. split; [done|]. exists status. split; [done|].
    by apply ErrorWithDetail_status.
Qed.

Definition push_hook : InboundWebhook := MkHook "i" "f" "pushes" "s3cret" "X-Hub-Signature-256" "github" true 0.
Definition push_state : trigger_state := MkTriggerState (i_registry sample_state) {[ "i"%string := push_hook ]} ∅.
Definition push_request : http_request :=
  MkHttp "POST" "/webhook/i" "" [("X-Hub-Signature-256", ["sha256=" ++ hex_mac "s3cret" (bytes "{}")])]%string "tr_1" "".
Definition push_run : run_env :=
  MkRun (Ok (true, small_worker)) "ex_1" "sp_1" 0 12 Written (MkWait (framed answer_one) [] Delivered) [] (fun _ => "boom"%string) true true.
Definition push_env : trigger_env := MkTrigger false (Some (bytes "{}")) 1000 true "tr_2" None push_run.

Lemma only_signed_bodies_run_witness :
  exists o hook body fn, ServeHTTP push_request push_env push_state fresh_writer = Some o /\
    cleared push_request push_env push_state hook body fn /\ wr_status (tr_writer o) = Some 201.
Proof.
  assert (exists o, ServeHTTP push_request push_env push_state fresh_writer = Some o /\ existsb is_sent (tr_effects o) = true /\
    wr_status (tr_writer o) = Some 201) as (o & Eo & Hs & Hw).
  { eexists. split; [vm_compute; reflexivity|]. split; vm_compute; reflexivity. }
  assert (0 <= t_now push_env <= 4611686018427387904) as Hn by (split; discriminate).
  pose proof (only_signed_bodies_run push_request push_env push_state fresh_writer o Hn eq_refl Eo) as H. rewrite Hs in H.
  destruct H as (hook & body & fn & _ & _ & _ & Hc & _). exists o, hook, body, fn. auto.
Defined.

(** Cold starts enter the baseline of a function that is triggered: the
    endpoint tells it that every run was warm. *)
Example cold_triggers_are_learnt :
  (fun o => count <$> g_baselines (tr_state o) !! "f"%string) <$> ServeHTTP push_request push_env push_state fresh_writer = Some (Some 1%nat).
Proof. vm_compute. reflexivity. Qed.
