(* ===== verification/Internal.v ===== *)
(** * Calls from function to function
    ([server/handlers/internal_invoke.go])

    A function calls another by name with its worker's credential, from inside
    one of its own executions.  [Invoke] answers in one piece, [InvokeStream]
    passes the body on as it comes.  The callee's run is recorded as a child of
    the caller's. *)
From S2P Require Import Prelude GoText Float64 FunctionPool SdkAuth AuthGate Json Netip Worker Headers Proxy Registry Baseline Invoke Runs.
Open Scope Z_scope.

Definition defaultMaxCallDepth : Z := 8.

(** [strconv.Atoi] of the header; anything but a positive number is zero. *)
Definition call_depth (header : string) : Z :=
  if bool_decide (header = ""%string) then 0
  else match parseInt64 header with Some n => if 0 <? n then n else 0 | None => 0 end.

Definition max_depth (configured : Z) : Z := if configured <=? 0 then defaultMaxCallDepth else configured.

(** The machine's addition, here as in the event. *)
Definition too_deep (depth maxDepth : Z) : bool := maxDepth <? wrap64 (depth + 1).
Definition next_depth (depth : Z) : string := formatInt (wrap64 (depth + 1)).

(** [readBoundedBody]; [None]: the body cannot be read. *)
Definition readBoundedBody (limit : Z) (sent : option (list Z)) : option (list Z) :=
  sent ← sent; let b := take (Z.to_nat (limit + 1)) sent in if limit <? Z.of_nat (length b) then None else Some b.

Record f2f_state := MkF2F { b_sdk : option Authenticator; b_db : db; b_baselines : gmap string ringBuf }.
#[export] Instance eta_f2f_state : Eta f2f_state := fun r => MkF2F (b_sdk r) (b_db r) (b_baselines r).

Record f2f_env := MkF2FEnv {
  k_io : bool;                      (** the lookup by name fails *)
  k_max : Z;                        (** [MaxCallDepth] *)
  k_body : option (list Z); k_lease : bool; k_run : run_env;
  k_order : list (string * string) -> list (string * string);   (** the walk over the answer's headers *)
  k_writes : list (option nat) }.

Record called := MkCalled {
  cd_state : f2f_state; cd_writer : writer; cd_effects : list run_effect; cd_refused : option Z; cd_panicked : bool }.

Section F2F.
Context (name : string) (q : http_request) (v : f2f_env).

Definition caller_token : string := header_get "X-Orva-Internal-Token" (q_Header q).
Definition caller_execution : string := header_get "X-Orva-Execution-Id" (q_Header q).
Definition depth_header : string := header_get "X-Orva-Call-Depth" (q_Header q).

(** A caller, its trace and its span. *)
Record caller := MkCaller { c_FunctionID : string; c_TraceID : string; c_SpanID : string }.

(** The checks both endpoints start with. *)
Definition callee (st : f2f_state) (wr : writer) : res (Z * writer) (caller * Z * Function_ * list Z) :=
  let refuse status code message := Err (status, Error_ status code message (reqID q) wr) in
  (match Verify (bytes caller_token) (b_sdk st) with
  | None => refuse 401 "UNAUTHORIZED" "missing or invalid SDK credential"
  | Some callerFnID =>
    match TraceContext caller_execution callerFnID (b_sdk st) with
    | None => refuse 403 "SDK_SCOPE_VIOLATION" "SDK request is not associated with an active caller execution"
    | Some (traceID, spanID, _) =>
      if bool_decide (name = ""%string) then refuse 400 "VALIDATION" "function name is required"
      else
        let depth := call_depth depth_header in
        let maxDepth := max_depth (k_max v) in
        if too_deep depth maxDepth then
          refuse 507 "MAX_CALL_DEPTH" ("call depth exceeds max (" ++ formatInt maxDepth ++ ")")
        else
          match (if k_io v then None else GetFunctionByName name (b_db st)) with
          | None => refuse 404 "NOT_FOUND" ("function not found: " ++ name)
          | Some fn =>
            if negb (bool_decide (fn_Status fn = "active")) then refuse 409 "NOT_ACTIVE" "function is not active"
            else
              match readBoundedBody (1024 * 1024) (k_body v) with
              | None => refuse 400 "INVALID_BODY" "failed to read body"
              | Some body =>
                if negb (k_lease v) then
                  Err (429, ErrorWithDetail 429 (MkOpts "STORAGE_BACKPRESSURE" "execution storage is catching up" (reqID q)
                                                   "back off briefly and retry; no function code ran" 1 []) wr)
                else Ok (MkCaller callerFnID traceID spanID, depth, fn, body)
              end
          end
    end
  end)%string.

Definition f2f_headers (streaming : bool) (c : caller) (depth : Z) (fn : Function_) : gmap string string :=
  let h := {[ "content-type" := "application/json"; "x-orva-trigger" := "f2f"; "x-orva-call-depth" := next_depth depth;
              "x-orva-function-id" := fn_ID fn; "x-orva-execution-id" := n_execID (k_run v);
              "x-orva-trace-id" := c_TraceID c; "x-orva-span-id" := n_spanID (k_run v) ]}%string in
  if streaming then (<["x-orva-stream" := "1"]> h)%string else h.

Definition f2f_row (c : caller) (fn : Function_) (cold : bool) (status errMsg : string) (sc size : Z) : ExecutionRow :=
  MkRow (n_execID (k_run v)) (fn_ID fn) status cold (n_durationMS (k_run v)) sc errMsg size (n_start (k_run v))
    (nullableString (c_TraceID c)) (nullableString (n_spanID (k_run v))) (nullableString (c_SpanID c)) (Some "f2f"%string)
    (nullableString (c_FunctionID c)) false None.

(** What an exchange leaves: the state, the answer, the effects, the error for
    [Release], the refusal, whether the handler panicked. *)
Definition outcome : Type := f2f_state * writer * list run_effect * bool * option Z * bool.

Definition recorded_as (row : ExecutionRow) (cold : bool) (st : f2f_state) : f2f_state * list run_effect :=
  let '(b, rec) := finalized_row row cold cold (k_run v) (b_baselines st) in (st <| b_baselines := b |>, rec).

Definition call_whole (c : caller) (depth : Z) (fn : Function_) (body : list Z) (cold : bool) (w : Worker) (st : f2f_state) (wr : writer) :
    option outcome :=
  let env := k_run v in
  let event := synthetic_event (f2f_headers false c depth fn) (of_bytes body) in
  match Dispatch w event (n_write env) (n_wait env) (n_waits env) with
  | None => None
  | Some (_, inr err, _) =>
    let errMsg := exchange_error err env in
    let '(st, rec) := recorded_as (f2f_row c fn cold "error" errMsg 502 0) cold st in
    Some (st, Error_ 502 "INVOKE_FAILED" errMsg (reqID q) wr, Sent event :: rec, true, Some 502, false)
  | Some (_, inl payload, _) =>
    let '(sc, _, answer) := answer_of payload in
    let sc := if 0 <? sc then sc else 200 in
    let status := if 500 <=? sc then "error"%string else "success"%string in
    let '(st, rec) := recorded_as (f2f_row c fn cold status "" sc (len answer)) cold st in
    let wr := set_response "Content-Type" "application/json" wr in
    Some match WriteHeader 200 wr with
         | None => (st, wr, Sent event :: rec, false, None, true)
         | Some wr => (st, (Write payload (default None (head (k_writes v))) wr).1.1, Sent event :: rec, false, None, false)
         end
  end.

(** The headers of the answer inside. *)
Definition inner_headers (m : option (gmap string string)) (wr : writer) : writer :=
  foldl (fun wr kv => set_response ("X-Orva-Inner-" ++ fst kv) (snd kv) wr) wr (k_order v (map_to_list (default ∅ m))).

(** The frames of a stream: the answer, the bytes counted, the error. *)
Fixpoint f2f_stream (dres : DispatchResult) (w : Worker) (wr : writer) (total : Z) (waits : list wait) (writes : list (option nat)) :
    writer * Z * option failure :=
  match waits with
  | [] => match NextFrame dres w gone with (_, _, StreamErr e) => (wr, total, Some (FStream e)) | _ => (wr, total, None) end
  | a :: waits =>
    match NextFrame dres w a with
    | (_, _, StreamErr e) => (wr, total, Some (FStream e))
    | (_, _, End) => (wr, total, None)
    | (dres, w, Chunk []) => f2f_stream dres w wr total waits writes
    | (dres, w, Chunk data) =>
      let '(wr, _, failed) := Write data (default None (head writes)) wr in
      if (failed : bool) then (wr, total, Some FStreamWrite)
      else f2f_stream dres w wr (total + Z.of_nat (length data)) waits (tail writes)
    end
  end.

Definition call_streamed (c : caller) (depth : Z) (fn : Function_) (body : list Z) (cold : bool) (w : Worker) (st : f2f_state) (wr : writer) :
    option outcome :=
  let env := k_run v in
  let event := synthetic_event (f2f_headers true c depth fn) (of_bytes body) in
  match DispatchEx w event (n_write env) (n_wait env) with
  | None => None
  | Some (_, _, Some err) =>
    let errMsg := exchange_error err env in
    (* neither counted nor shown to the baseline *)
    Some (st, Error_ 502 "INVOKE_FAILED" errMsg (reqID q) wr,
          [Sent event; RowQueued (f2f_row c fn cold "error" errMsg 502 0)], true, Some 502, false)
  | Some (dres, w, None) =>
    let sc := if StatusCode dres =? 0 then 200 else StatusCode dres in
    let wr := set_response "Content-Type" "application/octet-stream" (inner_headers (Headers dres) wr) in
    let wr := if Streaming dres then set_response "X-Orva-Streamed" "1" wr else wr in
    Some match WriteHeader sc wr with
         | None => (st, wr, [Sent event], false, None, true)
         | Some wr =>
           if negb (Streaming dres) then
             let wr := (Write (bytes (Body dres)) (default None (head (k_writes v))) wr).1.1 in
             let status := if 500 <=? sc then "error"%string else "success"%string in
             let '(st, rec) := recorded_as (f2f_row c fn cold status "" sc (len (Body dres))) cold st in
             (st, wr, Sent event :: rec, false, None, false)
           else
             let '(wr, total, err) := f2f_stream dres w wr 0 (n_waits env) (k_writes v) in
             let failed := match err with Some _ => true | None => false end in
             let status := if failed || (500 <=? sc) then "error"%string else "success"%string in
             let errMsg := match err with Some e => n_text env e | None => ""%string end in
             let '(st, rec) := recorded_as (f2f_row c fn cold status errMsg sc total) cold st in
             (st, wr, Sent event :: rec, failed, None, false)
         end
  end.

(** [Invoke] and [InvokeStream]; [None]: the exchange never returns. *)
Definition Call (streaming : bool) (st : f2f_state) (wr : writer) : option called :=
  match callee st wr with
  | Err (status, wr) => Some (MkCalled st wr [] (Some status) false)
  | Ok (c, depth, fn, body) =>
    match n_acquire (k_run v) with
    | Err err =>
      let '(status, opts) := invokeError (FAcquire err) (n_text (k_run v) (FAcquire err)) fn (reqID q) in
      Some (MkCalled st (ErrorWithDetail status opts wr) [Leased; LeaseBack] (Some status) false)
    | Ok (cold, w) =>
      match (if streaming then call_streamed else call_whole) c depth fn body cold w st wr with
      | None => None
      | Some (st, wr, effects, failed, refused, panicked) =>
        let env := k_run v in
        Some (MkCalled st wr
                ([Leased; Taken; BoundRun (n_execID env) (fn_ID fn) (c_TraceID c) (n_spanID env) (n_start env)] ++ effects ++
                 [UnboundRun; GivenBack failed; LeaseBack]) refused panicked)
      end
    end
  end.
End F2F.

(* ------------------------------------------------------------------ *)
(** ** Whose runs these are *)

(** What an admitted call has shown. *)
Record entitled (name : string) (q : http_request) (v : f2f_env) (st : f2f_state) (c : caller) (depth : Z) (fn : Function_) : Prop := {
  et_credential : Verify (bytes (caller_token q)) (b_sdk st) = Some (c_FunctionID c);
  et_execution : exists au e, b_sdk st = Some au /\ active au !! caller_execution q = Some e /\
    ex_functionID e = c_FunctionID c /\ ex_traceID e = c_TraceID c /\ ex_spanID e = c_SpanID c;
  et_depth : depth = call_depth (depth_header q) /\ too_deep depth (max_depth (k_max v)) = false;
  et_callee : GetFunctionByName name (b_db st) = Some fn /\ fn_Status fn = "active"%string;
  et_lease : k_lease v = true }.

Lemma callee_spec name q v st wr :
  wr_status wr = None ->
  match callee name q v st wr with
  | Ok (c, depth, fn, body) => entitled name q v st c depth fn
  | Err (status, wr') => wr_status wr' = Some status
  end.
Proof.
  intros Hw. unfold callee. destruct (Verify _ _) as [caller|] eqn:Ev; [|by apply Error_status].
  destruct (TraceContext _ _ _) as [[[traceID spanID] start]|] eqn:Et; [|by apply Error_status].
  case_bool_decide; [by apply Error_status|]. destruct (too_deep _ _) eqn:Ed; [by apply Error_status|].
  destruct (if k_io v then None else GetFunctionByName name (b_db st)) as [fn|] eqn:Ef; [|by apply Error_status].
  destruct (decide (fn_Status fn = "active"%string)) as [Hs|Hs];
    [rewrite bool_decide_eq_true_2 by done|rewrite bool_decide_eq_false_2 by done]; cbn [negb]; [|by apply Error_status].
  destruct (readBoundedBody _ _) as [body|]; [|by apply Error_status].
  destruct (k_lease v) eqn:El; cbn [negb]; [|by apply ErrorWithDetail_status].
  unfold TraceContext in Et. destruct (b_sdk st) as [au|] eqn:Ea; [|done]. cbn in Et. destruct (active au !! _) as [e|] eqn:Ee; [|done].
  case_bool_decide as Hf; [|done]. injection Et as <- <- <-. destruct (k_io v); [done|].
  constructor; [by rewrite Ea|by exists au, e|done|done|done].
Qed.

Lemma recorded_as_rows v row cold st :
  let '(_, rec) := recorded_as v row cold st in omap row_queued rec = [row] /\ existsb is_sent rec = false.
Proof.
  unfold recorded_as. pose proof (finalized_row_rows row cold cold (k_run v) (b_baselines st)) as H.
  by destruct (finalized_row _ _ _ _ _) as [b rec].
Qed.

(** What an exchange leaves, for either endpoint. *)
Definition left_of (streaming : bool) (v : f2f_env) (c : caller) (depth : Z) (fn : Function_) (cold : bool) (o : outcome) : Prop :=
  let '(_, _, effects, _, _, panicked) := o in
  exists body rest, effects = Sent (synthetic_event (f2f_headers v streaming c depth fn) body) :: rest /\ existsb is_sent rest = false /\
    if panicked then streaming = true /\ omap row_queued rest = []
    else exists status errMsg sc size, omap row_queued rest = [f2f_row v c fn cold status errMsg sc size].

Lemma call_whole_left q v c depth fn body cold w st wr o :
  call_whole q v c depth fn body cold w st wr = Some o -> left_of false v c depth fn cold o.
Proof.
  unfold call_whole. destruct (Dispatch _ _ _ _ _) as [[[w' [payload|err]] stderr]|]; [| |done].
  - destruct (answer_of payload) as [[sc headers] answer].
    match goal with |- context [recorded_as v ?row cold st] => pose proof (recorded_as_rows v row cold st) as H; destruct (recorded_as v row cold st) as [st' rec] end.
    destruct H as [H1 H2]. set (wr1 := set_response _ _ wr).
    assert (exists wr2, WriteHeader 200 wr1 = Some wr2) as [wr2 ->] by (unfold WriteHeader; destruct (wr_status wr1); eexists; reflexivity).
    intros [= <-]. cbn [left_of]. eexists _, _. split; [reflexivity|]. split; [exact H2|]. eexists _, _, _, _. exact H1.
  - match goal with |- context [recorded_as v ?row cold st] => pose proof (recorded_as_rows v row cold st) as H; destruct (recorded_as v row cold st) as [st' rec] end.
    destruct H as [H1 H2]. intros [= <-]. cbn [left_of]. eexists _, _. split; [reflexivity|]. split; [exact H2|]. eexists _, _, _, _. exact H1.
Qed.

Lemma call_streamed_left q v c depth fn body cold w st wr o :
  call_streamed q v c depth fn body cold w st wr = Some o -> left_of true v c depth fn cold o.
Proof.
  unfold call_streamed. destruct (DispatchEx _ _ _ _) as [[[dres w'] [err|]]|]; [| |done].
  - intros [= <-]. cbn [left_of]. eexists _, _. split; [reflexivity|]. split; [done|]. eexists _, _, _, _. reflexivity.
  - set (sc := if StatusCode dres =? 0 then _ else _). set (wr1 := if Streaming dres then _ else _).
    destruct (WriteHeader sc wr1) as [wr2|].
    2: { intros [= <-]. cbn [left_of]. eexists _, _. split; [reflexivity|]. done. }
    destruct (negb (Streaming dres)).
    + match goal with |- context [recorded_as v ?row cold st] => pose proof (recorded_as_rows v row cold st) as H; destruct (recorded_as v row cold st) as [st' rec] end.
      destruct H as [H1 H2]. intros [= <-]. cbn [left_of]. eexists _, _. split; [reflexivity|]. split; [exact H2|]. eexists _, _, _, _. exact H1.
    + destruct (f2f_stream _ _ _ _ _ _) as [[wr3 total] err].
      match goal with |- context [recorded_as v ?row cold st] => pose proof (recorded_as_rows v row cold st) as H; destruct (recorded_as v row cold st) as [st' rec] end.
      destruct H as [H1 H2]. intros [= <-]. cbn [left_of]. eexists _, _. split; [reflexivity|]. split; [exact H2|]. eexists _, _, _, _. exact H1.
Qed.

Lemma Call_spec streaming name q v st wr o :
  wr_status wr = None -> Call name q v streaming st wr = Some o ->
  if existsb is_sent (cd_effects o) then
    exists c depth fn cold mid failed state writer refused, entitled name q v st c depth fn /\
      cd_effects o = [Leased; Taken; BoundRun (n_execID (k_run v)) (fn_ID fn) (c_TraceID c) (n_spanID (k_run v)) (n_start (k_run v))] ++
                     mid ++ [UnboundRun; GivenBack failed; LeaseBack] /\
      left_of streaming v c depth fn cold (state, writer, mid, failed, refused, cd_panicked o)
  else omap row_queued (cd_effects o) = [] /\ exists status, cd_refused o = Some status /\ wr_status (cd_writer o) = Some status.
Proof.
  intros Hw. unfold Call. pose proof (callee_spec name q v st wr Hw) as H.
  destruct (callee name q v st wr) as [[[[c depth] fn] body]|[status wr']].
  2: { intros [= <-]. cbn. split; [done|]. by exists status. }
  destruct (n_acquire (k_run v)) as [[cold w]|err].
  - destruct ((if streaming then _ else _) _ _ _ _ _ _ _ _) as [[[[[[st' wr'] effects] failed] refused] panicked]|] eqn:Ex; [|done].
    assert (left_of streaming v c depth fn cold (st', wr', effects, failed, refused, panicked)) as Hleft
      by (destruct streaming; [by eapply call_streamed_left|by eapply call_whole_left]).
    intros [= <-]. cbn [cd_effects cd_panicked]. assert (existsb is_sent effects = true) as Hs by (destruct Hleft as (b & rest & -> & _); done).
    cbn [app existsb is_sent orb]. rewrite existsb_app, Hs. cbn [orb]. eexists c, depth, fn, cold, effects, failed, _, _, _. done.
  - pose proof (invokeError_status (FAcquire err) (n_text (k_run v) (FAcquire err)) fn (reqID q)) as Hs.
    destruct (invokeError _ _ _ _) as [status opts]. intros [= <-]. cbn. split; [done|]. exists status. split; [done|].
    by apply ErrorWithDetail_status.
Qed.

(** C13. A function runs for another only when the call carries the live
    credential of a worker, names an execution that this worker's function is
    running now, stays within the depth and asks for an active function; the
    run is then recorded once, as a child of the caller's span in the caller's
    trace and under the caller's name -- unless the answer's status makes the
    streaming endpoint panic, which records nothing. *)
Theorem calls_are_their_callers_children streaming name q v st wr o :
  wr_status wr = None -> Call name q v streaming st wr = Some o ->
  if existsb is_sent (cd_effects o) then
    exists c depth fn, entitled name q v st c depth fn /\
      if cd_panicked o then streaming = true /\ omap row_queued (cd_effects o) = []
      else exists row, omap row_queued (cd_effects o) = [row] /\ x_ID row = n_execID (k_run v) /\ x_FunctionID row = fn_ID fn /\
             x_TraceID row = nullableString (c_TraceID c) /\ x_ParentSpanID row = nullableString (c_SpanID c) /\
             x_ParentFunctionID row = nullableString (c_FunctionID c)
  else omap row_queued (cd_effects o) = [] /\ exists status, cd_refused o = Some status /\ wr_status (cd_writer o) = Some status.
Proof.
  intros Hw Hc. pose proof (Call_spec streaming name q v st wr o Hw Hc) as H. destruct (existsb is_sent (cd_effects o)); [|done].
  destruct H as (c & depth & fn & cold & mid & failed & state & writer & refused & He & Hmid & body & rest & -> & _ & Hrest).
  exists c, depth, fn. split; [done|]. rewrite Hmid. cbn [app omap list_omap row_queued]. rewrite !omap_app. cbn [omap list_omap row_queued]. rewrite app_nil_r.
  destruct (cd_panicked o); [done|]. destruct Hrest as (status & errMsg & sc & size & ->). eexists. split; [reflexivity|]. done.
Qed.

(** The caller [f2f_caller] with the credential of its worker and an execution
    of its own; it calls [callee_fn]. *)
Definition f2f_caller : string := "caller".
Definition minted : option Authenticator * list Z * option (list Z) := Mint (Some (repeat 7 16)) f2f_caller (Some (New (bytes "k"))).
Definition f2f_sample : f2f_state :=
  MkF2F (BindExecution "ex_0" f2f_caller "tr_1" "sp_0" 0 minted.1.1)
    (MkDb {[ "c" := sample_function "c" "callee" <| fn_Status := "active" |> ]} [])%string ∅.
Definition f2f_request (depth : string) : http_request :=
  MkHttp "POST" "/api/v1/_internal/invoke/callee" ""
    [("X-Orva-Internal-Token", [of_bytes minted.1.2]); ("X-Orva-Execution-Id", ["ex_0"]); ("X-Orva-Call-Depth", [depth])]%string "" "".
Definition f2f_sample_env (io : wait) : f2f_env :=
  MkF2FEnv false 0 (Some (bytes "{}")) true
    (MkRun (Ok (false, small_worker)) "ex_1" "sp_1" 0 12 Written io [] (fun _ => "boom"%string) true true) (fun l => l) [].
Definition f2f_sample_call (io : wait) (depth : string) : option called :=
  Call "callee" (f2f_request depth) (f2f_sample_env io) true f2f_sample fresh_writer.

Lemma calls_are_their_callers_children_witness :
  exists o row, f2f_sample_call (MkWait (framed answer_one) [] Delivered) "2" = Some o /\ omap row_queued (cd_effects o) = [row] /\
    x_ParentSpanID row = Some "sp_0"%string /\ x_ParentFunctionID row = Some f2f_caller.
Proof.
  assert (exists o, f2f_sample_call (MkWait (framed answer_one) [] Delivered) "2" = Some o /\ existsb is_sent (cd_effects o) = true /\
    cd_panicked o = false) as (o & Eo & Hs & Hp).
  { eexists. split; [vm_compute; reflexivity|]. split; vm_compute; reflexivity. }
  pose proof (calls_are_their_callers_children true "callee" (f2f_request "2") (f2f_sample_env (MkWait (framed answer_one) [] Delivered))
    f2f_sample fresh_writer o eq_refl Eo) as H.
  rewrite Hs, Hp in H. destruct H as (c & depth & fn & [Hc (au & e & Ea & Ee & Ef & _ & Es) _ _ _] & row & Hrow & _ & _ & _ & Hspan & Hfn).
  exists o, row. split; [exact Eo|]. split; [exact Hrow|]. rewrite Hspan, Hfn.
  assert (Verify (bytes (caller_token (f2f_request "2"))) (b_sdk f2f_sample) = Some f2f_caller) as Hv by (vm_compute; reflexivity).
  rewrite Hv in Hc. injection Hc as <-.
  assert ((ex_spanID <$> (b_sdk f2f_sample ≫= fun au => active au !! caller_execution (f2f_request "2"))) = Some "sp_0"%string) as He
    by (vm_compute; reflexivity).
  rewrite Ea in He. cbn [mbind option_bind] in He. rewrite Ee in He. cbn in He. injection He as He. rewrite <- Es, He. split; reflexivity.
Defined.

(** A streaming answer with a status of two digits runs and is recorded
    nowhere. *)
Example bad_status_is_not_recorded :
  (fun o => (cd_panicked o, existsb is_sent (cd_effects o), omap row_queued (cd_effects o)))
    <$> f2f_sample_call (MkWait (framed answer_bad) [] Delivered) "" = Some (true, true, []).
Proof. vm_compute. reflexivity. Qed.

(* ------------------------------------------------------------------ *)
(** ** How deep calls nest *)

(** The depth the callee is told. *)
Definition event_depth (e : json) : option string :=
  match e with
  | JObject [_; (_, hs); _; _] => match as_map None hs with Some (Some m) => m !! "x-orva-call-depth"%string | _ => None end
  | _ => None
  end.

Record nested := MkNested { nc_streaming : bool; nc_name : string; nc_q : http_request; nc_v : f2f_env; nc_st : f2f_state; nc_wr : writer }.

Definition tells (c : nested) (d : string) : Prop :=
  exists o event, wr_status (nc_wr c) = None /\ Call (nc_name c) (nc_q c) (nc_v c) (nc_streaming c) (nc_st c) (nc_wr c) = Some o /\
    Sent event ∈ cd_effects o /\ event_depth event = Some d.

(** Calls of which each is made by the callee of the one before, with the
    depth header it was told. *)
Inductive chain (maxCallDepth : Z) : string -> list nested -> Prop :=
| ChainEnd h : chain maxCallDepth h []
| ChainCall c d rest : k_max (nc_v c) = maxCallDepth -> tells c d -> chain maxCallDepth d rest ->
    chain maxCallDepth (depth_header (nc_q c)) (c :: rest).

Lemma f2f_headers_depth v streaming c depth fn : f2f_headers v streaming c depth fn !! "x-orva-call-depth"%string = Some (next_depth depth).
Proof.
  unfold f2f_headers. destruct streaming; rewrite ?lookup_insert_ne by done; apply lookup_insert_eq.
Qed.

Lemma tells_next c d :
  tells c d -> let n := call_depth (depth_header (nc_q c)) in too_deep n (max_depth (k_max (nc_v c))) = false /\ d = next_depth n.
Proof.
  intros (o & event & Hw & Hc & Hin & Hd). pose proof (Call_spec _ _ _ _ _ _ _ Hw Hc) as H.
  assert (existsb is_sent (cd_effects o) = true) as Hs by (apply existsb_exists; exists (Sent event); split; [by apply list_elem_of_In|done]).
  rewrite Hs in H. destruct H as (k & depth & fn & cold & mid & failed & state & writer & refused & [_ _ [-> Hdeep] _ _] & Hmid & body & rest & -> & Hrest & _).
  cbv zeta. split; [done|]. rewrite Hmid in Hin. cbn [app] in Hin.
  assert (Sent event ∈ rest -> False) as Hno.
  { intros H. rewrite <- not_true_iff_false in Hrest. apply Hrest, existsb_exists. exists (Sent event). split; [by apply list_elem_of_In|done]. }
  rewrite !elem_of_cons, elem_of_app, !elem_of_cons in Hin.
  assert (event = synthetic_event (f2f_headers (nc_v c) (nc_streaming c) k (call_depth (depth_header (nc_q c))) fn) body) as ->.
  { destruct Hin as [?|[?|[?|[[= ->]|[?|[?|[?|[?|?%elem_of_nil]]]]]]]]; try done. }
  unfold event_depth, synthetic_event in Hd. rewrite as_map_json_headers, f2f_headers_depth in Hd. by injection Hd as <-.
Qed.

Lemma call_depth_next n : 0 <= n <= int64_max ->
  call_depth (next_depth n) = if n =? int64_max then 0 else n + 1.
Proof.
  intros Hn. unfold call_depth, next_depth. assert (in_int64 (wrap64 (n + 1))) as Hr by apply wrap64_range.
  rewrite parseInt64_formatInt by done. assert (formatInt (wrap64 (n + 1)) <> ""%string) as Hne.
  { intros E. pose proof (parseInt64_formatInt _ Hr) as H. rewrite E in H. discriminate H. }
  rewrite bool_decide_eq_false_2 by done. destruct (n =? int64_max) eqn:E; [apply Z.eqb_eq in E as ->; reflexivity|apply Z.eqb_neq in E].
  rewrite wrap64_id by (unfold in_int64, int64_min, int64_max in *; lia). by rewrite (proj2 (Z.ltb_lt 0 (n + 1))) by lia.
Qed.

Lemma call_depth_range h : 0 <= call_depth h <= int64_max.
Proof.
  unfold call_depth. case_bool_decide; [by vm_compute|]. destruct (parseInt64 h) as [n|] eqn:E; [|by vm_compute].
  apply AuthGate.parseInt64_range in E. unfold in_int64 in E. destruct (0 <? n) eqn:E0; [apply Z.ltb_lt in E0; lia|by vm_compute].
Qed.

(** C23. However functions call each other, no more than the configured depth
    of calls is nested as long as every function passes on the depth it was
    told.  The exception is a header that reads 2^63 - 1: the sum wraps, the
    call is let in and its callee starts again at zero. *)
Theorem call_chains_are_bounded maxCallDepth h l :
  maxCallDepth < int64_max -> chain maxCallDepth h l ->
  Z.of_nat (length l) <= if call_depth h =? int64_max then 1 + max_depth maxCallDepth else Z.max 0 (max_depth maxCallDepth - call_depth h).
Proof.
  intros Hmax Hl. assert (0 < max_depth maxCallDepth < int64_max) as Hm.
  { unfold max_depth. destruct (maxCallDepth <=? 0) eqn:E; [by vm_compute|apply Z.leb_gt in E; lia]. }
  induction Hl as [h|c d rest Hk Ht Hl IH]; [destruct (_ =? _); cbn; lia|].
  destruct (tells_next c d Ht) as [Hdeep ->]. rewrite Hk in Hdeep. set (n := call_depth (depth_header (nc_q c))) in *.
  pose proof (call_depth_range (depth_header (nc_q c))) as Hn. fold n in Hn. rewrite call_depth_next in IH by done. cbn [length].
  destruct (n =? int64_max) eqn:E; [apply Z.eqb_eq in E|apply Z.eqb_neq in E].
  - change (0 =? int64_max) with false in IH. lia.
  - unfold too_deep in Hdeep. apply Z.ltb_ge in Hdeep. rewrite wrap64_id in Hdeep by (unfold in_int64, int64_min in *; lia).
    destruct (n + 1 =? int64_max) eqn:E1; [apply Z.eqb_eq in E1; lia|]. lia.
Qed.

(** The deepest call that is let in, and the one past it; the one at the top of
    the integers. *)
Example depth_is_checked :
  map (fun d => cd_refused <$> f2f_sample_call (MkWait (framed answer_one) [] Delivered) d) ["7"; "8"; "9223372036854775807"]%string
  = [Some None; Some (Some 507); Some None].
Proof. vm_compute. reflexivity. Qed.

Definition sample_nested (d : string) : nested :=
  MkNested true "callee" (f2f_request d) (f2f_sample_env (MkWait (framed answer_one) [] Delivered)) f2f_sample fresh_writer.

Lemma call_chains_are_bounded_witness : chain 0 "6"%string (map sample_nested ["6"; "7"]%string) /\ 2 <= max_depth 0 - call_depth "6".
Proof.
  assert (chain 0 (depth_header (nc_q (sample_nested "6"))) (map sample_nested ["6"; "7"]%string)) as Hc.
  { cbn [map]. apply (ChainCall 0 _ "7"); [reflexivity| |].
    - eexists _, _. split; [reflexivity|]. split; [vm_compute; reflexivity|]. split.
      + cbn [cd_effects]. do 3 apply list_elem_of_further. apply list_elem_of_here.
      + vm_compute. reflexivity.
    - apply (ChainCall 0 (sample_nested "7") "8"); [reflexivity| |apply ChainEnd].
      eexists _, _. split; [reflexivity|]. split; [vm_compute; reflexivity|]. split.
      + cbn [cd_effects]. do 3 apply list_elem_of_further. apply list_elem_of_here.
      + vm_compute. reflexivity. }
  split; [exact Hc|]. pose proof (call_chains_are_bounded 0 _ _ eq_refl Hc) as H. vm_compute in H. vm_compute. exact H.
Defined.
