(* ===== verification/Cron.v ===== *)
(** * Cron schedules
    ([database/cron.go], [server/handlers/cron.go], the cron part of
     [scheduler/scheduler.go])

    The table of schedules with its statements and handlers, one run of a due
    schedule ([fireCron]), and the scheduler as a machine in which ticks, runs
    and edits interleave.  The parser of expressions, the time zone data and
    the calendar are parameters; instants are nanoseconds. *)
From S2P Require Import Prelude GoText Float64 FunctionPool SdkAuth Json Worker Headers Proxy Registry Baseline Invoke Runs.
Open Scope Z_scope.

Record CronSchedule := MkCron {
  s_ID : string; s_FunctionID : string; s_CronExpr : string; s_Timezone : string; s_Enabled : bool;
  s_LastRunAt : option Z; s_NextRunAt : option Z; s_LastStatus : string; s_LastError : string; s_Payload : string;
  s_Name : string; s_CreatedAt : Z; s_UpdatedAt : Z }.
#[export] Instance eta_CronSchedule : Eta CronSchedule := fun r =>
  MkCron (s_ID r) (s_FunctionID r) (s_CronExpr r) (s_Timezone r) (s_Enabled r) (s_LastRunAt r) (s_NextRunAt r) (s_LastStatus r)
    (s_LastError r) (s_Payload r) (s_Name r) (s_CreatedAt r) (s_UpdatedAt r).

Notation crons := (gmap string CronSchedule).

(* ------------------------------------------------------------------ *)
(** ** Statements *)

Inductive cron_error := CUnique | CIO | CForeignKey.

(** The row with its defaults; [id]: a fresh identifier. *)
Definition with_defaults (s : CronSchedule) : CronSchedule :=
  let s := if bool_decide (s_Payload s = ""%string) then s <| s_Payload := "{}"%string |> else s in
  if bool_decide (s_Timezone s = ""%string) then s <| s_Timezone := "UTC"%string |> else s.

Definition named (fnID name : string) (t : crons) : option string :=
  fst <$> List.find (fun kr : string * CronSchedule => bool_decide (s_FunctionID kr.2 = fnID) && bool_decide (s_Name kr.2 = name)) (map_to_list t).

(** The insert under the primary key, the unique index on named rows and the
    foreign key. *)
Definition insert_cron (io known : bool) (s : CronSchedule) (t : crons) : res cron_error crons :=
  if io then Err CIO
  else if bool_decide (is_Some (t !! s_ID s)) ||
          (negb (bool_decide (s_Name s = ""%string)) && bool_decide (is_Some (named (s_FunctionID s) (s_Name s) t))) then Err CUnique
  else if negb known then Err CForeignKey
  else Ok (<[s_ID s := s]> t).

Definition InsertCronSchedule (io known : bool) (id : string) (now : Z) (s : CronSchedule) (t : crons) : res cron_error crons :=
  let s := if bool_decide (s_ID s = ""%string) then s <| s_ID := id |> else s in
  insert_cron io known (with_defaults s <| s_CreatedAt := now |> <| s_UpdatedAt := now |>) t.

(** What an upsert may change; the last run is the scheduler's. *)
Definition updateCronScheduleInPlace (io : bool) (now : Z) (s : CronSchedule) (t : crons) : res cron_error crons :=
  if io then Err CIO
  else Ok (alter (fun old => old <| s_CronExpr := s_CronExpr s |> <| s_Timezone := s_Timezone s |> <| s_Enabled := s_Enabled s |>
                                 <| s_NextRunAt := s_NextRunAt s |> <| s_Payload := s_Payload s |> <| s_UpdatedAt := now |>) (s_ID s) t).

(** [found]: the row the first look saw, which may be gone by now; the look
    after a lost race sees the table as it is. *)
Definition UpsertCronScheduleByName (found : option string) (io known : bool) (id : string) (now : Z) (s : CronSchedule) (t : crons) :
    res cron_error (crons * string) :=
  let s := with_defaults s in
  match found with
  | Some existing =>
    match updateCronScheduleInPlace io now (s <| s_ID := existing |>) t with Ok t => Ok (t, existing) | Err e => Err e end
  | None =>
    let s := if bool_decide (s_ID s = ""%string) then s <| s_ID := id |> else s in
    match insert_cron io known (s <| s_CreatedAt := now |> <| s_UpdatedAt := now |>) t with
    | Ok t => Ok (t, s_ID s)
    | Err CUnique =>
      match named (s_FunctionID s) (s_Name s) t with
      | Some raced => match updateCronScheduleInPlace io now (s <| s_ID := raced |>) t with Ok t => Ok (t, raced) | Err e => Err e end
      | None => Err CUnique
      end
    | Err e => Err e
    end
  end.

Definition GetCronSchedule (io : bool) (id : string) (t : crons) : option CronSchedule := if io then None else t !! id.

Definition due (now : Z) (s : CronSchedule) : bool :=
  s_Enabled s && match s_NextRunAt s with Some n => n <=? now | None => false end.

(** [order]: by the next run, ties in any order. *)
Definition DueCronSchedules (order : list CronSchedule -> list CronSchedule) (now : Z) (limit : nat) (t : crons) : list CronSchedule :=
  take limit (order (List.filter (due now) (snd <$> map_to_list t))).

Definition UpdateCronSchedule (io : bool) (now : Z) (s : CronSchedule) (t : crons) : res cron_error crons :=
  let tz := if bool_decide (s_Timezone s = ""%string) then "UTC"%string else s_Timezone s in
  if io then Err CIO
  else Ok (alter (fun old => old <| s_CronExpr := s_CronExpr s |> <| s_Timezone := tz |> <| s_Enabled := s_Enabled s |>
                                 <| s_Payload := s_Payload s |> <| s_NextRunAt := s_NextRunAt s |> <| s_UpdatedAt := now |>) (s_ID s) t).

Definition UpdateCronAfterRun (io : bool) (id : string) (ranAt nextAt now : Z) (status errMsg : string) (t : crons) : crons :=
  if io then t
  else alter (fun old => old <| s_LastRunAt := Some ranAt |> <| s_NextRunAt := Some nextAt |> <| s_LastStatus := status |>
                             <| s_LastError := errMsg |> <| s_UpdatedAt := now |>) id t.

Definition DeleteCronSchedule (io : bool) (id : string) (t : crons) : res cron_error crons := if io then Err CIO else Ok (delete id t).

(* ------------------------------------------------------------------ *)
(** ** Handlers *)

(** [encodePayload]; [None]: no payload; the value as the decoder left it. *)
Definition encodePayload (p : option json) : option string :=
  match p with
  | None | Some JNull => Some "{}"%string
  | Some (JString v) =>
    let s := trimSpace v in
    if bool_decide (s = ""%string) then Some "{}"%string
    else match unmarshal (bytes s) with Some _ => Some s | None => None end
  | Some v => Some (of_bytes (marshal v))
  end.

Record cronRequest := MkCronRequest { cq_CronExpr : string; cq_Timezone : string; cq_Enabled : option bool; cq_Payload : option json }.
Record upsertInternalRequest := MkUpsertInternal {
  up_Name : string; up_Schedule : string; up_Timezone : string; up_Enabled : option bool; up_Payload : option json }.

Definition maxSDKSchedulesPerFunction : Z := 25.

(** [parse], [Next] and [LoadLocation]: package cron and the time zone data. *)
Section Calendar.
Context {sched zone : Type} (parse : string -> option sched) (load : string -> option zone) (utc : zone)
  (next : sched -> zone -> Z -> Z).

(** [resolveTZ]. *)
Definition resolveTZ (name : string) : option (zone * string) :=
  let name := trimSpace name in
  if bool_decide (name = ""%string) then Some (utc, "UTC"%string) else match load name with Some z => Some (z, name) | None => None end.

Definition loadLocationOr (name : string) : zone :=
  if bool_decide (name = ""%string) then utc else match load name with Some z => z | None => utc end.

Definition CronCreate (known : bool) (fnID : string) (req : option cronRequest) (io : bool) (id : string) (now : Z) (t : crons) : crons * Z :=
  if negb known then (t, 404)
  else
    match req with
    | None => (t, 400)
    | Some req =>
      let expr := trimSpace (cq_CronExpr req) in
      if bool_decide (expr = ""%string) then (t, 400)
      else
        match parse expr, resolveTZ (cq_Timezone req), encodePayload (cq_Payload req) with
        | Some s, Some (loc, tz), Some payload =>
          let row := MkCron "" fnID expr tz (default true (cq_Enabled req)) None (Some (next s loc now)) "" "" payload "" 0 0 in
          match InsertCronSchedule io known id now row t with Ok t => (t, 201) | Err _ => (t, 500) end
        | _, _, _ => (t, 400)
        end
    end.

(** The edited row; [Err true]: the handler panics, on a stored expression or
    zone that does not parse. *)
Definition edited (req : cronRequest) (now : Z) (row : CronSchedule) : res bool CronSchedule :=
  let expr := trimSpace (cq_CronExpr req) in
  let new_expr := negb (bool_decide (expr = ""%string)) && negb (bool_decide (expr = s_CronExpr row)) in
  if new_expr && match parse expr with None => true | Some _ => false end then Err false
  else
    let row := if new_expr then row <| s_CronExpr := expr |> else row in
    let tz := trimSpace (cq_Timezone req) in
    let new_tz := negb (bool_decide (tz = ""%string)) && negb (bool_decide (tz = s_Timezone row)) in
    if new_tz && match resolveTZ tz with None => true | Some _ => false end then Err false
    else
      let row := if new_tz then row <| s_Timezone := tz |> else row in
      let wasEnabled := s_Enabled row in
      let row := match cq_Enabled req with Some b => row <| s_Enabled := b |> | None => row end in
      match (match cq_Payload req with None => Some (s_Payload row) | p => encodePayload p end) with
      | None => Err false
      | Some payload =>
        let row := row <| s_Payload := payload |> in
        if new_expr || new_tz || (s_Enabled row && negb wasEnabled) then
          match parse (s_CronExpr row), resolveTZ (s_Timezone row) with
          | Some s, Some (loc, _) => Ok (row <| s_NextRunAt := Some (next s loc now) |>)
          | _, _ => Err true
          end
        else Ok row
      end.

(** [Update] from the row it read to its write; status 0: a panic. *)
Definition CronUpdate (fnID : string) (read : option CronSchedule) (req : option cronRequest) (io : bool) (now : Z) (t : crons) : crons * Z :=
  match read with
  | Some row =>
    if negb (bool_decide (s_FunctionID row = fnID)) then (t, 404)
    else
      match req with
      | None => (t, 400)
      | Some req =>
        match edited req now row with
        | Err panics => (t, if panics : bool then 0 else 400)
        | Ok row => match UpdateCronSchedule io now row t with Ok t => (t, 200) | Err _ => (t, 500) end
        end
      end
  | None => (t, 404)
  end.

Definition CronDelete (fnID id : string) (io_read io_write : bool) (t : crons) : crons * Z :=
  match GetCronSchedule io_read id t with
  | Some row => if bool_decide (s_FunctionID row = fnID)
                then match DeleteCronSchedule io_write id t with Ok t => (t, 200) | Err _ => (t, 500) end
                else (t, 404)
  | None => (t, 404)
  end.

(** The schedules a function declared for itself, and whether [name] is new. *)
Definition declared_by (fnID name : string) (t : crons) : Z * bool :=
  let own := List.filter (fun s => bool_decide (s_FunctionID s = fnID) && negb (bool_decide (s_Name s = ""%string))) (snd <$> map_to_list t) in
  (Z.of_nat (length own), negb (existsb (fun s => bool_decide (s_Name s = name)) own)).

(** [UpsertInternal]; [owner]: the function of the credential, when the call
    comes from inside one of its executions.  [t_listed], [t_looked] and [t]:
    the table when the schedules are counted, when the name is looked up and
    when the row is written. *)
Definition UpsertInternal (owner : res Z string) (req : option upsertInternalRequest) (list_io look_io io : bool) (id : string) (now : Z)
    (t_listed t_looked t : crons) : crons * Z :=
  match owner with
  | Err status => (t, status)
  | Ok fnID =>
    match req with
    | None => (t, 400)
    | Some req =>
      let name := trimSpace (up_Name req) in
      let expr := trimSpace (up_Schedule req) in
      if bool_decide (name = ""%string) || bool_decide (expr = ""%string) then (t, 400)
      else
        match parse expr, resolveTZ (up_Timezone req), encodePayload (up_Payload req) with
        | Some s, Some (loc, tz), Some payload =>
          let enabled := default true (up_Enabled req) in
          let row := MkCron "" fnID expr tz enabled None (if enabled then Some (next s loc now) else None) "" "" payload name 0 0 in
          let '(declared, fresh) := declared_by fnID name t_listed in
          if negb list_io && fresh && (maxSDKSchedulesPerFunction <=? declared) then (t, 400)
          else if look_io then (t, 500)
          else match UpsertCronScheduleByName (named fnID name t_looked) io true id now row t with
               | Ok (t, _) => (t, 200)
               | Err _ => (t, 500)
               end
        | _, _, _ => (t, 400)
        end
    end
  end.

(** The credential and the execution it must name. *)
Definition upsert_owner (token execution : string) (sdk : option Authenticator) : res Z string :=
  match Verify (bytes token) sdk with
  | None => Err 401
  | Some fnID => if OwnsExecution execution fnID sdk then Ok fnID else Err 403
  end.

(* ------------------------------------------------------------------ *)
(** ** A run *)

(** [http3xxLabel] of a status that counts as a failure. *)
Definition http3xxLabel (code : Z) : string := if 500 <=? code then "5xx" else if 400 <=? code then "4xx" else "ok".

(** What a run leaves for the row: the time of the next, the status, the
    error. *)
Record fired := MkFired { fd_nextAt : Z; fd_status : string; fd_error : string }.

Record fire_env := MkFire {
  fe_function : option Function_;     (** [GetFunction] *)
  fe_lookup_text : string;            (** the texts of errors outside the exchange *)
  fe_parse_text : string; fe_lease_text : string;
  fe_lease : bool; fe_traceID : string; fe_run : run_env }.

Definition next_after (row : CronSchedule) (ranAt : Z) : option Z :=
  match parse (s_CronExpr row) with Some s => Some (next s (loadLocationOr (s_Timezone row)) ranAt) | None => None end.

Definition cron_headers (row : CronSchedule) (fn : Function_) (e : fire_env) : gmap string string :=
  {[ "content-type" := "application/json"; "x-orva-trigger" := "cron"; "x-orva-cron-id" := s_ID row;
     "x-orva-execution-id" := n_execID (fe_run e); "x-orva-function-id" := fn_ID fn; "x-orva-trace-id" := fe_traceID e;
     "x-orva-span-id" := n_spanID (fe_run e) ]}%string.

(** [recordExecution]: every scheduled run counts as warm. *)
Definition recordExecution (e : fire_env) (fn : Function_) (status errMsg : string) (sc : Z) (ranAt : Z) (stderr : list Z)
    (b : gmap string ringBuf) : gmap string ringBuf * list run_effect :=
  let row := MkRow (n_execID (fe_run e)) (fn_ID fn) status false (n_durationMS (fe_run e)) sc errMsg 0 ranAt
               (nullableString (fe_traceID e)) (nullableString (n_spanID (fe_run e))) None (Some "cron"%string) None false None in
  let '(b, rec) := finalized_row row false false (fe_run e) b in
  (b, rec ++ stored_log (n_execID (fe_run e)) (fn_ID fn) stderr).

(** [fireCron] from the time it takes to what it persists; a failure is also
    published.  [None]: the exchange never returns. *)
Definition fireCron (row : CronSchedule) (ranAt : Z) (e : fire_env) (b : gmap string ringBuf) :
    option (fired * list run_effect * gmap string ringBuf) :=
  let env := fe_run e in
  match next_after row ranAt with
  | None => Some (MkFired (ranAt + 3600 * second) "failed" ("invalid cron_expr: " ++ fe_parse_text e), [], b)
  | Some nextAt =>
    match fe_function e with
    | None => Some (MkFired nextAt "failed" ("function lookup: " ++ fe_lookup_text e), [], b)
    | Some fn =>
      if negb (fe_lease e) then Some (MkFired nextAt "failed" ("execution storage backpressure: " ++ fe_lease_text e), [], b)
      else
        match n_acquire env with
        | Err err => Some (MkFired nextAt "failed" ("pool acquire: " ++ n_text env (FAcquire err)), [Leased; LeaseBack], b)
        | Ok (_, w) =>
          let body := (if bool_decide (s_Payload row = "") then "{}" else s_Payload row)%string in
          let event := synthetic_event (cron_headers row fn e) body in
          let around mid failed :=
            [Leased; Taken; BoundRun (n_execID env) (fn_ID fn) (fe_traceID e) (n_spanID env) ranAt; Sent event] ++ mid ++
            [UnboundRun; GivenBack failed; LeaseBack] in
          match Dispatch w event (n_write env) (n_wait env) (n_waits env) with
          | None => None
          | Some (_, inr err, stderr) =>
            let errMsg := exchange_error err env in
            let '(b, rec) := recordExecution e fn "error" errMsg 0 ranAt stderr b in
            Some (MkFired nextAt "failed" errMsg, around rec true, b)
          | Some (_, inl payload, stderr) =>
            let '(sc, _, _) := answer_of payload in
            let sc := if sc =? 0 then 200 else sc in
            if 500 <=? sc then
              let errMsg := ("function returned " ++ http3xxLabel sc)%string in
              let '(b, rec) := recordExecution e fn "error" errMsg sc ranAt stderr b in
              Some (MkFired nextAt "failed" errMsg, around rec false, b)
            else
              let '(b, rec) := recordExecution e fn "success" "" sc ranAt stderr b in
              Some (MkFired nextAt "ok" "", around rec false, b)
          end
        end
    end
  end.

(** [persistResult]; a failing write is only logged. *)
Definition persistResult (io : bool) (id : string) (ranAt now : Z) (f : fired) (t : crons) : crons :=
  UpdateCronAfterRun io id ranAt (fd_nextAt f) now (fd_status f) (fd_error f) t.

(** [recomputeNextRunOnBoot] over the rows as they were listed. *)
Definition boot_row (io : string -> bool) (now : Z) (t : crons) (r : CronSchedule) : crons :=
  if negb (s_Enabled r) then t
  else match next_after r now with
       | None => t
       | Some n =>
         if match s_NextRunAt r with None => true | Some m => m <? now end then
           match UpdateCronSchedule (io (s_ID r)) now (r <| s_NextRunAt := Some n |>) t with Ok t => t | Err _ => t end
         else t
       end.
Definition recomputeNextRunOnBoot (list_io : bool) (io : string -> bool) (now : Z) (t : crons) : crons :=
  if list_io then t else foldl (boot_row io now) t (snd <$> map_to_list t).

(* ------------------------------------------------------------------ *)
(** ** The scheduler as a machine *)

(** A run: the row as the tick read it; then when it began and what comes
    after; then written down, with only the mark to be taken away. *)
Inductive fire_stage := Launched | Running (ranAt : Z) (nextAt : Z) | Written_.
Record fire := MkFireRun { fr_row : CronSchedule; fr_stage : fire_stage }.

(** [cw_tick]: the rows the tick in progress has still to look at; [cw_log]:
    the runs begun, with the slot the row was due for. *)
Record cron_world := MkCronWorld {
  cw_rows : crons; cw_now : Z; cw_tick : list CronSchedule; cw_inflight : gset string; cw_fires : list fire;
  cw_log : list (string * Z * Z) }.

Inductive cron_action :=
| ATime (now : Z)
| ATick (order : list CronSchedule -> list CronSchedule)    (** [DueCronSchedules], once the last tick is through *)
| ALaunch                                                   (** the next row of the tick: [LoadOrStore] *)
| ABegin (i : nat)                                          (** run [i] reads the clock *)
| APersist (i : nat) (io : bool) (status errMsg : string)   (** run [i] comes to [persistResult] *)
| ALeave (i : nat)                                          (** run [i] takes its mark away *)
| ATable (f : crons -> crons).                              (** a handler, a boot *)

Definition next_of (row : CronSchedule) (ranAt : Z) : Z :=
  match next_after row ranAt with Some n => n | None => ranAt + 3600 * second end.

Definition cron_step (a : cron_action) (w : cron_world) : option cron_world :=
  match a with
  | ATime now => if cw_now w <=? now then Some (MkCronWorld (cw_rows w) now (cw_tick w) (cw_inflight w) (cw_fires w) (cw_log w)) else None
  | ATick order =>
    match cw_tick w with
    | [] => Some (MkCronWorld (cw_rows w) (cw_now w) (DueCronSchedules order (cw_now w) 50 (cw_rows w)) (cw_inflight w) (cw_fires w) (cw_log w))
    | _ => None
    end
  | ALaunch =>
    match cw_tick w with
    | r :: rest =>
      if bool_decide (s_ID r ∈ cw_inflight w) then
        Some (MkCronWorld (cw_rows w) (cw_now w) rest (cw_inflight w) (cw_fires w) (cw_log w))
      else
        Some (MkCronWorld (cw_rows w) (cw_now w) rest ({[s_ID r]} ∪ cw_inflight w) (cw_fires w ++ [MkFireRun r Launched]) (cw_log w))
    | [] => None
    end
  | ABegin i =>
    match cw_fires w !! i with
    | Some (MkFireRun r Launched) =>
      Some (MkCronWorld (cw_rows w) (cw_now w) (cw_tick w) (cw_inflight w)
              (<[i := MkFireRun r (Running (cw_now w) (next_of r (cw_now w)))]> (cw_fires w))
              ((s_ID r, default 0 (s_NextRunAt r), cw_now w) :: cw_log w))
    | _ => None
    end
  | APersist i io status errMsg =>
    match cw_fires w !! i with
    | Some (MkFireRun r (Running ranAt nextAt)) =>
      Some (MkCronWorld (persistResult io (s_ID r) ranAt (cw_now w) (MkFired nextAt status errMsg) (cw_rows w)) (cw_now w) (cw_tick w)
              (cw_inflight w) (<[i := MkFireRun r Written_]> (cw_fires w)) (cw_log w))
    | _ => None
    end
  | ALeave i =>
    match cw_fires w !! i with
    | Some (MkFireRun r Written_) =>
      Some (MkCronWorld (cw_rows w) (cw_now w) (cw_tick w) (cw_inflight w ∖ {[s_ID r]}) (delete i (cw_fires w)) (cw_log w))
    | _ => None
    end
  | ATable f => Some (MkCronWorld (f (cw_rows w)) (cw_now w) (cw_tick w) (cw_inflight w) (cw_fires w) (cw_log w))
  end.

Fixpoint cron_run (l : list cron_action) (w : cron_world) : option cron_world :=
  match l with [] => Some w | a :: l => w ← cron_step a w; cron_run l w end.

Definition cron_start (t : crons) (now : Z) : cron_world := MkCronWorld t now [] ∅ [] [].
End Calendar.

(* ------------------------------------------------------------------ *)
(** ** A schedule runs alone *)

Section Machine.
Context {sched zone : Type} (parse : string -> option sched) (load : string -> option zone) (utc : zone)
  (next : sched -> zone -> Z -> Z).

Notation step := (cron_step parse load utc next).
Notation run := (cron_run parse load utc next).
Notation next_of := (next_of parse load utc next).

Definition fire_id (f : fire) : string := s_ID (fr_row f).

(** Enabled, and due by [now]. *)
Definition was_due (now : Z) (r : CronSchedule) : Prop := s_Enabled r = true /\ exists n, s_NextRunAt r = Some n /\ n <= now.

Record alone (w : cron_world) : Prop := {
  al_nodup : NoDup (fire_id <$> cw_fires w);
  al_marks : forall id, id ∈ cw_inflight w <-> id ∈ fire_id <$> cw_fires w;
  al_tick : Forall (was_due (cw_now w)) (cw_tick w);
  al_fires : Forall (fun f => was_due (cw_now w) (fr_row f)) (cw_fires w);
  al_log : Forall (fun e : string * Z * Z => e.1.2 <= e.2 <= cw_now w) (cw_log w) }.

(** A sort gives back the rows it was given. *)
Definition sorts (a : cron_action) : Prop := match a with ATick order => forall l, Permutation (order l) l | _ => True end.

Lemma was_due_later now now' r : now <= now' -> was_due now r -> was_due now' r.
Proof. intros Hn (He & n & E & Hle). split; [done|]. exists n. split; [done|lia]. Qed.

Lemma due_was now r : due now r = true -> was_due now r.
Proof.
  unfold due. intros [He Hn]%andb_true_iff. split; [done|]. destruct (s_NextRunAt r) as [n|]; [|done]. exists n. split; [done|]. by apply Z.leb_le.
Qed.

Lemma in_tick order now limit t r :
  (forall l, Permutation (order l) l) -> r ∈ DueCronSchedules order now limit t -> was_due now r /\ exists id, t !! id = Some r.
Proof.
  intros Ho Hin. unfold DueCronSchedules in Hin. apply elem_of_take in Hin as (i & Hin%list_elem_of_lookup_2 & _).
  rewrite Ho in Hin. apply list_elem_of_In, filter_In in Hin as [Hin Hd]. split; [by apply due_was|].
  apply list_elem_of_In, list_elem_of_fmap in Hin as ([id r'] & -> & Hin). exists id. by apply elem_of_map_to_list.
Qed.

Lemma fires_update (i : nat) r st st' (l : list fire) : l !! i = Some (MkFireRun r st) -> fire_id <$> <[i := MkFireRun r st']> l = fire_id <$> l.
Proof. intros Hi. rewrite list_fmap_insert. apply list_insert_id. by rewrite list_lookup_fmap, Hi. Qed.

Lemma Forall_update (P : fire -> Prop) (i : nat) r st st' (l : list fire) :
  l !! i = Some (MkFireRun r st) -> (forall st st', P (MkFireRun r st) -> P (MkFireRun r st')) -> Forall P l -> Forall P (<[i := MkFireRun r st']> l).
Proof. intros Hi HP Hl. apply Forall_insert; [done|]. apply (HP st). by eapply Forall_lookup_1. Qed.

Lemma alone_step a w w' : sorts a -> alone w -> step a w = Some w' -> alone w'.
Proof.
  intros Ha [Hnd Hm Ht Hf Hl]. destruct a as [now|order| |i|i io status errMsg|i|f]; cbn [cron_step].
  - destruct (cw_now w <=? now) eqn:E; [apply Z.leb_le in E|done]. intros [= <-]. split; cbn; try done.
    + eapply Forall_impl; [exact Ht|]. intros r. by apply was_due_later.
    + eapply Forall_impl; [exact Hf|]. intros r. by apply was_due_later.
    + eapply Forall_impl; [exact Hl|]. cbn. lia.
  - destruct (cw_tick w); [|done]. intros [= <-]. split; cbn; try done. apply Forall_forall. intros r Hr. by eapply in_tick.
  - destruct (cw_tick w) as [|r rest] eqn:Et; [done|]. apply Forall_cons in Ht as [Hr Ht]. case_bool_decide as Hin; intros [= <-]; split; cbn; try done.
    + rewrite fmap_app. change (fire_id <$> [MkFireRun r Launched]) with [s_ID r]. apply NoDup_app. split; [done|]. split; [|apply NoDup_singleton].
      intros id Hid Hs. apply list_elem_of_singleton in Hs as ->. apply Hin, Hm, Hid.
    + intros id. rewrite fmap_app. change (fire_id <$> [MkFireRun r Launched]) with [s_ID r]. rewrite elem_of_app, elem_of_union, elem_of_singleton, list_elem_of_singleton, Hm. tauto.
    + apply Forall_app. split; [done|by apply Forall_singleton].
  - destruct (cw_fires w !! i) as [[r []]|] eqn:Ei; try done. intros [= <-]. pose proof (Forall_lookup_1 _ _ _ _ Hf Ei) as (_ & n & En & Hn).
    split; cbn; try done.
    + by erewrite fires_update.
    + by erewrite fires_update.
    + eapply Forall_update; [done| |done]. by intros ? ? H.
    + apply Forall_cons. split; [|done]. cbn. cbn in En. rewrite En. cbn. lia.
  - destruct (cw_fires w !! i) as [[r [|ranAt nextAt|]]|] eqn:Ei; try done. intros [= <-]. split; cbn; try done.
    + by erewrite fires_update.
    + by erewrite fires_update.
    + eapply Forall_update; [done| |done]. by intros ? ? H.
  - destruct (cw_fires w !! i) as [[r []]|] eqn:Ei; try done. intros [= <-].
    assert (Permutation (fire_id <$> cw_fires w) (s_ID r :: (fire_id <$> delete i (cw_fires w)))) as Hp.
    { rewrite (delete_Permutation (cw_fires w) i _ Ei) at 1. done. }
    rewrite Hp in Hnd. apply NoDup_cons in Hnd as [Hr Hnd]. split; cbn; try done.
    + intros id. rewrite elem_of_difference, elem_of_singleton, Hm, Hp, elem_of_cons. split; [tauto|]. intros Hid. split; [by right|]. by intros ->.
    + by apply Forall_delete.
  - intros [= <-]. by split.
Qed.

Lemma alone_run l : forall w w', Forall sorts l -> alone w -> run l w = Some w' -> alone w'.
Proof.
  induction l as [|a l IH]; intros w w' Hs Hw; [by intros [= <-]|]. apply Forall_cons in Hs as [Ha Hs]. cbn [cron_run].
  destruct (step a w) as [w1|] eqn:E; [|done]. cbn [mbind option_bind]. apply IH; [done|]. by eapply alone_step.
Qed.

Lemma alone_start t now : alone (cron_start t now).
Proof. split; cbn; [constructor|intros id; rewrite elem_of_nil; set_solver|constructor..]. Qed.

(* ------------------------------------------------------------------ *)
(** ** Every slot runs once *)

(** Nothing edits the table, what a run leaves is written, and no run ends
    while its row waits in a tick. *)
Definition calm_step (a : cron_action) (w : cron_world) : bool :=
  match a with
  | ATable _ => false
  | APersist _ io _ _ => negb io
  | ALeave i =>
    match cw_fires w !! i with
    | Some f => forallb (fun r => negb (bool_decide (s_ID r = fire_id f))) (cw_tick w)
    | None => true
    end
  | _ => true
  end.

Fixpoint calm (l : list cron_action) (w : cron_world) : bool :=
  match l with
  | [] => true
  | a :: l => calm_step a w && match step a w with Some w' => calm l w' | None => true end
  end.

(** Of two runs of one schedule the later is of a later slot. *)
Definition slots_grow (log : list (string * Z * Z)) : Prop :=
  StronglySorted (fun e e' : string * Z * Z => e'.1.1 = e.1.1 -> e'.1.2 < e.1.2) log.

Definition slot (r : CronSchedule) : Z := default 0 (s_NextRunAt r).

(** No run of schedule [id] was for [n] or later. *)
Definition below (log : list (string * Z * Z)) (id : string) (n : Z) : Prop :=
  Forall (fun e : string * Z * Z => e.1.1 = id -> e.1.2 < n) log.

Definition fire_fresh (w : cron_world) (f : fire) : Prop :=
  match fr_stage f with
  | Launched => below (cw_log w) (fire_id f) (slot (fr_row f))
  | Running _ nextAt => below (cw_log w) (fire_id f) nextAt
  | Written_ => forall r n, cw_rows w !! fire_id f = Some r -> s_NextRunAt r = Some n -> below (cw_log w) (fire_id f) n
  end.

Record spaced (w : cron_world) : Prop := {
  sp_keys : forall id r, cw_rows w !! id = Some r -> s_ID r = id;
  sp_rows : forall id r n, cw_rows w !! id = Some r -> id ∉ fire_id <$> cw_fires w -> s_NextRunAt r = Some n -> below (cw_log w) id n;
  sp_tick : forall r, r ∈ cw_tick w -> s_ID r ∉ fire_id <$> cw_fires w -> below (cw_log w) (s_ID r) (slot r);
  sp_fires : Forall (fire_fresh w) (cw_fires w);
  sp_log : slots_grow (cw_log w) }.

Lemma below_le log id n m : n <= m -> below log id n -> below log id m.
Proof. intros Hn Hb. eapply Forall_impl; [exact Hb|]. intros e He Hid. specialize (He Hid). lia. Qed.

Lemma below_cons log id id' n k t : id' <> id -> below log id n -> below ((id', k, t) :: log) id n.
Proof. intros Hne Hb. apply Forall_cons. split; [|done]. intros E. by destruct Hne. Qed.

(** The run at [i] is the only one of its schedule. *)
Lemma only_run (l : list fire) (i : nat) f : NoDup (fire_id <$> l) -> l !! i = Some f ->
  forall (j : nat) g, l !! j = Some g -> j <> i -> fire_id f <> fire_id g.
Proof.
  intros Hnd Hi j g Hj Hne Heq. apply Hne. eapply NoDup_lookup; [exact Hnd| |]; rewrite list_lookup_fmap; [by rewrite Hj|rewrite Hi; cbn; by rewrite Heq].
Qed.

(** One run moves on, the others stay what they were. *)
Lemma fires_moved (P Q : fire -> Prop) (l : list fire) (i : nat) f f' :
  l !! i = Some f -> NoDup (fire_id <$> l) -> Forall P l -> (forall g, fire_id f <> fire_id g -> P g -> Q g) -> Q f' -> Forall Q (<[i := f']> l).
Proof.
  intros Hi Hnd HP HQ Hf. apply Forall_lookup. intros j g Hj. destruct (decide (j = i)) as [->|Hne].
  - rewrite list_lookup_insert_eq in Hj by (by eapply lookup_lt_Some). by injection Hj as <-.
  - rewrite list_lookup_insert_ne in Hj by done. apply HQ; [by eapply only_run|]. by eapply Forall_lookup_1.
Qed.

Lemma in_fires (i : nat) f (l : list fire) : l !! i = Some f -> fire_id f ∈ fire_id <$> l.
Proof. intros Hi. apply list_elem_of_fmap. exists f. split; [done|]. by eapply list_elem_of_lookup_2. Qed.

Lemma next_of_later (r : CronSchedule) t : (forall s z t, t < next s z t) -> t < next_of r t.
Proof. intros Hn. unfold Cron.next_of. destruct (next_after parse load utc next r t) as [n|] eqn:E; [|unfold second; lia]. unfold next_after in E. destruct (parse _); [|done]. injection E as <-. apply Hn. Qed.

Lemma spaced_begin w (i : nat) r :
  (forall s z t, t < next s z t) -> alone w -> spaced w -> cw_fires w !! i = Some (MkFireRun r Launched) ->
  spaced (MkCronWorld (cw_rows w) (cw_now w) (cw_tick w) (cw_inflight w)
            (<[i := MkFireRun r (Running (cw_now w) (next_of r (cw_now w)))]> (cw_fires w))
            ((s_ID r, slot r, cw_now w) :: cw_log w)).
Proof.
  intros Hnext [Hnd _ _ Hf _] [Hk Hr Ht Hs Hl] Hi.
  pose proof (Forall_lookup_1 _ _ _ _ Hf Hi) as (_ & n & En & Hn). pose proof (Forall_lookup_1 _ _ _ _ Hs Hi) as Hfresh. cbn in En, Hfresh.
  assert (slot r = n) as Hslot by (unfold slot; by rewrite En).
  assert (forall id, id ∉ fire_id <$> cw_fires w -> s_ID r <> id) as Hne by (intros id Hid <-; by apply Hid, (in_fires i _ _ Hi)).
  split; cbn [cw_rows cw_tick cw_fires cw_log]; try (erewrite fires_update by exact Hi).
  - done.
  - intros id row m Hrow Hid Hm. apply below_cons; [by apply Hne|]. by eapply Hr.
  - intros row Hrow Hid. apply below_cons; [by apply Hne|]. by apply Ht.
  - eapply fires_moved; [exact Hi|done|exact Hs| |].
    + intros g Hg. unfold fire_fresh. cbn. destruct (fr_stage g); [apply (below_cons _ _ _ _ _ _ Hg)..|].
      intros Hw row m Hrow Hm. apply (below_cons _ _ _ _ _ _ Hg). by eapply Hw.
    + pose proof (next_of_later r (cw_now w) Hnext) as Hlater. cbn. apply Forall_cons. split; [cbn; lia|]. eapply below_le; [|exact Hfresh]. lia.
  - constructor; [done|exact Hfresh].
Qed.

Lemma spaced_persist w (i : nat) r ranAt nextAt status errMsg :
  alone w -> spaced w -> cw_fires w !! i = Some (MkFireRun r (Running ranAt nextAt)) ->
  spaced (MkCronWorld (persistResult false (s_ID r) ranAt (cw_now w) (MkFired nextAt status errMsg) (cw_rows w)) (cw_now w) (cw_tick w)
            (cw_inflight w) (<[i := MkFireRun r Written_]> (cw_fires w)) (cw_log w)).
Proof.
  intros [Hnd _ _ _ _] [Hk Hr Ht Hs Hl] Hi. pose proof (Forall_lookup_1 _ _ _ _ Hs Hi) as Hfresh. cbn in Hfresh.
  unfold persistResult, UpdateCronAfterRun. split; cbn [cw_rows cw_tick cw_fires cw_log]; try (erewrite fires_update by exact Hi); [| |done| |done].
  - intros id row Hrow. apply lookup_alter_Some in Hrow as [(E & old & Hold & ->)|[_ Hrow]]; [|by apply Hk]. subst id. exact (Hk _ _ Hold).
  - intros id row m Hrow Hid Hm. assert (s_ID r <> id) as Hne by (intros <-; by apply Hid, (in_fires i _ _ Hi)).
    rewrite lookup_alter_ne in Hrow by done. by eapply Hr.
  - eapply fires_moved; [exact Hi|done|exact Hs| |].
    + intros g Hg. unfold fire_fresh. cbn. destruct (fr_stage g); [done..|]. intros Hw row m Hrow. rewrite lookup_alter_ne in Hrow by done. by apply Hw.
    + unfold fire_fresh. cbn. intros row m Hrow Hm. rewrite lookup_alter in Hrow. rewrite decide_True in Hrow by done.
      destruct (cw_rows w !! s_ID r); [|done]. injection Hrow as <-. cbn in Hm. by injection Hm as <-.
Qed.

Lemma spaced_leave w (i : nat) r :
  spaced w -> cw_fires w !! i = Some (MkFireRun r Written_) -> (forall r', r' ∈ cw_tick w -> s_ID r' <> s_ID r) ->
  spaced (MkCronWorld (cw_rows w) (cw_now w) (cw_tick w) (cw_inflight w ∖ {[s_ID r]}) (delete i (cw_fires w)) (cw_log w)).
Proof.
  intros [Hk Hr Ht Hs Hl] Hi Hfree. pose proof (Forall_lookup_1 _ _ _ _ Hs Hi) as Hfresh. cbn in Hfresh.
  assert (forall id, id ∉ fire_id <$> delete i (cw_fires w) -> id <> s_ID r -> id ∉ fire_id <$> cw_fires w) as Hold.
  { intros id Hid Hne Hin. rewrite (delete_Permutation (cw_fires w) i _ Hi) in Hin. apply elem_of_cons in Hin as [->|Hin]; [by apply Hne|by apply Hid]. }
  split; cbn [cw_rows cw_tick cw_fires cw_log]; [done| | |by apply Forall_delete|done].
  - intros id row m Hrow Hid Hm. destruct (decide (id = s_ID r)) as [->|Hne]; [by eapply Hfresh|]. eapply Hr; [done| |done]. by apply Hold.
  - intros row Hrow Hid. apply Ht; [done|]. apply Hold; [done|]. by apply Hfree.
Qed.

Lemma spaced_launch w r rest :
  alone w -> spaced w -> cw_tick w = r :: rest -> s_ID r ∉ cw_inflight w ->
  spaced (MkCronWorld (cw_rows w) (cw_now w) rest ({[s_ID r]} ∪ cw_inflight w) (cw_fires w ++ [MkFireRun r Launched]) (cw_log w)).
Proof.
  intros [_ Hm _ _ _] [Hk Hr Ht Hs Hl] Et Hin. rewrite Hm in Hin.
  split; cbn [cw_rows cw_tick cw_fires cw_log]; [done| | | |done].
  - intros id row m Hrow Hid. rewrite fmap_app, elem_of_app in Hid. eapply Hr; [done|tauto].
  - intros row Hrow Hid. rewrite fmap_app, elem_of_app in Hid. apply Ht; [rewrite Et; by right|tauto].
  - apply Forall_app. split; [done|]. apply Forall_singleton. apply Ht; [rewrite Et; by left|done].
Qed.

Lemma spaced_step a w w' : (forall s z t, t < next s z t) -> sorts a -> calm_step a w = true -> alone w -> spaced w -> step a w = Some w' -> spaced w'.
Proof.
  intros Hnext Ha Hc Hal Hsp. pose proof Hsp as [Hk Hr Ht Hs Hl]. destruct a as [now|order| |i|i io status errMsg|i|f]; cbn [cron_step calm_step] in *.
  - destruct (_ <=? _); [|done]. intros [= <-]. by split.
  - destruct (cw_tick w); [|done]. intros [= <-]. split; cbn [cw_rows cw_tick cw_fires cw_log]; try done. intros r Hin Hid.
    apply in_tick in Hin as ((_ & n & En & _) & id & Hrow); [|done]. pose proof (Hk _ _ Hrow) as <-. unfold slot. rewrite En. by eapply Hr.
  - destruct (cw_tick w) as [|r rest] eqn:Et; [done|]. case_bool_decide as Hin; intros [= <-]; [|by apply spaced_launch].
    split; cbn [cw_rows cw_tick cw_fires cw_log]; try done. intros row Hrow. apply Ht. by right.
  - destruct (cw_fires w !! i) as [[r []]|] eqn:Ei; try done. intros [= <-]. by apply spaced_begin.
  - destruct io; [done|]. destruct (cw_fires w !! i) as [[r [|ranAt nextAt|]]|] eqn:Ei; try done. intros [= <-]. by apply spaced_persist.
  - destruct (cw_fires w !! i) as [[r []]|] eqn:Ei; try done. intros [= <-]. apply spaced_leave; [done..|]. intros r' Hr'.
    rewrite forallb_forall in Hc. apply list_elem_of_In in Hr'. specialize (Hc _ Hr'). by apply negb_true_iff, bool_decide_eq_false in Hc.
  - done.
Qed.

Lemma spaced_run l : (forall s z t, t < next s z t) -> forall w w', Forall sorts l -> calm l w = true -> alone w -> spaced w -> run l w = Some w' -> spaced w'.
Proof.
  intros Hnext. induction l as [|a l IH]; intros w w' Hs Hc Hal Hsp; [by intros [= <-]|]. apply Forall_cons in Hs as [Ha Hs]. cbn [cron_run calm] in *.
  apply andb_true_iff in Hc as [Hca Hc]. destruct (step a w) as [w1|] eqn:E; [|done]. cbn [mbind option_bind].
  apply IH; [done..|by eapply alone_step|by eapply spaced_step].
Qed.

Lemma spaced_start t now : (forall id r, t !! id = Some r -> s_ID r = id) -> spaced (cron_start t now).
Proof. intros Hk. split; cbn; [done| | |constructor|constructor]; intros; [constructor|set_solver]. Qed.

(** C12. However ticks, runs, edits and boots interleave, no schedule is ever
    run twice at the same time; the marks the ticks look at are exactly those of
    the runs in flight; and every run that was begun was of an enabled schedule
    whose slot had come. *)
Theorem a_schedule_runs_alone t now l w :
  Forall sorts l -> run l (cron_start t now) = Some w ->
  NoDup (fire_id <$> cw_fires w) /\ (forall id, id ∈ cw_inflight w <-> id ∈ fire_id <$> cw_fires w) /\
  Forall (fun f => was_due (cw_now w) (fr_row f)) (cw_fires w) /\
  Forall (fun e : string * Z * Z => e.1.2 <= e.2 <= cw_now w) (cw_log w).
Proof. intros Hs Hr. by destruct (alone_run l _ w Hs (alone_start t now) Hr). Qed.

End Machine.

(* ------------------------------------------------------------------ *)
(** ** What a run leaves *)

(** What a run holds: reservations of storage, workers, bound executions. *)
Definition held (es : list run_effect) : Z * Z * Z :=
  foldr (fun x '(leases, workers, runs) =>
    match x with
    | Leased => (leases + 1, workers, runs) | LeaseBack => (leases - 1, workers, runs)
    | Taken => (leases, workers + 1, runs) | GivenBack _ => (leases, workers - 1, runs)
    | BoundRun _ _ _ _ _ => (leases, workers, runs + 1) | UnboundRun => (leases, workers, runs - 1)
    | _ => (leases, workers, runs)
    end) (0, 0, 0) es.

Section Fires.
Context {sched zone : Type} (parse : string -> option sched) (load : string -> option zone) (utc : zone)
  (next : sched -> zone -> Z -> Z).

Lemma held_stored_log execID fnID stderr es : held (stored_log execID fnID stderr ++ es) = held es.
Proof. unfold stored_log. case_bool_decide; [done|]. unfold held. cbn [app foldr]. by destruct (foldr _ _ es) as [[? ?] ?]. Qed.

Lemma held_finalized row counted cold env b es : held ((finalized_row row counted cold env b).2 ++ es) = held es.
Proof.
  unfold finalized_row, held. destruct (n_metrics env); [destruct (FinalizeExecution _ _ _ _ _ _ _) as [b' [[[? ?] ?]|]]|];
    cbn [app foldr snd]; by destruct (foldr _ _ es) as [[? ?] ?].
Qed.

Definition is_record_of (e : fire_env) (fn : Function_) (status errMsg : string) (ranAt : Z) (row : ExecutionRow) : Prop :=
  x_ID row = n_execID (fe_run e) /\ x_FunctionID row = fn_ID fn /\ x_Status row = status /\ x_Error row = errMsg /\
  x_StartedAt row = ranAt /\ x_Trigger row = Some "cron"%string.

Lemma recordExecution_spec e fn status errMsg sc ranAt stderr b b' rec :
  recordExecution e fn status errMsg sc ranAt stderr b = (b', rec) ->
  (exists row, omap row_queued rec = [row] /\ is_record_of e fn status errMsg ranAt row) /\ forall es, held (rec ++ es) = held es.
Proof.
  unfold recordExecution. set (row := MkRow _ _ _ _ _ _ _ _ _ _ _ _ _ _ _ _).
  pose proof (finalized_row_rows row false false (fe_run e) b) as Hrows. pose proof (held_finalized row false false (fe_run e) b) as Hheld.
  destruct (finalized_row _ _ _ _ _) as [b1 es1]. destruct Hrows as [Hrows _]. cbn [snd] in Hheld. intros [= <- <-]. split.
  - exists row. rewrite omap_app, Hrows, stored_log_rows. done.
  - intros es. by rewrite <- app_assoc, Hheld, held_stored_log.
Qed.

(** Every run of a schedule that ends gives the schedule its next time, a
    status, and gives back everything it took, whatever failed on the way; a
    run that reached the function is recorded once, as a success exactly when
    the schedule says ok and otherwise with the error the schedule gets, and
    one that did not reach it is not recorded. *)
Theorem fired_runs_are_settled row ranAt e b f es b' :
  fireCron parse load utc next row ranAt e b = Some (f, es, b') ->
  fd_nextAt f = next_of parse load utc next row ranAt /\ held es = (0, 0, 0) /\
  if existsb is_sent es then
    exists fn x, fe_function e = Some fn /\ omap row_queued es = [x] /\
      (fd_status f = "ok" /\ fd_error f = "" /\ is_record_of e fn "success" "" ranAt x \/
       fd_status f = "failed" /\ is_record_of e fn "error" (fd_error f) ranAt x)
  else fd_status f = "failed"%string /\ omap row_queued es = [].
Proof.
  unfold fireCron, next_of. destruct (next_after _ _ _ _ row ranAt) as [nextAt|]; [|by intros [= <- <- <-]].
  destruct (fe_function e) as [fn|]; [|by intros [= <- <- <-]].
  destruct (fe_lease e); cbn [negb]; [|by intros [= <- <- <-]].
  destruct (n_acquire (fe_run e)) as [[cold w]|err]; [|by intros [= <- <- <-]].
  destruct (Dispatch _ _ _ _ _) as [[[w' [payload|err]] stderr]|]; [| |done].
  - destruct (answer_of payload) as [[sc h] body]. set (code := if sc =? 0 then 200 else sc). destruct (500 <=? code).
    all: destruct (recordExecution _ _ _ _ _ _ _ _) as [b1 rec] eqn:Er; intros [= <- <- <-];
      apply recordExecution_spec in Er as [(x & Hx & Hr) Hh]; split; [done|]; split; [cbn; by rewrite Hh|]; cbn [app existsb is_sent orb];
      exists fn, x; split; [done|]; split; [cbn; by rewrite omap_app, Hx|]; first [by left|by right].
  - destruct (recordExecution _ _ _ _ _ _ _ _) as [b1 rec] eqn:Er. intros [= <- <- <-].
    apply recordExecution_spec in Er as [(x & Hx & Hr) Hh]. split; [done|]. split; [cbn; by rewrite Hh|]. cbn [app existsb is_sent orb].
    exists fn, x. split; [done|]. split; [cbn; by rewrite omap_app, Hx|]. by right.
Qed.
End Fires.

(* ------------------------------------------------------------------ *)
(** ** What is stored *)

(** Everything that changes the table, with what each call was given. *)
Inductive cron_op :=
| OCreate (known : bool) (fnID : string) (req : option cronRequest) (io : bool) (id : string) (now : Z)
| OUpdate (fnID : string) (read : option CronSchedule) (req : option cronRequest) (io : bool) (now : Z)
| ODelete (fnID id : string) (io_read io_write : bool)
| OUpsert (owner : res Z string) (req : option upsertInternalRequest) (list_io look_io io : bool) (id : string) (now : Z) (t_listed t_looked : crons)
| ORun (io : bool) (id : string) (ranAt now : Z) (f : fired)
| OBoot (list_io : bool) (io : string -> bool) (now : Z).

Section Stored.
Context {sched zone : Type} (parse : string -> option sched) (load : string -> option zone) (utc : zone)
  (next : sched -> zone -> Z -> Z).

Definition apply_cron (o : cron_op) (t : crons) : crons :=
  match o with
  | OCreate known fnID req io id now => (CronCreate parse load utc next known fnID req io id now t).1
  | OUpdate fnID read req io now => (CronUpdate parse load utc next fnID read req io now t).1
  | ODelete fnID id io_read io_write => (CronDelete fnID id io_read io_write t).1
  | OUpsert owner req list_io look_io io id now t_listed t_looked =>
    (UpsertInternal parse load utc next owner req list_io look_io io id now t_listed t_looked t).1
  | ORun io id ranAt now f => persistResult io id ranAt now f t
  | OBoot list_io io now => recomputeNextRunOnBoot parse load utc next list_io io now t
  end.

(** The schedule can be computed, its payload is JSON, and it has a time to
    run when it is enabled. *)
Record valid_cron (r : CronSchedule) : Prop := {
  vc_expr : is_Some (parse (s_CronExpr r));
  vc_zone : is_Some (resolveTZ load utc (s_Timezone r));
  vc_payload : is_Some (unmarshal (bytes (s_Payload r)));
  vc_next : s_Enabled r = true -> is_Some (s_NextRunAt r) }.

Definition valid_crons (t : crons) : Prop := map_Forall (fun _ => valid_cron) t.

(** A request's payload as the decoder can have made it. *)
Definition payload_decoded (p : option json) : Prop := match p with Some v => json_ok (Z.to_nat 10000) v = true | None => True end.

(** The row an update read was a valid one. *)
Definition op_given (o : cron_op) : Prop :=
  match o with
  | OCreate _ _ req _ _ _ => match req with Some q => payload_decoded (cq_Payload q) | None => True end
  | OUpdate _ read req _ _ => match read with Some r => valid_cron r | None => True end /\
                              match req with Some q => payload_decoded (cq_Payload q) | None => True end
  | OUpsert _ req _ _ _ _ _ _ _ => match req with Some q => payload_decoded (up_Payload q) | None => True end
  | _ => True
  end.

Hypothesis utc_known : is_Some (load "UTC"%string).

Lemma utc_resolves : is_Some (resolveTZ load utc "UTC").
Proof. destruct utc_known as [z E]. unfold resolveTZ. change (trimSpace "UTC") with "UTC"%string. cbn. rewrite E. by eexists. Qed.

Lemma resolved_again name z tz : resolveTZ load utc name = Some (z, tz) -> is_Some (resolveTZ load utc tz).
Proof.
  unfold resolveTZ at 1. case_bool_decide as E; [intros [= <- <-]; exact utc_resolves|]. destruct (load (trimSpace name)) as [z'|] eqn:El; [|done].
  intros [= <- <-]. unfold resolveTZ. rewrite trimSpace_idem, bool_decide_eq_false_2, El by done. by eexists.
Qed.

Lemma encoded_is_json p s : payload_decoded p -> encodePayload p = Some s -> is_Some (unmarshal (bytes s)).
Proof.
  assert (is_Some (unmarshal (bytes "{}"))) as H0 by (by eexists; vm_compute).
  intros Hp. destruct p as [v|]; [|by intros [= <-]]. assert (Some (of_bytes (marshal v)) = Some s -> is_Some (unmarshal (bytes s))) as Hv.
  { intros [= <-]. rewrite bytes_of_bytes by apply marshal_bytes. rewrite unmarshal_marshal by done. by eexists. }
  destruct v as [|b|lit|v|l|l]; cbn [encodePayload]; try exact Hv; [by intros [= <-]|].
  case_bool_decide; [by intros [= <-]|]. destruct (unmarshal (bytes (trimSpace v))) as [u|] eqn:E; [|done]. intros [= <-]. rewrite E. by eexists.
Qed.

Lemma valid_defaults r : valid_cron r -> valid_cron (with_defaults r).
Proof.
  intros [He Hz Hp Hn]. unfold with_defaults.
  rewrite (bool_decide_eq_false_2 (s_Payload r = ""%string)) by (intros E; rewrite E in Hp; by destruct Hp). case_bool_decide; [|by split]. split; cbn; [done|exact utc_resolves|done|done].
Qed.

Lemma valid_insert r t io known t' : valid_cron r -> valid_crons t -> insert_cron io known r t = Ok t' -> valid_crons t'.
Proof. intros Hr Ht. unfold insert_cron. destruct io; [done|]. destruct (_ || _); [done|]. destruct known; [|done]. intros [= <-]. by apply map_Forall_insert_2. Qed.

Lemma valid_alter (f : CronSchedule -> CronSchedule) k t : (forall r, valid_cron r -> valid_cron (f r)) -> valid_crons t -> valid_crons (alter f k t).
Proof.
  intros Hf Ht k' r Hr. apply lookup_alter_Some in Hr as [(<- & old & Hold & ->)|[_ Hr]]; [|by eapply Ht]. apply Hf. by eapply Ht.
Qed.

Lemma valid_written r io now t t' : valid_cron r -> valid_crons t -> UpdateCronSchedule io now r t = Ok t' -> valid_crons t'.
Proof.
  intros [He Hz Hp Hn] Ht. unfold UpdateCronSchedule. destruct io; [done|]. intros [= <-]. apply valid_alter; [|done].
  intros old _. split; cbn; [done| |done|done]. case_bool_decide; [exact utc_resolves|done].
Qed.

Lemma valid_in_place r io now t t' : valid_cron r -> valid_crons t -> updateCronScheduleInPlace io now r t = Ok t' -> valid_crons t'.
Proof. intros [He Hz Hp Hn] Ht. unfold updateCronScheduleInPlace. destruct io; [done|]. intros [= <-]. apply valid_alter; [|done]. intros old _. by split. Qed.

(** An edit of a valid row is valid, and does not panic. *)
Lemma valid_edited q now r : payload_decoded (cq_Payload q) -> valid_cron r ->
  match edited parse load utc next q now r with Ok r' => valid_cron r' | Err panics => panics = false end.
Proof.
  intros Hq [He Hz Hp Hn]. unfold edited. set (expr := trimSpace (cq_CronExpr q)).
  set (new_expr := negb (bool_decide (expr = "")) && negb (bool_decide (expr = s_CronExpr r))).
  destruct (new_expr && match parse expr with None => true | Some _ => false end) eqn:Ee; [done|].
  set (r1 := if new_expr then _ else r).
  assert (valid_cron r1) as [He1 Hz1 Hp1 Hn1].
  { unfold r1. destruct new_expr; [|done]. split; cbn; try done. destruct (parse expr); [by eexists|done]. }
  set (tz := trimSpace (cq_Timezone q)). set (new_tz := negb (bool_decide (tz = "")) && negb (bool_decide (tz = s_Timezone r1))).
  destruct (new_tz && match resolveTZ load utc tz with None => true | Some _ => false end) eqn:Et; [done|].
  set (r2 := if new_tz then _ else r1).
  assert (valid_cron r2) as [He2 Hz2 Hp2 Hn2].
  { unfold r2. destruct new_tz; [|done]. split; cbn; try done. destruct (resolveTZ load utc tz); [by eexists|done]. }
  set (r3 := match cq_Enabled q with Some b => r2 <| s_Enabled := b |> | None => r2 end).
  assert (s_CronExpr r3 = s_CronExpr r2 /\ s_Timezone r3 = s_Timezone r2 /\ s_Payload r3 = s_Payload r2 /\ s_NextRunAt r3 = s_NextRunAt r2)
    as (H3e & H3z & H3p & H3n) by (unfold r3; by destruct (cq_Enabled q)).
  destruct (match cq_Payload q with None => Some (s_Payload r3) | p => encodePayload p end) as [payload|] eqn:Epay; [|done].
  assert (is_Some (unmarshal (bytes payload))) as Hpay.
  { destruct (cq_Payload q); [by eapply encoded_is_json|]. injection Epay as <-. by rewrite H3p. }
  destruct (new_expr || new_tz || _) eqn:Enew.
  - destruct He2 as [sc Esc], Hz2 as [[z name] Ez]. change (s_CronExpr (r3 <| s_Payload := payload |>)) with (s_CronExpr r3).
    change (s_Timezone (r3 <| s_Payload := payload |>)) with (s_Timezone r3). rewrite H3e, H3z, Esc, Ez.
    split; cbn; [by rewrite H3e, Esc|by rewrite H3z, Ez|done|by eexists].
  - split; cbn; [by rewrite H3e|by rewrite H3z|done|]. intros Hen. rewrite H3n. apply Hn2. apply orb_false_iff in Enew as [_ Enew].
    change (s_Enabled (r3 <| s_Payload := payload |>)) with (s_Enabled r3) in Enew. rewrite Hen in Enew. cbn in Enew. by apply negb_false_iff.
Qed.
Lemma valid_create known fnID q io id now t : payload_decoded (cq_Payload q) -> valid_crons t ->
  valid_crons (CronCreate parse load utc next known fnID (Some q) io id now t).1.
Proof.
  intros Hq Ht. unfold CronCreate. destruct known; [|done]. cbn [negb]. case_bool_decide; [done|].
  destruct (parse _) as [sc|] eqn:Ep; [|done]. destruct (resolveTZ _ _ _) as [[z tz]|] eqn:Ez; [|done].
  destruct (encodePayload _) as [payload|] eqn:Epay; [|done]. destruct (InsertCronSchedule _ _ _ _ _ _) as [t'|] eqn:Ei; [|done].
  cbn [fst]. unfold InsertCronSchedule in Ei. eapply valid_insert; [|exact Ht|exact Ei].
  assert (forall r, valid_cron r -> valid_cron (with_defaults r <| s_CreatedAt := now |> <| s_UpdatedAt := now |>)) as Hst
    by (intros r Hr; by destruct (valid_defaults r Hr)).
  apply Hst. cbn [s_ID]. rewrite bool_decide_eq_true_2 by done.
  split; cbn; [by rewrite Ep|by eapply resolved_again|by eapply encoded_is_json|by eexists].
Qed.

Lemma valid_upserted found io known id now r t t' k : valid_cron r -> valid_crons t ->
  UpsertCronScheduleByName found io known id now r t = Ok (t', k) -> valid_crons t'.
Proof.
  intros Hr%valid_defaults Ht. unfold UpsertCronScheduleByName. set (r1 := with_defaults r) in *.
  assert (forall k, valid_cron (r1 <| s_ID := k |>)) as Hk by (intros ?; by destruct Hr).
  destruct found as [existing|].
  - destruct (updateCronScheduleInPlace _ _ _ _) eqn:Eu; [|done]. intros [= <- <-]. by eapply (valid_in_place (r1 <| s_ID := existing |>)).
  - set (r2 := if bool_decide (s_ID r1 = ""%string) then r1 <| s_ID := id |> else r1).
    assert (valid_cron r2) as Hr2 by (unfold r2; by case_bool_decide).
    destruct (insert_cron _ _ _ _) as [t1|[| |]] eqn:Ei; [| |done..].
    + intros [= <- <-]. eapply valid_insert; [|exact Ht|exact Ei]. by destruct Hr2.
    + destruct (named _ _ _) as [raced|]; [|done]. destruct (updateCronScheduleInPlace _ _ _ _) eqn:Eu; [|done]. intros [= <- <-].
      eapply (valid_in_place (r2 <| s_ID := raced |>)); [|exact Ht|exact Eu]. by destruct Hr2.
Qed.

Lemma valid_boot list_io io now t : valid_crons t -> valid_crons (recomputeNextRunOnBoot parse load utc next list_io io now t).
Proof.
  intros Ht. unfold recomputeNextRunOnBoot. destruct list_io; [done|].
  assert (Forall valid_cron (snd <$> map_to_list t)) as Hl.
  { apply Forall_fmap, Forall_forall. intros [k r] Hin. apply elem_of_map_to_list in Hin. by eapply Ht. }
  revert t Ht Hl. intros t. generalize (snd <$> map_to_list t). intros l. revert t. induction l as [|r l IH]; intros t Ht Hl; [done|].
  apply Forall_cons in Hl as [Hr Hl]. cbn [foldl]. apply IH; [|done]. unfold boot_row. destruct (s_Enabled r); [|done]. cbn [negb].
  destruct (next_after _ _ _ _ r now) as [n|]; [|done]. destruct (match s_NextRunAt r with None => true | Some m => _ end); [|done].
  destruct (UpdateCronSchedule _ _ _ _) eqn:Eu; [|done]. eapply valid_written; [|exact Ht|exact Eu]. destruct Hr. by split.
Qed.

(** C21. Whatever is asked of the table of schedules, by handlers, functions,
    runs or a boot: every schedule in it can be computed, has a payload that is
    JSON, and has a time to run when it is enabled; and an edit of such a
    schedule never panics. *)
Theorem stored_schedules_stay_valid o t :
  op_given o -> valid_crons t ->
  valid_crons (apply_cron o t) /\
  match o with OUpdate fnID read req io now => (CronUpdate parse load utc next fnID read req io now t).2 <> 0 | _ => True end.
Proof.
  intros Ho Ht. destruct o as [known fnID req io id now|fnID read req io now|fnID id io_read io_write| |io id ranAt now f|list_io io now];
    cbn [apply_cron op_given] in *.
  - split; [|done]. destruct req as [q|]; [by apply valid_create|]. unfold CronCreate. by destruct known.
  - destruct Ho as [Hread Hq]. unfold CronUpdate. destruct read as [r|]; [|done]. case_bool_decide; [|done]. cbn [negb].
    destruct req as [q|]; [|done]. pose proof (valid_edited q now r Hq Hread) as He. destruct (edited _ _ _ _ _ _ _) as [r'|panics]; [|by subst].
    destruct (UpdateCronSchedule _ _ _ _) eqn:Eu; [|done]. split; [|done]. by eapply (valid_written r').
  - split; [|done]. unfold CronDelete. destruct (GetCronSchedule _ _ _); [|done]. case_bool_decide; [|done].
    unfold DeleteCronSchedule. destruct io_write; [done|]. by apply map_Forall_delete.
  - split; [|done]. unfold UpsertInternal. destruct owner as [fnID|]; [|done]. destruct req as [q|]; [|done]. destruct (_ || _); [done|].
    destruct (parse _) as [sc|] eqn:Ep; [|done]. destruct (resolveTZ _ _ _) as [[z tz]|] eqn:Ez; [|done].
    destruct (encodePayload _) as [payload|] eqn:Epay; [|done]. destruct (declared_by _ _ _) as [declared fresh]. destruct (_ && _); [done|].
    destruct look_io; [done|]. destruct (UpsertCronScheduleByName _ _ _ _ _ _ _) as [[t' k]|] eqn:Eu; [|done].
    eapply valid_upserted; [|exact Ht|exact Eu].
    split; cbn; [by rewrite Ep|by eapply resolved_again|by eapply encoded_is_json|intros ->; by eexists].
  - split; [|done]. unfold persistResult, UpdateCronAfterRun. destruct io; [done|]. apply valid_alter; [|done]. intros r [He Hz Hp Hn].
    split; cbn; [done..|by eexists].
  - split; [by apply valid_boot|done].
Qed.
End Stored.

(* ------------------------------------------------------------------ *)
(** ** A calendar *)

(** Every so many seconds: a schedule is its period. *)
Definition every_parse (expr : string) : option Z :=
  if bool_decide (expr = "* * * * *") then Some minute else if bool_decide (expr = "0 * * * *") then Some (60 * minute) else None.
Definition every_load (name : string) : option unit := if bool_decide (name = "UTC"%string) then Some tt else None.
Definition every_next (s : Z) (_ : unit) (t : Z) : Z := (t / Z.max 1 s + 1) * Z.max 1 s.

Lemma every_next_later s z t : t < every_next s z t.
Proof. unfold every_next. pose proof (Z.mul_succ_div_gt t (Z.max 1 s) ltac:(lia)). lia. Qed.

Definition sample_cron (next : Z) : CronSchedule :=
  MkCron "c" "f" "* * * * *" "UTC" true None (Some next) "" "" "{}" "" 0 0.
Definition sample_crons : crons := {[ "c"%string := sample_cron minute ]}.

Notation every_run := (cron_run every_parse every_load tt every_next).

(** One slot after the other; the second tick finds the first run at work. *)
Definition two_slots : list cron_action :=
  [ATime minute; ATick id; ALaunch; ABegin 0; ATime (90 * second); ATick id; ALaunch; APersist 0 false "ok" ""; ALeave 0;
   ATime (2 * minute); ATick id; ALaunch; ABegin 0].

Lemma id_sorts (l : list cron_action) : Forall (fun a => match a with ATick order => order = id | _ => True end) l -> Forall sorts l.
Proof. intros Hl. eapply Forall_impl; [exact Hl|]. intros [] H; try done. cbn in *. by subst. Qed.

Lemma a_schedule_runs_alone_witness :
  exists w, every_run two_slots (cron_start sample_crons 0) = Some w /\ length (cw_log w) = 2%nat /\ NoDup (fire_id <$> cw_fires w).
Proof.
  assert (exists w, every_run two_slots (cron_start sample_crons 0) = Some w /\ length (cw_log w) = 2%nat) as (w & Hw & Hl).
  { eexists. split; [vm_compute; reflexivity|reflexivity]. }
  exists w. split; [exact Hw|]. split; [exact Hl|].
  apply (a_schedule_runs_alone every_parse every_load tt every_next sample_crons 0 two_slots w); [|exact Hw].
  apply id_sorts. repeat constructor.
Defined.


(** A tick that read its rows before a run wrote what it left, and comes to the
    row after the run took its mark away, runs the slot again. *)
Example stale_ticks_run_a_slot_twice :
  cw_log <$> every_run [ATime minute; ATick id; ALaunch; ABegin 0; ATime (90 * second); ATick id; APersist 0 false "ok" ""; ALeave 0;
                        ALaunch; ABegin 0] (cron_start sample_crons 0)
  = Some [("c", minute, 90 * second); ("c", minute, minute)]%string.
Proof. vm_compute. reflexivity. Qed.

(** What is set while a run is at work is lost: the schedule has the new
    expression and the time of the old. *)
Definition edit_request : option cronRequest := Some (MkCronRequest "0 * * * *" "" None None).
Definition edit (now : Z) (t : crons) : crons :=
  (CronUpdate every_parse every_load tt every_next "f" (t !! "c"%string) edit_request false now t).1.

Example edits_during_a_run_lose_their_time :
  ((fun w => (fun r => (s_CronExpr r, s_NextRunAt r)) <$> cw_rows w !! "c"%string)
     <$> every_run [ATime minute; ATick id; ALaunch; ABegin 0; ATable (edit minute); APersist 0 false "ok" ""] (cron_start sample_crons 0),
   (fun r => (s_CronExpr r, s_NextRunAt r)) <$> edit minute sample_crons !! "c"%string)
  = (Some (Some ("0 * * * *", Some (2 * minute))), Some ("0 * * * *", Some (60 * minute)))%string.
Proof. vm_compute. reflexivity. Qed.

(** Package cron gives the zero time for an expression that never comes about;
    the schedule is then due at every tick. *)
Definition zero_time : Z := -62135596800 * second.

Example impossible_schedules_never_rest :
  cw_log <$> cron_run (fun _ => Some tt) every_load tt (fun _ _ _ => zero_time)
    [ATime minute; ATick id; ALaunch; ABegin 0; APersist 0 false "ok" ""; ALeave 0; ATime (90 * second); ATick id; ALaunch; ABegin 0;
     APersist 0 false "ok" ""; ALeave 0; ATime (2 * minute); ATick id; ALaunch; ABegin 0] (cron_start sample_crons 0)
  = Some [("c", zero_time, 2 * minute); ("c", zero_time, 90 * second); ("c", minute, minute)]%string.
Proof. vm_compute. reflexivity. Qed.

(** A run of the sample against a worker that answers 201. *)
Definition sample_fire : fire_env :=
  MkFire (Some (sample_function "f" "nightly")) "" "" "" true "tr_1"
    (MkRun (Ok (true, small_worker)) "ex_1" "sp_1" 0 12 Written (MkWait (framed answer_one) [] Delivered) [] (fun _ => "boom"%string) true true).

Lemma fired_runs_are_settled_witness :
  exists f es b x, fireCron every_parse every_load tt every_next (sample_cron minute) minute sample_fire ∅ = Some (f, es, b) /\
    fd_nextAt f = 2 * minute /\ held es = (0, 0, 0) /\ omap row_queued es = [x] /\ x_Status x = "success"%string.
Proof.
  assert (exists f es b, fireCron every_parse every_load tt every_next (sample_cron minute) minute sample_fire ∅ = Some (f, es, b) /\
    existsb is_sent es = true /\ fd_status f = "ok"%string) as (f & es & b & E & Hs & Hok).
  { do 3 eexists. split; [vm_compute; reflexivity|]. split; vm_compute; reflexivity. }
  pose proof (fired_runs_are_settled every_parse every_load tt every_next (sample_cron minute) minute sample_fire ∅ f es b E) as (Hn & Hh & H).
  rewrite Hs, Hok in H. destruct H as (fn & x & _ & Hx & [(_ & _ & _ & _ & Hst & _)|[[=] _]]).
  exists f, es, b, x. split; [exact E|]. split; [rewrite Hn; vm_compute; reflexivity|]. split; [exact Hh|]. split; [exact Hx|exact Hst].
Defined.

Definition sample_create : cron_op :=
  OCreate true "f" (Some (MkCronRequest " * * * * * " "" None (Some (JObject [("n", JNumber "1")]))))%string false "c" minute.

Lemma stored_schedules_stay_valid_witness :
  valid_crons every_parse every_load tt (apply_cron every_parse every_load tt every_next sample_create ∅) /\
  (s_CronExpr <$> apply_cron every_parse every_load tt every_next sample_create ∅ !! "c"%string) = Some "* * * * *"%string.
Proof.
  split; [|vm_compute; reflexivity].
  apply (stored_schedules_stay_valid every_parse every_load tt every_next ltac:(vm_compute; eexists; reflexivity) sample_create ∅).
  - vm_compute. reflexivity.
  - apply map_Forall_empty.
Defined.
