(* ===== verification/Hub.v ===== *)
(** * The event hub
    ([server/events/hub.go])

    One broker fans what producers publish out to buffered channels, and drops
    for a subscriber whose channel is full.  A channel outlives its
    subscription: a reader drains it after it was closed.  The order in which a
    map of subscribers is walked is an argument. *)
From S2P Require Import Prelude GoText Json.
Open Scope Z_scope.

(** [e_Data]: the members when it is a [map[string]any], and [None] for a value
    of another type. *)
Record Event := MkHubEvent { e_Type : string; e_Data : option (gmap string json) }.

Definition channel_cap : nat := 32.

(** The last three fields are history: what was received, what was published
    while the channel was subscribed, how much of it was dropped. *)
Record channel := MkChannel {
  ch_queue : list Event; ch_open : bool; ch_got : list Event; ch_seen : list Event; ch_missed : nat }.
#[export] Instance eta_channel : Eta channel := fun c => MkChannel (ch_queue c) (ch_open c) (ch_got c) (ch_seen c) (ch_missed c).

Record Hub := MkHub { hub_subscribers : gset nat; hub_closed : bool; hub_channels : gmap nat channel }.

Definition NewHub : Hub := MkHub ∅ false ∅.

(** [close]: panics on a closed channel. *)
Definition close_channel (s : nat) (cs : gmap nat channel) : option (gmap nat channel) :=
  c ← cs !! s;
  if ch_open c then Some (<[s := c <| ch_open := false |>]> cs) else None.

(** The send with its default branch; panics on a closed channel. *)
Definition send (ev : Event) (c : channel) : option channel :=
  if ch_open c then
    let c := c <| ch_seen ::= fun l => l ++ [ev] |> in
    Some (if (length (ch_queue c) <? channel_cap)%nat then c <| ch_queue ::= fun l => l ++ [ev] |> else c <| ch_missed ::= S |>)
  else None.

Definition new_channel (opened : bool) : channel := MkChannel [] opened [] [] 0.

(** [s]: the identity of the new subscription. *)
Definition subscribe (s : nat) (h : Hub) : Hub :=
  if hub_closed h then MkHub (hub_subscribers h) true (<[s := new_channel false]> (hub_channels h))
  else MkHub ({[s]} ∪ hub_subscribers h) false (<[s := new_channel true]> (hub_channels h)).

Definition unsubscribe (s : nat) (h : Hub) : option Hub :=
  if bool_decide (s ∈ hub_subscribers h) then
    cs ← close_channel s (hub_channels h);
    Some (MkHub (hub_subscribers h ∖ {[s]}) (hub_closed h) cs)
  else Some h.

Fixpoint close_walk (walk : list nat) (subs : gset nat) (cs : gmap nat channel) : option (gset nat * gmap nat channel) :=
  match walk with
  | [] => Some (subs, cs)
  | s :: walk => cs ← close_channel s cs; close_walk walk (subs ∖ {[s]}) cs
  end.

Definition Close (walk : list nat) (h : Hub) : option Hub :=
  if hub_closed h then Some h
  else '(subs, cs) ← close_walk walk (hub_subscribers h) (hub_channels h); Some (MkHub subs true cs).

Fixpoint publish_walk (ev : Event) (walk : list nat) (cs : gmap nat channel) : option (gmap nat channel) :=
  match walk with
  | [] => Some cs
  | s :: walk => c ← cs !! s; c ← send ev c; publish_walk ev walk (<[s := c]> cs)
  end.

Definition Publish (walk : list nat) (ev : Event) (h : Hub) : option Hub :=
  cs ← publish_walk ev walk (hub_channels h); Some (MkHub (hub_subscribers h) (hub_closed h) cs).

(** What a reader gets: an event, the end of a closed channel, or nothing yet. *)
Inductive reception := Received (ev : Event) | Ended | Waits.

Definition receive (s : nat) (h : Hub) : reception * Hub :=
  match hub_channels h !! s with
  | Some c =>
    match ch_queue c with
    | ev :: q => (Received ev, MkHub (hub_subscribers h) (hub_closed h)
                                 (<[s := c <| ch_queue := q |> <| ch_got ::= fun l => l ++ [ev] |>]> (hub_channels h)))
    | [] => (if ch_open c then Waits else Ended, h)
    end
  | None => (Waits, h)
  end.

(* ------------------------------------------------------------------ *)
(** ** The hub over time *)

Inductive hub_action :=
| HSubscribe (s : nat) | HUnsubscribe (s : nat) | HClose (walk : list nat) | HPublish (walk : list nat) (ev : Event) | HReceive (s : nat).

(** [None]: a panic. *)
Definition hub_step (a : hub_action) (h : Hub) : option Hub :=
  match a with
  | HSubscribe s => Some (subscribe s h)
  | HUnsubscribe s => unsubscribe s h
  | HClose walk => Close walk h
  | HPublish walk ev => Publish walk ev h
  | HReceive s => Some (receive s h).2
  end.

Fixpoint hub_run (l : list hub_action) (h : Hub) : option Hub :=
  match l with [] => Some h | a :: l => h ← hub_step a h; hub_run l h end.

(** A subscription is new, and a walk meets every subscriber once. *)
Definition hub_allowed (a : hub_action) (h : Hub) : Prop :=
  match a with
  | HSubscribe s => hub_channels h !! s = None
  | HClose walk | HPublish walk _ => Permutation walk (elements (hub_subscribers h))
  | _ => True
  end.

Fixpoint hub_fair (l : list hub_action) (h : Hub) : Prop :=
  match l with
  | [] => True
  | a :: l => hub_allowed a h /\ forall h', hub_step a h = Some h' -> hub_fair l h'
  end.

(* ------------------------------------------------------------------ *)
(** ** What a subscriber gets *)

(** In order, and everything but what was dropped. *)
Record channel_exact (c : channel) : Prop := {
  cx_order : sublist (ch_got c ++ ch_queue c) (ch_seen c);
  cx_count : length (ch_seen c) = (length (ch_got c) + length (ch_queue c) + ch_missed c)%nat;
  cx_cap : (length (ch_queue c) <= channel_cap)%nat }.

Record hub_ok (h : Hub) : Prop := {
  ho_channels : map_Forall (fun _ => channel_exact) (hub_channels h);
  ho_open : forall s, s ∈ hub_subscribers h <-> exists c, hub_channels h !! s = Some c /\ ch_open c = true;
  ho_closed : hub_closed h = true -> hub_subscribers h = ∅ }.

Lemma new_channel_exact opened : channel_exact (new_channel opened).
Proof. split; cbn; [constructor|done|lia]. Qed.

Lemma send_exact ev c : ch_open c = true -> channel_exact c ->
  exists c', send ev c = Some c' /\ channel_exact c' /\ ch_open c' = true /\ ch_seen c' = ch_seen c ++ [ev] /\
    (ch_missed c' = ch_missed c /\ ch_queue c' = ch_queue c ++ [ev] \/
     ch_missed c' = S (ch_missed c) /\ length (ch_queue c) = channel_cap /\ ch_queue c' = ch_queue c).
Proof.
  intros Ho [Hord Hcount Hcap]. unfold send. rewrite Ho. eexists. split; [reflexivity|]. cbn [ch_queue set_field].
  destruct (length (ch_queue c) <? channel_cap)%nat eqn:E; [apply Nat.ltb_lt in E|apply Nat.ltb_ge in E]; cbn in *.
  - split; [|split; [done|split; [done|by left]]]. split; cbn; [|rewrite !length_app; cbn; lia|rewrite length_app; cbn; lia].
    rewrite app_assoc. by apply sublist_app.
  - split; [|split; [done|split; [done|right; split; [done|split; [lia|done]]]]]. split; cbn; [|rewrite length_app; cbn; lia|lia].
    by apply sublist_inserts_r.
Qed.

Lemma publish_walk_spec ev walk : NoDup walk -> forall cs,
  (forall s, s ∈ walk -> exists c, cs !! s = Some c /\ ch_open c = true /\ channel_exact c) ->
  exists cs', publish_walk ev walk cs = Some cs' /\
    (forall s, s ∉ walk -> cs' !! s = cs !! s) /\ (forall s, s ∈ walk -> cs' !! s = cs !! s ≫= send ev).
Proof.
  induction 1 as [|s walk Hs Hnd IH]; intros cs Hcs.
  { exists cs. split; [done|]. split; [done|]. intros s Hs. by apply elem_of_nil in Hs. }
  destruct (Hcs s) as (c & Ec & Ho & Hx); [by left|]. destruct (send_exact ev c Ho Hx) as (c' & Ec' & Hx' & Ho' & _).
  cbn [publish_walk]. rewrite Ec. cbn [mbind option_bind]. rewrite Ec'. cbn [mbind option_bind].
  destruct (IH (<[s := c']> cs)) as (cs' & -> & Hout & Hin).
  { intros s' Hs'. assert (s <> s') by (by intros ->). rewrite lookup_insert_ne by done. apply Hcs. by right. }
  exists cs'. split; [done|]. split; intros s' Hs'.
  - apply not_elem_of_cons in Hs' as [Hne Hs']. rewrite Hout by done. by rewrite lookup_insert_ne.
  - apply elem_of_cons in Hs' as [->|Hs'].
    + rewrite Hout by done. rewrite lookup_insert_eq, Ec. cbn. by rewrite Ec'.
    + assert (s <> s') by (by intros ->). rewrite Hin by done. by rewrite lookup_insert_ne.
Qed.

Lemma close_channel_exact s c cs : cs !! s = Some c -> ch_open c = true -> close_channel s cs = Some (<[s := c <| ch_open := false |>]> cs).
Proof. intros E Ho. unfold close_channel. rewrite E. cbn. by rewrite Ho. Qed.

Lemma close_walk_spec walk : NoDup walk -> forall subs cs,
  (forall s, s ∈ walk -> exists c, cs !! s = Some c /\ ch_open c = true) ->
  exists cs', close_walk walk subs cs = Some (subs ∖ list_to_set walk, cs') /\
    (forall s, s ∉ walk -> cs' !! s = cs !! s) /\ (forall s, s ∈ walk -> cs' !! s = (fun c => c <| ch_open := false |>) <$> cs !! s).
Proof.
  induction 1 as [|s walk Hs Hnd IH]; intros subs cs Hcs.
  { exists cs. split; [cbn; f_equal; f_equal; set_solver|]. split; [done|]. intros s Hs. by apply elem_of_nil in Hs. }
  destruct (Hcs s) as (c & Ec & Ho); [by left|]. cbn [close_walk]. rewrite (close_channel_exact s c) by done. cbn [mbind option_bind].
  destruct (IH (subs ∖ {[s]}) (<[s := c <| ch_open := false |>]> cs)) as (cs' & -> & Hout & Hin).
  { intros s' Hs'. assert (s <> s') by (by intros ->). rewrite lookup_insert_ne by done. apply Hcs. by right. }
  exists cs'. split; [f_equal; f_equal; set_solver|]. split; intros s' Hs'.
  - apply not_elem_of_cons in Hs' as [Hne Hs']. rewrite Hout by done. by rewrite lookup_insert_ne.
  - apply elem_of_cons in Hs' as [->|Hs'].
    + rewrite Hout by done. rewrite lookup_insert_eq, Ec. done.
    + assert (s <> s') by (by intros ->). rewrite Hin by done. by rewrite lookup_insert_ne.
Qed.

Lemma hub_ok_publish h walk ev : hub_ok h -> Permutation walk (elements (hub_subscribers h)) ->
  exists h', Publish walk ev h = Some h' /\ hub_ok h' /\ hub_subscribers h' = hub_subscribers h /\ hub_closed h' = hub_closed h /\
    (forall s, s ∈ hub_subscribers h -> hub_channels h' !! s = hub_channels h !! s ≫= send ev) /\
    (forall s, s ∉ hub_subscribers h -> hub_channels h' !! s = hub_channels h !! s).
Proof.
  intros [Hc Ho Hcl] Hw. assert (forall s, s ∈ walk <-> s ∈ hub_subscribers h) as Hin by (intros s; rewrite Hw; apply elem_of_elements).
  assert (NoDup walk) as Hnd by (rewrite Hw; apply NoDup_elements).
  destruct (publish_walk_spec ev walk Hnd (hub_channels h)) as (cs' & E & Hout & Hs).
  { intros s Hs. apply Hin, Ho in Hs as (c & Ec & Hop). exists c. split; [done|]. split; [done|]. by eapply Hc. }
  unfold Publish. rewrite E. eexists. split; [reflexivity|]. cbn [hub_subscribers hub_closed hub_channels].
  assert (forall s, s ∉ hub_subscribers h -> cs' !! s = hub_channels h !! s) as Hout' by (intros s Hns; apply Hout; by rewrite Hin).
  assert (forall s, s ∈ hub_subscribers h -> exists c c', hub_channels h !! s = Some c /\ cs' !! s = Some c' /\ send ev c = Some c' /\ channel_exact c' /\ ch_open c' = true) as Hsent.
  { intros s Hs'. destruct (proj1 (Ho s) Hs') as (c & Ec & Hop). destruct (send_exact ev c Hop (Hc _ _ Ec)) as (c' & Ec' & Hx & Hop' & _).
    exists c, c'. rewrite Hs by (by apply Hin). rewrite Ec. done. }
  split; [|split; [done|split; [done|split; [intros s Hs'; by apply Hs, Hin|done]]]].
  split; cbn [hub_subscribers hub_closed hub_channels]; [| |done].
  - intros s c' Ec'. destruct (decide (s ∈ hub_subscribers h)) as [Hs'|Hs'].
    + destruct (Hsent s Hs') as (c & c1 & _ & E1 & _ & Hx & _). rewrite E1 in Ec'. by injection Ec' as <-.
    + rewrite Hout' in Ec' by done. by eapply Hc.
  - intros s. split.
    + intros Hs'. destruct (Hsent s Hs') as (c & c1 & _ & E1 & _ & _ & Hop). by exists c1.
    + intros (c' & Ec' & Hop). destruct (decide (s ∈ hub_subscribers h)) as [Hs'|Hs']; [done|]. rewrite Hout' in Ec' by done. apply Ho. by exists c'.
Qed.

Lemma closed_exact c : channel_exact c -> channel_exact (c <| ch_open := false |>).
Proof. by intros []. Qed.

Lemma hub_ok_subscribe s h : hub_ok h -> hub_channels h !! s = None -> hub_ok (subscribe s h).
Proof.
  intros [Hc Ho Hcl] Hs. unfold subscribe. destruct (hub_closed h) eqn:E.
  - split; cbn; [by apply map_Forall_insert_2; [apply new_channel_exact|]| |done]. intros s'. rewrite Ho. destruct (decide (s = s')) as [<-|Hne].
    + rewrite Hs, lookup_insert_eq. split; [by intros (c & [=] & _)|by intros (c & [= <-] & [=])].
    + by rewrite lookup_insert_ne.
  - split; cbn; [by apply map_Forall_insert_2; [apply new_channel_exact|]| |done]. intros s'. rewrite elem_of_union, elem_of_singleton, Ho.
    destruct (decide (s = s')) as [<-|Hne].
    + rewrite lookup_insert_eq. split; [intros _; by eexists|by left].
    + rewrite lookup_insert_ne by done. split; [by intros [->|]|by right].
Qed.

Lemma hub_ok_unsubscribe s h : hub_ok h -> exists h', unsubscribe s h = Some h' /\ hub_ok h'.
Proof.
  intros Hok. pose proof Hok as [Hc Ho Hcl]. unfold unsubscribe. case_bool_decide as Hs; [|by exists h].
  destruct (proj1 (Ho s) Hs) as (c & Ec & Hop). rewrite (close_channel_exact s c) by done. eexists. split; [reflexivity|].
  split; cbn; [by apply map_Forall_insert_2; [apply closed_exact; eapply Hc|]| |].
  - intros s'. rewrite elem_of_difference, elem_of_singleton, Ho. destruct (decide (s = s')) as [<-|Hne].
    + rewrite lookup_insert_eq. split; [by intros [_ []]|by intros (c' & [= <-] & [=])].
    + rewrite lookup_insert_ne by done. split; [by intros [H _]|by intros H].
  - intros E. rewrite Hcl in Hs by done. by apply elem_of_empty in Hs.
Qed.

Lemma hub_ok_close walk h : hub_ok h -> Permutation walk (elements (hub_subscribers h)) -> exists h', Close walk h = Some h' /\ hub_ok h' /\ hub_closed h' = true.
Proof.
  intros Hok Hw. pose proof Hok as [Hc Ho Hcl]. unfold Close. destruct (hub_closed h) eqn:E; [by exists h|].
  assert (forall s, s ∈ walk <-> s ∈ hub_subscribers h) as Hin by (intros s; rewrite Hw; apply elem_of_elements).
  destruct (close_walk_spec walk) with (subs := hub_subscribers h) (cs := hub_channels h) as (cs' & -> & Hout & Hs).
  { rewrite Hw. apply NoDup_elements. }
  { intros s Hs. by apply Ho, Hin. }
  assert (hub_subscribers h ∖ list_to_set walk = ∅) as -> by (apply set_eq; intros s; rewrite elem_of_difference, elem_of_list_to_set, Hin; set_solver).
  eexists. split; [reflexivity|]. split; [|done]. split; cbn; [| |done].
  - intros s c' Ec'. destruct (decide (s ∈ walk)) as [Hs'|Hs']; [|rewrite Hout in Ec' by done; by eapply Hc].
    rewrite Hs in Ec' by done. apply fmap_Some in Ec' as (c & Ec & ->). apply closed_exact. by eapply Hc.
  - intros s. split; [by intros ?%elem_of_empty|]. intros (c' & Ec' & Hop). destruct (decide (s ∈ walk)) as [Hs'|Hs'].
    + rewrite Hs in Ec' by done. by apply fmap_Some in Ec' as (c & _ & ->).
    + rewrite Hout in Ec' by done. exfalso. apply Hs', Hin, Ho. by exists c'.
Qed.

Lemma hub_ok_receive s h : hub_ok h -> hub_ok (receive s h).2.
Proof.
  intros Hok. pose proof Hok as [Hc Ho Hcl]. unfold receive. destruct (hub_channels h !! s) as [c|] eqn:Ec; [|done].
  destruct (ch_queue c) as [|ev q] eqn:Eq; [done|]. pose proof (Hc _ _ Ec) as [Hord Hcount Hcap]. rewrite Eq in *. cbn [length] in *. split; cbn; [| |done].
  - apply map_Forall_insert_2; [|done]. split; cbn; [by rewrite <- app_assoc|rewrite length_app; cbn; lia|lia].
  - intros s'. rewrite Ho. destruct (decide (s = s')) as [<-|Hne]; [|by rewrite lookup_insert_ne].
    rewrite lookup_insert_eq, Ec. split; intros (c' & [= <-] & Hop); by eexists.
Qed.

Lemma hub_ok_step a h : hub_ok h -> hub_allowed a h -> exists h', hub_step a h = Some h' /\ hub_ok h'.
Proof.
  intros Hok Ha. destruct a as [s|s|walk|walk ev|s]; cbn [hub_step hub_allowed] in *.
  - eexists. split; [reflexivity|]. by apply hub_ok_subscribe.
  - by apply hub_ok_unsubscribe.
  - destruct (hub_ok_close walk h Hok Ha) as (h' & E & Hok' & _). by exists h'.
  - destruct (hub_ok_publish h walk ev Hok Ha) as (h' & E & Hok' & _). by exists h'.
  - eexists. split; [reflexivity|]. by apply hub_ok_receive.
Qed.

Lemma sublist_whole {A} (l k : list A) : sublist l k -> length l = length k -> l = k.
Proof.
  induction 1 as [|x l k _ IH|x l k Hs _]; cbn; [done| |].
  - intros [= E]. by rewrite IH.
  - intros E. apply sublist_length in Hs. lia.
Qed.

(** C19. However publishers, readers, subscriptions and the shutdown interleave,
    the hub never sends on or closes a closed channel; what a subscriber has
    received and what still waits for it is, in order, what was published while
    it was subscribed less exactly what was dropped; nothing is dropped while
    fewer than 32 events wait; and once the hub is closed every channel is, so
    every reader comes to its end. *)
Theorem subscribers_miss_only_what_overflows l :
  hub_fair l NewHub ->
  exists h, hub_run l NewHub = Some h /\
    (forall s c, hub_channels h !! s = Some c ->
       sublist (ch_got c ++ ch_queue c) (ch_seen c) /\
       length (ch_seen c) = (length (ch_got c) + length (ch_queue c) + ch_missed c)%nat /\
       (ch_missed c = 0%nat -> ch_got c ++ ch_queue c = ch_seen c) /\
       (hub_closed h = true -> ch_open c = false)) /\
    (forall walk ev, Permutation walk (elements (hub_subscribers h)) ->
       exists h', Publish walk ev h = Some h' /\
         forall s, s ∈ hub_subscribers h -> exists c c', hub_channels h !! s = Some c /\ hub_channels h' !! s = Some c' /\
           (ch_missed c' = ch_missed c /\ ch_queue c' = ch_queue c ++ [ev] \/ length (ch_queue c) = channel_cap /\ ch_queue c' = ch_queue c)).
Proof.
  assert (forall h, hub_ok h -> hub_fair l h -> exists h', hub_run l h = Some h' /\ hub_ok h') as Hrun.
  { induction l as [|a l IH]; intros h Hok; cbn [hub_fair hub_run]; [by exists h|]. intros [Ha Hl].
    destruct (hub_ok_step a h Hok Ha) as (h1 & E & Hok1). rewrite E. by apply IH; [|apply Hl]. }
  intros Hf. destruct (Hrun NewHub) as (h & E & Hok); [split; cbn; [apply map_Forall_empty|intros s; rewrite lookup_empty; split; [by intros ?%elem_of_empty|by intros (? & [=] & _)]|done]|done|].
  exists h. split; [exact E|]. pose proof Hok as [Hc Ho Hcl]. split.
  - intros s c Ec. destruct (Hc _ _ Ec) as [Hord Hcount _]. split; [done|]. split; [done|]. split.
    + intros Hm. apply sublist_whole; [done|]. rewrite length_app. lia.
    + intros Hclosed. destruct (ch_open c) eqn:Eo; [|done]. exfalso. assert (s ∈ hub_subscribers h) as Hin by (apply Ho; by exists c).
      rewrite Hcl in Hin by done. by apply elem_of_empty in Hin.
  - intros walk ev Hw. destruct (hub_ok_publish h walk ev Hok Hw) as (h' & Ep & _ & _ & _ & Hs & _). exists h'. split; [done|].
    intros s Hin. destruct (proj1 (Ho s) Hin) as (c & Ec & Hop). destruct (send_exact ev c Hop (Hc _ _ Ec)) as (c' & Es & _ & _ & _ & Hq).
    exists c, c'. split; [done|]. rewrite Hs, Ec by done. split; [exact Es|]. destruct Hq as [Hq|(_ & Hl & Hq)]; [by left|by right].
Qed.

Definition tick_event : Event := MkHubEvent "metrics" None.

(** Two subscribers, one of them slow: the thirty-third event is dropped for it
    alone. *)
Definition slow_reader : list hub_action :=
  [HSubscribe 0; HSubscribe 1] ++ concat (repeat [HPublish [0%nat; 1%nat] tick_event; HReceive 1] 33) ++ [HUnsubscribe 0; HUnsubscribe 0; HClose [1%nat]].

Lemma repeat_fair h walk s n : (forall h', hub_subscribers h' = hub_subscribers h -> hub_allowed (HPublish walk tick_event) h') ->
  forall l, (forall h', hub_subscribers h' = hub_subscribers h -> hub_fair l h') ->
  forall h', hub_subscribers h' = hub_subscribers h -> hub_fair (concat (repeat [HPublish walk tick_event; HReceive s] n) ++ l) h'.
Proof.
  intros Hp l Hl. induction n as [|n IH]; [done|]. intros h1 E1. cbn [repeat concat app hub_fair]. split; [by apply Hp|].
  intros h2 E2. split; [done|]. intros h3 E3. apply IH. cbn in E2, E3. injection E3 as <-. unfold Publish in E2.
  destruct (publish_walk _ _ _); [|done]. cbn in E2. injection E2 as <-. unfold receive. cbn.
  destruct (_ !! _) as [c|]; [|done]. by destruct (ch_queue c).
Qed.

Lemma subscribers_miss_only_what_overflows_witness :
  exists h c, hub_run slow_reader NewHub = Some h /\ hub_channels h !! 0%nat = Some c /\
    length (ch_queue c) = 32%nat /\ ch_missed c = 1%nat /\ length (ch_seen c) = (length (ch_got c) + 32 + 1)%nat.
Proof.
  assert (hub_fair slow_reader NewHub) as Hf.
  { unfold slow_reader. cbn [app hub_fair]. split; [reflexivity|]. intros h1 [= <-]. split; [reflexivity|]. intros h2 [= <-].
    eapply repeat_fair; [| |reflexivity].
    - intros h' E. unfold hub_allowed. rewrite E. vm_compute. apply perm_swap || reflexivity.
    - intros h' E. cbn [hub_fair]. split; [done|]. intros h3 E3. split; [done|]. intros h4 E4. split; [|done].
      cbn [hub_step] in E3, E4. unfold unsubscribe in E3. rewrite E in E3.
      rewrite bool_decide_eq_true_2 in E3 by (vm_compute; done). destruct (close_channel _ _); [|done]. cbn in E3. injection E3 as <-.
      unfold unsubscribe in E4. rewrite bool_decide_eq_false_2 in E4 by (cbn; set_solver). injection E4 as <-. cbn. rewrite ?E. vm_compute. reflexivity. }
  destruct (subscribers_miss_only_what_overflows slow_reader Hf) as (h & E & Hc & _).
  assert (exists h c, hub_run slow_reader NewHub = Some h /\ hub_channels h !! 0%nat = Some c /\ length (ch_queue c) = 32%nat /\ ch_missed c = 1%nat)
    as (h' & c & E' & Ec & Hq & Hm) by (do 2 eexists; split; [vm_compute; reflexivity|]; split; [vm_compute; reflexivity|]; split; reflexivity).
  rewrite E in E'. injection E' as <-. exists h, c. split; [exact E|]. split; [exact Ec|]. split; [exact Hq|]. split; [exact Hm|].
  destruct (Hc 0%nat c Ec) as (_ & Hlen & _). rewrite Hq, Hm in Hlen. exact Hlen.
Defined.
