(* ===== verification/Sql.v ===== *)
(** * Patterns of SQLite

    The [LIKE] operator as the statements of [Webhooks] and [Accounts] use it,
    on byte strings. *)
From S2P Require Import Prelude GoText Url.
Open Scope Z_scope.

(** SQLite's [LIKE] on ASCII: [%] any text, [_] one character, letters in either
    case. *)
Fixpoint like (p : list Z) : list Z -> bool :=
  match p with
  | [] => fun t => match t with [] => true | _ => false end
  | c :: p =>
    if c =? 37 then fix any t := like p t || match t with [] => false | _ :: t => any t end
    else fun t => match t with
                  | [] => false
                  | d :: t => ((c =? 95) || (lower_byte c =? lower_byte d)) && like p t
                  end
  end.

Lemma like_any p t : like (37 :: p) t = true <-> exists a b, t = a ++ b /\ like p b = true.
Proof.
  assert (forall c t, like (37 :: p) (c :: t) = like p (c :: t) || like (37 :: p) t) as Hstep by done.
  assert (like (37 :: p) [] = like p [] || false) as Hnil by done.
  induction t as [|c t IH].
  - rewrite Hnil, orb_false_r. split; [by exists [], []|]. by intros (a & b & [-> ->]%eq_sym%app_eq_nil & H).
  - rewrite Hstep, orb_true_iff, IH. split.
    + intros [H|(a & b & -> & H)]; [by exists [], (c :: t)|by exists (c :: a), b].
    + intros (a & b & E & H). destruct a as [|a0 a]; [left; by rewrite E|right]. injection E as <- ->. by exists a, b.
Qed.

Lemma like_literal p q : Forall (fun c => c <> 37 /\ c <> 95) p -> forall t,
  like (p ++ q) t = true <-> exists m b, t = m ++ b /\ map lower_byte m = map lower_byte p /\ like q b = true.
Proof.
  induction 1 as [|c p [H37 H95] _ IH]; intros t.
  - split; [by exists [], t|]. intros (m & b & -> & Hm & H). apply map_eq_nil in Hm. by subst.
  - cbn [app like]. rewrite (proj2 (Z.eqb_neq c 37) H37), (proj2 (Z.eqb_neq c 95) H95). cbn [orb]. destruct t as [|d t].
    { split; [done|]. by intros ([|] & b & E & Hm & _). }
    rewrite andb_true_iff, IH, Z.eqb_eq. split.
    + intros [Hd (m & b & -> & Hm & H)]. exists (d :: m), b. split; [done|]. split; [cbn; by rewrite Hm, Hd|done].
    + intros ([|d' m] & b & E & Hm & H); [done|]. injection E as <- ->. injection Hm as Hd Hm. split; [done|]. by exists m, b.
Qed.
