(* ===== verification/Memo.v ===== *)
(** * A memo in front of a table

    What the session cache and the key cache of the gate have in common: rows
    that come and go, a memo of the answers, and readers that look a row up in
    one moment and store the answer in a later one.  A [book] is that state,
    [move] its steps; [memo_ok] bounds what the memo can outlive, and a key that
    is [gone] stays so. *)
From S2P Require Import Prelude.
Open Scope Z_scope.

(** [b_pend k n]: a reader that read the clock at [n] has found the row of [k]
    and has yet to store it; [b_hold k n]: a reader holds the memo's answer;
    [b_dead]: when the row was removed. *)
Record book := Book {
  b_live : string -> Prop;
  b_dead : gmap string Z;
  b_memo : gmap string Z;
  b_pend : string -> Z -> Prop;
  b_hold : string -> Z -> Prop;
  b_admitted : list (Z * string)
}.

Section Memo.
Context (ttl : Z) (Httl : 0 < ttl).

(** A reader at [n] may take the answer for [k] from the memo. *)
Definition fresh_in (m : gmap string Z) (k : string) (n : Z) : Prop := exists vu, m !! k = Some vu /\ n < vu.

(** [ins]: the keys a step may insert. *)
Inductive move (ins : string -> Prop) (now : Z) (b : book) : book -> Prop :=
| mv_shrink live memo pend hold :
    (forall k, live k <-> b_live b k) -> memo ⊆ b_memo b ->
    (forall k n, pend k n -> b_pend b k n) -> (forall k n, hold k n -> b_hold b k n) ->
    move ins now b (Book live (b_dead b) memo pend hold (b_admitted b))
| mv_read k n pend :
    b_live b k -> n <= now -> (forall k' n', pend k' n' -> b_pend b k' n' \/ (k' = k /\ n' = n)) ->
    move ins now b (Book (b_live b) (b_dead b) (b_memo b) pend (b_hold b) (b_admitted b))
| mv_store k n :
    b_pend b k n ->
    move ins now b (Book (b_live b) (b_dead b) (<[k := n + ttl]> (b_memo b)) (b_pend b) (b_hold b) (b_admitted b))
| mv_hit k n hold :
    fresh_in (b_memo b) k n -> n <= now -> (forall k' n', hold k' n' -> b_hold b k' n' \/ (k' = k /\ n' = n)) ->
    move ins now b (Book (b_live b) (b_dead b) (b_memo b) (b_pend b) hold (b_admitted b))
| mv_admit k n :
    (fresh_in (b_memo b) k n /\ n <= now) \/ b_hold b k n ->
    move ins now b (Book (b_live b) (b_dead b) (b_memo b) (b_pend b) (b_hold b) ((n, k) :: b_admitted b))
| mv_table live dead :
    (forall k, live k -> b_live b k \/ ins k) ->
    (forall k d, dead !! k = Some d -> ~ live k /\ (b_dead b !! k = Some d \/ d = now /\ b_live b k)) ->
    (forall k, b_live b k -> live k \/ is_Some (dead !! k)) ->
    (forall k d, b_dead b !! k = Some d -> live k \/ dead !! k = Some d) ->
    move ins now b (Book live dead (b_memo b) (b_pend b) (b_hold b) (b_admitted b)).

Inductive moves (ins : string -> Prop) (now : Z) : book -> book -> Prop :=
| mvs_done b : moves ins now b b
| mvs_step b b1 b2 : move ins now b b1 -> moves ins now b1 b2 -> moves ins now b b2.

Lemma moves_one ins now b b' : move ins now b b' -> moves ins now b b'.
Proof. intros. by eapply mvs_step; [|constructor]. Qed.

Lemma moves_trans ins now b b1 b2 : moves ins now b b1 -> moves ins now b1 b2 -> moves ins now b b2.
Proof. induction 1; [done|]. intros. eapply mvs_step; eauto. Qed.

(** A row that an answer for [k] rests on: it is there, or was removed so
    late that [P] holds of the moment. *)
Definition rests (b : book) (k : string) (P : Z -> Prop) : Prop := b_live b k \/ exists d, b_dead b !! k = Some d /\ P d.

Record memo_ok (now : Z) (b : book) : Prop := {
  mo_dead : forall k d, b_dead b !! k = Some d -> d <= now /\ ~ b_live b k;
  mo_memo : forall k vu, b_memo b !! k = Some vu -> vu <= now + ttl /\ rests b k (fun d => vu <= d + ttl);
  mo_pend : forall k n, b_pend b k n -> n <= now /\ rests b k (fun d => n <= d);
  mo_hold : forall k n, b_hold b k n -> n <= now /\ rests b k (fun d => n < d + ttl);
  mo_admitted : forall n k, (n, k) ∈ b_admitted b -> n <= now /\ rests b k (fun d => n < d + ttl) }.

Lemma memo_ok_later now now' b : now <= now' -> memo_ok now b -> memo_ok now' b.
Proof.
  intros Hle [Hd Hm Hp Hh Ha]. split.
  - intros k d H. destruct (Hd _ _ H). split; [lia|done].
  - intros k vu H. destruct (Hm _ _ H). split; [lia|done].
  - intros k n H. destruct (Hp _ _ H). split; [lia|done].
  - intros k n H. destruct (Hh _ _ H). split; [lia|done].
  - intros n k H. destruct (Ha _ _ H). split; [lia|done].
Qed.

Lemma rests_same b b' k (P Q : Z -> Prop) :
  (forall k', b_live b' k' <-> b_live b k') -> b_dead b' = b_dead b -> (forall d, P d -> Q d) -> rests b k P -> rests b' k Q.
Proof. unfold rests. intros Hl -> HPQ [H|(d & Hd & H)]; [left; by apply Hl|right; exists d; auto]. Qed.

(** A change of the table keeps what rests on its rows. *)
Lemma rests_table now b live dead k (P : Z -> Prop) :
  (forall k d, b_dead b !! k = Some d -> d <= now /\ ~ b_live b k) ->
  (forall k d, dead !! k = Some d -> ~ live k /\ (b_dead b !! k = Some d \/ d = now /\ b_live b k)) ->
  (forall k, b_live b k -> live k \/ is_Some (dead !! k)) ->
  (forall k d, b_dead b !! k = Some d -> live k \/ dead !! k = Some d) ->
  P now -> rests b k P -> rests (Book live dead (b_memo b) (b_pend b) (b_hold b) (b_admitted b)) k P.
Proof.
  intros Hok H1 H2 H3 HP [Hl|(d & Hd & HPd)].
  - destruct (H2 _ Hl) as [?|[d Hd]]; [by left|]. right. exists d. split; [done|].
    destruct (H1 _ _ Hd) as [_ [Hd'|[-> _]]]; [|done]. by destruct (Hok _ _ Hd').
  - destruct (H3 _ _ Hd); [by left|]. right. by exists d.
Qed.

Lemma memo_ok_move ins now b b' : memo_ok now b -> move ins now b b' -> memo_ok now b'.
Proof.
  intros [Hd Hm Hp Hh Ha] Hmv.
  destruct Hmv as [live memo pend hold Hl Hmm Hpp Hhh|k n pend Hk Hn Hpp|k n Hk|k n hold (vu & Hv & Hlt) Hn Hhh|k n Hk|live dead H0 H1 H2 H3].
  - split; cbn.
    + intros k d H. destruct (Hd _ _ H) as [? Hnl]. split; [done|]. by intros ?%Hl.
    + intros k vu H. destruct (Hm k vu) as [? Hr]; [by eapply lookup_weaken|]. split; [done|]. by eapply rests_same, Hr.
    + intros k n H%Hpp. destruct (Hp _ _ H) as [? Hr]. split; [done|]. by eapply rests_same, Hr.
    + intros k n H%Hhh. destruct (Hh _ _ H) as [? Hr]. split; [done|]. by eapply rests_same, Hr.
    + intros n k H. destruct (Ha _ _ H) as [? Hr]. split; [done|]. by eapply rests_same, Hr.
  - split; cbn; try done. intros k' n' [H|[-> ->]]%Hpp; [by apply Hp|]. split; [done|by left].
  - split; cbn; try done. intros k' vu [[<- <-]|[_ H]]%lookup_insert_Some; [|by apply Hm].
    destruct (Hp _ _ Hk) as [? Hr]. split; [lia|]. eapply rests_same, Hr; [done|done|]. cbn. lia.
  - split; cbn; try done. intros k' n' [H|[-> ->]]%Hhh; [by apply Hh|]. split; [done|].
    destruct (Hm _ _ Hv) as [? Hr]. eapply rests_same, Hr; [done|done|]. cbn. lia.
  - split; cbn; try done. intros n' k' [[= -> ->]|H]%elem_of_cons; [|by apply Ha].
    destruct Hk as [[(vu & Hv & Hlt) Hn]|Hk]; [|by apply Hh]. split; [done|].
    destruct (Hm _ _ Hv) as [? Hr]. eapply rests_same, Hr; [done|done|]. cbn. lia.
  - assert (forall k (P : Z -> Prop), P now -> rests b k P -> rests (Book live dead (b_memo b) (b_pend b) (b_hold b) (b_admitted b)) k P) as HR
      by (intros; by eapply rests_table).
    split; cbn.
    + intros k d H. destruct (H1 _ _ H) as [? [H'|[-> _]]]; [by destruct (Hd _ _ H')|by split].
    + intros k vu H. destruct (Hm _ _ H) as [? Hr]. split; [lia|]. apply HR; [lia|done].
    + intros k n H. destruct (Hp _ _ H) as [? Hr]. split; [lia|]. apply HR; [lia|done].
    + intros k n H. destruct (Hh _ _ H) as [? Hr]. split; [lia|]. apply HR; [lia|done].
    + intros n k H. destruct (Ha _ _ H) as [? Hr]. split; [lia|]. apply HR; [lia|done].
Qed.

Lemma memo_ok_moves ins now b b' : moves ins now b b' -> memo_ok now b -> memo_ok now b'.
Proof. induction 1; [done|]. intros. apply IHmoves. by eapply memo_ok_move. Qed.

(** Nothing is left of [k]: no row, no memo, no reader with an answer. *)
Record gone (k : string) (b : book) : Prop := {
  gn_row : ~ b_live b k;
  gn_memo : b_memo b !! k = None;
  gn_pend : forall n, ~ b_pend b k n;
  gn_hold : forall n, ~ b_hold b k n }.

(** Then nothing comes back and nobody is admitted by it, unless the row is
    inserted again. *)
Definition unheard (k : string) (b b' : book) : Prop :=
  exists l, b_admitted b' = l ++ b_admitted b /\ Forall (fun nk => snd nk <> k) l.

Lemma gone_move k ins now b b' : move ins now b b' -> ~ ins k -> gone k b -> gone k b' /\ unheard k b b'.
Proof.
  intros Hmv Hins [Hr Hm Hp Hh].
  destruct Hmv as [live memo pend hold Hl Hmm Hpp Hhh|k0 n pend Hk Hn Hpp|k0 n Hk|k0 n hold (vu & Hv & Hlt) Hn Hhh|k0 n Hk|live dead H0 H1 H2 H3];
    (split; [|first [by exists []|idtac]]).
  - split; cbn; [by intros ?%Hl|by eapply lookup_weaken_None|by intros n ?%Hpp; eapply Hp|by intros n ?%Hhh; eapply Hh].
  - split; cbn; try done. intros n' [?|[-> _]]%Hpp; [by eapply Hp|done].
  - split; cbn; try done. rewrite lookup_insert_ne; [done|]. intros ->. by eapply Hp.
  - split; cbn; try done. intros n' [?|[-> _]]%Hhh; [by eapply Hh|congruence].
  - done.
  - exists [(n, k0)]. split; [done|]. constructor; [|constructor]. cbn. intros ->.
    destruct Hk as [[(vu & ? & _) _]|?]; [congruence|by eapply Hh].
  - split; cbn; try done. intros [?|?]%H0; done.
Qed.

Lemma unheard_refl k b : unheard k b b.
Proof. by exists []. Qed.

Lemma unheard_trans k b b1 b2 : unheard k b b1 -> unheard k b1 b2 -> unheard k b b2.
Proof. intros (l & E & Hl) (l' & E' & Hl'). exists (l' ++ l). rewrite E', E, app_assoc. split; [done|]. by apply Forall_app. Qed.

Lemma gone_moves k ins now b b' : moves ins now b b' -> ~ ins k -> gone k b -> gone k b' /\ unheard k b b'.
Proof.
  induction 1 as [b|b b1 b2 H1 _ IH]; intros Hins Hg; [split; [done|apply unheard_refl]|].
  destruct (gone_move _ _ _ _ _ H1 Hins Hg) as [Hg1 Hq]. destruct (IH Hins Hg1). split; [done|]. by eapply unheard_trans.
Qed.

(** What was removed stays removed. *)
Lemma dead_moves k d ins now b b' : moves ins now b b' -> memo_ok now b -> ~ ins k -> b_dead b !! k = Some d -> b_dead b' !! k = Some d.
Proof.
  induction 1 as [b|b b1 b2 H1 _ IH]; intros Hok Hins Hd; [done|]. apply IH; [by eapply memo_ok_move|done|].
  destruct H1 as [| | | | |live dead H0 H1 H2 H3]; cbn; try done. destruct (H3 _ _ Hd) as [[Hl|?]%H0|?]; [|done..].
  by apply (mo_dead _ _ Hok) in Hd as [_ []].
Qed.

(** Admissions are only added. *)
Lemma admitted_moves ins now b b' : moves ins now b b' -> exists l, b_admitted b' = l ++ b_admitted b.
Proof.
  induction 1 as [b|b b1 b2 H1 _ [l IH]]; [by exists []|]. destruct H1; cbn in IH; try (by exists l).
  exists (l ++ [(n, k)]). by rewrite IH, <- app_assoc.
Qed.

(** ** A table of rows by key *)

Definition bury {A} (now : Z) (old new : gmap string A) (dead : gmap string Z) : gmap string Z :=
  filter (fun kd => new !! fst kd = None) dead ∪ ((fun _ => now) <$> (old ∖ new)).

Definition table {A} (rows : gmap string A) (k : string) : Prop := is_Some (rows !! k).

Lemma move_table {A} ins now (old new : gmap string A) dead memo pend hold adm :
  (forall k, is_Some (new !! k) -> is_Some (old !! k) \/ ins k) ->
  move ins now (Book (table old) dead memo pend hold adm) (Book (table new) (bury now old new dead) memo pend hold adm).
Proof.
  intros Hins. apply (mv_table ins now (Book (table old) dead memo pend hold adm)); cbn; unfold table, bury.
  - done.
  - intros k d [H|[_ H]]%lookup_union_Some_raw.
    + apply map_lookup_filter_Some in H as [H Hn]. cbn in Hn. split; [rewrite Hn; by intros [? ?]|by left].
    + rewrite lookup_fmap, lookup_difference in H. destruct (new !! k); [done|]. split; [by intros [? ?]|]. right.
      destruct (old !! k); [|done]. injection H as <-. split; [done|by eexists].
  - intros k [v Hv]. destruct (new !! k) eqn:En; [left; by eexists|]. right. rewrite lookup_union, lookup_fmap, lookup_difference, En, Hv. cbn.
    destruct (filter _ dead !! k); cbn; by eexists.
  - intros k d Hd. destruct (new !! k) eqn:En; [left; by eexists|]. right. apply lookup_union_Some_l, map_lookup_filter_Some. by split.
Qed.
Lemma bury_leaves {A} now (old new : gmap string A) dead k :
  is_Some (old !! k) \/ is_Some (dead !! k) -> new !! k = None -> is_Some (bury now old new dead !! k).
Proof.
  intros Hk Hn. unfold bury. rewrite lookup_union, lookup_fmap, lookup_difference, Hn, map_lookup_filter.
  destruct (dead !! k) as [d|]; cbn; [rewrite option_guard_True by done; cbn; destruct (_ <$> _); by eexists|].
  destruct Hk as [[v ->]|[? ?]]; [by eexists|done].
Qed.

(** ** Readers as requests in flight

    [pv], [hv]: what a request is about to store, what answer it holds. *)
Section Requests.
Context {P : Type} (pv hv : P -> option (string * Z)).

Definition seen_by (v : P -> option (string * Z)) (procs : gmap nat P) (k : string) (n : Z) : Prop :=
  exists pid p, procs !! pid = Some p /\ v p = Some (k, n).

(** What one step of a request does to the memo; [adm]: it was let through. *)
Inductive effect (now : Z) (live : string -> Prop) (memo : gmap string Z) (p : P) : gmap string Z -> P -> option (Z * string) -> Prop :=
| ef_idle memo' p' : memo' ⊆ memo -> pv p' = None -> hv p' = None -> effect now live memo p memo' p' None
| ef_read p' k n : live k -> n <= now -> pv p' = Some (k, n) -> hv p' = None -> effect now live memo p memo p' None
| ef_hit p' k : fresh_in memo k now -> pv p' = None -> hv p' = Some (k, now) -> effect now live memo p memo p' None
| ef_memo_pass p' k : fresh_in memo k now -> pv p' = None -> hv p' = None -> effect now live memo p memo p' (Some (now, k))
| ef_store_pass p' k n : pv p = Some (k, n) -> pv p' = None -> hv p' = None ->
    effect now live memo p (<[k := n + ttl]> memo) p' (Some (n, k))
| ef_store_hold p' k n : pv p = Some (k, n) -> pv p' = None -> hv p' = Some (k, n) ->
    effect now live memo p (<[k := n + ttl]> memo) p' None
| ef_pass p' k n : hv p = Some (k, n) -> pv p' = None -> hv p' = None -> effect now live memo p memo p' (Some (n, k)).

Definition log_in (adm : option (Z * string)) (l : list (Z * string)) : list (Z * string) :=
  match adm with Some a => a :: l | None => l end.

Lemma seen_insert v procs pid p' k n :
  seen_by v (<[pid := p']> procs) k n -> seen_by v procs k n \/ v p' = Some (k, n).
Proof. intros (pid' & p & [[<- <-]|[_ H]]%lookup_insert_Some & Hv); [by right|left; by exists pid', p]. Qed.

Lemma seen_insert_idle v procs pid p' k n : v p' = None -> seen_by v (<[pid := p']> procs) k n -> seen_by v procs k n.
Proof. intros Hn [?|?]%seen_insert; [done|congruence]. Qed.

Lemma moves_requests ins now live dead memo procs adms pid p memo' p' adm :
  memo_ok now (Book live dead memo (seen_by pv procs) (seen_by hv procs) adms) ->
  procs !! pid = Some p -> effect now live memo p memo' p' adm ->
  moves ins now (Book live dead memo (seen_by pv procs) (seen_by hv procs) adms)
    (Book live dead memo' (seen_by pv (<[pid := p']> procs)) (seen_by hv (<[pid := p']> procs)) (log_in adm adms)).
Proof.
  intros Hok Hp He.
  assert (forall v k n, v p = Some (k, n) -> seen_by v procs k n) as Hseen by (intros v k n ?; by exists pid, p).
  assert (forall memo' adms, True -> forall memo1, memo1 ⊆ memo' -> pv p' = None -> hv p' = None ->
    moves ins now (Book live dead memo' (seen_by pv procs) (seen_by hv procs) adms)
      (Book live dead memo1 (seen_by pv (<[pid := p']> procs)) (seen_by hv (<[pid := p']> procs)) adms)) as Hleave.
  { intros m a _ m1 Hm Hpn Hhn. apply moves_one. apply (mv_shrink ins now (Book live dead m _ _ a)); cbn; try done;
      intros k n; by apply seen_insert_idle. }
  assert (forall m a k n, fresh_in m k n -> n <= now -> pv p' = None -> hv p' = Some (k, n) ->
    moves ins now (Book live dead m (seen_by pv procs) (seen_by hv procs) a)
      (Book live dead m (seen_by pv (<[pid := p']> procs)) (seen_by hv (<[pid := p']> procs)) a)) as Hhit.
  { intros m a k n Hf Hn Hpn Hhn.
    eapply mvs_step; [apply (mv_hit ins now (Book live dead m (seen_by pv procs) (seen_by hv procs) a) k n (seen_by hv (<[pid := p']> procs))); cbn;
      [done|done|]; intros k' n' [?|E]%seen_insert; [by left|right; rewrite Hhn in E; by injection E as <- <-]|].
    apply moves_one. cbn. apply (mv_shrink ins now (Book live dead m (seen_by pv procs) (seen_by hv (<[pid := p']> procs)) a)); cbn; try done.
    intros k' n'. by apply seen_insert_idle. }
  destruct He as [memo' p' Hm Hpn Hhn|p' k n Hk Hn Hpn Hhn|p' k Hf Hpn Hhn|p' k Hf Hpn Hhn|p' k n Hv Hpn Hhn|p' k n Hv Hpn Hhn|p' k n Hv Hpn Hhn]; cbn.
  - apply Hleave; auto.
  - eapply mvs_step; [apply (mv_read ins now (Book live dead memo (seen_by pv procs) (seen_by hv procs) adms) k n (seen_by pv (<[pid := p']> procs))); cbn;
      [done|done|]; intros k' n' [?|E]%seen_insert; [by left|right; rewrite Hpn in E; by injection E as <- <-]|].
    apply moves_one. cbn. apply (mv_shrink ins now (Book live dead memo (seen_by pv (<[pid := p']> procs)) (seen_by hv procs) adms)); cbn; try done.
    intros k' n'. by apply seen_insert_idle.
  - apply (Hhit _ _ k now); [done|lia|done..].
  - eapply mvs_step; [apply (mv_admit ins now _ k now); left; by split|]. cbn. apply Hleave; auto.
  - destruct (mo_pend _ _ Hok k n (Hseen _ _ _ Hv)) as [Hn _].
    eapply mvs_step; [by apply (mv_store ins now _ k n), Hseen|]. cbn.
    eapply mvs_step; [apply (mv_admit ins now _ k n); left; cbn; split; [exists (n + ttl); rewrite lookup_insert_eq; split; [done|lia]|done]|].
    cbn. apply Hleave; auto.
  - destruct (mo_pend _ _ Hok k n (Hseen _ _ _ Hv)) as [Hn _].
    eapply mvs_step; [by apply (mv_store ins now _ k n), Hseen|]. cbn.
    apply (Hhit _ _ k n); [exists (n + ttl); rewrite lookup_insert_eq; split; [done|lia]|done..].
  - eapply mvs_step; [apply (mv_admit ins now _ k n); right; by apply Hseen|]. cbn. apply Hleave; auto.
Qed.
End Requests.
End Memo.
