(* ===== verification/Accounts.v ===== *)
(** * Accounts: users, sessions and API keys
    ([database/users.go], [database/keys.go], [server/handlers/auth.go],
    [server/handlers/keys.go], [server/server.go])

    The three tables and their statements, and the handlers as requests cut
    between their accesses: [proceed] runs one from its last access to the next.
    The middleware of [AuthGate] is here a request like the others.  bcrypt is
    a parameter; decoded bodies are arguments. *)
From S2P Require Import Prelude GoText Sha256 SdkAuth AuthGate Json Limiter Sql.
Open Scope Z_scope.

(* ------------------------------------------------------------------ *)
(** ** The tables *)

Record User := MkUser { u_Username : string; u_PasswordHash : string; u_CreatedAt : Z; u_LastLogin : option Z }.
#[export] Instance eta_User : Eta User := fun u => MkUser (u_Username u) (u_PasswordHash u) (u_CreatedAt u) (u_LastLogin u).

Record SessionRow := MkSession { s_UserID : Z; s_CreatedAt : Z; s_ExpiresAt : Z }.

(** A key by its hash; [y_Permissions] is the JSON text of the column. *)
Record KeyRow := MkKeyRow {
  y_ID : string; y_Prefix : string; y_Name : string; y_Permissions : string;
  y_CreatedAt : Z; y_LastUsedAt : option Z; y_ExpiresAt : option Z }.
#[export] Instance eta_KeyRow : Eta KeyRow := fun y =>
  MkKeyRow (y_ID y) (y_Prefix y) (y_Name y) (y_Permissions y) (y_CreatedAt y) (y_LastUsedAt y) (y_ExpiresAt y).

(** Of the table of functions only the number of rows matters here. *)
Record adb := ADB {
  t_users : gmap Z User; t_nextUser : Z;
  t_sessions : gmap string SessionRow; t_keys : gmap string KeyRow; t_functions : Z }.
#[export] Instance eta_adb : Eta adb := fun d => ADB (t_users d) (t_nextUser d) (t_sessions d) (t_keys d) (t_functions d).

Definition no_rows : adb := ADB ∅ 1 ∅ ∅ 0.

(** A row with a property, of a column without duplicates. *)
Definition row_where {K V} `{Countable K} (P : V -> bool) (m : gmap K V) : option (K * V) :=
  head (filter (fun kv => P (snd kv) = true) (map_to_list m)).

Lemma row_where_Some {K V} `{Countable K} (P : V -> bool) (m : gmap K V) k v :
  row_where P m = Some (k, v) -> m !! k = Some v /\ P v = true.
Proof.
  unfold row_where. intros Hh. assert ((k, v) ∈ filter (fun kv : K * V => P (snd kv) = true) (map_to_list m)) as Hin.
  { destruct (filter _ _) as [|x l]; [done|]. injection Hh as ->. left. }
  apply list_elem_of_filter in Hin as [HP Hin]. apply elem_of_map_to_list in Hin. done.
Qed.

Lemma row_where_None {K V} `{Countable K} (P : V -> bool) (m : gmap K V) :
  row_where P m = None -> forall k v, m !! k = Some v -> P v = false.
Proof.
  unfold row_where. intros Hh k v Hm. destruct (P v) eqn:HP; [|done].
  assert ((k, v) ∈ filter (fun kv : K * V => P (snd kv) = true) (map_to_list m)) as Hin
    by (apply list_elem_of_filter; split; [done|by apply elem_of_map_to_list]).
  destruct (filter _ _) as [|x l]; [by apply elem_of_nil in Hin|done].
Qed.

(* ------------------------------------------------------------------ *)
(** ** Users and sessions *)

Definition CountUsers (d : adb) : Z := Z.of_nat (size (t_users d)).

(** The INSERT; [None]: the name is taken. *)
Definition CreateUser (now : Z) (username hash : string) (d : adb) : option (adb * Z) :=
  match row_where (fun u => bool_decide (u_Username u = username)) (t_users d) with
  | Some _ => None
  | None => Some (d <| t_users ::= <[t_nextUser d := MkUser username hash now None]> |> <| t_nextUser ::= Z.succ |>, t_nextUser d)
  end.

Definition user_named (username : string) (d : adb) : option (Z * User) :=
  row_where (fun u => bool_decide (u_Username u = username)) (t_users d).

Definition touch_login (now : Z) (uid : Z) (d : adb) : adb := d <| t_users ::= alter (fun u => u <| u_LastLogin := Some now |>) uid |>.

Definition token_of (raw : list Z) : string := of_bytes (hex_encode raw).

(** [ttl] is a [time.Duration]; zero and less mean a week. *)
Definition session_row (now uid ttl : Z) : SessionRow := MkSession uid now (now + (if ttl <=? 0 then 7 * 24 * hour else ttl)).

Definition CreateSession (token : string) (row : SessionRow) (d : adb) : option adb :=
  match t_sessions d !! token with Some _ => None | None => Some (d <| t_sessions ::= <[token := row]> |>) end.

(** The text of [expires_at] has a fraction, CURRENT_TIMESTAMP has none: equal
    seconds still compare as later. *)
Definition unexpired (now : Z) (s : SessionRow) : bool := now / second <=? s_ExpiresAt s / second.

Definition GetSession (now : Z) (token : string) (d : adb) : option SessionRow :=
  s ← t_sessions d !! token; if unexpired now s then Some s else None.

Definition GetSessionUser (now : Z) (token : string) (d : adb) : option (Z * User) :=
  s ← GetSession now token d; u ← t_users d !! s_UserID s; Some (s_UserID s, u).

(** Newest first. *)
Definition later_first (x y : string * SessionRow) : Prop := s_CreatedAt (snd y) <= s_CreatedAt (snd x).
#[export] Instance later_first_dec x y : Decision (later_first x y) := Z_le_dec _ _.

Definition ListSessionsForUser (now uid : Z) (d : adb) : list (string * SessionRow) :=
  merge_sort later_first
    (filter (fun ks => s_UserID (snd ks) = uid /\ unexpired now (snd ks) = true) (map_to_list (t_sessions d))).

Definition DeleteSession (token : string) (d : adb) : adb := d <| t_sessions ::= delete token |>.

(** The SELECT of [DeleteSessionByPrefix]. *)
Definition sessions_like (prefix : string) (uid : Z) (d : adb) : list string :=
  map fst (filter (fun ks => s_UserID (snd ks) = uid /\ like (bytes prefix ++ [37]) (bytes (fst ks)) = true) (map_to_list (t_sessions d))).

Definition others (uid : Z) (keep : string) (ks : string * SessionRow) : Prop := s_UserID (snd ks) = uid /\ fst ks <> keep.
#[export] Instance others_dec uid keep ks : Decision (others uid keep ks) := and_dec _ _.

Definition DeleteUserSessionsExcept (uid : Z) (keep : string) (d : adb) : list string * adb :=
  (map fst (filter (others uid keep) (map_to_list (t_sessions d))),
   d <| t_sessions ::= filter (fun ks => ~ others uid keep ks) |>).

Definition set_password (uid : Z) (hash : string) (d : adb) : adb := d <| t_users ::= alter (fun u => u <| u_PasswordHash := hash |>) uid |>.

(** The sweep of [purgeOtherRetainedTables]. *)
Definition purge_sessions (now : Z) (d : adb) : adb := d <| t_sessions ::= filter (fun ks => unexpired now (snd ks) = true) |>.

(* ------------------------------------------------------------------ *)
(** ** API keys *)

Definition text_of (v : json) : option string := match v with JString s => Some s | JNull => Some ""%string | _ => None end.

Definition PermissionsList (col : string) : list string :=
  if bool_decide (col = ""%string) then []
  else match unmarshal (bytes col) with Some (JArray l) => default [] (mapM text_of l) | _ => [] end.

Definition permsJSON (perms : list string) : string := of_bytes (marshal (JArray (map JString perms))).

(** What was stored is read back. *)
Lemma PermissionsList_permsJSON perms : Forall (fun p => validUTF8 p = true) perms -> PermissionsList (permsJSON perms) = perms.
Proof.
  intros Hv. unfold PermissionsList, permsJSON. rewrite bool_decide_false by done.
  rewrite bytes_of_bytes by apply marshal_bytes. rewrite unmarshal_marshal.
  - cbn [repair_json]. rewrite map_map. enough (mapM text_of (map (fun p => repair_json (JString p)) perms) = Some perms) as -> by done.
    induction Hv as [|p l Hp _ IH]; [done|]. simpl in *. rewrite IH, repair_valid by done. done.
  - clear Hv. destruct (Z.to_nat 10000) as [|n] eqn:En; [lia|]. cbn [json_ok]. clear En. apply forallb_forall. by intros v (p & <- & _)%in_map_iff.
Qed.

Definition gate_key (y : KeyRow) : APIKey := MkAPIKey (y_ID y) (y_Name y) (PermissionsList (y_Permissions y)) (y_ExpiresAt y).

Definition GetAPIKeyByHash (h : string) (d : adb) : option KeyRow := t_keys d !! h.

Definition GetAPIKeyByID (id : string) (d : adb) : option (string * KeyRow) := row_where (fun y => bool_decide (y_ID y = id)) (t_keys d).

(** [None]: the hash or the id is taken. *)
Definition InsertAPIKey (h : string) (row : KeyRow) (d : adb) : option adb :=
  match t_keys d !! h, GetAPIKeyByID (y_ID row) d with
  | None, None => Some (d <| t_keys ::= <[h := row]> |>)
  | _, _ => None
  end.

Definition DeleteAPIKey (id : string) (d : adb) : adb := d <| t_keys ::= filter (fun hy => y_ID (snd hy) <> id) |>.

Definition UpdateAPIKeyLastUsed (now : Z) (h : string) (d : adb) : adb :=
  d <| t_keys ::= alter (fun y => y <| y_LastUsedAt := Some now |>) h |>.

Definition BootstrapKeyName : string := "bootstrap-admin".

Definition CountAPIKeys (d : adb) : Z := Z.of_nat (size (t_keys d)).
Definition CountOperatorAPIKeys (d : adb) : Z :=
  Z.of_nat (size (filter (fun hy => y_Name (snd hy) <> BootstrapKeyName) (t_keys d))).
Definition CountFunctions (d : adb) : Z := t_functions d.

(** The rows as the middleware reads them. *)
Definition authdb_of (d : adb) : authdb :=
  AuthDB (omap (fun s => u ← t_users d !! s_UserID s; Some (AuthGate.Session (u_Username u) (s_ExpiresAt s))) (t_sessions d))
    (gate_key <$> t_keys d).

(** [POST /api/v1/keys]. *)
Record createKeyRequest := MkCreateKey {
  q_Name : string; q_Permissions : list string; q_ExpiresAt : option Z; q_ExpiresInDays : option Z }.

Definition defaultKeyPermissions : list string := ["invoke"; "read"; "write"; "admin"]%string.
Definition maxExpiresInDays : Z := 36500.

(** The machine's product. *)
Definition days (n : Z) : Z := wrap64 (wrap64 (n * 24) * hour).

Definition key_expiry (now : Z) (q : createKeyRequest) : option Z :=
  match q_ExpiresAt q, q_ExpiresInDays q with
  | None, Some n => if 0 <? n then Some (now + days n) else None
  | e, _ => e
  end.

Definition key_permissions (q : createKeyRequest) : list string :=
  match q_Permissions q with [] => defaultKeyPermissions | l => l end.

Definition plaintext_of (raw : list Z) : string := ("orva_" ++ of_bytes (hex_encode raw))%string.

Definition key_row (now : Z) (id plaintext name : string) (perms : list string) (expires : option Z) : KeyRow :=
  MkKeyRow id (str_take 12 plaintext) name (permsJSON perms) now None expires.

Fixpoint upto_slash (l : list Z) : list Z := match l with [] => [] | c :: l => if c =? 47 then [] else c :: upto_slash l end.

Definition extractKeyID (path : string) : string :=
  if hasPrefix "/api/v1/keys/" path then of_bytes (upto_slash (bytes (str_drop 13 path))) else ""%string.

(* ------------------------------------------------------------------ *)
(** ** Requests in flight *)

(** What a credential was presented and accepted as. *)
Inductive cred := CSession (token : string) | CKey (hash : string).

(** How an onboarding was let through: the instance was unused, or the caller
    held the admin key with this hash. *)
Inductive claim := FirstRun | AdminKey (hash : string).

(** Who a request of the management API comes from; the sandboxes and the
    public endpoints have no credential of these tables. *)
Definition caller_cred : Type := option cred.

(** What the router gives a request that passed the middleware to. *)
Inductive handler := HKeyCreate (body : option createKeyRequest) | HKeyDelete (path : string) | HOther.

Inductive answer :=
| AError (status : Z) (code : string)
| ASession (token : string) (uid : Z)                 (** the cookie is set *)
| AMe (uid : Z) (expires : option Z)
| AChanged (warning : bool)
| AListed (rows : list (string * Z * Z * bool))
| ARevoked
| ALoggedOut                                          (** the cookie is cleared *)
| AHasUser (b : bool)
| AKey (id plaintext prefix name : string) (perms : list string) (expires : option Z)
| AKeyDeleted (id : string)
| AGate (v : verdict)
| AServed (by_ : caller_cred).                          (** another handler ran *)

(** Each constructor stands before one access to the database or to a memo. *)
Inductive proc :=
| PStatus
| POnCount (r : request) (body : option (string * string))
| POnKeys (r : request) (body : option (string * string))
| POnFunctions (r : request) (body : option (string * string))
| POnHolds (raw : string) (body : option (string * string))
| POnInsert (how : claim) (name pw : string)
| POnSession (how : claim) (uid : Z)
| PLoginRead (name pw : string)
| PLoginTouch (uid : Z) (hash pw : string)
| PLoginSession (uid : Z) (hash pw : string)
| PMe (token : string)
| PMeExpiry (token : string) (uid : Z)
| PRefreshRead (token : string)
| PRefreshCreate (token : string) (uid : Z)
| PChangeRead (token : string) (body : option (string * string))
| PChangeHash (token : string) (uid : Z) (old new : string)
| PChangeUpdate (token : string) (uid : Z) (hash : string)
| PChangeOthers (token : string) (uid : Z)
| PSessions (token : string)
| PSessionsList (token : string) (uid : Z)
| PRevokeRead (token prefix : string) (allow_self : bool)
| PRevokeFind (uid : Z) (prefix : string)
| PRevokeDelete (found : string)
| PDeleteSession (token : string) (a : answer)
| PForget (tokens : list string) (a : answer)
| PKeyInsert (by_ : caller_cred) (name : string) (perms : list string) (expires : option Z)
| PKeyFind (id : string)
| PKeyDelete (id : string) (hash : option string)
| PKeyEvict (id hash : string)
| PGateSession (r : request) (h : handler) (token : string)
| PGateRead (r : request) (h : handler) (token : string) (n : Z)
| PGateStore (r : request) (h : handler) (token : string) (n : Z) (username : string)
| PGateKey (r : request) (h : handler)
| PGateLook (r : request) (h : handler) (hash : string) (n : Z)
| PGateKeep (r : request) (h : handler) (hash : string) (n : Z) (k : APIKey)
| PGateExpiry (r : request) (h : handler) (hash : string) (n : Z) (k : APIKey)
| PDone (a : answer).

(** What requests share. *)
Record state := MkState {
  st_db : adb;
  st_sessions : gmap string Z;             (** the router's [sessionCache] *)
  st_keys : gmap string (APIKey * Z);      (** and [keyCache] *)
  st_sdk : option Authenticator;
  st_limiter : rateLimiter }.
#[export] Instance eta_state : Eta state := fun s =>
  MkState (st_db s) (st_sessions s) (st_keys s) (st_sdk s) (st_limiter s).

(** Values a step draws: 32 random bytes, bcrypt's salt, a row id. *)
Record drawn := Drawn { d_raw : list Z; d_salt : string; d_id : string }.

Definition loginAttemptsPerMin : Z := 10.
Definition sessionTokenPrefixLen : nat := 16.

Section Handlers.
(** [bcrypt.GenerateFromPassword] and [bcrypt.CompareHashAndPassword]. *)
Context (bcrypt_generate : string -> string -> option string) (bcrypt_compare : string -> string -> bool).
(** [SessionMaxAgeSecs] of the configuration. *)
Context (max_age_config : Z).

Definition sessionMaxAge : Z := if 0 <? max_age_config then max_age_config else 7 * 24 * 60 * 60.
Definition sessionTTL : Z := wrap64 (sessionMaxAge * second).

Definition refusal (status : Z) (code : string) : proc := PDone (AError status code).

(** [revokeSession] and [forgetSession]. *)
Definition revokeSession (token : string) (a : answer) : proc :=
  if bool_decide (token = ""%string) then PDone a else PDeleteSession token a.

(** The rest of [Onboard] once the instance may be claimed. *)
Definition onboard_body (how : claim) (body : option (string * string)) : proc :=
  match body with
  | None => refusal 400 "INVALID_JSON"
  | Some (name, pw) =>
    if bool_decide (name = ""%string) || bool_decide (pw = ""%string) then refusal 400 "VALIDATION"
    else if len pw <? 8 then refusal 400 "VALIDATION"
    else POnInsert how name pw
  end.

(** [callerHoldsAdminKey], up to the lookup. *)
Definition onboard_in_use (r : request) (body : option (string * string)) : proc :=
  let raw := invoke_key r in
  if bool_decide (raw = ""%string) then refusal 401 "UNAUTHORIZED" else POnHolds raw body.

Definition change_body (token : string) (uid : Z) (body : option (string * string)) : proc :=
  match body with
  | None => refusal 400 "INVALID_JSON"
  | Some (old, new) =>
    if bool_decide (old = ""%string) || bool_decide (new = ""%string) then refusal 400 "VALIDATION_ERROR"
    else if len new <? 8 then refusal 400 "VALIDATION_ERROR"
    else PChangeHash token uid old new
  end.

Definition revoke_checks (token prefix : string) (allow_self : bool) (uid : Z) : proc :=
  if len prefix <? 8 then refusal 400 "VALIDATION"
  else
    let myPrefix := if len prefix <? len token then str_take (String.length prefix) token else token in
    if bool_decide (myPrefix = prefix) && negb allow_self then refusal 400 "CANT_DELETE_SELF"
    else PRevokeFind uid prefix.

Definition session_view (token : string) (ks : string * SessionRow) : string * Z * Z * bool :=
  (if (sessionTokenPrefixLen <? String.length (fst ks))%nat then str_take sessionTokenPrefixLen (fst ks) else fst ks,
   s_CreatedAt (snd ks), s_ExpiresAt (snd ks), bool_decide (fst ks = token)).

(** [KeyHandler.Create] up to the INSERT, and [KeyHandler.Delete] up to the lookup. *)
Definition key_create (now : Z) (by_ : caller_cred) (body : option createKeyRequest) : proc :=
  match body with
  | None => refusal 400 "INVALID_JSON"
  | Some q =>
    if bool_decide (q_Name q = ""%string) then refusal 400 "VALIDATION"
    else if match q_ExpiresInDays q with Some n => maxExpiresInDays <? n | None => false end then refusal 400 "VALIDATION"
    else PKeyInsert by_ (q_Name q) (key_permissions q) (key_expiry now q)
  end.

Definition key_delete (path : string) : proc :=
  let id := extractKeyID path in if bool_decide (id = ""%string) then refusal 400 "INVALID_REQUEST" else PKeyFind id.

Definition hand_on (now : Z) (by_ : caller_cred) (h : handler) : proc :=
  match h with
  | HKeyCreate body => key_create now by_ body
  | HKeyDelete path => key_delete path
  | HOther => PDone (AServed by_)
  end.

(** The verdict of the session branch: a cookie below eight bytes panics. *)
Definition admit_session (now : Z) (h : handler) (token : string) : proc :=
  if (String.length token <? 8)%nat then PDone (AGate Panic) else hand_on now (Some (CSession token)) h.

(** One step of a request at [now]; [fault]: the access fails.  The third
    component: the credential it was let through by, with the clock it read. *)
Definition proceed (now : Z) (dr : drawn) (fault : bool) (p : proc) (st : state) : state * proc * option (cred * Z) :=
  let d := st_db st in
  let stay (p : proc) := (st, p, None) in
  let put (d : adb) (p : proc) := (st <| st_db := d |>, p, None) in
  let ask {A} (o : option A) : option A := if fault then None else o in
  match p with
  | PStatus => stay (PDone (AHasUser (fault || (0 <? CountUsers d))))
  | POnCount r body =>
    stay (if fault then refusal 503 "UNAVAILABLE" else if 0 <? CountUsers d then refusal 409 "ALREADY_SETUP" else POnKeys r body)
  | POnKeys r body =>
    stay (if fault then refusal 503 "UNAVAILABLE" else if 0 <? CountOperatorAPIKeys d then onboard_in_use r body else POnFunctions r body)
  | POnFunctions r body =>
    stay (if fault then refusal 503 "UNAVAILABLE" else if 0 <? CountFunctions d then onboard_in_use r body else onboard_body FirstRun body)
  | POnHolds raw body =>
    stay match ask (GetAPIKeyByHash (key_hash raw) d) with
         | None => refusal 401 "UNAUTHORIZED"
         | Some y =>
           if expired now (gate_key y) then refusal 401 "UNAUTHORIZED"
           else if bool_decide ("admin"%string ∈ PermissionsList (y_Permissions y)) then onboard_body (AdminKey (key_hash raw)) body
           else refusal 401 "UNAUTHORIZED"
         end
  | POnInsert how name pw =>
    match (hash ← bcrypt_generate (d_salt dr) pw; ask (CreateUser now name hash d)) with
    | None => stay (refusal 500 "INTERNAL")
    | Some (d, uid) => put d (POnSession how uid)
    end
  | POnSession _ uid | PLoginSession uid _ _ =>
    let token := token_of (d_raw dr) in
    match ask (CreateSession token (session_row now uid sessionTTL) d) with
    | None => stay (refusal 500 "INTERNAL")
    | Some d => put d (PDone (ASession token uid))
    end
  | PLoginRead name pw =>
    stay match ask (user_named name d) with
         | None => refusal 401 "INVALID_CREDENTIALS"
         | Some (uid, u) =>
           if bcrypt_compare (u_PasswordHash u) pw then PLoginTouch uid (u_PasswordHash u) pw else refusal 401 "INVALID_CREDENTIALS"
         end
  | PLoginTouch uid hash pw => put (if fault then d else touch_login now uid d) (PLoginSession uid hash pw)
  | PMe token =>
    stay match ask (GetSessionUser now token d) with None => refusal 401 "UNAUTHORIZED" | Some (uid, _) => PMeExpiry token uid end
  | PMeExpiry token uid => stay (PDone (AMe uid (s_ExpiresAt <$> ask (GetSession now token d))))
  | PRefreshRead token =>
    stay match ask (GetSessionUser now token d) with None => refusal 401 "UNAUTHORIZED" | Some (uid, _) => PRefreshCreate token uid end
  | PRefreshCreate token uid =>
    let new := token_of (d_raw dr) in
    match ask (CreateSession new (session_row now uid sessionTTL) d) with
    | None => stay (refusal 500 "INTERNAL")
    | Some d => put d (revokeSession token (ASession new uid))
    end
  | PChangeRead token body =>
    stay match ask (GetSessionUser now token d) with None => refusal 401 "UNAUTHORIZED" | Some (uid, _) => change_body token uid body end
  | PChangeHash token uid old new =>
    stay match ask (t_users d !! uid) with
         | None => refusal 500 "INTERNAL"
         | Some u =>
           if bcrypt_compare (u_PasswordHash u) old then
             match bcrypt_generate (d_salt dr) new with Some hash => PChangeUpdate token uid hash | None => refusal 500 "INTERNAL" end
           else refusal 400 "WRONG_PASSWORD"
         end
  | PChangeUpdate token uid hash =>
    if fault then stay (refusal 500 "INTERNAL") else put (set_password uid hash d) (PChangeOthers token uid)
  | PChangeOthers token uid =>
    if fault then stay (PDone (AChanged true))
    else let '(revoked, d) := DeleteUserSessionsExcept uid token d in put d (PForget revoked (AChanged false))
  | PSessions token =>
    stay match ask (GetSessionUser now token d) with None => refusal 401 "UNAUTHORIZED" | Some (uid, _) => PSessionsList token uid end
  | PSessionsList token uid =>
    stay (if fault then refusal 500 "INTERNAL" else PDone (AListed (map (session_view token) (ListSessionsForUser now uid d))))
  | PRevokeRead token prefix allow_self =>
    stay match ask (GetSessionUser now token d) with
         | None => refusal 401 "UNAUTHORIZED"
         | Some (uid, _) => revoke_checks token prefix allow_self uid
         end
  | PRevokeFind uid prefix =>
    stay (if fault then refusal 404 "NOT_FOUND"
          else match sessions_like prefix uid d with
               | [] => refusal 404 "NOT_FOUND"
               | [found] => PRevokeDelete found
               | _ => refusal 400 "AMBIGUOUS_PREFIX"
               end)
  | PRevokeDelete found => if fault then stay (refusal 404 "NOT_FOUND") else put (DeleteSession found d) (PForget [found] ARevoked)
  | PDeleteSession token a => put (if fault then d else DeleteSession token d) (PForget [token] a)
  | PForget [] a => stay (PDone a)
  | PForget (token :: tokens) a =>
    (if bool_decide (token = ""%string) then st else st <| st_sessions ::= delete token |>, PForget tokens a, None)
  | PKeyInsert by_ name perms expires =>
    let plaintext := plaintext_of (d_raw dr) in
    match ask (InsertAPIKey (key_hash plaintext) (key_row now (d_id dr) plaintext name perms expires) d) with
    | None => stay (refusal 500 "INTERNAL")
    | Some d => put d (PDone (AKey (d_id dr) plaintext (str_take 12 plaintext) name perms expires))
    end
  | PKeyFind id => stay (PKeyDelete id (fst <$> ask (GetAPIKeyByID id d)))
  | PKeyDelete id hash =>
    if fault then stay (refusal 500 "INTERNAL")
    else put (DeleteAPIKey id d) (match hash with Some h => PKeyEvict id h | None => PDone (AKeyDeleted id) end)
  | PKeyEvict id h => (st <| st_keys ::= delete h |>, PDone (AKeyDeleted id), None)
  | PGateSession r h token =>
    match st_sessions st !! token with
    | Some vu => if now <? vu then (st, admit_session now h token, Some (CSession token, now))
                 else (st <| st_sessions ::= delete token |>, PGateRead r h token now, None)
    | None => stay (PGateRead r h token now)
    end
  | PGateRead r h token n =>
    stay match ask (GetSessionUser now token d) with
         | Some (_, u) => PGateStore r h token n (u_Username u)
         | None => PGateKey r h
         end
  | PGateStore r h token n _ =>
    (st <| st_sessions ::= <[token := n + sessionCacheTTL]> |>, admit_session now h token, Some (CSession token, n))
  | PGateKey r h =>
    let apiKey := bearer r in
    if bool_decide (apiKey = ""%string) then stay (PDone (AGate (Deny 401 "UNAUTHORIZED")))
    else if hasPrefix "orva_chn_" apiKey then stay (PDone (AGate (Deny 401 "UNAUTHORIZED")))
    else if hasPrefix "orva_oat_" apiKey || hasPrefix "orva_ort_" apiKey then stay (PDone (AGate (Deny 401 "UNAUTHORIZED")))
    else
      let hash := key_hash apiKey in
      match st_keys st !! hash with
      | Some (k, vu) => if now <? vu then stay (PGateExpiry r h hash now k)
                        else (st <| st_keys ::= delete hash |>, PGateLook r h hash now, None)
      | None => stay (PGateLook r h hash now)
      end
  | PGateLook r h hash n =>
    stay (if fault then PDone (AGate (Deny 503 "SERVICE_UNAVAILABLE"))
          else match GetAPIKeyByHash hash d with
               | None => PDone (AGate (Deny 401 "UNAUTHORIZED"))
               | Some y => PGateKeep r h hash n (gate_key y)
               end)
  | PGateKeep r h hash n k => (st <| st_keys ::= <[hash := (k, n + keyCacheTTL)]> |>, PGateExpiry r h hash n k, None)
  | PGateExpiry r h hash n k =>
    if expired now k then (st <| st_keys ::= delete hash |>, PDone (AGate (Deny 401 "UNAUTHORIZED")), None)
    else if bool_decide (requiredPermission (r_Method r) (r_Path r) ∈ k_Permissions k)
    then (st, hand_on now (Some (CKey hash)) h, Some (CKey hash, n))
    else stay (PDone (AGate (Deny 403 "FORBIDDEN")))
  | PDone _ => stay p
  end.

(* ------------------------------------------------------------------ *)
(** ** Where requests start *)

Inductive call :=
| CStatus
| COnboard (r : request) (body : option (string * string))
| CLogin (ip : string) (sweeping : bool) (body : option (string * string))
| CMe (cookie : option string)
| CRefresh (cookie : option string)
| CChange (cookie : option string) (body : option (string * string))
| CSessions (cookie : option string)
| CRevoke (cookie : option string) (prefix : string) (allow_self : bool)
| CLogout (cookie : option string)
| CRequest (r : request) (body : option createKeyRequest).   (** any other path, past the middleware *)

Definition route_of (r : request) (body : option createKeyRequest) : handler :=
  if bool_decide (r_Method r = "POST"%string) && bool_decide (r_Path r = "/api/v1/keys"%string) then HKeyCreate body
  else if bool_decide (r_Method r = "DELETE"%string) && hasPrefix "/api/v1/keys/" (r_Path r) then HKeyDelete (r_Path r)
  else HOther.

Definition with_cookie (cookie : option string) (f : string -> proc) : proc :=
  match cookie with Some token => f token | None => refusal 401 "UNAUTHORIZED" end.

(** The middleware up to its first memo. *)
Definition gate_enter (r : request) (h : handler) (sdk : option Authenticator) : proc :=
  if is_public r then PDone (AServed None)
  else if is_internal r then
    match Verify (bytes (h_InternalToken r)) sdk with
    | Some _ => PDone (AServed None)
    | None => PDone (AGate (Deny 401 "UNAUTHORIZED"))
    end
  else
    match (if is_jobs_post r then Verify (bytes (h_InternalToken r)) sdk else None) with
    | Some _ => PDone (AServed None)
    | None => match c_session r with Some token => PGateSession r h token | None => PGateKey r h end
    end.

Definition start (now : Z) (c : call) (st : state) : state * proc :=
  match c with
  | CStatus => (st, PStatus)
  | COnboard r body => (st, POnCount r body)
  | CLogin ip sweeping body =>
    let '(rl, ok) := Allow sweeping now "login" ip loginAttemptsPerMin (st_limiter st) in
    (st <| st_limiter := rl |>,
     if ok then match body with Some (name, pw) => PLoginRead name pw | None => refusal 400 "INVALID_JSON" end
     else refusal 429 "RATE_LIMITED")
  | CMe cookie => (st, with_cookie cookie PMe)
  | CRefresh cookie => (st, with_cookie cookie PRefreshRead)
  | CChange cookie body => (st, with_cookie cookie (fun token => PChangeRead token body))
  | CSessions cookie => (st, with_cookie cookie PSessions)
  | CRevoke cookie prefix allow_self => (st, with_cookie cookie (fun token => PRevokeRead token prefix allow_self))
  | CLogout cookie => (st, match cookie with Some token => revokeSession token ALoggedOut | None => PDone ALoggedOut end)
  | CRequest r body => (st, gate_enter r (route_of r body) (st_sdk st))
  end.

End Handlers.

(* ------------------------------------------------------------------ *)
(** ** The key of the first boot *)

(** The statements of [bootstrapAdminKey] that fail. *)
Record boot_faults := BootFaults { bf_lookup : bool; bf_count : bool; bf_insert : bool; bf_write : bool }.

Definition bootstrap_row (now : Z) (id plaintext : string) : KeyRow :=
  key_row now id plaintext BootstrapKeyName defaultKeyPermissions None.

Definition insert_bootstrap (now : Z) (id plaintext : string) (f : boot_faults) (d : adb) : option adb :=
  if bf_insert f then None else InsertAPIKey (key_hash plaintext) (bootstrap_row now id plaintext) d.

Definition mint_bootstrap (now : Z) (dr : drawn) (f : boot_faults) (keyfile : option string) (d : adb) : adb * option string :=
  if bf_count f || (0 <? CountAPIKeys d) then (d, keyfile)
  else
    let plaintext := plaintext_of (d_raw dr) in
    match insert_bootstrap now (d_id dr) plaintext f d with
    | None => (d, keyfile)
    | Some d => (d, if bf_write f then keyfile else Some (plaintext ++ of_bytes [10])%string)
    end.

(** The row table and the key file after a boot. *)
Definition bootstrapAdminKey (now : Z) (dr : drawn) (f : boot_faults) (keyfile : option string) (d : adb) : adb * option string :=
  match keyfile with
  | Some content =>
    let plaintext := trimSpace content in
    if hasPrefix "orva_" plaintext then
      match (if bf_lookup f then None else GetAPIKeyByHash (key_hash plaintext) d) with
      | Some _ => (d, keyfile)
      | None => (default d (insert_bootstrap now (d_id dr) plaintext f d), keyfile)
      end
    else mint_bootstrap now dr f keyfile d
  | None => mint_bootstrap now dr f keyfile d
  end.

(* ------------------------------------------------------------------ *)
(** ** A request that is alone with the gate *)

Definition in_gate (p : proc) : bool :=
  match p with
  | PGateSession _ _ _ | PGateRead _ _ _ _ | PGateStore _ _ _ _ _ | PGateKey _ _ | PGateLook _ _ _ _ | PGateKeep _ _ _ _ _ | PGateExpiry _ _ _ _ _ => true
  | _ => false
  end.

(** [fuel] steps of the middleware, with nothing in between. *)
Fixpoint gate_alone (gen : string -> string -> option string) (cmp : string -> string -> bool) (cfg : Z)
    (fuel : nat) (now : Z) (dr : drawn) (fault : bool) (p : proc) (st : state) : state * proc :=
  match fuel with
  | O => (st, p)
  | S fuel => if in_gate p then let '(st, p, _) := proceed gen cmp cfg now dr fault p st in gate_alone gen cmp cfg fuel now dr fault p st
              else (st, p)
  end.

Definition gate_of (now : Z) (st : state) : gate := Gate (authdb_of (st_db st)) (st_sessions st) (st_keys st) (st_sdk st) now [].

(** The credential an actor of [AuthGate] stands for. *)
Definition principal_of (r : request) (a : option Actor) : caller_cred :=
  match a with
  | Some a => if bool_decide (a_Type a = "session"%string) then CSession <$> c_session r
              else if bool_decide (a_Type a = "api_key"%string) then Some (CKey (key_hash (bearer r))) else None
  | None => None
  end.

(** What follows a verdict of the middleware. *)
Definition gated (now : Z) (r : request) (h : handler) (v : verdict) : proc :=
  match v with Pass a => hand_on now (principal_of r a) h | _ => PDone (AGate v) end.

Lemma gate_session now token d :
  AuthGate.GetSessionUser now token (authdb_of d) =
  s ← GetSession now token d; u ← t_users d !! s_UserID s; Some (AuthGate.Session (u_Username u) (s_ExpiresAt s)).
Proof.
  unfold AuthGate.GetSessionUser, GetSession, unexpired, authdb_of. cbn [sessions]. rewrite lookup_omap.
  destruct (t_sessions d !! token) as [s|]; [|done]. cbn.
  destruct (t_users d !! s_UserID s) as [u|] eqn:Eu; cbn; destruct (_ <=? _); cbn; by rewrite ?Eu.
Qed.

Lemma gate_lookup h d : AuthGate.GetAPIKeyByHash h (authdb_of d) = gate_key <$> GetAPIKeyByHash h d.
Proof. unfold AuthGate.GetAPIKeyByHash, authdb_of. cbn. apply lookup_fmap. Qed.

Lemma prefix_splits p s : hasPrefix p s = true -> exists r, s = (p ++ r)%string.
Proof.
  revert s. induction p as [|a p IH]; intros s H; [by exists s|]. destruct s as [|b s]; [done|]. simpl in H.
  apply andb_true_iff in H as [Hab H]. zbool. subst b. destruct (IH _ H) as [r ->]. by exists r.
Qed.

(** The router gives no key request to the paths the middleware leaves open. *)
Lemma route_of_reserved r body : is_public r || is_internal r || is_jobs_post r = true -> route_of r body = HOther.
Proof.
  intros Hr. unfold route_of. destruct (bool_decide (r_Method r = _) && bool_decide _) eqn:E.
  - apply andb_true_iff in E as [Em Ep]. zbool. unfold is_public, is_internal, is_jobs_post in Hr. rewrite Em, Ep in Hr. vm_compute in Hr. done.
  - destruct (_ && hasPrefix _ _) eqn:E'; [|done]. apply andb_true_iff in E' as [Em Ep]. zbool. apply prefix_splits in Ep as [t Et].
    unfold is_public, is_internal, is_jobs_post in Hr. rewrite Em, Et in Hr. vm_compute in Hr. done.
Qed.

Lemma serve_leaves now by_ h : in_gate (hand_on now by_ h) = false.
Proof.
  destruct h as [[q|]|path|]; cbn; try done; [unfold key_create|unfold key_delete]; repeat case_match; done.
Qed.

Lemma gated_leaves now r h v : in_gate (gated now r h v) = false.
Proof. destruct v; [apply serve_leaves|done..]. Qed.

(** Every clock reading of a request that is alone is the same. *)
Definition at_once (now : Z) (fault : bool) : env := Env now now now (negb fault) (negb fault).

Section Alone.
Context (gen : string -> string -> option string) (cmp : string -> string -> bool) (cfg : Z) (now : Z) (dr : drawn) (fault : bool).
Context (r : request) (h : handler).

Lemma alone_left n p st : in_gate p = false -> gate_alone gen cmp cfg n now dr fault p st = (st, p).
Proof. intros Hp. destruct n; [done|]. cbn [gate_alone]. by rewrite Hp. Qed.

(** To decide a fault without touching the environment that names it. *)
Lemma if_flip {A} (b : bool) (x y : A) : (if b then x else y) = if negb b then y else x.
Proof. by destruct b. Qed.

Lemma gate_alone_step n p st : in_gate p = true ->
  gate_alone gen cmp cfg (S n) now dr fault p st = let '(st, p, _) := proceed gen cmp cfg now dr fault p st in gate_alone gen cmp cfg n now dr fault p st.
Proof. intros Hp. cbn [gate_alone]. by rewrite Hp. Qed.

(** The run [run] has the verdict [gv] and its changes. *)
Definition agrees (st : state) (gv : gate * verdict) (run : state * proc) : Prop :=
  gate_of now (fst run) = fst gv /\ snd run = gated now r h (snd gv) /\ st_db (fst run) = st_db st.

Lemma alone_ends n st st' g v p : st_db st' = st_db st -> gate_of now st' = g -> p = gated now r h v ->
  agrees st (g, v) (gate_alone gen cmp cfg n now dr fault p st').
Proof. intros Hd <- ->. rewrite alone_left by apply gated_leaves. by repeat split. Qed.

Lemma expiry_alone n st st' g k : st_db st' = st_db st -> gate_of now st' = g ->
  agrees st
    (if expired now k then (g <| keyCache ::= delete (key_hash (bearer r)) |>, Deny 401 "UNAUTHORIZED")
     else if bool_decide (requiredPermission (r_Method r) (r_Path r) ∈ k_Permissions k)
     then (g, Pass (Some (MkActor "api" "api_key" (k_ID k) (k_Name k)))) else (g, Deny 403 "FORBIDDEN"))
    (gate_alone gen cmp cfg (S n) now dr fault (PGateExpiry r h (key_hash (bearer r)) now k) st').
Proof.
  intros Hd <-. rewrite gate_alone_step by done. cbn [proceed]. destruct (expired now k).
  - by apply alone_ends.
  - destruct (bool_decide _).
    + by apply alone_ends.
    + by apply alone_ends.
Qed.

Lemma key_alone n st st' : st_db st' = st_db st ->
  agrees st (key_gate (at_once now fault) r (gate_of now st')) (gate_alone gen cmp cfg (S (S (S (S n)))) now dr fault (PGateKey r h) st').
Proof.
  intros Hd. unfold key_gate. rewrite gate_alone_step by done. cbn [proceed].
  destruct (bool_decide (bearer r = _)); [by apply alone_ends|].
  destruct (hasPrefix "orva_chn_" _); [by apply alone_ends|].
  destruct (_ || _); [by apply alone_ends|].
  set (hash := key_hash (bearer r)). unfold lookup_key. cbn [now_key now_expiry at_once key_db_ok].
  assert (forall st1 g, st_db st1 = st_db st -> gate_of now st1 = g -> agrees st
    match (if negb (negb fault) then (g, Err (Deny 503 "SERVICE_UNAVAILABLE"))
           else match AuthGate.GetAPIKeyByHash hash (gdb g) with
                | Some k => (g <| keyCache ::= <[hash := (k, now + keyCacheTTL)]> |>, Ok k)
                | None => (g, Err (Deny 401 "UNAUTHORIZED"))
                end) with
    | (g, Ok k) =>
      if expired now k then (g <| keyCache ::= delete hash |>, Deny 401 "UNAUTHORIZED")
      else if bool_decide (requiredPermission (r_Method r) (r_Path r) ∈ k_Permissions k)
      then (g, Pass (Some (MkActor "api" "api_key" (k_ID k) (k_Name k)))) else (g, Deny 403 "FORBIDDEN")
    | (g, Err v) => (g, v)
    end (gate_alone gen cmp cfg (S (S (S n))) now dr fault (PGateLook r h hash now) st1)) as Miss.
  { intros st1 g Hd1 <-. rewrite gate_alone_step by done. cbn [proceed]. rewrite negb_involutive, !(if_flip fault). destruct (negb fault); [|by apply alone_ends].
    cbn [gdb gate_of]. rewrite gate_lookup. destruct (GetAPIKeyByHash hash (st_db st1)) as [y|]; cbn [fmap option_fmap option_map].
    - rewrite gate_alone_step by done. cbn [proceed]. by apply expiry_alone.
    - by apply alone_ends. }
  destruct (st_keys st' !! hash) as [[k vu]|] eqn:Ek; change (keyCache (gate_of now st')) with (st_keys st'); rewrite Ek.
  - destruct (now <? vu) eqn:El; [by apply expiry_alone|].
    by apply Miss.
  - replace (gate_of now st' <| keyCache ::= delete hash |>) with (gate_of now st'); [by apply Miss|].
    unfold gate_of. cbn. by rewrite delete_id.
Qed.

Lemma session_alone st : agrees st
    (let '(g, o) := try_session (at_once now fault) r (gate_of now st) in match o with Some v => (g, v) | None => key_gate (at_once now fault) r g end)
    (gate_alone gen cmp cfg (S (S (S (S (S (S (S O))))))) now dr fault (match c_session r with Some token => PGateSession r h token | None => PGateKey r h end) st).
Proof.
  unfold try_session. destruct (c_session r) as [token|] eqn:Ec; [|by apply (key_alone 3)].
  assert (forall st1 g, st_db st1 = st_db st -> gate_of now st1 = g -> agrees st
    (let '(g, o) :=
       match (if negb fault then AuthGate.GetSessionUser now token (gdb g) else None) with
       | Some u => (g <| sessionCache ::= <[token := now + sessionCacheTTL]> |>,
                    Some (session_verdict token (if bool_decide (s_username u = ""%string) then "session" else s_username u)))
       | None => (g, None)
       end in match o with Some v => (g, v) | None => key_gate (at_once now fault) r g end)
    (gate_alone gen cmp cfg (S (S (S (S (S (S O)))))) now dr fault (PGateRead r h token now) st1)) as Miss.
  { intros st1 g Hd1 <-. rewrite gate_alone_step by done. cbn [proceed]. rewrite !(if_flip fault). destruct (negb fault); [|by apply (key_alone 1)].
    cbn [gdb gate_of]. rewrite gate_session. unfold GetSessionUser.
    destruct (GetSession now token (st_db st1)) as [s|]; cbn [mbind option_bind]; [|by apply (key_alone 1)].
    destruct (t_users _ !! _) as [u|]; cbn [mbind option_bind]; [|by apply (key_alone 1)].
    rewrite gate_alone_step by done. cbn [proceed]. apply alone_ends; [done..|]. unfold admit_session, session_verdict, gated, principal_of.
    destruct (_ <? 8)%nat; [done|]. cbn. by rewrite Ec. }
  rewrite gate_alone_step by done. cbn [proceed]. change (sessionCache (gate_of now st)) with (st_sessions st).
  destruct (st_sessions st !! token) as [vu|]; cbn [now_session session_db_ok at_once]; [|by apply Miss].
  destruct (now <? vu); [|by apply Miss].
  apply alone_ends; [done..|]. unfold admit_session, session_verdict, gated, principal_of.
  destruct (_ <? 8)%nat; [done|]. cbn. by rewrite Ec.
Qed.
End Alone.

(** A request that is alone with the gate gets the verdict of [authMiddleware],
    from the same memos and with the same changes to them, and goes on to the
    handler the router names under the credential the verdict speaks of. *)
Lemma middleware_alone_is_the_gate gen cmp cfg now dr fault r body st :
  agrees now r (route_of r body) st (authMiddleware (at_once now fault) r (gate_of now st))
    (gate_alone gen cmp cfg 7 now dr fault (gate_enter r (route_of r body) (st_sdk st)) st).
Proof.
  unfold authMiddleware, gate_enter. pose proof (route_of_reserved r body) as Hres.
  destruct (is_public r) eqn:E1; [by rewrite Hres by done|]. destruct (is_internal r) eqn:E2.
  { rewrite Hres by done. cbn [sdkAuth gate_of]. by destruct (Verify _ _). }
  cbn [sdkAuth gate_of]. destruct (is_jobs_post r) eqn:E3; [|apply session_alone].
  rewrite Hres by done. destruct (Verify _ _); [done|apply session_alone].
Qed.

(* ------------------------------------------------------------------ *)
(** ** A key from its minting to its use *)

Lemma days_exact n : 0 < n <= maxExpiresInDays -> days n = n * 24 * hour.
Proof.
  unfold maxExpiresInDays. intros Hn. unfold days, hour. rewrite (wrap64_id (n * 24)); [|unfold in_int64, int64_min, int64_max; lia].
  apply wrap64_id. unfold in_int64, int64_min, int64_max. lia.
Qed.

(** The one surface without the cap still wraps: two hundred thousand days
    lie in the past. *)
Example days_wrap : days 200000 < 0.
Proof. vm_compute. done. Qed.

(** Zero or negative days make a key that never expires. *)
Example no_days_is_for_ever : key_expiry 0 (MkCreateKey "ci" [] None (Some (-1))) = None.
Proof. done. Qed.

Lemma not_in_hex raw c : Forall is_byte raw -> is_hex_lower c = false -> c ∉ bytes (of_bytes (hex_encode raw)).
Proof.
  intros Hr Hc. destruct (hex_encode_digits raw Hr) as [_ Hd]. rewrite forallb_forall in Hd.
  assert (Forall (fun b => 0 <= b < 256) (hex_encode raw)) as Hb.
  { apply Forall_forall. intros x Hx%list_elem_of_In%Hd. unfold is_hex_lower in Hx. apply orb_true_iff in Hx.
    rewrite !andb_true_iff, !Z.leb_le in Hx. lia. }
  rewrite bytes_of_bytes by done. intros Hin%list_elem_of_In%Hd. congruence.
Qed.

(** No minted key is mistaken for a token of the tool endpoint. *)
Lemma minted_not_mcp raw p c : Forall is_byte raw -> is_hex_lower c = false -> c ∈ bytes p -> hasPrefix ("orva_" ++ p) (plaintext_of raw) = false.
Proof.
  intros Hr Hc Hp. destruct (hasPrefix _ _) eqn:E; [|done]. apply prefix_splits in E as [t E].
  apply (f_equal bytes) in E. unfold plaintext_of in E. rewrite !bytes_app, <- app_assoc in E. apply app_inv_head in E.
  exfalso. apply (not_in_hex raw c Hr Hc). rewrite E. apply elem_of_app. by left.
Qed.

(** What is asked for when a key is minted is what the gate admits by it: the
    answer's plaintext, presented while the row is there, passes exactly until
    the time asked for (days are counted without overflow; no days, or a number
    of days that is not positive, never end) and exactly for the permissions
    asked for, all four when none was named. *)
Theorem minted_keys_admit_what_they_say gen cmp cfg now by_ q dr st st1 id plaintext prefix name perms expires st2 now' r :
  Forall is_byte (d_raw dr) -> Forall (fun p => validUTF8 p = true) (key_permissions q) ->
  key_create now by_ (Some q) = PKeyInsert by_ name perms expires ->
  proceed gen cmp cfg now dr false (PKeyInsert by_ name perms expires) st = (st1, PDone (AKey id plaintext prefix name perms expires), None) ->
  t_keys (st_db st2) !! key_hash plaintext = t_keys (st_db st1) !! key_hash plaintext -> st_keys st2 !! key_hash plaintext = None ->
  h_APIKey r = plaintext -> c_session r = None -> is_public r || is_internal r || is_jobs_post r = false ->
  (authMiddleware (at_once now' false) r (gate_of now' st2)).2 =
    (if match expires with Some t => t <? now' | None => false end then Deny 401 "UNAUTHORIZED"
     else if bool_decide (requiredPermission (r_Method r) (r_Path r) ∈ match q_Permissions q with [] => defaultKeyPermissions | l => l end)
     then Pass (Some (MkActor "api" "api_key" id (q_Name q))) else Deny 403 "FORBIDDEN") /\
  expires = match q_ExpiresAt q, q_ExpiresInDays q with
            | Some t, _ => Some t
            | None, Some n => if 0 <? n then Some (now + n * (24 * hour)) else None
            | None, None => None
            end.
Proof.
  intros Hraw Hv Hq Ha Hrow Hmemo Hkey Hc [[Hp1 Hp2]%orb_false_iff Hp3]%orb_false_iff. unfold key_create in Hq. split_ifs_in Hq. injection Hq as <- <- <-. split.
  - cbn [proceed] in Ha. unfold InsertAPIKey in Ha. cbn zeta beta in Ha.
    destruct (t_keys (st_db st) !! _) eqn:E1; [done|]. destruct (GetAPIKeyByID _ _) eqn:E2; [done|].
    injection Ha as <- <- <- <-. cbn [st_db t_keys set_field eta] in Hrow. unfold set_field, eta, eta_state, eta_adb in Hrow. cbn in Hrow.
    rewrite lookup_insert_eq in Hrow.
    unfold authMiddleware. rewrite Hp1, Hp2, Hp3. unfold try_session. rewrite Hc. unfold key_gate.
    assert (bearer r = plaintext_of (d_raw dr)) as -> by (unfold bearer; rewrite Hkey; done).
    rewrite bool_decide_eq_false_2 by done.
    rewrite (minted_not_mcp _ "chn_" 104), (minted_not_mcp _ "oat_" 111), (minted_not_mcp _ "ort_" 111) by (try done; set_solver).
    unfold lookup_key. change (keyCache (gate_of now' st2)) with (st_keys st2). rewrite Hmemo. cbn [key_db_ok at_once negb].
    change (gdb (gate_of now' st2 <| keyCache ::= delete (key_hash (plaintext_of (d_raw dr))) |>)) with (authdb_of (st_db st2)).
    rewrite gate_lookup. unfold GetAPIKeyByHash. rewrite Hrow. cbn [fmap option_fmap option_map]. unfold expired. cbn [k_ExpiresAt gate_key y_ExpiresAt key_row now_expiry at_once].
    assert (k_Permissions (gate_key (key_row now (d_id dr) (plaintext_of (d_raw dr)) (q_Name q) (key_permissions q) (key_expiry now q))) = key_permissions q) as EP
      by (cbn; by apply PermissionsList_permsJSON).
    destruct (key_expiry now q) as [t|]; [destruct (t <? now'); [done|]|]; rewrite EP; unfold key_permissions; by destruct (bool_decide _).
  - unfold key_expiry. destruct (q_ExpiresAt q); [done|]. destruct (q_ExpiresInDays q) as [n|]; [|done].
    destruct (0 <? n) eqn:En; [|done]. zbool. rewrite days_exact by lia. f_equal. lia.
Qed.

Definition demo_ask : createKeyRequest := MkCreateKey "ci" ["read"%string] None (Some 30).
Definition demo_drawn : drawn := Drawn (repeat 2 32) "" "k1".
Definition demo_empty : state := MkState no_rows ∅ ∅ None newRateLimiter.
Definition demo_no_bcrypt (_ _ : string) : option string := None.
Definition demo_insert : proc := PKeyInsert None "ci" ["read"%string] (Some (30 * 24 * hour)).
Definition demo_minted : state := fst (fst (proceed demo_no_bcrypt (fun _ _ => false) 0 0 demo_drawn false demo_insert demo_empty)).

(** Accepted until the thirty days are over, and for reading only. *)
Lemma minted_keys_admit_what_they_say_witness :
  let plaintext := plaintext_of (repeat 2 32) in
  let use now method := snd (authMiddleware (at_once now false) (Request method "/api/v1/functions" "" plaintext "" None) (gate_of now demo_minted)) in
  use (30 * 24 * hour) "GET"%string = Pass (Some (MkActor "api" "api_key" "k1" "ci")) /\
  use (30 * 24 * hour + 1) "GET"%string = Deny 401 "UNAUTHORIZED" /\ use second "POST"%string = Deny 403 "FORBIDDEN".
Proof.
  intros plaintext use.
  assert (forall now r, h_APIKey r = plaintext -> c_session r = None -> is_public r || is_internal r || is_jobs_post r = false ->
    snd (authMiddleware (at_once now false) r (gate_of now demo_minted)) =
    (if 30 * 24 * hour <? now then Deny 401 "UNAUTHORIZED"
     else if bool_decide (requiredPermission (r_Method r) (r_Path r) ∈ ["read"%string])
     then Pass (Some (MkActor "api" "api_key" "k1" "ci")) else Deny 403 "FORBIDDEN")) as H.
  { intros now r H1 H2 H3.
    refine (proj1 (minted_keys_admit_what_they_say demo_no_bcrypt (fun _ _ => false) 0 0 None demo_ask demo_drawn demo_empty demo_minted
      "k1" plaintext (str_take 12 plaintext) "ci" ["read"%string] (Some (30 * 24 * hour)) demo_minted now r _ _ _ _ _ _ H1 H2 H3)).
    - repeat constructor; lia.
    - repeat constructor.
    - reflexivity.
    - vm_compute. reflexivity.
    - reflexivity.
    - vm_compute. reflexivity. }
  subst use. cbv beta. split_and!; (rewrite H; [vm_compute; reflexivity..]).
Defined.
