(* ===== verification/AccountsFlow.v ===== *)
(** * Interleaved account requests

    The machine of the account handlers and the middleware: requests in flight,
    each between two accesses, with the sweep of expired sessions and restarts
    between them.  Its theorems say where the credentials that admit anybody
    come from, and what the end of one guarantees. *)
From S2P Require Import Prelude GoText Sha256 SdkAuth AuthGate Json Limiter Sql Memo Accounts.
Open Scope Z_scope.

(* ------------------------------------------------------------------ *)
(** ** The machine *)

(** Where a row came from. *)
Inductive origin :=
| Bootstrap                                          (** the key file *)
| Minted (by_ : caller_cred)                           (** [POST /api/v1/keys] *)
| Onboarded (how : claim) (uid : Z)
| Password (uid : Z) (hash pw : string)              (** a login that matched this hash *)
| Renewed (old : string).                            (** a refresh of this session *)

(** Beside the state: every state of the tables so far, where each token (each
    key's hash) that was ever in a table came from, when it last left, and who
    was admitted by it, with the clock the request had read. *)
Record world := World {
  w_state : state;
  w_procs : gmap nat proc;
  w_now : Z;
  w_keyfile : option string;
  w_history : list adb;
  w_sorigin : gmap string origin;
  w_korigin : gmap string origin;
  w_sdead : gmap string Z;
  w_kdead : gmap string Z;
  w_sin : list (Z * string);
  w_kin : list (Z * string) }.
#[export] Instance eta_world : Eta world := fun w =>
  World (w_state w) (w_procs w) (w_now w) (w_keyfile w) (w_history w) (w_sorigin w) (w_korigin w) (w_sdead w) (w_kdead w) (w_sin w) (w_kin w).

Definition w_db (w : world) : adb := st_db (w_state w).

Definition fresh_install (now : Z) : world :=
  World (MkState no_rows ∅ ∅ None newRateLimiter) ∅ now None [no_rows] ∅ ∅ ∅ ∅ [] [].

(** Rows that are new to a table come from [o]. *)
Definition birth {A} (o : option origin) (old new : gmap string A) (m : gmap string origin) : gmap string origin :=
  match o with Some o => m ∪ ((fun _ => o) <$> (new ∖ old)) | None => m end.

Definition session_origin (p : proc) : option origin :=
  match p with
  | POnSession how uid => Some (Onboarded how uid)
  | PLoginSession uid hash pw => Some (Password uid hash pw)
  | PRefreshCreate old _ => Some (Renewed old)
  | _ => None
  end.

Definition key_origin (p : proc) : option origin := match p with PKeyInsert by_ _ _ _ => Some (Minted by_) | _ => None end.

Definition by_sessions (adm : option (cred * Z)) : option (Z * string) :=
  match adm with Some (CSession token, n) => Some (n, token) | _ => None end.
Definition by_keys (adm : option (cred * Z)) : option (Z * string) :=
  match adm with Some (CKey hash, n) => Some (n, hash) | _ => None end.

(** What is remembered of a step to [st]. *)
Definition commit_step (so ko : option origin) (adm : option (cred * Z)) (st : state) (procs : gmap nat proc) (keyfile : option string) (w : world) : world :=
  let d := w_db w in let d' := st_db st in
  World st procs (w_now w) keyfile (d' :: w_history w)
    (birth so (t_sessions d) (t_sessions d') (w_sorigin w)) (birth ko (t_keys d) (t_keys d') (w_korigin w))
    (bury (w_now w) (t_sessions d) (t_sessions d') (w_sdead w)) (bury (w_now w) (t_keys d) (t_keys d') (w_kdead w))
    (log_in (by_sessions adm) (w_sin w)) (log_in (by_keys adm) (w_kin w)).

Definition is_byteb (b : Z) : bool := (0 <=? b) && (b <? 256).

(** Drawn bytes are new: [crypto/rand] does not repeat itself, and the hashes
    of two keys differ. *)
Definition fresh (dr : drawn) (w : world) : bool :=
  (length (d_raw dr) =? 32)%nat && forallb is_byteb (d_raw dr) &&
  negb (bool_decide (is_Some (w_sorigin w !! token_of (d_raw dr)))) &&
  negb (bool_decide (is_Some (w_korigin w !! key_hash (plaintext_of (d_raw dr))))).

Definition draws (p : proc) : bool :=
  match session_origin p, key_origin p with None, None => false | _, _ => true end.

Inductive event :=
| EvCall (pid : nat) (c : call)
| EvRun (pid : nat) (dr : drawn) (fault : bool)
| EvPurge                                   (** the retention sweep *)
| EvTouchKey (hash : string)                (** the last use of a key, written behind its request *)
| EvFunctions (n : Z)                       (** deployments and removals elsewhere *)
| EvSdk (a : option Authenticator)
| EvBoot (dr : drawn) (f : boot_faults).    (** a restart of the daemon *)

Section Flow.
Context (bcrypt_generate : string -> string -> option string) (bcrypt_compare : string -> string -> bool) (max_age_config : Z).

Definition step (ev : event) (w : world) : option world :=
  let st := w_state w in
  match ev with
  | EvCall pid c =>
    match w_procs w !! pid with
    | Some _ => None
    | None => let '(st, p) := start (w_now w) c st in Some (commit_step None None None st (<[pid := p]> (w_procs w)) (w_keyfile w) w)
    end
  | EvRun pid dr fault =>
    p ← w_procs w !! pid;
    if draws p && negb (fresh dr w) then None
    else
      let '(st, p', adm) := proceed bcrypt_generate bcrypt_compare max_age_config (w_now w) dr fault p st in
      Some (commit_step (session_origin p) (key_origin p) adm st (<[pid := p']> (w_procs w)) (w_keyfile w) w)
  | EvPurge => Some (commit_step None None None (st <| st_db := purge_sessions (w_now w) (st_db st) |>) (w_procs w) (w_keyfile w) w)
  | EvTouchKey h => Some (commit_step None None None (st <| st_db := UpdateAPIKeyLastUsed (w_now w) h (st_db st) |>) (w_procs w) (w_keyfile w) w)
  | EvFunctions n => Some (commit_step None None None (st <| st_db := st_db st <| t_functions := n |> |>) (w_procs w) (w_keyfile w) w)
  | EvSdk a => Some (commit_step None None None (st <| st_sdk := a |>) (w_procs w) (w_keyfile w) w)
  | EvBoot dr f =>
    if negb (fresh dr w) then None
    else
      let '(d, keyfile) := bootstrapAdminKey (w_now w) dr f (w_keyfile w) (st_db st) in
      Some (commit_step None (Some Bootstrap) None (MkState d ∅ ∅ None newRateLimiter) ∅ keyfile w)
  end.

(** Each event at its own instant; time does not go back. *)
Fixpoint run (es : list (Z * event)) (w : world) : option world :=
  match es with
  | [] => Some w
  | (t, ev) :: es => if t <? w_now w then None else w ← step ev (w <| w_now := t |>); run es w
  end.

Lemma run_app es1 es2 w w' : run (es1 ++ es2) w = Some w' <-> exists w1, run es1 w = Some w1 /\ run es2 w1 = Some w'.
Proof.
  revert w. induction es1 as [|[t ev] es1 IH]; intros w; simpl.
  - split; [intros H; by exists w|by intros (w1 & [= <-] & H)].
  - destruct (t <? w_now w); [split; [done|by intros (? & ? & _)]|].
    destruct (step ev _) as [w1|]; simpl; [apply IH|split; [done|by intros (? & ? & _)]].
Qed.

End Flow.

(* ------------------------------------------------------------------ *)
(** ** Each step on the two memos *)

Definition s_view (p : proc) : option (string * Z) := match p with PGateStore _ _ token n _ => Some (token, n) | _ => None end.
Definition s_none (p : proc) : option (string * Z) := None.
Definition k_view (p : proc) : option (string * Z) := match p with PGateKeep _ _ h n _ => Some (h, n) | _ => None end.
Definition k_holds (p : proc) : option (string * Z) := match p with PGateExpiry _ _ h n _ => Some (h, n) | _ => None end.

Definition s_book (w : world) : book :=
  Book (table (t_sessions (w_db w))) (w_sdead w) (st_sessions (w_state w)) (seen_by s_view (w_procs w)) (seen_by s_none (w_procs w)) (w_sin w).
Definition k_book (w : world) : book :=
  Book (table (t_keys (w_db w))) (w_kdead w) (snd <$> st_keys (w_state w)) (seen_by k_view (w_procs w)) (seen_by k_holds (w_procs w)) (w_kin w).

(** The clock a request in the middleware has read. *)
Definition clocked (now : Z) (p : proc) : Prop :=
  match p with PGateRead _ _ _ n | PGateLook _ _ _ n => n <= now | _ => True end.

Lemma outside_views p : in_gate p = false -> s_view p = None /\ k_view p = None /\ k_holds p = None.
Proof. by destruct p. Qed.

(** The helpers of the handlers never lead into the middleware. *)
Lemma onboard_body_out how body : in_gate (onboard_body how body) = false.
Proof. unfold onboard_body. repeat case_match; done. Qed.
Lemma onboard_in_use_out r body : in_gate (onboard_in_use r body) = false.
Proof. unfold onboard_in_use. by case_match. Qed.
Lemma change_body_out token uid body : in_gate (change_body token uid body) = false.
Proof. unfold change_body. repeat case_match; done. Qed.
Lemma revoke_checks_out token prefix allow uid : in_gate (revoke_checks token prefix allow uid) = false.
Proof. unfold revoke_checks. repeat case_match; done. Qed.
Lemma revokeSession_out token a : in_gate (revokeSession token a) = false.
Proof. unfold revokeSession. by case_match. Qed.
Lemma admit_session_out now h token : in_gate (admit_session now h token) = false.
Proof. unfold admit_session. case_match; [done|apply serve_leaves]. Qed.

Create HintDb outside.
#[export] Hint Resolve onboard_body_out onboard_in_use_out change_body_out revoke_checks_out revokeSession_out admit_session_out serve_leaves : outside.

Section Steps.
Context (gen : string -> string -> option string) (cmp : string -> string -> bool) (cfg : Z).
Context (now : Z) (dr : drawn) (fault : bool).

(** A handler outside the middleware touches no memo but to forget a session
    or a key, and admits nobody. *)
Lemma advance_outside p st st' p' adm : in_gate p = false -> proceed gen cmp cfg now dr fault p st = (st', p', adm) ->
  in_gate p' = false /\ adm = None /\ st_sessions st' ⊆ st_sessions st /\ st_keys st' ⊆ st_keys st /\ st_sdk st' = st_sdk st.
Proof.
  intros Hp. destruct p; try discriminate Hp; cbn [proceed]; intros H;
    repeat (case_in H; try (injection H as <- <- <-; split_and!; cbn; eauto with outside; done)).
  all: injection H as <- <- <-; split_and!; cbn; eauto with outside; first [done|apply delete_subseteq].
Qed.

(** A step in the middleware leaves the tables alone. *)
Lemma advance_inside p st st' p' adm : in_gate p = true -> proceed gen cmp cfg now dr fault p st = (st', p', adm) -> st_db st' = st_db st /\ st_sdk st' = st_sdk st.
Proof.
  intros Hp. destruct p; try discriminate Hp; cbn [proceed]; intros H; repeat case_in H; by injection H as <- _ _.
Qed.

Lemma advance_sessions p st st' p' adm : clocked now p -> proceed gen cmp cfg now dr fault p st = (st', p', adm) ->
  effect sessionCacheTTL s_view s_none now (table (t_sessions (st_db st))) (st_sessions st) p (st_sessions st') p' (by_sessions adm).
Proof.
  intros Hc H. destruct (in_gate p) eqn:Hp.
  2: { apply advance_outside in H as (Ho & -> & Hm & _); [|done]. apply outside_views in Ho as (? & _). by apply ef_idle. }
  destruct p; try discriminate Hp; cbn [proceed] in H.
  - destruct (st_sessions st !! token) as [vu|] eqn:E; [destruct (now <? vu) eqn:El|]; injection H as <- <- <-.
    + apply (ef_memo_pass _ _ _ _ _ _ _ _ token); [exists vu; split; [done|lia]|by apply outside_views, admit_session_out|done].
    + by apply ef_idle; [apply delete_subseteq|..].
    + by apply ef_idle.
  - case_in H.
    + destruct p as [uid u]. injection H as <- <- <-. destruct fault; [done|].
      apply (ef_read _ _ _ _ _ _ _ _ token n); [|done..]. unfold GetSessionUser, GetSession in E.
      destruct (t_sessions (st_db st) !! token) eqn:Es; [by eexists|done].
    + injection H as <- <- <-. by apply ef_idle.
  - injection H as <- <- <-. apply (ef_store_pass _ _ _ _ _ _ _ _ token n); [done|by apply outside_views, admit_session_out|done].
  - repeat case_in H; injection H as <- <- <-; by apply ef_idle.
  - repeat case_in H; injection H as <- <- <-; by apply ef_idle.
  - injection H as <- <- <-; by apply ef_idle.
  - repeat case_in H; injection H as <- <- <-; apply ef_idle; try done. by apply outside_views, serve_leaves.
Qed.

Lemma advance_keys p st st' p' adm : clocked now p -> proceed gen cmp cfg now dr fault p st = (st', p', adm) ->
  effect keyCacheTTL k_view k_holds now (table (t_keys (st_db st))) (snd <$> st_keys st) p (snd <$> st_keys st') p' (by_keys adm).
Proof.
  intros Hc H. destruct (in_gate p) eqn:Hp.
  2: { apply advance_outside in H as (Ho & -> & _ & Hm & _); [|done]. apply outside_views in Ho as (_ & ? & ?). by apply ef_idle; [apply map_fmap_mono|..]. }
  destruct p; try discriminate Hp; cbn [proceed] in H.
  - pose proof (outside_views _ (admit_session_out now h token)) as (_ & ? & ?).
    repeat case_in H; injection H as <- <- <-; by apply ef_idle.
  - repeat case_in H; injection H as <- <- <-; by apply ef_idle.
  - pose proof (outside_views _ (admit_session_out now h token)) as (_ & ? & ?). injection H as <- <- <-. by apply ef_idle.
  - repeat (case_in H; try (injection H as <- <- <-; by apply ef_idle)); injection H as <- <- <-.
    + apply (ef_hit _ _ _ _ _ _ _ _ (key_hash (bearer r))); [|done..]. exists z. rewrite lookup_fmap, E2. zbool. by split.
    + apply ef_idle; [apply map_fmap_mono, delete_subseteq|done..].
  - repeat (case_in H; try (injection H as <- <- <-; by apply ef_idle)); injection H as <- <- <-.
    apply (ef_read _ _ _ _ _ _ _ _ hash n); [|done..]. by eexists.
  - injection H as <- <- <-. cbn. rewrite fmap_insert. by apply (ef_store_hold _ _ _ _ _ _ _ _ hash n).
  - pose proof (outside_views _ (serve_leaves now (Some (CKey hash)) h)) as (_ & ? & ?).
    repeat case_in H; injection H as <- <- <-; cbn [by_keys by_sessions].
    + apply ef_idle; [apply map_fmap_mono, delete_subseteq|done..].
    + by apply (ef_pass _ _ _ _ _ _ _ _ hash n).
    + by apply ef_idle.
Qed.

(** Rows enter the tables by the two INSERTs only. *)
Definition session_rows (p : proc) (d d' : adb) : Prop :=
  forall k, is_Some (t_sessions d' !! k) -> is_Some (t_sessions d !! k) \/ (k = token_of (d_raw dr) /\ is_Some (session_origin p)).
Definition key_rows (p : proc) (d d' : adb) : Prop :=
  forall k, is_Some (t_keys d' !! k) -> is_Some (t_keys d !! k) \/ (k = key_hash (plaintext_of (d_raw dr)) /\ is_Some (key_origin p)).

Lemma rows_kept p d d' : t_sessions d' ⊆ t_sessions d -> t_keys d' ⊆ t_keys d -> session_rows p d d' /\ key_rows p d d'.
Proof. intros Hs Hk. split; intros k [v Hv]; left; exists v; by eapply lookup_weaken. Qed.

Lemma rows_session p d token row : token = token_of (d_raw dr) -> is_Some (session_origin p) ->
  session_rows p d (d <| t_sessions ::= <[token := row]> |>) /\ key_rows p d (d <| t_sessions ::= <[token := row]> |>).
Proof.
  intros -> Ho. split; intros k [v Hv]; [|left; by eexists]. cbn in Hv.
  apply lookup_insert_Some in Hv as [[<- _]|[_ Hv]]; [by right|left; by eexists].
Qed.

Lemma rows_key p d h row : h = key_hash (plaintext_of (d_raw dr)) -> is_Some (key_origin p) ->
  session_rows p d (d <| t_keys ::= <[h := row]> |>) /\ key_rows p d (d <| t_keys ::= <[h := row]> |>).
Proof.
  intros -> Ho. split; intros k [v Hv]; [left; by eexists|]. cbn in Hv.
  apply lookup_insert_Some in Hv as [[<- _]|[_ Hv]]; [by right|left; by eexists].
Qed.

Lemma advance_tables p st st' p' adm : proceed gen cmp cfg now dr fault p st = (st', p', adm) ->
  session_rows p (st_db st) (st_db st') /\ key_rows p (st_db st) (st_db st').
Proof.
  intros H. destruct (in_gate p) eqn:Hp; [apply advance_inside in H as [-> _]; [by apply rows_kept|done]|].
  destruct p; try discriminate Hp; cbn [proceed] in H;
    try (repeat case_in H; injection H as <- <- <-; by apply rows_kept).
  - repeat case_in H; injection H as <- <- <-; [|by apply rows_kept]. destruct p as [d uid].
    apply bind_Some in E as (hash & _ & E). destruct fault; [done|]. unfold CreateUser in E. case_in E. injection E as <- _. by apply rows_kept.
  - repeat case_in H; injection H as <- <- <-; [|by apply rows_kept].
    destruct fault; [done|]. unfold CreateSession in E. case_in E. injection E as <-. by apply rows_session.
  - repeat case_in H; injection H as <- <- <-; [|by apply rows_kept].
    destruct fault; [done|]. unfold CreateSession in E. case_in E. injection E as <-. by apply rows_session.
  - repeat case_in H; injection H as <- <- <-; [|by apply rows_kept].
    destruct fault; [done|]. unfold CreateSession in E. case_in E. injection E as <-. by apply rows_session.
  - destruct fault; [injection H as <- <- <-; by apply rows_kept|]. cbn in H. injection H as <- <- <-. apply rows_kept; [apply map_filter_subseteq|done].
  - repeat case_in H; injection H as <- <- <-; apply rows_kept; try done; cbn; apply delete_subseteq.
  - injection H as <- <- <-. destruct fault; apply rows_kept; try done; cbn; apply delete_subseteq.
  - repeat case_in H; injection H as <- <- <-; [|by apply rows_kept].
    destruct fault; [done|]. unfold InsertAPIKey in E. repeat case_in E. injection E as <-. by apply rows_key.
  - repeat case_in H; injection H as <- <- <-; apply rows_kept; try done; cbn; apply map_filter_subseteq.
Qed.
End Steps.

(* ------------------------------------------------------------------ *)
(** ** Each step of the machine on the two books *)

Definition s_ins (w w' : world) (k : string) : Prop := is_Some (t_sessions (w_db w') !! k) /\ t_sessions (w_db w) !! k = None.
Definition k_ins (w w' : world) (k : string) : Prop := is_Some (t_keys (w_db w') !! k) /\ t_keys (w_db w) !! k = None.

Lemma commit_s_moves so ko adm st procs kf w :
  let w' := commit_step so ko adm st procs kf w in
  moves sessionCacheTTL (s_ins w w') (w_now w) (s_book w)
    (Book (table (t_sessions (w_db w))) (w_sdead w) (st_sessions st) (seen_by s_view procs) (seen_by s_none procs) (log_in (by_sessions adm) (w_sin w))) ->
  moves sessionCacheTTL (s_ins w w') (w_now w) (s_book w) (s_book w').
Proof.
  intros w' H. eapply moves_trans; [exact H|]. apply moves_one, move_table. intros k Hk. unfold s_ins.
  destruct (t_sessions (w_db w) !! k) eqn:E; [left; by eexists|right; by split].
Qed.

Lemma commit_k_moves so ko adm st procs kf w :
  let w' := commit_step so ko adm st procs kf w in
  moves keyCacheTTL (k_ins w w') (w_now w) (k_book w)
    (Book (table (t_keys (w_db w))) (w_kdead w) (snd <$> st_keys st) (seen_by k_view procs) (seen_by k_holds procs) (log_in (by_keys adm) (w_kin w))) ->
  moves keyCacheTTL (k_ins w w') (w_now w) (k_book w) (k_book w').
Proof.
  intros w' H. eapply moves_trans; [exact H|]. apply moves_one, move_table. intros k Hk. unfold k_ins.
  destruct (t_keys (w_db w) !! k) eqn:E; [left; by eexists|right; by split].
Qed.

(** A step that adds no reader and no memo. *)
Lemma idle_moves so ko st procs kf w :
  (forall pid p, procs !! pid = Some p -> w_procs w !! pid = Some p \/ s_view p = None /\ k_view p = None /\ k_holds p = None) ->
  st_sessions st ⊆ st_sessions (w_state w) -> st_keys st ⊆ st_keys (w_state w) ->
  let w' := commit_step so ko None st procs kf w in
  moves sessionCacheTTL (s_ins w w') (w_now w) (s_book w) (s_book w') /\ moves keyCacheTTL (k_ins w w') (w_now w) (k_book w) (k_book w').
Proof.
  intros Hp Hs Hk w'. split; [apply commit_s_moves|apply commit_k_moves]; apply moves_one.
  - apply (mv_shrink _ _ _ (s_book w)); cbn; try done; intros k n (pid & p & Hin & Hv); [|done].
    destruct (Hp _ _ Hin) as [?|(E & _)]; [by exists pid, p|congruence].
  - apply (mv_shrink _ _ _ (k_book w)); cbn; try done; [by apply map_fmap_mono|..]; intros k n (pid & p & Hin & Hv);
      (destruct (Hp _ _ Hin) as [?|(_ & E1 & E2)]; [by exists pid, p|congruence]).
Qed.

Lemma start_idle now c st st' p : start now c st = (st', p) ->
  st_db st' = st_db st /\ st_sessions st' = st_sessions st /\ st_keys st' = st_keys st /\ clocked now p /\
  s_view p = None /\ k_view p = None /\ k_holds p = None.
Proof.
  destruct c; cbn [start]; intros H; try (injection H as <- <-; done).
  - destruct (Allow _ _ _ _ _ _) as [rl []]; injection H as <- <-; [|done]. by destruct body as [[??]|].
  - injection H as <- <-. by destruct cookie.
  - injection H as <- <-. by destruct cookie.
  - injection H as <- <-. by destruct cookie.
  - injection H as <- <-. by destruct cookie.
  - injection H as <- <-. by destruct cookie.
  - injection H as <- <-. destruct cookie; [|done]. unfold revokeSession. by case_match.
  - injection H as <- <-. unfold gate_enter. repeat case_match; done.
Qed.

Section Books.
Context (gen : string -> string -> option string) (cmp : string -> string -> bool) (cfg : Z).

Definition clocks_ok (w : world) : Prop := forall pid p, w_procs w !! pid = Some p -> clocked (w_now w) p.

Definition books_ok (w : world) : Prop := memo_ok sessionCacheTTL (w_now w) (s_book w) /\ memo_ok keyCacheTTL (w_now w) (k_book w).

Definition step_moves (w w' : world) : Prop :=
  moves sessionCacheTTL (s_ins w w') (w_now w) (s_book w) (s_book w') /\ moves keyCacheTTL (k_ins w w') (w_now w) (k_book w) (k_book w').

Lemma run_moves pid dr fault w w' : clocks_ok w -> books_ok w -> step gen cmp cfg (EvRun pid dr fault) w = Some w' -> step_moves w w'.
Proof.
  intros Hc [Hs Hk] H. unfold step in H. apply bind_Some in H as (p & Hp & H). destruct (_ && _); [done|].
  destruct (proceed _ _ _ _ _ _ _ _) as [[st p'] adm] eqn:Ea. injection H as <-. specialize (Hc _ _ Hp). split.
  - apply commit_s_moves. by eapply moves_requests; [|exact Hs|exact Hp|eapply advance_sessions].
  - apply commit_k_moves. by eapply moves_requests; [|exact Hk|exact Hp|eapply advance_keys].
Qed.

Lemma any_moves ev w w' : clocks_ok w -> books_ok w -> step gen cmp cfg ev w = Some w' -> step_moves w w'.
Proof.
  intros Hc Hb H. destruct ev as [pid c|pid dr fault| | | | |dr f]; [|by eapply run_moves|..].
  - cbn in H. destruct (w_procs w !! pid) eqn:E; [done|]. destruct (start _ _ _) as [st p] eqn:Es. injection H as <-.
    apply start_idle in Es as (_ & E1 & E2 & _ & Hv). apply idle_moves; [|by rewrite E1|by rewrite E2].
    intros pid' p' [[<- <-]|[_ ?]]%lookup_insert_Some; [by right|by left].
  - injection H as <-. apply idle_moves; [by left|done..].
  - injection H as <-. apply idle_moves; [by left|done..].
  - injection H as <-. apply idle_moves; [by left|done..].
  - injection H as <-. apply idle_moves; [by left|done..].
  - cbn in H. destruct (negb _); [done|]. destruct (bootstrapAdminKey _ _ _ _ _) as [d kf]. injection H as <-.
    apply idle_moves; [done|apply map_empty_subseteq..].
Qed.
End Books.

(* ------------------------------------------------------------------ *)
(** ** What holds in every world *)

Lemma advance_clocked gen cmp cfg now dr fault p st st' p' adm : proceed gen cmp cfg now dr fault p st = (st', p', adm) -> clocked now p'.
Proof.
  intros H. destruct (in_gate p) eqn:Hp.
  2: { apply advance_outside in H as (Ho & _); [|done]. by destruct p'. }
  assert (forall q, in_gate q = false -> clocked now q) as Hout by (intros q; by destruct q).
  destruct p; try discriminate Hp; cbn [proceed] in H; repeat case_in H; injection H as <- <- <-; cbn; try lia;
    apply Hout; eauto with outside.
Qed.

Section Origins.
Context {A : Type}.
Implicit Types (old new : gmap string A) (m : gmap string origin).

Lemma birth_keeps o old new m : m ⊆ birth o old new m.
Proof. destruct o; [apply map_union_subseteq_l|done]. Qed.

Lemma birth_new o old new m k : is_Some (new !! k) -> old !! k = None -> is_Some (birth (Some o) old new m !! k).
Proof.
  intros [v Hv] Ho. unfold birth. rewrite lookup_union, lookup_fmap, lookup_difference, Ho, Hv. cbn.
  destruct (m !! k); cbn; by eexists.
Qed.

Lemma birth_of o old new m k o' : birth o old new m !! k = Some o' -> m !! k = Some o' \/ o = Some o' /\ is_Some (new !! k) /\ old !! k = None.
Proof.
  destruct o as [o|]; [|by left]. cbn. intros [H|[_ H]]%lookup_union_Some_raw; [by left|right].
  rewrite lookup_fmap, lookup_difference in H. destruct (old !! k); [done|]. destruct (new !! k); [|done]. injection H as ->.
  split_and!; [done|by eexists|done].
Qed.

Lemma bury_of now old new dead k d : bury now old new dead !! k = Some d -> is_Some (dead !! k) \/ is_Some (old !! k).
Proof.
  unfold bury. intros [H|[_ H]]%lookup_union_Some_raw.
  - apply map_lookup_filter_Some in H as [H _]. left. by eexists.
  - rewrite lookup_fmap, lookup_difference in H. destruct (new !! k); [done|]. destruct (old !! k); [right; by eexists|done].
Qed.

(** Every key ever seen has an origin. *)
Definition known (rows : gmap string A) (dead : gmap string Z) (m : gmap string origin) : Prop :=
  forall k, is_Some (rows !! k) \/ is_Some (dead !! k) -> is_Some (m !! k).

Lemma known_step now o old new dead m :
  known old dead m -> (forall k, is_Some (new !! k) -> is_Some (old !! k) \/ is_Some o) ->
  known new (bury now old new dead) (birth o old new m).
Proof.
  intros Hk Hn k Hc. assert (is_Some (m !! k) -> is_Some (birth o old new m !! k)) as Hm.
  { intros [v Hv]. exists v. eapply lookup_weaken; [done|apply birth_keeps]. }
  destruct Hc as [Hc|[d Hc]].
  - destruct (old !! k) eqn:Eo; [apply Hm, Hk; left; by eexists|]. destruct (Hn _ Hc) as [[? ?]|[o' ->]]; [congruence|]. by apply birth_new.
  - apply Hm, Hk. apply bury_of in Hc as [?|?]; [by right|by left].
Qed.
End Origins.

Section Rooted.
Context (cmp : string -> string -> bool).

(** Facts about the tables that some access found. *)
Definition seen (w : world) (P : adb -> Prop) : Prop := exists d, d ∈ w_history w /\ P d.

Definition no_users (w : world) : Prop := seen w (fun d => CountUsers d = 0).
Definition unused (w : world) : Prop :=
  no_users w /\ seen w (fun d => CountOperatorAPIKeys d = 0) /\ seen w (fun d => CountFunctions d <= 0).
Definition held_key (w : world) (h : string) (k : APIKey) : Prop := seen w (fun d => gate_key <$> GetAPIKeyByHash h d = Some k).
Definition held_admin (w : world) (h : string) : Prop := exists k, held_key w h k /\ "admin"%string ∈ k_Permissions k.
Definition stored_hash (w : world) (uid : Z) (hash : string) : Prop := seen w (fun d => u_PasswordHash <$> t_users d !! uid = Some hash).

Definition may_mint (w : world) (c : cred) : Prop := match c with CSession _ => True | CKey h => held_admin w h end.

(** The credentials that go back to the key file, to the first claim of an
    unused instance, or to a password that matched. *)
Inductive rooted (w : world) : cred -> Prop :=
| rt_bootstrap h : w_korigin w !! h = Some Bootstrap -> rooted w (CKey h)
| rt_minted h c : w_korigin w !! h = Some (Minted (Some c)) -> rooted w c -> may_mint w c -> rooted w (CKey h)
| rt_first t uid : w_sorigin w !! t = Some (Onboarded FirstRun uid) -> unused w -> rooted w (CSession t)
| rt_claimed t uid h : w_sorigin w !! t = Some (Onboarded (AdminKey h) uid) ->
    no_users w -> rooted w (CKey h) -> held_admin w h -> rooted w (CSession t)
| rt_password t uid hash pw : w_sorigin w !! t = Some (Password uid hash pw) ->
    stored_hash w uid hash -> cmp hash pw = true -> rooted w (CSession t)
| rt_renewed t old : w_sorigin w !! t = Some (Renewed old) -> rooted w (CSession old) -> rooted w (CSession t).

Definition extends (w w' : world) : Prop :=
  (exists l, w_history w' = l ++ w_history w) /\ w_sorigin w ⊆ w_sorigin w' /\ w_korigin w ⊆ w_korigin w'.

Lemma seen_later w w' P : extends w w' -> seen w P -> seen w' P.
Proof. intros [[l E] _] (d & Hd & HP). exists d. split; [|done]. rewrite E. apply elem_of_app. by right. Qed.

Lemma unused_later w w' : extends w w' -> unused w -> unused w'.
Proof. intros He (? & ? & ?). split_and!; by eapply seen_later. Qed.

Lemma held_admin_later w w' h : extends w w' -> held_admin w h -> held_admin w' h.
Proof. intros He (k & ? & ?). exists k. split; [by eapply seen_later|done]. Qed.

Lemma may_mint_later w w' c : extends w w' -> may_mint w c -> may_mint w' c.
Proof. destruct c; [done|apply held_admin_later]. Qed.

Lemma rooted_later w w' c : extends w w' -> rooted w c -> rooted w' c.
Proof.
  intros He. pose proof He as (_ & Hs & Hk).
  induction 1 as [h E|h c E _ IH Hm|t uid E Hu|t uid h E Hu _ IH Ha|t uid hash pw E Hh Hc|t old E _ IH].
  - apply rt_bootstrap. by eapply lookup_weaken.
  - eapply rt_minted; [by eapply lookup_weaken|done|by eapply may_mint_later].
  - eapply rt_first; [by eapply lookup_weaken|by eapply unused_later].
  - eapply rt_claimed; [by eapply lookup_weaken|by eapply seen_later|done|by eapply held_admin_later].
  - eapply rt_password; [by eapply lookup_weaken|by eapply seen_later|done].
  - eapply rt_renewed; [by eapply lookup_weaken|done].
Qed.

Lemma extends_commit so ko adm st procs kf w : extends w (commit_step so ko adm st procs kf w).
Proof. split_and!; [by exists [st_db st]|apply birth_keeps..]. Qed.

(** What a request in flight has established. *)
Definition claim_ok (w : world) (how : claim) : Prop :=
  match how with FirstRun => unused w | AdminKey h => no_users w /\ rooted w (CKey h) /\ held_admin w h end.

Definition handler_ok (r : request) (h : handler) : Prop :=
  match h with HKeyCreate _ => requiredPermission (r_Method r) (r_Path r) = "admin"%string | _ => True end.

Definition proc_ok (w : world) (p : proc) : Prop :=
  match p with
  | POnKeys _ _ | POnHolds _ _ => no_users w
  | POnFunctions _ _ => no_users w /\ seen w (fun d => CountOperatorAPIKeys d = 0)
  | POnInsert how _ _ | POnSession how _ => claim_ok w how
  | PLoginTouch uid hash pw | PLoginSession uid hash pw => stored_hash w uid hash /\ cmp hash pw = true
  | PRefreshCreate token _ => rooted w (CSession token)
  | PKeyInsert by_ _ _ _ => exists c, by_ = Some c /\ rooted w c /\ may_mint w c
  | PGateSession r h _ | PGateRead r h _ _ | PGateKey r h | PGateLook r h _ _ => handler_ok r h
  | PGateStore r h token _ _ => handler_ok r h /\ rooted w (CSession token)
  | PGateKeep r h k _ a | PGateExpiry r h k _ a => handler_ok r h /\ rooted w (CKey k) /\ held_key w k a
  | _ => True
  end.

Lemma proc_ok_later w w' p : extends w w' -> proc_ok w p -> proc_ok w' p.
Proof.
  intros He. assert (forall how, claim_ok w how -> claim_ok w' how) as Hc.
  { intros [|h]; cbn; [by apply unused_later|]. intros (? & ? & ?). split_and!; [by eapply seen_later|by eapply rooted_later|by eapply held_admin_later]. }
  destruct p; cbn; try done; eauto using seen_later, rooted_later.
  - by apply seen_later.
  - intros []. split; by eapply seen_later.
  - by apply seen_later.
  - intros []. split; [by eapply seen_later|done].
  - intros []. split; [by eapply seen_later|done].
  - intros (c & ? & ? & ?). exists c. eauto using rooted_later, may_mint_later.
  - intros []. split; eauto using rooted_later.
  - intros (? & ? & ?). split_and!; [done|by eapply rooted_later|by eapply seen_later].
  - intros (? & ? & ?). split_and!; [done|by eapply rooted_later|by eapply seen_later].
Qed.

Record sound (w : world) : Prop := {
  so_clocks : clocks_ok w;
  so_books : books_ok w;
  so_sknown : known (t_sessions (w_db w)) (w_sdead w) (w_sorigin w);
  so_kknown : known (t_keys (w_db w)) (w_kdead w) (w_korigin w);
  so_srooted : forall t, is_Some (w_sorigin w !! t) -> rooted w (CSession t);
  so_krooted : forall h, is_Some (w_korigin w !! h) -> rooted w (CKey h);
  so_procs : forall pid p, w_procs w !! pid = Some p -> proc_ok w p;
  so_memo : forall h k vu, st_keys (w_state w) !! h = Some (k, vu) -> held_key w h k;
  so_here : w_db w ∈ w_history w }.

Lemma sound_at w t : w_now w <= t -> sound w -> sound (w <| w_now := t |>).
Proof.
  intros Ht [Hc [Hs Hk] ? ? ? ? ? ? ?].
  assert (extends w (w <| w_now := t |>)) as He by (split_and!; [by exists []|done..]).
  split; try done.
  - intros pid p Hp. specialize (Hc _ _ Hp). destruct p; try done; cbn in *; lia.
  - split; by eapply memo_ok_later.
  - intros. by eapply rooted_later; [|auto].
  - intros. by eapply rooted_later; [|auto].
  - intros. by eapply proc_ok_later; [|eauto].
Qed.

Lemma seen_here w (P : adb -> Prop) : w_db w ∈ w_history w -> P (w_db w) -> seen w P.
Proof. intros. by exists (w_db w). Qed.

(** A token or key in the table or in its memo is rooted. *)
Lemma live_session_rooted w t : sound w -> is_Some (t_sessions (w_db w) !! t) -> rooted w (CSession t).
Proof. intros HS Ht. apply (so_srooted _ HS), (so_sknown _ HS). by left. Qed.

Lemma live_key_rooted w h : sound w -> is_Some (t_keys (w_db w) !! h) -> rooted w (CKey h).
Proof. intros HS Ht. apply (so_krooted _ HS), (so_kknown _ HS). by left. Qed.

Lemma memo_session_rooted w t vu : sound w -> st_sessions (w_state w) !! t = Some vu -> rooted w (CSession t).
Proof.
  intros HS Ht. destruct (so_books _ HS) as [Hb _]. destruct (mo_memo _ _ _ Hb t vu Ht) as [_ Hr].
  apply (so_srooted _ HS), (so_sknown _ HS). destruct Hr as [?|(d & ? & _)]; [by left|right; by eexists].
Qed.

Lemma memo_key_rooted w h k vu : sound w -> st_keys (w_state w) !! h = Some (k, vu) -> rooted w (CKey h).
Proof.
  intros HS Ht. destruct (so_books _ HS) as [_ Hb]. destruct (mo_memo _ _ _ Hb h vu) as [_ Hr]; [cbn; by rewrite lookup_fmap, Ht|].
  apply (so_krooted _ HS), (so_kknown _ HS). destruct Hr as [?|(d & ? & _)]; [by left|right; by eexists].
Qed.

Lemma serve_ok w now r h c :
  handler_ok r h -> rooted w c -> (requiredPermission (r_Method r) (r_Path r) = "admin"%string -> may_mint w c) -> proc_ok w (hand_on now (Some c) h).
Proof.
  intros Hh Hc Hm. destruct h as [[q|]|path|]; cbn; try done; [|unfold key_delete; by case_match].
  repeat case_match; try done; cbn; exists c; auto.
Qed.

Lemma admit_session_ok w now r h t : handler_ok r h -> rooted w (CSession t) -> proc_ok w (admit_session now h t).
Proof. intros. unfold admit_session. case_match; [done|]. by eapply serve_ok. Qed.

Lemma onboard_body_ok w how body : claim_ok w how -> proc_ok w (onboard_body how body).
Proof. intros. unfold onboard_body. repeat case_match; done. Qed.

Lemma onboard_in_use_ok w r body : no_users w -> proc_ok w (onboard_in_use r body).
Proof. intros. unfold onboard_in_use. by case_match. Qed.

Lemma route_ok r body : handler_ok r (route_of r body).
Proof.
  unfold route_of. destruct (bool_decide (r_Method r = _) && bool_decide _) eqn:E; [|by case_match].
  apply andb_true_iff in E as [_ Ep]. zbool. cbn. by rewrite Ep.
Qed.

Lemma start_ok w now c st st' p : start now c st = (st', p) -> proc_ok w p.
Proof.
  destruct c; cbn [start]; intros H; try (injection H as <- <-; done).
  - destruct (Allow _ _ _ _ _ _) as [rl []]; injection H as <- <-; [|done]. by destruct body as [[??]|].
  - injection H as <- <-. by destruct cookie.
  - injection H as <- <-. by destruct cookie.
  - injection H as <- <-. by destruct cookie.
  - injection H as <- <-. by destruct cookie.
  - injection H as <- <-. by destruct cookie.
  - injection H as <- <-. destruct cookie; [|done]. unfold revokeSession. by case_match.
  - injection H as <- <-. unfold gate_enter. repeat case_match; try done; apply route_ok.
Qed.

(** What a step leaves behind it was established by it or before. *)
Lemma advance_ok gen cfg dr fault w pid p st' p' adm : sound w -> w_procs w !! pid = Some p ->
  proceed gen cmp cfg (w_now w) dr fault p (w_state w) = (st', p', adm) -> proc_ok w p'.
Proof.
  intros HS Hp H. pose proof (so_here _ HS) as Hh. pose proof (so_procs _ HS _ _ Hp) as Hok. unfold w_db in Hh.
  assert (forall P : adb -> Prop, P (st_db (w_state w)) -> seen w P) as Hseen by (intros; by apply seen_here).
  destruct p; cbn [proceed] in H.
  - injection H as <- <- <-. done.
  - injection H as <- <- <-. destruct fault; [done|]. destruct (0 <? _) eqn:E; [done|]. apply Hseen. zbool. unfold CountUsers in *. lia.
  - injection H as <- <- <-. destruct fault; [done|]. destruct (0 <? _) eqn:E; [by apply onboard_in_use_ok|]. split; [done|].
    apply Hseen. zbool. unfold CountOperatorAPIKeys in *. lia.
  - injection H as <- <- <-. destruct fault; [done|]. destruct Hok as [Hu Hk]. destruct (0 <? _) eqn:E; [by apply onboard_in_use_ok|].
    apply onboard_body_ok. split_and!; [done..|]. apply Hseen. by zbool.
  - repeat case_in H; injection H as <- <- <-; try done. apply onboard_body_ok. destruct fault; [done|]. zbool. cbn. split_and!; [done| |].
    + eapply live_key_rooted; [done|]. by eexists.
    + exists (gate_key k). split; [|done]. apply Hseen. by rewrite E.
  - repeat case_in H; by injection H as <- <- <-.
  - repeat case_in H; by injection H as <- <- <-.
  - repeat case_in H; injection H as <- <- <-; try done. cbn. split; [|done]. apply Hseen. destruct fault; [done|].
    apply row_where_Some in E as [E _]. by rewrite E.
  - by injection H as <- <- <-.
  - repeat case_in H; by injection H as <- <- <-.
  - repeat case_in H; by injection H as <- <- <-.
  - by injection H as <- <- <-.
  - repeat case_in H; injection H as <- <- <-; try done. eapply live_session_rooted; [done|]. destruct fault; [done|].
    unfold GetSessionUser, GetSession in E. unfold w_db. destruct (t_sessions _ !! token); [by eexists|done].
  - repeat case_in H; injection H as <- <- <-; try done. unfold revokeSession. by destruct (bool_decide _).
  - repeat case_in H; injection H as <- <- <-; try done. unfold change_body. repeat case_match; done.
  - repeat case_in H; by injection H as <- <- <-.
  - repeat case_in H; by injection H as <- <- <-.
  - repeat case_in H; by injection H as <- <- <-.
  - repeat case_in H; by injection H as <- <- <-.
  - repeat case_in H; by injection H as <- <- <-.
  - repeat case_in H; injection H as <- <- <-; try done. unfold revoke_checks. repeat case_match; done.
  - injection H as <- <- <-. repeat case_match; done.
  - repeat case_in H; by injection H as <- <- <-.
  - by injection H as <- <- <-.
  - repeat case_in H; by injection H as <- <- <-.
  - repeat case_in H; by injection H as <- <- <-.
  - by injection H as <- <- <-.
  - repeat case_in H; injection H as <- <- <-; repeat case_match; done.
  - by injection H as <- <- <-.
  - repeat case_in H; injection H as <- <- <-; try done. apply (admit_session_ok _ _ r); [done|]. by eapply memo_session_rooted.
  - repeat case_in H; injection H as <- <- <-; try done. cbn. split; [done|]. eapply live_session_rooted; [done|]. destruct fault; [done|].
    unfold GetSessionUser, GetSession in E. unfold w_db. destruct (t_sessions _ !! token); [by eexists|done].
  - injection H as <- <- <-. destruct Hok. by apply (admit_session_ok _ _ r).
  - repeat case_in H; injection H as <- <- <-; try done. cbn. split_and!; [done|by eapply memo_key_rooted|by eapply so_memo].
  - repeat case_in H; injection H as <- <- <-; try done. cbn. split_and!; [done| |].
    + eapply live_key_rooted; [done|]. by eexists.
    + apply Hseen. by rewrite E0.
  - by injection H as <- <- <-.
  - repeat case_in H; injection H as <- <- <-; try done. destruct Hok as (Hr & Hk & Hheld). apply (serve_ok _ _ r); [done..|].
    intros Hreq. exists k. split; [done|]. zbool. by rewrite <- Hreq.
  - by injection H as <- <- <-.
Qed.

Lemma advance_keymemo gen cfg now dr fault p st st' p' adm h k vu :
  proceed gen cmp cfg now dr fault p st = (st', p', adm) -> st_keys st' !! h = Some (k, vu) ->
  st_keys st !! h = Some (k, vu) \/ exists r h' n, p = PGateKeep r h' h n k.
Proof.
  intros H Hk. destruct (in_gate p) eqn:Hp.
  2: { apply advance_outside in H as (_ & _ & _ & Hm & _); [|done]. left. by eapply lookup_weaken. }
  destruct p; try discriminate Hp; cbn [proceed] in H; repeat case_in H; injection H as <- <- <-; try (by left); cbn in Hk.
  - left. by apply lookup_delete_Some in Hk as [_ ?].
  - apply lookup_insert_Some in Hk as [[<- [= -> _]]|[_ ?]]; [right; by eexists _, _, _|by left].
  - left. by apply lookup_delete_Some in Hk as [_ ?].
Qed.

Lemma sound_commit so ko adm st procs kf w :
  let w' := commit_step so ko adm st procs kf w in
  sound w -> step_moves w w' ->
  (forall k, is_Some (t_sessions (st_db st) !! k) -> is_Some (t_sessions (w_db w) !! k) \/ is_Some so) ->
  (forall k, is_Some (t_keys (st_db st) !! k) -> is_Some (t_keys (w_db w) !! k) \/ is_Some ko) ->
  (forall t o, so = Some o -> w_sorigin w' !! t = Some o -> rooted w' (CSession t)) ->
  (forall h o, ko = Some o -> w_korigin w' !! h = Some o -> rooted w' (CKey h)) ->
  (forall pid p, procs !! pid = Some p -> clocked (w_now w) p /\ proc_ok w p) ->
  (forall h k vu, st_keys st !! h = Some (k, vu) -> held_key w h k) -> sound w'.
Proof.
  intros w' HS [Hs Hk] Hsn Hkn Hsr Hkr Hp Hm. pose proof (extends_commit so ko adm st procs kf w) as He. fold w' in He.
  destruct HS as [_ [Hbs Hbk] Hks Hkk Hrs Hrk _ _ _]. split.
  - intros pid p Hin. by apply (Hp pid).
  - split; by eapply memo_ok_moves.
  - by apply known_step.
  - by apply known_step.
  - intros t [o Ho]. pose proof Ho as Ho'. apply birth_of in Ho as [Ho|(-> & _)]; [|by eapply Hsr].
    eapply rooted_later; [done|]. apply Hrs. by eexists.
  - intros t [o Ho]. pose proof Ho as Ho'. apply birth_of in Ho as [Ho|(-> & _)]; [|by eapply Hkr].
    eapply rooted_later; [done|]. apply Hrk. by eexists.
  - intros pid p Hin. eapply proc_ok_later; [done|]. by apply (Hp pid).
  - intros h k vu Hin. eapply seen_later; [done|]. by eapply Hm.
  - apply list_elem_of_here.
Qed.

(** Steps outside the requests. *)
Lemma sound_quiet st procs w :
  sound w -> step_moves w (commit_step None None None st procs (w_keyfile w) w) ->
  t_sessions (st_db st) ⊆ t_sessions (w_db w) -> (forall k, is_Some (t_keys (st_db st) !! k) -> is_Some (t_keys (w_db w) !! k)) ->
  st_keys st ⊆ st_keys (w_state w) ->
  (forall pid p, procs !! pid = Some p -> clocked (w_now w) p /\ proc_ok w p) ->
  sound (commit_step None None None st procs (w_keyfile w) w).
Proof.
  intros HS Hm Hs Hk Hkm Hp. apply sound_commit; try done.
  - intros k [v Hv]. left. exists v. by eapply lookup_weaken.
  - intros k Hv. left. by apply Hk.
  - intros h k vu Hin. eapply (so_memo _ HS). by eapply lookup_weaken.
Qed.

Lemma session_origin_rooted w w' p t o : extends w w' -> proc_ok w p -> session_origin p = Some o ->
  w_sorigin w' !! t = Some o -> rooted w' (CSession t).
Proof.
  intros He Hok Ho Ht. eapply proc_ok_later in Hok; [|done]. destruct p; try done; injection Ho as <-; cbn in Hok.
  - destruct how; [by eapply rt_first|]. destruct Hok as (? & ? & ?). by eapply rt_claimed.
  - destruct Hok. by eapply rt_password.
  - by eapply rt_renewed.
Qed.

Lemma key_origin_rooted w w' p h o : extends w w' -> proc_ok w p -> key_origin p = Some o ->
  w_korigin w' !! h = Some o -> rooted w' (CKey h).
Proof.
  intros He Hok Ho Ht. eapply proc_ok_later in Hok; [|done]. destruct p; try done; injection Ho as <-; cbn in Hok.
  destruct Hok as (c & -> & ? & ?). by eapply rt_minted.
Qed.

(** The key file adds keys, and changes no session. *)
Lemma bootstrap_tables now dr f kf d : t_sessions (bootstrapAdminKey now dr f kf d).1 = t_sessions d.
Proof.
  unfold bootstrapAdminKey, mint_bootstrap, insert_bootstrap, InsertAPIKey. repeat (case_match; simplify_eq; try done).
Qed.

Lemma sound_step gen cfg ev w w' : sound w -> step gen cmp cfg ev w = Some w' -> sound w'.
Proof.
  intros HS H. pose proof (any_moves _ _ _ _ _ _ (so_clocks _ HS) (so_books _ HS) H) as Hm.
  assert (forall pid p, w_procs w !! pid = Some p -> clocked (w_now w) p /\ proc_ok w p) as Hps
    by (intros pid p Hp; split; [by eapply so_clocks|by eapply so_procs]).
  destruct ev as [pid c|pid dr fault| |h|n|a|dr f].
  - cbn in H. destruct (w_procs w !! pid) eqn:E; [done|]. destruct (start _ _ _) as [st p] eqn:Es. injection H as <-.
    pose proof (start_idle _ _ _ _ _ Es) as (Ed & _ & Ek & Hc & _). apply sound_quiet; try done.
    + by rewrite Ed.
    + intros k. by rewrite Ed.
    + by rewrite Ek.
    + intros pid' p' [[<- <-]|[_ ?]]%lookup_insert_Some; [split; [done|by eapply start_ok]|by eapply Hps].
  - cbn in H. apply bind_Some in H as (p & Hp & H). destruct (_ && _); [done|].
    destruct (proceed _ _ _ _ _ _ _ _) as [[st p'] adm] eqn:Ea. injection H as <-.
    pose proof (advance_tables _ _ _ _ _ _ _ _ _ _ _ Ea) as [Ht1 Ht2]. pose proof (so_procs _ HS _ _ Hp) as Hok.
    apply sound_commit; try done.
    + intros k [?|[_ ?]]%Ht1; [by left|by right].
    + intros k [?|[_ ?]]%Ht2; [by left|by right].
    + intros t o Ho. eapply session_origin_rooted; [apply extends_commit|done|done].
    + intros t o Ho. eapply key_origin_rooted; [apply extends_commit|done|done].
    + intros pid' q [[<- <-]|[_ ?]]%lookup_insert_Some; [|by eapply Hps].
      split; [by eapply advance_clocked|by eapply advance_ok].
    + intros h k vu Hin. destruct (advance_keymemo _ _ _ _ _ _ _ _ _ _ _ _ _ Ea Hin) as [Hin'|(r & h' & n & ->)].
      * by eapply so_memo.
      * by destruct Hok as (_ & _ & ?).
  - injection H as <-. apply sound_quiet; try done. apply map_filter_subseteq.
  - injection H as <-. apply sound_quiet; try done. intros k Hk. cbn in Hk. by apply lookup_alter_is_Some in Hk.
  - injection H as <-. by apply sound_quiet.
  - injection H as <-. by apply sound_quiet.
  - cbn in H. destruct (negb _); [done|]. pose proof (bootstrap_tables (w_now w) dr f (w_keyfile w) (st_db (w_state w))) as Eb.
    destruct (bootstrapAdminKey _ _ _ _ _) as [d kf]. injection H as <-. apply sound_commit; try done.
    + intros k Hk. left. cbn in Hk, Eb. by rewrite Eb in Hk.
    + right. by eexists.
    + intros h o [= <-]. apply rt_bootstrap.
Qed.

Lemma sound_start now : sound (fresh_install now).
Proof.
  split; try done.
  - split; split; cbn; try done; intros; by match goal with H : seen_by _ _ _ _ |- _ => destruct H as (? & ? & ? & _) | H : _ ∈ [] |- _ => apply elem_of_nil in H end.
  - intros k [[? ?]|[? ?]]; done.
  - intros k [[? ?]|[? ?]]; done.
  - by intros t [? ?].
  - by intros t [? ?].
  - apply list_elem_of_here.
Qed.

Lemma sound_run gen cfg es w w' : sound w -> run gen cmp cfg es w = Some w' -> sound w'.
Proof.
  revert w. induction es as [|[t ev] es IH]; intros w HS H; simpl in H; [by injection H as <-|].
  destruct (t <? w_now w) eqn:Et; [done|]. apply bind_Some in H as (w1 & H1 & H). zbool.
  eapply IH; [|exact H]. eapply sound_step; [|exact H1]. by apply sound_at.
Qed.
End Rooted.

(* ------------------------------------------------------------------ *)
(** ** What is gone stays gone *)

Section Gone.
Context (gen : string -> string -> option string) (cmp : string -> string -> bool) (cfg : Z).

Lemma fresh_draw_spec dr w : fresh dr w = true ->
  length (d_raw dr) = 32%nat /\ w_sorigin w !! token_of (d_raw dr) = None /\ w_korigin w !! key_hash (plaintext_of (d_raw dr)) = None.
Proof. unfold fresh. intros. zbool. apply eq_None_not_Some in H1, H0. split_and!; [by apply Nat.eqb_eq|done..]. Qed.

Lemma drawn_fresh dr w p : draws p && negb (fresh dr w) = false -> is_Some (session_origin p) \/ is_Some (key_origin p) -> fresh dr w = true.
Proof.
  intros H Ho. destruct (fresh dr w); [done|]. rewrite andb_true_r in H. unfold draws in H.
  destruct (session_origin p); [done|]. destruct (key_origin p); [done|]. by destruct Ho as [[? ?]|[? ?]].
Qed.

(** Tokens are not drawn twice, and a key comes back by a restart only. *)
Lemma no_rebirth_s ev w w' k : step gen cmp cfg ev w = Some w' -> s_ins w w' k -> w_sorigin w !! k = None.
Proof.
  intros H [Hn Ho]. destruct ev as [pid c|pid dr fault| |h|n|a|dr f].
  - cbn in H. destruct (w_procs w !! pid); [done|]. destruct (start _ _ _) as [st p] eqn:Es. injection H as <-.
    apply start_idle in Es as (Ed & _). unfold w_db in *. cbn in Hn. rewrite Ed, Ho in Hn. by destruct Hn.
  - cbn in H. apply bind_Some in H as (p & _ & H). destruct (_ && _) eqn:Ef; [done|].
    destruct (proceed _ _ _ _ _ _ _ _) as [[st p'] adm] eqn:Ea. injection H as <-.
    apply advance_tables in Ea as [Ht _]. destruct (Ht k Hn) as [[? ?]|[-> Hs]]; [unfold w_db in Ho; congruence|].
    by apply fresh_draw_spec, (drawn_fresh _ _ p); [|left].
  - injection H as <-. unfold w_db in *. cbn in Hn. destruct Hn as [? Hn%map_lookup_filter_Some]. destruct Hn. congruence.
  - injection H as <-. unfold w_db in *. cbn in Hn. destruct Hn. congruence.
  - injection H as <-. unfold w_db in *. cbn in Hn. destruct Hn. congruence.
  - injection H as <-. unfold w_db in *. cbn in Hn. destruct Hn. congruence.
  - cbn in H. destruct (negb _); [done|]. pose proof (bootstrap_tables (w_now w) dr f (w_keyfile w) (st_db (w_state w))) as Eb.
    destruct (bootstrapAdminKey _ _ _ _ _) as [d kf]. injection H as <-. unfold w_db in *. cbn in Hn, Eb. rewrite Eb, Ho in Hn. by destruct Hn.
Qed.

Definition restarts (ev : event) : bool := match ev with EvBoot _ _ => true | _ => false end.

Lemma no_rebirth_k ev w w' k : step gen cmp cfg ev w = Some w' -> restarts ev = false -> k_ins w w' k -> w_korigin w !! k = None.
Proof.
  intros H Hr [Hn Ho]. destruct ev as [pid c|pid dr fault| |h|n|a|dr f]; [| | | | | |done].
  - cbn in H. destruct (w_procs w !! pid); [done|]. destruct (start _ _ _) as [st p] eqn:Es. injection H as <-.
    apply start_idle in Es as (Ed & _). unfold w_db in *. cbn in Hn. rewrite Ed, Ho in Hn. by destruct Hn.
  - cbn in H. apply bind_Some in H as (p & _ & H). destruct (_ && _) eqn:Ef; [done|].
    destruct (proceed _ _ _ _ _ _ _ _) as [[st p'] adm] eqn:Ea. injection H as <-.
    apply advance_tables in Ea as [_ Ht]. destruct (Ht k Hn) as [[? ?]|[-> Hs]]; [unfold w_db in Ho; congruence|].
    by apply fresh_draw_spec, (drawn_fresh _ _ p); [|right].
  - injection H as <-. unfold w_db in *. cbn in Hn. destruct Hn. congruence.
  - injection H as <-. unfold w_db in *. cbn in Hn. rewrite lookup_alter_is_Some in Hn. destruct Hn. congruence.
  - injection H as <-. unfold w_db in *. cbn in Hn. destruct Hn. congruence.
  - injection H as <-. unfold w_db in *. cbn in Hn. destruct Hn. congruence.
Qed.

(** What a step keeps, for both books. *)
Lemma step_session tok D ev w w' : sound cmp w -> step gen cmp cfg ev w = Some w' -> w_sdead w !! tok = Some D ->
  w_sdead w' !! tok = Some D /\ (exists l, w_sin w' = l ++ w_sin w) /\
  (gone tok (s_book w) -> gone tok (s_book w') /\ unheard tok (s_book w) (s_book w')).
Proof.
  intros HS H Hd. destruct (any_moves _ _ _ _ _ _ (so_clocks _ _ HS) (so_books _ _ HS) H) as [Hm _].
  assert (~ s_ins w w' tok) as Hi.
  { intros Hi%(no_rebirth_s _ _ _ _ H). destruct (so_sknown _ _ HS tok) as [? ?]; [right; by eexists|congruence]. }
  split_and!.
  - apply (dead_moves sessionCacheTTL eq_refl tok D _ _ _ _ Hm); [by destruct (so_books _ _ HS)|done|done].
  - by apply admitted_moves in Hm.
  - intros Hg. by apply (gone_moves _ _ _ _ _ _ Hm).
Qed.

Lemma step_key h D ev w w' : sound cmp w -> step gen cmp cfg ev w = Some w' -> restarts ev = false -> w_kdead w !! h = Some D ->
  w_kdead w' !! h = Some D /\ (exists l, w_kin w' = l ++ w_kin w) /\
  (gone h (k_book w) -> gone h (k_book w') /\ unheard h (k_book w) (k_book w')).
Proof.
  intros HS H Hr Hd. destruct (any_moves _ _ _ _ _ _ (so_clocks _ _ HS) (so_books _ _ HS) H) as [_ Hm].
  assert (~ k_ins w w' h) as Hi.
  { intros Hi%(no_rebirth_k _ _ _ _ H Hr). destruct (so_kknown _ _ HS h) as [? ?]; [right; by eexists|congruence]. }
  split_and!.
  - apply (dead_moves keyCacheTTL eq_refl h D _ _ _ _ Hm); [by destruct (so_books _ _ HS)|done|done].
  - by apply admitted_moves in Hm.
  - intros Hg. by apply (gone_moves _ _ _ _ _ _ Hm).
Qed.

(** What is added to the log of admissions by [k]. *)
Definition silent (k : string) (l l' : list (Z * string)) : Prop := exists m, l' = m ++ l /\ Forall (fun nk => snd nk <> k) m.

Lemma run_session tok D es w w' : sound cmp w -> run gen cmp cfg es w = Some w' -> w_sdead w !! tok = Some D ->
  w_sdead w' !! tok = Some D /\ (exists l, w_sin w' = l ++ w_sin w) /\ (gone tok (s_book w) -> silent tok (w_sin w) (w_sin w')).
Proof.
  revert w. induction es as [|[t ev] es IH]; intros w HS H Hd; simpl in H.
  { injection H as <-. split_and!; [done|by exists []|by exists []]. }
  destruct (t <? w_now w) eqn:Et; [done|]. apply bind_Some in H as (w1 & H1 & H). zbool.
  pose proof (sound_at _ w t Et HS) as HS'. destruct (step_session tok D _ _ _ HS' H1 Hd) as (Hd1 & [l1 E1] & Hg1).
  destruct (IH w1 (sound_step _ _ _ _ _ _ HS' H1) H Hd1) as (Hd2 & [l2 E2] & Hg2). split_and!; [done| |].
  - exists (l2 ++ l1). rewrite E2, E1. by rewrite app_assoc.
  - intros Hg. destruct (Hg1 Hg) as [Hg' (m1 & F1 & Hm1)]. destruct (Hg2 Hg') as (m2 & F2 & Hm2). exists (m2 ++ m1).
    cbn in F1. rewrite F2, F1, app_assoc. split; [done|]. by apply Forall_app.
Qed.

Lemma run_key h D es w w' : sound cmp w -> run gen cmp cfg es w = Some w' -> Forall (fun te => restarts (snd te) = false) es ->
  w_kdead w !! h = Some D ->
  w_kdead w' !! h = Some D /\ (exists l, w_kin w' = l ++ w_kin w) /\ (gone h (k_book w) -> silent h (w_kin w) (w_kin w')).
Proof.
  revert w. induction es as [|[t ev] es IH]; intros w HS H Hr Hd; simpl in H.
  { injection H as <-. split_and!; [done|by exists []|by exists []]. }
  destruct (t <? w_now w) eqn:Et; [done|]. apply bind_Some in H as (w1 & H1 & H). zbool. apply Forall_cons in Hr as [Hr1 Hr].
  pose proof (sound_at _ w t Et HS) as HS'. destruct (step_key h D _ _ _ HS' H1 Hr1 Hd) as (Hd1 & [l1 E1] & Hg1).
  destruct (IH w1 (sound_step _ _ _ _ _ _ HS' H1) H Hr Hd1) as (Hd2 & [l2 E2] & Hg2). split_and!; [done| |].
  - exists (l2 ++ l1). rewrite E2, E1. by rewrite app_assoc.
  - intros Hg. destruct (Hg1 Hg) as [Hg' (m1 & F1 & Hm1)]. destruct (Hg2 Hg') as (m2 & F2 & Hm2). exists (m2 ++ m1).
    cbn in F1. rewrite F2, F1, app_assoc. split; [done|]. by apply Forall_app.
Qed.
End Gone.

(* ------------------------------------------------------------------ *)
(** ** What the answers of the handlers promise *)

(** The answers that say sessions were revoked; log-out and refresh answer
    whether the row went or not. *)
Definition strict (a : answer) : bool := match a with ARevoked | AChanged false => true | _ => false end.

Definition forgets_ok (rows : gmap string SessionRow) (dead : gmap string Z) (p : proc) : Prop :=
  match p with
  | PForget tokens a => strict a = true -> Forall (fun t => is_Some (dead !! t)) tokens
  | PRevokeDelete found => is_Some (rows !! found) \/ is_Some (dead !! found)
  | PDeleteSession _ a => strict a = false
  | _ => True
  end.

Lemma forgets_outside rows dead p : in_gate p = true -> forgets_ok rows dead p.
Proof. by destruct p. Qed.

Lemma forgets_later {now} old new dead p :
  forgets_ok old dead p -> (forall k, is_Some (dead !! k) -> new !! k = None) -> forgets_ok new (bury now old new dead) p.
Proof.
  intros Hok Hd. destruct p; try done; cbn in *.
  - destruct (new !! found) eqn:E; [left; by eexists|right]. by apply bury_leaves.
  - intros Hs. eapply Forall_impl; [by apply Hok|]. intros k Hk. apply bury_leaves; [by right|by apply Hd].
Qed.

Lemma serve_forgets rows dead now by_ h : forgets_ok rows dead (hand_on now by_ h).
Proof. destruct h as [[q|]|path|]; cbn; try done; [|unfold key_delete; by case_match]. repeat case_match; done. Qed.

Lemma admit_forgets rows dead now h t : forgets_ok rows dead (admit_session now h t).
Proof. unfold admit_session. case_match; [done|apply serve_forgets]. Qed.

Lemma revokeSession_forgets rows dead t a : strict a = false -> forgets_ok rows dead (revokeSession t a).
Proof. intros. unfold revokeSession. by destruct (bool_decide _). Qed.

Lemma start_forgets rows dead now c st st' p : start now c st = (st', p) -> forgets_ok rows dead p.
Proof.
  destruct c; cbn [start]; intros H; try (injection H as <- <-; done).
  - destruct (Allow _ _ _ _ _ _) as [rl []]; injection H as <- <-; [|done]. by destruct body as [[??]|].
  - injection H as <- <-. by destruct cookie.
  - injection H as <- <-. by destruct cookie.
  - injection H as <- <-. by destruct cookie.
  - injection H as <- <-. by destruct cookie.
  - injection H as <- <-. by destruct cookie.
  - injection H as <- <-. destruct cookie; [|done]. by apply revokeSession_forgets.
  - injection H as <- <-. unfold gate_enter. repeat case_match; done.
Qed.

Lemma others_named uid keep d t : t ∈ (DeleteUserSessionsExcept uid keep d).1 -> is_Some (t_sessions d !! t) /\ t_sessions (DeleteUserSessionsExcept uid keep d).2 !! t = None.
Proof.
  cbn. intros ([t' s] & -> & Hin)%list_elem_of_fmap. apply list_elem_of_filter in Hin as [Ho Hin%elem_of_map_to_list]. cbn. split; [by eexists|].
  apply map_lookup_filter_None. right. intros s' Hs' Hn. apply Hn. cbn in Hin. rewrite Hin in Hs'. by injection Hs' as <-.
Qed.

(** After a change of password no session of the user is left but the caller's. *)
Lemma change_leaves_only_the_caller uid keep d t s :
  t_sessions (DeleteUserSessionsExcept uid keep d).2 !! t = Some s -> s_UserID s = uid -> t = keep.
Proof.
  cbn. intros [_ Hn]%map_lookup_filter_Some Hu. destruct (decide (t = keep)); [done|]. exfalso. apply Hn. by split.
Qed.

Lemma advance_forgets gen cmp cfg now dr fault p st st' p' adm dead :
  proceed gen cmp cfg now dr fault p st = (st', p', adm) -> forgets_ok (t_sessions (st_db st)) dead p ->
  (forall k, is_Some (dead !! k) -> t_sessions (st_db st') !! k = None) ->
  forgets_ok (t_sessions (st_db st')) (bury now (t_sessions (st_db st)) (t_sessions (st_db st')) dead) p'.
Proof.
  intros H Hok Hd. destruct p; cbn [proceed] in H;
    try (repeat case_in H; injection H as <- <- <-; first [done|apply serve_forgets|apply admit_forgets|by apply revokeSession_forgets]).
  - injection H as <- <- <-. unfold onboard_in_use. repeat case_match; done.
  - injection H as <- <- <-. unfold onboard_in_use, onboard_body. repeat case_match; done.
  - injection H as <- <- <-. unfold onboard_body. repeat case_match; done.
  - repeat case_in H; injection H as <- <- <-; try done. unfold change_body. repeat case_match; done.
  - destruct fault; [by injection H as <- <- <-|]. destruct (DeleteUserSessionsExcept uid token (st_db st)) as [l d] eqn:E.
    injection H as <- <- <-. intros _. apply Forall_forall. intros t Ht. pose proof (others_named uid token (st_db st) t) as Hn.
    rewrite E in Hn. destruct (Hn Ht). apply bury_leaves; [by left|done].
  - repeat case_in H; injection H as <- <- <-; try done. unfold revoke_checks. repeat case_match; done.
  - injection H as <- <- <-. destruct fault; [done|]. destruct (sessions_like _ _ _) as [|t []] eqn:E; try done.
    left. assert (t ∈ [t]) as Hin by apply list_elem_of_here.
    rewrite <- E in Hin. apply list_elem_of_fmap in Hin as ([t' s] & -> & Hin).
    apply list_elem_of_filter in Hin as [_ Hin%elem_of_map_to_list]. by eexists.
  - destruct fault; injection H as <- <- <-; [done|]. intros _. constructor; [|constructor].
    apply bury_leaves; [done|apply lookup_delete_eq].
  - injection H as <- <- <-. cbn in *. by rewrite Hok.
  - destruct tokens as [|t tokens]; injection H as <- <- <-; [done|]. intros Hs. specialize (Hok Hs). apply Forall_cons in Hok as [_ Hok].
    destruct (bool_decide _); cbn in *; (eapply Forall_impl; [exact Hok|]; intros k Hk; apply bury_leaves; [by right|by apply Hd]).
Qed.

Section Theorems.
Context (gen : string -> string -> option string) (cmp : string -> string -> bool) (cfg : Z).

Definition forgets_all (w : world) : Prop :=
  forall pid p, w_procs w !! pid = Some p -> forgets_ok (t_sessions (w_db w)) (w_sdead w) p.

Lemma forgets_step ev w w' : sound cmp w -> forgets_all w -> step gen cmp cfg ev w = Some w' -> forgets_all w'.
Proof.
  intros HS HF H.
  assert (forall k, is_Some (w_sdead w !! k) -> t_sessions (w_db w') !! k = None) as Hd.
  { intros k [D Hk]. destruct (t_sessions (w_db w') !! k) eqn:E; [|done]. exfalso.
    destruct (step_session gen cmp cfg k D _ _ _ HS H Hk) as (Hk' & _).
    pose proof (sound_step _ _ _ _ _ _ HS H) as HS'. destruct (so_books _ _ HS') as [Hb _].
    destruct (mo_dead _ _ _ Hb _ _ Hk') as [_ Hl]. apply Hl. by eexists. }
  assert (forall pid p, w_procs w !! pid = Some p ->
    forgets_ok (t_sessions (w_db w')) (bury (w_now w) (t_sessions (w_db w)) (t_sessions (w_db w')) (w_sdead w)) p) as Hold
    by (intros pid p Hp; by apply forgets_later; [eapply HF|]).
  destruct ev as [pid c|pid dr fault| |h|n|a|dr f].
  - cbn in H. destruct (w_procs w !! pid); [done|]. destruct (start _ _ _) as [st p] eqn:Es. injection H as <-.
    intros pid' p' Hin. cbn in Hin. apply lookup_insert_Some in Hin as [[<- <-]|[_ ?]]; [by eapply start_forgets|by eapply Hold].
  - cbn in H. apply bind_Some in H as (p & Hp & H). destruct (_ && _); [done|].
    destruct (proceed _ _ _ _ _ _ _ _) as [[st p'] adm] eqn:Ea. injection H as <-.
    intros pid' q Hin. cbn in Hin. apply lookup_insert_Some in Hin as [[<- <-]|[_ ?]]; [|by eapply Hold].
    eapply advance_forgets; [exact Ea|by eapply HF|exact Hd].
  - injection H as <-. exact Hold.
  - injection H as <-. exact Hold.
  - injection H as <-. exact Hold.
  - injection H as <-. exact Hold.
  - cbn in H. destruct (negb _); [done|]. destruct (bootstrapAdminKey _ _ _ _ _) as [d kf]. by injection H as <-.
Qed.

Lemma forgets_run es w w' : sound cmp w -> forgets_all w -> run gen cmp cfg es w = Some w' -> forgets_all w'.
Proof.
  revert w. induction es as [|[t ev] es IH]; intros w HS HF H; simpl in H; [by injection H as <-|].
  destruct (t <? w_now w) eqn:Et; [done|]. apply bind_Some in H as (w1 & H1 & H). zbool.
  pose proof (sound_at _ w t Et HS) as HS'. eapply IH; [by eapply sound_step|by eapply forgets_step|exact H].
Qed.

(** A request still on its way with an answer for [k]. *)
Definition straggles (v : proc -> option (string * Z)) (k : string) (w : world) : Prop :=
  exists pid p n, w_procs w !! pid = Some p /\ v p = Some (k, n).

Lemma straggles_dec v k w : straggles v k w \/ forall n, ~ seen_by v (w_procs w) k n.
Proof.
  destruct (decide (map_Forall (fun _ p => fst <$> v p <> Some k) (w_procs w))) as [Hf|Hf].
  - right. intros n (pid & p & Hp & Hv). apply (Hf pid p Hp). by rewrite Hv.
  - left. apply map_not_Forall in Hf as (pid & p & Hp & Hv); [|intros; apply _]. apply dec_stable in Hv.
    destruct (v p) as [[k' n]|] eqn:E; [|done]. injection Hv as ->. by exists pid, p, n.
Qed.

Lemma silent_none k l l' n : silent k l l' -> exists m, l' = m ++ l /\ (n, k) ∉ m.
Proof. intros (m & E & Hm). exists m. split; [done|]. intros Hin. rewrite Forall_forall in Hm. by apply (Hm _ Hin). Qed.

(** What follows the eviction of a dead session. *)
Lemma after_forget tok D w1 later w2 : sound cmp w1 -> w_sdead w1 !! tok = Some D -> st_sessions (w_state w1) !! tok = None ->
  run gen cmp cfg later w1 = Some w2 ->
  exists l, w_sin w2 = l ++ w_sin w1 /\ forall n, (n, tok) ∈ l -> n < D + sessionCacheTTL /\ straggles s_view tok w1.
Proof.
  intros HS Hd Hm Hr. destruct (run_session gen cmp cfg tok D _ _ _ HS Hr Hd) as (Hd2 & [l E] & Hg).
  destruct (straggles_dec s_view tok w1) as [Hst|Hst].
  - exists l. split; [done|]. intros n Hn. split; [|done]. pose proof (sound_run _ _ _ _ _ _ HS Hr) as HS2.
    destruct (so_books _ _ HS2) as [Hb _]. destruct (mo_admitted _ _ _ Hb n tok) as [_ Hrest].
    { cbn. rewrite E. apply elem_of_app. by left. }
    destruct Hrest as [Hl|(D' & HD' & Hlt)]; [by destruct (mo_dead _ _ _ Hb _ _ Hd2)|]. cbn in HD'. congruence.
  - assert (gone tok (s_book w1)) as Hgone.
    { split; try done; [|by intros n (? & ? & _ & ?)]. destruct (so_books _ _ HS) as [Hb _]. by destruct (mo_dead _ _ _ Hb _ _ Hd). }
    destruct (Hg Hgone) as (m & E' & Hmm). exists m. split; [done|]. intros n Hn. rewrite Forall_forall in Hmm. by destruct (Hmm _ Hn).
Qed.

Lemma after_evict h D w1 later w2 : sound cmp w1 -> w_kdead w1 !! h = Some D -> st_keys (w_state w1) !! h = None ->
  run gen cmp cfg later w1 = Some w2 -> Forall (fun te => restarts (snd te) = false) later ->
  exists l, w_kin w2 = l ++ w_kin w1 /\
    forall n, (n, h) ∈ l -> n < D + keyCacheTTL /\ (straggles k_view h w1 \/ straggles k_holds h w1).
Proof.
  intros HS Hd Hm Hr Hno. destruct (run_key gen cmp cfg h D _ _ _ HS Hr Hno Hd) as (Hd2 & [l E] & Hg).
  assert (forall n, (n, h) ∈ l -> n < D + keyCacheTTL) as Hlt.
  { intros n Hn. pose proof (sound_run _ _ _ _ _ _ HS Hr) as HS2.
    destruct (so_books _ _ HS2) as [_ Hb]. destruct (mo_admitted _ _ _ Hb n h) as [_ Hrest].
    { cbn. rewrite E. apply elem_of_app. by left. }
    destruct Hrest as [Hl|(D' & HD' & Hlt)]; [by destruct (mo_dead _ _ _ Hb _ _ Hd2)|]. cbn in HD'. congruence. }
  destruct (straggles_dec k_view h w1) as [Hst|Hst]; [exists l; split; [done|]; intros n Hn; split; [by apply Hlt|by left]|].
  destruct (straggles_dec k_holds h w1) as [Hsh|Hsh]; [exists l; split; [done|]; intros n Hn; split; [by apply Hlt|by right]|].
  assert (gone h (k_book w1)) as Hgone.
  { split; try done; [|cbn; by rewrite lookup_fmap, Hm]. destruct (so_books _ _ HS) as [_ Hb]. by destruct (mo_dead _ _ _ Hb _ _ Hd). }
  destruct (Hg Hgone) as (m & E' & Hmm). exists m. split; [done|]. intros n Hn. rewrite Forall_forall in Hmm. by destruct (Hmm _ Hn).
Qed.


(** Ending a credential ends it.  When a handler is about to answer that
    sessions were revoked (one device, or all others after a change of
    password), every one of them has lost its row.  Once a handler has evicted
    a session without a row from the memo, whatever is interleaved afterwards,
    the session admits only if some request had read the row and not yet
    stored what it read, and then no request that read the clock thirty
    seconds after the row went.  The same holds for a deleted key, until a
    restart reads the key file again. *)
Theorem revoked_credentials_stop now before w0 t pid dr fault w1 later w2 :
  run gen cmp cfg before (fresh_install now) = Some w0 -> run gen cmp cfg [(t, EvRun pid dr fault)] w0 = Some w1 ->
  run gen cmp cfg later w1 = Some w2 ->
  (forall toks a, w_procs w0 !! pid = Some (PForget toks a) -> strict a = true -> Forall (fun tok => is_Some (w_sdead w0 !! tok)) toks) /\
  (forall tok toks a D, w_procs w0 !! pid = Some (PForget (tok :: toks) a) -> tok <> ""%string -> w_sdead w0 !! tok = Some D ->
     exists l, w_sin w2 = l ++ w_sin w1 /\ forall n, (n, tok) ∈ l -> n < D + sessionCacheTTL /\ straggles s_view tok w1) /\
  (forall id h D, w_procs w0 !! pid = Some (PKeyEvict id h) -> w_kdead w0 !! h = Some D ->
     Forall (fun te => restarts (snd te) = false) later ->
     exists l, w_kin w2 = l ++ w_kin w1 /\
       forall n, (n, h) ∈ l -> n < D + keyCacheTTL /\ (straggles k_view h w1 \/ straggles k_holds h w1)).
Proof.
  intros H0 H1 H2. pose proof (sound_start cmp now) as HS. assert (forgets_all (fresh_install now)) as HF by done.
  pose proof (sound_run _ _ _ _ _ _ HS H0) as HS0. pose proof (forgets_run _ _ _ HS HF H0) as HF0.
  pose proof (sound_run _ _ _ _ _ _ HS0 H1) as HS1. split_and!.
  - intros toks a Hp. exact (HF0 _ _ Hp).
  - intros tok toks a D Hp Hne Hd. destruct (run_session gen cmp cfg tok D _ _ _ HS0 H1 Hd) as (Hd1 & _).
    eapply after_forget; [done..| |done]. simpl in H1. destruct (t <? w_now w0); [done|]. cbn in H1. rewrite Hp in H1. cbn in H1.
    rewrite bool_decide_eq_false_2 in H1 by done. injection H1 as <-. apply lookup_delete_eq.
  - intros id h D Hp Hd Hno. destruct (run_key gen cmp cfg h D _ _ _ HS0 H1 ltac:(by repeat constructor) Hd) as (Hd1 & _).
    eapply after_evict; [done..| |done|done]. simpl in H1. destruct (t <? w_now w0); [done|]. cbn in H1. rewrite Hp in H1. cbn in H1.
    injection H1 as <-. apply lookup_delete_eq.
Qed.
End Theorems.

(* ------------------------------------------------------------------ *)
(** ** Concrete runs *)

Definition demo_gen (salt pw : string) : option string := Some (salt ++ pw)%string.
Definition demo_cmp (hash pw : string) : bool := bool_decide (hash = ("salt" ++ pw)%string).
Definition demo_draw (n : Z) : drawn := Drawn (repeat n 32) "salt" "id".
Definition demo_token (n : Z) : string := token_of (repeat n 32).
Definition demo_plaintext (n : Z) : string := plaintext_of (repeat n 32).

Definition demo_call (t : Z) (pid : nat) (c : call) : Z * event := (t * second, EvCall pid c).
Definition demo_run (t : Z) (pid : nat) (n : Z) : Z * event := (t * second, EvRun pid (demo_draw n) false).
Definition demo_steps (t : Z) (pid : nat) (n : Z) (k : nat) : list (Z * event) := repeat (demo_run t pid n) k.

Definition bare (method path : string) (key : string) (cookie : option string) : request := Request method path "" key "" cookie.
Definition demo_world (es : list (Z * event)) : world := default (fresh_install 0) (run demo_gen demo_cmp 0 es (fresh_install 0)).

(** The first user, whose session is [demo_token 1]. *)
Definition demo_setup : list (Z * event) :=
  demo_call 1 0 (COnboard (bare "POST" "/api/v1/auth/onboard" "" None) (Some ("ada", "correct horse")%string)) :: demo_steps 1 0 1 5.

Definition demo_get (t : Z) (pid : nat) (n : Z) : Z * event :=
  demo_call t pid (CRequest (bare "GET" "/api/v1/functions" "" (Some (demo_token n))) None).

(** She mints a key for reading and it is used. *)
Definition demo_mint : list (Z * event) :=
  demo_call 2 1 (CRequest (bare "POST" "/api/v1/keys" "" (Some (demo_token 1)))
    (Some (MkCreateKey "ci" ["read"%string] None (Some 30)))) :: demo_steps 2 1 2 4 ++
  demo_call 3 2 (CRequest (bare "GET" "/api/v1/functions" (demo_plaintext 2) None) None) :: demo_steps 3 2 3 4.


(** She logs out; the request afterwards is refused. *)
Definition demo_logout : list (Z * event) :=
  demo_get 2 1 1 :: demo_steps 2 1 1 3 ++ [demo_call 3 2 (CLogout (Some (demo_token 1))); demo_run 3 2 1].
Definition demo_after : list (Z * event) := demo_get 4 3 1 :: demo_steps 4 3 1 3.

Lemma revoked_credentials_stop_witness :
  exists l, w_sin (demo_world (demo_setup ++ demo_logout ++ [demo_run 3 2 1] ++ demo_after)) = l ++ [(2 * second, demo_token 1)] /\
    forall n, (n, demo_token 1) ∈ l -> n < 3 * second + sessionCacheTTL.
Proof.
  destruct (revoked_credentials_stop demo_gen demo_cmp 0 0 (demo_setup ++ demo_logout) (demo_world (demo_setup ++ demo_logout))
    (3 * second) 2 (demo_draw 1) false (demo_world (demo_setup ++ demo_logout ++ [demo_run 3 2 1])) demo_after
    (demo_world (demo_setup ++ demo_logout ++ [demo_run 3 2 1] ++ demo_after))) as (_ & H & _); [vm_compute; reflexivity..|].
  destruct (H (demo_token 1) [] ALoggedOut (3 * second)) as (l & E & Hl); [vm_compute; reflexivity|vm_compute; discriminate|vm_compute; reflexivity|].
  exists l. split; [|intros n Hn; by apply Hl].
  rewrite E. f_equal.
Defined.

Definition answered (w : world) (pid : nat) : option answer :=
  match w_procs w !! pid with Some (PDone a) => Some a | _ => None end.

(** A request that had read the row before the log-out stores it afterwards:
    the session is back for thirty seconds. *)
Definition demo_straggler : list (Z * event) :=
  demo_setup ++ demo_get 2 1 1 :: demo_steps 2 1 1 2 ++
  demo_call 3 2 (CLogout (Some (demo_token 1))) :: demo_steps 3 2 1 3 ++
  [demo_run 4 1 1] ++ demo_get 31 3 1 :: demo_steps 31 3 1 1 ++ demo_get 32 4 1 :: demo_steps 32 4 1 3.

Example a_request_in_flight_brings_a_session_back :
  let w := demo_world demo_straggler in
  answered w 2 = Some ALoggedOut /\ answered w 3 = Some (AServed (Some (CSession (demo_token 1)))) /\
  answered w 4 = Some (AGate (Deny 401 "UNAUTHORIZED")).
Proof. vm_compute. done. Qed.

(** Log-out answers the same whether the row went or not. *)
Example a_failed_log_out_leaves_the_session :
  let w := demo_world (demo_setup ++ [demo_call 2 1 (CLogout (Some (demo_token 1))); (2 * second, EvRun 1 (demo_draw 1) true)] ++
                       demo_steps 2 1 1 2 ++ demo_get 90 2 1 :: demo_steps 90 2 1 3) in
  answered w 1 = Some ALoggedOut /\ answered w 2 = Some (AServed (Some (CSession (demo_token 1)))).
Proof. vm_compute. done. Qed.

(** Two claims of an unused instance that both counted before either inserted. *)
Example two_first_claims :
  let claim name := COnboard (bare "POST" "/api/v1/auth/onboard" "" None) (Some (name, "long enough")%string) in
  let w := demo_world (demo_call 1 0 (claim "ada"%string) :: demo_steps 1 0 1 3 ++ demo_call 1 1 (claim "eve"%string) :: demo_steps 1 1 2 3 ++
                       demo_steps 1 0 1 2 ++ demo_steps 1 1 2 2) in
  answered w 0 = Some (ASession (demo_token 1) 1) /\ answered w 1 = Some (ASession (demo_token 2) 2) /\ CountUsers (w_db w) = 2.
Proof. vm_compute. done. Qed.

(** A log-in that matched the old password before the change gets its session
    after the change has revoked the others. *)
Example a_log_in_outlives_the_change :
  let w := demo_world (demo_setup ++ demo_call 2 1 (CLogin "6.6.6.6" false (Some ("ada", "correct horse")%string)) :: demo_steps 2 1 2 2 ++
                       demo_call 3 2 (CChange (Some (demo_token 1)) (Some ("correct horse", "battery staple")%string)) :: demo_steps 3 2 1 5 ++
                       demo_steps 4 1 2 1 ++ demo_get 90 3 2 :: demo_steps 90 3 2 3) in
  answered w 2 = Some (AChanged false) /\ answered w 3 = Some (AServed (Some (CSession (demo_token 2)))).
Proof. vm_compute. done. Qed.

(** The prefix is a pattern: one of eight underscores is not the caller's
    own prefix, and matches the caller's session. *)
Example a_pattern_revokes_the_caller :
  let w := demo_world (demo_setup ++ demo_call 2 1 (CRevoke (Some (demo_token 1)) "________" false) :: demo_steps 2 1 1 5) in
  answered w 1 = Some ARevoked /\ t_sessions (w_db w) = ∅.
Proof. vm_compute. done. Qed.

(** The first boot's key, deleted by its owner, is back after a restart. *)
Example a_deleted_bootstrap_key_returns :
  let f := BootFaults false false false false in
  let w := demo_world ((1 * second, EvBoot (demo_draw 7) f) :: demo_setup ++
    demo_call 2 1 (CRequest (bare "DELETE" "/api/v1/keys/id" "" (Some (demo_token 1))) None) :: demo_steps 2 1 1 6) in
  let w' := default w (run demo_gen demo_cmp 0 ((3 * second, EvBoot (demo_draw 8) f) ::
    demo_call 4 1 (CRequest (bare "GET" "/api/v1/keys" (demo_plaintext 7) None) None) :: demo_steps 4 1 1 4) w) in
  answered w 1 = Some (AKeyDeleted "id") /\ t_keys (w_db w) = ∅ /\
  answered w' 1 = Some (AServed (Some (CKey (key_hash (demo_plaintext 7))))).
Proof. vm_compute. done. Qed.
