(* ===== verification/Webhooks.v ===== *)
(** * Outbound webhooks
    ([database/webhooks.go], [server/handlers/webhooks.go],
     [server/events/webhook_fanout.go], [deliverWebhook] of
     [scheduler/scheduler.go])

    Subscriptions with the text their list of events is stored as and the
    pattern that finds them, the fan-out from an event of the hub to rows of
    [Jobs]' delivery queue, and one attempt at a delivery. *)
From S2P Require Import Prelude GoText Sha256 AuthGate Json Netip Headers Url Sql Jobs Worker Runs Inbound Hub.
Open Scope Z_scope.

(* ------------------------------------------------------------------ *)
(** ** Lists of events as text *)

Definition trim_prefix (p l : list Z) : list Z := if starts_with p l then drop (length p) l else l.
Definition trim_suffix (p l : list Z) : list Z := rev (trim_prefix (rev p) (rev l)).

Definition escape_event (seg : list Z) (ok : bool) : list Z :=
  if negb ok then fffd else if bool_decide (seg = [34]) || bool_decide (seg = [92]) then 92 :: seg else seg.

Definition quoted_event (e : string) : list Z := 34 :: over_runes escape_event (String.length e) (bytes e) ++ [34].

Definition encodeEventArray (events : list string) : string :=
  match events with
  | [] => of_bytes (91 :: quoted_event "*" ++ [93])
  | _ => of_bytes (91 :: join [44] (map quoted_event events) ++ [93])
  end.

Definition decodeEventArray (s : string) : list string :=
  let s := bytes (trimSpace s) in
  if bool_decide (s = []) || bool_decide (s = [91; 93]) then []
  else
    let s := trim_suffix [93] (trim_prefix [91] s) in
    let parts := map (fun p => of_bytes (trim_suffix [34] (trim_prefix [34] (bytes (trimSpace (of_bytes p)))))) (split 44 s) in
    List.filter (fun p => negb (bool_decide (p = ""%string))) parts.

Definition listed_pattern (name : string) : list Z := [37; 34] ++ bytes name ++ [34; 37].

(* ------------------------------------------------------------------ *)
(** ** Subscriptions *)

(** A row holds the events as text, the program holds them as a list. *)
Record subscription (E : Type) := MkSub {
  sb_ID : string; sb_Name : string; sb_URL : string; sb_Secret : string; sb_Events : E; sb_Enabled : bool;
  sb_LastDeliveryAt : option Z; sb_LastStatus : option string; sb_LastError : option string; sb_CreatedAt : Z; sb_UpdatedAt : Z }.
Arguments MkSub {E}. Arguments sb_ID {E}. Arguments sb_Name {E}. Arguments sb_URL {E}. Arguments sb_Secret {E}. Arguments sb_Events {E}.
Arguments sb_Enabled {E}. Arguments sb_LastDeliveryAt {E}. Arguments sb_LastStatus {E}. Arguments sb_LastError {E}.
Arguments sb_CreatedAt {E}. Arguments sb_UpdatedAt {E}.
#[export] Instance eta_subscription {E} : Eta (subscription E) := fun r =>
  MkSub (sb_ID r) (sb_Name r) (sb_URL r) (sb_Secret r) (sb_Events r) (sb_Enabled r) (sb_LastDeliveryAt r) (sb_LastStatus r)
    (sb_LastError r) (sb_CreatedAt r) (sb_UpdatedAt r).

Definition EventSubscription : Type := subscription (list string).
Definition sub_row : Type := subscription string.

Definition read_row (r : sub_row) : EventSubscription :=
  MkSub (sb_ID r) (sb_Name r) (sb_URL r) (sb_Secret r) (decodeEventArray (sb_Events r)) (sb_Enabled r) (sb_LastDeliveryAt r)
    (sb_LastStatus r) (sb_LastError r) (sb_CreatedAt r) (sb_UpdatedAt r).

Definition InsertEventSubscription (io : bool) (id : string) (now : Z) (s : EventSubscription) (t : gmap string sub_row) : option (gmap string sub_row) :=
  let id := if bool_decide (sb_ID s = ""%string) then id else sb_ID s in
  let events := match sb_Events s with [] => ["*"%string] | l => l end in
  if io || bool_decide (is_Some (t !! id)) then None
  else Some (<[id := MkSub id (sb_Name s) (sb_URL s) (sb_Secret s) (encodeEventArray events) (sb_Enabled s) None None None now now]> t).

Definition GetEventSubscription (io : bool) (id : string) (t : gmap string sub_row) : option EventSubscription :=
  if io then None else read_row <$> t !! id.

Definition listens (name : string) (r : sub_row) : bool :=
  sb_Enabled r && (like (listed_pattern "*") (bytes (sb_Events r)) || like (listed_pattern name) (bytes (sb_Events r))).

(** [order]: by the time of creation, ties in any order. *)
Definition MatchingSubscriptions (order : list sub_row -> list sub_row) (name : string) (t : gmap string sub_row) : list EventSubscription :=
  read_row <$> order (List.filter (listens name) (snd <$> map_to_list t)).

(** Never the secret. *)
Definition UpdateEventSubscription (io : bool) (now : Z) (s : EventSubscription) (t : gmap string sub_row) : option (gmap string sub_row) :=
  if io then None
  else Some (alter (fun r => r <| sb_Name := sb_Name s |> <| sb_URL := sb_URL s |> <| sb_Events := encodeEventArray (sb_Events s) |>
                               <| sb_Enabled := sb_Enabled s |> <| sb_UpdatedAt := now |>) (sb_ID s) t).

Definition MarkSubscriptionResult (io : bool) (id status errMsg : string) (now : Z) (t : gmap string sub_row) : gmap string sub_row :=
  if io then t
  else alter (fun r => r <| sb_LastDeliveryAt := Some now |> <| sb_LastStatus := Some status |> <| sb_LastError := Some errMsg |>
                         <| sb_UpdatedAt := now |>) id t.

Definition InsertDelivery (io : bool) (subs : gmap string sub_row) (id : string) (now : Z) (subID name : string) (payload : list Z) (maxAttempts : Z)
    (q : gmap string WebhookDelivery) : option (gmap string WebhookDelivery) :=
  let max := if maxAttempts <=? 0 then 5 else maxAttempts in
  if io || bool_decide (is_Some (q !! id)) || bool_decide (subs !! subID = None) then None
  else Some (<[id := MkDelivery subID name (of_bytes payload) (QState "pending" now None None 0 max (Some ""%string)) None now]> q).

(** The row and, by the foreign key, its deliveries. *)
Definition DeleteEventSubscription (io : bool) (id : string) (t : gmap string sub_row) (q : gmap string WebhookDelivery) :
    option (gmap string sub_row * gmap string WebhookDelivery) :=
  if io then None else Some (delete id t, filter (fun kd : string * WebhookDelivery => d_SubscriptionID kd.2 <> id) q).

(* ------------------------------------------------------------------ *)
(** ** Handlers *)

Definition allowedEvents : list string :=
  ["*"; "deployment.succeeded"; "deployment.failed"; "function.created"; "function.updated"; "function.deleted"; "execution.error";
   "cron.failed"; "job.succeeded"; "job.failed"; "webhook.test"]%string.

Definition normalizeEvents (l : list string) : list string :=
  let out := foldl (fun out e => let e := trimSpace e in
                      if bool_decide (e = ""%string) || bool_decide (e ∈ out) then out else out ++ [e]) [] l in
  match out with [] => ["*"%string] | _ => out end.

Definition validateEventNames (l : list string) : bool := forallb (fun e => bool_decide (e ∈ allowedEvents)) l.

Definition validateWebhookURL (s : string) : bool :=
  negb (bool_decide (s = ""%string)) &&
  match Parse s with
  | Some u => (bool_decide (Scheme u = bytes "http") || bool_decide (Scheme u = bytes "https")) && negb (bool_decide (Host u = []))
  | None => false
  end.

Record createRequest := MkSubCreate { sc_Name : string; sc_URL : string; sc_Events : list string; sc_Enabled : option bool }.
Record updateRequest := MkSubUpdate { su_Name : option string; su_URL : option string; su_Events : option (list string); su_Enabled : option bool }.

Definition CreateSubscription (req : option createRequest) (io : bool) (id secret : string) (now : Z) (t : gmap string sub_row) : gmap string sub_row * Z :=
  match req with
  | None => (t, 400)
  | Some req =>
    let name := trimSpace (sc_Name req) in
    let url := trimSpace (sc_URL req) in
    let events := normalizeEvents (sc_Events req) in
    if bool_decide (name = ""%string) || negb (validateWebhookURL url) || negb (validateEventNames events) then (t, 400)
    else
      match InsertEventSubscription io id now (MkSub "" name url secret events (default true (sc_Enabled req)) None None None 0 0) t with
      | None => (t, 500)
      | Some t => (t, 201)
      end
  end.

Definition updated_subscription (req : updateRequest) (s : EventSubscription) : option EventSubscription :=
  s ← match su_Name req with
      | Some n => let name := trimSpace n in if bool_decide (name = ""%string) then None else Some (s <| sb_Name := name |>)
      | None => Some s
      end;
  s ← match su_URL req with
      | Some u => let u := trimSpace u in if validateWebhookURL u then Some (s <| sb_URL := u |>) else None
      | None => Some s
      end;
  s ← match su_Events req with
      | Some l => let l := normalizeEvents l in if validateEventNames l then Some (s <| sb_Events := l |>) else None
      | None => Some s
      end;
  Some (match su_Enabled req with Some b => s <| sb_Enabled := b |> | None => s end).

Definition UpdateSubscription (io_read io_write : bool) (id : string) (req : option updateRequest) (now : Z) (t : gmap string sub_row) :
    gmap string sub_row * Z :=
  match GetEventSubscription io_read id t with
  | None => (t, 404)
  | Some s =>
    match req with
    | None => (t, 400)
    | Some req =>
      match updated_subscription req s with
      | None => (t, 400)
      | Some s => match UpdateEventSubscription io_write now s t with None => (t, 500) | Some t => (t, 200) end
      end
    end
  end.

Definition DeleteSubscription (io_read io_write : bool) (id : string) (t : gmap string sub_row) (q : gmap string WebhookDelivery) :
    gmap string sub_row * gmap string WebhookDelivery * Z :=
  match GetEventSubscription io_read id t with
  | None => (t, q, 404)
  | Some _ => match DeleteEventSubscription io_write id t q with None => (t, q, 500) | Some (t, q) => (t, q, 200) end
  end.

(** [Test]: one attempt; [body]: the synthetic envelope. *)
Definition TestSubscription (io_read io_write : bool) (id deliveryID : string) (body : list Z) (now : Z) (t : gmap string sub_row)
    (q : gmap string WebhookDelivery) : gmap string WebhookDelivery * Z :=
  match GetEventSubscription io_read id t with
  | None => (q, 404)
  | Some s => match InsertDelivery io_write t deliveryID now (sb_ID s) "webhook.test" body 1 q with None => (q, 500) | Some q => (q, 202) end
  end.

Definition RetryDeliveryRequest (io_read io_write : bool) (id : string) (now : Z) (q : gmap string WebhookDelivery) : gmap string WebhookDelivery * Z :=
  match (if io_read then None else q !! id) with
  | None => (q, 404)
  | Some _ => if io_write then (q, 500) else (RetryDelivery now id q, 200)
  end.

(* ------------------------------------------------------------------ *)
(** ** From an event to deliveries *)

Definition says (data : gmap string json) (key value : string) : bool :=
  match data !! key with Some (JString v) => bool_decide (v = value) | _ => false end.

Definition qualifyEvent (ev : Event) : option (string * gmap string json) :=
  match e_Data ev with
  | None => None
  | Some data =>
    let name : option string :=
      if bool_decide (e_Type ev = "deployment"%string) then
        if says data "status" "succeeded" then Some "deployment.succeeded" else if says data "status" "failed" then Some "deployment.failed" else None
      else if bool_decide (e_Type ev = "function"%string) then
        if says data "action" "created" then Some "function.created" else if says data "action" "updated" then Some "function.updated"
        else if says data "action" "deleted" then Some "function.deleted" else None
      else if bool_decide (e_Type ev = "execution"%string) then if says data "status" "error" then Some "execution.error" else None
      else if bool_decide (e_Type ev = "cron"%string) then if says data "status" "failed" then Some "cron.failed" else None
      else if bool_decide (e_Type ev = "job"%string) then
        if says data "status" "succeeded" then Some "job.succeeded" else if says data "status" "failed" then Some "job.failed" else None
      else None in
    match name with Some n => Some (n, data) | None => None end
  end%string.

Definition json_map (m : gmap string json) : json := JObject (merge_sort (fun a b => str_le a.1 b.1) (map_to_list m)).

Definition event_envelope (evID firedAt name : string) (data : gmap string json) : json :=
  JObject [("data", json_map data); ("fired_at", JString firedAt); ("id", JString ("evt_" ++ evID)); ("type", JString name)]%string.

(** What the surroundings answer while one event is handled: the failure of the
    look-up; the identifier and the time of the envelope; per subscription the
    identifier of its delivery, the clock and the failure of the insert. *)
Record fanout_env := MkFanout {
  fo_io : bool; fo_evID : string; fo_firedAt : string; fo_id : string -> string; fo_now : string -> Z; fo_insert_io : string -> bool }.

Definition insert_one (v : fanout_env) (subs : gmap string sub_row) (name : string) (body : list Z) (q : gmap string WebhookDelivery)
    (s : EventSubscription) : gmap string WebhookDelivery :=
  default q (InsertDelivery (fo_insert_io v (sb_ID s)) subs (fo_id v (sb_ID s)) (fo_now v (sb_ID s)) (sb_ID s) name body 0 q).

Definition handle (order : list sub_row -> list sub_row) (v : fanout_env) (ev : Event) (subs : gmap string sub_row)
    (q : gmap string WebhookDelivery) : gmap string WebhookDelivery :=
  match qualifyEvent ev with
  | None => q
  | Some (name, data) =>
    if fo_io v then q
    else foldl (insert_one v subs name (marshal (event_envelope (fo_evID v) (fo_firedAt v) name data))) q (MatchingSubscriptions order name subs)
  end.

(* ------------------------------------------------------------------ *)
(** ** One attempt *)

Record post := MkPost { po_URL : string; po_Headers : list (string * string); po_Body : list Z }.

(** What became of the request: it could not be built, the policy or the
    network refused it, it was answered. *)
Inductive post_result := NotBuilt (err : string) | EgressBlocked (err : string) | TransportError (err : string) | Answered (status : Z).

Record attempt_env := MkAttempt {
  at_read_io : bool; at_lookup_text : string; at_now : Z; at_unix : Z; at_result : post_result; at_mark_io : bool; at_sub_io : bool }.

Definition signed_post (sub : EventSubscription) (id : string) (d : WebhookDelivery) (unix : Z) : post :=
  let ts := formatInt unix in
  MkPost (sb_URL sub)
    [("Content-Type", "application/json"); ("User-Agent", "Orva-Webhook/1.0"); ("X-Orva-Event", d_EventName d);
     ("X-Orva-Delivery-Id", id); ("X-Orva-Timestamp", ts);
     ("X-Orva-Signature", "sha256=" ++ hex_mac (sb_Secret sub) (stripe_payload ts (bytes (d_Payload d))))]%string
    (bytes (d_Payload d)).

Definition attempt_error (r : post_result) : option (string * Z) :=
  match r with
  | NotBuilt err => Some ("build request: " ++ err, 0)
  | EgressBlocked err => Some ("blocked by egress policy: " ++ err, 0)
  | TransportError err => Some ("transport: " ++ err, 0)
  | Answered status => if ((200 <=? status) && (status <? 300))%Z then None
                       else Some ("HTTP " ++ formatInt status ++ " from receiver", status)
  end%string.

Definition answered_status (r : post_result) : Z := match r with Answered status => status | _ => 0 end.

(** [handleDeliveryFailure]; [d]: the row as it was claimed. *)
Definition handleDeliveryFailure (v : attempt_env) (id : string) (d : WebhookDelivery) (subID errMsg : string) (respStatus : Z)
    (subs : gmap string sub_row) (q : gmap string WebhookDelivery) : gmap string sub_row * gmap string WebhookDelivery :=
  let attempts := q_attempts (d_state d) in
  let max := q_max (d_state d) in
  (if max <=? attempts then MarkSubscriptionResult (at_sub_io v) subID "failed" errMsg (at_now v) subs else subs,
   if at_mark_io v then q else MarkDeliveryFailure (at_now v) id errMsg attempts max respStatus q).

(** [deliverWebhook]; writes that fail are ignored. *)
Definition deliverWebhook (v : attempt_env) (id : string) (d : WebhookDelivery) (subs : gmap string sub_row) (q : gmap string WebhookDelivery) :
    gmap string sub_row * gmap string WebhookDelivery * option post :=
  match GetEventSubscription (at_read_io v) (d_SubscriptionID d) subs with
  | None =>
    let max := q_max (d_state d) in
    (subs, if at_mark_io v then q else MarkDeliveryFailure (at_now v) id ("subscription deleted: " ++ at_lookup_text v) max max 0 q, None)
  | Some sub =>
    let request := match at_result v with NotBuilt _ => None | _ => Some (signed_post sub id d (at_unix v)) end in
    match attempt_error (at_result v) with
    | None =>
      (MarkSubscriptionResult (at_sub_io v) (sb_ID sub) "ok" "" (at_now v) subs,
       if at_mark_io v then q else MarkDeliverySuccess (at_now v) id (answered_status (at_result v)) q, request)
    | Some (errMsg, respStatus) =>
      let '(subs, q) := handleDeliveryFailure v id d (sb_ID sub) errMsg respStatus subs q in (subs, q, request)
    end
  end.

(* ------------------------------------------------------------------ *)
(** ** The text of a list of events *)

(** What names of events are made of: small letters, dots and the star. *)
Definition name_byte (c : Z) : Prop := 97 <= c <= 122 \/ c = 46 \/ c = 42.
Definition event_name (e : string) : Prop := e <> ""%string /\ Forall name_byte (bytes e).

Lemma allowed_names e : e ∈ allowedEvents -> event_name e.
Proof.
  set (ok := fun c => (97 <=? c) && (c <=? 122) || (c =? 46) || (c =? 42)).
  assert (forallb (fun e => negb (bool_decide (e = ""%string)) && forallb ok (bytes e)) allowedEvents = true) as H by (vm_compute; reflexivity).
  intros He%list_elem_of_In. rewrite forallb_forall in H. specialize (H e He). apply andb_true_iff in H as [H1 H2].
  split; [by apply negb_true_iff, bool_decide_eq_false in H1|]. apply Forall_forall. intros c Hc%list_elem_of_In.
  rewrite forallb_forall in H2. specialize (H2 c Hc). unfold ok in H2. unfold name_byte.
  apply orb_true_iff in H2 as [H2|H2]; [apply orb_true_iff in H2 as [H2|H2]|]; zbool; lia.
Qed.

Lemma over_runes_ascii f l : Forall (fun c => 0 <= c < 128) l -> (forall c, c ∈ l -> f [c] true = [c]) ->
  forall n, (length l <= n)%nat -> over_runes f n l = l.
Proof.
  induction 1 as [|c l Hc _ IH]; intros Hf n Hn; [by destruct n|]. destruct n as [|n]; [cbn in Hn; lia|]. cbn [over_runes decode_rune].
  rewrite (proj2 (Z.ltb_lt c 128)) by lia. cbn [take drop]. rewrite take_0, drop_0, Hf by by left. cbn [app]. f_equal.
  apply IH; [|cbn in Hn; lia]. intros d Hd. apply Hf. by right.
Qed.

Lemma quoted_name e : event_name e -> quoted_event e = 34 :: bytes e ++ [34].
Proof.
  intros [_ He]. unfold quoted_event. rewrite over_runes_ascii; [done| | |rewrite length_bytes; lia].
  - eapply Forall_impl; [exact He|]. intros c Hc. unfold name_byte in Hc. lia.
  - intros c Hc. rewrite Forall_forall in He. specialize (He c Hc). unfold escape_event. cbn [negb].
    rewrite !bool_decide_eq_false_2; [done| |]; intros [= ->]; unfold name_byte in He; lia.
Qed.

Definition listed (l : list string) : list Z := 91 :: join [44] (map (fun e => 34 :: bytes e ++ [34]) l) ++ [93].

Lemma listed_bytes l : Forall event_name l -> Forall (fun c => 33 <= c <= 126) (listed l).
Proof.
  intros Hl. constructor; [lia|]. apply Forall_app. split; [|repeat constructor; lia].
  apply (join_in (fun c => 33 <= c <= 126)); [repeat constructor; lia|]. apply Forall_map. eapply Forall_impl; [exact Hl|].
  intros e [_ He]. constructor; [lia|]. apply Forall_app. split; [|repeat constructor; lia].
  eapply Forall_impl; [exact He|]. unfold name_byte. lia.
Qed.

Lemma encoded_names l : l <> [] -> Forall event_name l -> encodeEventArray l = of_bytes (listed l) /\ bytes (encodeEventArray l) = listed l.
Proof.
  intros Hl Hn. assert (encodeEventArray l = of_bytes (listed l)) as E.
  { destruct l as [|e l]; [done|]. unfold encodeEventArray, listed. do 4 f_equal. apply map_ext_Forall.
    eapply Forall_impl; [exact Hn|]. apply quoted_name. }
  split; [exact E|]. rewrite E. apply bytes_of_bytes. eapply Forall_impl; [by apply listed_bytes|]. cbn. lia.
Qed.

Lemma trim_prefix_here p l : trim_prefix p (p ++ l) = l.
Proof. unfold trim_prefix, starts_with. rewrite take_app_length, bool_decide_eq_true_2 by done. apply drop_app_length. Qed.
Lemma trim_suffix_here p l : trim_suffix p (l ++ p) = l.
Proof. unfold trim_suffix. by rewrite rev_app_distr, trim_prefix_here, rev_involutive. Qed.

Lemma split_join c ls : ls <> [] -> Forall (Forall (fun x => x <> c)) ls -> split c (join [c] ls) = ls.
Proof.
  intros Hne Hl. induction Hl as [|x ls Hx Hls IH]; [done|]. destruct ls as [|y ls]; [by apply split_one|].
  change (join [c] (x :: y :: ls)) with (x ++ c :: join [c] (y :: ls)). rewrite split_app by done. f_equal. by apply IH.
Qed.

(** What a subscription listens to reads back from its row as it was written. *)
Lemma decoded_names l : l <> [] -> Forall event_name l -> decodeEventArray (encodeEventArray l) = l.
Proof.
  intros Hl Hn. destruct (encoded_names l Hl Hn) as [E Eb]. unfold decodeEventArray. rewrite printable_trim.
  2: { rewrite Eb. eapply Forall_impl; [by apply listed_bytes|]. done. }
  rewrite Eb. assert (exists e l', l = e :: l') as (e0 & l0 & El) by (destruct l; [done|by eexists _, _]).
  rewrite !bool_decide_eq_false_2; [|subst l; unfold listed; cbn [map join]; destruct l0; done|done]. cbn [orb].
  unfold listed. change (91 :: ?x) with ([91] ++ x). rewrite trim_prefix_here, trim_suffix_here.
  rewrite split_join; [|by destruct l|].
  2: { apply Forall_map. eapply Forall_impl; [exact Hn|]. intros e [_ He]. constructor; [done|]. apply Forall_app.
       split; [|by repeat constructor]. eapply Forall_impl; [exact He|]. intros c Hc ->. unfold name_byte in Hc. lia. }
  rewrite map_map. clear Hl Eb E El e0 l0. induction Hn as [|e l [He Hb] _ IH]; [done|]. cbn [map List.filter].
  assert (of_bytes (trim_suffix [34] (trim_prefix [34] (bytes (trimSpace (of_bytes (34 :: bytes e ++ [34])))))) = e) as ->.
  { assert (Forall (fun c => 33 <= c <= 126) (34 :: bytes e ++ [34])) as Hp.
    { constructor; [lia|]. apply Forall_app. split; [|repeat constructor; lia]. eapply Forall_impl; [exact Hb|]. unfold name_byte. lia. }
    rewrite printable_trim; rewrite bytes_of_bytes; try (eapply Forall_impl; [exact Hp|]; cbn; lia); try exact Hp.
    change (34 :: bytes e ++ [34]) with ([34] ++ bytes e ++ [34]). by rewrite trim_prefix_here, trim_suffix_here, of_bytes_bytes. }
  rewrite bool_decide_eq_false_2 by done. cbn [negb]. by rewrite IH.
Qed.

(* ------------------------------------------------------------------ *)
(** ** What the pattern finds *)

Lemma split_app_any c a r : split c (a ++ c :: r) = split c a ++ split c r.
Proof.
  induction a as [|x a IH]; cbn [app split]; [by rewrite Z.eqb_refl|]. destruct (x =? c); [by rewrite IH|]. rewrite IH.
  destruct (split c a) eqn:E; [by apply split_ne in E|done].
Qed.

(** The text between the quotation marks. *)
Lemma split_listed l : Forall event_name l -> forall m, m ∈ split 34 (listed l) -> m ∈ bytes <$> l \/ m = [91] \/ m = [44] \/ m = [93] \/ m = [91; 93].
Proof.
  intros Hl. assert (forall e, event_name e -> Forall (fun x => x <> 34) (bytes e)) as Hq.
  { intros e [_ He]. eapply Forall_impl; [exact He|]. unfold name_byte. lia. }
  assert (forall x r, Forall (fun c => c <> 34) x -> split 34 (x ++ 34 :: r) = x :: split 34 r) as Hs by (intros; by apply split_app).
  assert (forall l, Forall event_name l -> l <> [] -> exists ps, split 34 (join [44] (map (fun e => 34 :: bytes e ++ [34]) l) ++ [93]) = [] :: ps ++ [[93]] /\
            Forall (fun m => m ∈ bytes <$> l \/ m = [44]) ps) as Hj.
  { clear l Hl. induction 1 as [|e l He Hl IH]; intros Hne; [done|]. destruct l as [|e' l].
    - exists [bytes e]. cbn [map join app split]. split; [|repeat constructor; by left; left]. change (34 =? 34) with true. cbv iota.
      rewrite <- app_assoc. cbn [app]. by rewrite Hs by by apply Hq.
    - destruct IH as (ps & E & Hps); [done|]. exists (bytes e :: [44] :: ps). split.
      + change (join [44] (map (fun e => 34 :: bytes e ++ [34]) (e :: e' :: l)))
          with ((34 :: bytes e ++ [34]) ++ [44] ++ join [44] (map (fun e => 34 :: bytes e ++ [34]) (e' :: l))).
        set (rest := join [44] (map (fun e => 34 :: bytes e ++ [34]) (e' :: l)) ++ [93]) in *.
        replace (((34 :: bytes e ++ [34]) ++ [44] ++ join [44] (map (fun e => 34 :: bytes e ++ [34]) (e' :: l))) ++ [93])
          with ([] ++ 34 :: bytes e ++ 34 :: 44 :: rest) by (unfold rest; by rewrite <- !app_assoc; cbn; rewrite <- !app_assoc).
        rewrite Hs by constructor. rewrite Hs by by apply Hq. cbn [split]. change (44 =? 34) with false. cbv iota. by rewrite E.
      + constructor; [left; by left|]. constructor; [by right|]. eapply Forall_impl; [exact Hps|]. cbn. intros m [Hm|Hm]; [left; by right|by right]. }
  intros m. unfold listed. destruct (decide (l = [])) as [->|Hne].
  { cbn. intros Hm. apply list_elem_of_singleton in Hm. tauto. }
  destruct (Hj l Hl Hne) as (ps & E & Hps). cbn [split]. change (91 =? 34) with false. cbv iota. rewrite E.
  rewrite elem_of_cons, elem_of_app, list_elem_of_singleton. intros [->|[Hm| ->]]; [tauto| |tauto].
  rewrite Forall_forall in Hps. destruct (Hps m Hm); tauto.
Qed.

Lemma lower_name m n : Forall name_byte n -> map lower_byte m = map lower_byte n -> Forall (fun c => c <> 34) m /\ (Forall name_byte m -> m = n).
Proof.
  assert (forall c, name_byte c -> lower_byte c = c) as Hlow.
  { intros c Hc. unfold lower_byte, name_byte in *. destruct (65 <=? c) eqn:E1, (c <=? 90) eqn:E2; cbn; try done. zbool. lia. }
  intros Hn. revert m. induction Hn as [|c n Hc _ IH]; intros [|d m] E; try done. cbn [map] in E. injection E as Ed Em.
  destruct (IH m Em) as [H1 H2]. rewrite (Hlow c Hc) in Ed. split.
  - constructor; [|done]. intros ->. change (lower_byte 34) with 34 in Ed. unfold name_byte in Hc. lia.
  - intros [Hd Hm]%Forall_cons. rewrite (Hlow d Hd) in Ed. by rewrite Ed, H2.
Qed.

(** The pattern finds exactly the lists with the name. *)
Lemma like_listed l n : Forall event_name l -> event_name n -> like (listed_pattern n) (listed l) = true <-> n ∈ l.
Proof.
  intros Hl [Hne Hn]. unfold listed_pattern. 
  replace ([37; 34] ++ bytes n ++ [34; 37]) with (37 :: (34 :: bytes n ++ [34]) ++ [37]) by (cbn; by rewrite <- app_assoc).
  rewrite like_any. setoid_rewrite like_literal.
  2: { constructor; [lia|]. apply Forall_app. split; [|repeat constructor; lia]. eapply Forall_impl; [exact Hn|]. unfold name_byte. lia. }
  split.
  - intros (a & b & E & m & c & -> & Hm & _). destruct m as [|q m]; [done|]. cbn [map] in Hm. injection Hm as Hq Hm.
    assert (forall d, lower_byte d = lower_byte 34 -> d = 34) as H34.
    { intros d. unfold lower_byte. change ((65 <=? 34) && (34 <=? 90)) with false. cbv iota. destruct ((65 <=? d) && (d <=? 90)) eqn:Ed; [zbool; lia|done]. }
    apply H34 in Hq as ->. rewrite map_app in Hm. apply map_eq_app in Hm as (m1 & m2 & -> & Hm1 & Hm2).
    destruct m2 as [|q [|]]; try done. injection Hm2 as Hq. apply H34 in Hq as ->.
    destruct (lower_name m1 (bytes n) Hn Hm1) as [Hq1 Heq].
    assert (m1 ∈ split 34 (listed l)) as Hin.
    { rewrite E. replace (a ++ (34 :: m1 ++ [34]) ++ c) with (a ++ 34 :: (m1 ++ 34 :: c)) by (cbn; by rewrite <- !app_assoc).
      rewrite split_app_any, split_app by done. rewrite elem_of_app. right. by left. }
    apply split_listed in Hin; [|done].
    assert (length m1 = length (bytes n)) as Hlen by (rewrite <- (length_map lower_byte m1), Hm1; apply length_map).
    assert (forall k, m1 = [k] -> (k = 91 \/ k = 44 \/ k = 93) -> False) as Hbad.
    { intros k -> Hk. destruct (bytes n) as [|x [|]]; try done. cbn in Hm1. injection Hm1 as Hx. apply Forall_cons in Hn as [Hx' _].
      unfold lower_byte, name_byte in *. destruct ((65 <=? k) && (k <=? 90)) eqn:E1, ((65 <=? x) && (x <=? 90)) eqn:E2; zbool; lia. }
    destruct Hin as [Hin|[->|[->|[->| ->]]]]; try (exfalso; by eapply Hbad; [reflexivity|tauto]).
    + apply list_elem_of_fmap in Hin as (e & -> & Hin). rewrite Forall_forall in Hl. destruct (Hl e Hin) as [_ He].
      apply Heq, bytes_inj in He as <-. done.
    + exfalso. destruct (bytes n) as [|x [|y [|]]]; try done. cbn in Hm1. injection Hm1 as Hx _. apply Forall_cons in Hn as [Hx' _].
      unfold name_byte in Hx'. change (lower_byte 91) with 91 in Hx. unfold lower_byte in Hx. destruct ((65 <=? x) && (x <=? 90)) eqn:E1; zbool; lia.
  - intros Hin. assert (exists a b, join [44] (map (fun e => 34 :: bytes e ++ [34]) l) = a ++ (34 :: bytes n ++ [34]) ++ b) as (a & b & E).
    { clear Hl. induction l as [|e l IH]; [by apply elem_of_nil in Hin|]. apply elem_of_cons in Hin as [<-|Hin].
      - exists [], (match l with [] => [] | _ => [44] ++ join [44] (map (fun e => 34 :: bytes e ++ [34]) l) end). by destruct l; cbn [map join]; rewrite ?app_nil_r.
      - destruct (IH Hin) as (a & b & E). destruct l as [|e' l]; [by apply elem_of_nil in Hin|].
        exists ((34 :: bytes e ++ [34]) ++ [44] ++ a), b.
        change (join [44] (map (fun e => 34 :: bytes e ++ [34]) (e :: e' :: l)))
          with ((34 :: bytes e ++ [34]) ++ [44] ++ join [44] (map (fun e => 34 :: bytes e ++ [34]) (e' :: l))).
        rewrite E. by rewrite <- !app_assoc. }
    exists (91 :: a), ((34 :: bytes n ++ [34]) ++ b ++ [93]). split; [unfold listed; rewrite E; cbn [app]; rewrite <- !app_assoc; cbn [app]; by rewrite <- !app_assoc|].
    exists (34 :: bytes n ++ [34]), (b ++ [93]). split; [done|]. split; [done|]. apply (like_any [] (b ++ [93])). exists (b ++ [93]), []. split; [by rewrite app_nil_r|done].
Qed.

(* ------------------------------------------------------------------ *)
(** ** The table over time *)

Inductive sub_op :=
| SCreate (req : option createRequest) (io : bool) (id secret : string) (now : Z)
| SUpdate (io_read io_write : bool) (id : string) (req : option updateRequest) (now : Z)
| SDelete (io_read io_write : bool) (id : string)
| SResult (io : bool) (id status errMsg : string) (now : Z).

Definition sub_step (t : gmap string sub_row) (op : sub_op) : gmap string sub_row :=
  match op with
  | SCreate req io id secret now => (CreateSubscription req io id secret now t).1
  | SUpdate io_read io_write id req now => (UpdateSubscription io_read io_write id req now t).1
  | SDelete io_read io_write id => (DeleteSubscription io_read io_write id t ∅).1.1
  | SResult io id status errMsg now => MarkSubscriptionResult io id status errMsg now t
  end.

Definition row_valid (id : string) (r : sub_row) : Prop :=
  sb_ID r = id /\ exists l, l <> [] /\ Forall (fun e => e ∈ allowedEvents) l /\ sb_Events r = encodeEventArray l.

Lemma names_valid l : validateEventNames l = true -> Forall (fun e => e ∈ allowedEvents) l.
Proof.
  unfold validateEventNames. rewrite forallb_forall. intros H. apply Forall_forall. intros e He%list_elem_of_In.
  by apply (bool_decide_eq_true_1 _), H.
Qed.

Lemma normalized_ne l : normalizeEvents l <> [].
Proof. unfold normalizeEvents. by destruct (foldl _ _ _). Qed.

Lemma allowed_all l : Forall (fun e => e ∈ allowedEvents) l -> Forall event_name l.
Proof. intros H. eapply Forall_impl; [exact H|]. apply allowed_names. Qed.

Lemma read_events id r : row_valid id r -> sb_Events (read_row r) <> [] /\ Forall (fun e => e ∈ allowedEvents) (sb_Events (read_row r)) /\
  encodeEventArray (sb_Events (read_row r)) = sb_Events r /\ bytes (sb_Events r) = listed (sb_Events (read_row r)).
Proof.
  intros (_ & l & Hne & Hl & E). cbn [read_row sb_Events]. rewrite E. pose proof (allowed_all l Hl) as Hn.
  rewrite decoded_names by done. split; [done|]. split; [done|]. split; [done|]. by apply encoded_names.
Qed.

Lemma updated_events req s s' : updated_subscription req s = Some s' ->
  sb_ID s' = sb_ID s /\ (sb_Events s' = sb_Events s \/ sb_Events s' <> [] /\ Forall (fun e => e ∈ allowedEvents) (sb_Events s')).
Proof.
  unfold updated_subscription. intros H.
  destruct (su_Name req) as [n|]; cbn zeta in H; [destruct (bool_decide _); [done|]|]; cbn [mbind option_bind] in H;
    (destruct (su_URL req) as [u|]; cbn zeta in H; [destruct (validateWebhookURL _); [|done]|]; cbn [mbind option_bind] in H;
     (destruct (su_Events req) as [l|]; cbn zeta in H; [destruct (validateEventNames _) eqn:Ev; [|done]|]; cbn [mbind option_bind] in H;
      destruct (su_Enabled req); injection H as <-; (split; [reflexivity|]);
      first [right; split; [apply normalized_ne|by apply names_valid]|by left])).
Qed.

Lemma rows_valid_step t op : map_Forall row_valid t -> map_Forall row_valid (sub_step t op).
Proof.
  intros Ht. assert (forall (f : sub_row -> sub_row) k, (forall r, row_valid k r -> row_valid k (f r)) -> map_Forall row_valid (alter f k t)) as Halter.
  { intros f k Hf k' r Hr. apply lookup_alter_Some in Hr as [(<- & old & Hold & ->)|[_ Hr]]; [|by apply Ht]. by apply Hf, Ht. }
  destruct op as [req io id secret now|io_read io_write id req now|io_read io_write id|io id status errMsg now]; cbn [sub_step].
  - unfold CreateSubscription. destruct req as [req|]; [|done].
    destruct (bool_decide (trimSpace (sc_Name req) = ""%string) || negb (validateWebhookURL (trimSpace (sc_URL req)))
              || negb (validateEventNames (normalizeEvents (sc_Events req)))) eqn:E; [done|]. apply orb_false_iff in E as [_ E%negb_false_iff].
    unfold InsertEventSubscription. cbn [sb_ID]. rewrite (bool_decide_eq_true_2 (""%string = ""%string)) by done.
    destruct (io || bool_decide (is_Some (t !! id))); [done|]. cbn [fst]. apply map_Forall_insert_2; [|done]. split; [done|].
    cbn [sb_Events]. exists (normalizeEvents (sc_Events req)). split; [apply normalized_ne|]. split; [by apply names_valid|].
    destruct (normalizeEvents (sc_Events req)) eqn:En; [by apply normalized_ne in En|done].
  - unfold UpdateSubscription, GetEventSubscription. destruct io_read; [done|]. destruct (t !! id) as [r|] eqn:Er; [|done]. cbn [fmap option_fmap option_map].
    destruct req as [req|]; [|done]. destruct (updated_subscription req (read_row r)) as [s'|] eqn:Eu; [|done].
    unfold UpdateEventSubscription. destruct io_write; [done|]. cbn [fst]. apply updated_events in Eu as [Hid He].
    pose proof (Ht _ _ Er) as Hv. pose proof (read_events id r Hv) as (Hne & Hall & Henc & _). cbn [read_row sb_ID] in Hid. rewrite Hid.
    destruct Hv as [Hr _]. rewrite Hr. apply Halter. intros old [Ho _]. split; [done|]. exists (sb_Events s').
    destruct He as [->|[H1 H2]]; done.
  - unfold DeleteSubscription. destruct (GetEventSubscription _ _ _); [|done]. unfold DeleteEventSubscription. destruct io_write; [done|]. by apply map_Forall_delete.
  - unfold MarkSubscriptionResult. destruct io; [done|]. apply Halter. intros old Hold. by destruct Hold.
Qed.

Lemma rows_valid_run ops : map_Forall row_valid (foldl sub_step ∅ ops).
Proof.
  assert (forall t, map_Forall row_valid t -> map_Forall row_valid (foldl sub_step t ops)) as H.
  { induction ops as [|op ops IH]; [done|]. intros t Ht. cbn [foldl]. by apply IH, rows_valid_step. }
  apply H, map_Forall_empty.
Qed.

(* ------------------------------------------------------------------ *)
(** ** Who is told *)

(** As the subscription is shown. *)
Definition subscribes (name : string) (r : sub_row) : Prop :=
  sb_Enabled r = true /\ ("*"%string ∈ sb_Events (read_row r) \/ name ∈ sb_Events (read_row r)).

Lemma listens_subscribes id name r : row_valid id r -> event_name name -> listens name r = true <-> subscribes name r.
Proof.
  intros Hv Hn. destruct (read_events id r Hv) as (_ & Hall & _ & Eb). unfold listens, subscribes. rewrite Eb, andb_true_iff, orb_true_iff.
  assert (event_name "*") as Hs by (apply allowed_names; by left). by rewrite !like_listed by (done || by apply allowed_all).
Qed.

Lemma qualified_name ev name data : qualifyEvent ev = Some (name, data) -> event_name name.
Proof.
  unfold qualifyEvent. destruct (e_Data ev) as [m|]; [|done]. intros H. apply allowed_names.
  repeat match type of H with context [if ?b then _ else _] => destruct b end; try done; injection H as <- <-; vm_compute; by repeat constructor.
Qed.

Definition told (v : fanout_env) (name : string) (body : list Z) (s : string) : WebhookDelivery :=
  MkDelivery s name (of_bytes body) (QState "pending" (fo_now v s) None None 0 5 (Some ""%string)) None (fo_now v s).

Lemma fanned v subs name body L : (forall s, s ∈ L -> is_Some (subs !! sb_ID s) /\ fo_insert_io v (sb_ID s) = false) ->
  NoDup (fo_id v ∘ sb_ID <$> L) -> forall q, (forall s, s ∈ L -> q !! fo_id v (sb_ID s) = None) ->
  (forall s, s ∈ L -> foldl (insert_one v subs name body) q L !! fo_id v (sb_ID s) = Some (told v name body (sb_ID s))) /\
  (forall id, id ∉ fo_id v ∘ sb_ID <$> L -> foldl (insert_one v subs name body) q L !! id = q !! id).
Proof.
  induction L as [|s L IH]; intros Hs Hnd q Hq; cbn [foldl]; [split; [by intros ? ?%elem_of_nil|done]|].
  cbn [fmap list_fmap] in Hnd. apply NoDup_cons in Hnd as [Hnew Hnd].
  assert (insert_one v subs name body q s = <[fo_id v (sb_ID s) := told v name body (sb_ID s)]> q) as E.
  { unfold insert_one, InsertDelivery. destruct (Hs s) as [[r Er] ->]; [by left|]. rewrite Hq by by left. rewrite bool_decide_eq_false_2 by by intros [].
    rewrite bool_decide_eq_false_2 by by rewrite Er. done. }
  rewrite E. destruct (IH (fun s' H => Hs s' (list_elem_of_further _ _ _ H)) Hnd (<[fo_id v (sb_ID s) := told v name body (sb_ID s)]> q)) as [H1 H2].
  { intros s' Hs'. rewrite lookup_insert_ne; [by apply Hq; right|]. intros Heq. apply Hnew. apply list_elem_of_fmap. by exists s'. }
  split.
  - intros s' Hs'. apply elem_of_cons in Hs' as [->|Hs']; [|by apply H1]. rewrite H2 by done. apply lookup_insert_eq.
  - intros id Hid. cbn [fmap list_fmap] in Hid. apply not_elem_of_cons in Hid as [Hne Hid]. rewrite H2 by done. by apply lookup_insert_ne.
Qed.

(** C17. When the platform handles an event of the catalogue, exactly the
    subscriptions that are enabled and show the event's name or the star in
    their list are told: each gets one pending delivery with five attempts that
    carries the event, whatever history of edits the table has -- and nothing
    else changes in the queue. *)
Theorem events_reach_their_subscribers ops order v ev name data q :
  let subs := foldl sub_step ∅ ops in
  qualifyEvent ev = Some (name, data) -> (forall l, Permutation (order l) l) ->
  fo_io v = false -> (forall s, fo_insert_io v s = false) ->
  (forall s s', fo_id v s = fo_id v s' -> s = s') -> (forall s, q !! fo_id v s = None) ->
  let q' := handle order v ev subs q in
  let body := marshal (event_envelope (fo_evID v) (fo_firedAt v) name data) in
  (forall s r, subs !! s = Some r -> subscribes name r -> q' !! fo_id v s = Some (told v name body s)) /\
  (forall id, (forall s r, subs !! s = Some r -> subscribes name r -> id <> fo_id v s) -> q' !! id = q !! id).
Proof.
  intros subs Hev Ho Hio Hins Hinj Hfresh q' body. pose proof (rows_valid_run ops) as Hv. pose proof (qualified_name _ _ _ Hev) as Hn.
  unfold q', handle. rewrite Hev, Hio. fold subs in Hv. unfold MatchingSubscriptions. set (rows := order _).
  assert (forall s r, subs !! s = Some r /\ subscribes name r <-> r ∈ rows /\ sb_ID r = s) as Hrows.
  { intros s r. unfold rows. rewrite Ho, (list_elem_of_In (List.filter _ _)), filter_In, <- list_elem_of_In, list_elem_of_fmap. split.
    - intros [Er Hs]. split; [split; [exists (s, r); split; [done|by apply elem_of_map_to_list]|apply (listens_subscribes s); [by apply Hv|done..]]|]. by destruct (Hv _ _ Er).
    - intros [[([s' r'] & -> & Er) Hl] <-]. apply elem_of_map_to_list in Er. cbn in *. destruct (Hv _ _ Er) as [-> Hr]. split; [done|].
      apply (listens_subscribes s'); [by apply Hv|done..]. }
  assert (NoDup (sb_ID <$> rows)) as Hnd.
  { unfold rows. rewrite Ho. apply (NoDup_fmap_2_strong sb_ID).
    - intros r1 r2 H1 H2 E. rewrite list_elem_of_In, filter_In, <- list_elem_of_In, list_elem_of_fmap in H1, H2.
      destruct H1 as [([k1 x1] & -> & H1) _], H2 as [([k2 x2] & -> & H2) _]. apply elem_of_map_to_list in H1, H2. cbn in *.
      destruct (Hv _ _ H1) as [E1 _], (Hv _ _ H2) as [E2 _]. congruence.
    - assert (NoDup (snd <$> map_to_list subs)) as Hall.
      { apply (NoDup_fmap_2_strong snd); [|apply NoDup_map_to_list]. intros [k1 x1] [k2 x2] H1 H2 E. apply elem_of_map_to_list in H1, H2. cbn in *.
        destruct (Hv _ _ H1) as [E1 _], (Hv _ _ H2) as [E2 _]. by subst. }
      by apply NoDup_ListNoDup, List.NoDup_filter, NoDup_ListNoDup. }
  destruct (fanned v subs name body (read_row <$> rows)) with (q := q) as [H1 H2].
  - intros s Hs. apply list_elem_of_fmap in Hs as (r & -> & Hr). cbn [read_row sb_ID]. split; [|apply Hins].
    destruct (proj2 (Hrows (sb_ID r) r) (conj Hr eq_refl)) as [Er _]. by exists r.
  - rewrite <- list_fmap_compose. replace ((fo_id v ∘ sb_ID) ∘ read_row <$> rows) with (fo_id v <$> (sb_ID <$> rows)) by (by rewrite <- list_fmap_compose).
    apply NoDup_fmap_2; [|done]. intros s s'. apply Hinj.
  - intros s _. apply Hfresh.
  - split.
    + intros s r Er Hs. destruct (proj1 (Hrows s r) (conj Er Hs)) as [Hr Hid]. specialize (H1 (read_row r)). cbn [read_row sb_ID] in H1.
      rewrite Hid in H1. apply H1, list_elem_of_fmap. by exists r.
    + intros id Hid. apply H2. intros Hin. apply list_elem_of_fmap in Hin as (s & E & Hs). apply list_elem_of_fmap in Hs as (r & -> & Hr).
      destruct (proj2 (Hrows (sb_ID r) r) (conj Hr eq_refl)) as [Er Hsub]. by apply (Hid (sb_ID r) r).
Qed.

(** A subscription to failed deployments and one to everything; the second was
    switched off later. *)
Definition sample_ops : list sub_op :=
  [SCreate (Some (MkSubCreate "ops" "https://ops.example/hook" [" deployment.failed "; "job.failed"] None)) false "s1" "0123456789abcdef" 1;
   SCreate (Some (MkSubCreate "all" "http://10.0.0.7:8080/" [] None)) false "s2" "fedcba9876543210" 2;
   SUpdate false false "s2" (Some (MkSubUpdate None None None (Some false))) 3]%string.

Definition sample_fanout : fanout_env := MkFanout false "abc" "2024-01-01T00:00:00Z" (fun s => "d-" ++ s)%string (fun _ => 5) (fun _ => false).
Definition failed_deployment : Event := MkHubEvent "deployment" (Some {[ "status" := JString "failed"; "id" := JString "dep_1" ]})%string.

Lemma events_reach_their_subscribers_witness :
  exists body, handle id sample_fanout failed_deployment (foldl sub_step ∅ sample_ops) ∅ !! "d-s1"%string
    = Some (told sample_fanout "deployment.failed" body "s1") /\
  handle id sample_fanout failed_deployment (foldl sub_step ∅ sample_ops) ∅ !! "d-s2"%string = None.
Proof.
  assert (exists data, qualifyEvent failed_deployment = Some ("deployment.failed"%string, data)) as [data Hd] by (eexists; vm_compute; reflexivity).
  destruct (events_reach_their_subscribers sample_ops id sample_fanout failed_deployment "deployment.failed" data ∅ Hd) as [H1 H2].
  - intros l. reflexivity.
  - reflexivity.
  - reflexivity.
  - intros s s' E. injection E as E. exact E.
  - reflexivity.
  - eexists. split.
    + assert (exists r, foldl sub_step ∅ sample_ops !! "s1"%string = Some r /\ sb_Enabled r = true /\
        sb_Events (read_row r) = ["deployment.failed"; "job.failed"]%string) as (r & Er & Hen & Hev)
        by (eexists; split; [vm_compute; reflexivity|split; vm_compute; reflexivity]).
      apply (H1 "s1"%string r Er). split; [exact Hen|]. right. rewrite Hev. left.
    + vm_compute. reflexivity.
Defined.

(* ------------------------------------------------------------------ *)
(** ** What a receiver gets *)

Definition post_header (name : string) (p : post) : option string :=
  snd <$> List.find (fun kv => bool_decide (kv.1 = name)) (po_Headers p).

(** The check the documentation tells receivers to make; [now]: seconds. *)
Definition receiver_accepts (secret : string) (now : Z) (p : post) : bool :=
  match post_header "X-Orva-Timestamp" p, post_header "X-Orva-Signature" p with
  | Some ts, Some sig =>
    match parseInt64 ts with
    | Some t => (Z.abs (now - t) <=? 300) && bool_decide (sig = ("sha256=" ++ hex_mac secret (stripe_payload ts (po_Body p)))%string)
    | None => false
    end
  | _, _ => false
  end.

Lemma response_keeps_state st id (q : gmap string WebhookDelivery) : qs <$> Jobs.set_response st id q = qs <$> q.
Proof.
  apply map_eq. intros k. rewrite !lookup_fmap. unfold Jobs.set_response. rewrite lookup_alter. case_decide as E; [|done]. subst k. by destruct (q !! id).
Qed.

(** What the queue is told of an attempt, and the copy it is told with: a
    delivery whose subscription cannot be read has no attempts left. *)
Definition attempt_verdict (v : attempt_env) (d : WebhookDelivery) (subs : gmap string sub_row) : WebhookDelivery * option string :=
  match GetEventSubscription (at_read_io v) (d_SubscriptionID d) subs with
  | None => (d <| d_state ::= fun s => s <| q_attempts := q_max s |> |>, Some ("subscription deleted: " ++ at_lookup_text v)%string)
  | Some _ => (d, fst <$> attempt_error (at_result v))
  end.


Definition sample_attempt (read_io : bool) (result : post_result) : attempt_env := MkAttempt read_io "database is locked" 9 1700000000 result false false.
Definition sample_delivery : WebhookDelivery :=
  told sample_fanout "deployment.failed" (bytes "{}") "s1" <| d_state ::= fun s => s <| q_status := "running"%string |> <| q_attempts := 1 |> |>.
Definition sample_queue : gmap string WebhookDelivery := {[ "d-s1"%string := sample_delivery ]}.


(** A subscription that could not be read counts as deleted: the delivery fails
    for good on its first attempt. *)
Example unreadable_subscriptions_are_given_up :
  (fun r => (q_status (qs r), q_attempts (qs r), q_error (qs r))) <$>
    (deliverWebhook (sample_attempt true (Answered 204)) "d-s1" sample_delivery (foldl sub_step ∅ sample_ops) sample_queue).1.2 !! "d-s1"%string
  = Some ("failed"%string, 1, Some "subscription deleted: database is locked"%string).
Proof. vm_compute. reflexivity. Qed.
